(* ===== verification/_CoqProject ===== *)
-Q . S2P
Prelude.v
Bits.v
Btest.v
BtestSpec.v
LinkedList.v
LinkedListSpec.v
LinkedListIter.v
Alloc.v
HashTable.v
HashTableSpec.v
Table.v
DocTable.v
FileParser.v
FileParserSpec.v
MemIndex.v
MemIndexSpec.v
FileCrawler.v
FileCrawlerSpec.v
SearchShell.v
SearchShellSpec.v
Disk.v
DiskSpec.v
IndexWriter.v
IndexWriterSpec.v
IndexReader.v
IndexReaderSpec.v
IndexQuery.v
IndexQuerySpec.v
Fsck.v
FsckSpec.v
JosString.v
JosStringSpec.v
Boot.v
BootSpec.v
Entry.v
JosPrintf.v
JosPrintfSpec.v
Malloc.v
MallocList.v
MallocSpec.v
MallocRealloc.v
MallocBrk.v
Allocator.v
Mdriver.v
MdriverSpec.v
MdriverTrace.v
Console.v
ConsoleSpec.v
Kdebug.v
KdebugSpec.v
Trie.v
TrieSpec.v
Monitor.v
MonitorSpec.v
Shell.v
ShellSpec.v
EasyShell.v
EasyShellSpec.v
Cache.v
CacheSpec.v
Echo.v
EchoSpec.v
Primes.v
Exs.v
ExsSpec.v
Fcyc.v
FcycSpec.v
Bufbomb.v
BufbombSpec.v
Gasp.v
GaspSpec.v
ThreadPool.v
ThreadPoolSpec.v
Boost.v
HttpUtils.v
HttpUtilsSpec.v
HttpConnection.v
HttpConnectionSpec.v
HttpServer.v
HttpServerSpec.v
