(* ===== verification/Prelude.v ===== *)
(** * Verified coursework in C and C++

    The repository collects the programs its author wrote for several courses; this
    development models the C and C++ programs among them that have logic of their own
    and proves what makes each correct.  The programs share little code, but the courses
    build them in layers, and so do the files here:

    - [uw_cse333/hw]: a linked list and a hash table (hw1), over them a document table, a
      file parser, an inverted index, a crawler and a search shell (hw2), over these
      index files on disk with their writer, readers and search shell (hw3), and a web
      server with its thread pool (hw4);
    - [mit6.828/lab]: the boot loader, first page tables, string routines, formatted
      output, console, kernel debugger and monitor of the JOS kernel; and
      [mit6.828/homework/shell], a small shell, in C and once more in C++;
    - [uw_cse351]: bit and pointer puzzles with their test harness (lab1), the buffer
      bomb (lab3), experiments on caches (lab4), a heap allocator with its trace driver
      and its timer (lab5);
    - [uw_cse374]: a pattern matcher (hw3) and a T9 dictionary (hw4);
    - [cmu_15-441/liso]: an echo server over [select];
    - [uw_cse333/exs]: an insertion sort, the n-th prime, a vector.

    ** How code becomes definitions

    A [w]-bit integer is a [Z] with its wrap-around written out ([u8] to [u64], [s8] to
    [s64] below); an [int] that only counts or carries a character is left unwrapped
    where the file says so.  A run that can fail is a [res]: its value or a [fault] -
    a bad access, a failed [Verify333] or [assert], an [exit] with its status, or,
    only in the model, exhausted fuel.  A run over a state is an [M], written with
    [let*] and [do*].  A loop is a fixpoint, by fuel where it is not structural; a
    theorem about it gives the fuel that is enough and so its termination.  What is
    not in the repository - devices, the kernel behind system calls, the file system,
    [malloc]'s failures, a cache in an object file, [double]s, the linker's tables - is
    an argument, a class or an oracle, with what the code relies on as its laws, and
    each theorem with such laws has a witness over a concrete instance.

    Two models of the C heap are used.  [LinkedList], [Trie], [Shell] and [Malloc] keep
    an explicit store of records, words or nodes, so that aliasing, use after free and
    leaks are visible; the clients of the list and the table ([HashTable] to
    [SearchShell], [Exs]) are value-level over the allocator of [Alloc], which counts
    the live blocks and fails when an oracle says so.

    ** The files

    [Prelude]: machine integers, runs, arrays, numerals, some C library functions, and the
    lemmas and tactics the rest shares.

    [Bits] ([lab1/bits.c], [tests.c], [pointer.c]): every puzzle agrees with its reference
    function ([bits_match_tests]). [Btest], [BtestSpec] ([btest.c], [decl.c]): the
    harness, which gives the puzzles all points whatever [rand] returns.

    [LinkedList], [LinkedListSpec], [LinkedListIter] ([hw1/LinkedList.c]): the doubly
    linked list on a heap of records. A heap shows a [world], a map from lists to
    sequences; every operation refines a step on worlds and leaves other lists alone,
    sorting ends with the payloads sorted, iterators keep their places, freeing leaks
    nothing, and a failing [malloc] changes nothing.

    [Alloc], [HashTable], [HashTableSpec] ([hw1/HashTable.c]): chained hashing over such
    sequences. A well-formed table shows a [gmap]; insertion, lookup, removal, iteration
    and growth refine the map's operations, and the number of live blocks is accounted
    for. [Table]: the interface of [HashTable.h] as a class of operations and a class of
    laws, discharged by [HashTable].

    [DocTable], [FileParser], [FileParserSpec], [MemIndex], [MemIndexSpec], [FileCrawler],
    [FileCrawlerSpec], [SearchShell], [SearchShellSpec] ([hw2/*.c]): the search engine,
    proved against the laws of [Table]: a file's words are indexed with all their
    positions, but for a run of letters that reaches the very end of the file, which the
    parser loses; an index answers a query with exactly the documents that have every word,
    ranked by the number of occurrences, a crawl indexes every file of a tree, and a
    session of the shell answers the lines accordingly and frees everything, up to a line
    that breaks it. The file system is a tree of the answers of its calls.

    [Disk], [DiskSpec], [IndexWriter], [IndexWriterSpec], [IndexReader],
    [IndexReaderSpec], [IndexQuery], [IndexQuerySpec] ([hw3/*.cc]): the index on disk.
    Structures are packed big-endian, a class [Packed] with its laws; the checksum is the
    reflected CRC-32. A table is written as buckets of elements, an element being whatever
    a [Writer] puts there, and its reader finds again what was written; so an index
    written to disk serves exactly what it held in memory ([WriteIndex_roundtrip]), and
    crawling a tree, writing its index and searching it gives the documents that have all
    the words ([index_and_search]). [Fsck], [FsckSpec] ([hw3/hw3fsck/*.cc]): the checker
    of index files as a run that collects complaints; it has none about an index that was
    built ([built_index_passes]), and it judges the header and the checksum as the
    constructor of the readers does ([silent_run_opens]).

    [ThreadPool], [ThreadPoolSpec] ([hw4/ThreadPool.cc]): the pool as a transition system,
    a step for each way a thread gets to its next call of the threads library or of a
    task's function, whatever the scheduler chooses; an invariant gives what holds under every schedule
    ([pool_safe]), a measure that it ends ([pool_terminates]). [Boost]: the string
    algorithms the server takes from Boost, a class with laws. [HttpUtils],
    [HttpUtilsSpec], [HttpConnection], [HttpConnectionSpec], [HttpServer],
    [HttpServerSpec] ([hw4/Http*.cc], [FileReader.cc], [ServerSocket.cc], [http333d.cc]):
    URLs and escapes, the connection, whose requests are read back whatever pieces they
    arrive in, and the worker that answers them with files ([server_answers]). The worker
    of a connection runs by itself in the model: workers share nothing but the heap and
    files they only read.

    [JosString], [JosStringSpec] ([lab/lib/string.c]): the string routines on a byte
    memory, with the string instructions inside them. [JosPrintf], [JosPrintfSpec]
    ([lib/printfmt.c], [kern/printf.c]): [vprintfmt] against a declarative rendering of
    formats, [vsnprintf]'s bounds, and decimal numbers read back by [strtol]. [Boot],
    [BootSpec] ([boot/main.c], [inc/elf.h], [inc/x86.h]): on any disk that keeps the ATA
    protocol the loader puts every segment of the kernel in its place and enters it, and
    spins on an image that is not ELF.
    [Entry] ([kern/entrypgdir.c], [inc/mmu.h]): what the first page tables map. [Console],
    [ConsoleSpec] ([kern/console.c]): the input buffer as a queue, the screen, the
    keyboard, which types what is engraved on its keys. [Kdebug], [KdebugSpec] ([kern/kdebug.c]): the binary search over stabs and
    the facts [debuginfo_eip] reports. [Monitor], [MonitorSpec] ([lib/readline.c],
    [kern/monitor.c], [kern/init.c]): line editing and commands over the interface of the
    console. [Shell], [ShellSpec] ([homework/shell/sh.c]): the parser reads back every
    command tree from every layout of it, and running it makes the right system calls.
    [EasyShell], [EasyShellSpec] ([homework/shell/*.cc]): the shell in C++ on the same
    grammar, a session of it ([easysh_session]), and that both shells run the same
    programs ([shells_agree]).

    [Malloc], [MallocList], [MallocSpec], [MallocRealloc], [MallocBrk] ([lab5/memlib.c],
    [mm.c]): boundary tags and an explicit free list; the heap invariant, and what
    [mm_malloc], [mm_free] and [mm_realloc] do to the payloads in use. [Allocator]: the
    interface of [mm.h] as classes. [Mdriver], [MdriverSpec], [MdriverTrace]
    ([mdriver-realloc.c]): the verdict of the trace driver over that interface on [mm.c]
    for every trace of proper requests ([driver_accepts]), and what the whole program,
    from the trace files to the sums of its statistics, makes of a list of them
    ([mdriver_passes]); the memory may run out, and resized ids of some numbers deceive
    the driver. [Fcyc], [FcycSpec] ([fcyc.c]):
    the best-of-K timer. [Cache], [CacheSpec] ([lab4/cache-test-skel.c]): the experiments
    find the geometry of every LRU or FIFO set-associative cache. [Bufbomb], [BufbombSpec]
    ([lab3/bufbomb.c]): reading attack strings.

    [Trie], [TrieSpec] ([uw_cse374/hw4]): a session of the T9 program against the
    dictionary it was given. [Gasp], [GaspSpec] ([uw_cse374/hw3/gasp.c]): the lines
    printed. [Echo], [EchoSpec] ([cmu_15-441/liso/echo_server.c]): on any kernel, what
    each client is sent, that every ready descriptor is answered, and the one way to
    overrun the descriptor sets. [Primes], [Exs],
    [ExsSpec] ([uw_cse333/exs]): sorting, [GetPrime] - whose termination needs that there
    are enough primes, which [Primes] proves after Chebyshev - and the vector.

    The examples at the end of the files and the witnesses next to the theorems evaluate
    the definitions on concrete inputs; some show behaviour the code does not intend.

    ** Fuel

    Loops over a C string or a buffer need one step more than its length; table and
    index loops as many as there are elements; [SortLinkedList] the square of the length
    in sweeps; the searches of [Malloc] the number of blocks, at most the heap's size
    over 32; [stab_binsearch] the length of its interval; the parsers and the formatter
    the length of what they read; [Console] the characters the devices have delivered;
    the cache experiments the block size plus the number of blocks; [Boot] the polls its
    disk makes it wait, and the sectors and headers of the kernel; [Echo] the 1024
    descriptors of an [fd_set]; [GetPrime] 2^25, below which there are 65535 primes;
    [fcyc] its [maxsamples]; the checksum loops of an index file its blocks of 512 bytes;
    the search shells a line per character; a connection a read for each of its bytes and
    interruptions, and a request per byte.

    ** Not modelled

    What is only printed for people to read (prompts, usage and error messages, reports),
    the command lines, timers and signal handlers; assembly; the unit tests and the
    third-party code under [uw_cse333/hw]; of the web server, the addresses it prints and
    the client side; the programs in other languages. Stack contents after an overflow are
    not modelled: a write outside an array is a fault. *)
From Stdlib Require Import ZArith Lia.
From stdpp Require Export base numbers list option gmap sorting.

(** * Machine integers

    A [w]-bit unsigned C integer is a [Z] in [0, 2^w); a signed one is a [Z]
    in [-2^(w-1), 2^(w-1)).  [u8]/[u16]/[u32]/[u64] and [s8]/[s32] are the
    conversions C applies when a value is stored in such a type. *)
Open Scope Z_scope.

Definition wrapu (w x : Z) : Z := x mod 2 ^ w.
Definition wraps (w x : Z) : Z := (x + 2 ^ (w - 1)) mod 2 ^ w - 2 ^ (w - 1).

Abbreviation u8 := (wrapu 8).
Abbreviation u16 := (wrapu 16).
Abbreviation u32 := (wrapu 32).
Abbreviation u64 := (wrapu 64).
Abbreviation s8 := (wraps 8).
Abbreviation s32 := (wraps 32).
Abbreviation s64 := (wraps 64).

Abbreviation is_u w x := (0 <= x < 2 ^ w) (only parsing).
Abbreviation is_s w x := (- 2 ^ (w - 1) <= x < 2 ^ (w - 1)) (only parsing).

(** Folds the bounds of the machine types into numerals and calls [lia]. *)
Ltac bound_lia :=
  repeat match goal with
  | H : context [2 ^ (?a - 1)] |- _ =>
      let v := eval compute in (2 ^ (a - 1)) in change (2 ^ (a - 1)) with v in H
  | |- context [2 ^ (?a - 1)] =>
      let v := eval compute in (2 ^ (a - 1)) in change (2 ^ (a - 1)) with v
  | H : context [2 ^ (Zpos ?a)] |- _ =>
      let v := eval compute in (2 ^ (Zpos a)) in change (2 ^ (Zpos a)) with v in H
  | |- context [2 ^ (Zpos ?a)] =>
      let v := eval compute in (2 ^ (Zpos a)) in change (2 ^ (Zpos a)) with v
  end; lia.

(** Evaluates a closed arithmetic goal. *)
Ltac concrete := vm_compute; repeat split; first [reflexivity | discriminate].

(** C truth values. *)
Definition b2z (b : bool) : Z := if b then 1 else 0.
Definition cnot (x : Z) : Z := b2z (x =? 0).

Lemma wrapu_range w x : 0 < w -> is_u w (wrapu w x).
Proof. intros; unfold wrapu; apply Z.mod_pos_bound, Z.pow_pos_nonneg; lia. Qed.

Lemma wrapu_small w x : is_u w x -> wrapu w x = x.
Proof. intros; unfold wrapu; apply Z.mod_small; lia. Qed.

Lemma lxor_u w a b : 0 <= w -> is_u w a -> is_u w b -> is_u w (Z.lxor a b).
Proof.
  intros Hw [Ha1 Ha2] [Hb1 Hb2]. assert (H0 : 0 <= Z.lxor a b) by (by apply Z.lxor_nonneg). split; [done|].
  replace (Z.lxor a b) with (Z.lxor a b mod 2 ^ w); [apply Z.mod_pos_bound; lia|].
  apply Z.bits_inj'. intros n Hn. destruct (Z.lt_ge_cases n w); [by rewrite Z.mod_pow2_bits_low|].
  rewrite Z.mod_pow2_bits_high, Z.lxor_spec by lia.
  rewrite <- (Z.mod_small a (2 ^ w)), <- (Z.mod_small b (2 ^ w)), !Z.mod_pow2_bits_high by lia. done.
Qed.

Lemma wraps_range w x : 0 < w -> is_s w (wraps w x).
Proof.
  intros; unfold wraps.
  pose proof (Z.mod_pos_bound (x + 2 ^ (w - 1)) (2 ^ w)) as H0.
  pose proof (Z.pow_pos_nonneg 2 w).
  replace (2 ^ w) with (2 * 2 ^ (w - 1)) in *
    by (rewrite <- Z.pow_succ_r by lia; f_equal; lia).
  lia.
Qed.

Lemma wraps_small w x : 0 < w -> is_s w x -> wraps w x = x.
Proof.
  intros Hw Hx; unfold wraps. rewrite Z.mod_small; [lia|].
  replace (2 ^ w) with (2 * 2 ^ (w - 1))
    by (rewrite <- Z.pow_succ_r by lia; f_equal; lia).
  lia.
Qed.

(** * Runs that can fail

    A C run either returns or ends in a [fault]: a dereference of [NULL] or of
    a freed or unmapped address, a failed [Verify333]/[assert], a call of
    [exit] with its status, or (only in the model) exhausted fuel. *)
Inductive fault : Type :=
  | BadAccess
  | VerifyFailed
  | AssertFailed
  | Exit (status : Z)
  | OutOfFuel.

#[export] Instance fault_eq_dec : EqDecision fault.
Proof. solve_decision. Defined.

Inductive res (A : Type) : Type :=
  | Ok (a : A)
  | Err (e : fault).
Arguments Ok {A} a.
Arguments Err {A} e.

#[export] Instance res_eq_dec {A} `{EqDecision A} : EqDecision (res A).
Proof. solve_decision. Defined.

(** State-passing runs over a state [S]. *)
Definition M (S A : Type) : Type := S -> res (A * S).

Definition ret {S A} (a : A) : M S A := fun s => Ok (a, s).
Definition fail {S A} (e : fault) : M S A := fun _ => Err e.
Definition bind {S A B} (m : M S A) (k : A -> M S B) : M S B :=
  fun s => match m s with
           | Ok (a, s') => k a s'
           | Err e => Err e
           end.
Definition gets {S A} (f : S -> A) : M S A := fun s => Ok (f s, s).
Definition modify {S} (f : S -> S) : M S unit := fun s => Ok (tt, f s).
(** The value of an option, or the fault of reading where there is none. *)
Definition get_or {S A} (e : fault) (o : option A) : M S A :=
  match o with Some a => ret a | None => fail e end.
Definition ensure {S} (e : fault) (b : bool) : M S unit :=
  if b then ret tt else fail e.

Declare Scope run_scope.
Delimit Scope run_scope with run.
Notation "'let*' x := m 'in' k" := (bind m (fun x => k))
  (at level 10, x pattern, m at level 100, k at level 200)
  : run_scope.
Notation "'do*' m ; k" := (bind m (fun _ => k))
  (at level 10, m at level 100, k at level 200)
  : run_scope.
Open Scope run_scope.

(** The fault-only monad, for pure code that can fail. *)
Definition rbind {A B} (m : res A) (k : A -> res B) : res B :=
  match m with Ok a => k a | Err e => Err e end.
Notation "'let?' x := m 'in' k" := (rbind m (fun x => k))
  (at level 10, x pattern, m at level 100, k at level 200)
  : run_scope.

Lemma bind_ok {S A B} (m : M S A) (k : A -> M S B) s a s' :
  m s = Ok (a, s') -> bind m k s = k a s'.
Proof. intros H; unfold bind; by rewrite H. Qed.

Lemma bind_err {S A B} (m : M S A) (k : A -> M S B) s e :
  m s = Err e -> bind m k s = Err e.
Proof. intros H; unfold bind; by rewrite H. Qed.

Lemma bind_inv {S A B} (m : M S A) (k : A -> M S B) s b s'' :
  bind m k s = Ok (b, s'') ->
  exists a s', m s = Ok (a, s') /\ k a s' = Ok (b, s'').
Proof. unfold bind; destruct (m s) as [[a s']|e]; [eauto|done]. Qed.

Lemma bind_ret {S A B} (a : A) (k : A -> M S B) s : bind (ret a) k s = k a s.
Proof. done. Qed.

Lemma bind_gets {S A B} (f : S -> A) (k : A -> M S B) s : bind (gets f) k s = k (f s) s.
Proof. done. Qed.

Lemma bind_assoc {S A B C} (m : M S A) (k : A -> M S B) (j : B -> M S C) s :
  bind (bind m k) j s = bind m (fun a => bind (k a) j) s.
Proof. unfold bind. by destruct (m s) as [[]|]. Qed.

(** Rewrites the first run of a sequence with the equation [H]. *)
Ltac step H := rewrite (bind_ok _ _ _ _ _ H); cbn beta iota.
(** Unfolds the plumbing of one run. *)
Ltac run_simpl := cbn [bind ret fail gets modify get_or ensure] in *.

(** * Lists *)

Lemma zip_fst_snd {A B} (xs : list (A * B)) : zip xs.*1 xs.*2 = xs.
Proof. induction xs as [|[] xs IH]; cbn; [done|by f_equal]. Qed.

Lemma Sorted_weaken {A} (R R' : A -> A -> Prop) (xs : list A) :
  (forall a b, R a b -> R' a b) -> Sorted R xs -> Sorted R' xs.
Proof.
  intros HR. induction 1 as [|x xs _ IH Hx]; constructor; [done|].
  destruct Hx; constructor; auto.
Qed.

Lemma sorted_insert {A} (R : A -> A -> Prop) x ys1 ys2 : Transitive R -> StronglySorted R (ys1 ++ ys2) ->
  Forall (R x) ys2 -> (forall y, last ys1 = Some y -> R y x) -> StronglySorted R (ys1 ++ x :: ys2).
Proof.
  intros HR Hs H2 H1. revert Hs H1. induction ys1 as [|y ys1 IH]; intros Hs H1; cbn in *.
  - by constructor.
  - inversion Hs as [|? ? Hs' Hy]; subst. constructor.
    + apply IH; [done|]. intros y' Hy'. apply H1. by rewrite last_cons, Hy'.
    + apply Forall_app in Hy as [Hy1 Hy2]. apply Forall_app. split; [done|]. constructor; [|done].
      destruct (last ys1) as [y'|] eqn:El.
      * specialize (H1 y'). rewrite last_cons, El in H1. specialize (H1 eq_refl).
        apply last_Some in El as [l ->]. apply Forall_app in Hy1 as [_ Hy1]. inversion Hy1; subst. by transitivity y'.
      * apply H1. by rewrite last_cons, El.
Qed.

(** * Arrays

    An array is the list of its cells; [a[i]] and [a[i] = x] outside it are faults. *)

Definition cell {A} (a : list A) (i : Z) : res A :=
  match (if 0 <=? i then a !! Z.to_nat i else None) with Some x => Ok x | None => Err BadAccess end.
Definition set_cell {A} (a : list A) (i : Z) (x : A) : res (list A) :=
  if (0 <=? i) && (i <? Z.of_nat (length a)) then Ok (<[Z.to_nat i := x]> a) else Err BadAccess.

Lemma cell_at {A} (a : list A) i x : 0 <= i -> a !! Z.to_nat i = Some x -> cell a i = Ok x.
Proof. intros Hi E. unfold cell. destruct (Z.leb_spec 0 i); [|lia]. by rewrite E. Qed.

Lemma set_cell_at {A} (a : list A) i x : 0 <= i < Z.of_nat (length a) -> set_cell a i x = Ok (<[Z.to_nat i := x]> a).
Proof. intros Hi. unfold set_cell. destruct (Z.leb_spec 0 i), (Z.ltb_spec i (Z.of_nat (length a))); lia || done. Qed.

Lemma cell_middle {A} (xs ys : list A) x : cell (xs ++ x :: ys) (Z.of_nat (length xs)) = Ok x.
Proof. apply cell_at; [lia|]. rewrite Nat2Z.id. by apply list_lookup_middle. Qed.

Lemma set_cell_middle {A} (xs ys : list A) x y : set_cell (xs ++ x :: ys) (Z.of_nat (length xs)) y = Ok (xs ++ y :: ys).
Proof.
  rewrite set_cell_at by (rewrite length_app; cbn [length]; lia). rewrite Nat2Z.id.
  rewrite insert_app_r_alt by lia. by rewrite Nat.sub_diag.
Qed.

(** * The C library *)

(** In the C locale. *)
Definition tolower (c : Z) : Z := if (65 <=? c) && (c <=? 90) then c + 32 else c.

(** Blanks, in the C locale. *)
Definition isspace (c : Z) : bool := (c =? 32) || ((9 <=? c) && (c <=? 13)).

(** The string at the front of a buffer. *)
Fixpoint c_string (b : list Z) : list Z :=
  match b with [] => [] | c :: b' => if c =? 0 then [] else c :: c_string b' end.

(** What [fgets] reads with room for [n] octets, and what is left. *)
Fixpoint fgets_chunk (n : nat) (bytes : list Z) : list Z * list Z :=
  match n, bytes with
  | S n', c :: bytes' =>
      if c =? 10 then ([c], bytes')
      else let '(chunk, rest) := fgets_chunk n' bytes' in (c :: chunk, rest)
  | _, _ => ([], bytes)
  end.

Lemma fgets_chunk_line w rest : forall n, Forall (fun c => c <> 0 /\ c <> 10) w -> (length w < n)%nat ->
  fgets_chunk n (w ++ 10 :: rest) = (w ++ [10], rest).
Proof.
  induction w as [|c w IH]; intros [|n] Hw Hn; cbn in Hn |- *; try lia; [done|].
  inversion Hw as [|? ? [_ Hc] Hw']; subst. rewrite (proj2 (Z.eqb_neq c 10)) by done.
  by rewrite IH by (done || lia).
Qed.

(** * Numerals *)

(** The number that digits denote, most significant first. *)
Definition digits_value (base : Z) (ds : list Z) : Z := fold_left (fun v d => v * base + d) ds 0.

(** The digits of [n], most significant first. *)
Fixpoint digits (fuel : nat) (base n : Z) : list Z :=
  match fuel with
  | O => []
  | S fuel' => if base <=? n then digits fuel' base (n / base) ++ [n mod base] else [n]
  end.

Lemma digits_bound fuel base n : 2 <= base -> 0 <= n -> n < base ^ Z.of_nat fuel ->
  Forall (fun d => 0 <= d < base) (digits fuel base n) /\ digits_value base (digits fuel base n) = n.
Proof.
  intros Hb. revert n. induction fuel as [|fuel IH]; intros n Hn Hlt.
  - assert (n = 0) as -> by (cbn in Hlt; lia). by split; [constructor|].
  - cbn [digits]. destruct (Z.leb_spec base n).
    + destruct (IH (n / base)) as [H1 H2].
      * apply Z.div_pos; lia.
      * apply Z.div_lt_upper_bound; [lia|]. rewrite Nat2Z.inj_succ, Z.pow_succ_r in Hlt by lia. lia.
      * pose proof (Z.mod_pos_bound n base). pose proof (Z.div_mod n base). split.
        -- apply Forall_app. split; [done|]. repeat constructor; lia.
        -- unfold digits_value in *. rewrite fold_left_app, H2. cbn. lia.
    + split; [repeat constructor; lia|]. unfold digits_value. cbn. lia.
Qed.

Lemma digits_head fuel base n : 2 <= base -> 0 < n -> n < base ^ Z.of_nat fuel ->
  exists d ds, digits fuel base n = d :: ds /\ 0 < d < base.
Proof.
  intros Hb. revert n. induction fuel as [|fuel IH]; intros n Hn Hlt; [cbn in Hlt; lia|].
  cbn [digits]. destruct (Z.leb_spec base n); [|by exists n, []; split; [|lia]].
  destruct (IH (n / base)) as (d & ds & E & Hd).
  - apply Z.div_str_pos; lia.
  - apply Z.div_lt_upper_bound; [lia|]. rewrite Nat2Z.inj_succ, Z.pow_succ_r in Hlt by lia. lia.
  - rewrite E. by exists d, (ds ++ [n mod base]).
Qed.

Lemma digits_length fuel base n k : 2 <= base -> 0 <= n < base ^ Z.of_nat (S k) ->
  (length (digits fuel base n) <= S k)%nat.
Proof.
  intros Hb. revert n k. induction fuel as [|fuel IH]; intros n k Hn; cbn [digits]; [cbn; lia|].
  destruct (Z.leb_spec base n); [|cbn; lia]. rewrite length_app. cbn [length].
  destruct k as [|k]; [change (Z.of_nat 1) with 1 in Hn; lia|].
  rewrite (Nat2Z.inj_succ (S k)), Z.pow_succ_r in Hn by lia.
  specialize (IH (n / base) k ltac:(split; [apply Z.div_pos; lia|apply Z.div_lt_upper_bound; lia])).
  lia.
Qed.

Lemma digits_not_nil base n : digits 64 base n <> [].
Proof. cbn [digits]. destruct (_ <=? _); [|done]. intros H%app_nil. by destruct H. Qed.
