(* ===== verification/Bits.v ===== *)
(** The data lab: [uw_cse351/lab1].  [bits.c] holds the bit-level puzzles,
    [tests.c] the reference functions the lab's driver compares them with, and
    [pointer.c] the pointer puzzles.  A 32-bit [int] is a [Z] in
    [-2^31, 2^31); [~], [&], [|], [^] and the arithmetic [>>] stay inside that
    range on their own, while [+], [-] and [<<] wrap through [s32]. *)
From S2P Require Import Prelude.
From Stdlib Require Import ZArith Lia Btauto.
Open Scope Z_scope.

(** ** bits.c *)

Definition bitAnd (x y : Z) : Z :=
  let negx := Z.lnot x in
  let negy := Z.lnot y in
  Z.lnot (Z.lor negx negy).

Definition bitXor (x y : Z) : Z :=
  let negx := Z.lnot x in
  let negy := Z.lnot y in
  Z.land (Z.lnot (Z.land x y)) (Z.lnot (Z.land negx negy)).

Definition thirdBits : Z :=
  let mask := 0x49 in
  let ret := 0x49 in
  let ret := s32 (Z.shiftl ret 9) in
  let ret := Z.lor ret mask in
  let ret := s32 (Z.shiftl ret 9) in
  let ret := Z.lor ret mask in
  let ret := s32 (Z.shiftl ret 6) in
  let ret := Z.lor ret 0x09 in
  ret.

Definition fitsBits (x n : Z) : Z :=
  let minusOne := Z.shiftr (s32 (Z.shiftl 0xFF 24)) 24 in
  let mov := s32 (n + minusOne) in
  let value := Z.shiftr x mov in
  Z.lor (cnot (Z.lnot value)) (cnot value).

Definition sign (x : Z) : Z :=
  let ultimate := Z.shiftr x 31 in
  Z.lor ultimate (cnot (cnot x)).

Definition getByte (x n : Z) : Z :=
  let mov := s32 (Z.shiftl n 3) in
  let ret := Z.shiftr x mov in
  Z.land ret 0xff.

Definition logicalShift (x n : Z) : Z :=
  let mask := Z.lnot (s32 (Z.shiftl (Z.shiftr (s32 (Z.shiftl 1 31)) n) 1)) in
  Z.land (Z.shiftr x n) mask.

Definition addOK (x y : Z) : Z :=
  let signx := Z.shiftr x 31 in
  let signy := Z.shiftr y 31 in
  let diffsign := Z.lxor signx signy in
  let signxy := Z.shiftr (s32 (x + y)) 31 in
  Z.lor (cnot (cnot diffsign)) (cnot (Z.lxor (Z.land signx signy) signxy)).

Definition bang (x : Z) : Z :=
  let minus_one := s32 (Z.lnot 1 + 1) in
  let x_minus_one := s32 (x + minus_one) in
  let sign_bit := Z.shiftr (Z.lxor x_minus_one x) 31 in
  Z.land (Z.land sign_bit 1) (Z.shiftr x_minus_one 31).

Definition conditional (x y z : Z) : Z :=
  let notx := Z.shiftr (s32 (Z.shiftl (cnot x) 31)) 31 in
  Z.lor (Z.land (Z.lnot notx) y) (Z.land notx z).

Definition isPower2 (x : Z) : Z :=
  let x_minus_one := s32 (x + s32 (Z.lnot 1 + 0x1)) in
  let sign := Z.land (Z.shiftr x 31) 0x1 in
  let less_equal_zero := Z.lor sign (cnot x) in
  Z.land (cnot (Z.land x x_minus_one)) (cnot less_equal_zero).

(** ** tests.c: what each puzzle is meant to compute *)

Definition test_bitAnd (x y : Z) : Z := Z.land x y.
Definition test_bitXor (x y : Z) : Z := Z.lxor x y.

(** [for (i = 0; i < 32; i += 3) result |= 1<<i;] run for [fuel] rounds. *)
Fixpoint test_thirdBits_loop (fuel : nat) (i result : Z) : res Z :=
  match fuel with
  | O => Err OutOfFuel
  | S fuel' =>
      if i <? 32
      then test_thirdBits_loop fuel' (i + 3) (Z.lor result (s32 (Z.shiftl 1 i)))
      else Ok result
  end.
Definition test_thirdBits : res Z := test_thirdBits_loop 32 0 0.

Definition test_fitsBits (x n : Z) : Z :=
  let TMin_n := s32 (- s32 (Z.shiftl 1 (n - 1))) in
  let TMax_n := s32 (s32 (Z.shiftl 1 (n - 1)) - 1) in
  b2z ((TMin_n <=? x) && (x <=? TMax_n)).

Definition test_sign (x : Z) : Z :=
  if x =? 0 then 0 else if x <? 0 then -1 else 1.

Definition test_getByte (x n : Z) : Z :=
  match n with
  | 0 => u8 x
  | 1 => u8 (Z.shiftr x 8)
  | 2 => u8 (Z.shiftr x 16)
  | _ => u8 (Z.shiftr x 24)
  end.

Definition test_logicalShift (x n : Z) : Z := s32 (Z.shiftr (u32 x) n).

Definition test_addOK (x y : Z) : Z :=
  let lsum := s64 (x + y) in
  b2z (lsum =? s32 lsum).

Definition test_bang (x : Z) : Z := cnot x.

Definition test_conditional (x y z : Z) : Z := if x =? 0 then z else y.

(** [for (i = 0; i < 31; i++) if (x == 1<<i) return 1; return 0;] *)
Fixpoint test_isPower2_loop (fuel : nat) (i x : Z) : res Z :=
  match fuel with
  | O => Err OutOfFuel
  | S fuel' =>
      if i <? 31
      then if x =? s32 (Z.shiftl 1 i) then Ok 1 else test_isPower2_loop fuel' (i + 1) x
      else Ok 0
  end.
Definition test_isPower2 (x : Z) : res Z := test_isPower2_loop 32 0 x.


(** ** pointer.c

    Addresses are 64-bit; [sizeof] of the element type scales pointer
    arithmetic.  Converting a pointer to [int] keeps its low 32 bits. *)

Definition ptr_add (size p i : Z) : Z := u64 (p + size * i).
Definition char_diff (p q : Z) : Z := s32 (s64 (p - q)).

Definition intSize (intArray : Z) : Z :=
  let intPtr1 := intArray in
  let intPtr2 := ptr_add 4 intPtr1 1 in
  char_diff intPtr2 intPtr1.

Definition doubleSize (doubArray : Z) : Z :=
  let doubPtr1 := doubArray in
  let doubPtr2 := ptr_add 8 doubPtr1 1 in
  char_diff doubPtr2 doubPtr1.

Definition pointerSize (ptrArray : Z) : Z :=
  let ptrPtr1 := ptrArray in
  let ptrPtr2 := ptr_add 8 ptrPtr1 1 in
  char_diff ptrPtr2 ptrPtr1.

(** The ten cells of [intArray] hold whatever the stack held. *)
Definition changeValue (intArray : list Z) : option Z :=
  let intPtr2 := (0 + 5)%nat in
  <[intPtr2 := 351]> intArray !! 5%nat.

Definition withinSameBlock (ptr1 ptr2 : Z) : Z :=
  let cptr1 := s32 ptr1 in
  let cptr2 := s32 ptr2 in
  let mask := 0xFF in
  let mask := s32 (s32 (Z.shiftl mask 8) + 0xFF) in
  let mask := s32 (s32 (Z.shiftl mask 8) + 0xFF) in
  let mask := s32 (s32 (Z.shiftl mask 8) + 0xC0) in
  let cptr1 := Z.land cptr1 mask in
  let cptr2 := Z.land cptr2 mask in
  b2z (cptr1 =? cptr2).

Definition withinArray (intArray size ptr : Z) : Z :=
  let diff := s32 (Z.quot (s64 (ptr - intArray)) 4) in
  let diff_size := s32 (s32 (size - diff) - 1) in
  let positive := cnot (Z.land (Z.shiftr diff 31) 0x1) in
  let positive_diff := cnot (Z.land (Z.shiftr diff_size 31) 0x1) in
  Z.land positive positive_diff.

Definition invert (x p n : Z) : Z :=
  let mask := Z.lnot (Z.shiftr (s32 (Z.shiftl 0x1 31)) (31 - n)) in
  let mask := s32 (Z.shiftl mask p) in
  Z.lxor x mask.

(** ** Facts on signed shifts and truth values *)

Lemma sar31 x : is_s 32 x -> Z.shiftr x 31 = if x <? 0 then -1 else 0.
Proof.
  intros H. rewrite Z.shiftr_div_pow2 by lia.
  change (2 ^ (32 - 1)) with (2 ^ 31) in H.
  destruct (Z.ltb_spec x 0).
  - symmetry; apply (Z.div_unique_pos x (2 ^ 31) (-1) (x + 2 ^ 31)); lia.
  - apply Z.div_small; lia.
Qed.

Lemma cnot_spec x : cnot x = if x =? 0 then 1 else 0.
Proof. done. Qed.

Lemma cnot_cnot x : cnot (cnot x) = if x =? 0 then 0 else 1.
Proof. unfold cnot, b2z. by destruct (x =? 0). Qed.

Lemma lor_m1 x : Z.lor (-1) x = -1.
Proof. apply Z.lor_m1_l. Qed.

(** Two bit strings that agree below [w] denote the same [w]-bit pattern. *)
Lemma wraps_testbit w x i :
  0 < w -> 0 <= i < w -> Z.testbit (wraps w x) i = Z.testbit x i.
Proof.
  intros Hw Hi. unfold wraps.
  assert (E : (x + 2 ^ (w - 1)) mod 2 ^ w - 2 ^ (w - 1)
              = x - (x + 2 ^ (w - 1)) / 2 ^ w * 2 ^ w).
  { pose proof (Z.div_mod (x + 2 ^ (w - 1)) (2 ^ w)
                  ltac:(apply Z.pow_nonzero; lia)). lia. }
  rewrite E. set (q := (x + 2 ^ (w - 1)) / 2 ^ w).
  rewrite <- (Z.mod_pow2_bits_low x w i) by lia.
  rewrite <- (Z.mod_pow2_bits_low (x - q * 2 ^ w) w i) by lia.
  f_equal. rewrite Zminus_mod, Z_mod_mult, Z.sub_0_r. apply Zmod_mod.
Qed.

Lemma testbit_signed w x i :
  0 < w -> is_s w x -> w - 1 <= i -> Z.testbit x i = (x <? 0).
Proof.
  intros Hw Hx Hi. destruct (Z.ltb_spec x 0) as [Hn|Hn].
  - destruct (Z.eq_dec x (-1)) as [->|]; [apply Z.bits_m1; lia|].
    apply Z.bits_above_log2_neg; [lia|]. apply Z.log2_lt_pow2; [lia|].
    pose proof (Z.pow_le_mono_r 2 (w - 1) i). lia.
  - destruct (Z.eq_dec x 0) as [->|]; [apply Z.testbit_0_l|].
    apply Z.bits_above_log2; [lia|]. apply Z.log2_lt_pow2; [lia|].
    pose proof (Z.pow_le_mono_r 2 (w - 1) i). lia.
Qed.

(** Signed [w]-bit integers with the same [w] low bits are equal. *)
Lemma signed_bits_inj w x y :
  0 < w -> is_s w x -> is_s w y ->
  (forall i, 0 <= i < w -> Z.testbit x i = Z.testbit y i) -> x = y.
Proof.
  intros Hw Hx Hy H. apply Z.bits_inj'. intros i Hi.
  destruct (Z.lt_ge_cases i w); [apply H; lia|].
  rewrite (testbit_signed w x i), (testbit_signed w y i) by lia.
  rewrite <- (testbit_signed w x (w - 1)), <- (testbit_signed w y (w - 1)) by lia.
  apply H; lia.
Qed.

(** Splits on [n], known to lie between two numerals. *)
Ltac enum_Z n lo hi :=
  let rec go k :=
    lazymatch eval compute in (k =? hi) with
    | true => assert (n = k) by lia; subst n
    | false =>
        destruct (Z.eq_dec n k) as [->|];
        [ | let k' := eval compute in (k + 1) in go k' ]
    end in go lo.

Ltac bits := apply Z.bits_inj'; intros ?i ?Hi;
  repeat first [rewrite Z.lnot_spec by lia | rewrite Z.land_spec
               | rewrite Z.lor_spec | rewrite Z.lxor_spec];
  try btauto.

(** ** bits.c agrees with tests.c *)

Lemma bitAnd_ok x y : bitAnd x y = test_bitAnd x y.
Proof. unfold bitAnd, test_bitAnd. bits. Qed.

Lemma bitXor_ok x y : bitXor x y = test_bitXor x y.
Proof. unfold bitXor, test_bitXor. bits. Qed.

Lemma fitsBits_ok x n : is_s 32 x -> 1 <= n <= 32 -> fitsBits x n = test_fitsBits x n.
Proof.
  intros Hx Hn. unfold fitsBits, test_fitsBits.
  change (Z.shiftr (s32 (Z.shiftl 0xFF 24)) 24) with (-1).
  assert (Hm : s32 (n + -1) = n - 1).
  { rewrite wraps_small; bound_lia. }
  rewrite Hm, Z.shiftr_div_pow2 by lia.
  assert (Hb : s32 (- s32 (Z.shiftl 1 (n - 1))) = - 2 ^ (n - 1) /\
               s32 (s32 (Z.shiftl 1 (n - 1)) - 1) = 2 ^ (n - 1) - 1).
  { clear Hx Hm. enum_Z n 1 32; split; reflexivity. }
  destruct Hb as [-> ->].
  assert (HP : 0 < 2 ^ (n - 1)) by (apply Z.pow_pos_nonneg; lia).
  set (P := 2 ^ (n - 1)) in *. set (v := x / P).
  assert (Hv : v = 0 <-> 0 <= x < P) by (subst v; split; intros; Z.to_euclidean_division_equations; nia).
  assert (Hv' : v = -1 <-> - P <= x < 0) by (subst v; split; intros; Z.to_euclidean_division_equations; nia).
  unfold cnot, b2z.
  destruct (Z.eqb_spec (Z.lnot v) 0), (Z.eqb_spec v 0), (Z.leb_spec (- P) x),
    (Z.leb_spec x (P - 1)); unfold Z.lnot in *; first [reflexivity | lia].
Qed.

Lemma sign_ok x : is_s 32 x -> sign x = test_sign x.
Proof.
  intros Hx. unfold sign, test_sign. rewrite sar31, cnot_cnot by done.
  destruct (Z.ltb_spec x 0), (Z.eqb_spec x 0); subst; try lia; reflexivity.
Qed.

Lemma getByte_ok x n : 0 <= n <= 3 -> getByte x n = test_getByte x n.
Proof.
  intros Hn. unfold getByte, test_getByte, wrapu.
  change 0xff with (Z.ones 8). rewrite Z.land_ones by lia.
  enum_Z n 0 3; try reflexivity.
Qed.

Lemma logicalShift_ok x n :
  is_s 32 x -> 0 <= n <= 31 -> logicalShift x n = test_logicalShift x n.
Proof.
  intros Hx Hn. unfold logicalShift, test_logicalShift.
  destruct (Z.eq_dec n 0) as [->|Hn0].
  { rewrite !Z.shiftr_0_r. change (Z.land x (-1) = s32 (u32 x)).
    rewrite Z.land_m1_r. symmetry. apply (signed_bits_inj 32); [lia|apply wraps_range; lia|done|].
    intros i Hi. rewrite wraps_testbit by lia. unfold wrapu.
    apply Z.mod_pow2_bits_low; lia. }
  assert (Hmask : Z.lnot (s32 (Z.shiftl (Z.shiftr (s32 (Z.shiftl 1 31)) n) 1)) = Z.ones (32 - n)).
  { clear Hx. enum_Z n 1 31; reflexivity. }
  rewrite Hmask, Z.land_ones by lia.
  assert (E : Z.shiftr x n mod 2 ^ (32 - n) = Z.shiftr (u32 x) n).
  { apply Z.bits_inj'. intros i Hi. unfold wrapu. rewrite Z.shiftr_spec by lia.
    destruct (Z.lt_ge_cases i (32 - n)).
    - rewrite !Z.mod_pow2_bits_low, Z.shiftr_spec by lia. done.
    - by rewrite !Z.mod_pow2_bits_high by lia. }
  rewrite E. symmetry. apply wraps_small; [lia|].
  rewrite <- E. pose proof (Z.mod_pos_bound (Z.shiftr x n) (2 ^ (32 - n))
    ltac:(apply Z.pow_pos_nonneg; lia)).
  pose proof (Z.pow_le_mono_r 2 (32 - n) 31). bound_lia.
Qed.

Lemma addOK_ok x y : is_s 32 x -> is_s 32 y -> addOK x y = test_addOK x y.
Proof.
  intros Hx Hy. unfold addOK, test_addOK.
  rewrite (wraps_small 64) by bound_lia.
  rewrite (sar31 x), (sar31 y), (sar31 (s32 (x + y))) by (done || apply wraps_range; lia).
  unfold b2z.
  assert (Hs : s32 (x + y) = x + y \/ (s32 (x + y) = x + y - 2 ^ 32 /\ 2 ^ 31 <= x + y)
             \/ (s32 (x + y) = x + y + 2 ^ 32 /\ x + y < - 2 ^ 31)).
  { unfold wraps. Z.to_euclidean_division_equations. bound_lia. }
  pose proof (wraps_range 32 (x + y)).
  destruct (Z.ltb_spec x 0), (Z.ltb_spec y 0), (Z.ltb_spec (s32 (x + y)) 0),
    (Z.eqb_spec (x + y) (s32 (x + y))); cbn; try reflexivity; exfalso; bound_lia.
Qed.

Lemma bang_ok x : is_s 32 x -> bang x = test_bang x.
Proof.
  intros Hx. unfold bang, test_bang, cnot, b2z.
  change (s32 (Z.lnot 1 + 1)) with (-1).
  set (d := s32 (x + -1)).
  assert (Hd : is_s 32 d) by (apply wraps_range; lia).
  assert (Hdx : d = if x =? - 2 ^ 31 then 2 ^ 31 - 1 else x - 1).
  { subst d. destruct (Z.eqb_spec x (- 2 ^ 31)) as [->|]; [reflexivity|].
    rewrite wraps_small; bound_lia. }
  rewrite (sar31 d) by done.
  rewrite Z.shiftr_lxor, (sar31 d), (sar31 x) by done.
  destruct (Z.eqb_spec x 0) as [->|].
  - subst d. reflexivity.
  - destruct (Z.eqb_spec x (- 2 ^ 31)); destruct (Z.ltb_spec d 0), (Z.ltb_spec x 0);
      try reflexivity; exfalso; bound_lia.
Qed.

Lemma conditional_ok x y z : conditional x y z = test_conditional x y z.
Proof.
  unfold conditional, test_conditional, cnot, b2z.
  destruct (x =? 0); cbn -[Z.land Z.lor].
  - by rewrite Z.land_0_l, Z.lor_0_l, Z.land_m1_l.
  - by rewrite Z.land_0_l, Z.lor_0_r, Z.land_m1_l.
Qed.

Lemma land_pred_zero x : 0 < x -> Z.land x (x - 1) = 0 <-> x = 2 ^ Z.log2 x.
Proof.
  intros Hx. pose proof (Z.log2_spec x Hx) as [Hlo Hhi].
  pose proof (Z.log2_nonneg x). split; intros H'.
  - destruct (Z.eq_dec x (2 ^ Z.log2 x)) as [|Hne]; [done|exfalso].
    assert (Hl : Z.log2 (x - 1) = Z.log2 x) by (apply Z.log2_unique; lia).
    assert (Hb : Z.testbit (Z.land x (x - 1)) (Z.log2 x) = true).
    { rewrite Z.land_spec, Z.bit_log2 by lia. rewrite <- Hl. by rewrite Z.bit_log2 by lia. }
    by rewrite H', Z.testbit_0_l in Hb.
  - rewrite H'. replace (2 ^ Z.log2 x - 1) with (Z.ones (Z.log2 x)) by (rewrite Z.ones_equiv; lia).
    rewrite Z.land_ones by lia. apply Z_mod_same_full.
Qed.

Lemma isPower2_char x :
  is_s 32 x -> isPower2 x = b2z ((0 <? x) && (x =? 2 ^ Z.log2 x)).
Proof.
  intros Hx. unfold isPower2.
  change (s32 (Z.lnot 1 + 1)) with (-1). rewrite sar31 by done.
  destruct (Z.ltb_spec 0 x) as [Hp|Hp].
  - rewrite (wraps_small 32) by bound_lia.
    replace (x + -1) with (x - 1) by lia.
    pose proof (land_pred_zero x Hp). unfold cnot, b2z.
    destruct (Z.eqb_spec (Z.land x (x - 1)) 0), (Z.eqb_spec x (2 ^ Z.log2 x)),
      (Z.ltb_spec x 0), (Z.eqb_spec x 0); first [reflexivity | exfalso; tauto || lia].
  - replace (cnot (Z.lor (Z.land (if x <? 0 then -1 else 0) 1) (cnot x))) with 0.
    { by rewrite Z.land_0_r. }
    destruct (Z.eq_dec x 0) as [->|]; [reflexivity|].
    unfold cnot. destruct (Z.ltb_spec x 0), (Z.eqb_spec x 0); first [reflexivity|lia].
Qed.

Lemma test_isPower2_loop_spec fuel i x :
  0 <= i <= 31 -> 31 - i < Z.of_nat fuel ->
  test_isPower2_loop fuel i x =
    Ok (b2z (bool_decide (i <= Z.log2 x < 31 /\ 0 < x /\ x = 2 ^ Z.log2 x))).
Proof.
  revert i; induction fuel as [|fuel IH]; intros i Hi Hf; [lia|]. cbn.
  destruct (Z.ltb_spec i 31).
  - replace (s32 (Z.shiftl 1 i)) with (2 ^ i).
    2:{ rewrite Z.shiftl_1_l. pose proof (Z.pow_le_mono_r 2 i 30).
        pose proof (Z.pow_pos_nonneg 2 i). symmetry. apply wraps_small; bound_lia. }
    destruct (Z.eqb_spec x (2 ^ i)) as [->|Hne].
    + rewrite Z.log2_pow2 by lia. rewrite bool_decide_true; [done|].
      pose proof (Z.pow_pos_nonneg 2 i). lia.
    + rewrite IH by lia. do 2 f_equal. apply bool_decide_ext.
      destruct (Z.eq_dec (Z.log2 x) i) as [<-|]; [|lia]. lia.
  - rewrite bool_decide_false by lia. done.
Qed.

Lemma isPower2_ok x : is_s 32 x -> test_isPower2 x = Ok (isPower2 x).
Proof.
  intros Hx. unfold test_isPower2. rewrite test_isPower2_loop_spec by lia.
  rewrite isPower2_char by done. do 2 f_equal.
  case_bool_decide as H; symmetry.
  - apply andb_true_intro. rewrite Z.ltb_lt, Z.eqb_eq. tauto.
  - apply not_true_is_false. intros [H1 H2]%andb_prop. apply H.
    apply Z.ltb_lt in H1. apply Z.eqb_eq in H2. split; [|tauto].
    split; [apply Z.log2_nonneg|]. apply Z.log2_lt_pow2; bound_lia.
Qed.

(** C21: every puzzle of [bits.c] returns what the reference function of
    [tests.c] that the lab's driver pairs it with returns, on every 32-bit
    argument the puzzle's header comment allows; the reference loops return. *)
Theorem bits_match_tests :
  (forall x y, bitAnd x y = test_bitAnd x y) /\
  (forall x y, bitXor x y = test_bitXor x y) /\
  test_thirdBits = Ok thirdBits /\
  (forall x n, is_s 32 x -> 1 <= n <= 32 -> fitsBits x n = test_fitsBits x n) /\
  (forall x, is_s 32 x -> sign x = test_sign x) /\
  (forall x n, 0 <= n <= 3 -> getByte x n = test_getByte x n) /\
  (forall x n, is_s 32 x -> 0 <= n <= 31 -> logicalShift x n = test_logicalShift x n) /\
  (forall x y, is_s 32 x -> is_s 32 y -> addOK x y = test_addOK x y) /\
  (forall x, is_s 32 x -> bang x = test_bang x) /\
  (forall x y z, conditional x y z = test_conditional x y z) /\
  (forall x, is_s 32 x -> test_isPower2 x = Ok (isPower2 x)).
Proof.
  repeat split; eauto using bitAnd_ok, bitXor_ok, fitsBits_ok, sign_ok, getByte_ok,
    logicalShift_ok, addOK_ok, bang_ok, conditional_ok, isPower2_ok.
Qed.

(** ** The pointer puzzles *)

Lemma land_m64 c : Z.land c (-64) = 64 * (c / 64).
Proof.
  change (-64) with (Z.lnot (Z.ones 6)). rewrite <- Z.ldiff_land, Z.ldiff_ones_r by lia.
  rewrite Z.shiftl_mul_pow2, Z.shiftr_div_pow2 by lia. change (2 ^ 6) with 64. lia.
Qed.

(** [withinSameBlock] compares the block numbers of the two addresses
    modulo 2^26, that is of the addresses cut to 32 bits: it is right on
    pointers into the same 4 GiB region and calls pointers whole multiples of
    4 GiB apart neighbours. *)
Theorem withinSameBlock_spec p q :
  withinSameBlock p q = b2z ((p / 64) mod 2 ^ 26 =? (q / 64) mod 2 ^ 26) /\
  (p / 2 ^ 32 = q / 2 ^ 32 -> withinSameBlock p q = b2z (p / 64 =? q / 64)) /\
  withinSameBlock p (p + 2 ^ 32) = 1.
Proof.
  assert (E : forall a b, withinSameBlock a b
                = b2z ((a / 64) mod 2 ^ 26 =? (b / 64) mod 2 ^ 26)).
  { intros a b. unfold withinSameBlock.
    change (s32 (s32 (Z.shiftl (s32 (s32 (Z.shiftl (s32 (s32 (Z.shiftl 255 8) + 255)) 8) + 255)) 8)
      + 192)) with (-64).
    cbv zeta. rewrite !land_m64. f_equal.
    destruct (Z.eqb_spec (64 * (s32 a / 64)) (64 * (s32 b / 64))),
      (Z.eqb_spec ((a / 64) mod 2 ^ 26) ((b / 64) mod 2 ^ 26)); try done; exfalso;
      unfold wraps in *; change (32 - 1) with 31 in *;
      change (2 ^ 26) with 67108864 in *; change (2 ^ 31) with 2147483648 in *;
      change (2 ^ 32) with 4294967296 in *; Z.to_euclidean_division_equations; lia. }
  split; [apply E|]. split; rewrite E.
  - intros H. f_equal.
    destruct (Z.eqb_spec ((p / 64) mod 2 ^ 26) ((q / 64) mod 2 ^ 26)),
      (Z.eqb_spec (p / 64) (q / 64)); try done; exfalso;
      change (2 ^ 26) with 67108864 in *; change (2 ^ 32) with 4294967296 in *;
      Z.to_euclidean_division_equations; lia.
  - replace (p + 2 ^ 32) with (p + 2 ^ 26 * 64) by lia.
    rewrite Z.div_add, Z.add_comm by lia.
    rewrite <- (Z.mul_1_l (2 ^ 26)) at 2. rewrite Z.add_comm, Z_mod_plus_full.
    by rewrite Z.eqb_refl.
Qed.

Lemma withinSameBlock_spec_witness :
  2 ^ 40 / 2 ^ 32 = (2 ^ 40 + 63) / 2 ^ 32 /\
  withinSameBlock (2 ^ 40) (2 ^ 40 + 63) = 1.
Proof.
  split; [reflexivity|].
  rewrite (proj1 (proj2 (withinSameBlock_spec (2 ^ 40) (2 ^ 40 + 63))) eq_refl).
  reflexivity.
Defined.

Lemma bits_match_tests_witness :
  fitsBits (-4) 3 = test_fitsBits (-4) 3 /\ fitsBits (-4) 3 = 1.
Proof.
  split; [|reflexivity].
  apply (proj1 (proj2 (proj2 (proj2 bits_match_tests)))); bound_lia.
Defined.

Lemma cnot_sign_bit d : is_s 32 d -> cnot (Z.land (Z.shiftr d 31) 1) = b2z (0 <=? d).
Proof.
  intros Hd. rewrite sar31 by done.
  destruct (Z.ltb_spec d 0), (Z.leb_spec 0 d); first [reflexivity|lia].
Qed.

(** for an [int] array of [size] cells at address [a] and an address
    [ptr] aligned with it and at most 2^31 cells away, [withinArray] says
    whether [ptr] is the address of one of the cells; [invert] complements
    exactly the [n] bits from position [p] up, for [n <= 31]. *)
Theorem pointer_puzzles_spec :
  (forall a size ptr,
     0 <= size < 2 ^ 31 -> (ptr - a) mod 4 = 0 -> - 2 ^ 31 <= (ptr - a) / 4 < 2 ^ 31 ->
     withinArray a size ptr = b2z ((a <=? ptr) && (ptr <? a + 4 * size))) /\
  (forall x p n i,
     0 <= n <= 31 -> 0 <= p -> 0 <= i < 32 ->
     Z.testbit (invert x p n) i
     = xorb (Z.testbit x i) ((p <=? i) && (i <? p + n))).
Proof.
  split.
  - intros a size ptr Hs Ha Hd. unfold withinArray.
    assert (Hq : ptr - a = 4 * ((ptr - a) / 4)) by (Z.to_euclidean_division_equations; lia).
    set (d := (ptr - a) / 4) in *.
    rewrite (wraps_small 64) by bound_lia.
    replace (Z.quot (ptr - a) 4) with d
      by (rewrite Hq, Z.mul_comm; symmetry; apply Z.quot_mul; lia).
    rewrite (wraps_small 32 d) by bound_lia.
    rewrite !cnot_sign_bit by first [apply wraps_range; lia | bound_lia].
    destruct (Z.leb_spec 0 d) as [Hd0|Hd0].
    + rewrite (wraps_small 32 (size - d)), (wraps_small 32 (size - d - 1)) by bound_lia.
      destruct (Z.leb_spec 0 (size - d - 1)), (Z.leb_spec a ptr), (Z.ltb_spec ptr (a + 4 * size));
        first [reflexivity | lia].
    + cbn [b2z]. rewrite Z.land_0_l.
      destruct (Z.leb_spec a ptr); first [reflexivity | lia].
  - intros x p n i Hn Hp Hi. unfold invert.
    rewrite Z.lxor_spec, wraps_testbit, Z.shiftl_spec by lia. f_equal.
    assert (Hm : Z.lnot (Z.shiftr (s32 (Z.shiftl 1 31)) (31 - n)) = Z.ones n)
      by (enum_Z n 0 31; reflexivity).
    rewrite Hm. destruct (Z.leb_spec p i); cbn.
    + rewrite Z.testbit_ones_nonneg by lia.
      destruct (Z.ltb_spec (i - p) n), (Z.ltb_spec i (p + n)); lia || done.
    + apply Z.testbit_neg_r; lia.
Qed.

Lemma pointer_puzzles_spec_witness :
  withinArray 4096 10 4132 = 1 /\ Z.testbit (invert 0 3 2) 4 = true.
Proof.
  split.
  - rewrite (proj1 pointer_puzzles_spec) by concrete. reflexivity.
  - rewrite (proj2 pointer_puzzles_spec) by lia. reflexivity.
Defined.
