(* ===== verification/Btest.v ===== *)
(** The test harness of the data lab, [uw_cse351/lab1/btest.c], and its table of
    puzzles, [decl.c], over the puzzles of [Bits].  A function pointer is called with
    the list of its arguments.  [double]s are not modelled: what [random_val] makes of
    [rand] is a parameter, and points, sums of small integers, are integers.
    Whether the alarm goes off during a test is another parameter. *)
From Stdlib Require Import ZArith Lia String.
From S2P Require Import Prelude Bits.
Open Scope Z_scope.

Definition TMin : Z := - 2 ^ 31.
Definition TMax : Z := 2 ^ 31 - 1.
Definition TEST_RANGE : Z := 500000.
Definition MAX_TEST_VALS : Z := 13 * TEST_RANGE.

Definition funct_t : Type := list Z -> res Z.

Record test_rec : Type := mk_test {
  name : string;
  solution_funct : funct_t;
  test_funct : funct_t;
  args : Z;
  ops : string;
  op_limit : Z;
  rating : Z;
  arg_ranges : list (Z * Z)
}.

(** Functions of no, one, two and three arguments behind a [funct_t]. *)
Definition call0 (f : res Z) : funct_t := fun a => match a with [] => f | _ => Err BadAccess end.
Definition call1 (f : Z -> res Z) : funct_t := fun a => match a with [x] => f x | _ => Err BadAccess end.
Definition call2 (f : Z -> Z -> Z) : funct_t := fun a => match a with [x; y] => Ok (f x y) | _ => Err BadAccess end.
Definition call3 (f : Z -> Z -> Z -> Z) : funct_t := fun a => match a with [x; y; z] => Ok (f x y z) | _ => Err BadAccess end.

Definition any : Z * Z := (TMin, TMax).

(** [decl.c]; the record with null pointers that ends the array is its length. *)
Definition test_set : list test_rec := [
  mk_test "bitAnd" (call2 bitAnd) (call2 test_bitAnd) 2 "| ~" 8 1 [any; any; any];
  mk_test "bitXor" (call2 bitXor) (call2 test_bitXor) 2 "& ~" 14 1 [any; any; any];
  mk_test "thirdBits" (call0 (Ok thirdBits)) (call0 test_thirdBits) 0 "! ~ & ^ | + << >>" 8 1 [any; any; any];
  mk_test "fitsBits" (call2 fitsBits) (call2 test_fitsBits) 2 "! ~ & ^ | + << >>" 15 2 [any; (1, 32); any];
  mk_test "sign" (call1 (fun x => Ok (sign x))) (call1 (fun x => Ok (test_sign x))) 1 "! ~ & ^ | + << >>" 10 2
    [(- TMax, TMax); any; any];
  mk_test "getByte" (call2 getByte) (call2 test_getByte) 2 "! ~ & ^ | + << >>" 6 2 [any; (0, 3); any];
  mk_test "logicalShift" (call2 logicalShift) (call2 test_logicalShift) 2 "! ~ & ^ | + << >>" 20 3 [any; (0, 31); any];
  mk_test "addOK" (call2 addOK) (call2 test_addOK) 2 "! ~ & ^ | + << >>" 20 3 [any; any; any];
  mk_test "bang" (call1 (fun x => Ok (bang x))) (call1 (fun x => Ok (test_bang x))) 1 "~ & ^ | + << >>" 12 4 [any; any; any];
  mk_test "conditional" (call3 conditional) (call3 test_conditional) 3 "! ~ & ^ | << >>" 16 3 [any; any; any];
  mk_test "isPower2" (call1 (fun x => Ok (isPower2 x))) (call1 test_isPower2) 1 "! ~ & ^ | + << >>" 20 4 [any; any; any]
].

(** What the command line sets. *)
Record options : Type := mk_options {
  timeout_limit : Z;
  test_fname : option string;
  has_arg : list bool;
  argval : list Z;
  global_rating : Z
}.

Section btest.
(** The state of [rand]; the [int] that [random_val] returns; whether a test outlasts
    its alarm; and the two roots that [pow] gives. *)
Context {W : Type} (random_val : Z -> Z -> W -> Z * W) (late : test_rec -> bool) (pow_half pow_third : Z).
Context (opts : options).

(** [test_vals] and [test_count]: the values stored, the last one first. *)
Definition vals : Type := Z * list Z.
Definition put (v : Z) (tv : vals) : M W vals :=
  do* ensure BadAccess (tv.1 <? MAX_TEST_VALS);
  ret (tv.1 + 1, s32 v :: tv.2).
Definition put_if (b : bool) (v : Z) (tv : vals) : M W vals := if b then put v tv else ret tv.
Definition random (min max : Z) : M W Z := fun w => Ok (random_val min max w).

(** [for (i = min; i <= max; i++)] *)
Fixpoint exhaust (fuel : nat) (i max : Z) (tv : vals) : M W vals :=
  match fuel with
  | O => fail OutOfFuel
  | S fuel' =>
      if i <=? max then
        let* tv := put i tv in
        exhaust fuel' (s32 (i + 1)) max tv
      else ret tv
  end.

(** [for (i = 0; i < test_range; i++)], [n] rounds left: around the boundaries of the
    floating point formats, *)
Fixpoint float_vals (n : nat) (i : Z) (tv : vals) : M W vals :=
  match n with
  | O => ret tv
  | S n' =>
      let smallest_norm := 0x00800000 in
      let one := 0x3f800000 in
      let largest_norm := 0x7f000000 in
      let signbit := 0x80000000 in
      let* tv := put i tv in
      let* tv := put (Z.lor signbit i) tv in
      let* tv := put (u32 (smallest_norm + i)) tv in
      let* tv := put (u32 (smallest_norm - i)) tv in
      let* tv := put (Z.lor signbit (u32 (smallest_norm + i))) tv in
      let* tv := put (Z.lor signbit (u32 (smallest_norm - i))) tv in
      let* tv := put (u32 (one + i)) tv in
      let* tv := put (u32 (one - i)) tv in
      let* tv := put (Z.lor signbit (u32 (one + i))) tv in
      let* tv := put (Z.lor signbit (u32 (one - i))) tv in
      let* tv := put (u32 (largest_norm - i)) tv in
      let* tv := put (Z.lor signbit (u32 (largest_norm - i))) tv in
      float_vals n' (i + 1) tv
  end.

(** and around the ends of an integer range, zero, and at random. *)
Fixpoint sample_vals (n : nat) (i min max : Z) (tv : vals) : M W vals :=
  match n with
  | O => ret tv
  | S n' =>
      let* tv := put (min + i) tv in
      let* tv := put (max - i) tv in
      let* tv := put_if ((min <=? i) && (i <=? max)) i tv in
      let* tv := put_if ((min <=? - i) && (- i <=? max)) (- i) tv in
      let* r := random min max in
      let* tv := put r tv in
      sample_vals n' (i + 1) min max tv
  end.

Definition gen_vals (min max test_range : Z) (arg : nat) : M W (list Z) :=
  let* tv :=
    if default false (has_arg opts !! arg) then put (default 0 (argval opts !! arg)) (0, [])
    else if (min =? 1) && (max =? 1) then
      let test_range := if 2 ^ 23 <? test_range then 2 ^ 23 else test_range in
      let inf := 0x7f800000 in
      let nan := 0x7fc0000 in
      let signbit := 0x80000000 in
      let* tv := float_vals (Z.to_nat test_range) 0 (0, []) in
      let* tv := put inf tv in
      let* tv := put (Z.lor signbit inf) tv in
      let* tv := put nan tv in
      put (Z.lor signbit nan) tv
    else if s32 (max - MAX_TEST_VALS) <=? min then
      exhaust (Z.to_nat (MAX_TEST_VALS + 2)) min max (0, [])
    else sample_vals (Z.to_nat test_range) 0 min max (0, []) in
  ret (rev tv.2).

(** [test_0_arg] to [test_3_arg]: 1 when the function and its test disagree. *)
Definition call (f : funct_t) (a : list Z) : M W Z := fun w =>
  match f a with Ok r => Ok (r, w) | Err e => Err e end.
Definition test_0_arg (f ft : funct_t) : M W Z :=
  let* r := call f [] in let* rt := call ft [] in ret (b2z (negb (r =? rt))).
Definition test_1_arg (f ft : funct_t) (arg1 : Z) : M W Z :=
  let* r := call f [arg1] in let* rt := call ft [arg1] in ret (b2z (negb (r =? rt))).
Definition test_2_arg (f ft : funct_t) (arg1 arg2 : Z) : M W Z :=
  let* r := call f [arg1; arg2] in let* rt := call ft [arg1; arg2] in ret (b2z (negb (r =? rt))).
Definition test_3_arg (f ft : funct_t) (arg1 arg2 arg3 : Z) : M W Z :=
  let* r := call f [arg1; arg2; arg3] in let* rt := call ft [arg1; arg2; arg3] in ret (b2z (negb (r =? rt))).

(** A loop over test values that stops at the first error. *)
Fixpoint until_error (test : Z -> M W Z) (vs : list Z) : M W Z :=
  match vs with
  | [] => ret 0
  | v :: vs' =>
      let* errors := test v in
      if negb (errors =? 0) then ret errors else until_error test vs'
  end.

Definition at_least_one (n : Z) : Z := if n <? 1 then 1 else n.

(** [gen_vals] for each argument. *)
Fixpoint gen_all (ranges : list (Z * Z)) (test_range : Z) (i : nat) (n : nat) : M W (list (list Z)) :=
  match n with
  | O => ret []
  | S n' =>
      let* r := get_or BadAccess (ranges !! i) in
      let* vs := gen_vals r.1 r.2 test_range i in
      let* vss := gen_all ranges test_range (S i) n' in
      ret (vs :: vss)
  end.

Definition test_function (t : test_rec) : M W Z :=
  if (args t <? 0) || (3 <? args t) then fail (Exit 1)
  else
    let test_range := at_least_one (if args t =? 1 then TEST_RANGE else if args t =? 2 then pow_half else pow_third) in
    let* test_vals := gen_all (arg_ranges t) test_range 0 (Z.to_nat (args t)) in
    if (0 <? timeout_limit opts) && late t then ret 1
    else
      let f := solution_funct t in
      let ft := test_funct t in
      match test_vals with
      | [] => test_0_arg f ft
      | [vs1] => until_error (test_1_arg f ft) vs1
      | [vs1; vs2] => until_error (fun a1 => until_error (test_2_arg f ft a1) vs2) vs1
      | vs1 :: vs2 :: vs3 :: _ =>
          until_error (fun a1 => until_error (fun a2 => until_error (test_3_arg f ft a1 a2) vs3) vs2) vs1
      end.

(** The errors, the points and the points there are. *)
Fixpoint run_tests_loop (ts : list test_rec) (errors points max_points : Z) : M W (Z * Z * Z) :=
  match ts with
  | [] => ret (errors, points, max_points)
  | t :: ts' =>
      if match test_fname opts with None => true | Some f => String.eqb (name t) f end then
        let r := if global_rating opts =? 0 then rating t else global_rating opts in
        let* terrors := test_function t in
        let tpoints := if terrors =? 0 then r else 0 in
        run_tests_loop ts' (s32 (errors + terrors)) (points + tpoints) (max_points + r)
      else run_tests_loop ts' errors points max_points
  end.
Definition run_tests : M W (Z * Z * Z) := run_tests_loop test_set 0 0 0.
End btest.
