(* ===== verification/BtestSpec.v ===== *)
(** What the harness of [Btest] finds: it charges a function with an error exactly when
    the function and its test disagree on a combination of the values generated, and
    gives the puzzles of [bits.c] all the points. *)
From Stdlib Require Import ZArith Lia String.
From S2P Require Import Prelude Bits Btest.
Open Scope Z_scope.

Section btest.
Context {W : Type} (random_val : Z -> Z -> W -> Z * W) (late : test_rec -> bool) (pow_half pow_third : Z).
Context (opts : options).

(** ** The values generated *)

(** Stored values that satisfy [P], at most [k] of them. *)
Definition stored (P : Z -> Prop) (k : Z) (tv : vals) : Prop := 0 <= tv.1 <= k /\ Forall P tv.2.

Lemma put_run (P : Z -> Prop) k v tv (w : W) : stored P k tv -> k < MAX_TEST_VALS -> P (s32 v) ->
  exists tv', put v tv w = Ok (tv', w) /\ stored P (k + 1) tv'.
Proof.
  intros [Hk HP] Hlt Hv. unfold put. destruct (Z.ltb_spec tv.1 MAX_TEST_VALS); [|lia]. cbn.
  eexists. split; [done|]. split; cbn; [lia|by constructor].
Qed.

Lemma put_if_run (P : Z -> Prop) k b v tv (w : W) : stored P k tv -> k < MAX_TEST_VALS -> P (s32 v) ->
  exists tv', put_if b v tv w = Ok (tv', w) /\ stored P (k + 1) tv'.
Proof.
  intros Hs Hlt Hv. unfold put_if. destruct b; [by apply put_run|]. exists tv. split; [done|]. destruct Hs. split; [lia|done].
Qed.

Lemma exhaust_run n : forall fuel min max i k tv (w : W), i + Z.of_nat n = max + 1 -> (n < fuel)%nat -> min <= i ->
  is_s 32 min -> max < TMax -> k + Z.of_nat n <= MAX_TEST_VALS -> stored (fun v => min <= v <= max) k tv ->
  exists tv', exhaust fuel i max tv w = Ok (tv', w) /\ stored (fun v => min <= v <= max) (k + Z.of_nat n) tv'.
Proof.
  induction n as [|n IH]; intros [|fuel] min max i k tv w Hn Hf Hi Hmin Hmax Hk Hs; [lia| |lia|]; cbn [exhaust]; unfold TMax in *.
  - destruct (Z.leb_spec i max); [lia|]. exists tv. by rewrite Z.add_0_r.
  - destruct (Z.leb_spec i max); [|lia].
    destruct (put_run (fun v => min <= v <= max) k i tv w) as (tv1 & E1 & H1); [done|lia|rewrite wraps_small by bound_lia; lia|].
    step E1. rewrite wraps_small by bound_lia.
    destruct (IH fuel min max (i + 1) (k + 1) tv1 w) as (tv2 & E2 & H2); try done; try lia.
    exists tv2. split; [done|]. by replace (k + Z.of_nat (S n)) with (k + 1 + Z.of_nat n) by lia.
Qed.

Lemma sample_run n : forall i min max k tv w, k + 5 * Z.of_nat n <= MAX_TEST_VALS -> stored (fun v => is_s 32 v) k tv ->
  exists tv' w', sample_vals random_val n i min max tv w = Ok (tv', w') /\ stored (fun v => is_s 32 v) (k + 5 * Z.of_nat n) tv'.
Proof.
  induction n as [|n IH]; intros i min max k tv w Hk Hs; cbn [sample_vals].
  - exists tv, w. by rewrite Z.add_0_r.
  - assert (Hint : forall x, is_s 32 (s32 x)) by (intros; by apply wraps_range).
    destruct (put_run _ k (min + i) tv w Hs ltac:(lia) (Hint _)) as (tv1 & E1 & H1). step E1.
    destruct (put_run _ (k + 1) (max - i) tv1 w H1 ltac:(lia) (Hint _)) as (tv2 & E2 & H2). step E2.
    destruct (put_if_run _ (k + 1 + 1) ((min <=? i) && (i <=? max)) i tv2 w H2 ltac:(lia) (Hint _)) as (tv3 & E3 & H3). step E3.
    destruct (put_if_run _ (k + 1 + 1 + 1) ((min <=? - i) && (- i <=? max)) (- i) tv3 w H3 ltac:(lia) (Hint _)) as (tv4 & E4 & H4). step E4.
    unfold random. destruct (random_val min max w) as [r w1] eqn:Er.
    assert (E : (fun w => Ok (random_val min max w)) w = Ok (r, w1)) by (by rewrite <- Er). step E.
    destruct (put_run _ (k + 1 + 1 + 1 + 1) r tv4 w1 H4 ltac:(lia) (Hint _)) as (tv5 & E5 & H5). step E5.
    destruct (IH (i + 1) min max (k + 5) tv5 w1) as (tv6 & w2 & E6 & H6); [lia|by replace (k + 5) with (k + 1 + 1 + 1 + 1 + 1) by lia|].
    exists tv6, w2. split; [done|]. by replace (k + 5 * Z.of_nat (S n)) with (k + 5 + 5 * Z.of_nat n) by lia.
Qed.

(** The ranges of [decl.c]: small ones, tried out, and large ones, sampled. *)
Definition range_ok (r : Z * Z) : Prop :=
  (- 2 ^ 30 <= r.1 /\ r.1 <= r.2 < TMax /\ r.2 - r.1 < 100 /\ r <> (1, 1)) \/
  (is_s 32 r.1 /\ is_s 32 r.2 /\ MAX_TEST_VALS < r.2 - r.1).
Definition in_range (r : Z * Z) (v : Z) : Prop :=
  is_s 32 v /\ (r.2 - r.1 < 100 -> r.1 <= v <= r.2).

Lemma gen_vals_run r test_range arg w : range_ok r -> default false (has_arg opts !! arg) = false -> 1 <= test_range <= TEST_RANGE ->
  exists vs w', gen_vals random_val opts r.1 r.2 test_range arg w = Ok (vs, w') /\ Forall (in_range r) vs.
Proof.
  intros Hr Ha Ht. unfold gen_vals. rewrite Ha. destruct r as [min max]. cbn [fst snd] in *. unfold in_range. cbn [fst snd].
  unfold TEST_RANGE, MAX_TEST_VALS, TMax in *. unfold TEST_RANGE in *.
  destruct Hr as [(Hmin & Hmax & Hd & Hne)|(Hmin & Hmax & Hd)]; cbn [fst snd] in *; unfold TMax, MAX_TEST_VALS, TEST_RANGE in *.
  - assert (Hf : (min =? 1) && (max =? 1) = false).
    { destruct (Z.eqb_spec min 1), (Z.eqb_spec max 1); try done. by subst. }
    rewrite Hf. assert (Hle : (s32 (max - 13 * 500000) <=? min) = true).
    { apply Z.leb_le. rewrite wraps_small by bound_lia. lia. }
    rewrite Hle. destruct (exhaust_run (Z.to_nat (max - min + 1)) (Z.to_nat (13 * 500000 + 2)) min max min 0 (0, []) w) as (tv & E & _ & Hs);
      unfold TMax, MAX_TEST_VALS, TEST_RANGE; try bound_lia; [by split; [cbn; lia|constructor]|].
    step E. eexists _, w. split; [done|]. apply Forall_rev. eapply Forall_impl; [exact Hs|]. intros v Hv. cbn beta in Hv. split; [bound_lia|lia].
  - assert (Hf : (min =? 1) && (max =? 1) = false).
    { destruct (Z.eqb_spec min 1), (Z.eqb_spec max 1); try done. lia. }
    rewrite Hf. assert (Hle : (s32 (max - 13 * 500000) <=? min) = false).
    { apply Z.leb_gt. rewrite wraps_small by bound_lia. lia. }
    rewrite Hle. destruct (sample_run (Z.to_nat test_range) 0 min max 0 (0, []) w) as (tv & w' & E & _ & Hs).
    { unfold MAX_TEST_VALS, TEST_RANGE. lia. }
    { by split; [cbn; lia|constructor]. }
    step E. eexists _, w'. split; [done|]. apply Forall_rev. eapply Forall_impl; [exact Hs|]. intros v Hv. split; [done|lia].
Qed.

(** ** The verdict *)

(** All the argument lists a test tries. *)
Fixpoint combinations (vss : list (list Z)) : list (list Z) :=
  match vss with
  | [] => [[]]
  | vs :: vss' => flat_map (fun v => (fun a => v :: a) <$> combinations vss') vs
  end.

Definition agrees (f ft : funct_t) (a : list Z) : bool :=
  match f a, ft a with Ok r, Ok rt => r =? rt | _, _ => false end.
(** Both functions return on these arguments. *)
Definition returns (f ft : funct_t) (a : list Z) : Prop := exists r rt, f a = Ok r /\ ft a = Ok rt.

Lemma test_arg_run (f ft : funct_t) a (w : W) : returns f ft a ->
  (bind (call f a) (fun r => bind (call ft a) (fun rt => ret (b2z (negb (r =? rt))))) w) = Ok (b2z (negb (agrees f ft a)), w).
Proof. intros (r & rt & E & Et). unfold bind, call, agrees. by rewrite E, Et. Qed.

(** A loop over values: an error as soon as one of them shows one. *)
Lemma until_error_run (test : Z -> M W Z) (good : Z -> bool) vs w :
  Forall (fun v => test v w = Ok (b2z (negb (good v)), w)) vs ->
  until_error test vs w = Ok (b2z (negb (forallb good vs)), w).
Proof.
  induction 1 as [|v vs E _ IH]; cbn [until_error forallb]; [done|]. step E.
  destruct (good v); [exact IH|done].
Qed.

Lemma forallb_combinations g vs vss :
  forallb g (combinations (vs :: vss)) = forallb (fun v => forallb (fun a => g (v :: a)) (combinations vss)) vs.
Proof.
  cbn [combinations]. induction vs as [|v vs IH]; [done|]. cbn [flat_map forallb]. rewrite forallb_app, IH. f_equal. clear IH.
  induction (combinations vss) as [|a l IHl]; [done|]. rewrite fmap_cons. cbn [forallb]. by rewrite IHl.
Qed.

Lemma combinations_in a vss : a ∈ combinations vss <-> Forall2 (fun v vs => v ∈ vs) a vss.
Proof.
  revert a. induction vss as [|vs vss IH]; intros a; cbn [combinations].
  - rewrite list_elem_of_singleton. split; [by intros ->|]. intros H. by inversion H.
  - rewrite list_elem_of_In, in_flat_map. split.
    + intros (v & Hv & (b & -> & Hb)%list_elem_of_In%list_elem_of_fmap). constructor; [by apply list_elem_of_In|by apply IH].
    + intros (v & b & Hv & Hb & ->)%Forall2_cons_inv_r. exists v. split; [by apply list_elem_of_In|].
      apply list_elem_of_In, list_elem_of_fmap. exists b. split; [done|by apply IH].
Qed.

(** The verdict of a test on the values generated for it. *)
Definition verdict (t : test_rec) (vss : list (list Z)) : Z :=
  if (0 <? timeout_limit opts) && late t then 1
  else b2z (negb (forallb (agrees (solution_funct t) (test_funct t)) (combinations vss))).

Lemma test_function_ok t vss w w' : 0 <= args t <= 3 ->
  gen_all random_val opts (arg_ranges t)
    (at_least_one (if args t =? 1 then TEST_RANGE else if args t =? 2 then pow_half else pow_third)) 0 (Z.to_nat (args t)) w = Ok (vss, w') ->
  (length vss <= 3)%nat -> Forall (returns (solution_funct t) (test_funct t)) (combinations vss) ->
  test_function random_val late pow_half pow_third opts t w = Ok (verdict t vss, w').
Proof.
  intros Ha Hgen Hlen Hret. unfold test_function, verdict.
  destruct (Z.ltb_spec (args t) 0); [lia|]. destruct (Z.ltb_spec 3 (args t)); [lia|]. cbn [orb]. step Hgen.
  destruct ((0 <? timeout_limit opts) && late t); [done|]. set (f := solution_funct t) in *. set (ft := test_funct t) in *.
  destruct vss as [|vs1 [|vs2 [|vs3 [|]]]]; cbn [length] in Hlen; [| | | |lia].
  - cbn in Hret. apply Forall_cons in Hret as [Hr _]. unfold test_0_arg. rewrite test_arg_run by done. cbn. by rewrite andb_true_r.
  - rewrite forallb_combinations. apply until_error_run, Forall_forall. intros v1 H1. unfold test_1_arg.
    rewrite test_arg_run; [cbn; by rewrite andb_true_r|]. apply (proj1 (Forall_forall _ _) Hret), combinations_in. by repeat constructor.
  - rewrite forallb_combinations. apply until_error_run, Forall_forall. intros v1 H1.
    rewrite forallb_combinations. apply until_error_run, Forall_forall. intros v2 H2. unfold test_2_arg.
    rewrite test_arg_run; [cbn; by rewrite andb_true_r|]. apply (proj1 (Forall_forall _ _) Hret), combinations_in. by repeat constructor.
  - rewrite forallb_combinations. apply until_error_run, Forall_forall. intros v1 H1.
    rewrite forallb_combinations. apply until_error_run, Forall_forall. intros v2 H2.
    rewrite forallb_combinations. apply until_error_run, Forall_forall. intros v3 H3. unfold test_3_arg.
    rewrite test_arg_run; [cbn; by rewrite andb_true_r|]. apply (proj1 (Forall_forall _ _) Hret), combinations_in. by repeat constructor.
Qed.

Definition no_fixed_args : Prop := forall arg, default false (has_arg opts !! arg) = false.

Lemma gen_all_run n : forall i ranges test_range w, (i + n <= length ranges)%nat -> Forall range_ok ranges -> no_fixed_args ->
  1 <= test_range <= TEST_RANGE ->
  exists vss w', gen_all random_val opts ranges test_range i n w = Ok (vss, w') /\
    Forall2 (fun vs r => Forall (in_range r) vs) vss (take n (drop i ranges)).
Proof.
  induction n as [|n IH]; intros i ranges test_range w Hn Hr Ha Ht; cbn [gen_all].
  - exists [], w. split; [done|constructor].
  - destruct (lookup_lt_is_Some_2 ranges i ltac:(lia)) as [r Er]. rewrite Er. cbn [get_or]. rewrite bind_ret.
    destruct (gen_vals_run r test_range i w) as (vs & w1 & E1 & H1); [by eapply (Forall_lookup_1 _ _ _ _ Hr Er)|apply Ha|done|]. step E1.
    destruct (IH (S i) ranges test_range w1) as (vss & w2 & E2 & H2); [lia|done|done|done|]. step E2.
    exists (vs :: vss), w2. split; [done|]. rewrite (drop_S _ _ _ Er). by constructor.
Qed.

(** A function that does what its test wants on the ranges of its arguments. *)
Definition solved (t : test_rec) : Prop :=
  0 <= args t <= 3 /\ length (arg_ranges t) = 3%nat /\ Forall range_ok (arg_ranges t) /\
  forall a, Forall2 (fun v r => in_range r v) a (take (Z.to_nat (args t)) (arg_ranges t)) ->
    exists r, solution_funct t a = Ok r /\ test_funct t a = Ok r.

Lemma combination_in_range vss rs a : Forall2 (fun vs r => Forall (in_range r) vs) vss rs -> a ∈ combinations vss ->
  Forall2 (fun v r => in_range r v) a rs.
Proof.
  intros H Ha%combinations_in. revert rs H. induction Ha as [|v vs a vss Hv _ IH]; intros rs H; inversion H; subst; constructor.
  - by eapply (proj1 (Forall_forall _ _)).
  - by apply IH.
Qed.

Lemma test_function_solved t w : solved t -> no_fixed_args -> late t = false -> 1 <= at_least_one pow_half <= TEST_RANGE ->
  1 <= at_least_one pow_third <= TEST_RANGE ->
  exists w', test_function random_val late pow_half pow_third opts t w = Ok (0, w').
Proof.
  intros (Ha & Hlen & Hr & Hok) Hfix Hlate Hp2 Hp3.
  set (test_range := at_least_one (if args t =? 1 then TEST_RANGE else if args t =? 2 then pow_half else pow_third)).
  assert (Ht : 1 <= test_range <= TEST_RANGE).
  { unfold test_range. destruct (args t =? 1), (args t =? 2); done || by unfold at_least_one, TEST_RANGE. }
  destruct (gen_all_run (Z.to_nat (args t)) 0 (arg_ranges t) test_range w) as (vss & w' & E & Hvss); [lia|done|done|done|].
  rewrite drop_0 in Hvss. pose proof (Forall2_length _ _ _ Hvss) as Hl. rewrite length_take in Hl.
  assert (Hall : Forall (fun a => exists r, solution_funct t a = Ok r /\ test_funct t a = Ok r) (combinations vss)).
  { apply Forall_forall. intros a Hin. apply Hok. by eapply combination_in_range. }
  exists w'. rewrite (test_function_ok t vss w w'); try done; [|lia|].
  - unfold verdict. rewrite Hlate, andb_false_r. rewrite (proj2 (forallb_forall _ _)); [done|].
    intros a Hin%list_elem_of_In. apply (proj1 (Forall_forall _ _) Hall) in Hin as (r & E1 & E2). unfold agrees.
    rewrite E1, E2. apply Z.eqb_refl.
  - eapply Forall_impl; [exact Hall|]. intros a (r & E1 & E2). by exists r, r.
Qed.

(** What the tests selected are worth. *)
Definition selected (t : test_rec) : bool := match test_fname opts with None => true | Some f => String.eqb (name t) f end.
Definition worth (t : test_rec) : Z := if global_rating opts =? 0 then rating t else global_rating opts.
Definition total_worth (ts : list test_rec) : Z := foldr (fun t n => (if selected t then worth t else 0) + n) 0 ts.

Lemma run_tests_loop_run ts : forall points max_points w, Forall solved ts -> no_fixed_args -> (forall t, late t = false) ->
  1 <= at_least_one pow_half <= TEST_RANGE -> 1 <= at_least_one pow_third <= TEST_RANGE ->
  exists w', run_tests_loop random_val late pow_half pow_third opts ts 0 points max_points w =
    Ok ((0, points + total_worth ts, max_points + total_worth ts), w').
Proof.
  induction ts as [|t ts IH]; intros points max_points w Hs Hfix Hlate Hp2 Hp3; cbn [run_tests_loop total_worth foldr].
  - exists w. by rewrite !Z.add_0_r.
  - apply Forall_cons in Hs as [Ht Hs]. fold (total_worth ts). unfold selected.
    destruct (match test_fname opts with None => true | Some f => String.eqb (name t) f end).
    + destruct (test_function_solved t w Ht Hfix (Hlate t) Hp2 Hp3) as (w1 & E1). step E1. cbn [Z.eqb]. fold (worth t).
      change (s32 (0 + 0)) with 0.
      destruct (IH (points + worth t) (max_points + worth t) w1) as (w2 & E2); try done. exists w2. by rewrite E2, !Z.add_assoc.
    + destruct (IH points max_points w) as (w2 & E2); try done. by exists w2.
Qed.
End btest.

(** ** The puzzles *)

Lemma any_ok : range_ok any.
Proof. right. unfold any, TMin, TMax, MAX_TEST_VALS, TEST_RANGE. cbn. bound_lia. Qed.

Lemma any_in v : in_range any v -> is_s 32 v.
Proof. by intros [? _]. Qed.

(** Takes apart the argument list of a puzzle. *)
Ltac arguments :=
  repeat match goal with
  | H : Forall2 _ _ (_ :: _) |- _ => apply Forall2_cons_inv_r in H as (? & ? & ? & H & ->)
  | H : Forall2 _ _ [] |- _ => apply Forall2_nil_inv_r in H as ->
  | H : in_range _ _ |- _ => destruct H as [? ?]; cbn [fst snd] in *
  end.

Lemma test_set_solved : Forall solved test_set.
Proof.
  assert (Hany : Forall range_ok [any; any; any]) by (do 3 (apply Forall_cons_2; [apply any_ok|]); apply Forall_nil_2).
  assert (Hsmall : forall a b, - 2 ^ 30 <= a -> a <= b < TMax -> b - a < 100 -> (a, b) <> (1, 1) -> Forall range_ok [any; (a, b); any]).
  { intros a b ????. apply Forall_cons_2; [apply any_ok|]. apply Forall_cons_2; [by left|]. apply Forall_cons_2; [apply any_ok|apply Forall_nil_2]. }
  assert (Hsign : Forall range_ok [(- TMax, TMax); any; any]).
  { apply Forall_cons_2; [|apply Forall_cons_2; [apply any_ok|]; apply Forall_cons_2; [apply any_ok|apply Forall_nil_2]].
    right. unfold TMax, MAX_TEST_VALS, TEST_RANGE. cbn. bound_lia. }
  unfold test_set. repeat (apply Forall_cons_2; [|try apply Forall_nil_2]);
    (split; [cbn; lia|]; split; [done|]; split; [first [exact Hany|exact Hsign|apply Hsmall; unfold TMax; first [lia|done]]|]);
    intros a Ha; cbn [args arg_ranges] in Ha;
    (match type of Ha with context [Z.to_nat ?n] => let v := eval cbv in (Z.to_nat n) in change (Z.to_nat n) with v in Ha end);
    cbn [take] in Ha; arguments; cbn [solution_funct test_funct call0 call1 call2 call3].
  - eexists. split; [done|]. by rewrite bitAnd_ok.
  - eexists. split; [done|]. by rewrite bitXor_ok.
  - eexists. by split.
  - eexists. split; [done|]. by rewrite fitsBits_ok by lia.
  - eexists. split; [done|]. by rewrite sign_ok.
  - eexists. split; [done|]. by rewrite getByte_ok by lia.
  - eexists. split; [done|]. by rewrite logicalShift_ok by lia.
  - eexists. split; [done|]. by rewrite addOK_ok.
  - eexists. split; [done|]. by rewrite bang_ok.
  - eexists. split; [done|]. by rewrite conditional_ok.
  - eexists. split; [done|]. by apply isPower2_ok.
Qed.

(** C22: whatever values [rand] gives, the puzzles of [bits.c] pass their harness: run on
    the table of [decl.c] with no argument fixed and within the time limit, it counts
    no error and gives every point there is. *)
Theorem bits_pass_btest {W} (random_val : Z -> Z -> W -> Z * W) (late : test_rec -> bool) pow_half pow_third opts w
    (Hfix : no_fixed_args opts) (Hlate : forall t, late t = false)
    (Hhalf : pow_half <= TEST_RANGE) (Hthird : pow_third <= TEST_RANGE) :
  exists w', run_tests random_val late pow_half pow_third opts w =
    Ok ((0, total_worth opts test_set, total_worth opts test_set), w').
Proof.
  apply run_tests_loop_run; try done; [apply test_set_solved| |]; unfold at_least_one, TEST_RANGE in *;
    case Z.ltb_spec; lia.
Qed.

Definition all_tests : options := mk_options 10 None [false; false; false] [0; 0; 0] 0.

Lemma bits_pass_btest_witness :
  exists w, run_tests (fun min max (n : Z) => ((min + n) mod 1000, n + 1)) (fun _ => false) 707 79 all_tests 0 = Ok ((0, 26, 26), w).
Proof.
  apply (bits_pass_btest (fun min max n => ((min + n) mod 1000, n + 1)) (fun _ => false) 707 79 all_tests 0).
  - intros [|[|[|arg]]]; reflexivity.
  - done.
  - unfold TEST_RANGE. lia.
  - unfold TEST_RANGE. lia.
Defined.
