(* ===== verification/LinkedList.v ===== *)
(** The doubly-linked list of [uw_cse333/hw/hw1/LinkedList.c], on an explicit
    heap of list records, nodes and iterators.

    The records of [LinkedList_priv.h] are the records below; a pointer is an
    [option positive] with [None] for [NULL].  [malloc] consults an arbitrary
    failure oracle and hands out addresses never used before; [free] removes
    the record, so that a later access is a [BadAccess].  A function pointer
    argument is a function that may itself act on the heap.  A [T *out]
    parameter is part of the result. *)
From S2P Require Import Prelude.
From stdpp Require Import sorting.
Open Scope Z_scope.

Abbreviation ptr := (option positive).
Abbreviation is_null p := (bool_decide (p = None :> ptr)).

Section LinkedList.
Context {V U : Type} `{Inhabited V}.

Record LinkedListNode := mkNode { payload : V; next : ptr; prev : ptr }.
Record LinkedListHead := mkHead { num_elements : Z; head : ptr; tail : ptr }.
Record LLIterSt := mkIter { it_list : ptr; it_node : ptr }.

Record heap := mkHeap {
  nodes : gmap positive LinkedListNode;
  lists : gmap positive LinkedListHead;
  iters : gmap positive LLIterSt;
  brk : positive;          (** every address from [brk] up is unused *)
  oom : nat -> bool;       (** does the [n]-th [malloc] fail? *)
  ticks : nat;             (** calls of [malloc] so far *)
  client : U               (** memory the payload callbacks act on *)
}.

(** *** Loads, stores, [malloc] and [free] *)

Definition set_nodes (f : gmap positive LinkedListNode -> gmap positive LinkedListNode)
    : M heap unit :=
  modify (fun h => mkHeap (f (nodes h)) (lists h) (iters h) (brk h) (oom h) (ticks h) (client h)).
Definition set_lists (f : gmap positive LinkedListHead -> gmap positive LinkedListHead)
    : M heap unit :=
  modify (fun h => mkHeap (nodes h) (f (lists h)) (iters h) (brk h) (oom h) (ticks h) (client h)).
Definition set_iters (f : gmap positive LLIterSt -> gmap positive LLIterSt)
    : M heap unit :=
  modify (fun h => mkHeap (nodes h) (lists h) (f (iters h)) (brk h) (oom h) (ticks h) (client h)).

Definition malloc : M heap ptr := fun h =>
  if oom h (ticks h)
  then Ok (None, mkHeap (nodes h) (lists h) (iters h) (brk h) (oom h) (S (ticks h)) (client h))
  else Ok (Some (brk h),
           mkHeap (nodes h) (lists h) (iters h) (Pos.succ (brk h)) (oom h) (S (ticks h)) (client h)).

Definition deref (p : ptr) : M heap positive := get_or BadAccess p.

Definition load_node (p : ptr) : M heap LinkedListNode :=
  let* l := deref p in let* h := gets nodes in get_or BadAccess (h !! l).
Definition store_node (p : ptr) (n : LinkedListNode) : M heap unit :=
  do* load_node p; let* l := deref p in set_nodes (insert l n).
Definition free_node (p : ptr) : M heap unit :=
  do* load_node p; let* l := deref p in set_nodes (delete l).
(** The fields of a fresh node hold garbage until they are set. *)
Definition malloc_node : M heap ptr :=
  let* p := malloc in
  match p with
  | None => ret None
  | Some l => do* set_nodes (insert l (mkNode inhabitant None None)); ret (Some l)
  end.

Definition set_payload (p : ptr) (v : V) : M heap unit :=
  let* n := load_node p in store_node p (mkNode v (next n) (prev n)).
Definition set_next (p q : ptr) : M heap unit :=
  let* n := load_node p in store_node p (mkNode (payload n) q (prev n)).
Definition set_prev (p q : ptr) : M heap unit :=
  let* n := load_node p in store_node p (mkNode (payload n) (next n) q).

Definition load_list (p : ptr) : M heap LinkedListHead :=
  let* l := deref p in let* h := gets lists in get_or BadAccess (h !! l).
Definition store_list (p : ptr) (r : LinkedListHead) : M heap unit :=
  do* load_list p; let* l := deref p in set_lists (insert l r).
Definition free_list (p : ptr) : M heap unit :=
  do* load_list p; let* l := deref p in set_lists (delete l).
Definition set_num (p : ptr) (n : Z) : M heap unit :=
  let* r := load_list p in store_list p (mkHead n (head r) (tail r)).
Definition set_head (p q : ptr) : M heap unit :=
  let* r := load_list p in store_list p (mkHead (num_elements r) q (tail r)).
Definition set_tail (p q : ptr) : M heap unit :=
  let* r := load_list p in store_list p (mkHead (num_elements r) (head r) q).

Definition load_iter (p : ptr) : M heap LLIterSt :=
  let* l := deref p in let* h := gets iters in get_or BadAccess (h !! l).
Definition set_iter_node (p q : ptr) : M heap unit :=
  let* i := load_iter p in
  let* l := deref p in set_iters (insert l (mkIter (it_list i) q)).

Definition Verify333 (b : bool) : M heap unit := ensure VerifyFailed b.

(** *** The operations of LinkedList.c *)

Definition AllocateLinkedList : M heap ptr :=
  let* ll := malloc in
  match ll with
  | None => ret None
  | Some l => do* set_lists (insert l (mkHead 0 None None)); ret (Some l)
  end.

(** The [while (list->head != NULL)] loop of [FreeLinkedList]. *)
Fixpoint free_loop (fuel : nat) (list : ptr) (payload_free_function : V -> M heap unit)
    : M heap unit :=
  match fuel with
  | O => fail OutOfFuel
  | S fuel' =>
      let* r := load_list list in
      if is_null (head r) then ret tt
      else
        let* hd := load_node (head r) in
        do* payload_free_function (payload hd);
        let* r := load_list list in
        let* hd := load_node (head r) in
        do* (if is_null (next hd) then ret tt else set_prev (next hd) (prev hd));
        let n := head r in
        let* nn := load_node n in
        do* set_head list (next nn);
        do* free_node n;
        let* r := load_list list in
        do* (if is_null (head r) then set_tail list None else ret tt);
        free_loop fuel' list payload_free_function
  end.

Definition FreeLinkedList (list : ptr) (payload_free_function : V -> M heap unit)
    : M heap unit :=
  do* Verify333 (negb (is_null list));
  let* r := load_list list in
  do* free_loop (S (Z.to_nat (num_elements r))) list payload_free_function;
  do* set_num list 0;
  free_list list.

Definition NumElementsInLinkedList (list : ptr) : M heap Z :=
  do* Verify333 (negb (is_null list));
  let* r := load_list list in ret (num_elements r).

Definition PushLinkedList (list : ptr) (v : V) : M heap bool :=
  do* Verify333 (negb (is_null list));
  let* ln := malloc_node in
  if is_null ln then ret false
  else
    do* set_payload ln v;
    let* r := load_list list in
    if num_elements r =? 0 then
      do* Verify333 (is_null (head r));
      do* Verify333 (is_null (tail r));
      do* set_prev ln None;
      do* set_next ln None;
      do* set_tail list ln;
      do* set_head list ln;
      do* set_num list 1;
      ret true
    else
      do* Verify333 (negb (is_null (head r)));
      do* Verify333 (negb (is_null (tail r)));
      do* set_next ln (head r);
      do* set_prev ln None;
      let* n := load_node ln in
      do* set_prev (next n) ln;
      do* set_head list ln;
      do* set_num list (u32 (num_elements r + 1));
      ret true.

(** [Some v] is the return value [true] with [v] stored through
    [payload_ptr], [None] the return value [false]. *)
Definition PopLinkedList (list : ptr) : M heap (option V) :=
  do* Verify333 (negb (is_null list));
  let* r := load_list list in
  if num_elements r =? 0 then ret None
  else
    let* hd := load_node (head r) in
    let result := payload hd in
    let tmp := head r in
    do* (if num_elements r =? 1 then
           do* set_tail list None; set_head list None
         else
           do* set_head list (next hd);
           let* r' := load_list list in
           set_prev (head r') None);
    do* set_num list (u32 (num_elements r - 1));
    do* free_node tmp;
    ret (Some result).

Definition AppendLinkedList (list : ptr) (v : V) : M heap bool :=
  do* Verify333 (negb (is_null list));
  let* ln := malloc_node in
  if is_null ln then ret false
  else
    do* set_payload ln v;
    let* r := load_list list in
    if num_elements r =? 0 then
      do* Verify333 (is_null (head r));
      do* Verify333 (is_null (tail r));
      do* set_prev ln None;
      do* set_next ln None;
      do* set_tail list ln;
      do* set_head list ln;
      do* set_num list 1;
      ret true
    else
      do* set_next (tail r) ln;
      do* set_next ln None;
      do* set_prev ln (tail r);
      do* set_tail list ln;
      do* set_num list (u32 (num_elements r + 1));
      ret true.

Definition SliceLinkedList (list : ptr) : M heap (option V) :=
  do* Verify333 (negb (is_null list));
  let* r := load_list list in
  if num_elements r =? 0 then ret None
  else
    let* tl := load_node (tail r) in
    let result := payload tl in
    let tmp := tail r in
    do* (if num_elements r =? 1 then
           do* set_tail list None; set_head list None
         else
           do* set_tail list (prev tl);
           let* r' := load_list list in
           set_next (tail r') None);
    do* set_num list (u32 (num_elements r - 1));
    do* free_node tmp;
    ret (Some result).

(** The test of the bubble sort: are [a] and its successor [b] swapped? *)
Definition sort_swaps (ascending : Z) (comparator : V -> V -> Z) (a b : V) : bool :=
  let compare_result := comparator a b in
  let compare_result :=
    if ascending =? 0 then compare_result else s32 (compare_result * -1) in
  compare_result <? 0.

(** [while (curnode->next != NULL) ...]: one sweep, saying whether it swapped. *)
Fixpoint sort_sweep (fuel : nat) (ascending : Z) (comparator : V -> V -> Z)
    (curnode : ptr) (swapped : bool) : M heap bool :=
  match fuel with
  | O => fail OutOfFuel
  | S fuel' =>
      let* cur := load_node curnode in
      if is_null (next cur) then ret swapped
      else
        let* nx := load_node (next cur) in
        if sort_swaps ascending comparator (payload cur) (payload nx) then
          let tmp := payload cur in
          do* set_payload curnode (payload nx);
          do* set_payload (next cur) tmp;
          sort_sweep fuel' ascending comparator (next cur) true
        else sort_sweep fuel' ascending comparator (next cur) swapped
  end.

(** [do { swapped = 0; curnode = list->head; sweep } while (swapped);] *)
Fixpoint sort_loop (fuel width : nat) (ascending : Z) (comparator : V -> V -> Z)
    (list : ptr) : M heap unit :=
  match fuel with
  | O => fail OutOfFuel
  | S fuel' =>
      let* r := load_list list in
      let* swapped := sort_sweep width ascending comparator (head r) false in
      if swapped then sort_loop fuel' width ascending comparator list else ret tt
  end.

Definition SortLinkedList (list : ptr) (ascending : Z) (comparator : V -> V -> Z)
    : M heap unit :=
  do* Verify333 (negb (is_null list));
  let* r := load_list list in
  if num_elements r <? 2 then ret tt
  else
    let n := Z.to_nat (num_elements r) in
    sort_loop (S (n * n)) n ascending comparator list.

Definition LLMakeIterator (list : ptr) (pos : Z) : M heap ptr :=
  do* Verify333 (negb (is_null list));
  do* Verify333 ((pos =? 0) || (pos =? 1));
  let* n := NumElementsInLinkedList list in
  if n =? 0 then ret None
  else
    let* li := malloc in
    match li with
    | None => ret None
    | Some i =>
        let* r := load_list list in
        do* set_iters (insert i (mkIter list (if pos =? 0 then head r else tail r)));
        ret (Some i)
    end.

Definition LLIteratorFree (iter : ptr) : M heap unit :=
  do* Verify333 (negb (is_null iter));
  do* load_iter iter;
  let* i := deref iter in set_iters (delete i).

(** The three checks every iterator operation opens with. *)
Definition verify_iter (iter : ptr) : M heap LLIterSt :=
  do* Verify333 (negb (is_null iter));
  let* it := load_iter iter in
  do* Verify333 (negb (is_null (it_list it)));
  do* Verify333 (negb (is_null (it_node it)));
  ret it.

Definition LLIteratorHasNext (iter : ptr) : M heap bool :=
  let* it := verify_iter iter in
  let* n := load_node (it_node it) in
  if is_null (next n) then ret false else ret true.

Definition LLIteratorNext (iter : ptr) : M heap bool :=
  let* it := verify_iter iter in
  let* b := LLIteratorHasNext iter in
  if b then
    let* n := load_node (it_node it) in
    do* set_iter_node iter (next n);
    ret true
  else ret false.

Definition LLIteratorHasPrev (iter : ptr) : M heap bool :=
  let* it := verify_iter iter in
  let* n := load_node (it_node it) in
  if is_null (prev n) then ret false else ret true.

Definition LLIteratorPrev (iter : ptr) : M heap bool :=
  let* it := verify_iter iter in
  let* b := LLIteratorHasPrev iter in
  if b then
    let* n := load_node (it_node it) in
    do* set_iter_node iter (prev n);
    ret true
  else ret false.

Definition LLIteratorGetPayload (iter : ptr) : M heap V :=
  let* it := verify_iter iter in
  let* n := load_node (it_node it) in ret (payload n).

(** The payload [PopLinkedList]/[SliceLinkedList] left in the local
    [payload]; on [false] the local is uninitialised, which is a fault. *)
Definition popped (r : option V) : M heap V := get_or BadAccess r.

Definition LLIteratorDelete (iter : ptr) (payload_free_function : V -> M heap unit)
    : M heap bool :=
  let* it := verify_iter iter in
  let* n := load_node (it_node it) in
  if is_null (prev n) && is_null (next n) then
    let* r := PopLinkedList (it_list it) in
    do* set_iter_node iter None;
    let* v := popped r in
    do* payload_free_function v;
    ret false
  else
    let* v :=
      (if is_null (prev n) then
         let* r := PopLinkedList (it_list it) in
         let* v := popped r in
         let* l := load_list (it_list it) in
         do* set_iter_node iter (head l);
         ret v
       else if is_null (next n) then
         let* r := SliceLinkedList (it_list it) in
         let* v := popped r in
         let* l := load_list (it_list it) in
         do* set_iter_node iter (tail l);
         ret v
       else
         let tmp := next n in
         let v := payload n in
         do* set_next (prev n) (next n);
         let* n := load_node (it_node it) in
         do* set_prev (next n) (prev n);
         let* l := load_list (it_list it) in
         do* set_num (it_list it) (u32 (num_elements l - 1));
         do* free_node (it_node it);
         do* set_iter_node iter tmp;
         ret v) in
    do* payload_free_function v;
    ret true.

Definition LLIteratorInsertBefore (iter : ptr) (v : V) : M heap bool :=
  let* it := verify_iter iter in
  let* l := load_list (it_list it) in
  if bool_decide (it_node it = head l) then PushLinkedList (it_list it) v
  else
    let* newnode := malloc_node in
    if is_null newnode then ret false
    else
      do* set_payload newnode v;
      do* set_next newnode (it_node it);
      let* n := load_node (it_node it) in
      do* set_prev newnode (prev n);
      let* nn := load_node newnode in
      do* set_next (prev nn) newnode;
      do* set_prev (next nn) newnode;
      let* l := load_list (it_list it) in
      do* set_num (it_list it) (u32 (num_elements l + 1));
      ret true.

End LinkedList.

Arguments LinkedListNode : clear implicits.
Arguments heap : clear implicits.
Arguments mkHeap {V U}.
