(* ===== verification/LinkedListSpec.v ===== *)
(** The linked list, part 2: what a heap represents and what the operations of
    [LinkedList.c] do to it.  The abstract state is a [world], a finite map from
    list addresses to sequences of (node address, payload); each operation is
    proved to simulate a step on sequences and to leave every other list, and
    every other node, untouched. *)
From stdpp Require Import sorting.
From S2P Require Import Prelude LinkedList.
Open Scope Z_scope.

Section Model.
Context {V U : Type} `{Inhabited V}.
Implicit Types (h : heap V U) (N : gmap positive (LinkedListNode V)).

(** ** What the heap represents

    The abstract state of a list is the sequence of its node addresses and
    payloads; a [world] says which sequence each list record stands for. *)

Abbreviation chain := (list (positive * V)).

Definition hd_ptr (xs : chain) (q : ptr) : ptr :=
  match xs with [] => q | (l, _) :: _ => Some l end.
Fixpoint last_ptr (p : ptr) (xs : chain) : ptr :=
  match xs with [] => p | (l, _) :: xs => last_ptr (Some l) xs end.

(** [xs] is laid out in [N], linked both ways, between [p] and [q]. *)
Fixpoint seg (N : gmap positive (LinkedListNode V)) (p : ptr) (xs : chain) (q : ptr) : Prop :=
  match xs with
  | [] => True
  | (l, v) :: xs => N !! l = Some (mkNode v (hd_ptr xs q) p) /\ seg N (Some l) xs q
  end.

Definition head_of (xs : chain) : LinkedListHead :=
  mkHead (Z.of_nat (length xs)) (hd_ptr xs None) (last_ptr None xs).

Abbreviation store := (gmap positive chain).

(** [h] holds exactly the lists of [W]: their records and nodes are laid out
    as the C structures require, no node is shared, every allocated node
    belongs to some list (nothing leaks), and lengths fit [HWSize_t]. *)
Record world (h : heap V U) (W : store) : Prop := {
  w_lists : forall L, lists h !! L = head_of <$> W !! L;
  w_seg : forall L xs, W !! L = Some xs -> seg (nodes h) None xs None;
  w_nodup : forall L xs, W !! L = Some xs -> NoDup xs.*1;
  w_len : forall L xs, W !! L = Some xs -> Z.of_nat (length xs) < 2 ^ 32;
  w_disj : forall L1 L2 xs1 xs2 l, W !! L1 = Some xs1 -> W !! L2 = Some xs2 ->
    l ∈ xs1.*1 -> l ∈ xs2.*1 -> L1 = L2;
  w_noleak : forall l, is_Some (nodes h !! l) -> exists L xs, W !! L = Some xs /\ l ∈ xs.*1;
  w_fresh_node : forall l, is_Some (nodes h !! l) -> (l < brk h)%positive;
  w_fresh_list : forall L, is_Some (W !! L) -> (L < brk h)%positive;
  w_fresh_iter : forall i, is_Some (iters h !! i) -> (i < brk h)%positive;
}.

End Model.

(** Runs the operations symbolically. *)
Ltac exec_cbn := cbn -[Z.eqb Z.ltb Z.leb Z.add Z.sub Z.of_nat wrapu].
Ltac exec := cbv [
  PushLinkedList PopLinkedList AppendLinkedList SliceLinkedList malloc_node malloc
  set_payload set_next set_prev set_num set_head set_tail store_node load_node free_node
  store_list load_list free_list Verify333 set_nodes set_lists set_iters deref
  LLMakeIterator NumElementsInLinkedList LLIteratorFree verify_iter load_iter
  set_iter_node LLIteratorHasNext LLIteratorHasPrev LLIteratorNext LLIteratorPrev
  LLIteratorGetPayload LLIteratorInsertBefore popped
  bind ret fail gets modify get_or ensure head_of]; exec_cbn;
  repeat (progress (simplify_map_eq; exec_cbn));
  rewrite ?insert_insert_eq.

(** Case analysis on membership of an address in the chains at hand. *)
Ltac node_cases :=
  intros k; cbn; rewrite ?fmap_app; cbn;
  rewrite ?not_elem_of_app, ?elem_of_app, ?not_elem_of_cons, ?elem_of_cons, ?elem_of_nil;
  intros; destruct_and?; simplify_map_eq.

(** The frame obligations of [world_update]. *)
Ltac frame := lazymatch goal with
  | |- forall _ : positive, _ => node_cases; destruct_or?; simplify_map_eq;
      first [done | tauto | split; [done|lia] | intuition (try congruence; try lia)]
  | _ => idtac
  end.

Section Spec.
Context {V U : Type} `{Inhabited V}.
Implicit Types (h : heap V U) (N : gmap positive (LinkedListNode V)) (xs : list (positive * V)).

Abbreviation chain := (list (positive * V)).
Abbreviation store := (gmap positive chain).

Lemma hd_ptr_app xs ys q : hd_ptr (xs ++ ys) q = hd_ptr xs (hd_ptr ys q).
Proof. by destruct xs as [|[]]. Qed.

Lemma seg_app N p xs ys q :
  seg N p (xs ++ ys) q <-> seg N p xs (hd_ptr ys q) /\ seg N (last_ptr p xs) ys q.
Proof.
  revert p; induction xs as [|[l v] xs IH]; intros p; cbn; [tauto|].
  rewrite IH, hd_ptr_app. tauto.
Qed.

Lemma seg_frame N N' p xs q :
  (forall l, l ∈ xs.*1 -> N' !! l = N !! l) -> seg N p xs q -> seg N' p xs q.
Proof.
  revert p; induction xs as [|[l v] xs IH]; intros p HN; cbn; [done|].
  intros [H1 H2]. split; [rewrite HN; [done|cbn; left]|].
  apply IH; [intros l' ?; apply HN; cbn; by right | done].
Qed.

Lemma seg_frame_insert N p xs q l n :
  l ∉ xs.*1 -> seg N p xs q -> seg (<[l := n]> N) p xs q.
Proof.
  intros Hl; apply seg_frame. intros l' Hl'. apply lookup_insert_ne. congruence.
Qed.

Lemma seg_frame_delete N p xs q l :
  l ∉ xs.*1 -> seg N p xs q -> seg (delete l N) p xs q.
Proof.
  intros Hl; apply seg_frame. intros l' Hl'. apply lookup_delete_ne. congruence.
Qed.

Lemma seg_in N p xs q l : seg N p xs q -> l ∈ xs.*1 -> is_Some (N !! l).
Proof.
  revert p; induction xs as [|[l' v] xs IH]; intros p; cbn; [by intros _ ?%elem_of_nil|].
  intros [H1 H2] [->|Hin]%elem_of_cons; [by eexists|eauto].
Qed.

Lemma last_ptr_app p xs ys : last_ptr p (xs ++ ys) = last_ptr (last_ptr p xs) ys.
Proof. revert p; induction xs as [|[l v] xs IH]; intros p; cbn; auto. Qed.

(** The empty heap is the empty world. *)
Lemma world_empty oom0 (u : U) : world (mkHeap ∅ ∅ ∅ 1 oom0 0 u) (∅ : store).
Proof.
  split; cbn; intros *; rewrite ?lookup_empty; first [done | by intros []].
Qed.

(** Replacing one list of a world: the new nodes are laid out, the nodes of the
    other lists are left alone, dropped nodes are gone and added ones are new. *)
Lemma world_update h h' W L xs xs' :
  world h W -> W !! L = Some xs ->
  lists h' = <[L := head_of xs']> (lists h) -> iters h' = iters h ->
  (brk h <= brk h')%positive ->
  seg (nodes h') None xs' None -> NoDup xs'.*1 -> Z.of_nat (length xs') < 2 ^ 32 ->
  (forall l, l ∉ xs.*1 -> l ∉ xs'.*1 -> nodes h' !! l = nodes h !! l) ->
  (forall l, l ∈ xs.*1 -> l ∉ xs'.*1 -> nodes h' !! l = None) ->
  (forall l, l ∈ xs'.*1 -> l ∉ xs.*1 -> nodes h !! l = None /\ (l < brk h')%positive) ->
  world h' (<[L := xs']> W).
Proof.
  intros Hw HL Hls His Hbrk Hseg Hnd Hlen Hsame Hgone Hnew.
  assert (Hother : forall L' ys l, L' <> L -> W !! L' = Some ys -> l ∈ ys.*1 ->
            l ∉ xs.*1 /\ l ∉ xs'.*1).
  { intros L' ys l Hne HL' Hin.
    assert (l ∉ xs.*1) by (intros ?; apply Hne; eapply w_disj; eauto).
    split; [done|]. intros Hin'. destruct (Hnew l Hin' ltac:(done)) as [HNone _].
    destruct (seg_in (nodes h) None ys None l) as [n Hn];
      [by eapply w_seg|done|congruence]. }
  assert (Hnode : forall l, l ∈ xs.*1 -> is_Some (nodes h !! l))
    by (intros l ?; eapply seg_in; [eapply w_seg|]; eauto).
  split.
  - intros L'. rewrite Hls. destruct (decide (L = L')) as [->|].
    + by rewrite !lookup_insert_eq.
    + rewrite !lookup_insert_ne by done. by apply w_lists.
  - intros L' ys [[-> ->]|[Hne HL']]%lookup_insert_Some; [done|].
    eapply seg_frame; [|by eapply w_seg].
    intros l Hin. apply Hsame; eapply Hother; eauto.
  - intros L' ys [[-> ->]|[Hne HL']]%lookup_insert_Some; [done|by eapply w_nodup].
  - intros L' ys [[-> ->]|[Hne HL']]%lookup_insert_Some; [done|by eapply w_len].
  - intros L1 L2 ys1 ys2 l [[-> ->]|[Hne1 H1]]%lookup_insert_Some
      [[-> ->]|[Hne2 H2]]%lookup_insert_Some Hl1 Hl2; [done|..].
    + exfalso. by eapply (Hother L2 ys2 l).
    + exfalso. by eapply (Hother L1 ys1 l).
    + by eapply (w_disj h W Hw L1 L2).
  - intros l [n Hn]. destruct (decide (l ∈ xs'.*1)).
    { exists L, xs'. by rewrite lookup_insert_eq. }
    destruct (decide (l ∈ xs.*1)); [by rewrite Hgone in Hn|].
    rewrite Hsame in Hn by done.
    destruct (w_noleak h W Hw l) as (L' & ys & HL' & Hin); [by eexists|].
    exists L', ys. rewrite lookup_insert_ne; [done|]. intros ->. congruence.
  - intros l [n Hn]. destruct (decide (l ∈ xs'.*1)) as [Hi|].
    { destruct (decide (l ∈ xs.*1)) as [Hx|]; [|by apply Hnew].
      pose proof (w_fresh_node h W Hw l (Hnode l Hx)). lia. }
    destruct (decide (l ∈ xs.*1)); [by rewrite Hgone in Hn|].
    rewrite Hsame in Hn by done.
    pose proof (w_fresh_node h W Hw l ltac:(by eexists)). lia.
  - intros L' [ys [[-> ->]|[Hne HL']]%lookup_insert_Some].
    + pose proof (w_fresh_list h W Hw L' ltac:(by eexists)). lia.
    + pose proof (w_fresh_list h W Hw L' ltac:(by eexists)). lia.
  - intros i Hi. rewrite His in Hi. pose proof (w_fresh_iter h W Hw i Hi). lia.
Qed.

(** *** Running the operations symbolically *)

Lemma world_fresh h W : world h W -> nodes h !! brk h = None.
Proof.
  intros Hw. destruct (nodes h !! brk h) as [n|] eqn:E; [|done].
  pose proof (w_fresh_node h W Hw (brk h) ltac:(by eexists)). lia.
Qed.

Lemma world_list h W L xs : world h W -> W !! L = Some xs -> lists h !! L = Some (head_of xs).
Proof. intros Hw HL. by rewrite (w_lists h W Hw), HL. Qed.

Lemma world_fresh_notin h W L xs : world h W -> W !! L = Some xs -> brk h ∉ xs.*1.
Proof.
  intros Hw HL Hin. destruct (seg_in (nodes h) None xs None (brk h)) as [n Hn];
    [by eapply w_seg|done|]. by rewrite (world_fresh h W) in Hn.
Qed.


Lemma length_u32 (xs : chain) x :
  Z.of_nat (length xs) + 1 < 2 ^ 32 ->
  u32 (Z.of_nat (length xs) + 1) = Z.of_nat (length (x :: xs)).
Proof. intros Hl. rewrite wrapu_small; cbn [length]; lia. Qed.

Lemma num_nonzero n : (Z.of_nat (S n) =? 0) = false.
Proof. apply Z.eqb_neq. lia. Qed.

Lemma last_ptr_cons p l v (xs : chain) : is_Some (last_ptr p ((l, v) :: xs)).
Proof. cbn. revert l; induction xs as [|[] xs IH]; intros l; cbn; eauto. Qed.



Lemma PushLinkedList_ok h W L xs v :
  world h W -> W !! L = Some xs -> Z.of_nat (length xs) + 1 < 2 ^ 32 ->
  oom h (ticks h) = false ->
  exists h', PushLinkedList (Some L) v h = Ok (true, h') /\
    world h' (<[L := (brk h, v) :: xs]> W) /\ iters h' = iters h /\ client h' = client h.
Proof.
  intros Hw HL Hlen Hoom.
  pose proof (world_list _ _ _ _ Hw HL) as Hhd. pose proof (world_fresh _ _ Hw) as Hfr.
  pose proof (world_fresh_notin _ _ _ _ Hw HL) as Hnb.
  pose proof (w_seg h W Hw L xs HL) as Hseg. pose proof (w_nodup h W Hw L xs HL) as Hnd.
  destruct xs as [|[l0 v0] xs].
  - eexists; split; [exec; rewrite Hoom; exec; reflexivity|split; [|done]].
    eapply world_update; try done; cbn; frame.
    + lia.
    + split; [by simplify_map_eq|done].
    + apply NoDup_singleton.
  - cbn in Hseg. destruct Hseg as [H0 Hseg]. cbn in Hnb.
    apply not_elem_of_cons in Hnb as [Hne Hnb]. destruct (last_ptr_cons None l0 v0 xs) as [t Ht].
    assert (l0 ∉ xs.*1) by (by apply NoDup_cons_1_1 in Hnd).
    assert (l0 <> brk h) by congruence.
    eexists; split; [exec; rewrite Hoom; exec; cbn in Ht; rewrite Ht; exec; reflexivity|split; [|done]].
    eapply world_update; try done; cbn; frame.
    + unfold head_of; cbn. do 2 f_equal. cbn [length] in Hlen. rewrite wrapu_small; lia.
    + lia.
    + simplify_map_eq. do 2 (split; [done|]). by repeat (apply seg_frame_insert; [done|]).
    + by constructor; [rewrite not_elem_of_cons|].
    + cbn [length] in *. lia.
Qed.

Lemma head_of_snoc (ys : chain) l v :
  head_of (ys ++ [(l, v)]) = mkHead (Z.of_nat (S (length ys))) (hd_ptr ys (Some l)) (Some l).
Proof.
  unfold head_of. rewrite length_app, Nat.add_1_r, hd_ptr_app, last_ptr_app. done.
Qed.

Lemma AppendLinkedList_ok h W L xs v :
  world h W -> W !! L = Some xs -> Z.of_nat (length xs) + 1 < 2 ^ 32 ->
  oom h (ticks h) = false ->
  exists h', AppendLinkedList (Some L) v h = Ok (true, h') /\
    world h' (<[L := xs ++ [(brk h, v)]]> W) /\ iters h' = iters h /\ client h' = client h.
Proof.
  intros Hw HL Hlen Hoom.
  pose proof (world_list _ _ _ _ Hw HL) as Hhd. pose proof (world_fresh _ _ Hw) as Hfr.
  pose proof (world_fresh_notin _ _ _ _ Hw HL) as Hnb.
  pose proof (w_seg h W Hw L xs HL) as Hseg. pose proof (w_nodup h W Hw L xs HL) as Hnd.
  destruct xs as [|[lt vt] ys _] using rev_ind.
  - eexists; split; [exec; rewrite Hoom; exec; reflexivity|split; [|done]].
    eapply world_update; try done; cbn; frame.
    + lia.
    + split; [by simplify_map_eq|done].
    + apply NoDup_singleton.
  - rewrite head_of_snoc in Hhd. apply seg_app in Hseg as [Hseg [Ht _]]. cbn in Hseg, Ht.
    rewrite fmap_app in Hnb, Hnd. apply not_elem_of_app in Hnb as [Hnb Hne].
    apply not_elem_of_cons in Hne as [Hne _]. apply NoDup_app in Hnd as (Hnd & Hnt & _).
    assert (lt ∉ ys.*1) by (intros ?; eapply Hnt; [done|by left]).
    rewrite length_app in Hlen. cbn [length] in Hlen.
    eexists; split; [exec; rewrite Hoom; exec; reflexivity|split; [|done]].
    eapply world_update; try done; cbn; frame.
    + rewrite head_of_snoc, hd_ptr_app, length_app. cbn. do 2 f_equal. rewrite wrapu_small; lia.
    + lia.
    + rewrite <- app_assoc, seg_app. cbn. simplify_map_eq. split; [|done].
      by repeat (apply seg_frame_insert; [done|]).
    + rewrite !fmap_app. cbn. rewrite <- app_assoc. cbn. apply NoDup_app.
      split_and!; [done| |by repeat constructor; set_solver]. set_solver.
    + rewrite !length_app. cbn. lia.
Qed.

Lemma PopLinkedList_ok h W L l v xs :
  world h W -> W !! L = Some ((l, v) :: xs) ->
  exists h', PopLinkedList (Some L) h = Ok (Some v, h') /\
    world h' (<[L := xs]> W) /\ iters h' = iters h /\ client h' = client h.
Proof.
  intros Hw HL. pose proof (w_len _ _ Hw L _ HL) as Hlen.
  pose proof (world_list _ _ _ _ Hw HL) as Hhd.
  pose proof (w_seg _ _ Hw L _ HL) as [Hl Hseg]. pose proof (w_nodup _ _ Hw L _ HL) as Hnd.
  apply NoDup_cons in Hnd as [Hni Hnd].
  destruct xs as [|[l1 v1] xs].
  - eexists; split; [exec; reflexivity|split; [|done]].
    eapply world_update; try done; cbn; frame.
  - cbn in Hseg, Hni. destruct Hseg as [H1 Hseg]. apply not_elem_of_cons in Hni as [Hne Hni].
    destruct (last_ptr_cons (Some l) l1 v1 xs) as [t Ht]. apply NoDup_cons in Hnd as [Hn1 Hnd].
    assert (E1 : (Z.of_nat (S (S (length xs))) =? 1) = false) by (apply Z.eqb_neq; lia).
    eexists; split; [exec; rewrite ?E1; exec; reflexivity|split; [|done]].
    eapply world_update; try done; cbn; frame.
    + unfold head_of; cbn. do 2 f_equal. cbn [length] in Hlen. rewrite wrapu_small; lia.
    + rewrite lookup_delete_ne, lookup_insert_eq by done. split; [done|].
      apply seg_frame_delete, seg_frame_insert; done.
    + by constructor.
    + cbn [length] in *. lia.
Qed.

Lemma SliceLinkedList_ok h W L l v xs :
  world h W -> W !! L = Some (xs ++ [(l, v)]) ->
  exists h', SliceLinkedList (Some L) h = Ok (Some v, h') /\
    world h' (<[L := xs]> W) /\ iters h' = iters h /\ client h' = client h.
Proof.
  intros Hw HL. pose proof (w_len _ _ Hw L _ HL) as Hlen.
  pose proof (world_list _ _ _ _ Hw HL) as Hhd.
  pose proof (w_seg _ _ Hw L _ HL) as Hseg. pose proof (w_nodup _ _ Hw L _ HL) as Hnd.
  rewrite head_of_snoc in Hhd. apply seg_app in Hseg as [Hseg [Hl _]]. cbn in Hseg, Hl.
  rewrite fmap_app in Hnd. apply NoDup_app in Hnd as (Hnd & Hni & _).
  assert (Hl' : l ∉ xs.*1) by (intros ?; eapply Hni; [done|by left]). clear Hni.
  rewrite length_app, Nat.add_1_r in Hlen.
  destruct xs as [|[l1 v1] xs _] using rev_ind.
  - eexists; split; [exec; reflexivity|split; [|done]].
    eapply world_update; try done; cbn; frame.
  - rewrite last_ptr_app in Hl. cbn in Hl. rewrite length_app, Nat.add_1_r in *.
    apply seg_app in Hseg as [Hseg [H1 _]]. cbn in H1.
    rewrite fmap_app in Hnd, Hl'. apply NoDup_app in Hnd as (Hnd & Hn1 & _).
    apply not_elem_of_app in Hl' as [Hl' Hne]. apply not_elem_of_cons in Hne as [Hne _].
    assert (H1' : l1 ∉ xs.*1) by (intros ?; eapply Hn1; [done|by left]). clear Hn1.
    assert (E1 : (Z.of_nat (S (S (length xs))) =? 1) = false) by (apply Z.eqb_neq; lia).
    eexists; split; [exec; rewrite ?E1; exec; reflexivity|split; [|done]].
    eapply world_update; try done; cbn; frame.
    + rewrite head_of_snoc, !hd_ptr_app. cbn. do 2 f_equal. rewrite wrapu_small; lia.
    + rewrite seg_app. cbn. rewrite lookup_delete_ne, lookup_insert_eq by done.
      split; [|done]. apply seg_frame_delete, seg_frame_insert; done.
    + rewrite fmap_app. apply NoDup_app. split_and!; [done|set_solver|apply NoDup_singleton].
    + rewrite length_app. cbn. lia.
Qed.

(** C20: on a list that fits its 32-bit counter and while [malloc] succeeds,
    [PushLinkedList] and [AppendLinkedList] return [true] and put the payload,
    in a node that was not in use, at the front or at the back;
    [PopLinkedList] and [SliceLinkedList] return the payload at the front or
    at the back and remove its node.  In each case the records, both directions
    of the links, the element count and every other list stay consistent, and
    no node leaks. *)
Theorem list_ends_refine h W L xs :
  world h W -> W !! L = Some xs ->
  (forall v, Z.of_nat (length xs) + 1 < 2 ^ 32 -> oom h (ticks h) = false ->
     exists h', PushLinkedList (Some L) v h = Ok (true, h') /\
       world h' (<[L := (brk h, v) :: xs]> W)) /\
  (forall v, Z.of_nat (length xs) + 1 < 2 ^ 32 -> oom h (ticks h) = false ->
     exists h', AppendLinkedList (Some L) v h = Ok (true, h') /\
       world h' (<[L := xs ++ [(brk h, v)]]> W)) /\
  (forall l v ys, xs = (l, v) :: ys ->
     exists h', PopLinkedList (Some L) h = Ok (Some v, h') /\ world h' (<[L := ys]> W)) /\
  (forall l v ys, xs = ys ++ [(l, v)] ->
     exists h', SliceLinkedList (Some L) h = Ok (Some v, h') /\ world h' (<[L := ys]> W)) /\
  (xs = [] ->
     PopLinkedList (Some L) h = Ok (None, h) /\ SliceLinkedList (Some L) h = Ok (None, h)).
Proof.
  intros Hw HL. split_and!.
  - intros v ? ?. destruct (PushLinkedList_ok h W L xs v) as (h' & ? & ? & _); eauto.
  - intros v ? ?. destruct (AppendLinkedList_ok h W L xs v) as (h' & ? & ? & _); eauto.
  - intros l v ys ->. destruct (PopLinkedList_ok h W L l v ys) as (h' & ? & ? & _); eauto.
  - intros l v ys ->. destruct (SliceLinkedList_ok h W L l v ys) as (h' & ? & ? & _); eauto.
  - intros ->. pose proof (world_list _ _ _ _ Hw HL) as Hhd. split; exec; reflexivity.
Qed.

(** *** The bubble sort *)

Section Sort.
Context (ascending : Z) (comparator : V -> V -> Z).
Let swaps := sort_swaps ascending comparator.

(** What one sweep does to the payloads from the current one on. *)
Fixpoint sweep (v : V) (ws : list V) : list V * bool :=
  match ws with
  | [] => ([v], false)
  | w :: ws =>
      if swaps v w then (w :: (sweep v ws).1, true)
      else (v :: (sweep w ws).1, (sweep w ws).2)
  end.

Lemma sweep_perm v ws : (sweep v ws).1 ≡ₚ v :: ws.
Proof.
  revert v; induction ws as [|w ws IH]; intros v; cbn; [done|].
  destruct (swaps v w); cbn; rewrite IH; [apply perm_swap|done].
Qed.

Lemma sweep_length v ws : length (sweep v ws).1 = S (length ws).
Proof. by rewrite sweep_perm. Qed.

Lemma sweep_stays v ws :
  (sweep v ws).2 = false ->
  (sweep v ws).1 = v :: ws /\ Sorted (fun a b => swaps a b = false) (v :: ws).
Proof.
  revert v; induction ws as [|w ws IH]; intros v; cbn; [by repeat constructor|].
  destruct (swaps v w) eqn:E; [done|]. cbn. intros Hb.
  destruct (IH w Hb) as [-> Hs]. split; [done|]. constructor; [done|by constructor].
Qed.

Definition later_swaps (v : V) (ws : list V) : nat :=
  length (filter (fun w => swaps v w = true) ws).
Fixpoint inversions (vs : list V) : nat :=
  match vs with [] => 0 | v :: ws => later_swaps v ws + inversions ws end%nat.

Lemma later_swaps_perm v ws ws' : ws ≡ₚ ws' -> later_swaps v ws = later_swaps v ws'.
Proof. intros Hp. unfold later_swaps. by rewrite Hp. Qed.

Lemma later_swaps_cons v w ws :
  later_swaps v (w :: ws) = ((if swaps v w then 1 else 0) + later_swaps v ws)%nat.
Proof.
  unfold later_swaps. rewrite filter_cons.
  destruct (swaps v w); [rewrite decide_True by done|rewrite decide_False by done]; done.
Qed.

Lemma inversions_bound vs : (inversions vs <= length vs * length vs)%nat.
Proof.
  induction vs as [|v vs IH]; cbn; [lia|].
  assert (later_swaps v vs <= length vs)%nat by apply length_filter. nia.
Qed.

Hypothesis swaps_asym : forall a b, swaps a b = true -> swaps b a = false.

Lemma sweep_inversions v ws :
  (inversions (sweep v ws).1 + (if (sweep v ws).2 then 1 else 0) <= inversions (v :: ws))%nat.
Proof.
  revert v; induction ws as [|w ws IH]; intros v; [done|].
  cbn [sweep]. destruct (swaps v w) eqn:E; cbn [fst snd inversions].
  - rewrite (later_swaps_perm _ _ _ (sweep_perm v ws)), !later_swaps_cons.
    rewrite (swaps_asym _ _ E), E. pose proof (IH v). cbn [inversions] in *. lia.
  - rewrite (later_swaps_perm _ _ _ (sweep_perm w ws)). pose proof (IH w). cbn [inversions] in *. lia.
Qed.

Definition with_nodes N h : heap V U :=
  mkHeap N (lists h) (iters h) (brk h) (oom h) (ticks h) (client h).

Lemma sort_sweep_ok fuel h p l v rest sw :
  seg (nodes h) p ((l, v) :: rest) None -> NoDup (l :: rest.*1) ->
  (length rest < fuel)%nat ->
  exists N', sort_sweep fuel ascending comparator (Some l) sw h
               = Ok (sw || (sweep v rest.*2).2, with_nodes N' h) /\
    seg N' p (zip (l :: rest.*1) (sweep v rest.*2).1) None /\
    (forall k, k ∉ l :: rest.*1 -> N' !! k = nodes h !! k).
Proof.
  revert p l v rest sw h; induction fuel as [|fuel IH];
    intros p l v rest sw h [Hl Hseg] Hnd Hf; [lia|].
  destruct rest as [|[l1 w] rest].
  - exists (nodes h). split; [|by cbn].
    cbn [sort_sweep]. exec. rewrite orb_false_r. by destruct h.
  - cbn in Hl, Hnd. destruct Hseg as [H1 Hseg].
    apply NoDup_cons in Hnd as [Hni Hnd]. apply not_elem_of_cons in Hni as [Hne Hni].
    pose proof (NoDup_cons_1_1 _ _ Hnd) as Hn1.
    cbn [fmap list_fmap fst snd sweep]. destruct (swaps v w) eqn:E; unfold swaps in E.
    + set (h1 := with_nodes (<[l1 := mkNode v (hd_ptr rest None) (Some l)]>
                             (<[l := mkNode w (Some l1) p]> (nodes h))) h).
      destruct (IH (Some l) l1 v rest true h1) as (N' & HR & HS & HF).
      { split; [by cbn; rewrite lookup_insert_eq|].
        repeat (apply seg_frame_insert; [done|]). done. }
      { done. } { cbn in Hf. lia. }
      exists N'. split_and!.
      * rewrite orb_true_r. rewrite orb_true_l in HR.
        cbn [sort_sweep]. exec. rewrite E. exec. exact HR.
      * cbn [zip zip_with seg]. split; [|exact HS].
        rewrite HF by (apply not_elem_of_cons; done). cbn. rewrite lookup_insert_ne by done.
        rewrite lookup_insert_eq. destruct (sweep v rest.*2) as [[|y ys] b] eqn:Ey; [|done].
        pose proof (sweep_length v rest.*2) as Hlen. by rewrite Ey in Hlen.
      * intros k (Hk & Hk1)%not_elem_of_cons. rewrite HF by done. cbn.
        apply not_elem_of_cons in Hk1 as [? ?]. by rewrite !lookup_insert_ne by done.
    + destruct (IH (Some l) l1 w rest sw h) as (N' & HR & HS & HF).
      { by split. } { done. } { cbn in Hf. lia. }
      exists N'. split_and!.
      * cbn [sort_sweep]. exec. rewrite E. exact HR.
      * cbn [zip zip_with seg]. split; [|exact HS].
        rewrite HF by (apply not_elem_of_cons; done). rewrite Hl.
        destruct (sweep w rest.*2) as [[|y ys] b] eqn:Ey; [|done].
        pose proof (sweep_length w rest.*2) as Hlen. by rewrite Ey in Hlen.
      * intros k (Hk & Hk1)%not_elem_of_cons. by apply HF.
Qed.

Lemma sort_loop_ok fuel width h L r l v rest :
  lists h !! L = Some r -> head r = Some l ->
  seg (nodes h) None ((l, v) :: rest) None -> NoDup (l :: rest.*1) ->
  (length rest < width)%nat -> (inversions (v :: rest.*2) < fuel)%nat ->
  exists N' ys, sort_loop fuel width ascending comparator (Some L) h = Ok (tt, with_nodes N' h) /\
    seg N' None (zip (l :: rest.*1) ys) None /\
    (forall k, k ∉ l :: rest.*1 -> N' !! k = nodes h !! k) /\
    ys ≡ₚ v :: rest.*2 /\ Sorted (fun a b => swaps a b = false) ys.
Proof.
  intros HL Hr. revert h v rest HL; induction fuel as [|fuel IH];
    intros h v rest HL Hseg Hnd Hwd Hf; [lia|].
  destruct (sort_sweep_ok width h None l v rest false) as (N1 & HR & HS & HF); [done..|].
  pose proof (sweep_inversions v rest.*2) as Hinv. pose proof (sweep_perm v rest.*2) as Hp.
  assert (Hload : load_list (Some L) h = Ok (r, h)) by (unfold load_list; exec; done).
  cbn [sort_loop]. step Hload. rewrite Hr. step HR. rewrite orb_false_l.
  destruct (sweep v rest.*2).2 eqn:Eb; cbn [orb].
  - pose proof (sweep_length v rest.*2) as Hlen.
    destruct (sweep v rest.*2).1 as [|y ys] eqn:Ey; [done|].
    assert (Hl1 : (zip rest.*1 ys).*1 = rest.*1).
    { apply fst_zip. cbn in Hlen. rewrite !length_fmap in *. lia. }
    assert (Hl2 : (zip rest.*1 ys).*2 = ys).
    { apply snd_zip. cbn in Hlen. rewrite !length_fmap in *. lia. }
    destruct (IH (with_nodes N1 h) y (zip rest.*1 ys)) as (N2 & zs & HR2 & HS2 & HF2 & HP2 & HZ2).
    { done. } { done. } { by rewrite Hl1. }
    { rewrite length_zip, !length_fmap. cbn in Hlen. lia. } { rewrite Hl2. lia. }
    rewrite Hl1, Hl2 in *. exists N2, zs. split_and!; [exact HR2|done| |by rewrite HP2, Hp|done].
    intros k Hk. by rewrite HF2, HF.
  - destruct (sweep_stays v rest.*2 Eb) as [Hys Hsorted].
    exists N1, (v :: rest.*2). rewrite Hys in HS. split_and!; done.
Qed.

End Sort.

(** A comparator as the header of [LinkedList.h] asks for: a total preorder
    by sign, with no value that [*= -1] cannot negate. *)
Record comparator_ok (comparator : V -> V -> Z) : Prop := {
  cmp_range : forall a b, - 2 ^ 31 < comparator a b < 2 ^ 31;
  cmp_flip : forall a b, comparator a b < 0 <-> 0 < comparator b a;
  cmp_trans : forall a b c, comparator a b <= 0 -> comparator b c <= 0 -> comparator a c <= 0;
}.

Lemma sort_swaps_sign ascending comparator a b :
  comparator_ok comparator ->
  sort_swaps ascending comparator a b =
    if ascending =? 0 then comparator a b <? 0 else 0 <? comparator a b.
Proof.
  intros [Hr _ _]. specialize (Hr a b). unfold sort_swaps.
  destruct (ascending =? 0); [done|]. rewrite wraps_small by bound_lia.
  destruct (Z.ltb_spec (comparator a b * -1) 0), (Z.ltb_spec 0 (comparator a b)); lia || done.
Qed.

Lemma SortLinkedList_ok h W L xs ascending comparator :
  world h W -> W !! L = Some xs -> comparator_ok comparator ->
  exists h' ys, SortLinkedList (Some L) ascending comparator h = Ok (tt, h') /\
    world h' (<[L := zip xs.*1 ys]> W) /\ iters h' = iters h /\ client h' = client h /\
    ys ≡ₚ xs.*2 /\
    StronglySorted (fun a b => if ascending =? 0 then comparator b a <= 0
                               else comparator a b <= 0) ys.
Proof.
  intros Hw HL Hc. pose proof (w_len _ _ Hw L _ HL) as Hlen.
  pose proof (world_list _ _ _ _ Hw HL) as Hhd.
  pose proof (w_seg _ _ Hw L _ HL) as Hseg. pose proof (w_nodup _ _ Hw L _ HL) as Hnd.
  assert (Hload : forall r, lists h !! L = Some r -> load_list (Some L) h = Ok (r, h))
    by (intros r Hr; unfold load_list; exec; done).
  unfold SortLinkedList. cbn [is_null]. rewrite bool_decide_false by done.
  rewrite (bind_ok _ _ _ tt h) by done. step (Hload _ Hhd). cbn [num_elements head_of].
  destruct (Z.ltb_spec (Z.of_nat (length xs)) 2) as [H2|H2].
  - exists h, xs.*2. rewrite zip_fst_snd, insert_id by done. split_and!; try done.
    destruct xs as [|x [|y xs]]; cbn in *; [constructor|by repeat constructor|lia].
  - destruct xs as [|[l v] rest]; [cbn in H2; lia|].
    set (n := Z.to_nat (Z.of_nat (length ((l, v) :: rest)))).
    assert (Hn : n = S (length rest)) by (subst n; cbn; lia).
    destruct (sort_loop_ok ascending comparator) with (fuel := S (n * n)) (width := n) (h := h)
      (L := L) (r := head_of ((l, v) :: rest)) (l := l) (v := v) (rest := rest)
      as (N' & ys & HR & HS & HF & HP & HZ); try done.
    { intros a b. rewrite !(sort_swaps_sign _ _ _ _ Hc). destruct Hc as [_ Hf _].
      destruct (ascending =? 0); rewrite Z.ltb_lt, Z.ltb_ge; [rewrite Hf|rewrite <- Hf]; lia. }
    { lia. }
    { pose proof (inversions_bound ascending comparator (v :: rest.*2)) as Hb.
      cbn [length] in Hb. rewrite length_fmap in Hb. lia. }
    assert (Hlys : length ys = S (length rest)) by (rewrite HP; cbn; by rewrite length_fmap).
    exists (with_nodes N' h), ys. split; [exact HR|]. split; [|split_and!; [done..|]].
    + assert (Hfst : (zip (l :: rest.*1) ys).*1 = l :: rest.*1)
        by (apply fst_zip; cbn; rewrite length_fmap; lia).
      cbn [fmap list_fmap fst]. eapply world_update; try done; cbn -[zip]; rewrite ?Hfst; try done.
      * rewrite insert_id; [done|]. rewrite Hhd. f_equal. unfold head_of. cbn [length].
        destruct ys as [|y ys]; [done|]. cbn -[last_ptr]. f_equal; [|].
        -- rewrite length_zip, length_fmap. cbn in Hlys. lia.
        -- clear -Hlys. cbn. cbn in Hlys. revert l ys Hlys. induction rest as [|[] rest IHr];
             intros l [|y' ys] Hl; cbn in *; try done. apply IHr; lia.
      * rewrite length_zip. cbn [length] in *. rewrite length_fmap. lia.
      * intros k Hk Hk'. by apply HF.
    + apply Sorted_StronglySorted.
      { intros a b c. destruct Hc as [_ _ Ht]. destruct (ascending =? 0); intros; eauto. }
      eapply Sorted_weaken; [|exact HZ]. intros a b. cbn. rewrite (sort_swaps_sign _ _ _ _ Hc).
      destruct Hc as [_ Hf _].
      destruct (ascending =? 0); rewrite Z.ltb_ge; [|lia].
      intros ?. destruct (Z.le_gt_cases (comparator b a) 0); [done|].
      assert (comparator a b < 0) by (apply Hf; lia). lia.
Qed.

(** [SortLinkedList] with a comparator that orders payloads by sign
    returns, having permuted the payloads over the list's nodes, which keep
    their places, into ascending order when [ascending] is non-zero and into
    descending order when it is zero; every other list is untouched. *)
Theorem SortLinkedList_sorts h W L xs ascending comparator :
  world h W -> W !! L = Some xs -> comparator_ok comparator ->
  exists h' ys, SortLinkedList (Some L) ascending comparator h = Ok (tt, h') /\
    world h' (<[L := zip xs.*1 ys]> W) /\ ys ≡ₚ xs.*2 /\
    StronglySorted (fun a b => if ascending =? 0 then comparator b a <= 0
                               else comparator a b <= 0) ys.
Proof.
  intros Hw HL Hc.
  destruct (SortLinkedList_ok h W L xs ascending comparator) as (h' & ys & ? & ? & _ & _ & ? & ?);
    eauto 10.
Qed.

End Spec.
