(* ===== verification/LinkedListIter.v ===== *)
(** The linked list, part 3: iterators and their operations.  An iterator
    stands on a node of a list, with the nodes behind and ahead of it; each
    operation is a step on such positions. *)
From stdpp Require Import sorting.
From S2P Require Import Prelude LinkedList LinkedListSpec.
Open Scope Z_scope.

Section Iter.
Context {V U : Type} `{Inhabited V}.
Implicit Types (h : heap V U) (xs ys pre post : list (positive * V)).

Abbreviation chain := (list (positive * V)).
Abbreviation store := (gmap positive chain).

(** Iterator [i] stands on the node of [(l, v)] in list [L], with [pre] behind
    it and [post] ahead. *)
Definition at_node h (W : store) (i L l : positive) (v : V) (pre post : chain) : Prop :=
  iters h !! i = Some (mkIter (Some L) (Some l)) /\ W !! L = Some (pre ++ (l, v) :: post).

Lemma at_node_load h W i L l v pre post :
  world h W -> at_node h W i L l v pre post ->
  nodes h !! l = Some (mkNode v (hd_ptr post None) (last_ptr None pre)).
Proof.
  intros Hw [_ HL]. pose proof (w_seg _ _ Hw _ _ HL) as Hs.
  apply seg_app in Hs as [_ [Hl _]]. exact Hl.
Qed.

Lemma is_null_Some l : is_null (Some l) = false.
Proof. done. Qed.
Lemma is_null_None : is_null None = true.
Proof. done. Qed.

(** Worlds only ask of the rest of the heap that addresses stay below [brk]. *)
Lemma world_rest h W its b o t (c : U) :
  world h W -> (brk h <= b)%positive -> (forall k, is_Some (its !! k) -> (k < b)%positive) ->
  world (mkHeap (nodes h) (lists h) its b o t c) W.
Proof.
  intros [] Hb Hi. split; cbn; try done.
  - intros k ?. assert (k < brk h)%positive by eauto. lia.
  - intros k ?. assert (k < brk h)%positive by eauto. lia.
Qed.

(** standing on a node, [LLIteratorGetPayload] reads its payload;
    [LLIteratorHasNext]/[LLIteratorHasPrev] say whether there is a node ahead
    or behind, and [LLIteratorNext]/[LLIteratorPrev] move onto it and return
    [true], or stay put and return [false]; none of them changes a list. *)
Theorem iterator_moves h W i L l v pre post :
  world h W -> at_node h W i L l v pre post ->
  LLIteratorGetPayload (Some i) h = Ok (v, h) /\
  LLIteratorHasNext (Some i) h = Ok (negb (bool_decide (post = [])), h) /\
  LLIteratorHasPrev (Some i) h = Ok (negb (bool_decide (pre = [])), h) /\
  (post = [] -> LLIteratorNext (Some i) h = Ok (false, h)) /\
  (pre = [] -> LLIteratorPrev (Some i) h = Ok (false, h)) /\
  (forall l' v' post', post = (l', v') :: post' ->
     exists h', LLIteratorNext (Some i) h = Ok (true, h') /\ world h' W /\
       at_node h' W i L l' v' (pre ++ [(l, v)]) post') /\
  (forall pre' l' v', pre = pre' ++ [(l', v')] ->
     exists h', LLIteratorPrev (Some i) h = Ok (true, h') /\ world h' W /\
       at_node h' W i L l' v' pre' ((l, v) :: post)).
Proof.
  intros Hw Hat. pose proof (at_node_load _ _ _ _ _ _ _ _ Hw Hat) as Hl.
  destruct Hat as [Hi HL].
  assert (Hmove : forall q, world (mkHeap (nodes h) (lists h) (<[i := mkIter (Some L) q]> (iters h))
                      (brk h) (oom h) (ticks h) (client h)) W).
  { intros q. apply world_rest; [done|lia|].
    intros j [->|[_ Hj]]%lookup_insert_is_Some; eapply w_fresh_iter; eauto. }
  split_and!.
  - exec. done.
  - exec. by destruct post as [|[]].
  - exec. destruct pre as [|[lp vp] pre' _] using rev_ind; [done|].
    rewrite last_ptr_app. cbn [last_ptr]. rewrite is_null_Some. by destruct pre'.
  - intros ->. exec. done.
  - intros ->. exec. done.
  - intros l' v' post' ->. eexists. split; [exec; reflexivity|]. split; [apply Hmove|].
    split; [by cbn; rewrite lookup_insert_eq|]. by rewrite <- app_assoc.
  - intros pre' l' v' ->. rewrite last_ptr_app in Hl. cbn in Hl.
    eexists. split; [exec; reflexivity|]. split; [apply Hmove|].
    split; [by cbn; rewrite lookup_insert_eq|]. by rewrite <- app_assoc in HL.
Qed.

(** [LLMakeIterator] on a non-empty list stands on the first or the last
    node; on an empty list it returns [NULL]. *)
Theorem LLMakeIterator_ends h W L xs pos :
  world h W -> W !! L = Some xs -> pos = 0 \/ pos = 1 -> oom h (ticks h) = false ->
  exists i h', LLMakeIterator (Some L) pos h = Ok (i, h') /\ world h' W /\
    match xs with
    | [] => i = None
    | _ => exists j, i = Some j /\
        ((pos = 0 /\ exists l v post, at_node h' W j L l v [] post) \/
         (pos = 1 /\ exists l v pre, at_node h' W j L l v pre []))
    end.
Proof.
  intros Hw HL Hpos Hoom. pose proof (world_list _ _ _ _ Hw HL) as Hhd.
  destruct xs as [|[l v] xs].
  { exists None, h. split; [|done]. exec. destruct Hpos as [-> | ->]; exec; done. }
  assert (Hw' : forall q, world (mkHeap (nodes h) (lists h)
              (<[brk h := mkIter (Some L) q]> (iters h)) (Pos.succ (brk h)) (oom h)
              (S (ticks h)) (client h)) W).
  { intros q. apply world_rest; [done|lia|]. intros k [->|[_ Hk]]%lookup_insert_is_Some; [lia|].
    pose proof (w_fresh_iter _ _ Hw k Hk). lia. }
  destruct Hpos as [-> | ->]; exists (Some (brk h)); eexists;
    (split; [exec; rewrite Hoom; exec; reflexivity|split; [apply Hw'|]]);
    (exists (brk h); split; [done|]); [left|right]; (split; [done|]).
  - exists l, v, xs. split; [|done]. cbn. by rewrite lookup_insert_eq.
  - destruct (exists_last (l := (l, v) :: xs)) as (pre & [l' v'] & E); [done|].
    exists l', v', pre. split; [|by rewrite <- E]. cbn. rewrite lookup_insert_eq.
    change (last_ptr (Some l) xs) with (last_ptr None ((l, v) :: xs)). by rewrite E, last_ptr_app.
Qed.

Lemma verify_iter_ok h i L l :
  iters h !! i = Some (mkIter (Some L) (Some l)) ->
  verify_iter (Some i) h = Ok (mkIter (Some L) (Some l), h).
Proof. intros Hi. exec. done. Qed.

Lemma load_node_ok h l n : nodes h !! l = Some n -> load_node (Some l) h = Ok (n, h).
Proof. intros Hl. exec. done. Qed.

Lemma load_list_ok h L r : lists h !! L = Some r -> load_list (Some L) h = Ok (r, h).
Proof. intros Hl. exec. done. Qed.

Definition with_iter_node (i L : positive) (q : ptr) h : heap V U :=
  mkHeap (nodes h) (lists h) (<[i := mkIter (Some L) q]> (iters h)) (brk h) (oom h)
    (ticks h) (client h).

Lemma set_iter_node_ok h i L p q :
  iters h !! i = Some (mkIter (Some L) p) ->
  set_iter_node (Some i) q h = Ok (tt, with_iter_node i L q h).
Proof. intros Hi. exec. done. Qed.

Lemma world_iter_node h W i L p q :
  world h W -> iters h !! i = Some p -> world (with_iter_node i L q h) W.
Proof.
  intros Hw Hi. apply world_rest; [done|lia|].
  intros j [->|[_ Hj]]%lookup_insert_is_Some; eapply w_fresh_iter; eauto.
Qed.

(** Where the iterator ends up: on the successor, else on the predecessor. *)
Definition after_delete (pre post : chain) : ptr := hd_ptr post (last_ptr None pre).

Lemma LLIteratorDelete_middle h W i L l v l0 v0 pre l1 v1 post :
  world h W -> at_node h W i L l v (pre ++ [(l0, v0)]) ((l1, v1) :: post) ->
  exists h', (forall f, LLIteratorDelete (Some i) f h = bind (f v) (fun _ => ret true) h') /\
    world h' (<[L := (pre ++ [(l0, v0)]) ++ (l1, v1) :: post]> W) /\
    iters h' = <[i := mkIter (Some L) (Some l1)]> (iters h) /\ client h' = client h.
Proof.
  intros Hw Hat. pose proof (at_node_load _ _ _ _ _ _ _ _ Hw Hat) as Hl. destruct Hat as [Hi HL].
  pose proof (world_list _ _ _ _ Hw HL) as Hhd. pose proof (w_len _ _ Hw _ _ HL) as Hlen.
  pose proof (w_nodup _ _ Hw _ _ HL) as Hnd. pose proof (w_seg _ _ Hw _ _ HL) as Hs.
  rewrite <- app_assoc in *. cbn [app] in *.
  apply seg_app in Hs as [Hs1 [H0 [_ [H1 Hs2]]]]. cbn in H0, H1, Hs1, Hs2.
  rewrite last_ptr_app in Hl. cbn in Hl.
  rewrite fmap_app in Hnd. cbn in Hnd. apply NoDup_app in Hnd as (Hnd1 & Hdis & Hnd2).
  assert (Hn : l0 ∉ pre.*1 /\ l ∉ pre.*1 /\ l1 ∉ pre.*1) by (split_and!; intros ?; eapply Hdis; set_solver).
  destruct Hn as (Hp0 & Hp & Hp1).
  apply NoDup_cons in Hnd2 as [Hn0 Hnd2]. apply NoDup_cons in Hnd2 as [Hn Hnd2].
  apply NoDup_cons in Hnd2 as [Hn1 Hnd2].
  apply not_elem_of_cons in Hn0 as [Hne0 Hn0]. apply not_elem_of_cons in Hn0 as [Hne1 Hn0].
  apply not_elem_of_cons in Hn as [Hne Hn].
  rewrite length_app in Hlen. cbn [length] in Hlen.
  eexists. split; [intros f; unfold LLIteratorDelete; rewrite (bind_ok _ _ _ _ _ (verify_iter_ok h i L l Hi));
    cbn [it_node it_list]; rewrite (bind_ok _ _ _ _ _ (load_node_ok h l _ Hl)); cbn [prev next];
    rewrite !is_null_Some; cbn [andb]; unfold bind at 1; exec; unfold bind; reflexivity|].
  cbn. split; [|done].
  match goal with |- world (mkHeap ?N ?L1 _ ?b ?o ?t ?c) _ =>
    enough (world (mkHeap N L1 (iters h) b o t c) (<[L := pre ++ (l0, v0) :: (l1, v1) :: post]> W)) as Hw' end.
  { exact (world_iter_node _ _ i L _ (Some l1) Hw' Hi). }
  eapply world_update; try done; cbn; frame.
  - unfold head_of. rewrite !length_app, !hd_ptr_app, !last_ptr_app. cbn.
    do 2 f_equal. rewrite wrapu_small; lia.
  - apply seg_app. cbn. rewrite lookup_delete_ne, lookup_insert_ne, lookup_insert_eq by done.
    rewrite lookup_delete_ne, lookup_insert_eq by done. split_and!; try done.
    all: apply seg_frame_delete, seg_frame_insert, seg_frame_insert; done.
  - rewrite fmap_app. cbn. apply NoDup_app. split; [done|split].
    + intros x Hx. specialize (Hdis x Hx). set_solver.
    + apply NoDup_cons. split; [|by apply NoDup_cons]. by apply not_elem_of_cons.
  - rewrite length_app. cbn [length]. lia.
Qed.

Lemma LLIteratorDelete_ok h W i L l v pre post :
  world h W -> at_node h W i L l v pre post ->
  exists h', (forall f, LLIteratorDelete (Some i) f h
               = bind (f v) (fun _ => ret (negb (bool_decide (pre ++ post = [])))) h') /\
    world h' (<[L := pre ++ post]> W) /\
    iters h' = <[i := mkIter (Some L) (after_delete pre post)]> (iters h) /\
    client h' = client h.
Proof.
  intros Hw Hat. pose proof (at_node_load _ _ _ _ _ _ _ _ Hw Hat) as Hl.
  destruct post as [|[l1 v1] post]; destruct pre as [|[l0 v0] pre _] using rev_ind.
  4:{ destruct (LLIteratorDelete_middle _ _ _ _ _ _ _ _ _ _ _ _ Hw Hat) as (h' & HR & Hw' & Hi' & Hc).
      exists h'. split_and!; try done. intros f. rewrite HR. by destruct pre. }
  all: destruct Hat as [Hi HL].
  - destruct (PopLinkedList_ok h W L l v [] Hw HL) as (h1 & HR & Hw1 & Hi1 & Hc1).
    exists (with_iter_node i L None h1). rewrite <- Hi1 in *.
    split; [|split; [by eapply world_iter_node|done]].
    intros f. unfold LLIteratorDelete. step (verify_iter_ok h i L l ltac:(congruence)).
    step (load_node_ok h l _ Hl). cbn [prev next hd_ptr last_ptr it_list]. cbn [is_null andb].
    rewrite !bool_decide_true by done. cbn [andb]. step HR.
    by step (set_iter_node_ok h1 i L _ None Hi).
  - rewrite last_ptr_app in Hl. cbn in Hl.
    destruct (SliceLinkedList_ok h W L l v _ Hw HL) as (h1 & HR & Hw1 & Hi1 & Hc1).
    rewrite app_nil_r. exists (with_iter_node i L (Some l0) h1).
    split; [|split; [|split; [|done]]].
    + intros f. unfold LLIteratorDelete. step (verify_iter_ok h i L l Hi).
      step (load_node_ok h l _ Hl). cbn [prev next it_list it_node hd_ptr last_ptr].
      rewrite !is_null_Some; try rewrite bool_decide_true by done; cbn [andb].
      unfold bind at 1. step HR. cbn [popped get_or]. rewrite bind_ret.
      assert (HL1 : lists h1 !! L = Some (head_of (pre ++ [(l0, v0)])))
        by (apply (world_list _ _ _ _ Hw1); by rewrite lookup_insert_eq).
      rewrite head_of_snoc in HL1. step (load_list_ok _ _ _ HL1). cbn [tail].
      rewrite <- Hi1 in Hi. step (set_iter_node_ok h1 i L _ (Some l0) Hi).
      unfold ret at 1. cbn. unfold bind. by destruct pre.
    + eapply world_iter_node; [done|]. by rewrite Hi1.
    + unfold after_delete. rewrite last_ptr_app. cbn. by rewrite Hi1.
  - cbn in Hl. destruct (PopLinkedList_ok h W L l v _ Hw HL) as (h1 & HR & Hw1 & Hi1 & Hc1).
    exists (with_iter_node i L (Some l1) h1). split; [|split; [|split; [|done]]].
    + intros f. unfold LLIteratorDelete. step (verify_iter_ok h i L l Hi).
      step (load_node_ok h l _ Hl). cbn [prev next it_list it_node hd_ptr last_ptr].
      rewrite !is_null_Some; try rewrite bool_decide_true by done; cbn [andb].
      unfold bind at 1. step HR. cbn [popped get_or]. rewrite bind_ret.
      assert (HL1 : lists h1 !! L = Some (head_of ((l1, v1) :: post)))
        by (apply (world_list _ _ _ _ Hw1); by rewrite lookup_insert_eq).
      step (load_list_ok _ _ _ HL1). cbn [head head_of hd_ptr].
      rewrite <- Hi1 in Hi. step (set_iter_node_ok h1 i L _ (Some l1) Hi).
      done.
    + eapply world_iter_node; [done|]. by rewrite Hi1.
    + cbn. by rewrite Hi1.
Qed.


(** [LLIteratorDelete] hands the payload under the iterator to the
    caller's function after unlinking and freeing the node, leaves the
    iterator on the successor, or on the predecessor when the node was last,
    or nowhere when it was alone, and returns [false] exactly when the list
    is now empty. *)
Theorem LLIteratorDelete_removes h W i L l v pre post :
  world h W -> at_node h W i L l v pre post ->
  exists h', (forall f, LLIteratorDelete (Some i) f h
               = bind (f v) (fun _ => ret (negb (bool_decide (pre ++ post = [])))) h') /\
    world h' (<[L := pre ++ post]> W) /\
    iters h' !! i = Some (mkIter (Some L) (after_delete pre post)) /\
    (forall j, j <> i -> iters h' !! j = iters h !! j) /\
    client h' = client h.
Proof.
  intros Hw Hat.
  destruct (LLIteratorDelete_ok h W i L l v pre post) as (h' & HR & Hw' & Hi & Hc); try done.
  exists h'. rewrite Hi. split_and!; try done.
  - by rewrite lookup_insert_eq.
  - intros j Hj. by rewrite lookup_insert_ne by congruence.
Qed.

Lemma seg_last N (pre : chain) l0 v0 l v post :
  seg N None ((pre ++ [(l0, v0)]) ++ (l, v) :: post) None ->
  seg N None pre (Some l0) /\ N !! l0 = Some (mkNode v0 (Some l) (last_ptr None pre)) /\
  N !! l = Some (mkNode v (hd_ptr post None) (Some l0)) /\ seg N (Some l) post None.
Proof.
  rewrite <- app_assoc. intros Hs. apply seg_app in Hs as [Hs [H0 [Hl Hp]]]. by cbn in *.
Qed.

Lemma nodup_around (pre : chain) l0 v0 l v post :
  NoDup ((pre ++ [(l0, v0)]) ++ (l, v) :: post).*1 ->
  l0 ∉ pre.*1 /\ l ∉ pre.*1 /\ l0 <> l /\ l0 ∉ post.*1 /\ l ∉ post.*1 /\
  NoDup pre.*1 /\ NoDup post.*1 /\ (forall x, x ∈ pre.*1 -> x ∉ post.*1).
Proof.
  rewrite <- app_assoc, fmap_app. cbn. intros Hnd.
  apply NoDup_app in Hnd as (Hnd1 & Hdis & Hnd2).
  apply NoDup_cons in Hnd2 as [Hn0 Hnd2]. apply NoDup_cons in Hnd2 as [Hn Hnd2].
  apply not_elem_of_cons in Hn0 as [Hne0 Hn0].
  split_and!; try done.
  - intros Hx. apply (Hdis _ Hx). set_solver.
  - intros Hx. apply (Hdis _ Hx). set_solver.
  - intros x Hx. specialize (Hdis x Hx). set_solver.
Qed.

Lemma LLIteratorInsertBefore_middle h W i L l v l0 v0 pre post w :
  world h W -> at_node h W i L l v (pre ++ [(l0, v0)]) post -> oom h (ticks h) = false ->
  Z.of_nat (length (pre ++ [(l0, v0)]) + length post) + 2 < 2 ^ 32 ->
  exists h', LLIteratorInsertBefore (Some i) w h = Ok (true, h') /\
    world h' (<[L := (pre ++ [(l0, v0)]) ++ (brk h, w) :: (l, v) :: post]> W) /\
    iters h' = iters h /\ client h' = client h.
Proof.
  intros Hw [Hi HL] Hoom Hlen.
  pose proof (world_list _ _ _ _ Hw HL) as Hhd.
  pose proof (w_nodup _ _ Hw _ _ HL) as Hnd. pose proof (w_seg _ _ Hw _ _ HL) as Hs.
  pose proof (world_fresh _ _ Hw) as Hfr. pose proof (world_fresh_notin _ _ _ _ Hw HL) as Hnb.
  apply seg_last in Hs as (Hs1 & H0 & Hl & Hs2).
  apply nodup_around in Hnd as (Hp0 & Hp & Hne & Hq0 & Hq & Hnp & Hnq & Hdis).
  rewrite <- app_assoc, fmap_app in Hnb. cbn in Hnb.
  apply not_elem_of_app in Hnb as [Hb Hnb]. apply not_elem_of_cons in Hnb as [Hb0 Hnb].
  apply not_elem_of_cons in Hnb as [Hbl Hbq].
  assert (Hhead : bool_decide (Some l = head (head_of ((pre ++ [(l0, v0)]) ++ (l, v) :: post))) = false).
  { apply bool_decide_false. cbn. rewrite <- app_assoc, hd_ptr_app.
    destruct pre as [|[a b] pre]; cbn; [congruence|]. intros [= ->]. apply Hp. by left. }
  unfold head_of in Hhead; cbn in Hhead.
  eexists. split; [exec; rewrite Hhead; exec; rewrite Hoom; exec; reflexivity|].
  split; [|done]. rewrite length_app in Hlen. cbn in Hlen.
  eapply world_update; try done; cbn; frame.
  - unfold head_of. rewrite !length_app, !hd_ptr_app, !last_ptr_app. cbn.
    do 2 f_equal. rewrite wrapu_small; lia.
  - lia.
  - rewrite <- app_assoc. apply seg_app. cbn. rewrite ?lookup_insert_eq.
    split; [by do 4 (try apply seg_frame_insert)|].
    simplify_map_eq. split_and!; try done; by do 4 (try apply seg_frame_insert).
  - rewrite <- app_assoc, fmap_app. cbn. apply NoDup_app. split_and!; [done| |].
    + intros x Hx. specialize (Hdis x Hx). set_solver.
    + repeat (apply NoDup_cons; split); set_solver.
  - rewrite !length_app. cbn [length]. lia.
Qed.

(** [LLIteratorInsertBefore] returns [true] with a fresh node holding the
    payload linked in directly before the iterator, which stays on its node;
    at the head of the list this is [PushLinkedList]. *)
Theorem LLIteratorInsertBefore_inserts h W i L l v pre post w :
  world h W -> at_node h W i L l v pre post -> oom h (ticks h) = false ->
  Z.of_nat (length pre + length post) + 2 < 2 ^ 32 ->
  exists h', LLIteratorInsertBefore (Some i) w h = Ok (true, h') /\
    world h' (<[L := pre ++ (brk h, w) :: (l, v) :: post]> W) /\
    at_node h' (<[L := pre ++ (brk h, w) :: (l, v) :: post]> W) i L l v
      (pre ++ [(brk h, w)]) post.
Proof.
  intros Hw Hat Hoom Hlen. pose proof Hat as [Hi HL].
  enough (exists h', LLIteratorInsertBefore (Some i) w h = Ok (true, h') /\
    world h' (<[L := pre ++ (brk h, w) :: (l, v) :: post]> W) /\ iters h' = iters h /\
    client h' = client h) as (h' & HR & Hw' & Hit & _).
  { exists h'. split_and!; try done. split; [by rewrite Hit|].
    by rewrite lookup_insert_eq, <- app_assoc. }
  destruct pre as [|[l0 v0] pre _] using rev_ind.
  - pose proof (world_list _ _ _ _ Hw HL) as Hhd.
    destruct (PushLinkedList_ok h W L _ w Hw HL) as (h' & HR & Hw' & Hrest);
      [cbn [length app] in *; lia|done|].
    exists h'. split; [|done]. unfold LLIteratorInsertBefore.
    step (verify_iter_ok h i L l Hi). step (load_list_ok h L _ Hhd).
    by rewrite bool_decide_true by done.
  - eapply LLIteratorInsertBefore_middle; eauto.
Qed.

(** *** Allocation, release and allocation failure *)

Definition with_client (h : heap V U) (N : gmap positive (LinkedListNode V))
    (Ls : gmap positive LinkedListHead) (u : U) : heap V U :=
  mkHeap N Ls (iters h) (brk h) (oom h) (ticks h) u.

(** [f] only acts on the client's memory, as [g] says. *)
Definition client_only (f : V -> M (heap V U) unit) (g : V -> U -> U) : Prop :=
  forall v h, f v h = Ok (tt, with_client h (nodes h) (lists h) (g v (client h))).

Lemma free_loop_ok f g L : client_only f g ->
  forall xs fuel h n t,
  lists h !! L = Some (mkHead n (hd_ptr xs None) t) ->
  seg (nodes h) None xs None -> NoDup xs.*1 -> (length xs < fuel)%nat ->
  exists N t', free_loop fuel (Some L) f h
      = Ok (tt, with_client h N (<[L := mkHead n None t']> (lists h))
                  (foldl (fun u v => g v u) (client h) xs.*2)) /\
    forall k, N !! k = if decide (k ∈ xs.*1) then None else nodes h !! k.
Proof.
  intros Hf. induction xs as [|[l v] xs IH]; intros fuel h n t HL Hs Hnd Hfuel;
    (destruct fuel as [|fuel]; [cbn in Hfuel; lia|]).
  - exists (nodes h), t. split; [|done]. cbn [free_loop]. cbn in HL.
    step (load_list_ok _ _ _ HL). cbn. rewrite insert_id by done. by destruct h.
  - cbn in Hs. destruct Hs as [Hl Hs]. cbn in Hnd. apply NoDup_cons in Hnd as [Hni Hnd].
    cbn [length] in Hfuel. cbn [hd_ptr] in HL.
    set (t1 := match xs with [] => None | _ => t end).
    set (N1 := delete l (match xs with
                 | [] => nodes h
                 | (l1, v1) :: xs' => <[l1 := mkNode v1 (hd_ptr xs' None) None]> (nodes h)
                 end)).
    set (h1 := with_client h N1 (<[L := mkHead n (hd_ptr xs None) t1]> (lists h)) (g v (client h))).
    assert (Hstep : free_loop (S fuel) (Some L) f h = free_loop fuel (Some L) f h1).
    { subst h1 N1 t1. cbn [free_loop]. step (load_list_ok _ _ _ HL). cbn [head]. rewrite is_null_Some.
      step (load_node_ok _ _ _ Hl). cbn [payload]. step (Hf v h).
      unfold with_client. destruct xs as [|[l1 v1] xs].
      - cbn in Hl |- *. unfold bind at 1. exec. by rewrite ?bool_decide_true by done.
      - cbn in Hs. destruct Hs as [H1 _]. cbn in Hni. apply not_elem_of_cons in Hni as [Hne _].
        cbn in Hl |- *. unfold bind at 1. exec. done. }
    rewrite Hstep. destruct (IH fuel h1 n t1) as (N & t' & HR & HN); [| |done|lia|].
    + subst h1. cbn. by rewrite lookup_insert_eq.
    + subst h1 N1. cbn. apply seg_frame_delete; [done|].
      destruct xs as [|[l1 v1] xs]; cbn in *; [done|]. destruct Hs as [_ Hs].
      rewrite lookup_insert_eq. split; [done|]. apply NoDup_cons in Hnd as [Hn1 _].
      by apply seg_frame_insert.
    + exists N, t'. split.
      * rewrite HR. subst h1. unfold with_client. cbn. by rewrite insert_insert_eq.
      * intros k. rewrite HN. subst h1 N1. cbn. cbn in Hni.
        destruct (decide (k = l)) as [->|Hk].
        { rewrite lookup_delete_eq. rewrite !(decide_True (P := l ∈ l :: _)) by (by left).
          by destruct (decide _). }
        rewrite lookup_delete_ne by done.
        destruct (decide (k ∈ xs.*1)) as [Hin|Hin].
        { by rewrite decide_True by (by right). }
        rewrite decide_False by (by rewrite elem_of_cons; intros [|]).
        destruct xs as [|[l1 v1] xs]; [done|]. cbn in Hin. apply not_elem_of_cons in Hin as [? _].
        by rewrite lookup_insert_ne.
Qed.

(** Removing one list of a world with its nodes and record. *)
Lemma world_delete h W L xs N Ls u :
  world h W -> W !! L = Some xs -> Ls = delete L (lists h) ->
  (forall k, N !! k = if decide (k ∈ xs.*1) then None else nodes h !! k) ->
  world (with_client h N Ls u) (delete L W).
Proof.
  intros Hw HL -> HN.
  assert (Hsub : forall k, is_Some (N !! k) -> k ∉ xs.*1 /\ is_Some (nodes h !! k)).
  { intros k. rewrite HN. destruct (decide _); [by intros []|done]. }
  split; cbn.
  - intros L'. destruct (decide (L = L')) as [->|]; [by rewrite !lookup_delete_eq|].
    rewrite !lookup_delete_ne by done. by apply w_lists.
  - intros L' ys [Hne HL']%lookup_delete_Some. eapply seg_frame; [|by eapply w_seg].
    intros l Hin. rewrite HN, decide_False; [done|]. intros ?. by eapply Hne, (w_disj h W Hw).
  - intros L' ys [Hne HL']%lookup_delete_Some. by eapply w_nodup.
  - intros L' ys [Hne HL']%lookup_delete_Some. by eapply w_len.
  - intros L1 L2 ys1 ys2 l [_ H1]%lookup_delete_Some [_ H2]%lookup_delete_Some.
    by eapply w_disj.
  - intros l [Hx Hl]%Hsub. destruct (w_noleak h W Hw l Hl) as (L' & ys & HL' & Hin).
    exists L', ys. split; [|done]. apply lookup_delete_Some. split; [|done]. intros ->. congruence.
  - intros l [_ Hl]%Hsub. by eapply w_fresh_node.
  - intros L' [ys [_ HL']%lookup_delete_Some]. eapply w_fresh_list; [done|by eexists].
  - intros i. by eapply w_fresh_iter.
Qed.

Lemma AllocateLinkedList_ok h W :
  world h W -> oom h (ticks h) = false ->
  exists h', AllocateLinkedList h = Ok (Some (brk h), h') /\
    W !! brk h = None /\ world h' (<[brk h := []]> W).
Proof.
  intros Hw Hoom. assert (HW : W !! brk h = None).
  { destruct (W !! brk h) eqn:E; [|done].
    pose proof (w_fresh_list h W Hw (brk h) ltac:(by eexists)). lia. }
  eexists. split; [unfold AllocateLinkedList; exec; rewrite Hoom; exec; reflexivity|].
  split; [done|].
  destruct Hw as [w1 w2 w3 w4 w5 w6 w7 w8 w9].
  assert (Hne : forall L xs, <[brk h := []]> W !! L = Some xs ->
    xs = [] \/ W !! L = Some xs) by (intros L xs [[<- <-]|[_ ?]]%lookup_insert_Some; auto).
  split; cbn.
  - intros L'. destruct (decide (brk h = L')) as [<-|]; [by rewrite !lookup_insert_eq|].
    by rewrite !lookup_insert_ne.
  - intros L xs [->|?]%Hne; [done|eauto].
  - intros L xs [->|?]%Hne; [constructor|eauto].
  - intros L xs [->|?]%Hne; [done|eauto].
  - intros L1 L2 xs1 xs2 l [->|?]%Hne [->|?]%Hne; cbn; rewrite ?elem_of_nil; eauto; done.
  - intros l Hl. destruct (w6 l Hl) as (L & xs & HL & Hin). exists L, xs. split; [|done].
    rewrite lookup_insert_ne; [done|]. congruence.
  - intros l ?. assert (l < brk h)%positive by eauto. lia.
  - intros L [xs [[<- _]|[_ ?]]%lookup_insert_Some]; [lia|].
    assert (L < brk h)%positive by (apply w8; by eexists). lia.
  - intros i ?. assert (i < brk h)%positive by eauto. lia.
Qed.

(** [AllocateLinkedList] makes a fresh empty list; [FreeLinkedList]
    calls the payload function on every payload, front to back, exactly once,
    and releases every node and the record of the list, and nothing else. *)
Theorem list_lifetime h W :
  world h W ->
  (oom h (ticks h) = false -> exists h', AllocateLinkedList h = Ok (Some (brk h), h') /\
     W !! brk h = None /\ world h' (<[brk h := []]> W)) /\
  (forall L xs f g, W !! L = Some xs -> client_only f g ->
     exists h', FreeLinkedList (Some L) f h = Ok (tt, h') /\ world h' (delete L W) /\
       client h' = foldl (fun u v => g v u) (client h) xs.*2).
Proof.
  intros Hw. split.
  - apply AllocateLinkedList_ok, Hw.
  - intros L xs f g HL Hf. pose proof (world_list _ _ _ _ Hw HL) as Hhd.
    destruct (free_loop_ok f g L Hf xs (S (Z.to_nat (Z.of_nat (length xs)))) h
      (Z.of_nat (length xs)) (last_ptr None xs)) as (N & t' & HR & HN);
      [done|by eapply w_seg|by eapply w_nodup|lia|].
    eexists. split; [|split].
    + unfold FreeLinkedList. rewrite (bind_ok _ _ _ tt h) by done.
      step (load_list_ok _ _ _ Hhd). cbn [num_elements head_of]. step HR.
      unfold with_client. exec. reflexivity.
    + eapply world_delete; [done|done| |exact HN]. by rewrite !delete_insert_eq.
    + done.
Qed.

(** The heap after a [malloc] that failed. *)
Definition tick (h : heap V U) : heap V U :=
  mkHeap (nodes h) (lists h) (iters h) (brk h) (oom h) (S (ticks h)) (client h).

(** C34: when [malloc] fails, the operations that allocate return [false] or
    [NULL] and change nothing. *)
Theorem out_of_memory h W L xs v i l w pre post :
  world h W -> W !! L = Some xs -> oom h (ticks h) = true ->
  world (tick h) W /\
  AllocateLinkedList h = Ok (None, tick h) /\
  PushLinkedList (Some L) v h = Ok (false, tick h) /\
  AppendLinkedList (Some L) v h = Ok (false, tick h) /\
  (xs <> [] -> LLMakeIterator (Some L) 0 h = Ok (None, tick h)) /\
  (at_node h W i L l w pre post -> LLIteratorInsertBefore (Some i) v h = Ok (false, tick h)).
Proof.
  intros Hw HL Hoom. pose proof (world_list _ _ _ _ Hw HL) as Hhd.
  split; [apply world_rest; [done|lia|]; by eapply w_fresh_iter|].
  split; [unfold AllocateLinkedList; exec; by rewrite Hoom|].
  assert (HP : PushLinkedList (Some L) v h = Ok (false, tick h)) by (exec; by rewrite Hoom).
  split; [done|split; [exec; by rewrite Hoom|split]].
  - intros Hne. destruct xs; [done|]. exec. by rewrite Hoom.
  - intros [Hi _]. unfold LLIteratorInsertBefore. step (verify_iter_ok h i L l Hi).
    step (load_list_ok h L _ Hhd). destruct (bool_decide _); [done|]. exec. by rewrite Hoom.
Qed.

End Iter.

(** * The linked list, part 4: concrete heaps, built by running the operations,
    on which the list theorems apply. *)
Open Scope Z_scope.

Definition init_heap (o : nat -> bool) : heap Z (list Z) := mkHeap ∅ ∅ ∅ 1 o 0 [].
Definition build : M (heap Z (list Z)) unit :=
  let* L := AllocateLinkedList in
  do* AppendLinkedList L 5; do* AppendLinkedList L 1; do* AppendLinkedList L 7; ret tt.
Definition built (o : nat -> bool) : heap Z (list Z) :=
  match build (init_heap o) with Ok (_, h) => h | Err _ => init_heap o end.
Definition built_list : list (positive * Z) := [(2%positive, 5); (3%positive, 1); (4%positive, 7)].
Definition built_world : gmap positive (list (positive * Z)) := {[ 1%positive := built_list ]}.

(** [malloc] never fails, or fails from its fifth call on. *)
Definition plenty (_ : nat) : bool := false.
Definition scarce (n : nat) : bool := (4 <=? n)%nat.

Lemma built_ok o : o = plenty \/ o = scarce -> world (built o) built_world.
Proof.
  intros Ho. assert (Hof : o 0%nat = false /\ o 1%nat = false /\ o 2%nat = false /\ o 3%nat = false)
    by (destruct Ho as [-> | ->]; done). destruct Hof as (H0 & H1 & H2 & H3).
  destruct (AllocateLinkedList_ok (init_heap o) ∅) as (h1 & R1 & _ & W1); [apply world_empty|done|].
  cbn [brk init_heap] in *.
  assert (E1 : oom h1 (ticks h1) = false /\ brk h1 = 2%positive).
  { revert R1. unfold AllocateLinkedList, malloc, bind. cbn. rewrite H0. by intros [= <-]. }
  destruct E1 as [O1 B1].
  destruct (AppendLinkedList_ok h1 _ 1%positive [] 5 W1) as (h2 & R2 & W2 & _); [done|done|done|].
  rewrite B1, insert_insert_eq in W2.
  assert (E2 : h2 = match (let* L := AllocateLinkedList in AppendLinkedList L 5) (init_heap o)
                    with Ok (_, h) => h | Err _ => h2 end) by (unfold bind at 1; by rewrite R1, R2).
  assert (E2' : oom h2 (ticks h2) = false /\ brk h2 = 3%positive).
  { rewrite E2. clear -Ho. destruct Ho as [-> | ->]; vm_compute; done. }
  destruct E2' as [O2 B2].
  destruct (AppendLinkedList_ok h2 _ 1%positive [(2%positive, 5)] 1 W2) as (h3 & R3 & W3 & _); [done|done|done|].
  rewrite B2, insert_insert_eq in W3.
  assert (E3 : h3 = match (let* L := AllocateLinkedList in do* AppendLinkedList L 5; AppendLinkedList L 1)
                 (init_heap o) with Ok (_, h) => h | Err _ => h3 end)
    by (unfold bind at 1; rewrite R1; unfold bind at 1; by rewrite R2, R3).
  assert (E3' : oom h3 (ticks h3) = false /\ brk h3 = 4%positive).
  { rewrite E3. clear -Ho. destruct Ho as [-> | ->]; vm_compute; done. }
  destruct E3' as [O3 B3].
  destruct (AppendLinkedList_ok h3 _ 1%positive [(2%positive, 5); (3%positive, 1)] 7 W3)
    as (h4 & R4 & W4 & _); [done|done|done|].
  rewrite B3, insert_insert_eq in W4.
  replace (built o) with h4; [exact W4|].
  unfold built, build. unfold bind at 1. rewrite R1. unfold bind at 1. rewrite R2.
  unfold bind at 1. rewrite R3. unfold bind at 1. by rewrite R4.
Qed.

Lemma built_list_lookup : built_world !! 1%positive = Some built_list.
Proof. reflexivity. Qed.

(** The same heap with an iterator, at address 9, on the middle node. *)
Definition on_middle (o : nat -> bool) : heap Z (list Z) :=
  mkHeap (nodes (built o)) (lists (built o)) {[ 9%positive := mkIter (Some 1%positive) (Some 3%positive) ]}
    10 o (ticks (built o)) [].

Lemma on_middle_ok o : o = plenty \/ o = scarce -> world (on_middle o) built_world.
Proof.
  intros Ho. apply (world_rest (built o)); [by apply built_ok|by destruct Ho as [-> | ->]|].
  intros k [x [<- _]%lookup_singleton_Some]. lia.
Qed.

Lemma on_middle_at o : at_node (on_middle o) built_world 9 1 3 1 [(2%positive, 5)] [(4%positive, 7)].
Proof. split; reflexivity. Qed.

(** The comparator [a - b], and a payload function that logs its argument. *)
Definition minus_cmp (a b : Z) : Z := s32 (Z.sgn (a - b)).
Definition log_payload (v : Z) : M (heap Z (list Z)) unit := fun h =>
  Ok (tt, with_client h (nodes h) (lists h) (v :: client h)).

Lemma log_payload_ok : client_only log_payload (fun v u => v :: u).
Proof. by intros v h. Qed.

Lemma list_ends_refine_witness : exists h',
  PushLinkedList (Some 1%positive) 8 (built plenty) = Ok (true, h') /\
  world h' (<[1%positive := (5%positive, 8) :: built_list]> built_world).
Proof.
  assert (Hw := built_ok plenty (or_introl eq_refl)).
  destruct (list_ends_refine (built plenty) built_world 1 built_list Hw eq_refl) as [HP _].
  apply (HP 8); reflexivity.
Defined.

Lemma SortLinkedList_sorts_witness : exists h' ys,
  SortLinkedList (Some 1%positive) 1 minus_cmp (built plenty) = Ok (tt, h') /\
  world h' (<[1%positive := zip built_list.*1 ys]> built_world) /\ ys ≡ₚ [5; 1; 7] /\
  StronglySorted (fun a b => minus_cmp a b <= 0) ys.
Proof.
  assert (Hw := built_ok plenty (or_introl eq_refl)).
  apply (SortLinkedList_sorts (built plenty) built_world 1 built_list 1 minus_cmp Hw eq_refl).
  assert (Hm : forall a b, minus_cmp a b = Z.sgn (a - b)).
  { intros a b. unfold minus_cmp. apply wraps_small; [lia|].
    destruct (Z.sgn_spec (a - b)) as [[? ->]|[[? ->]|[? ->]]]; bound_lia. }
  split; intros *; rewrite ?Hm; try bound_lia.
Defined.

Lemma iterator_moves_witness : exists h',
  LLIteratorNext (Some 9%positive) (on_middle plenty) = Ok (true, h') /\ world h' built_world /\
  at_node h' built_world 9 1 4 7 ([(2%positive, 5)] ++ [(3%positive, 1)]) [].
Proof.
  assert (Hw := on_middle_ok plenty (or_introl eq_refl)).
  destruct (iterator_moves _ _ 9 1 3 1 _ _ Hw (on_middle_at plenty)) as (_ & _ & _ & _ & _ & HN & _).
  apply (HN 4%positive 7 []). reflexivity.
Defined.

Lemma LLMakeIterator_ends_witness : exists i h',
  LLMakeIterator (Some 1%positive) 1 (built plenty) = Ok (Some i, h') /\
  exists l v pre, at_node h' built_world i 1 l v pre [].
Proof.
  assert (Hw := built_ok plenty (or_introl eq_refl)).
  destruct (LLMakeIterator_ends (built plenty) built_world 1 built_list 1 Hw eq_refl
    (or_intror eq_refl) eq_refl) as (i & h' & HR & _ & j & -> & [[? _]|[_ Hat]]); [discriminate|].
  exists j, h'. split; [exact HR|exact Hat].
Defined.

Lemma LLIteratorDelete_removes_witness : exists h',
  LLIteratorDelete (Some 9%positive) log_payload (on_middle plenty)
    = Ok (true, with_client h' (nodes h') (lists h') [1]) /\
  world h' (<[1%positive := [(2%positive, 5); (4%positive, 7)]]> built_world).
Proof.
  assert (Hw := on_middle_ok plenty (or_introl eq_refl)).
  destruct (LLIteratorDelete_removes _ _ 9 1 3 1 _ _ Hw (on_middle_at plenty))
    as (h' & HR & Hw' & _ & _ & Hc).
  exists h'. split; [|exact Hw'].
  rewrite HR. unfold log_payload, bind, ret. rewrite Hc. reflexivity.
Defined.

Lemma LLIteratorInsertBefore_inserts_witness : exists h',
  LLIteratorInsertBefore (Some 9%positive) 8 (on_middle plenty) = Ok (true, h') /\
  world h' (<[1%positive := [(2%positive, 5); (10%positive, 8); (3%positive, 1); (4%positive, 7)]]> built_world).
Proof.
  assert (Hw := on_middle_ok plenty (or_introl eq_refl)).
  destruct (LLIteratorInsertBefore_inserts _ _ 9 1 3 1 _ _ 8 Hw (on_middle_at plenty) eq_refl eq_refl)
    as (h' & HR & Hw' & _).
  exists h'. split; [exact HR|exact Hw'].
Defined.

Lemma list_lifetime_witness : exists h',
  FreeLinkedList (Some 1%positive) log_payload (built plenty) = Ok (tt, h') /\
  world h' (delete 1%positive built_world) /\ client h' = [7; 1; 5].
Proof.
  assert (Hw := built_ok plenty (or_introl eq_refl)).
  destruct (list_lifetime (built plenty) built_world Hw) as [_ HF].
  exact (HF 1%positive built_list log_payload _ eq_refl log_payload_ok).
Defined.

Lemma out_of_memory_witness :
  LLIteratorInsertBefore (Some 9%positive) 8 (on_middle scarce) = Ok (false, tick (on_middle scarce)).
Proof.
  assert (Hw := on_middle_ok scarce (or_intror eq_refl)).
  destruct (out_of_memory (on_middle scarce) built_world 1 built_list 8 9 3 1
    [(2%positive, 5)] [(4%positive, 7)] Hw eq_refl eq_refl) as (_ & _ & _ & _ & _ & HI).
  exact (HI (on_middle_at scarce)).
Defined.
