(* ===== verification/Alloc.v ===== *)
(** The C allocator as the value-level components see it: it hands out
    identities never used before, may fail on any call, as an arbitrary oracle
    says, and counts the blocks that are live. *)
From S2P Require Import Prelude.
Open Scope Z_scope.

Record mem := mkMem {
  next_id : positive;        (** every identity from [next_id] up is unused *)
  fails : nat -> bool;       (** does the [n]-th [malloc] fail? *)
  mallocs : nat;             (** calls of [malloc] so far *)
  live : Z                   (** blocks allocated and not freed *)
}.

Definition alloc : M mem (option positive) := fun m =>
  if fails m (mallocs m)
  then Ok (None, mkMem (next_id m) (fails m) (S (mallocs m)) (live m))
  else Ok (Some (next_id m),
           mkMem (Pos.succ (next_id m)) (fails m) (S (mallocs m)) (live m + 1)).

(** [free], called [n] times. *)
Definition release (n : Z) : M mem unit := fun m =>
  Ok (tt, mkMem (next_id m) (fails m) (mallocs m) (live m - n)).

Definition Verify (b : bool) : M mem unit := ensure VerifyFailed b.

(** [malloc] never fails. *)
Definition plentiful (m : mem) : Prop := forall n, fails m n = false.

(** [m'] is a later state of the same allocator, with [d] more live blocks. *)
Record later (m m' : mem) (d : Z) : Prop := {
  later_fails : fails m' = fails m;
  later_id : (next_id m <= next_id m')%positive;
  later_live : live m' = live m + d
}.

Lemma later_refl m : later m m 0.
Proof. split; [done|lia|lia]. Qed.

#[export] Hint Resolve later_refl : core.

Lemma later_trans m1 m2 m3 d1 d2 d :
  later m1 m2 d1 -> later m2 m3 d2 -> d = d1 + d2 -> later m1 m3 d.
Proof. intros [] [] ->. split; [congruence|lia|lia]. Qed.

Lemma later_plentiful m m' d : later m m' d -> plentiful m -> plentiful m'.
Proof. intros [Hf _ _] Hp n. by rewrite Hf. Qed.

Lemma alloc_ok m : plentiful m ->
  exists m', alloc m = Ok (Some (next_id m), m') /\ later m m' 1 /\
    (next_id m < next_id m')%positive.
Proof.
  intros Hp. eexists. unfold alloc. rewrite Hp. split; [reflexivity|].
  split; [split; cbn; [done|lia|lia]|cbn; lia].
Qed.

Lemma release_ok n m : exists m', release n m = Ok (tt, m') /\ later m m' (- n).
Proof. eexists. split; [reflexivity|]. split; cbn; [done|lia|lia]. Qed.
