(* ===== verification/HashTable.v ===== *)
(** The chained hash table of [uw_cse333/hw/hw1/HashTable.c].

    The bucket chains are the abstract lists of [LinkedListSpec]: sequences of
    (node, payload), which [list_ends_refine] and the iterator theorems show
    the linked list to implement.  A linked-list iterator is the node it stands
    on.  Each operation takes the table record and returns the new one, over
    the allocator of [Alloc]: chains and their nodes, payload records,
    iterators, tables and bucket arrays are one block each. *)
From S2P Require Import Prelude Alloc.
Open Scope Z_scope.

(** ** FNV hashing *)

Definition FNV1_64_INIT : Z := 0xcbf29ce484222325.
Definition FNV_64_PRIME : Z := 0x100000001b3.

Fixpoint FNVHash64_loop (hval : Z) (buffer : list Z) : Z :=
  match buffer with
  | [] => hval
  | b :: rest =>
      let hval := Z.lxor hval b in
      let hval := u64 (hval * FNV_64_PRIME) in
      FNVHash64_loop hval rest
  end.
Definition FNVHash64 (buffer : list Z) : Z := FNVHash64_loop FNV1_64_INIT buffer.

Fixpoint FNVHashInt64_buf (n : nat) (hashme : Z) : list Z :=
  match n with
  | O => []
  | S n' => Z.land hashme 0xFF :: FNVHashInt64_buf n' (Z.shiftr hashme 8)
  end.
Definition FNVHashInt64 (hashval : Z) : Z := FNVHash64 (FNVHashInt64_buf 8 hashval).

Section HashTable.
Context {V : Type} `{EqDecision V}.

Record HTKeyValue := mkKV { key : Z; value : V }.

Definition bucket := list (positive * HTKeyValue).

Record HashTableRecord := mkHT {
  num_buckets : Z;
  num_elements : Z;
  buckets : list bucket
}.

(** [bucket_num] of an iterator over an empty table is never set; it holds 0
    here and is never read. *)
Record HTIterRecord := mkHTIter {
  is_valid : bool;
  bucket_num : Z;
  bucket_it : option positive
}.

(** *** Chains *)

(** The payload of node [n] and the node after it. *)
Fixpoint node_at (c : bucket) (n : positive) : option (HTKeyValue * option positive) :=
  match c with
  | [] => None
  | (n', kv) :: rest =>
      if decide (n = n') then Some (kv, fst <$> head rest) else node_at rest n
  end.
Definition set_node (n : positive) (kv : HTKeyValue) (c : bucket) : bucket :=
  (fun x => if decide (x.1 = n) then (n, kv) else x) <$> c.
Definition drop_node (n : positive) (c : list (positive * HTKeyValue)) : bucket :=
  filter (fun x => x.1 <> n) c.

(** [table->buckets[i]] *)
Definition bucket_at (t : HashTableRecord) (i : Z) : M mem bucket :=
  get_or BadAccess (if i <? 0 then None else buckets t !! Z.to_nat i).
Definition set_bucket (t : HashTableRecord) (i : Z) (c : bucket) (n : Z) : HashTableRecord :=
  mkHT (num_buckets t) n (<[Z.to_nat i := c]> (buckets t)).

(** [LLIteratorGetPayload] and [LLIteratorHasNext] on a bucket iterator. *)
Definition deref_it (c : bucket) (it : option positive) : M mem (HTKeyValue * option positive) :=
  match it with
  | None => fail VerifyFailed
  | Some n => get_or BadAccess (node_at c n)
  end.

(** *** Allocation and release *)

Fixpoint AllocateHashTable_loop (todo : nat) (done : list bucket) : M mem (option (list bucket)) :=
  match todo with
  | O => ret (Some done)
  | S todo' =>
      let* ll := alloc in
      match ll with
      | None => do* release (Z.of_nat (length done)); ret None
      | Some _ => AllocateHashTable_loop todo' (done ++ [[]])
      end
  end.

Definition AllocateHashTable (nb : Z) : M mem (option HashTableRecord) :=
  if nb =? 0 then ret None
  else
    let* ht := alloc in
    match ht with
    | None => ret None
    | Some _ =>
        let* bs := alloc in
        match bs with
        | None => do* release 1; ret None
        | Some _ =>
            let* bs := AllocateHashTable_loop (Z.to_nat nb) [] in
            match bs with
            | None => do* release 1; ret None
            | Some bs => ret (Some (mkHT nb 0 bs))
            end
        end
    end.

Fixpoint free_chain (bl : bucket) (value_free_function : V -> M mem unit) : M mem unit :=
  match bl with
  | [] => ret tt
  | (_, nextKV) :: bl' =>
      do* release 1;
      do* value_free_function (value nextKV);
      do* release 1;
      free_chain bl' value_free_function
  end.

Fixpoint free_buckets (bs : list bucket) (value_free_function : V -> M mem unit) : M mem unit :=
  match bs with
  | [] => ret tt
  | bl :: bs' =>
      do* free_chain bl value_free_function;
      do* release 1;
      free_buckets bs' value_free_function
  end.

Definition FreeHashTable (table : HashTableRecord) (value_free_function : V -> M mem unit)
    : M mem unit :=
  do* free_buckets (take (Z.to_nat (num_buckets table)) (buckets table)) value_free_function;
  do* release 1;
  release 1.

Definition HTNullFree (_ : V) : M mem unit := ret tt.

Definition NumElementsInHashTable (table : HashTableRecord) : Z := num_elements table.

Definition HashKeyToBucketNum (ht : HashTableRecord) (k : Z) : Z := k mod num_buckets ht.

(** *** Finding a key *)

(** The [do ... while (LLIteratorNext(iter))] loop, from the node at the front. *)
Fixpoint find_loop (c : bucket) (k : Z) : option positive :=
  match c with
  | [] => None
  | (n, kv) :: rest => if key kv =? k then Some n else find_loop rest k
  end.

Definition FindKVInHashTable (list : bucket) (k : Z) : M mem (option positive) :=
  if (length list =? 0)%nat then ret None
  else
    let* iter := alloc in
    match iter with
    | None => fail VerifyFailed
    | Some _ =>
        match find_loop list k with
        | Some n => ret (Some n)
        | None => do* release 1; ret None
        end
    end.

Definition LookupHashTable (table : HashTableRecord) (k : Z) : M mem (Z * option HTKeyValue) :=
  let* insertchain := bucket_at table (HashKeyToBucketNum table k) in
  let* location := FindKVInHashTable insertchain k in
  match location with
  | None => ret (0, None)
  | Some n =>
      let* payload := deref_it insertchain (Some n) in
      do* release 1;
      ret (1, Some payload.1)
  end.

Definition RemoveFromHashTable (table : HashTableRecord) (k : Z)
    : M mem (Z * option HTKeyValue * HashTableRecord) :=
  let insertbucket := HashKeyToBucketNum table k in
  let* insertchain := bucket_at table insertbucket in
  let* location := FindKVInHashTable insertchain k in
  match location with
  | None => ret (0, None, table)
  | Some n =>
      let* payload := deref_it insertchain (Some n) in
      do* release 2;
      do* release 1;
      ret (1, Some payload.1,
           set_bucket table insertbucket (drop_node n insertchain) (u32 (num_elements table - 1)))
  end.

(** *** Iterators *)

(** The first non-empty bucket of [bs], numbered from [i], and its first node. *)
Fixpoint first_nonempty (bs : list bucket) (i : Z) : option (Z * positive) :=
  match bs with
  | [] => None
  | [] :: bs' => first_nonempty bs' (i + 1)
  | ((n, _) :: _) :: _ => Some (i, n)
  end.

Definition HashTableMakeIterator (table : HashTableRecord) : M mem (option HTIterRecord) :=
  let* iter := alloc in
  match iter with
  | None => ret None
  | Some _ =>
      if num_elements table =? 0 then ret (Some (mkHTIter false 0 None))
      else
        match first_nonempty (take (Z.to_nat (num_buckets table)) (buckets table)) 0 with
        | None => fail VerifyFailed
        | Some (i, n) =>
            let* it := alloc in
            match it with
            | None => do* release 1; ret None
            | Some _ => ret (Some (mkHTIter true i (Some n)))
            end
        end
  end.

Definition HTIteratorFree (iter : HTIterRecord) : M mem unit :=
  do* (if bucket_it iter then release 1 else ret tt);
  release 1.

Definition HTIteratorNext (iter : HTIterRecord) (ht : HashTableRecord) : M mem (Z * HTIterRecord) :=
  if negb (is_valid iter) then ret (0, iter)
  else
    let* c := bucket_at ht (bucket_num iter) in
    let* cur := deref_it c (bucket_it iter) in
    match cur.2 with
    | Some n => ret (1, mkHTIter true (bucket_num iter) (Some n))
    | None =>
        let bn := u32 (bucket_num iter + 1) in
        if num_buckets ht <=? bn then ret (0, mkHTIter false bn (bucket_it iter))
        else
          let bs := take (Z.to_nat (num_buckets ht)) (buckets ht) in
          match first_nonempty (drop (Z.to_nat bn) bs) bn with
          | None => ret (0, mkHTIter false (num_buckets ht) (bucket_it iter))
          | Some (j, n) =>
              do* (if bucket_it iter then release 1 else ret tt);
              let* it := alloc in
              ret (1, mkHTIter true j (if it then Some n else None))
          end
    end.

Definition HTIteratorPastEnd (iter : HTIterRecord) : Z :=
  if negb (is_valid iter) then 1 else if bucket_it iter then 0 else 1.

Definition HTIteratorGet (iter : HTIterRecord) (ht : HashTableRecord)
    : M mem (Z * option HTKeyValue) :=
  if negb (is_valid iter) then ret (0, None)
  else
    let* c := bucket_at ht (bucket_num iter) in
    let* cur := deref_it c (bucket_it iter) in
    ret (1, Some cur.1).

Definition HTIteratorDelete (iter : HTIterRecord) (ht : HashTableRecord)
    : M mem (Z * option HTKeyValue * HTIterRecord * HashTableRecord) :=
  let* (r, okv) := HTIteratorGet iter ht in
  match okv with
  | None => ret (0, None, iter, ht)
  | Some kv =>
      let* (r, iter) := HTIteratorNext iter ht in
      let retval := if r =? 0 then 2 else 1 in
      let* (r, keyvalue, ht) := RemoveFromHashTable ht (key kv) in
      do* Verify (r =? 1);
      let* kv' := get_or BadAccess keyvalue in
      do* Verify (key kv =? key kv');
      do* Verify (bool_decide (value kv = value kv'));
      ret (retval, keyvalue, iter, ht)
  end.

(** *** Growing and inserting *)

(** [while (!HTIteratorPastEnd(it)) ...]; [true] when every item was inserted. *)
Fixpoint resize_loop
    (insert : HashTableRecord -> HTKeyValue -> M mem (Z * option HTKeyValue * HashTableRecord))
    (fuel : nat) (ht : HashTableRecord) (it : HTIterRecord) (newht : HashTableRecord)
    : M mem (bool * HTIterRecord * HashTableRecord) :=
  match fuel with
  | O => fail OutOfFuel
  | S fuel' =>
      if negb (HTIteratorPastEnd it =? 0) then ret (true, it, newht)
      else
        let* (r, item) := HTIteratorGet it ht in
        do* Verify (r =? 1);
        let* item := get_or BadAccess item in
        let* (r, _, newht) := insert newht item in
        if negb (r =? 1) then ret (false, it, newht)
        else
          let* (_, it) := HTIteratorNext it ht in
          resize_loop insert fuel' ht it newht
  end.

Definition ResizeHashtable
    (insert : HashTableRecord -> HTKeyValue -> M mem (Z * option HTKeyValue * HashTableRecord))
    (ht : HashTableRecord) : M mem HashTableRecord :=
  if num_elements ht <? u32 (3 * num_buckets ht) then ret ht
  else
    let* newht := AllocateHashTable (u32 (num_buckets ht * 9)) in
    match newht with
    | None => ret ht
    | Some newht =>
        let* it := HashTableMakeIterator ht in
        match it with
        | None => do* FreeHashTable newht HTNullFree; ret ht
        | Some it =>
            let fuel := S (length (concat (buckets ht))) in
            let* (inserted, it, newht) := resize_loop insert fuel ht it newht in
            if negb inserted then
              do* HTIteratorFree it;
              do* FreeHashTable newht HTNullFree;
              ret ht
            else
              do* HTIteratorFree it;
              do* FreeHashTable ht HTNullFree;
              ret newht
        end
    end.

(** [InsertHashTable] and [ResizeHashtable] call each other; [depth] bounds
    the nesting. *)
Fixpoint InsertHashTable (depth : nat) (table : HashTableRecord) (newkeyvalue : HTKeyValue)
    : M mem (Z * option HTKeyValue * HashTableRecord) :=
  match depth with
  | O => fail OutOfFuel
  | S depth' =>
      let* table := ResizeHashtable (InsertHashTable depth') table in
      let insertbucket := HashKeyToBucketNum table (key newkeyvalue) in
      let* insertchain := bucket_at table insertbucket in
      let* location := FindKVInHashTable insertchain (key newkeyvalue) in
      match location with
      | None =>
          let* payload := alloc in
          do* Verify (bool_decide (is_Some payload));
          let* node := alloc in
          let chain := match node with
                       | Some n => insertchain ++ [(n, newkeyvalue)]
                       | None => insertchain
                       end in
          ret (1, None, set_bucket table insertbucket chain (u32 (num_elements table + 1)))
      | Some n =>
          let* payload := deref_it insertchain (Some n) in
          do* release 1;
          ret (2, Some payload.1,
               set_bucket table insertbucket (set_node n newkeyvalue insertchain)
                 (num_elements table))
      end
  end.

End HashTable.

Arguments HTKeyValue : clear implicits.
Arguments HashTableRecord : clear implicits.
Arguments bucket : clear implicits.
