(* ===== verification/HashTableSpec.v ===== *)
(** The hash table, part 2: the finite map a table represents, its
    well-formedness, and the refinement of every operation of [HashTable.c]. *)
From S2P Require Import Prelude Alloc HashTable.
Open Scope Z_scope.

(** ** FNV hashing *)

Lemma FNV_PRIME_inverse : (FNV_64_PRIME * 14886173955864302971) mod 2 ^ 64 = 1.
Proof. reflexivity. Qed.

Lemma FNV_step_inj h1 h2 b1 b2 :
  is_u 64 (Z.lxor h1 b1) -> is_u 64 (Z.lxor h2 b2) ->
  u64 (Z.lxor h1 b1 * FNV_64_PRIME) = u64 (Z.lxor h2 b2 * FNV_64_PRIME) ->
  Z.lxor h1 b1 = Z.lxor h2 b2.
Proof.
  unfold wrapu. intros H1 H2 E.
  assert (H : forall x, is_u 64 x -> x = ((x * FNV_64_PRIME) mod 2 ^ 64 * 14886173955864302971) mod 2 ^ 64).
  { intros x Hx. rewrite Z.mul_mod_idemp_l by done. rewrite <- Z.mul_assoc.
    rewrite <- Z.mul_mod_idemp_r by done. rewrite FNV_PRIME_inverse, Z.mul_1_r.
    symmetry. by apply Z.mod_small. }
  rewrite (H _ H1), (H _ H2). by rewrite E.
Qed.

Lemma FNVHash64_loop_range h bs :
  is_u 64 h -> is_u 64 (FNVHash64_loop h bs).
Proof.
  revert h; induction bs as [|b bs IH]; intros h Hh; cbn [FNVHash64_loop]; [done|].
  apply IH. apply wrapu_range. lia.
Qed.

Lemma FNVHash64_loop_inj h1 h2 bs :
  is_u 64 h1 -> is_u 64 h2 -> Forall (fun b => is_u 8 b) bs ->
  FNVHash64_loop h1 bs = FNVHash64_loop h2 bs -> h1 = h2.
Proof.
  intros H1 H2 Hbs. revert h1 h2 H1 H2; induction Hbs as [|b bs Hb Hbs IH]; intros h1 h2 H1 H2;
    cbn [FNVHash64_loop]; [done|].
  intros E. apply IH in E; [|apply wrapu_range; lia|apply wrapu_range; lia].
  assert (is_u 64 b) by bound_lia.
  apply FNV_step_inj in E; [|by apply (lxor_u 64)|by apply (lxor_u 64)].
  apply (f_equal (fun x => Z.lxor x b)) in E.
  by rewrite !Z.lxor_assoc, Z.lxor_nilpotent, !Z.lxor_0_r in E.
Qed.

Lemma FNVHash64_loop_app h xs ys :
  FNVHash64_loop h (xs ++ ys) = FNVHash64_loop (FNVHash64_loop h xs) ys.
Proof. revert h; induction xs as [|x xs IH]; intros h; cbn [FNVHash64_loop app]; auto. Qed.

(** The integer whose octets, least significant first, are [bs]. *)
Definition le_val (bs : list Z) : Z := foldr (fun b acc => b + 256 * acc) 0 bs.

Lemma FNVHashInt64_buf_val n x :
  0 <= x < 2 ^ (8 * Z.of_nat n) -> le_val (FNVHashInt64_buf n x) = x.
Proof.
  revert x; induction n as [|n IH]; intros x Hx; cbn [FNVHashInt64_buf le_val foldr].
  - change (2 ^ _) with 1 in Hx. lia.
  - change (foldr _ 0 ?l) with (le_val l). rewrite Z.shiftr_div_pow2 by lia.
    change 0xFF with (Z.ones 8). rewrite Z.land_ones by lia. change (2 ^ 8) with 256.
    rewrite IH; [pose proof (Z.div_mod x 256); lia|].
    split; [apply Z.div_pos; lia|apply Z.div_lt_upper_bound; [lia|]].
    replace (8 * Z.of_nat (S n)) with (8 + 8 * Z.of_nat n) in Hx by lia.
    rewrite Z.pow_add_r in Hx by lia. lia.
Qed.

(** [FNVHash64] yields a 64-bit key, and two buffers that differ in
    exactly one octet never collide; [FNVHashInt64] hashes the eight octets of
    its argument, least significant first. *)
Theorem FNVHash64_one_octet pre suf a :
  Forall (fun x => is_u 8 x) (pre ++ a :: suf) ->
  is_u 64 (FNVHash64 (pre ++ a :: suf)) /\
  (forall b, is_u 8 b -> FNVHash64 (pre ++ a :: suf) = FNVHash64 (pre ++ b :: suf) -> a = b) /\
  (forall x, is_u 64 x -> exists bs, FNVHashInt64 x = FNVHash64 bs /\ length bs = 8%nat /\ le_val bs = x).
Proof.
  intros HF. apply Forall_app in HF as [_ HF]. inversion_clear HF as [|? ? Ha Hsuf].
  assert (Hi : is_u 64 FNV1_64_INIT) by done. split; [by apply FNVHash64_loop_range|].
  split; [|intros x Hx; exists (FNVHashInt64_buf 8 x); by rewrite FNVHashInt64_buf_val].
  intros b Hb. unfold FNVHash64. rewrite !FNVHash64_loop_app. cbn [FNVHash64_loop].
  set (h := FNVHash64_loop FNV1_64_INIT pre).
  assert (Hh : is_u 64 h) by (by apply FNVHash64_loop_range).
  intros E. apply FNVHash64_loop_inj in E; [|apply wrapu_range; lia|apply wrapu_range; lia|done].
  assert (is_u 64 a /\ is_u 64 b) as [? ?] by bound_lia.
  apply FNV_step_inj in E; [|by apply (lxor_u 64)|by apply (lxor_u 64)].
  apply (f_equal (Z.lxor h)) in E.
  by rewrite <- !Z.lxor_assoc, Z.lxor_nilpotent, !Z.lxor_0_l in E.
Qed.

Lemma FNVHash64_one_octet_witness :
  FNVHash64 [102; 111; 111] <> FNVHash64 [102; 111; 112].
Proof.
  intros E. assert (HF : Forall (fun x => is_u 8 x) ([102; 111] ++ 111 :: []))
    by (repeat constructor; lia).
  destruct (FNVHash64_one_octet [102; 111] [] 111 HF) as (_ & H & _).
  assert (H112 : is_u 8 112) by (split; [discriminate|reflexivity]).
  specialize (H 112 H112 E). discriminate.
Defined.

(** The published test vectors of 64-bit FNV-1a. *)
Example FNVHash64_foobar : FNVHash64 [102; 111; 111; 98; 97; 114] = 0x85944171f73967e8.
Proof. reflexivity. Qed.

(** ** What a table represents *)

Section Spec.
Context {V : Type} `{EqDecision V}.
Implicit Types (t : HashTableRecord V) (c pre post : bucket V) (m : mem) (k : Z).

(** The first pair of a chain with key [k]. *)
Fixpoint find_kv (c : bucket V) (k : Z) : option (HTKeyValue V) :=
  match c with
  | [] => None
  | (_, kv) :: rest => if key kv =? k then Some kv else find_kv rest k
  end.

(** Every pair of the table, bucket by bucket. *)
Definition items (t : HashTableRecord V) : bucket V := concat (buckets t).

Definition chain_map (c : bucket V) : gmap Z V :=
  list_to_map ((fun x : positive * HTKeyValue V => (key x.2, value x.2)) <$> c).

(** The finite map a table represents. *)
Definition view (t : HashTableRecord V) : gmap Z V := chain_map (items t).

Abbreviation keys c := ((fun x : positive * HTKeyValue V => key x.2) <$> c).

Record bucket_ok (nb i : Z) (fresh : positive) (c : bucket V) : Prop := {
  bo_nodes : NoDup c.*1;
  bo_keys : NoDup (keys c);
  bo_slot : forall x, x ∈ c -> key x.2 mod nb = i;
  bo_fresh : forall x, x ∈ c -> (x.1 < fresh)%positive
}.

(** The table is well formed: it has its buckets, counts its pairs, stores
    each pair in the bucket of its key, and repeats no key and no node. *)
Record wf (m : mem) (t : HashTableRecord V) : Prop := {
  wf_nb : 0 < num_buckets t < 2 ^ 32;
  wf_len : length (buckets t) = Z.to_nat (num_buckets t);
  wf_ne : num_elements t = Z.of_nat (length (items t));
  wf_small : num_elements t < 2 ^ 32;
  wf_bucket : forall (i : nat) c, buckets t !! i = Some c ->
    bucket_ok (num_buckets t) (Z.of_nat i) (next_id m) c
}.

(** Blocks a table holds: its record, its array, a list per bucket, and a
    node and a pair per element. *)
Definition footprint (t : HashTableRecord V) : Z := 2 + num_buckets t + 2 * num_elements t.

(** *** Chains *)

Lemma chain_map_lookup c k : chain_map c !! k = value <$> find_kv c k.
Proof.
  unfold chain_map. induction c as [|[n kv] c IH]; cbn; [by rewrite lookup_empty|].
  destruct (Z.eqb_spec (key kv) k) as [->|Hne]; [by rewrite lookup_insert_eq|].
  by rewrite lookup_insert_ne.
Qed.

Lemma find_kv_app c1 c2 k :
  find_kv (c1 ++ c2) k = match find_kv c1 k with Some kv => Some kv | None => find_kv c2 k end.
Proof.
  induction c1 as [|[n kv] c1 IH]; cbn; [done|]. by destruct (key kv =? k).
Qed.

Lemma find_kv_None c k : find_kv c k = None <-> k ∉ keys c.
Proof.
  induction c as [|[n kv] c IH]; cbn; [by pose proof (not_elem_of_nil k)|].
  rewrite not_elem_of_cons. destruct (Z.eqb_spec (key kv) k); [by split; [|intros [? _]; congruence]|].
  rewrite IH. intuition congruence.
Qed.

Lemma find_kv_key c k kv : find_kv c k = Some kv -> key kv = k.
Proof.
  induction c as [|[n kv'] c IH]; cbn; [done|].
  destruct (Z.eqb_spec (key kv') k); [by intros [= <-]|done].
Qed.

(** Where a key is found, the chain splits. *)
Lemma find_loop_spec c k :
  match find_loop c k with
  | Some n => exists pre kv post, c = pre ++ (n, kv) :: post /\ key kv = k /\
      find_kv c k = Some kv /\ k ∉ keys pre
  | None => find_kv c k = None
  end.
Proof.
  induction c as [|[n kv] c IH]; cbn; [done|].
  destruct (Z.eqb_spec (key kv) k) as [Hk|Hk].
  - exists [], kv, c. split_and!; [done|done|done|by intros ?%elem_of_nil].
  - destruct (find_loop c k) as [n'|]; [|done].
    destruct IH as (pre & kv' & post & -> & Hk' & Hf & Hpre).
    exists ((n, kv) :: pre), kv', post. split_and!; [done|done|done|].
    cbn. rewrite not_elem_of_cons. by split; [congruence|].
Qed.

Lemma node_at_split c1 n kv c2 :
  n ∉ c1.*1 -> node_at (c1 ++ (n, kv) :: c2) n = Some (kv, fst <$> head c2).
Proof.
  induction c1 as [|[n' kv'] c1 IH]; cbn; intros Hn; [by rewrite decide_True|].
  apply not_elem_of_cons in Hn as [Hne Hn]. by rewrite decide_False, IH.
Qed.

Lemma set_node_other n kv c : n ∉ c.*1 -> set_node n kv c = c.
Proof.
  unfold set_node. induction c as [|[n' kv'] c IH]; cbn; intros Hn; [done|].
  apply not_elem_of_cons in Hn as [Hne Hn]. rewrite decide_False by done. by rewrite IH.
Qed.

Lemma set_node_split c1 n kv kv' c2 :
  n ∉ c1.*1 -> n ∉ c2.*1 -> set_node n kv' (c1 ++ (n, kv) :: c2) = c1 ++ (n, kv') :: c2.
Proof.
  intros H1 H2. unfold set_node. rewrite fmap_app. cbn. rewrite decide_True by done.
  f_equal; [by apply set_node_other|f_equal; by apply set_node_other].
Qed.

Lemma drop_node_other n c : n ∉ c.*1 -> drop_node n c = c.
Proof.
  unfold drop_node. induction c as [|[n' kv'] c IH]; intros Hn; [done|]. cbn in Hn.
  apply not_elem_of_cons in Hn as [Hne Hn]. rewrite filter_cons_True by (cbn; congruence).
  by rewrite IH.
Qed.

Lemma drop_node_split c1 n kv c2 :
  n ∉ c1.*1 -> n ∉ c2.*1 -> drop_node n (c1 ++ (n, kv) :: c2) = c1 ++ c2.
Proof.
  intros H1 H2. unfold drop_node. rewrite filter_app, filter_cons_False by (cbn; tauto).
  f_equal; by apply drop_node_other.
Qed.

Lemma nodup_split c1 n kv c2 :
  NoDup (c1 ++ (n, kv) :: c2).*1 -> n ∉ c1.*1 /\ n ∉ c2.*1 /\ NoDup (c1 ++ c2).*1.
Proof.
  rewrite !fmap_app. cbn. intros Hnd. apply NoDup_app in Hnd as (Hnd1 & Hd & Hnd2).
  apply NoDup_cons in Hnd2 as [Hn Hnd2]. split_and!; [|done|].
  - intros Hin. apply (Hd _ Hin). by left.
  - apply NoDup_app. split_and!; [done| |done]. intros x Hx Hx'. apply (Hd _ Hx). by right.
Qed.

Lemma nodup_keys_split c1 n kv c2 :
  NoDup (keys (c1 ++ (n, kv) :: c2)) ->
  key kv ∉ keys c1 /\ key kv ∉ keys c2 /\ NoDup (keys (c1 ++ c2)).
Proof.
  rewrite !fmap_app. cbn. intros Hnd. apply NoDup_app in Hnd as (Hnd1 & Hd & Hnd2).
  apply NoDup_cons in Hnd2 as [Hn Hnd2]. split_and!; [|done|].
  - intros Hin. apply (Hd _ Hin). by left.
  - apply NoDup_app. split_and!; [done| |done]. intros x Hx Hx'. apply (Hd _ Hx). by right.
Qed.

(** *** Buckets *)

Lemma concat_split (bs : list (bucket V)) (i : nat) c :
  bs !! i = Some c -> concat bs = concat (take i bs) ++ c ++ concat (drop (S i) bs).
Proof.
  intros Hi. rewrite <- (take_drop_middle bs i c Hi) at 1. by rewrite concat_app.
Qed.

Lemma bucket_index m t k :
  wf m t -> exists i c, Z.of_nat i = HashKeyToBucketNum t k /\ buckets t !! i = Some c /\
    forall m', bucket_at t (HashKeyToBucketNum t k) m' = Ok (c, m').
Proof.
  intros Hwf. pose proof (wf_nb _ _ Hwf). unfold HashKeyToBucketNum.
  pose proof (Z.mod_pos_bound k (num_buckets t) ltac:(lia)).
  destruct (lookup_lt_is_Some_2 (buckets t) (Z.to_nat (k mod num_buckets t))) as [c Hc].
  { rewrite (wf_len _ _ Hwf). lia. }
  exists (Z.to_nat (k mod num_buckets t)), c. split_and!; [lia|done|].
  intros m'. unfold bucket_at. destruct (Z.ltb_spec (k mod num_buckets t) 0); [lia|].
  by rewrite Hc.
Qed.

(** Pairs of other buckets have other keys. *)
Lemma other_bucket m t (i j : nat) c k :
  wf m t -> buckets t !! j = Some c -> Z.of_nat i = HashKeyToBucketNum t k -> j <> i ->
  find_kv c k = None.
Proof.
  intros Hwf Hj Hi Hne. apply find_kv_None. intros ([n kv] & -> & Hin)%list_elem_of_fmap.
  pose proof (bo_slot _ _ _ _ (wf_bucket _ _ Hwf j c Hj) _ Hin).
  unfold HashKeyToBucketNum in Hi. cbn in *. lia.
Qed.

Lemma find_kv_concat (bs : list (bucket V)) (i : nat) c k :
  bs !! i = Some c -> (forall j c', bs !! j = Some c' -> j <> i -> find_kv c' k = None) ->
  find_kv (concat bs) k = find_kv c k.
Proof.
  revert i; induction bs as [|c0 bs IH]; intros i Hi Ho; [done|].
  cbn. rewrite find_kv_app. destruct i as [|i]; cbn in Hi.
  - injection Hi as <-. destruct (find_kv c0 k) eqn:E; [done|].
    apply find_kv_None. intros Hin%list_elem_of_fmap. destruct Hin as (x & -> & Hin).
    apply list_elem_of_In, in_concat in Hin as (c' & Hc' & Hx).
    apply list_elem_of_In, list_elem_of_lookup in Hc' as [j Hj].
    apply list_elem_of_In in Hx.
    specialize (Ho (S j) c' Hj ltac:(done)). apply find_kv_None in Ho. apply Ho.
    apply list_elem_of_fmap. by exists x.
  - rewrite (Ho 0%nat c0) by done. apply (IH i); [done|].
    intros j c' Hj Hne. apply (Ho (S j)); [done|congruence].
Qed.

(** The map of a table at a key is decided by the key's bucket. *)
Lemma view_lookup m t (i : nat) c k :
  wf m t -> Z.of_nat i = HashKeyToBucketNum t k -> buckets t !! i = Some c ->
  view t !! k = value <$> find_kv c k.
Proof.
  intros Hwf Hi Hc. unfold view, items. rewrite chain_map_lookup.
  f_equal. eapply find_kv_concat; [done|]. intros j c' Hj Hne. by eapply other_bucket.
Qed.

Lemma items_keys m t : wf m t -> NoDup (keys (items t)).
Proof.
  intros Hwf. assert (H : forall bs (i0 : nat), (forall j c, bs !! j = Some c ->
    NoDup (keys c) /\ forall x, x ∈ c -> key x.2 mod num_buckets t = Z.of_nat (i0 + j)) ->
    NoDup (keys (concat bs)) /\
    forall x, x ∈ concat bs -> Z.of_nat i0 <= key x.2 mod num_buckets t).
  { induction bs as [|c bs IH]; intros i0 Hbs; cbn.
    { split; [constructor|by intros x ?%elem_of_nil]. }
    destruct (Hbs 0%nat c eq_refl) as [Hc1 Hc2].
    destruct (IH (S i0)) as [IH1 IH2].
    { intros j c' Hj. destruct (Hbs (S j) c' Hj) as [? Hs]. split; [done|].
      intros x Hx. rewrite (Hs x Hx). lia. }
    split.
    - rewrite fmap_app. apply NoDup_app. split_and!; [done| |done].
      intros k' (x & -> & Hx)%list_elem_of_fmap (y & E & Hy)%list_elem_of_fmap.
      specialize (IH2 y Hy). specialize (Hc2 x Hx). rewrite E in Hc2. lia.
    - intros x [Hx|Hx]%elem_of_app; [rewrite (Hc2 x Hx); lia|]. specialize (IH2 x Hx). lia. }
  destruct (H (buckets t) 0%nat) as [Hk _]; [|done].
  intros j c Hj. destruct (wf_bucket _ _ Hwf j c Hj). done.
Qed.

Lemma set_bucket_at t (i : nat) c n : set_bucket t (Z.of_nat i) c n =
  mkHT (num_buckets t) n (<[i := c]> (buckets t)).
Proof. unfold set_bucket. by rewrite Nat2Z.id. Qed.

Lemma length_concat_insert (bs : list (bucket V)) (i : nat) c c' :
  bs !! i = Some c ->
  (length (concat (<[i := c']> bs)) + length c = length (concat bs) + length c')%nat.
Proof.
  revert i; induction bs as [|c0 bs IH]; intros [|i] Hi; try done.
  - injection Hi as ->. cbn. rewrite !length_app. lia.
  - change (<[S i := c']> (c0 :: bs)) with (c0 :: <[i := c']> bs). cbn [concat].
    rewrite !length_app. specialize (IH i Hi). lia.
Qed.

(** Replacing one bucket. *)
Lemma wf_update m m' t (i : nat) c c' n :
  wf m t -> buckets t !! i = Some c -> (next_id m <= next_id m')%positive ->
  bucket_ok (num_buckets t) (Z.of_nat i) (next_id m') c' ->
  n = num_elements t - Z.of_nat (length c) + Z.of_nat (length c') -> n < 2 ^ 32 ->
  wf m' (set_bucket t (Z.of_nat i) c' n).
Proof.
  intros Hwf Hc Hid Hok Hn Hsmall. rewrite set_bucket_at. pose proof Hwf as [H1 H2 H3 H4 H5].
  split; cbn; [done|by rewrite length_insert| |done|].
  - pose proof (length_concat_insert _ _ _ c' Hc). unfold items in *. cbn. lia.
  - intros j cj [[-> [<- _]]|[Hne Hj]]%list_lookup_insert_Some; [done|].
    destruct (H5 j cj Hj). split; try done.
    intros x Hx. specialize (bo_fresh0 x Hx). lia.
Qed.

Lemma wf_later m m' t d : wf m t -> later m m' d -> wf m' t.
Proof.
  intros [] []. split; try done. intros i c Hc. destruct (wf_bucket0 i c Hc). split; try done.
  intros x Hx. specialize (bo_fresh0 x Hx). lia.
Qed.

Lemma view_set_bucket m m' t (i : nat) c c' n k :
  wf m t -> wf m' (set_bucket t (Z.of_nat i) c' n) -> buckets t !! i = Some c ->
  view (set_bucket t (Z.of_nat i) c' n) !! k =
    if decide (Z.of_nat i = HashKeyToBucketNum t k) then value <$> find_kv c' k
    else view t !! k.
Proof.
  intros Hwf Hwf' Hc. rewrite set_bucket_at in *.
  assert (Hi : (i < length (buckets t))%nat) by (by apply lookup_lt_is_Some_1; eexists).
  destruct (decide _) as [Heq|Hne].
  - apply (view_lookup _ _ i _ _ Hwf'); [done|]. cbn. by apply list_lookup_insert_eq.
  - destruct (bucket_index _ _ k Hwf) as (j & cj & Hj & Hcj & _).
    rewrite (view_lookup _ _ j cj _ Hwf) by done.
    apply (view_lookup _ _ j _ _ Hwf'); [done|]. cbn. rewrite list_lookup_insert_ne; [done|].
    intros ->. by rewrite Hj in Hne.
Qed.

Lemma FindKV_ok m c k :
  plentiful m -> exists m', FindKVInHashTable c k m = Ok (find_loop c k, m') /\
    later m m' (if find_loop c k then 1 else 0).
Proof.
  intros Hp. unfold FindKVInHashTable. destruct c as [|x c]; [by exists m|].
  cbn [length Nat.eqb]. destruct (alloc_ok m Hp) as (m1 & R1 & L1 & _). step R1.
  destruct (find_loop (x :: c) k); [by exists m1|].
  destruct (release_ok 1 m1) as (m2 & R2 & L2). step R2. exists m2. split; [done|].
  by eapply later_trans.
Qed.

(** The state of a found key: its bucket split around its node. *)
Lemma found m t k (i : nat) c n pre kv post :
  wf m t -> buckets t !! i = Some c -> c = pre ++ (n, kv) :: post -> key kv = k ->
  n ∉ pre.*1 /\ n ∉ post.*1 /\ k ∉ keys pre /\ k ∉ keys post /\
  NoDup (pre ++ post).*1 /\ NoDup (keys (pre ++ post)).
Proof.
  intros Hwf Hc -> <-. destruct (wf_bucket _ _ Hwf i _ Hc) as [Hn Hk _ _].
  apply nodup_split in Hn as (? & ? & ?). apply nodup_keys_split in Hk as (? & ? & ?). done.
Qed.

Lemma deref_it_split pre n kv post m :
  n ∉ pre.*1 -> deref_it (pre ++ (n, kv) :: post) (Some n) m = Ok ((kv, fst <$> head post), m).
Proof. intros Hn. cbn. by rewrite node_at_split. Qed.

Lemma LookupHashTable_ok m t k :
  wf m t -> plentiful m ->
  exists m', LookupHashTable t k m =
      Ok (match view t !! k with Some v => (1, Some (mkKV k v)) | None => (0, None) end, m') /\
    later m m' 0.
Proof.
  intros Hwf Hp. unfold LookupHashTable.
  destruct (bucket_index _ _ k Hwf) as (i & c & Hi & Hc & HR). step (HR m).
  destruct (FindKV_ok m c k Hp) as (m1 & R1 & L1). step R1.
  rewrite (view_lookup _ _ i c _ Hwf) by done.
  pose proof (find_loop_spec c k) as Hf. destruct (find_loop c k) as [n|].
  - destruct Hf as (pre & kv & post & E & Hk & Hf & _).
    destruct (found m t k i c n pre kv post) as (Hn & _); [done..|].
    rewrite Hf, E. step (deref_it_split pre n kv post m1 Hn). cbn [fst].
    destruct (release_ok 1 m1) as (m2 & R2 & L2). step R2. exists m2.
    split; [|by eapply later_trans]. subst k. by destruct kv.
  - rewrite Hf. by exists m1.
Qed.

Lemma RemoveFromHashTable_ok m t k :
  wf m t -> plentiful m ->
  exists m' r old t', RemoveFromHashTable t k m = Ok ((r, old, t'), m') /\ wf m' t' /\
    view t' = delete k (view t) /\ num_buckets t' = num_buckets t /\
    later m m' (footprint t' - footprint t) /\
    match view t !! k with
    | Some v => r = 1 /\ old = Some (mkKV k v) /\ exists (i : nat) pre n kv post,
        Z.of_nat i = HashKeyToBucketNum t k /\
        buckets t !! i = Some (pre ++ (n, kv) :: post) /\ key kv = k /\
        buckets t' = <[i := pre ++ post]> (buckets t)
    | None => r = 0 /\ old = None /\ t' = t
    end.
Proof.
  intros Hwf Hp. unfold RemoveFromHashTable.
  destruct (bucket_index _ _ k Hwf) as (i & c & Hi & Hc & HR). step (HR m).
  destruct (FindKV_ok m c k Hp) as (m1 & R1 & L1). step R1.
  rewrite (view_lookup _ _ i c _ Hwf) by done.
  pose proof (find_loop_spec c k) as Hf. destruct (find_loop c k) as [n|].
  - destruct Hf as (pre & kv & post & E & Hk & Hf & _).
    destruct (found m t k i c n pre kv post) as (Hn & Hn' & Hkp & Hkq & Hnd & Hnk); [done..|].
    rewrite Hf, E. step (deref_it_split pre n kv post m1 Hn). cbn [fst].
    destruct (release_ok 2 m1) as (m2 & R2 & L2). step R2.
    destruct (release_ok 1 m2) as (m3 & R3 & L3). step R3. rewrite drop_node_split by done.
    cbn [option_fmap fmap option_map].
    pose proof (wf_ne _ _ Hwf) as Hne. pose proof (wf_small _ _ Hwf).
    pose proof (length_concat_insert _ _ _ (pre ++ post) Hc) as Hlen. unfold items in Hne.
    rewrite E, !length_app in Hlen. cbn [length] in Hlen.
    assert (Hu : u32 (num_elements t - 1) = num_elements t - 1) by (apply wrapu_small; lia).
    pose proof (later_trans _ _ _ _ _ _ L1 (later_trans _ _ _ _ _ _ L2 L3 eq_refl) eq_refl) as L.
    destruct (wf_bucket _ _ Hwf i c Hc) as [_ _ Hs Hfr].
    assert (Hwf' : wf m3 (set_bucket t (Z.of_nat i) (pre ++ post) (u32 (num_elements t - 1)))).
    { pose proof (later_id _ _ _ L). apply (wf_update m m3 t i c); [done..| | |lia].
      - split; [done|done| |].
        + intros x Hx. apply Hs. rewrite E. set_solver.
        + intros x Hx. assert (x.1 < next_id m)%positive by (apply Hfr; rewrite E; set_solver). lia.
      - rewrite Hu, E, !length_app. cbn [length]. lia. }
    rewrite <- Hi. do 4 eexists. split; [reflexivity|]. split_and!; [done| |done| |done| |].
    + apply map_eq. intros k'. rewrite (view_set_bucket _ _ _ _ _ _ _ _ Hwf Hwf' Hc).
      destruct (decide (k = k')) as [<-|Hkk].
      * rewrite lookup_delete_eq, decide_True by done.
        rewrite (proj2 (find_kv_None _ _)); [done|]. rewrite fmap_app. set_solver.
      * rewrite lookup_delete_ne by done. destruct (decide _) as [Hi'|]; [|done].
        rewrite (view_lookup _ _ i c _ Hwf) by done. f_equal. rewrite E, !find_kv_app. cbn.
        destruct (Z.eqb_spec (key kv) k'); [congruence|done].
    + unfold footprint. rewrite set_bucket_at. cbn. rewrite Hu.
      destruct L. split; [done|done|lia].
    + subst k. by destruct kv.
    + exists i, pre, n, kv, post. rewrite set_bucket_at, <- E. done.
  - rewrite Hf. cbn. exists m1, 0, None, t. split_and!; try done.
    + by eapply wf_later.
    + symmetry. apply delete_id. rewrite (view_lookup _ _ i c _ Hwf) by done. by rewrite Hf.
    + by rewrite Z.sub_diag.
Qed.

(** *** Inserting *)

(** What [InsertHashTable] answers and does to the map. *)
Definition inserted (m : mem) (t : HashTableRecord V) (kv : HTKeyValue V) (r : Z)
    (old : option (HTKeyValue V)) (t' : HashTableRecord V) (m' : mem) : Prop :=
  wf m' t' /\ view t' = <[key kv := value kv]> (view t) /\
  match view t !! key kv with
  | None => r = 1 /\ old = None /\ num_elements t' = num_elements t + 1
  | Some v => r = 2 /\ old = Some (mkKV (key kv) v) /\ num_elements t' = num_elements t
  end /\
  later m m' (footprint t' - footprint t).

Lemma insert_absent m t (i : nat) c kv n m' :
  wf m t -> buckets t !! i = Some c -> Z.of_nat i = HashKeyToBucketNum t (key kv) ->
  find_kv c (key kv) = None -> num_elements t + 1 < 2 ^ 32 ->
  (next_id m <= n)%positive -> (n < next_id m')%positive ->
  let t' := set_bucket t (Z.of_nat i) (c ++ [(n, kv)]) (u32 (num_elements t + 1)) in
  wf m' t' /\ view t' = <[key kv := value kv]> (view t) /\ num_elements t' = num_elements t + 1.
Proof.
  intros Hwf Hc Hi Hf Hsmall Hn Hn' t'.
  assert (Hu : u32 (num_elements t + 1) = num_elements t + 1).
  { apply wrapu_small. pose proof (wf_ne _ _ Hwf). lia. }
  destruct (wf_bucket _ _ Hwf i c Hc) as [Hnd Hk Hs Hfr].
  assert (Hwf' : wf m' t').
  { apply (wf_update m m' t i c); [done|done|lia| | |lia].
    - split.
      + rewrite fmap_app. cbn. apply NoDup_app. split_and!; [done| |apply NoDup_singleton].
        intros x Hx ->%list_elem_of_singleton. apply list_elem_of_fmap in Hx as (y & Hy & Hin).
        specialize (Hfr y Hin). rewrite <- Hy in Hfr. lia.
      + rewrite fmap_app. cbn. apply NoDup_app. split_and!; [done| |apply NoDup_singleton].
        intros x Hx ->%list_elem_of_singleton. by apply find_kv_None in Hf.
      + intros x [Hx| ->%list_elem_of_singleton]%elem_of_app; [by apply Hs|done].
      + intros x [Hx| ->%list_elem_of_singleton]%elem_of_app; [|done].
        specialize (Hfr x Hx). lia.
    - rewrite Hu, length_app. cbn [length]. lia. }
  split; [done|]. split; [|by subst t'; rewrite set_bucket_at; cbn; rewrite Hu].
  apply map_eq. intros k. subst t'. rewrite (view_set_bucket _ _ _ _ _ _ _ _ Hwf Hwf' Hc).
  destruct (decide (key kv = k)) as [<-|Hk'].
  - rewrite decide_True by done. rewrite lookup_insert_eq, find_kv_app, Hf. cbn.
    by rewrite Z.eqb_refl.
  - rewrite lookup_insert_ne by done. destruct (decide _) as [Hi'|]; [|done].
    rewrite (view_lookup _ _ i c _ Hwf) by done. rewrite find_kv_app. cbn.
    destruct (find_kv c k); [done|]. by destruct (Z.eqb_spec (key kv) k).
Qed.

Lemma insert_present m t (i : nat) pre n kv0 post kv m' :
  wf m t -> buckets t !! i = Some (pre ++ (n, kv0) :: post) ->
  Z.of_nat i = HashKeyToBucketNum t (key kv) -> key kv0 = key kv ->
  (next_id m <= next_id m')%positive ->
  let t' := set_bucket t (Z.of_nat i) (pre ++ (n, kv) :: post) (num_elements t) in
  wf m' t' /\ view t' = <[key kv := value kv]> (view t).
Proof.
  intros Hwf Hc Hi Hk0 Hm t'. destruct (wf_bucket _ _ Hwf i _ Hc) as [Hnd Hk Hs Hfr].
  destruct (found m t (key kv) i _ n pre kv0 post Hwf Hc) as (_ & _ & Hkp & _); [done..|].
  assert (Hwf' : wf m' t').
  { apply (wf_update m m' t i (pre ++ (n, kv0) :: post)); [done|done|done| | |by eapply wf_small].
    - rewrite fmap_app in Hnd. rewrite fmap_app in Hk. cbn in Hnd, Hk. rewrite Hk0 in Hk. split; rewrite ?fmap_app; cbn; try done.
      + intros x [Hx|[->|Hx]%elem_of_cons]%elem_of_app; [apply Hs; set_solver|done|apply Hs; set_solver].
      + intros x [Hx|[->|Hx]%elem_of_cons]%elem_of_app; cbn.
        * assert (x.1 < next_id m)%positive by (apply Hfr; set_solver). lia.
        * specialize (Hfr (n, kv0) ltac:(set_solver)). cbn in Hfr. lia.
        * assert (x.1 < next_id m)%positive by (apply Hfr; set_solver). lia.
    - rewrite !length_app. cbn [length]. lia. }
  split; [done|]. apply map_eq. intros k. subst t'.
  rewrite (view_set_bucket _ _ _ _ _ _ _ _ Hwf Hwf' Hc), find_kv_app. cbn.
  destruct (decide (key kv = k)) as [<-|Hk'].
  - rewrite decide_True by done. rewrite (proj2 (find_kv_None pre _)) by done.
    by rewrite lookup_insert_eq, Z.eqb_refl.
  - rewrite lookup_insert_ne by done. destruct (decide _) as [Hi'|]; [|done].
    rewrite (view_lookup _ _ i _ _ Hwf) by done. rewrite find_kv_app. cbn.
    destruct (Z.eqb_spec (key kv) k), (Z.eqb_spec (key kv0) k); congruence.
Qed.

(** Inserting once the table has its final size. *)
Lemma insert_at_size depth m t kv :
  ResizeHashtable (InsertHashTable depth) t m = Ok (t, m) ->
  wf m t -> plentiful m -> num_elements t + 1 < 2 ^ 32 ->
  exists r old t' m', InsertHashTable (S depth) t kv m = Ok ((r, old, t'), m') /\
    inserted m t kv r old t' m' /\ num_buckets t' = num_buckets t.
Proof.
  intros HR Hwf Hp Hsmall. cbn [InsertHashTable]. step HR.
  destruct (bucket_index _ _ (key kv) Hwf) as (i & c & Hi & Hc & HB). step (HB m).
  destruct (FindKV_ok m c (key kv) Hp) as (m1 & R1 & L1). step R1.
  pose proof (view_lookup _ _ i c _ Hwf Hi Hc) as Hview.
  pose proof (find_loop_spec c (key kv)) as Hf. destruct (find_loop c (key kv)) as [n|].
  - destruct Hf as (pre & kv0 & post & -> & Hk & Hf & Hkp).
    destruct (found m t (key kv) i _ n pre kv0 post Hwf Hc) as (Hn & Hn' & _); [done..|].
    step (deref_it_split pre n kv0 post m1 Hn). destruct (release_ok 1 m1) as (m2 & R2 & L2). step R2.
    assert (L : later m m2 0) by (by eapply later_trans).
    rewrite set_node_split by done. rewrite <- Hi.
    destruct (insert_present m t i pre n kv0 post kv m2) as [Hwf' Hv]; [done..|apply L|].
    do 4 eexists. split; [reflexivity|]. split; [|by rewrite set_bucket_at]. split; [done|].
    rewrite Hview, Hf. split; [done|]. cbn. rewrite set_bucket_at. split.
    + split_and!; [done| |done]. rewrite <- Hk. by destruct kv0.
    + unfold footprint. cbn. by rewrite Z.sub_diag.
  - destruct (alloc_ok m1) as (m2 & R2 & L2 & _); [by eapply later_plentiful|]. step R2.
    unfold Verify. rewrite bool_decide_true by (by eexists). cbn [ensure]. rewrite bind_ret.
    assert (L : later m m2 1) by (by eapply later_trans).
    destruct (alloc_ok m2) as (m3 & R3 & L3 & Hid); [by eapply later_plentiful|]. step R3.
    rewrite <- Hi.
    destruct (insert_absent m t i c kv (next_id m2) m3) as (Hwf' & Hv & Hnum);
      [done|done|done|done|done|apply L|done|].
    do 4 eexists. split; [reflexivity|]. split; [|by rewrite set_bucket_at]. split; [done|].
    rewrite Hview, Hf. split; [done|]. cbn [option_fmap fmap option_map]. split; [done|].
    eapply later_trans; [exact L|exact L3|]. unfold footprint. rewrite Hnum, set_bucket_at. cbn. lia.
Qed.

(** *** Walking a table *)

(** The iterator stands on [x], with [pre] walked and [post] to come. *)
Definition at_item (t : HashTableRecord V) (it : HTIterRecord) (pre : bucket V)
    (x : positive * HTKeyValue V) (post : bucket V) : Prop :=
  exists (i : nat) c1 c2, it = mkHTIter true (Z.of_nat i) (Some x.1) /\
    buckets t !! i = Some (c1 ++ x :: c2) /\
    pre = concat (take i (buckets t)) ++ c1 /\ post = c2 ++ concat (drop (S i) (buckets t)).

Lemma at_item_items t it pre x post : at_item t it pre x post -> items t = pre ++ x :: post.
Proof.
  intros (i & c1 & c2 & _ & Hi & -> & ->). unfold items. rewrite (concat_split _ _ _ Hi).
  by rewrite <- !app_assoc.
Qed.

Lemma first_nonempty_spec (bs : list (bucket V)) (i : nat) :
  match first_nonempty bs (Z.of_nat i) with
  | None => concat bs = []
  | Some (z, n) => exists j x c, z = Z.of_nat (i + j) /\ n = x.1 /\
      bs !! j = Some (x :: c) /\ concat (take j bs) = []
  end.
Proof.
  revert i; induction bs as [|[|[n kv] c] bs IH]; intros i; cbn; [done| |].
  - specialize (IH (S i)). replace (Z.of_nat i + 1) with (Z.of_nat (S i)) by lia.
    destruct (first_nonempty bs (Z.of_nat (S i))) as [[z n]|]; [|done].
    destruct IH as (j & x & c & -> & -> & Hj & Hp).
    exists (S j), x, c. split_and!; [f_equal; lia|done|done|done].
  - exists 0%nat, (n, kv), c. split_and!; [f_equal; lia|done|done|done].
Qed.

Lemma wf_take m t : wf m t -> take (Z.to_nat (num_buckets t)) (buckets t) = buckets t.
Proof. intros Hwf. apply take_ge. by rewrite (wf_len _ _ Hwf). Qed.

Lemma HashTableMakeIterator_ok m t :
  wf m t -> plentiful m ->
  exists it m', HashTableMakeIterator t m = Ok (Some it, m') /\
    match items t with
    | [] => it = mkHTIter false 0 None /\ later m m' 1
    | x :: post => at_item t it [] x post /\ later m m' 2
    end.
Proof.
  intros Hwf Hp. unfold HashTableMakeIterator. destruct (alloc_ok m Hp) as (m1 & R1 & L1 & _).
  step R1. rewrite (wf_ne _ _ Hwf), (wf_take _ _ Hwf).
  destruct (items t) as [|x post] eqn:E; cbn [length].
  { do 2 eexists. split; [reflexivity|done]. }
  rewrite (proj2 (Z.eqb_neq _ 0)) by lia.
  pose proof (first_nonempty_spec (buckets t) 0) as Hf. change (Z.of_nat 0) with 0 in Hf.
  unfold items in E. destruct (first_nonempty (buckets t) 0) as [[z n]|]; [|by rewrite Hf in E].
  destruct Hf as (j & y & c & -> & -> & Hj & Hpre).
  destruct (alloc_ok m1) as (m2 & R2 & L2 & _); [by eapply later_plentiful|]. step R2.
  do 2 eexists. split; [reflexivity|]. split; [|by eapply later_trans].
  rewrite (concat_split _ _ _ Hj), Hpre in E. cbn in E. injection E as <- <-.
  exists j, [], c. split_and!; [done|done|by rewrite Hpre|done].
Qed.

Lemma HTIteratorPastEnd_ok t it pre x post :
  at_item t it pre x post -> HTIteratorPastEnd it = 0.
Proof. by intros (i & c1 & c2 & -> & _). Qed.

Lemma at_item_node m t x (i : nat) c1 c2 :
  wf m t -> buckets t !! i = Some (c1 ++ x :: c2) -> x.1 ∉ c1.*1.
Proof.
  intros Hwf Hi. destruct (wf_bucket _ _ Hwf _ _ Hi) as [Hn _ _ _].
  destruct x. by apply nodup_split in Hn as (? & _).
Qed.

Lemma bucket_at_ok t (i : nat) c m : buckets t !! i = Some c -> bucket_at t (Z.of_nat i) m = Ok (c, m).
Proof.
  intros Hi. unfold bucket_at. rewrite (proj2 (Z.ltb_ge _ 0)) by lia.
  by rewrite Nat2Z.id, Hi.
Qed.

Lemma HTIteratorGet_ok m m' t it pre x post :
  wf m t -> at_item t it pre x post -> HTIteratorGet it t m' = Ok ((1, Some x.2), m').
Proof.
  intros Hwf (i & c1 & c2 & -> & Hi & _). unfold HTIteratorGet. cbn [is_valid negb bucket_num bucket_it].
  step (bucket_at_ok t i _ m' Hi). pose proof (at_item_node _ _ x i c1 c2 Hwf Hi).
  destruct x as [n kv]. by step (deref_it_split c1 n kv c2 m' ltac:(done)).
Qed.

Lemma HTIteratorNext_ok m m1 t it pre x post :
  wf m t -> plentiful m1 -> at_item t it pre x post ->
  match post with
  | [] => exists it', HTIteratorNext it t m1 = Ok ((0, it'), m1) /\ is_valid it' = false /\
            bucket_it it' = Some x.1
  | y :: post' => exists it' m', HTIteratorNext it t m1 = Ok ((1, it'), m') /\
      later m1 m' 0 /\ at_item t it' (pre ++ [x]) y post'
  end.
Proof.
  intros Hwf Hp (i & c1 & c2 & -> & Hi & -> & ->). unfold HTIteratorNext.
  cbn [is_valid negb bucket_num bucket_it]. step (bucket_at_ok t i _ m1 Hi).
  pose proof (at_item_node _ _ x i c1 c2 Hwf Hi).
  assert (Hlt : (i < length (buckets t))%nat) by (by eapply lookup_lt_Some). rewrite (wf_len _ _ Hwf) in Hlt.
  pose proof (wf_nb _ _ Hwf).
  destruct x as [n kv]. step (deref_it_split c1 n kv c2 m1 ltac:(done)).
  destruct c2 as [|[n2 kv2] c2]; cbn [snd head fmap option_fmap option_map].
  2:{ do 2 eexists. split; [reflexivity|]. split; [done|].
      exists i, (c1 ++ [(n, kv)]), c2. split_and!; [done| |by rewrite <- app_assoc|done].
      by rewrite <- app_assoc. }
  cbn [app]. rewrite (wf_take _ _ Hwf). replace (Z.of_nat i + 1) with (Z.of_nat (S i)) by lia.
  rewrite wrapu_small by lia. rewrite Nat2Z.id.
  destruct (Z.leb_spec (num_buckets t) (Z.of_nat (S i))) as [Hle|Hgt].
  { rewrite drop_ge; [|rewrite (wf_len _ _ Hwf); lia]. by eexists. }
  pose proof (first_nonempty_spec (drop (S i) (buckets t)) (S i)) as Hf.
  destruct (first_nonempty _ _) as [[z n2]|].
  - destruct Hf as (j & y & c & -> & -> & Hj & Hpre).
    rewrite (concat_split _ _ _ Hj), Hpre. cbn [app].
    destruct (release_ok 1 m1) as (m2 & R2 & L2). step R2.
    destruct (alloc_ok m2) as (m3 & R3 & L3 & _); [by eapply later_plentiful|]. step R3.
    do 2 eexists. split; [reflexivity|]. split; [by eapply later_trans|].
    rewrite lookup_drop in Hj. rewrite drop_drop.
    exists (S i + j)%nat, [], c. split_and!; [done|done| |].
    + rewrite app_nil_r. replace (S i + j)%nat with (S i + j)%nat by done.
      rewrite <- (take_take_drop (buckets t) (S i) j), concat_app, Hpre, app_nil_r.
      erewrite take_S_r by done. rewrite concat_app. cbn. by rewrite app_nil_r, <- app_assoc.
    + cbn. do 3 f_equal. lia.
  - rewrite Hf. by eexists.
Qed.

(** *** Allocation, release, growth *)

Lemma AllocateHashTable_loop_ok n done m :
  plentiful m -> exists m', AllocateHashTable_loop (V := V) n done m
      = Ok (Some (done ++ repeat [] n), m') /\ later m m' (Z.of_nat n).
Proof.
  revert done m; induction n as [|n IH]; intros bs m Hp; cbn [AllocateHashTable_loop repeat].
  - exists m. by rewrite app_nil_r.
  - destruct (alloc_ok m Hp) as (m1 & R1 & L1 & _). step R1.
    destruct (IH (bs ++ [[]]) m1) as (m2 & R2 & L2); [by eapply later_plentiful|].
    exists m2. rewrite R2, <- app_assoc. split; [done|]. eapply later_trans; [done..|lia].
Qed.

Definition empty_table (nb : Z) : HashTableRecord V := mkHT nb 0 (repeat [] (Z.to_nat nb)).

Lemma concat_repeat_nil {A} n : concat (repeat (@nil A) n) = [].
Proof. by induction n. Qed.

Lemma empty_table_ok nb m :
  0 < nb < 2 ^ 32 -> wf m (empty_table nb) /\ view (empty_table nb) = ∅ /\ items (empty_table nb) = [].
Proof.
  intros Hnb. assert (Hi : items (empty_table nb) = []) by apply concat_repeat_nil.
  split; [|by unfold view; rewrite Hi]. split; [done|cbn; apply repeat_length|by rewrite Hi|done|].
  intros i c Hc. cbn in Hc. apply list_elem_of_lookup_2, list_elem_of_In, repeat_spec in Hc. subst c.
  split; try constructor; by intros x ?%elem_of_nil.
Qed.

Lemma AllocateHashTable_ok nb m :
  0 < nb < 2 ^ 32 -> plentiful m ->
  exists m', AllocateHashTable nb m = Ok (Some (empty_table nb), m') /\
    later m m' (footprint (empty_table nb)).
Proof.
  intros Hnb Hp. unfold AllocateHashTable. rewrite (proj2 (Z.eqb_neq nb 0)) by lia.
  destruct (alloc_ok m Hp) as (m1 & R1 & L1 & _). step R1.
  destruct (alloc_ok m1) as (m2 & R2 & L2 & _); [by eapply later_plentiful|]. step R2.
  destruct (AllocateHashTable_loop_ok (Z.to_nat nb) [] m2) as (m3 & R3 & L3);
    [eapply later_plentiful; [exact L2|by eapply later_plentiful]|]. step R3.
  exists m3. split; [done|]. eapply later_trans; [exact L1| |].
  - by eapply later_trans.
  - unfold footprint. cbn. lia.
Qed.

(** [f] frees [cost v] blocks for the value [v]. *)
Definition frees (f : V -> M mem unit) (cost : V -> Z) : Prop :=
  forall v m, f v m = release (cost v) m.

Fixpoint costs (cost : V -> Z) (c : bucket V) : Z :=
  match c with [] => 0 | (_, kv) :: c' => cost (value kv) + costs cost c' end.

Lemma costs_app cost c1 c2 : costs cost (c1 ++ c2) = costs cost c1 + costs cost c2.
Proof. induction c1 as [|[n kv] c1 IH]; cbn; [done|]. rewrite IH. lia. Qed.

Lemma free_chain_ok f cost c m : frees f cost ->
  exists m', free_chain c f m = Ok (tt, m') /\
    later m m' (- (2 * Z.of_nat (length c) + costs cost c)).
Proof.
  intros Hf. revert m; induction c as [|[n kv] c IH]; intros m; cbn [free_chain length].
  - by exists m.
  - destruct (release_ok 1 m) as (m1 & R1 & L1). step R1.
    destruct (release_ok (cost (value kv)) m1) as (m2 & R2 & L2). rewrite <- Hf in R2. step R2.
    destruct (release_ok 1 m2) as (m3 & R3 & L3). step R3.
    destruct (IH m3) as (m4 & R4 & L4). exists m4. split; [done|].
    eapply later_trans; [exact L1| |].
    + eapply later_trans; [exact L2| |]; [by eapply later_trans|reflexivity].
    + cbn. lia.
Qed.

Lemma free_buckets_ok f cost bs m : frees f cost ->
  exists m', free_buckets bs f m = Ok (tt, m') /\
    later m m' (- (Z.of_nat (length bs) + 2 * Z.of_nat (length (concat bs)) + costs cost (concat bs))).
Proof.
  intros Hf. revert m; induction bs as [|c bs IH]; intros m; cbn [free_buckets length concat].
  - by exists m.
  - destruct (free_chain_ok f cost c m Hf) as (m1 & R1 & L1). step R1.
    destruct (release_ok 1 m1) as (m2 & R2 & L2). step R2.
    destruct (IH m2) as (m3 & R3 & L3). exists m3. split; [done|].
    eapply later_trans; [exact L1|by eapply later_trans|].
    rewrite costs_app, length_app. lia.
Qed.

Lemma FreeHashTable_ok f cost m m0 t : frees f cost -> wf m0 t ->
  exists m', FreeHashTable t f m = Ok (tt, m') /\
    later m m' (- (footprint t + costs cost (items t))).
Proof.
  intros Hf Hwf. unfold FreeHashTable. rewrite (wf_take _ _ Hwf).
  destruct (free_buckets_ok f cost (buckets t) m Hf) as (m1 & R1 & L1). step R1.
  destruct (release_ok 1 m1) as (m2 & R2 & L2). step R2.
  destruct (release_ok 1 m2) as (m3 & R3 & L3). exists m3. split; [done|].
  eapply later_trans; [exact L1|by eapply later_trans|].
  unfold footprint. pose proof (wf_len _ _ Hwf) as Hl. pose proof (wf_nb _ _ Hwf).
  rewrite (wf_ne _ _ Hwf), Hl. unfold items. lia.
Qed.

Lemma HTNullFree_ok : frees HTNullFree (fun _ => 0).
Proof. intros v m. unfold HTNullFree, release, ret. rewrite Z.sub_0_r. by destruct m. Qed.

Lemma costs_zero c : costs (fun _ => 0) c = 0.
Proof. induction c as [|[n kv] c IH]; cbn; [done|]. by rewrite IH. Qed.

(** The map of a chain, extended at its end by a new key. *)
Lemma chain_map_snoc c n (kv : HTKeyValue V) :
  key kv ∉ keys c -> chain_map (c ++ [(n, kv)]) = <[key kv := value kv]> (chain_map c).
Proof.
  intros Hk. apply map_eq. intros k. rewrite chain_map_lookup, find_kv_app. cbn.
  destruct (decide (key kv = k)) as [<-|Hne].
  - by rewrite lookup_insert_eq, (proj2 (find_kv_None _ _) Hk), Z.eqb_refl.
  - rewrite lookup_insert_ne by done. rewrite chain_map_lookup.
    destruct (find_kv c k); [done|]. by destruct (Z.eqb_spec (key kv) k).
Qed.

(** The copying loop, from any item on: everything behind the iterator is in
    the new table, which is big enough not to grow. *)
Lemma resize_loop_ok depth t m0 :
  wf m0 t -> num_elements t < 3 * (9 * num_buckets t) < 2 ^ 32 ->
  forall post fuel it pre x newt m,
  at_item t it pre x post -> (length post + 1 < fuel)%nat ->
  wf m newt -> plentiful m -> num_buckets newt = 9 * num_buckets t ->
  num_elements newt = Z.of_nat (length pre) -> view newt = chain_map pre ->
  exists it' newt' m', resize_loop (InsertHashTable (S depth)) fuel t it newt m
      = Ok ((true, it', newt'), m') /\
    is_Some (bucket_it it') /\ wf m' newt' /\ num_buckets newt' = 9 * num_buckets t /\
    num_elements newt' = num_elements t /\ view newt' = view t /\
    later m m' (footprint newt' - footprint newt).
Proof.
  intros Hwf Hsize post. induction post as [|y post IH];
    intros fuel it pre x newt m Hat Hfuel Hwfn Hp Hnb Hne Hv;
    (destruct fuel as [|fuel]; [lia|]); cbn [resize_loop];
    rewrite (HTIteratorPastEnd_ok _ _ _ _ _ Hat); cbn [Z.eqb negb];
    step (HTIteratorGet_ok _ m _ _ _ _ _ Hwf Hat); unfold Verify; cbn [Z.eqb Pos.eqb ensure get_or];
    rewrite !bind_ret.
  all: pose proof (at_item_items _ _ _ _ _ Hat) as Hitems;
    pose proof (items_keys _ _ Hwf) as Hk; rewrite Hitems in Hk;
    pose proof (wf_ne _ _ Hwf) as Hlen; rewrite Hitems, length_app in Hlen; cbn [length] in Hlen.
  all: destruct x as [n kv]; pose proof Hk as Hk'; apply nodup_keys_split in Hk' as (Hkx & _ & _).
  all: destruct (insert_at_size depth m newt kv) as (r & old & newt' & m' & HR & Hins & Hnb');
    [unfold ResizeHashtable; rewrite Hnb, (wrapu_small 32) by lia;
       by rewrite (proj2 (Z.ltb_lt _ _)) by lia|done|done|lia|].
  all: destruct Hins as (Hwf' & Hv' & Hcase & L); rewrite Hv in Hcase, Hv';
    rewrite chain_map_lookup, (proj2 (find_kv_None _ _) Hkx) in Hcase; cbn in Hcase;
    destruct Hcase as (-> & -> & Hne');
    cbn [snd]; step HR; cbn [Z.eqb Pos.eqb negb];
    pose proof (later_plentiful _ _ _ L Hp) as Hp';
    rewrite <- (chain_map_snoc pre n kv Hkx) in Hv';
    pose proof (HTIteratorNext_ok _ m' _ _ _ _ _ Hwf Hp' Hat) as HN; cbn iota beta in HN.
  - destruct HN as (it' & HN & Hval & Hit). step HN.
    destruct fuel as [|fuel]; [lia|]. cbn [resize_loop]. unfold HTIteratorPastEnd. rewrite Hval. cbn.
    do 3 eexists. split; [reflexivity|]. rewrite Hit. split_and!; [by eexists|done|congruence|lia| |done].
    rewrite Hv'. unfold view. by rewrite Hitems.
  - destruct HN as (it' & m2 & HN & L2 & Hat'). step HN.
    destruct (IH fuel it' (pre ++ [(n, kv)]) y newt' m2) as (it2 & t2 & m3 & HR2 & Hit & Hwf2 & Hnb2 & Hne2 & Hv2 & L3);
      try done.
    + cbn [length] in Hfuel. lia.
    + by eapply wf_later.
    + by eapply later_plentiful.
    + congruence.
    + rewrite length_app. cbn [length]. lia.
    + exists it2, t2, m3. split_and!; try done.
      eapply later_trans; [exact L|eapply later_trans; [exact L2|exact L3|reflexivity]|]. lia.
Qed.

Lemma ResizeHashtable_ok depth m t :
  wf m t -> plentiful m -> 3 * num_buckets t <= num_elements t < 27 * num_buckets t ->
  27 * num_buckets t < 2 ^ 32 ->
  exists t' m', ResizeHashtable (InsertHashTable (S depth)) t m = Ok (t', m') /\
    wf m' t' /\ view t' = view t /\ num_elements t' = num_elements t /\
    num_buckets t' = 9 * num_buckets t /\ later m m' (footprint t' - footprint t).
Proof.
  intros Hwf Hp Hload Hsize. pose proof (wf_nb _ _ Hwf). unfold ResizeHashtable.
  rewrite (wrapu_small 32) by lia. rewrite (proj2 (Z.ltb_ge _ _)) by lia.
  rewrite (wrapu_small 32) by lia.
  destruct (AllocateHashTable_ok (num_buckets t * 9) m) as (m1 & R1 & L1); [lia|done|]. step R1.
  destruct (empty_table_ok (num_buckets t * 9) m1) as (Hwfe & Hve & Hie); [lia|].
  destruct (HashTableMakeIterator_ok m1 t) as (it & m2 & R2 & Hit);
    [by eapply wf_later|by eapply later_plentiful|]. step R2.
  pose proof (wf_ne _ _ Hwf) as Hlen. fold (items t).
  destruct (items t) as [|x post] eqn:Hitems; [cbn [length] in Hlen; lia|].
  destruct Hit as [Hat L2]. cbn [length] in Hlen.
  destruct (resize_loop_ok depth t m Hwf ltac:(lia) post (S (length (x :: post))) it [] x
    (empty_table (num_buckets t * 9)) m2) as (it' & newt & m3 & R3 & Hbi & Hwf3 & Hnb3 & Hne3 & Hv3 & L3);
    [done|cbn [length]; lia|by eapply wf_later| |cbn; lia|done|done|].
  { eapply later_plentiful; [exact L2|by eapply later_plentiful]. }
  step R3. cbn [negb]. unfold HTIteratorFree. destruct Hbi as [b ->].
  rewrite bind_assoc. destruct (release_ok 1 m3) as (m4 & R4 & L4). step R4.
  destruct (release_ok 1 m4) as (m5 & R5 & L5). step R5.
  destruct (FreeHashTable_ok HTNullFree (fun _ => 0) m5 m t HTNullFree_ok Hwf) as (m6 & R6 & L6). step R6.
  rewrite costs_zero in L6.
  assert (L36 : later m3 m6 (- 2 - footprint t)).
  { eapply later_trans; [exact L4|eapply later_trans; [exact L5|exact L6|reflexivity]|lia]. }
  exists newt, m6. split_and!; try done; [by eapply wf_later|].
  eapply later_trans; [exact L1|eapply later_trans; [exact L2|by eapply later_trans|reflexivity]|lia].
Qed.

(** ** The properties of the table *)

Lemma InsertHashTable_ok depth m t kv :
  wf m t -> plentiful m -> num_elements t <= 3 * num_buckets t -> 27 * num_buckets t < 2 ^ 32 ->
  exists r old t' m', InsertHashTable (S (S depth)) t kv m = Ok ((r, old, t'), m') /\
    inserted m t kv r old t' m' /\ num_elements t' <= 3 * num_buckets t' /\
    num_buckets t' = num_buckets t * (if num_elements t =? 3 * num_buckets t then 9 else 1).
Proof.
  intros Hwf Hp Hload Hsize. pose proof (wf_nb _ _ Hwf) as Hnb.
  assert (Hgo : forall m1 t1, ResizeHashtable (InsertHashTable (S depth)) t m = Ok (t1, m1) ->
    ResizeHashtable (InsertHashTable (S depth)) t1 m1 = Ok (t1, m1) ->
    InsertHashTable (S (S depth)) t kv m = InsertHashTable (S (S depth)) t1 kv m1).
  { intros m1 t1 H1 H2. cbn [InsertHashTable]. by rewrite (bind_ok _ _ _ _ _ H1), (bind_ok _ _ _ _ _ H2). }
  assert (Hstay : forall m1 t1, num_buckets t1 * 3 < 2 ^ 32 -> 0 < num_buckets t1 ->
    num_elements t1 < 3 * num_buckets t1 ->
    ResizeHashtable (InsertHashTable (S depth)) t1 m1 = Ok (t1, m1)).
  { intros m1 t1 ? ? ?. unfold ResizeHashtable. rewrite (wrapu_small 32) by lia.
    by rewrite (proj2 (Z.ltb_lt _ _)) by lia. }
  destruct (Z.eqb_spec (num_elements t) (3 * num_buckets t)) as [Hfull|Hroom].
  - destruct (ResizeHashtable_ok depth m t Hwf Hp ltac:(lia) Hsize)
      as (t1 & m1 & R1 & Hwf1 & Hv1 & Hne1 & Hnb1 & L1).
    rewrite (Hgo m1 t1 R1) by (apply Hstay; lia).
    destruct (insert_at_size (S depth) m1 t1 kv) as (r & old & t' & m' & HR & Hins & Hnb');
      [apply Hstay; lia|done|by eapply later_plentiful|lia|].
    exists r, old, t', m'. split; [done|]. destruct Hins as (Hwf' & Hv' & Hcase & L).
    rewrite Hv1 in Hv', Hcase. split; [|split; [destruct (view t !! key kv); lia|lia]].
    split; [done|]. split; [done|]. split; [by destruct (view t !! key kv); rewrite <- Hne1|].
    eapply later_trans; [exact L1|exact L|lia].
  - destruct (insert_at_size (S depth) m t kv) as (r & old & t' & m' & HR & Hins & Hnb');
      [apply Hstay; lia|done|done|lia|].
    exists r, old, t', m'. split; [done|]. split; [done|].
    destruct Hins as (_ & _ & Hcase & _). split; [destruct (view t !! key kv); lia|lia].
Qed.

(** C18: while memory lasts, [InsertHashTable] on a table that keeps its load
    at most 3 returns, at nesting depth two: it binds the key to the value in
    the table's map, whether or not the table had to grow, returns 1 for a new
    key and 2 with the old pair for a bound one, keeps the table well formed
    and its load at most 3, and allocates exactly what the table now holds. *)
Theorem InsertHashTable_spec depth m t kv :
  wf m t -> plentiful m -> num_elements t <= 3 * num_buckets t -> 27 * num_buckets t < 2 ^ 32 ->
  exists r old t' m', InsertHashTable (S (S depth)) t kv m = Ok ((r, old, t'), m') /\
    inserted m t kv r old t' m' /\ num_elements t' <= 3 * num_buckets t' /\
    num_buckets t' = num_buckets t * (if num_elements t =? 3 * num_buckets t then 9 else 1).
Proof. intros Hwf Hp Hload Hsize. by apply InsertHashTable_ok. Qed.

(** C19: [LookupHashTable] returns 1 with the bound pair, or 0, as the map
    says; [RemoveFromHashTable] does too and deletes the key from the map. *)
Theorem Lookup_Remove_spec m t k :
  wf m t -> plentiful m ->
  (exists m', LookupHashTable t k m =
      Ok (match view t !! k with Some v => (1, Some (mkKV k v)) | None => (0, None) end, m') /\
    later m m' 0) /\
  (exists m' t', RemoveFromHashTable t k m =
      Ok (match view t !! k with Some v => (1, Some (mkKV k v), t') | None => (0, None, t') end, m') /\
    wf m' t' /\ view t' = delete k (view t) /\ num_buckets t' = num_buckets t /\
    later m m' (footprint t' - footprint t)).
Proof.
  intros Hwf Hp. split; [by apply LookupHashTable_ok|].
  destruct (RemoveFromHashTable_ok m t k Hwf Hp) as (m' & r & old & t' & HR & H1 & H2 & H3 & H4 & Hcase).
  exists m', t'. split_and!; try done. rewrite HR.
  destruct (view t !! k); [by destruct Hcase as (-> & -> & _)|by destruct Hcase as (-> & -> & _)].
Qed.

(** an iterator made on a table stands on its first pair, gets each pair
    in turn and moves on until it is past the end, so that it walks the items
    of the table, whose keys are all different, in order, each exactly once. *)
Theorem HTIterator_walks m t :
  wf m t -> plentiful m ->
  NoDup (keys (items t)) /\
  (exists it m', HashTableMakeIterator t m = Ok (Some it, m') /\
     match items t with
     | [] => HTIteratorPastEnd it = 1
     | x :: post => at_item t it [] x post
     end) /\
  (forall it pre x post, at_item t it pre x post ->
     items t = pre ++ x :: post /\
     HTIteratorPastEnd it = 0 /\ HTIteratorGet it t m = Ok ((1, Some x.2), m) /\
     match post with
     | [] => exists it', HTIteratorNext it t m = Ok ((0, it'), m) /\ HTIteratorPastEnd it' = 1
     | y :: post' => exists it' m', HTIteratorNext it t m = Ok ((1, it'), m') /\
         later m m' 0 /\ at_item t it' (pre ++ [x]) y post'
     end).
Proof.
  intros Hwf Hp. split; [by eapply items_keys|split].
  - destruct (HashTableMakeIterator_ok m t Hwf Hp) as (it & m' & HR & Hit). exists it, m'.
    split; [done|]. destruct (items t); [by destruct Hit as [-> _]|by destruct Hit].
  - intros it pre x post Hat. split_and!.
    + by eapply at_item_items.
    + by eapply HTIteratorPastEnd_ok.
    + by eapply HTIteratorGet_ok.
    + pose proof (HTIteratorNext_ok m m t it pre x post Hwf Hp Hat) as HN.
      destruct post; [|done]. destruct HN as (it' & HR & Hv & _). exists it'. split; [done|].
      unfold HTIteratorPastEnd. by rewrite Hv.
Qed.


Lemma unique_split pre1 x1 post1 pre2 x2 post2 :
  NoDup (keys (pre1 ++ x1 :: post1)) -> pre1 ++ x1 :: post1 = pre2 ++ x2 :: post2 ->
  key x1.2 = key x2.2 -> pre1 = pre2 /\ x1 = x2 /\ post1 = post2.
Proof.
  revert pre2; induction pre1 as [|y pre1 IH]; intros [|z pre2] Hnd E Hk; cbn in *;
    injection E as E1 E2; subst; [done| | |].
  - apply NoDup_cons in Hnd as [Hn _]. destruct Hn. apply list_elem_of_fmap. exists x2.
    split; [done|]. apply elem_of_app. right. by left.
  - apply NoDup_cons in Hnd as [Hn _]. destruct Hn. apply list_elem_of_fmap. exists x1.
    split; [done|]. apply elem_of_app. right. by left.
  - apply NoDup_cons in Hnd as [_ Hnd]. destruct (IH pre2 Hnd E2 Hk) as (-> & -> & ->). done.
Qed.

Lemma concat_take_insert (bs : list (bucket V)) (i j : nat) c c' :
  bs !! i = Some c -> (i < j)%nat -> exists a b,
    concat (take j bs) = a ++ c ++ b /\ concat (take j (<[i := c']> bs)) = a ++ c' ++ b /\
    a = concat (take i bs).
Proof.
  intros Hi Hij. rewrite take_insert_lt by done.
  assert (Hi' : take j bs !! i = Some c) by (by rewrite lookup_take_lt).
  exists (concat (take i bs)), (concat (drop (S i) (take j bs))).
  rewrite (concat_split _ _ _ Hi').
  assert (Hins : <[i := c']> (take j bs) !! i = Some c')
    by (apply list_lookup_insert_eq; by eapply lookup_lt_Some).
  rewrite (concat_split _ _ _ Hins), take_insert_ge by done. rewrite drop_insert_lt by lia.
  by rewrite take_take, Nat.min_l by lia.
Qed.

(** Removing the pair behind an iterator leaves the iterator in place. *)
Lemma at_item_behind_removed t t' it' pre x y post (i : nat) c1 c2 :
  at_item t it' (pre ++ [x]) y post ->
  buckets t !! i = Some (c1 ++ x :: c2) -> pre = concat (take i (buckets t)) ++ c1 ->
  buckets t' = <[i := c1 ++ c2]> (buckets t) -> at_item t' it' pre y post.
Proof.
  intros (j & d1 & d2 & -> & Hj & Hpre & ->) Hi -> Ht'. unfold at_item. rewrite Ht'.
  assert (Hlt : (i < length (buckets t))%nat) by (by eapply lookup_lt_Some).
  destruct (lt_eq_lt_dec i j) as [[Hij| ->]|Hji].
  - destruct (concat_take_insert _ i j _ (c1 ++ c2) Hi Hij) as (a & b & Ha & Hb & ->).
    rewrite Ha in Hpre. rewrite <- !app_assoc in Hpre.
    apply app_inv_head, app_inv_head in Hpre. cbn in Hpre. injection Hpre as Hpre.
    symmetry in Hpre. apply app_nil in Hpre as [-> Hpre]. apply app_nil in Hpre as [-> ->].
    exists j, [], d2. rewrite list_lookup_insert_ne by lia. rewrite drop_insert_lt by lia.
    split_and!; try done. rewrite app_nil_r. etransitivity; [|symmetry; exact Hb].
    by rewrite !app_nil_r.
  - rewrite <- app_assoc in Hpre. apply app_inv_head in Hpre. subst d1.
    rewrite Hi in Hj. injection Hj as Hj. rewrite <- app_assoc in Hj.
    apply app_inv_head in Hj. injection Hj as ->.
    exists j, c1, d2. rewrite list_lookup_insert_eq by done.
    rewrite take_insert_ge, drop_insert_lt by lia. done.
  - exfalso. destruct (concat_take_insert _ j i _ [] Hj Hji) as (a & b & Ha & _ & ->).
    rewrite Ha in Hpre. apply (f_equal length) in Hpre.
    rewrite !length_app in Hpre. cbn [length] in Hpre. lia.
Qed.

Lemma items_remove t t' pre x post (i : nat) c1 c2 :
  buckets t !! i = Some (c1 ++ x :: c2) -> pre = concat (take i (buckets t)) ++ c1 ->
  post = c2 ++ concat (drop (S i) (buckets t)) ->
  buckets t' = <[i := c1 ++ c2]> (buckets t) -> items t' = pre ++ post.
Proof.
  intros Hi -> -> Ht'. unfold items. rewrite Ht'.
  assert (Hins : <[i := c1 ++ c2]> (buckets t) !! i = Some (c1 ++ c2))
    by (apply list_lookup_insert_eq; by eapply lookup_lt_Some).
  rewrite (concat_split _ _ _ Hins), take_insert_ge, drop_insert_lt by lia.
  by rewrite <- !app_assoc.
Qed.

Lemma HTIteratorDelete_ok m t it pre x post :
  wf m t -> plentiful m -> at_item t it pre x post ->
  exists m' r it' t', HTIteratorDelete it t m = Ok ((r, Some x.2, it', t'), m') /\
    wf m' t' /\ items t' = pre ++ post /\ view t' = delete (key x.2) (view t) /\
    num_buckets t' = num_buckets t /\
    later m m' (footprint t' - footprint t) /\
    match post with
    | [] => r = 2 /\ HTIteratorPastEnd it' = 1
    | y :: post' => r = 1 /\ at_item t' it' pre y post'
    end.
Proof.
  intros Hwf Hp Hat. unfold HTIteratorDelete. step (HTIteratorGet_ok m m t it pre x post Hwf Hat).
  pose proof (HTIteratorNext_ok m m t it pre x post Hwf Hp Hat) as HN.
  assert (exists r it' m1, HTIteratorNext it t m = Ok ((r, it'), m1) /\ later m m1 0 /\
    match post with
    | [] => r = 0 /\ HTIteratorPastEnd it' = 1
    | y :: post' => r = 1 /\ at_item t it' (pre ++ [x]) y post'
    end) as (r & it' & m1 & HR & L1 & Hcase).
  { destruct post.
    - destruct HN as (it' & HR & Hv & _). exists 0, it', m. unfold HTIteratorPastEnd. by rewrite Hv.
    - destruct HN as (it' & m1 & HR & L1 & Hat'). by exists 1, it', m1. }
  clear HN. step HR. pose proof (wf_later _ _ _ _ Hwf L1) as Hwf1.
  destruct (RemoveFromHashTable_ok m1 t (key x.2) Hwf1) as
    (m2 & r2 & old & t' & HR2 & Hwf2 & Hv2 & Hnb2 & L2 & Hcase2); [by eapply later_plentiful|].
  step HR2. pose proof (at_item_items _ _ _ _ _ Hat) as Hitems.
  pose proof (items_keys _ _ Hwf) as Hnd. rewrite Hitems in Hnd.
  assert (Hview : view t !! key x.2 = Some (value x.2)).
  { unfold view. rewrite Hitems, chain_map_lookup, find_kv_app. destruct x as [n kv].
    apply nodup_keys_split in Hnd as (Hn & _ & _). cbn in *.
    by rewrite (proj2 (find_kv_None _ _) Hn), Z.eqb_refl. }
  rewrite Hview in Hcase2. destruct Hcase2 as (-> & -> & i & p & n & kv & q & Hi & Hb & Hk & Hb').
  destruct Hat as (i0 & c1 & c2 & Eit & Hb0 & Hpre & Hpost).
  assert (Hii : i0 = i).
  { destruct (wf_bucket _ _ Hwf _ _ Hb0) as [_ _ Hs _].
    assert (Hx : key x.2 mod num_buckets t = Z.of_nat i0) by (apply Hs; set_solver).
    unfold HashKeyToBucketNum in Hi. lia. }
  subst i0. rewrite Hb in Hb0. injection Hb0 as Hb0.
  destruct (wf_bucket _ _ Hwf _ _ Hb) as [_ Hndk _ _].
  destruct (unique_split p (n, kv) q c1 x c2 Hndk Hb0 Hk) as (-> & Ex & ->).
  rewrite Ex in Hb. unfold Verify. cbn [Z.eqb Pos.eqb ensure get_or key value].
  rewrite !bind_ret, Z.eqb_refl, bool_decide_true by done. cbn [ensure]. rewrite !bind_ret.
  exists m2, (if r =? 0 then 2 else 1), it', t'. split_and!.
  - by destruct x as [? []].
  - done.
  - by eapply (items_remove t t' pre x post i c1 c2).
  - done.
  - done.
  - by eapply later_trans.
  - destruct post as [|y post']; [by destruct Hcase as [-> ?]|].
    destruct Hcase as [-> Hat']. split; [done|]. by eapply at_item_behind_removed.
Qed.

(** [HTIteratorDelete] returns the pair under the iterator and removes it
    from the table and its map, and moves the iterator on to the next pair
    (returning 1), or past the end when there is none (returning 2). *)
Theorem HTIteratorDelete_spec m t it pre x post :
  wf m t -> plentiful m -> at_item t it pre x post ->
  exists m' r it' t', HTIteratorDelete it t m = Ok ((r, Some x.2, it', t'), m') /\
    wf m' t' /\ items t' = pre ++ post /\ view t' = delete (key x.2) (view t) /\
    num_buckets t' = num_buckets t /\
    later m m' (footprint t' - footprint t) /\
    match post with
    | [] => r = 2 /\ HTIteratorPastEnd it' = 1
    | y :: post' => r = 1 /\ at_item t' it' pre y post'
    end.
Proof. intros Hwf Hp Hat. by apply HTIteratorDelete_ok. Qed.

(** [AllocateHashTable] makes a well-formed empty table of any positive
    size, and [FreeHashTable] calls the value function on the value of each
    pair exactly once, and gives back all the blocks of the table and no
    others. *)
Theorem table_lifetime m m0 t nb f cost :
  plentiful m -> 0 < nb < 2 ^ 32 -> wf m0 t -> frees f cost ->
  (exists t' m', AllocateHashTable nb m = Ok (Some t', m') /\ wf m' t' /\ view t' = ∅ /\
     num_buckets t' = nb /\ num_elements t' = 0 /\ later m m' (footprint t')) /\
  (exists m', FreeHashTable t f m = Ok (tt, m') /\
     later m m' (- (footprint t + costs cost (items t)))).
Proof.
  intros Hp Hnb Hwf Hf. split; [|by eapply FreeHashTable_ok].
  destruct (AllocateHashTable_ok nb m Hnb Hp) as (m' & HR & L).
  destruct (empty_table_ok nb m' Hnb) as (Hw & Hv & _). by exists (empty_table nb), m'.
Qed.

Lemma AllocateHashTable_loop_oom n done m (i : nat) :
  (i < n)%nat -> fails m (mallocs m + i)%nat = true ->
  (forall j, (j < i)%nat -> fails m (mallocs m + j)%nat = false) ->
  exists m', AllocateHashTable_loop (V := V) n done m = Ok (None, m') /\
    live m' = live m - Z.of_nat (length done).
Proof.
  revert done m i; induction n as [|n IH]; intros bs m i Hi Hf Hok; [lia|].
  cbn [AllocateHashTable_loop]. unfold alloc, bind at 1. destruct i as [|i].
  - rewrite Nat.add_0_r in Hf. rewrite Hf. eexists. split; [reflexivity|]. cbn. lia.
  - pose proof (Hok 0%nat ltac:(lia)) as H0. rewrite Nat.add_0_r in H0. rewrite H0.
    edestruct (IH (bs ++ [[]]) (mkMem (Pos.succ (next_id m)) (fails m) (S (mallocs m)) (live m + 1)) i)
      as (m' & HR & HL); cbn.
    + lia.
    + by rewrite <- Nat.add_succ_comm in Hf.
    + intros j Hj. specialize (Hok (S j) ltac:(lia)). by rewrite <- Nat.add_succ_comm in Hok.
    + exists m'. split; [exact HR|]. rewrite HL, length_app. cbn. lia.
Qed.

(** When allocating the list of some bucket fails, [AllocateHashTable]
    returns [NULL] with one block, the bucket array, never freed. *)
Theorem AllocateHashTable_leaks m nb (i : nat) :
  0 < nb -> Z.of_nat i < nb -> fails m (mallocs m + 2 + i)%nat = true ->
  (forall j, (j < 2 + i)%nat -> fails m (mallocs m + j)%nat = false) ->
  exists m', AllocateHashTable (V := V) nb m = Ok (None, m') /\ live m' = live m + 1.
Proof.
  intros Hnb Hi Hf Hok. unfold AllocateHashTable. rewrite (proj2 (Z.eqb_neq nb 0)) by lia.
  pose proof (Hok 0%nat ltac:(lia)) as H0. pose proof (Hok 1%nat ltac:(lia)) as H1.
  rewrite Nat.add_0_r in H0. rewrite Nat.add_1_r in H1.
  unfold alloc at 1, bind at 1. rewrite H0. unfold alloc at 1, bind at 1.
  cbn [fails mallocs next_id live]. rewrite H1.
  edestruct (AllocateHashTable_loop_oom (Z.to_nat nb) []
    (mkMem (Pos.succ (Pos.succ (next_id m))) (fails m) (S (S (mallocs m))) (live m + 1 + 1)) i)
    as (m' & HR & HL); cbn [fails mallocs].
  - lia.
  - rewrite <- Hf. f_equal. lia.
  - intros j Hj. rewrite <- (Hok (2 + j)%nat) by lia. f_equal. lia.
  - step HR. eexists. split; [reflexivity|]. cbn in *. lia.
Qed.

(** When the node of a new pair, going to an empty bucket, cannot be allocated, [InsertHashTable]
    still returns 1 and counts the pair, but the table's chains, and so its
    map, are what they were: the count is wrong from then on. *)
Theorem InsertHashTable_drops depth m t kv (i : nat) :
  wf m t -> HashKeyToBucketNum t (key kv) = Z.of_nat i -> buckets t !! i = Some [] ->
  num_elements t < 3 * num_buckets t < 2 ^ 32 ->
  fails m (mallocs m) = false -> fails m (S (mallocs m)) = true ->
  exists t' m', InsertHashTable (S depth) t kv m = Ok ((1, None, t'), m') /\
    view t' = view t /\ num_elements t' = num_elements t + 1 /\ ~ wf m' t'.
Proof.
  intros Hwf H0 Hb Hsize Hok Hf. cbn [InsertHashTable]. unfold ResizeHashtable at 1.
  rewrite (wrapu_small 32) by (pose proof (wf_nb _ _ Hwf); lia). rewrite (proj2 (Z.ltb_lt _ _)) by lia.
  rewrite bind_ret, H0. step (bucket_at_ok t i [] m Hb). unfold FindKVInHashTable. cbn [length Nat.eqb].
  rewrite bind_ret. unfold alloc at 1, bind at 1. rewrite Hok. unfold Verify.
  rewrite bool_decide_true by (by eexists). cbn [ensure]. rewrite bind_ret.
  unfold alloc at 1, bind at 1. cbn [fails mallocs next_id live]. rewrite Hf.
  assert (Hu : u32 (num_elements t + 1) = num_elements t + 1).
  { apply wrapu_small. pose proof (wf_ne _ _ Hwf). lia. }
  assert (Hsame : set_bucket t (Z.of_nat i) [] (u32 (num_elements t + 1)) =
    mkHT (num_buckets t) (num_elements t + 1) (buckets t)).
  { unfold set_bucket. rewrite Hu, Nat2Z.id. f_equal. by apply list_insert_id. }
  do 2 eexists. split; [reflexivity|]. rewrite Hsame. split_and!; [done|done|].
  intros Hw. pose proof (wf_ne _ _ Hw) as Hne. pose proof (wf_ne _ _ Hwf).
  unfold items in *. cbn in Hne. lia.
Qed.

End Spec.

(** * The hash table, part 3: concrete tables on which its theorems apply, and
    the runs on which a failing [malloc] makes it lose pairs. *)
Open Scope Z_scope.

Definition plenty : mem := mkMem 10 (fun _ => false) 0 0.
Definition small : HashTableRecord Z :=
  mkHT 2 3 [[(4%positive, mkKV 0 100); (5%positive, mkKV 2 102)]; [(6%positive, mkKV 1 101)]].
Definition full : HashTableRecord Z :=
  mkHT 1 3 [[(4%positive, mkKV 0 100); (5%positive, mkKV 2 102); (6%positive, mkKV 1 101)]].

(** Checks well-formedness of a table by evaluation. *)
Definition check_bucket (nb : Z) (fresh : positive) (i : nat) (c : bucket Z) : bool :=
  bool_decide (NoDup c.*1) && bool_decide (NoDup ((fun x => key x.2) <$> c)) &&
  bool_decide (Forall (fun x => key x.2 mod nb = Z.of_nat i) c) &&
  bool_decide (Forall (fun x => (x.1 < fresh)%positive) c).
Definition check (m : mem) (t : HashTableRecord Z) : bool :=
  (0 <? num_buckets t) && (num_buckets t <? 2 ^ 32) &&
  (length (buckets t) =? Z.to_nat (num_buckets t))%nat &&
  (num_elements t =? Z.of_nat (length (items t))) && (num_elements t <? 2 ^ 32) &&
  forallb (fun x => x) (imap (check_bucket (num_buckets t) (next_id m)) (buckets t)).

Lemma check_wf m t : check m t = true -> wf m t.
Proof.
  unfold check. rewrite !andb_true_iff, !Z.ltb_lt, Nat.eqb_eq, Z.eqb_eq.
  intros [[[[[? ?] ?] ?] ?] HF]. split; try done. intros i c Hc.
  rewrite forallb_forall in HF. specialize (HF (check_bucket (num_buckets t) (next_id m) i c)).
  assert (Hin : check_bucket (num_buckets t) (next_id m) i c
    ∈ imap (check_bucket (num_buckets t) (next_id m)) (buckets t)).
  { apply list_elem_of_lookup. exists i. by rewrite list_lookup_imap, Hc. }
  apply list_elem_of_In in Hin. apply HF in Hin. unfold check_bucket in Hin.
  rewrite !andb_true_iff in Hin. rewrite !bool_decide_eq_true in Hin. destruct Hin as [[[? ?] Hs] Hf].
  rewrite Forall_forall in Hs, Hf. split; auto.
Qed.

Lemma plenty_ok : plentiful plenty.
Proof. by intros n. Qed.
Lemma small_ok : wf plenty small.
Proof. apply check_wf. vm_compute. done. Qed.
Lemma full_ok : wf plenty full.
Proof. apply check_wf. vm_compute. done. Qed.

(** A table that has to grow to take one more pair. *)
Lemma InsertHashTable_spec_witness : exists old t' m',
  InsertHashTable 2 full (mkKV 7 107) plenty = Ok ((1, old, t'), m') /\
  view t' = <[7 := 107]> (view full) /\ num_buckets t' = 9.
Proof.
  destruct (InsertHashTable_spec 0 plenty full (mkKV 7 107) full_ok plenty_ok) as
    (r & old & t' & m' & HR & Hins & _ & Hnb); [discriminate|reflexivity|].
  destruct Hins as (_ & Hv & Hcase & _). exists old, t', m'.
  assert (Hnone : view full !! 7 = None) by reflexivity. cbn [key] in Hcase. rewrite Hnone in Hcase.
  destruct Hcase as (-> & _). split; [exact HR|]. split; [exact Hv|exact Hnb].
Defined.

Lemma Lookup_Remove_spec_witness : exists m' t',
  RemoveFromHashTable small 2 plenty = Ok ((1, Some (mkKV 2 102), t'), m') /\
  view t' = delete 2 (view small).
Proof.
  destruct (Lookup_Remove_spec plenty small 2 small_ok plenty_ok) as [_ (m' & t' & HR & _ & Hv & _)].
  exists m', t'. split; [exact HR|exact Hv].
Defined.

Lemma HTIterator_walks_witness : exists it m',
  HashTableMakeIterator small plenty = Ok (Some it, m') /\
  at_item small it [] (4%positive, mkKV 0 100) [(5%positive, mkKV 2 102); (6%positive, mkKV 1 101)].
Proof.
  destruct (HTIterator_walks plenty small small_ok plenty_ok) as (_ & (it & m' & HR & Hit) & _).
  exists it, m'. split; [exact HR|exact Hit].
Defined.

Lemma small_at : at_item small (mkHTIter true 0 (Some 5%positive)) [(4%positive, mkKV 0 100)]
  (5%positive, mkKV 2 102) [(6%positive, mkKV 1 101)].
Proof. exists 0%nat, [(4%positive, mkKV 0 100)], []. done. Qed.

Lemma HTIteratorDelete_spec_witness : exists m' it' t',
  HTIteratorDelete (mkHTIter true 0 (Some 5%positive)) small plenty
    = Ok ((1, Some (mkKV 2 102), it', t'), m') /\
  at_item t' it' [(4%positive, mkKV 0 100)] (6%positive, mkKV 1 101) [].
Proof.
  destruct (HTIteratorDelete_spec plenty small _ _ _ _ small_ok plenty_ok small_at)
    as (m' & r & it' & t' & HR & _ & _ & _ & _ & _ & -> & Hat).
  exists m', it', t'. split; [exact HR|exact Hat].
Defined.

Lemma release_frees : frees (fun _ : Z => release 1) (fun _ => 1).
Proof. by intros v m. Qed.

Lemma table_lifetime_witness : exists m',
  FreeHashTable small (fun _ => release 1) plenty = Ok (tt, m') /\ later plenty m' (-13).
Proof.
  assert (H5 : 0 < 5 < 2 ^ 32) by (split; reflexivity).
  destruct (table_lifetime plenty plenty small 5 _ _ plenty_ok H5 small_ok release_frees) as [_ HF].
  exact HF.
Defined.

(** The [malloc]s from number [n] on fail. *)
Definition scarce (n : nat) : mem := mkMem 10 (fun i => (n <=? i)%nat) 0 0.

Lemma AllocateHashTable_leaks_witness : exists m',
  AllocateHashTable (V := Z) 5 (scarce 4) = Ok (None, m') /\ live m' = 1.
Proof.
  apply (AllocateHashTable_leaks (V := Z) (scarce 4) 5 2); [reflexivity|reflexivity|reflexivity|].
  intros j Hj. apply Nat.leb_gt. change (mallocs (scarce 4)) with 0%nat. lia.
Defined.

Definition half : HashTableRecord Z := mkHT 2 1 [[]; [(4%positive, mkKV 1 101)]].
Lemma half_ok : wf (scarce 1) half.
Proof. apply check_wf. vm_compute. done. Qed.

Lemma InsertHashTable_drops_witness : exists t' m',
  InsertHashTable 1 half (mkKV 6 106) (scarce 1) = Ok ((1, None, t'), m') /\
  view t' = view half /\ num_elements t' = 2.
Proof.
  destruct (InsertHashTable_drops 0 (scarce 1) half (mkKV 6 106) 0 half_ok) as (t' & m' & HR & Hv & Hn & _);
    [reflexivity|reflexivity|split; reflexivity|reflexivity|reflexivity|].
  exists t', m'. split; [exact HR|]. split; [exact Hv|exact Hn].
Defined.

(** A single failing [malloc], of the iterator that crosses to the second
    bucket while the table grows, loses every pair of that bucket although
    [InsertHashTable] reports success. *)
Definition once (k : nat) : mem := mkMem 100 (fun i => (i =? k)%nat) 0 0.
Definition two_buckets : HashTableRecord Z :=
  mkHT 2 6 [[(4%positive, mkKV 0 100); (5%positive, mkKV 2 102); (7%positive, mkKV 4 104)];
            [(6%positive, mkKV 1 101); (8%positive, mkKV 3 103); (9%positive, mkKV 5 105)]].

Example growing_loses_pairs :
  match InsertHashTable 3 two_buckets (mkKV 7 107) (once 28) with
  | Ok ((r, _, t'), _) => r = 1 /\ num_elements t' = 4 /\
      view two_buckets !! 3 = Some 103 /\ view t' !! 3 = None
  | Err _ => False
  end.
Proof. vm_compute. done. Qed.
