(* ===== verification/Table.v ===== *)
(** The interface between the hash table and its clients in hw2: the operations
    [HashTable.h] exports, as a class, and the promises the clients rely on, as
    a class of laws.  The clients' definitions and theorems are stated against
    these two classes; the last section shows that the table of [HashTable]
    keeps the promises. *)
From S2P Require Import Prelude Alloc HashTable HashTableSpec.
Open Scope Z_scope.

Class TableOps (V : Type) := {
  table : Type;
  titer : Type;
  t_alloc : Z -> M mem (option table);
  t_free : table -> (V -> M mem unit) -> M mem unit;
  t_num : table -> Z;
  t_insert : table -> Z -> V -> M mem (Z * option (Z * V) * table);
  t_lookup : table -> Z -> M mem (Z * option (Z * V));
  t_iter : table -> M mem (option titer);
  t_iter_free : titer -> M mem unit;
  t_get : titer -> table -> M mem (Z * option (Z * V));
  t_next : titer -> table -> M mem (Z * titer);
  t_delete : titer -> table -> M mem (Z * option (Z * V) * titer * table)
}.

(** [m'] is a later state of the allocator than [m]. *)
Definition after (m m' : mem) : Prop := exists d, later m m' d.

#[export] Instance after_preorder : PreOrder after.
Proof.
  split; [by intros m; exists 0|].
  intros m1 m2 m3 [d1 H1] [d2 H2]. exists (d1 + d2). by eapply later_trans.
Qed.

Lemma after_plentiful m m' : after m m' -> plentiful m -> plentiful m'.
Proof. intros [d Hd]. by eapply later_plentiful. Qed.

Lemma alloc_after m : plentiful m -> exists p m', alloc m = Ok (Some p, m') /\ after m m'.
Proof.
  intros Hp. destruct (alloc_ok m Hp) as (m' & HR & HL & _).
  exists (next_id m), m'. split; [done|by eexists].
Qed.

Lemma release_after n m : exists m', release n m = Ok (tt, m') /\ after m m'.
Proof. destruct (release_ok n m) as (m' & HR & HL). exists m'. split; [done|by eexists]. Qed.

(** More pairs than this are not promised to fit: growing to nine times the
    buckets would overflow the 32-bit bucket count. *)
Definition capacity : Z := 2 ^ 24.

(** [t_rep m t kvs]: in state [m], [t] holds the pairs [kvs], in the order its
    iterators walk them. *)
Class TableLaws (V : Type) {O : TableOps V} := {
  t_rep : mem -> table -> list (Z * V) -> Prop;
  t_at : table -> titer -> list (Z * V) -> (Z * V) -> list (Z * V) -> Prop;
  t_rep_nodup : forall m t kvs, t_rep m t kvs -> NoDup kvs.*1;
  t_rep_num : forall m t kvs, t_rep m t kvs -> t_num t = Z.of_nat (length kvs);
  t_rep_after : forall m m' t kvs, t_rep m t kvs -> after m m' -> t_rep m' t kvs;
  t_alloc_ok : forall nb m, 0 < nb <= 1024 -> plentiful m ->
    exists t m', t_alloc nb m = Ok (Some t, m') /\ after m m' /\ t_rep m' t [];
  t_free_ok : forall m m0 t kvs f, t_rep m0 t kvs ->
    (forall k v m, (k, v) ∈ kvs -> exists m', f v m = Ok (tt, m') /\ after m m') ->
    exists m', t_free t f m = Ok (tt, m') /\ after m m';
  t_lookup_ok : forall m t kvs k, t_rep m t kvs -> plentiful m ->
    exists m', t_lookup t k m = Ok (match (list_to_map kvs : gmap Z V) !! k with
        | Some v => (1, Some (k, v)) | None => (0, None) end, m') /\ after m m';
  t_insert_ok : forall m t kvs k v, t_rep m t kvs -> plentiful m -> Z.of_nat (length kvs) < capacity ->
    exists t' kvs' m', t_insert t k v m = Ok (match (list_to_map kvs : gmap Z V) !! k with
        | Some v0 => (2, Some (k, v0), t') | None => (1, None, t') end, m') /\ after m m' /\
      t_rep m' t' kvs' /\ (list_to_map kvs' : gmap Z V) = <[k := v]> (list_to_map kvs);
  t_iter_ok : forall m t kvs, t_rep m t kvs -> plentiful m ->
    exists it m', t_iter t m = Ok (Some it, m') /\ after m m' /\
      match kvs with [] => True | x :: post => t_at t it [] x post end;
  t_iter_free_ok : forall it m, exists m', t_iter_free it m = Ok (tt, m') /\ after m m';
  t_get_ok : forall m t kvs it pre x post, t_rep m t kvs -> t_at t it pre x post ->
    kvs = pre ++ x :: post /\ t_get it t m = Ok ((1, Some x), m);
  t_next_ok : forall m t kvs it pre x post, t_rep m t kvs -> plentiful m -> t_at t it pre x post ->
    exists it' m', after m m' /\ match post with
    | [] => t_next it t m = Ok ((0, it'), m')
    | y :: post' => t_next it t m = Ok ((1, it'), m') /\ t_at t it' (pre ++ [x]) y post'
    end;
  t_delete_ok : forall m t kvs it pre x post, t_rep m t kvs -> plentiful m -> t_at t it pre x post ->
    exists it' t' m' r, t_delete it t m = Ok ((r, Some x, it', t'), m') /\ after m m' /\
      t_rep m' t' (pre ++ post) /\
      match post with [] => True | y :: post' => t_at t' it' pre y post' end
}.

(** Two lists of pairs with the same map and distinct keys hold the same pairs. *)
Lemma insert_new_perm {V} (kvs kvs' : list (Z * V)) k v :
  NoDup kvs.*1 -> NoDup kvs'.*1 -> (list_to_map kvs : gmap Z V) !! k = None ->
  (list_to_map kvs' : gmap Z V) = <[k := v]> (list_to_map kvs) -> kvs' ≡ₚ (k, v) :: kvs.
Proof.
  intros H1 H2 Hk HE. apply not_elem_of_list_to_map_2 in Hk.
  assert (H3 : NoDup ((k, v) :: kvs).*1) by (by apply NoDup_cons).
  apply (list_to_map_inj (M := gmap Z) _ _ H2 H3). by rewrite HE.
Qed.

(** ** The hash table of hw1 keeps the promises *)

Section Instance_.
Context {V : Type} `{EqDecision V}.

Definition pair_of (kv : HTKeyValue V) : Z * V := (key kv, value kv).

#[export] Instance hash_ops : TableOps V := {|
  table := HashTableRecord V;
  titer := HTIterRecord;
  t_alloc := AllocateHashTable;
  t_free := FreeHashTable;
  t_num := NumElementsInHashTable;
  t_insert t k v := let* (r, old, t') := InsertHashTable 2 t (mkKV k v) in
                    ret (r, pair_of <$> old, t');
  t_lookup t k := let* (r, kv) := LookupHashTable t k in ret (r, pair_of <$> kv);
  t_iter := HashTableMakeIterator;
  t_iter_free := HTIteratorFree;
  t_get it t := let* (r, kv) := HTIteratorGet it t in ret (r, pair_of <$> kv);
  t_next := HTIteratorNext;
  t_delete it t := let* (r, kv, it', t') := HTIteratorDelete it t in ret (r, pair_of <$> kv, it', t')
|}.

Definition pairs (c : bucket V) : list (Z * V) := (fun x => pair_of x.2) <$> c.

(** The load stays at most 3 and the buckets far from overflowing. *)
Definition hash_rep (m : mem) (t : HashTableRecord V) (kvs : list (Z * V)) : Prop :=
  wf m t /\ num_elements t <= 3 * num_buckets t /\ num_buckets t <= 3 * 2 ^ 24 /\
  kvs = pairs (items t).

Definition hash_at (t : HashTableRecord V) (it : HTIterRecord) (pre : list (Z * V))
    (x : Z * V) (post : list (Z * V)) : Prop :=
  exists pre0 x0 post0, at_item t it pre0 x0 post0 /\
    pre = pairs pre0 /\ x = pair_of x0.2 /\ post = pairs post0.

Lemma pairs_view t : (list_to_map (pairs (items t)) : gmap Z V) = view t.
Proof. done. Qed.

Lemma pairs_keys c : (pairs c).*1 = (fun x : positive * HTKeyValue V => key x.2) <$> c.
Proof. unfold pairs. by rewrite <- list_fmap_compose. Qed.

Lemma pairs_split c pre x post : pairs c = pre ++ x :: post ->
  exists pre0 x0 post0, c = pre0 ++ x0 :: post0 /\ pre = pairs pre0 /\ x = pair_of x0.2 /\ post = pairs post0.
Proof.
  unfold pairs. intros H. apply fmap_app_inv in H as (pre0 & rest & -> & E2 & ->).
  destruct rest as [|x0 post0]; [done|]. injection E2 as -> ->. by exists pre0, x0, post0.
Qed.

Lemma free_chain_after f c m :
  (forall k v m, (k, v) ∈ pairs c -> exists m', f v m = Ok (tt, m') /\ after m m') ->
  exists m', free_chain (V := V) c f m = Ok (tt, m') /\ after m m'.
Proof.
  revert m; induction c as [|[n kv] c IH]; intros m Hf; cbn [free_chain]; [by exists m|].
  destruct (release_after 1 m) as (m1 & R1 & A1). step R1.
  destruct (Hf (key kv) (value kv) m1) as (m2 & R2 & A2); [by left|]. step R2.
  destruct (release_after 1 m2) as (m3 & R3 & A3). step R3.
  destruct (IH m3) as (m4 & R4 & A4); [intros k v m' Hk; eapply Hf; right; exact Hk|]. exists m4. split; [done|].
  by rewrite A1, A2, A3.
Qed.

Lemma free_table_after f t m :
  (forall k v m, (k, v) ∈ pairs (items t) -> exists m', f v m = Ok (tt, m') /\ after m m') ->
  exists m', FreeHashTable (V := V) t f m = Ok (tt, m') /\ after m m'.
Proof.
  unfold FreeHashTable, items. intros Hf.
  assert (Hbs : forall c, c ∈ take (Z.to_nat (num_buckets t)) (buckets t) -> forall k v, (k, v) ∈ pairs c ->
    forall m, exists m', f v m = Ok (tt, m') /\ after m m').
  { intros c Hc%elem_of_take k v Hk m'. apply (Hf k). destruct Hc as (i & Hi & _).
    rewrite <- (take_drop_middle _ _ _ Hi), concat_app. unfold pairs. rewrite fmap_app.
    apply elem_of_app. right. cbn. rewrite fmap_app. apply elem_of_app. by left. }
  revert Hbs. generalize (take (Z.to_nat (num_buckets t)) (buckets t)).
  intros bs Hbs. assert (exists m', free_buckets bs f m = Ok (tt, m') /\ after m m') as (m1 & R1 & A1).
  { revert m; induction bs as [|c bs IH]; intros m; cbn [free_buckets]; [by exists m|].
    destruct (free_chain_after f c m) as (m1 & R1 & A1);
      [intros k v m' Hk; by eapply (Hbs c); [left|]|]. step R1.
    destruct (release_after 1 m1) as (m2 & R2 & A2). step R2.
    destruct (IH ltac:(intros c' Hc; apply Hbs; by right) m2) as (m3 & R3 & A3). exists m3. split; [done|]. by rewrite A1, A2. }
  step R1. destruct (release_after 1 m1) as (m2 & R2 & A2). step R2.
  destruct (release_after 1 m2) as (m3 & R3 & A3). exists m3. split; [done|]. by rewrite A1, A2.
Qed.

#[export] Program Instance hash_laws : TableLaws V := {|
  t_rep := hash_rep;
  t_at := hash_at
|}.
Next Obligation. intros m t kvs (Hwf & _ & _ & ->). rewrite pairs_keys. by eapply items_keys. Qed.
Next Obligation.
  intros m t kvs (Hwf & _ & _ & ->). cbn. unfold NumElementsInHashTable, pairs.
  by rewrite length_fmap, (wf_ne _ _ Hwf).
Qed.
Next Obligation.
  intros m m' t kvs (Hwf & ? & ? & ->) [d L]. split_and!; try done. by eapply wf_later.
Qed.
Next Obligation.
  intros nb m Hnb Hp. destruct (AllocateHashTable_ok (V := V) nb m) as (m' & HR & L); [lia|done|].
  destruct (empty_table_ok (V := V) nb m') as (Hw & _ & Hi); [lia|].
  exists (empty_table nb), m'. split_and!; [done|by eexists|].
  split_and!; [done|cbn; lia|cbn; lia|by rewrite Hi].
Qed.
Next Obligation. intros m m0 t kvs f (_ & _ & _ & ->) Hf. by apply free_table_after. Qed.
Next Obligation.
  intros m t kvs k (Hwf & _ & _ & ->) Hp. rewrite pairs_view.
  destruct (LookupHashTable_ok m t k Hwf Hp) as (m' & HR & L). exists m'. split; [|by eexists].
  cbn. step HR. by destruct (view t !! k).
Qed.
Next Obligation.
  intros m t kvs k v (Hwf & Hload & Hnb & ->) Hp Hcap. rewrite pairs_view.
  unfold pairs in Hcap. rewrite length_fmap in Hcap. unfold capacity in Hcap.
  pose proof (wf_ne _ _ Hwf) as Hne. pose proof (wf_nb _ _ Hwf).
  assert (H24 : 2 ^ 24 = 16777216) by reflexivity. assert (H32 : 2 ^ 32 = 4294967296) by reflexivity.
  destruct (InsertHashTable_ok 0 m t (mkKV k v) Hwf Hp Hload) as
    (r & old & t' & m' & HR & (Hwf' & Hv & Hcase & L) & Hload' & Hnb'); [lia|].
  exists t', (pairs (items t')), m'. cbn [key value] in *. split_and!.
  - cbn. step HR. destruct (view t !! k); destruct Hcase as (-> & -> & _); done.
  - by eexists.
  - split_and!; try done. rewrite Hnb'. destruct (Z.eqb_spec (num_elements t) (3 * num_buckets t)); lia.
  - by rewrite pairs_view.
Qed.
Next Obligation.
  intros m t kvs (Hwf & _ & _ & ->) Hp.
  destruct (HashTableMakeIterator_ok m t Hwf Hp) as (it & m' & HR & Hit). exists it, m'.
  split; [done|]. destruct (items t) as [|x post]; cbn; [split; [by eexists; apply Hit|done]|].
  destruct Hit as [Hat L]. split; [by eexists|]. by exists [], x, post.
Qed.
Next Obligation.
  intros it m. cbn. unfold HTIteratorFree. destruct (bucket_it it).
  - destruct (release_after 1 m) as (m1 & R1 & A1). step R1.
    destruct (release_after 1 m1) as (m2 & R2 & A2). exists m2. split; [done|]. by rewrite A1.
  - rewrite bind_ret. apply release_after.
Qed.
Next Obligation.
  intros m t kvs it pre x post (Hwf & _ & _ & ->) (pre0 & x0 & post0 & Hat & -> & -> & ->).
  split.
  - rewrite (at_item_items _ _ _ _ _ Hat). unfold pairs. by rewrite fmap_app.
  - cbn. by step (HTIteratorGet_ok _ m _ _ _ _ _ Hwf Hat).
Qed.
Next Obligation.
  intros m t kvs it pre x post (Hwf & _ & _ & ->) Hp (pre0 & x0 & post0 & Hat & -> & -> & ->).
  pose proof (HTIteratorNext_ok _ m _ _ _ _ _ Hwf Hp Hat) as HN. destruct post0 as [|y post0]; cbn.
  - destruct HN as (it' & HR & _). exists it', m. split; [reflexivity|done].
  - destruct HN as (it' & m' & HR & L & Hat'). exists it', m'. split; [by eexists|].
    split; [done|]. exists (pre0 ++ [x0]), y, post0. unfold pairs. by rewrite fmap_app.
Qed.
Next Obligation.
  intros m t kvs it pre x post (Hwf & Hl & Hnb & ->) Hp (pre0 & x0 & post0 & Hat & -> & -> & ->).
  destruct (HTIteratorDelete_ok m t it pre0 x0 post0 Hwf Hp Hat) as
    (m' & r & it' & t' & HR & Hwf' & Hi & Hv & Hnb' & L & Hcase).
  exists it', t', m', r. split_and!.
  - cbn. by step HR.
  - by eexists.
  - split_and!; [done| |lia|].
    + pose proof (wf_ne _ _ Hwf') as Hne'. rewrite Hi, length_app in Hne'.
      pose proof (wf_ne _ _ Hwf) as Hne. rewrite (at_item_items _ _ _ _ _ Hat), length_app in Hne.
      cbn [length] in Hne. lia.
    + rewrite Hi. unfold pairs. by rewrite fmap_app.
  - destruct post0 as [|y post0]; [done|]. cbn. destruct Hcase as [_ Hat']. by exists pre0, y, post0.
Qed.

End Instance_.
