(* ===== verification/DocTable.v ===== *)
(** The table of document names and ids of [uw_cse333/hw/hw2/doctable.c], over
    the table interface.  A document name is its string of octets; the copies
    and ids the program allocates are one block each. *)
From S2P Require Import Prelude Alloc HashTable Table.
Open Scope Z_scope.

Section DocTable.
Context {OS : TableOps (list Z)} {ON : TableOps Z}.

Record DocTableRecord := mkDT {
  docid_to_docname : table (V := list Z);
  docname_to_docid : table (V := Z);
  max_id : Z
}.

Definition AllocateDocTable : M mem DocTableRecord :=
  let* dt := alloc in
  do* Verify (bool_decide (is_Some dt));
  let* a := t_alloc 1024 in
  let* b := t_alloc 1024 in
  do* Verify (if a then true else false);
  do* Verify (if b then true else false);
  match a, b with
  | Some a, Some b => ret (mkDT a b 0)
  | _, _ => fail BadAccess
  end.

Definition FreeDocTable (table : DocTableRecord) : M mem unit :=
  do* t_free (docid_to_docname table) (fun _ => release 1);
  do* t_free (docname_to_docid table) (fun _ => release 1);
  release 1.

Definition DTNumDocsInDocTable (table : DocTableRecord) : Z := t_num (docid_to_docname table).

Definition DTLookupDocumentName (table : DocTableRecord) (docname : list Z) : M mem Z :=
  let k := FNVHash64 docname in
  let* (res, kv) := t_lookup (docname_to_docid table) k in
  if res =? 1 then let* kv := get_or BadAccess kv in ret kv.2 else ret 0.

Definition DTLookupDocID (table : DocTableRecord) (docid : Z) : M mem (option (list Z)) :=
  do* Verify (negb (docid =? 0));
  let* (res, kv) := t_lookup (docid_to_docname table) docid in
  if res =? 1 then let* kv := get_or BadAccess kv in ret (Some kv.2) else ret None.

Definition DTRegisterDocumentName (table : DocTableRecord) (docname : list Z)
    : M mem (Z * DocTableRecord) :=
  let* docid := alloc in
  let* doccopy := alloc in
  do* Verify (bool_decide (is_Some doccopy));
  do* Verify (bool_decide (is_Some docid));
  let* res := DTLookupDocumentName table docname in
  if negb (res =? 0) then do* release 1; do* release 1; ret (res, table)
  else
    let max_id := u64 (max_id table + 1) in
    let* (r, _, a) := t_insert (docid_to_docname table) max_id docname in
    do* Verify (r =? 1);
    let* (r, _, b) := t_insert (docname_to_docid table) (FNVHash64 docname) max_id in
    do* Verify (r =? 1);
    ret (max_id, mkDT a b max_id).

Definition DTGetDocidTable (t : DocTableRecord) : table (V := list Z) := docid_to_docname t.

End DocTable.

Arguments DocTableRecord : clear implicits.

(** ** The registry a table implements: the names in order of registration,
    the [i]-th with id [i+1]. *)

Section Spec.
Context {OS : TableOps (list Z)} {ON : TableOps Z} {LS : TableLaws (list Z)} {LN : TableLaws Z}.

Record registry (m : mem) (dt : DocTableRecord OS ON) (docs : list (list Z)) : Prop := {
  rg_tables : exists ids names, t_rep m (docid_to_docname dt) ids /\
    t_rep m (docname_to_docid dt) names /\
    length ids = length docs /\ length names = length docs /\
    (forall k, (list_to_map ids : gmap Z (list Z)) !! k =
       if decide (1 <= k) then docs !! Z.to_nat (k - 1) else None) /\
    (forall i d, docs !! i = Some d ->
       (list_to_map names : gmap Z Z) !! FNVHash64 d = Some (Z.of_nat i + 1)) /\
    (forall h, (forall d, d ∈ docs -> FNVHash64 d <> h) ->
       (list_to_map names : gmap Z Z) !! h = None);
  rg_max : max_id dt = Z.of_nat (length docs);
  rg_size : Z.of_nat (length docs) <= capacity
}.

(** No registered name collides with [name] under the hash. *)
Definition no_collision (docs : list (list Z)) (name : list Z) : Prop :=
  forall d, d ∈ docs -> FNVHash64 d = FNVHash64 name -> d = name.

Lemma registry_after m m' dt docs : registry m dt docs -> after m m' -> registry m' dt docs.
Proof.
  intros [(ids & names & H1 & H2 & Hrest) Hm Hs] Ha. split; [|done|done].
  destruct Hrest as (? & ? & ? & ? & ?).
  exists ids, names. split_and!; try done; by eapply t_rep_after.
Qed.

Lemma DTLookupDocumentName_ok m dt docs name :
  registry m dt docs -> plentiful m -> no_collision docs name ->
  exists m' id, DTLookupDocumentName dt name m = Ok (id, m') /\ after m m' /\
    ((id = 0 /\ name ∉ docs) \/ exists i : nat, id = Z.of_nat i + 1 /\ docs !! i = Some name).
Proof.
  intros [(ids & names & _ & H2 & _ & _ & _ & Hin & Hout) _ _] Hp Hnc.
  unfold DTLookupDocumentName.
  destruct (t_lookup_ok _ _ _ (FNVHash64 name) H2 Hp) as (m' & HR & Ha). step HR.
  destruct (decide (name ∈ docs)) as [Hd|Hd].
  - pose proof Hd as [i Hi]%list_elem_of_lookup. rewrite (Hin i name Hi). cbn.
    exists m', (Z.of_nat i + 1). split_and!; [done|done|]. right. by exists i.
  - rewrite Hout by (intros d Hd' E; apply Hd; by rewrite <- (Hnc d Hd' E)). cbn.
    exists m', 0. auto.
Qed.

Lemma DTLookupDocID_ok m dt docs id :
  registry m dt docs -> plentiful m -> 0 < id ->
  exists m', DTLookupDocID dt id m = Ok (docs !! Z.to_nat (id - 1), m') /\ after m m'.
Proof.
  intros [(ids & names & H1 & _ & _ & _ & Hmap & _) _ _] Hp Hid. unfold DTLookupDocID, Verify.
  rewrite (proj2 (Z.eqb_neq id 0)) by lia. cbn [negb ensure]. rewrite bind_ret.
  destruct (t_lookup_ok _ _ _ id H1 Hp) as (m' & HR & Ha). step HR.
  rewrite Hmap, decide_True by lia. exists m'. by destruct (docs !! _).
Qed.

Lemma DTRegisterDocumentName_ok m dt docs name :
  registry m dt docs -> plentiful m -> no_collision docs name -> Z.of_nat (length docs) < capacity ->
  exists id dt' m', DTRegisterDocumentName dt name m = Ok ((id, dt'), m') /\ after m m' /\
    ((exists i : nat, id = Z.of_nat i + 1 /\ docs !! i = Some name /\ registry m' dt' docs) \/
     (name ∉ docs /\ id = Z.of_nat (length docs) + 1 /\ registry m' dt' (docs ++ [name]))).
Proof.
  intros Hr Hp Hnc Hsize. unfold DTRegisterDocumentName, Verify.
  destruct (alloc_after m Hp) as (p1 & m1 & R1 & A1). step R1.
  assert (Hp1 : plentiful m1) by (by eapply after_plentiful).
  destruct (alloc_after m1 Hp1) as (p2 & m2 & R2 & A2). step R2.
  assert (Hp2 : plentiful m2) by (by eapply after_plentiful).
  rewrite !bool_decide_true by (by eexists). cbn [ensure]. rewrite !bind_ret.
  assert (A02 : after m m2) by (by rewrite A1).
  destruct (DTLookupDocumentName_ok m2 dt docs name) as (m3 & id & R3 & A3 & Hcase);
    [by eapply registry_after|done|done|]. step R3.
  assert (A03 : after m m3) by (by rewrite A02).
  assert (Hp3 : plentiful m3) by (by eapply after_plentiful).
  destruct Hcase as [[-> Hnew]|(i & -> & Hi)].
  2:{ rewrite (proj2 (Z.eqb_neq _ 0)) by lia. cbn [negb].
      destruct (release_after 1 m3) as (m4 & R4 & A4). step R4.
      destruct (release_after 1 m4) as (m5 & R5 & A5). step R5.
      exists (Z.of_nat i + 1), dt, m5. assert (after m m5) by (by rewrite A03, A4).
      split_and!; [done|done|left]. exists i. split_and!; [done|done|by eapply registry_after]. }
  cbn [Z.eqb negb]. pose proof (registry_after _ _ _ _ Hr A03) as
    [(ids & names & H1 & H2 & Hl1 & Hl2 & Hmap & Hin & Hout) Hm Hs].
  assert (Hcap : capacity < 2 ^ 64) by reflexivity.
  rewrite Hm, wrapu_small by lia. set (id := Z.of_nat (length docs) + 1).
  assert (Hidn : (list_to_map ids : gmap Z (list Z)) !! id = None).
  { rewrite Hmap, decide_True by lia. apply lookup_ge_None. lia. }
  assert (Hnn : (list_to_map names : gmap Z Z) !! FNVHash64 name = None).
  { apply Hout. intros d Hd E. apply Hnew. by rewrite <- (Hnc d Hd E). }
  destruct (t_insert_ok m3 _ ids id name H1 Hp3 ltac:(lia)) as (a & ids' & m4 & R4 & A4 & H1' & E1).
  rewrite Hidn in R4. step R4. cbn [Z.eqb Pos.eqb ensure]. rewrite bind_ret.
  destruct (t_insert_ok m4 (docname_to_docid dt) names (FNVHash64 name) id) as
    (b & names' & m5 & R5 & A5 & H2' & E2); [by eapply t_rep_after|by eapply after_plentiful|lia|].
  rewrite Hnn in R5. step R5. cbn [Z.eqb Pos.eqb ensure]. rewrite bind_ret.
  exists id, (mkDT a b id), m5. split_and!; [done|by rewrite A03, A4|right].
  split_and!; [done|done|]. split; cbn.
  2:{ rewrite length_app. cbn. lia. }
  2:{ rewrite length_app. cbn. lia. }
  exists ids', names'. split_and!; [by eapply t_rep_after|done| | | | |].
  - rewrite length_app, <- Hl1. cbn. rewrite Nat.add_1_r.
    apply (Permutation_length (l' := (id, name) :: ids)).
    eapply insert_new_perm; [by eapply t_rep_nodup..|done|done].
  - rewrite length_app, <- Hl2. cbn. rewrite Nat.add_1_r.
    apply (Permutation_length (l' := (FNVHash64 name, id) :: names)).
    eapply insert_new_perm; [by eapply t_rep_nodup..|done|done].
  - intros k. rewrite E1. destruct (decide (k = id)) as [->|Hk].
    + rewrite lookup_insert_eq, decide_True by lia. unfold id.
      replace (Z.to_nat _) with (length docs) by lia. by rewrite list_lookup_middle.
    + rewrite lookup_insert_ne, Hmap by done. destruct (decide (1 <= k)); [|done].
      destruct (decide (k < id)); [by rewrite lookup_app_l by lia|].
      rewrite !lookup_ge_None_2; [done| |]; rewrite ?length_app; cbn; lia.
  - intros i d [Hi|[Hi Hd]]%lookup_app_Some.
    + assert (FNVHash64 d <> FNVHash64 name).
      { intros E. apply Hnew. rewrite <- (Hnc d); [|by eapply list_elem_of_lookup_2|done].
        by eapply list_elem_of_lookup_2. }
      rewrite E2, lookup_insert_ne by done. by apply Hin.
    + apply list_lookup_singleton_Some in Hd as [Hd <-].
      rewrite E2, lookup_insert_eq. f_equal. unfold id. lia.
  - intros h Hh. rewrite E2, lookup_insert_ne by (apply Hh; apply elem_of_app; right; by left).
    apply Hout. intros d Hd. apply Hh, elem_of_app. by left.
Qed.

Lemma FreeDocTable_ok m0 m dt docs : registry m0 dt docs ->
  exists m', FreeDocTable dt m = Ok (tt, m') /\ after m m'.
Proof.
  intros [(ids & names & H1 & H2 & _) _ _]. unfold FreeDocTable.
  destruct (t_free_ok m m0 _ ids (fun _ => release 1) H1) as (m1 & R1 & A1); [intros; apply release_after|].
  step R1. destruct (t_free_ok m1 m0 _ names (fun _ => release 1) H2) as (m2 & R2 & A2);
    [intros; apply release_after|].
  step R2. destruct (release_after 1 m2) as (m3 & R3 & A3). exists m3. split; [done|]. by rewrite A1, A2.
Qed.

Lemma AllocateDocTable_ok m :
  plentiful m -> exists dt m', AllocateDocTable m = Ok (dt, m') /\ after m m' /\ registry m' dt [].
Proof.
  intros Hp. unfold AllocateDocTable, Verify. destruct (alloc_after m Hp) as (p & m1 & R1 & A1). step R1.
  rewrite bool_decide_true by (by eexists). cbn [ensure]. rewrite bind_ret.
  destruct (t_alloc_ok (V := list Z) 1024 m1) as (a & m2 & R2 & A2 & Ha); [lia|by eapply after_plentiful|].
  step R2. destruct (t_alloc_ok (V := Z) 1024 m2) as (b & m3 & R3 & A3 & Hb);
    [lia|eapply after_plentiful; [exact A2|by eapply after_plentiful]|].
  step R3. exists (mkDT a b 0), m3. split; [done|]. split; [by rewrite A1, A2|]. split; [|done|done].
  exists [], []. split_and!; [by eapply t_rep_after|done|done|done| |done|done].
  intros k. cbn. rewrite lookup_empty. by destruct (decide _).
Qed.

(** a new document table is an empty registry.  While no registered name
    collides with the given one under the hash, [DTRegisterDocumentName]
    returns the id of a registered name and otherwise registers it with the
    next id; [DTLookupDocumentName] returns the id, or 0 for an unknown name,
    and [DTLookupDocID] returns the name of an id, so that they are inverse to
    each other; [DTNumDocsInDocTable] counts the names. *)
Theorem doctable_registers m :
  plentiful m ->
  (exists dt m', AllocateDocTable m = Ok (dt, m') /\ after m m' /\ registry m' dt []) /\
  (forall dt docs name, registry m dt docs -> no_collision docs name ->
     Z.of_nat (length docs) < capacity ->
     exists id dt' m', DTRegisterDocumentName dt name m = Ok ((id, dt'), m') /\
       let docs' := if decide (name ∈ docs) then docs else docs ++ [name] in
       registry m' dt' docs' /\ DTNumDocsInDocTable dt' = Z.of_nat (length docs') /\
       (exists m'', DTLookupDocumentName dt' name m' = Ok (id, m'')) /\
       (exists m'', DTLookupDocID dt' id m' = Ok (Some name, m'')) /\
       (forall i d, docs !! i = Some d ->
          exists m'', DTLookupDocID dt' (Z.of_nat i + 1) m' = Ok (Some d, m''))) /\
  (forall dt docs name, registry m dt docs -> no_collision docs name -> name ∉ docs ->
     exists m', DTLookupDocumentName dt name m = Ok (0, m')).
Proof.
  intros Hp. split; [|split].
  - by apply AllocateDocTable_ok.
  - intros dt docs name Hr Hnc Hsize.
    destruct (DTRegisterDocumentName_ok m dt docs name Hr Hp Hnc Hsize) as (id & dt' & m' & HR & Ha & Hcase).
    exists id, dt', m'. split; [done|]. set (docs' := if decide (name ∈ docs) then docs else docs ++ [name]).
    assert (Hr' : registry m' dt' docs' /\ exists i : nat, id = Z.of_nat i + 1 /\ docs' !! i = Some name).
    { subst docs'. destruct Hcase as [(i & -> & Hi & Hr')|(Hn & -> & Hr')].
      - rewrite decide_True by (by eapply list_elem_of_lookup_2). split; [done|]. by exists i.
      - rewrite decide_False by done. split; [done|]. exists (length docs). by rewrite list_lookup_middle. }
    destruct Hr' as [Hr' (i & -> & Hi)].
    assert (Hp' : plentiful m') by (by eapply after_plentiful).
    assert (Hpre : forall j d, docs !! j = Some d -> docs' !! j = Some d).
    { intros j d Hj. subst docs'. destruct (decide _); [done|]. by apply lookup_app_l_Some. }
    assert (Hid : forall j d, docs' !! j = Some d ->
      exists m'', DTLookupDocID dt' (Z.of_nat j + 1) m' = Ok (Some d, m'')).
    { intros j d Hj. destruct (DTLookupDocID_ok m' dt' docs' (Z.of_nat j + 1) Hr' Hp') as (m2 & R2 & _);
        [lia|]. exists m2. rewrite R2. replace (Z.to_nat _) with j by lia. by rewrite Hj. }
    split_and!; [done| | |by apply Hid|by intros j d Hj; apply Hid, Hpre].
    + destruct Hr' as [(ids & names & H1 & _ & Hl & _) _ _]. unfold DTNumDocsInDocTable.
      by rewrite (t_rep_num _ _ _ H1), Hl.
    + destruct Hr' as [(ids & names & _ & H2 & _ & _ & _ & Hin & _) _ _].
      unfold DTLookupDocumentName.
      destruct (t_lookup_ok _ _ _ (FNVHash64 name) H2 Hp') as (m2 & R2 & _). exists m2. step R2.
      by rewrite (Hin i name Hi).
  - intros dt docs name Hr Hnc Hn.
    destruct (DTLookupDocumentName_ok m dt docs name Hr Hp Hnc) as (m' & id & HR & _ & Hcase).
    exists m'. rewrite HR. destruct Hcase as [[-> _]|(i & _ & Hi)]; [done|].
    destruct Hn. by eapply list_elem_of_lookup_2.
Qed.

End Spec.

(** Registering in a fresh table of the hash table of hw1. *)
Lemma doctable_registers_witness :
  let m := mkMem 1 (fun _ => false) 0 0 in
  exists dt m1, AllocateDocTable m = Ok (dt, m1) /\
  exists id dt' m2, DTRegisterDocumentName dt [104; 105] m1 = Ok ((id, dt'), m2) /\
    exists m3, DTLookupDocID dt' id m2 = Ok (Some [104; 105], m3).
Proof.
  intros m. assert (Hp : plentiful m) by (intros n; reflexivity).
  destruct (doctable_registers m Hp) as [(dt & m1 & HR & Ha & Hr) _].
  exists dt, m1. split; [exact HR|].
  assert (Hp1 : plentiful m1) by (exact (after_plentiful m m1 Ha Hp)).
  destruct (doctable_registers m1 Hp1) as (_ & HReg & _).
  destruct (HReg dt [] [104; 105] Hr) as (id & dt' & m2 & HR2 & _ & _ & _ & HL & _).
  - intros d Hd. apply not_elem_of_nil in Hd. destruct Hd.
  - reflexivity.
  - exists id, dt', m2. split; [exact HR2|exact HL].
Defined.
