(* ===== verification/FileParser.v ===== *)
(** Reading a file and splitting it into words,
    [uw_cse333/hw/hw2/fileparser.c], over the table interface.  The records
    that tables point to, [WordPositions] here and [WordDocSet] of memindex.h,
    live in a store; a C string is its octets, a buffer the octets of the
    block; the system calls' results are a script. *)
From S2P Require Import Prelude Alloc HashTable Table.
Open Scope Z_scope.

(** fileparser.h and memindex.h *)
Record WordPositions := mkWP { wp_word : list Z; wp_positions : list Z }.

Section State.
Context {OL : TableOps (list Z)}.

Record WordDocSet := mkWDS { wds_word : list Z; docIDs : table (V := list Z) }.

Record store := mkStore {
  al : mem;
  wps : gmap positive WordPositions;
  wdss : gmap positive WordDocSet
}.

Definition lift {A} (f : M mem A) : M store A := fun s =>
  match f (al s) with
  | Ok (a, m') => Ok (a, mkStore m' (wps s) (wdss s))
  | Err e => Err e
  end.

Definition load_wp (p : positive) : M store WordPositions :=
  let* h := gets wps in get_or BadAccess (h !! p).
Definition store_wp (p : positive) (w : WordPositions) : M store unit :=
  modify (fun s => mkStore (al s) (<[p := w]> (wps s)) (wdss s)).
Definition free_wp (p : positive) : M store unit :=
  do* load_wp p; do* lift (release 1);
  modify (fun s => mkStore (al s) (delete p (wps s)) (wdss s)).

(** A [malloc] whose result is dereferenced without a check. *)
Definition must_alloc : M store positive :=
  let* p := lift alloc in get_or BadAccess p.

(** [AppendLinkedList] followed by [Verify333] of its result. *)
Definition append_checked : M store unit :=
  let* node := lift alloc in ensure VerifyFailed (bool_decide (is_Some node)).

End State.
Arguments store : clear implicits.
Arguments WordDocSet : clear implicits.

(** ctype.h on ASCII *)
Definition isalpha (c : Z) : bool :=
  ((65 <=? c) && (c <=? 90)) || ((97 <=? c) && (c <=? 122)).

(** The C string at the front of a buffer. *)
Fixpoint cstring (buf : list Z) : option (list Z) :=
  match buf with
  | [] => None
  | c :: rest => if c =? 0 then Some [] else (fun w => c :: w) <$> cstring rest
  end.

(** What one [read] answers: an error, transient or not, or octets. *)
Inductive read_result := ReadError (transient : bool) | ReadBytes (bs : list Z).

(** The file system's answers to [ReadFile]: [stat] (is it regular, and how
    long), [open], and the [read]s in order. *)
Record file_script := mkFile {
  f_stat : option (bool * Z);
  f_open : bool;
  f_reads : list read_result
}.

Section FileParser.
Context {OL : TableOps (list Z)} {OP : TableOps positive}.

(** [buf] holds what has been read so far. *)
Fixpoint ReadFile_loop (reads : list read_result) (left_to_read : Z) (buf : list Z)
    : M (store OL) (option (list Z * Z)) :=
  if left_to_read <=? 0 then ret (Some (buf, left_to_read))
  else
    match reads with
    | [] => fail OutOfFuel
    | ReadError true :: reads' => ReadFile_loop reads' left_to_read buf
    | ReadError false :: _ => do* lift (release 1); ret None
    | ReadBytes [] :: _ => fail AssertFailed
    | ReadBytes bs :: reads' => ReadFile_loop reads' (left_to_read - Z.of_nat (length bs)) (buf ++ bs)
    end.

(** The NUL-terminated contents and their size, or [NULL]. *)
Definition ReadFile (f : file_script) : M (store OL) (option (list Z * Z)) :=
  match f_stat f with
  | None => ret None
  | Some (isreg, st_size) =>
      if negb isreg then ret None
      else if negb (f_open f) then ret None
      else
        let* buf := lift alloc in
        match buf with
        | None => ret None
        | Some _ =>
            let* r := ReadFile_loop (f_reads f) st_size [] in
            match r with
            | None => ret None
            | Some (content, left_to_read) =>
                let size := u32 (st_size - left_to_read) in
                ret (Some (take (Z.to_nat size) content ++ [0], size))
            end
        end
  end.

Definition AddToHashtable (tab : table (V := positive)) (word : list Z) (pos : Z)
    : M (store OL) (table (V := positive)) :=
  let hashKey := FNVHash64 word in
  let* (retval, kv) := lift (t_lookup tab hashKey) in
  if retval =? 1 then
    let* kv := get_or BadAccess kv in
    let* wp := load_wp kv.2 in
    do* append_checked;
    do* store_wp kv.2 (mkWP (wp_word wp) (wp_positions wp ++ [pos]));
    ret tab
  else
    let* newstr := must_alloc in
    let* wp := must_alloc in
    let* positions := lift alloc in
    do* ensure VerifyFailed (bool_decide (is_Some positions));
    do* append_checked;
    do* store_wp wp (mkWP word [pos]);
    let* (retval, _, tab) := lift (t_insert tab hashKey wp) in
    do* ensure VerifyFailed (retval =? 1);
    ret tab.

(** [while (1)] over the buffer; [curptr] and [wordstart] are offsets.  The
    test [curptr == '\0'] compares a pointer with [NULL] and never holds. *)
Fixpoint LoopAndInsert_loop (fuel : nat) (tab : table (V := positive)) (buf : list Z)
    (curptr wordstart : nat) : M (store OL) (table (V := positive)) :=
  match fuel with
  | O => fail OutOfFuel
  | S fuel' =>
      let* c := get_or BadAccess (buf !! curptr) in
      if c =? 0 then ret tab
      else if isalpha c then
        LoopAndInsert_loop fuel' tab (<[curptr := tolower c]> buf) (S curptr) wordstart
      else
        let* w := get_or BadAccess (buf !! wordstart) in
        if isalpha w then
          let buf := <[curptr := 0]> buf in
          let* word := get_or BadAccess (cstring (drop wordstart buf)) in
          let* tab := AddToHashtable tab word (u32 (Z.of_nat wordstart)) in
          LoopAndInsert_loop fuel' tab buf (S curptr) (S curptr)
        else LoopAndInsert_loop fuel' tab buf (S curptr) (S curptr)
  end.

Definition LoopAndInsert (tab : table (V := positive)) (content : list Z)
    : M (store OL) (table (V := positive)) :=
  LoopAndInsert_loop (length content) tab content 0 0.

Definition ASCII_UPPER_BOUND : Z := 0x7F.

(** Releases the list of positions, the word and the record, which the table being
    freed is the last to point to; [h] holds the records. *)
Definition WordHTFree (h : gmap positive WordPositions) (payload : positive) : M mem unit :=
  let* pos := get_or BadAccess (h !! payload) in
  do* release (Z.of_nat (length (wp_positions pos)) + 1);
  do* release 1;
  release 1.

Definition FreeWordHT (table : table (V := positive)) : M (store OL) unit :=
  let* h := gets wps in lift (t_free table (WordHTFree h)).

Definition BuildWordHT (f : file_script) : M (store OL) (option (table (V := positive))) :=
  let* r := ReadFile f in
  match r with
  | None => ret None
  | Some (filecontent, filelen) =>
      if filelen =? 0 then ret None
      else if existsb (fun c => (c =? 0) || (ASCII_UPPER_BOUND <? c)) (take (Z.to_nat filelen) filecontent)
      then do* lift (release 1); ret None
      else
        let* tab := lift (t_alloc 64) in
        let* tab := get_or VerifyFailed tab in
        let* tab := LoopAndInsert tab filecontent in
        if t_num tab =? 0 then
          do* FreeWordHT tab;
          do* lift (release 1);
          ret None
        else
          do* lift (release 1);
          ret (Some tab)
  end.

End FileParser.
