(* ===== verification/FileParserSpec.v ===== *)
(** Splitting a file into words, part 2: the word index a [WordHT] represents
    and what reading, splitting and indexing do. *)
From S2P Require Import Prelude Alloc HashTable Table FileParser.
Open Scope Z_scope.

(** ** The words of a text

    The maximal runs of letters, lower-cased, with their offsets. *)
Definition run_word (pos : nat) (run : list Z) : list (list Z * Z) :=
  match run with [] => [] | _ => [(run, u32 (Z.of_nat pos - Z.of_nat (length run)))] end.
Fixpoint all_words_from (text : list Z) (pos : nat) (run : list Z) : list (list Z * Z) :=
  match text with
  | [] => run_word pos run
  | c :: text' =>
      if isalpha c then all_words_from text' (S pos) (run ++ [tolower c])
      else run_word pos run ++ all_words_from text' (S pos) []
  end.
Definition all_words (text : list Z) : list (list Z * Z) := all_words_from text 0 [].

(** A run of letters that reaches the end of the file is not indexed, against what
    [fileparser.h] says: the program indexes the words of the text without it. *)
Fixpoint drop_letters (text : list Z) : list Z :=
  match text with c :: text' => if isalpha c then drop_letters text' else text | [] => [] end.
Definition without_last_run (text : list Z) : list Z := reverse (drop_letters (reverse text)).
Definition words (text : list Z) : list (list Z * Z) := all_words (without_last_run text).

(** The same in one scan, as the program goes. *)
Fixpoint words_from (text : list Z) (pos : nat) (run : list Z) : list (list Z * Z) :=
  match text with
  | [] => []
  | c :: text' =>
      if isalpha c then words_from text' (S pos) (run ++ [tolower c])
      else
        match run with
        | [] => words_from text' (S pos) []
        | _ => (run, u32 (Z.of_nat pos - Z.of_nat (length run))) :: words_from text' (S pos) []
        end
  end.

(** The positions of each word, in order. *)
Definition positions_of (w : list Z) (ws : list (list Z * Z)) : list Z :=
  (filter (fun x => x.1 = w) ws).*2.

Definition add_word (mp : gmap (list Z) (list Z)) (x : list Z * Z) : gmap (list Z) (list Z) :=
  <[x.1 := default [] (mp !! x.1) ++ [x.2]]> mp.
Definition index_of (ws : list (list Z * Z)) : gmap (list Z) (list Z) := foldl add_word ∅ ws.

Lemma foldl_add_word ws mp w :
  foldl add_word mp ws !! w =
    match default [] (mp !! w) ++ positions_of w ws with
    | [] => if mp !! w then Some [] else None
    | ps => Some ps
    end.
Proof.
  revert mp; induction ws as [|[w' p] ws IH]; intros mp; cbn [foldl].
  - unfold positions_of. cbn. rewrite app_nil_r. destruct (mp !! w) as [[|]|]; done.
  - rewrite IH. unfold add_word; cbn [fst snd]. unfold positions_of.
    destruct (decide (w' = w)) as [->|Hne].
    + rewrite lookup_insert_eq, filter_cons_True by done. cbn. rewrite <- app_assoc. cbn.
      destruct (default [] (mp !! w) ++ p :: _) eqn:E; [|done]. by apply app_nil in E as [_ ?].
    + by rewrite lookup_insert_ne, filter_cons_False by done.
Qed.

(** [index_of] maps each word to its positions and has no other keys. *)
Lemma index_of_lookup ws w :
  index_of ws !! w = match positions_of w ws with [] => None | ps => Some ps end.
Proof. unfold index_of. rewrite foldl_add_word, lookup_empty. by destruct (positions_of w ws). Qed.

Lemma words_from_dangling text run pos :
  Forall (fun c => isalpha c = true) text -> words_from text pos run = [].
Proof. intros H; revert run pos; induction H as [|c text Hc _ IH]; intros run pos; cbn; [done|by rewrite Hc]. Qed.

Lemma words_from_app text c dangling run pos :
  isalpha c = false -> Forall (fun c => isalpha c = true) dangling ->
  words_from (text ++ c :: dangling) pos run = words_from (text ++ [c]) pos run.
Proof.
  intros Hc Hd; revert run pos; induction text as [|b text IH]; intros run pos; cbn.
  - rewrite Hc. destruct run; by rewrite !words_from_dangling.
  - destruct (isalpha b); [apply IH|]. destruct run; by rewrite IH.
Qed.

Lemma words_from_all text c pos run : isalpha c = false -> words_from (text ++ [c]) pos run = all_words_from (text ++ [c]) pos run.
Proof.
  intros Hc. revert pos run. induction text as [|b text IH]; intros pos run; cbn.
  - rewrite Hc. by destruct run.
  - destruct (isalpha b); [apply IH|]. destruct run; cbn; by rewrite IH.
Qed.

Lemma drop_letters_split text : exists run, text = run ++ drop_letters text /\ Forall (fun c => isalpha c = true) run /\
  (drop_letters text = [] \/ exists c rest, drop_letters text = c :: rest /\ isalpha c = false).
Proof.
  induction text as [|c text (run & E & Hr & Hd)]; [by exists []; auto|]. cbn. destruct (isalpha c) eqn:Hc.
  - exists (c :: run). cbn. rewrite <- E. split; [done|]. by split; [constructor|].
  - exists []. split; [done|]. split; [constructor|]. right. by exists c, text.
Qed.

(** Only the run of letters at the end is left out. *)
Lemma without_last_run_split text : exists run, text = without_last_run text ++ run /\ Forall (fun c => isalpha c = true) run /\
  (without_last_run text = [] \/ exists t c, without_last_run text = t ++ [c] /\ isalpha c = false).
Proof.
  destruct (drop_letters_split (reverse text)) as (run & E & Hr & Hd). unfold without_last_run. exists (reverse run).
  split; [by rewrite <- reverse_app, <- E, reverse_involutive|]. split; [by apply Forall_reverse|].
  destruct Hd as [->|(c & rest & -> & Hc)]; [by left|]. right. exists (reverse rest), c. by rewrite reverse_cons.
Qed.

Lemma words_scan text : words text = words_from text 0 [].
Proof.
  unfold words, all_words. destruct (without_last_run_split text) as (run & E & Hr & [E0|(t & c & E0 & Hc)]).
  - rewrite E0 in *. rewrite E. cbn [app]. by rewrite words_from_dangling.
  - rewrite E0 in *. rewrite E at 1. by rewrite <- words_from_all, <- (assoc_L (++)), (words_from_app t c run).
Qed.

(** ** What a word table represents *)

Section Spec.
Context {OL : TableOps (list Z)} {OP : TableOps positive} {LP : TableLaws positive}.
Implicit Types (s : store OL) (mp : gmap (list Z) (list Z)).

Definition fresh_store s : Prop :=
  (forall p, is_Some (wps s !! p) -> (p < next_id (al s))%positive) /\
  (forall p, is_Some (wdss s !! p) -> (p < next_id (al s))%positive).

(** [tab] maps each word of [mp], by its hash, to a record with the word and
    its positions. *)
Record word_table s (tab : table (V := positive)) mp : Prop := {
  wt_rep : exists kvs, t_rep (al s) tab kvs /\ length kvs = size mp /\
    (forall h p, (list_to_map kvs : gmap Z positive) !! h = Some p ->
       exists w ps, wps s !! p = Some (mkWP w ps) /\ h = FNVHash64 w /\ mp !! w = Some ps) /\
    (forall w ps, mp !! w = Some ps ->
       exists p, (list_to_map kvs : gmap Z positive) !! FNVHash64 w = Some p /\
                 wps s !! p = Some (mkWP w ps))
}.

(** The hash tells [w] from the words of [mp]. *)
Definition distinct_hash mp (w : list Z) : Prop :=
  forall w', is_Some (mp !! w') -> FNVHash64 w' = FNVHash64 w -> w' = w.

(** The rest of the store is kept; new records are added. *)
Definition store_after s s' : Prop := after (al s) (al s') /\ wdss s' = wdss s.

Lemma must_alloc_ok s : plentiful (al s) ->
  exists p s', must_alloc s = Ok (p, s') /\ store_after s s' /\ wps s' = wps s /\
    p = next_id (al s) /\ (p < next_id (al s'))%positive.
Proof.
  intros Hp. destruct (alloc_ok (al s) Hp) as (m' & HR & HL & Hid).
  exists (next_id (al s)), (mkStore m' (wps s) (wdss s)).
  unfold must_alloc, lift, bind. rewrite HR. cbn. split_and!; try done. split; [by eexists|done].
Qed.

Lemma lift_ok {A} (f : M mem A) s a m' :
  f (al s) = Ok (a, m') -> lift f s = Ok (a, mkStore m' (wps s) (wdss s)).
Proof. intros H. unfold lift. by rewrite H. Qed.

Lemma append_checked_ok s : plentiful (al s) ->
  exists m', append_checked s = Ok (tt, mkStore m' (wps s) (wdss s)) /\ after (al s) m'.
Proof.
  intros Hp. destruct (alloc_after (al s) Hp) as (p & m' & HR & HA). exists m'.
  unfold append_checked. by step (lift_ok _ _ _ _ HR).
Qed.

Lemma after_id m m' : after m m' -> (next_id m <= next_id m')%positive.
Proof. by intros [d []]. Qed.

Lemma fresh_later s m' : fresh_store s -> after (al s) m' -> fresh_store (mkStore m' (wps s) (wdss s)).
Proof.
  intros [H1 H2] Ha. pose proof (after_id _ _ Ha). split; cbn; intros p Hp.
  - specialize (H1 p Hp). lia.
  - specialize (H2 p Hp). lia.
Qed.

Lemma AddToHashtable_ok s tab mp w pos :
  word_table s tab mp -> fresh_store s -> plentiful (al s) -> distinct_hash mp w ->
  Z.of_nat (size mp) < capacity ->
  exists tab' s', AddToHashtable tab w pos s = Ok (tab', s') /\
    word_table s' tab' (add_word mp (w, pos)) /\ fresh_store s' /\ store_after s s'.
Proof.
  intros [(kvs & Hrep & Hlen & Hfwd & Hbwd)] Hfr Hp Hdist Hcap. unfold AddToHashtable, add_word. cbn [fst snd].
  destruct (t_lookup_ok _ _ _ (FNVHash64 w) Hrep Hp) as (m1 & R1 & A1). step (lift_ok _ _ _ _ R1).
  set (s1 := mkStore m1 (wps s) (wdss s)).
  assert (Hp1 : plentiful (al s1)) by (by eapply after_plentiful).
  pose proof (fresh_later s m1 Hfr A1) as Hfr1. fold s1 in Hfr1.
  destruct (mp !! w) as [ps|] eqn:Hw.
  - destruct (Hbwd w ps Hw) as (p & Hk & Hwp). rewrite Hk. cbn [Z.eqb Pos.eqb snd fst get_or].
    rewrite bind_ret. assert (HL : load_wp p s1 = Ok (mkWP w ps, s1)).
    { unfold load_wp, bind. cbn. by rewrite Hwp. }
    step HL. destruct (append_checked_ok s1 Hp1) as (m2 & R2 & A2). step R2. unfold bind at 1. cbn.
    assert (A02 : after (al s) m2) by (by rewrite A1).
    exists tab. eexists. split; [reflexivity|]. split; [|split].
    + split. exists kvs. cbn. split_and!; [by eapply t_rep_after| | |].
      * rewrite map_size_insert_Some by (by eexists). done.
      * intros h q Hq. destruct (Hfwd h q Hq) as (w' & ps' & Hq' & -> & Hm).
        destruct (decide (q = p)) as [->|Hne].
        -- rewrite Hwp in Hq'. injection Hq' as <- <-. exists w, (ps ++ [pos]).
           by rewrite !lookup_insert_eq.
        -- exists w', ps'. rewrite !lookup_insert_ne; [done| |congruence].
           intros <-. congruence.
      * intros w' ps' [[<- <-]|[Hne Hm]]%lookup_insert_Some.
        -- exists p. by rewrite lookup_insert_eq.
        -- destruct (Hbwd w' ps' Hm) as (q & Hq & Hwq). exists q.
           rewrite lookup_insert_ne; [done|]. intros <-. congruence.
    + destruct (fresh_later s m2 Hfr A02) as [F1 F2]. split; cbn in *; [|done].
      intros q [->|[_ Hq]]%lookup_insert_is_Some; [|by apply F1]. apply F1. by eexists.
    + split; [done|done].
  - assert (Hk : (list_to_map kvs : gmap Z positive) !! FNVHash64 w = None).
    { destruct (_ !! FNVHash64 w) as [p|] eqn:E; [|done]. destruct (Hfwd _ _ E) as (w' & ps & _ & E' & Hm).
      rewrite (Hdist w') in Hm; [congruence|by eexists|done]. }
    rewrite Hk. cbn [Z.eqb].
    destruct (must_alloc_ok s1 Hp1) as (p2 & s2 & R2 & [A2 W2] & P2 & _ & _). step R2.
    assert (Hp2 : plentiful (al s2)) by (by eapply after_plentiful).
    destruct (must_alloc_ok s2 Hp2) as (p & s3 & R3 & [A3 W3] & P3 & Hid & Hlt). step R3.
    assert (Hp3 : plentiful (al s3)) by (by eapply after_plentiful).
    destruct (alloc_after (al s3) Hp3) as (p4 & m4 & R4 & A4). step (lift_ok _ _ _ _ R4).
    rewrite bool_decide_true by (by eexists). cbn [ensure]. rewrite bind_ret.
    set (s4 := mkStore m4 (wps s3) (wdss s3)).
    destruct (append_checked_ok s4) as (m5 & R5 & A5); [by eapply after_plentiful|]. step R5.
    unfold bind at 1. cbn [store_wp modify al wps wdss]. cbn in A5.
    assert (A05 : after (al s) m5).
    { transitivity m1; [done|]. transitivity (al s2); [done|]. transitivity (al s3); [done|].
      by transitivity m4. }
    destruct (t_insert_ok m5 tab kvs (FNVHash64 w) p) as (tab' & kvs' & m6 & R6 & A6 & Hrep' & E');
      [by eapply t_rep_after|by eapply after_plentiful|lia|]. rewrite Hk in R6.
    unfold lift at 1, bind at 1. cbn [al]. rewrite R6. cbn [Z.eqb Pos.eqb ensure]. rewrite bind_ret.
    assert (Hw0 : wps s !! p = None).
    { destruct (wps s !! p) eqn:E; [|done]. destruct Hfr as [F1 _].
      specialize (F1 p ltac:(by eexists)). rewrite Hid in F1.
      pose proof (after_id _ _ A1). pose proof (after_id _ _ A2). cbn in *. lia. }
    assert (Hw3 : wps s4 = wps s) by (cbn; by rewrite P3, P2).
    rewrite Hw3. exists tab'. eexists. split; [reflexivity|].
    assert (A06 : after (al s) m6) by (by rewrite A05).
    split; [|split].
    + split. exists kvs'. cbn. split_and!; [done| | |].
      * rewrite map_size_insert_None by done. rewrite <- Hlen.
        apply (Permutation_length (l' := (FNVHash64 w, p) :: kvs)).
        eapply insert_new_perm; [by eapply t_rep_nodup..|done|done].
      * intros h q. rewrite E'. intros [[<- <-]|[Hne Hq]]%lookup_insert_Some.
        -- exists w, [pos]. by rewrite !lookup_insert_eq.
        -- destruct (Hfwd h q Hq) as (w' & ps & Hwq & -> & Hm). exists w', ps.
           rewrite !lookup_insert_ne; [done|congruence|]. intros <-. congruence.
      * intros w' ps' [[<- <-]|[Hne Hm]]%lookup_insert_Some.
        -- exists p. by rewrite E', !lookup_insert_eq.
        -- destruct (Hbwd w' ps' Hm) as (q & Hq & Hwq). exists q. rewrite E'.
           rewrite !lookup_insert_ne; [done| |].
           ++ intros <-. congruence.
           ++ intros E. apply Hne. symmetry. apply Hdist; [by eexists|done].
    + destruct (fresh_later s m6 Hfr A06) as [F1 F2]. split; cbn in *; [|].
      * intros q [->|[_ Hq]]%lookup_insert_is_Some; [|by apply F1].
        pose proof (after_id _ _ A4). pose proof (after_id _ _ A5). pose proof (after_id _ _ A6). lia.
      * intros q Hq. rewrite W3, W2 in Hq. by apply F2.
    + split; [done|]. cbn. by rewrite W3, W2.
Qed.

Lemma isalpha_tolower c : isalpha c = true -> isalpha (tolower c) = true /\ tolower c <> 0.
Proof.
  unfold isalpha, tolower. rewrite orb_true_iff, !andb_true_iff, !Z.leb_le.
  destruct ((65 <=? c) && (c <=? 90)) eqn:E; rewrite ?orb_true_iff, ?andb_true_iff, ?Z.leb_le in *;
    intros H; lia.
Qed.

Lemma isalpha_0 : isalpha 0 = false.
Proof. reflexivity. Qed.

Lemma cstring_run run rest : Forall (fun c => isalpha c = true) run -> cstring (run ++ 0 :: rest) = Some run.
Proof.
  induction 1 as [|c run Hc _ IH]; cbn; [done|].
  destruct (Z.eqb_spec c 0) as [->|_]; [done|]. by rewrite IH.
Qed.

(** The scanning loop, from the middle of a run: the buffer is split into what
    was scanned, the lower-cased run so far, and the text to come. *)
Lemma LoopAndInsert_loop_ok (D : list Z -> Prop)
  (HD : forall w1 w2, D w1 -> D w2 -> FNVHash64 w1 = FNVHash64 w2 -> w1 = w2) :
  forall text fuel s tab mp scanned run,
  word_table s tab mp -> fresh_store s -> plentiful (al s) ->
  Forall (fun c => isalpha c = true) run -> Forall (fun c => c <> 0) text ->
  let ws := words_from text (length scanned + length run) run in
  (forall w, is_Some (mp !! w) -> D w) -> (forall x, x ∈ ws -> D x.1) ->
  Z.of_nat (size mp + length ws) <= capacity -> (length text < fuel)%nat ->
  exists tab' s', LoopAndInsert_loop fuel tab (scanned ++ run ++ text ++ [0])
      (length scanned + length run) (length scanned) s = Ok (tab', s') /\
    word_table s' tab' (foldl add_word mp ws) /\ fresh_store s' /\ store_after s s'.
Proof.
  induction text as [|c text IH]; intros fuel s tab mp scanned run Hwt Hfr Hp Hrun Htext ws HDm HDw Hcap Hfuel;
    (destruct fuel as [|fuel]; [lia|]); cbn [LoopAndInsert_loop].
  { assert (Hc : (scanned ++ run ++ [] ++ [0]) !! (length scanned + length run)%nat = Some 0).
    { rewrite app_assoc, <- length_app. by apply list_lookup_middle. }
    rewrite Hc. cbn [get_or]. rewrite bind_ret. cbn. by exists tab, s. }
  assert (Hc : (scanned ++ run ++ (c :: text) ++ [0]) !! (length scanned + length run)%nat = Some c).
  { rewrite app_assoc, <- length_app. by apply list_lookup_middle. }
  rewrite Hc. cbn [get_or]. rewrite bind_ret.
  inversion_clear Htext as [|? ? Hc0 Htext'].
  rewrite (proj2 (Z.eqb_neq c 0)) by done. cbn [words_from] in ws.
  assert (Hset : forall x, <[(length scanned + length run)%nat := x]> (scanned ++ run ++ (c :: text) ++ [0])
    = (scanned ++ run) ++ x :: text ++ [0]).
  { intros x. rewrite app_assoc, <- length_app. by rewrite <- (Nat.add_0_r (length (scanned ++ run))), insert_app_r. }
  destruct (isalpha c) eqn:Ha.
  - rewrite Hset. destruct (isalpha_tolower c Ha) as [Ht _].
    replace ((scanned ++ run) ++ tolower c :: text ++ [0]) with (scanned ++ (run ++ [tolower c]) ++ text ++ [0])
      by (by rewrite <- !app_assoc).
    subst ws. replace (S (length scanned + length run)) with (length scanned + length (run ++ [tolower c]))%nat in *
      by (rewrite length_app; cbn; lia).
    apply IH; try done. { by apply Forall_app_2; [|constructor]. } cbn [length] in Hfuel. lia.
  - assert (Hw : (scanned ++ run ++ (c :: text) ++ [0]) !! length scanned = Some (hd c run)).
    { destruct run; by apply list_lookup_middle. }
    rewrite Hw. cbn [get_or]. rewrite bind_ret.
    assert (Hpos : S (length scanned + length run) = (length (scanned ++ run ++ [c]) + 0)%nat).
    { rewrite !length_app. cbn. lia. }
    destruct run as [|r0 run]; cbn [hd].
    + rewrite Ha. replace (scanned ++ [] ++ (c :: text) ++ [0])
        with ((scanned ++ [] ++ [c]) ++ [] ++ text ++ [0]) by (by rewrite <- !app_assoc).
      replace (S (length scanned + length [])) with (length (scanned ++ [] ++ [c]))
        by (rewrite !length_app; cbn; lia).
      subst ws. rewrite Hpos in *.
      destruct (IH fuel s tab mp (scanned ++ [] ++ [c]) [] Hwt Hfr Hp) as (tab' & s' & HR & Hrest); try done.
      { cbn [length] in Hfuel. lia. }
      exists tab', s'. split; [|done]. rewrite <- HR. cbn [length]. by rewrite Nat.add_0_r.
    + pose proof Hrun as Hrun'. inversion_clear Hrun' as [|? ? Hr0 _]. rewrite Hr0, Hset.
      rewrite <- app_assoc, drop_app_length, cstring_run by done. cbn [get_or]. rewrite bind_ret.
      set (run' := r0 :: run) in *. set (w := (run', u32 (Z.of_nat (length scanned)))).
      assert (Ews : ws = w :: words_from text (length (scanned ++ run' ++ [c]) + 0) []).
      { subst ws w. rewrite Hpos. do 3 f_equal. lia. }
      clearbody ws. subst ws. cbn [length] in Hcap.
      destruct (AddToHashtable_ok s tab mp run' (u32 (Z.of_nat (length scanned)))) as
        (tab1 & s1 & R1 & Hwt1 & Hfr1 & Hs1); [done|done|done| |lia|].
      { intros w' Hw' E. apply HD; [by apply HDm| |done]. apply (HDw w). by left. }
      step R1. replace (scanned ++ run' ++ 0 :: text ++ [0])
        with ((scanned ++ run' ++ [0]) ++ [] ++ text ++ [0]) by (by rewrite <- !app_assoc).
      assert (Hlen : length (scanned ++ run' ++ [c]) = length (scanned ++ run' ++ [0])) by (by rewrite !length_app).
      rewrite Hpos, Hlen in *. cbn [foldl].
      destruct (IH fuel s1 tab1 (add_word mp w) (scanned ++ run' ++ [0]) []) as (tab' & s' & HR & Hwt' & Hfr' & Hs');
        try done.
      * destruct Hs1 as [A1 _]. by eapply after_plentiful.
      * unfold add_word. intros w' [<-|[_ Hm]]%lookup_insert_is_Some; [|by apply HDm].
        apply (HDw w). by left.
      * intros x Hx. apply HDw. by right.
      * assert (size (add_word mp w) <= S (size mp))%nat.
        { unfold add_word. destruct (mp !! w.1) eqn:E.
          - rewrite map_size_insert_Some by (by eexists). lia.
          - rewrite map_size_insert_None by done. lia. }
        change (length (@nil Z)) with 0%nat. lia.
      * cbn [length] in Hfuel. lia.
      * exists tab', s'. split_and!; try done.
        -- rewrite <- HR. cbn [length]. by rewrite Nat.add_0_r.
        -- destruct Hs1 as [A1 E1], Hs' as [A' E']. split; [by transitivity (al s1)|congruence].
Qed.

(** *** Reading *)

(** The reads deliver [content], retrying after transient errors. *)
Inductive delivers : list read_result -> list Z -> Prop :=
  | delivers_done rs : delivers rs []
  | delivers_retry rs c : delivers rs c -> delivers (ReadError true :: rs) c
  | delivers_bytes bs rs c : bs <> [] -> delivers rs c -> delivers (ReadBytes bs :: rs) (bs ++ c).

Lemma ReadFile_loop_ok rs c : delivers rs c -> forall buf s,
  ReadFile_loop rs (Z.of_nat (length c)) buf s = Ok (Some (buf ++ c, 0), s).
Proof.
  induction 1 as [rs|rs c _ IH|bs rs c Hbs _ IH]; intros buf s.
  - rewrite app_nil_r. by destruct rs.
  - destruct c as [|b c]; [by rewrite app_nil_r|]. apply IH.
  - destruct bs as [|b bs]; [done|]. rewrite length_app. cbn [ReadFile_loop].
    rewrite (proj2 (Z.leb_gt _ 0)) by (cbn; lia).
    replace (Z.of_nat (length (b :: bs) + length c) - Z.of_nat (length (b :: bs)))
      with (Z.of_nat (length c)) by lia.
    by rewrite IH, <- app_assoc.
Qed.

(** The file can be read and holds [content]. *)
Definition readable (f : file_script) (content : list Z) : Prop :=
  f_stat f = Some (true, Z.of_nat (length content)) /\ f_open f = true /\
  delivers (f_reads f) content /\ Z.of_nat (length content) < 2 ^ 32.

Definition ascii (content : list Z) : Prop := Forall (fun c => 0 < c <= 127) content.

Lemma ReadFile_ok f content s :
  readable f content -> plentiful (al s) ->
  exists m', ReadFile f s = Ok (Some (content ++ [0], Z.of_nat (length content)),
                              mkStore m' (wps s) (wdss s)) /\ after (al s) m'.
Proof.
  intros (Hst & Hop & Hrd & Hlen) Hp. unfold ReadFile. rewrite Hst, Hop. cbn [negb].
  destruct (alloc_after (al s) Hp) as (p & m1 & R1 & A1). step (lift_ok _ _ _ _ R1).
  step (ReadFile_loop_ok _ _ Hrd [] (mkStore m1 (wps s) (wdss s))).
  rewrite Z.sub_0_r, wrapu_small, Nat2Z.id by lia. cbn [app]. rewrite firstn_all. by exists m1.
Qed.

Lemma BuildWordHT_ok s f content :
  readable f content -> ascii content -> fresh_store s -> plentiful (al s) ->
  (forall w1 w2, w1 ∈ (words content).*1 -> w2 ∈ (words content).*1 ->
     FNVHash64 w1 = FNVHash64 w2 -> w1 = w2) ->
  Z.of_nat (length (words content)) <= capacity ->
  exists r s', BuildWordHT f s = Ok (r, s') /\ fresh_store s' /\ store_after s s' /\
    match words content with
    | [] => r = None
    | ws => exists tab, r = Some tab /\ word_table s' tab (index_of ws)
    end.
Proof.
  intros Hf Has Hfr Hp Hinj Hcap.
  unfold BuildWordHT. destruct (ReadFile_ok f content s Hf Hp) as (m1 & R1 & A1). step R1.
  destruct content as [|c0 content0] eqn:Hcontent.
  { cbn. eexists None, _. split; [reflexivity|]. split; [by apply fresh_later|done]. }
  rewrite <- Hcontent in *. rewrite (proj2 (Z.eqb_neq _ 0)) by (subst content; cbn; lia).
  rewrite Nat2Z.id, take_app_length.
  replace (existsb _ content) with false.
  2:{ symmetry. apply not_true_iff_false. rewrite existsb_exists. intros (c & Hin%list_elem_of_In & Hc).
      unfold ascii in Has. rewrite Forall_forall in Has. specialize (Has c Hin).
      unfold ASCII_UPPER_BOUND in Hc. apply orb_true_iff in Hc as [?%Z.eqb_eq|?%Z.ltb_lt]; lia. }
  destruct (t_alloc_ok (V := positive) 64 m1) as (tab & m2 & R2 & A2 & Hrep);
    [lia|by eapply after_plentiful|].
  set (s1 := mkStore m1 (wps s) (wdss s)). set (s2 := mkStore m2 (wps s) (wdss s)).
  assert (RL : lift (t_alloc 64) s1 = Ok (Some tab, s2)) by (exact (lift_ok (t_alloc 64) s1 _ _ R2)). step RL.
  cbn [get_or]. rewrite bind_ret.
  assert (A02 : after (al s) m2) by (by rewrite A1).
  destruct (LoopAndInsert_loop_ok (fun w => w ∈ (words content).*1)) with
    (text := content) (fuel := length (content ++ [0])) (s := s2) (tab := tab)
    (mp := (∅ : gmap (list Z) (list Z))) (scanned := @nil Z) (run := @nil Z)
    as (tab' & s3 & R3 & Hwt & Hfr3 & A3 & W3); try done.
  { split. exists []. by split_and!. }
  { by apply (fresh_later s). }
  { by eapply after_plentiful. }
  { eapply Forall_impl; [exact Has|]. cbn. lia. }
  { intros w [x Hx]. by rewrite lookup_empty in Hx. }
  { intros x Hx. rewrite words_scan. by apply list_elem_of_fmap_2. }
  { by rewrite <- words_scan. }
  { rewrite length_app. cbn. lia. }
  change (length [] + length [])%nat with 0%nat in Hwt. cbn [length Nat.add app] in R3, Hwt. unfold LoopAndInsert. step R3.
  rewrite <- words_scan in Hwt. fold (index_of (words content)) in Hwt.
  pose proof Hwt as [(kvs & Hrep3 & Hlen & _)]. rewrite (t_rep_num _ _ _ Hrep3), Hlen.
  destruct (words content) as [|x ws] eqn:Hws.
  - change (size (index_of [])) with 0%nat. change (Z.of_nat 0 =? 0) with true. cbn iota.
    change (size (index_of [])) with 0%nat in Hlen. assert (kvs = []) as -> by (destruct kvs; [done|discriminate Hlen]).
    unfold FreeWordHT. rewrite bind_assoc, (bind_ok _ _ s3 _ _ eq_refl).
    destruct (t_free_ok (al s3) (al s3) tab' [] (WordHTFree (wps s3)) Hrep3) as (m4 & R4 & A4);
      [by intros k v m ?%elem_of_nil|].
    step (lift_ok _ _ _ _ R4). destruct (release_after 1 m4) as (m5 & R5 & A5).
    unfold lift at 1, bind at 1. cbn [al]. rewrite R5.
    assert (A35 : after (al s3) m5) by (by rewrite A4).
    eexists None, _. split; [reflexivity|]. split; [by apply (fresh_later s3)|]. split; [|done].
    split; [|done]. transitivity m2; [done|]. by transitivity (al s3).
  - assert (Hsz : size (index_of (x :: ws)) <> 0%nat).
    { rewrite map_size_empty_iff. intros E. pose proof (index_of_lookup (x :: ws) x.1) as Hi.
      rewrite E, lookup_empty in Hi. unfold positions_of in Hi. by rewrite filter_cons_True in Hi. }
    rewrite (proj2 (Z.eqb_neq _ 0)) by lia.
    destruct (release_after 1 (al s3)) as (m4 & R4 & A4). step (lift_ok _ _ _ _ R4).
    eexists (Some tab'), _. split; [reflexivity|]. split; [by apply fresh_later|]. split.
    + split; [|done]. transitivity m2; [done|]. by transitivity (al s3).
    + exists tab'. split; [done|]. destruct Hwt as [(kvs' & H1 & H2 & H3 & H4)].
      split. exists kvs'. split_and!; try done. by eapply t_rep_after.
Qed.

(** reading a regular file in any pieces, with any number of transient
    errors, and splitting it, [BuildWordHT] yields a table of exactly the
    maximal letter runs of the file that are followed by another character,
    lower-cased, each with its offsets in order; it yields [NULL] when there is
    none.  A run of letters that ends the file is left out. *)
Theorem BuildWordHT_indexes s f content :
  readable f content -> ascii content -> fresh_store s -> plentiful (al s) ->
  (forall w1 w2, w1 ∈ (words content).*1 -> w2 ∈ (words content).*1 ->
     FNVHash64 w1 = FNVHash64 w2 -> w1 = w2) ->
  Z.of_nat (length (words content)) <= capacity ->
  (exists r s', BuildWordHT f s = Ok (r, s') /\ fresh_store s' /\ store_after s s' /\
     match words content with
     | [] => r = None
     | ws => exists tab, r = Some tab /\ word_table s' tab (index_of ws)
     end) /\
  (forall w, index_of (words content) !! w =
     match positions_of w (words content) with [] => None | ps => Some ps end) /\
  (forall text c dangling, content = text ++ c :: dangling -> isalpha c = false ->
     Forall (fun c => isalpha c = true) dangling -> words content = words (text ++ [c])).
Proof.
  intros Hf Has Hfr Hp Hinj Hcap. split; [by apply BuildWordHT_ok|split; [apply index_of_lookup|]].
  intros text c dangling -> Hc Hd. rewrite !words_scan. by apply words_from_app.
Qed.

End Spec.

(** The file "Hi a b", read in two pieces with an interruption: "b" is lost. *)
Definition sample_text : list Z := [72; 105; 32; 97; 32; 98].
Definition sample_file : file_script :=
  mkFile (Some (true, 6)) true [ReadBytes [72; 105]; ReadError true; ReadBytes [32; 97; 32; 98]].
Definition empty_store : store hash_ops := mkStore (mkMem 1 (fun _ => false) 0 0) ∅ ∅.

Lemma sample_readable : readable sample_file sample_text.
Proof.
  split; [done|]. split; [done|]. split; [|done].
  apply (delivers_bytes [72; 105] _ [32; 97; 32; 98]); [done|]. apply delivers_retry.
  by apply (delivers_bytes [32; 97; 32; 98] _ []); [|constructor].
Qed.

Lemma BuildWordHT_indexes_witness : exists tab s',
  BuildWordHT sample_file empty_store = Ok (Some tab, s') /\
  word_table s' tab {[ [104; 105] := [0]; [97] := [3] ]}.
Proof.
  assert (Hp : plentiful (al empty_store)) by (intros n; reflexivity).
  assert (Hfr : fresh_store empty_store).
  { split; intros p [x Hx]; cbn in Hx; rewrite lookup_empty in Hx; discriminate. }
  assert (Has : ascii sample_text) by (repeat constructor; discriminate).
  assert (Hws : words sample_text = [([104; 105], 0); ([97], 3)]) by reflexivity.
  destruct (BuildWordHT_indexes empty_store sample_file sample_text sample_readable Has Hfr Hp)
    as [(r & s' & HR & _ & _ & Hr) _].
  - rewrite Hws. cbn. intros w1 w2 H1 H2 E.
    apply elem_of_cons in H1 as [->|H1%list_elem_of_singleton];
      apply elem_of_cons in H2 as [->|H2%list_elem_of_singleton]; subst; try reflexivity;
      vm_compute in E; discriminate.
  - rewrite Hws. discriminate.
  - rewrite Hws in Hr. destruct Hr as (tab & -> & Hwt). exists tab, s'. split; [exact HR|].
    replace {[_ := _; _ := _]} with (index_of [([104; 105], 0); ([97], 3)]); [exact Hwt|reflexivity].
Defined.
