(* ===== verification/MemIndex.v ===== *)
(** The inverted index and its queries, [uw_cse333/hw/hw2/memindex.c], over
    the table interface and the store of [FileParser].  The list of results is
    the abstract linked list of [LinkedListSpec]: [SortLinkedList] is the
    bubble sort by sweeps that [SortLinkedList_ok] shows the heap-level
    function to run, and an iterator is the list split at its node. *)
From S2P Require Import Prelude Alloc HashTable Table FileParser LinkedList LinkedListSpec.
Open Scope Z_scope.

(** memindex.h *)
Record SearchResult := mkSR { docid : Z; rank : Z }.

Definition MISearchListComparator (e1 e2 : SearchResult) : Z :=
  if rank e2 <? rank e1 then 1
  else if rank e1 <? rank e2 then -1
  else 0.

(** [do { sweep } while (swapped)] on the payloads of a list. *)
Fixpoint sort_rounds {A} (fuel : nat) (ascending : Z) (comparator : A -> A -> Z) (xs : list A)
    : list A :=
  match fuel, xs with
  | O, _ | _, [] => xs
  | S fuel', x :: rest =>
      let r := sweep ascending comparator x rest in
      if r.2 then sort_rounds fuel' ascending comparator r.1 else r.1
  end.
Definition sort_list {A} (ascending : Z) (comparator : A -> A -> Z) (xs : list A) : list A :=
  if (length xs <? 2)%nat then xs
  else sort_rounds (S (length xs * length xs)) ascending comparator xs.

Section MemIndex.
Context {OL : TableOps (list Z)} {OP : TableOps positive}.

Definition load_wds (p : positive) : M (store OL) (WordDocSet OL) :=
  let* h := gets wdss in get_or BadAccess (h !! p).
Definition store_wds (p : positive) (w : WordDocSet OL) : M (store OL) unit :=
  modify (fun s => mkStore (al s) (wps s) (<[p := w]> (wdss s))).

Definition AllocateMemIndex : M (store OL) (option (table (V := positive))) :=
  lift (t_alloc 128).

(** Releases a list of positions. *)
Definition MIListFree (positions : list Z) : M mem unit := release (Z.of_nat (length positions) + 1).

(** Releases the word, the table of postings and the record, which the index is the
    last to point to; [h] holds the records. *)
Definition MIFree (h : gmap positive (WordDocSet OL)) (ptr : positive) : M mem unit :=
  let* wd := get_or BadAccess (h !! ptr) in
  do* release 1;
  do* t_free (docIDs wd) MIListFree;
  release 1.

Definition FreeMemIndex (index : table (V := positive)) : M (store OL) unit :=
  let* h := gets wdss in lift (t_free index (MIFree h)).

Definition MINumWordsInMemIndex (index : table (V := positive)) : Z := t_num index.

Definition MIAddPostingList (index : table (V := positive)) (word : list Z) (docid : Z)
    (positions : list Z) : M (store OL) (Z * table (V := positive)) :=
  let wordkey := FNVHash64 word in
  let* (res, kv) := lift (t_lookup index wordkey) in
  let* r :=
    (if res =? 0 then
       let* wds := lift alloc in
       match wds with
       | None => ret None
       | Some wds =>
           let* docIDs := lift (t_alloc 32) in
           let* docIDs := get_or VerifyFailed docIDs in
           do* store_wds wds (mkWDS word docIDs);
           let* (res, _, index) := lift (t_insert index wordkey wds) in
           do* ensure VerifyFailed (res =? 1);
           ret (Some (wds, index))
       end
     else
       do* lift (release 1);
       let* kv := get_or BadAccess kv in
       ret (Some (kv.2, index))) in
  match r with
  | None => ret (0, index)
  | Some (wds, index) =>
      let* w := load_wds wds in
      let* (res, _) := lift (t_lookup (docIDs w) docid) in
      do* ensure VerifyFailed (res =? 0);
      let* (res, _, d) := lift (t_insert (docIDs w) docid positions) in
      do* store_wds wds (mkWDS (wds_word w) d);
      do* ensure VerifyFailed (res =? 1);
      ret (1, index)
  end.

(** [do ... while (HTIteratorNext(iter))]: the results of the first word.  A
    failed [HTIteratorGet] leaves no positions list to count, and a list that
    could not be allocated ([have_list]) cannot be pushed on. *)
Fixpoint first_word_loop (fuel : nat) (have_list : bool) (t : table (V := list Z))
    (iter : titer (V := list Z)) (retlist : list SearchResult) : M (store OL) (titer (V := list Z) * list SearchResult) :=
  match fuel with
  | O => fail OutOfFuel
  | S fuel' =>
      let* (_, kv) := lift (t_get iter t) in
      let* sr := must_alloc in
      let* kv := get_or BadAccess kv in
      let sr := mkSR kv.1 (u32 (Z.of_nat (length kv.2))) in
      do* ensure VerifyFailed have_list;
      let* node := lift alloc in
      let retlist := if node then sr :: retlist else retlist in
      let* (more, iter) := lift (t_next iter t) in
      if negb (more =? 0) then first_word_loop fuel' have_list t iter retlist else ret (iter, retlist)
  end.

(** The list with an iterator on it: the nodes behind, under and ahead. *)
Definition position : Type := list SearchResult * SearchResult * list SearchResult.

(** [for (j = 0; j < ne; j++)]: keeps the results that have the next word. *)
Fixpoint next_word_loop (ne : nat) (wds : table (V := list Z)) (llit : option position)
    : M (store OL) (option position) :=
  match ne with
  | O => ret llit
  | S ne' =>
      let* (before, rs, ahead) := get_or VerifyFailed llit in
      let* (res, kv) := lift (t_lookup wds (docid rs)) in
      if res =? 0 then
        do* lift (release 2);
        next_word_loop ne' wds
          (match ahead with
           | y :: ahead' => Some (before, y, ahead')
           | [] => match rev before with y :: before' => Some (rev before', y, []) | [] => None end
           end)
      else
        let* kv := get_or BadAccess kv in
        let rs := mkSR (docid rs) (u32 (rank rs + u32 (Z.of_nat (length kv.2)))) in
        next_word_loop ne' wds
          (match ahead with
           | y :: ahead' => Some (before ++ [rs], y, ahead')
           | [] => Some (before, rs, [])
           end)
  end.

Definition list_of (p : option position) : list SearchResult :=
  match p with Some (before, rs, ahead) => before ++ rs :: ahead | None => [] end.

(** [LLMakeIterator(retlist, 0)] *)
Definition make_iter (retlist : list SearchResult) : M (store OL) (option position) :=
  match retlist with
  | [] => ret None
  | rs :: ahead =>
      let* it := lift alloc in
      ret (if it then Some ([], rs, ahead) else None)
  end.

(** [FreeLinkedList(retlist, free)]: a node and a result each, and the list. *)
Definition free_results (retlist : list SearchResult) : M (store OL) unit :=
  lift (release (2 * Z.of_nat (length retlist) + 1)).

(** [for (i = 1; i < qlen; i++)]; [todo] words are left. *)
Fixpoint query_loop (todo : nat) (index : table (V := positive)) (query : list (list Z)) (i : nat)
    (retlist : list SearchResult) : M (store OL) (option (list SearchResult)) :=
  match todo with
  | O => ret (Some retlist)
  | S todo' =>
      let* word := get_or BadAccess (query !! i) in
      let* (res, kv) := lift (t_lookup index (FNVHash64 word)) in
      if res =? 0 then do* free_results retlist; ret None
      else
        let* kv := get_or BadAccess kv in
        let* wds := load_wds kv.2 in
        let* llit := make_iter retlist in
        let broken := bool_decide (llit = None) in
        let* llit := next_word_loop (length retlist) (docIDs wds) llit in
        do* ensure VerifyFailed (negb broken);
        do* lift (release 1);
        query_loop todo' index query (S i) (list_of llit)
  end.

(** The sorted results, or [NULL]. *)
Definition MIProcessQuery (index : table (V := positive)) (query : list (list Z)) (qlen : Z)
    : M (store OL) (option (list SearchResult)) :=
  if qlen =? 0 then ret None
  else
    let* retlist := lift alloc in
    let* word := get_or BadAccess (query !! 0%nat) in
    let* (res, kv) := lift (t_lookup index (FNVHash64 word)) in
    if res =? 0 then
      do* ensure VerifyFailed (bool_decide (is_Some retlist));
      do* free_results [];
      ret None
    else
      let* kv := get_or BadAccess kv in
      let* wds := load_wds kv.2 in
      let* iter := lift (t_iter (docIDs wds)) in
      let* iter := get_or VerifyFailed iter in
      let* (iter, retlist) := first_word_loop (S (Z.to_nat (t_num (docIDs wds))))
        (bool_decide (is_Some retlist)) (docIDs wds) iter [] in
      do* lift (t_iter_free iter);
      if qlen =? 1 then ret (Some (sort_list 0 MISearchListComparator retlist))
      else
        let* retlist := query_loop (Z.to_nat qlen - 1) index query 1 retlist in
        match retlist with
        | None => ret None
        | Some [] => do* free_results []; ret None
        | Some retlist => ret (Some (sort_list 0 MISearchListComparator retlist))
        end.

End MemIndex.
