(* ===== verification/MemIndexSpec.v ===== *)
(** The inverted index, part 2: the map from words to documents to positions
    that an index represents, and what adding to it and querying it do. *)
From S2P Require Import Prelude Alloc HashTable Table FileParser FileParserSpec LinkedList LinkedListSpec MemIndex.
Open Scope Z_scope.

(** ** Sorting results *)

Section SortList.
Context {A : Type} (asc : Z) (cmp : A -> A -> Z).
Context (asym : forall a b, sort_swaps asc cmp a b = true -> sort_swaps asc cmp b a = false).

Lemma sort_rounds_perm fuel xs : sort_rounds fuel asc cmp xs ≡ₚ xs.
Proof.
  revert xs; induction fuel as [|fuel IH]; intros xs; [done|]. destruct xs as [|x rest]; [done|].
  cbn [sort_rounds].
  destruct (sweep asc cmp x rest).2; [rewrite IH|]; apply sweep_perm.
Qed.

Lemma sort_rounds_sorted fuel xs :
  (inversions asc cmp xs < fuel)%nat ->
  Sorted (fun a b => sort_swaps asc cmp a b = false) (sort_rounds fuel asc cmp xs).
Proof.
  revert xs; induction fuel as [|fuel IH]; intros xs Hf; [lia|]. destruct xs as [|x rest]; [constructor|].
  cbn [sort_rounds].
  pose proof (sweep_inversions asc cmp asym x rest) as Hi.
  destruct (sweep asc cmp x rest).2 eqn:E.
  - apply IH. lia.
  - by destruct (sweep_stays asc cmp x rest E) as [-> Hs].
Qed.

Lemma sort_list_perm xs : sort_list asc cmp xs ≡ₚ xs.
Proof. unfold sort_list. destruct (_ <? _)%nat; [done|]. apply sort_rounds_perm. Qed.

Lemma sort_list_sorted xs :
  Sorted (fun a b => sort_swaps asc cmp a b = false) (sort_list asc cmp xs).
Proof.
  unfold sort_list. destruct (Nat.ltb_spec (length xs) 2) as [Hl|Hl].
  - destruct xs as [|x [|y xs]]; [constructor|by repeat constructor|cbn in Hl; lia].
  - apply sort_rounds_sorted. pose proof (inversions_bound asc cmp xs). lia.
Qed.

End SortList.

Lemma results_swaps a b : sort_swaps 0 MISearchListComparator a b = (rank a <? rank b).
Proof.
  unfold sort_swaps, MISearchListComparator. cbn.
  destruct (Z.ltb_spec (rank b) (rank a)), (Z.ltb_spec (rank a) (rank b)); lia || done.
Qed.

Definition sort_results : list SearchResult -> list SearchResult := sort_list 0 MISearchListComparator.

Lemma sort_results_ok rs :
  sort_results rs ≡ₚ rs /\ StronglySorted (fun a b => rank b <= rank a) (sort_results rs).
Proof.
  split; [apply sort_list_perm|]. apply Sorted_StronglySorted; [intros a b c; lia|].
  eapply Sorted_weaken; [|apply sort_list_sorted].
  - intros a b. cbn. rewrite results_swaps, Z.ltb_ge. done.
  - intros a b. rewrite !results_swaps, Z.ltb_lt, Z.ltb_ge. lia.
Qed.

(** ** What an index represents *)

Abbreviation postings := (gmap Z (list Z)).

Section Spec.
Context {OL : TableOps (list Z)} {OP : TableOps positive} {LL : TableLaws (list Z)} {LP : TableLaws positive}.
Implicit Types (s : store OL) (IX : gmap (list Z) postings).

(** The record [d] holds word [w] with the postings [dm]. *)
Definition docset s (d : WordDocSet OL) (w : list Z) (dm : postings) : Prop :=
  wds_word d = w /\ exists kvs, t_rep (al s) (docIDs d) kvs /\ list_to_map kvs = dm /\
    length kvs = size dm.

Record index_rep s (index : table (V := positive)) IX : Prop := {
  ix_rep : exists kvs, t_rep (al s) index kvs /\ length kvs = size IX /\
    (forall h p, (list_to_map kvs : gmap Z positive) !! h = Some p ->
       exists w dm d, wdss s !! p = Some d /\ h = FNVHash64 w /\ IX !! w = Some dm /\ docset s d w dm) /\
    (forall w dm, IX !! w = Some dm ->
       exists p d, (list_to_map kvs : gmap Z positive) !! FNVHash64 w = Some p /\
                 wdss s !! p = Some d /\ docset s d w dm);
  ix_nonempty : forall w dm, IX !! w = Some dm -> dm <> ∅
}.

(** Releasing an index returns. *)
Lemma FreeMemIndex_ok s m index IX : index_rep s index IX ->
  exists m', FreeMemIndex index (mkStore m (wps s) (wdss s)) = Ok (tt, mkStore m' (wps s) (wdss s)) /\
    after m m'.
Proof.
  intros [(kvs & Hr & _ & Hf & _) _]. unfold FreeMemIndex.
  rewrite (bind_ok _ _ (mkStore m (wps s) (wdss s)) _ _ eq_refl). cbn [wdss].
  destruct (t_free_ok m (al s) index kvs (MIFree (wdss s)) Hr) as (m' & R & A).
  2:{ exists m'. split; [by apply (lift_ok _ (mkStore m (wps s) (wdss s)))|done]. }
  intros k p m1 Hk. apply elem_of_list_to_map_1 in Hk; [|by eapply t_rep_nodup].
  destruct (Hf k p Hk) as (w & dm & d & Hd & _ & _ & _ & kvs' & Hr' & _). unfold MIFree. rewrite Hd.
  cbn [get_or]. rewrite bind_ret. destruct (release_after 1 m1) as (m2 & R2 & A2). step R2.
  destruct (t_free_ok m2 (al s) (docIDs d) kvs' MIListFree Hr') as (m3 & R3 & A3);
    [intros; apply release_after|]. step R3.
  destruct (release_after 1 m3) as (m4 & R4 & A4). exists m4. split; [done|]. by rewrite A2, A3.
Qed.

(** The hash tells [w] from the indexed words. *)
Definition tells IX (w : list Z) : Prop :=
  forall w', is_Some (IX !! w') -> FNVHash64 w' = FNVHash64 w -> w' = w.

Definition add_posting IX (w : list Z) (d : Z) (ps : list Z) : gmap (list Z) postings :=
  <[w := <[d := ps]> (default ∅ (IX !! w))]> IX.

Lemma docset_after s (s' : store OL) d w dm :
  docset s d w dm -> after (al s) (al s') -> docset s' d w dm.
Proof.
  intros (Hw & kvs & Hr & Hm & Hl) Ha. split; [done|]. exists kvs. split; [by eapply t_rep_after|done].
Qed.

Lemma index_lookup s index IX w :
  index_rep s index IX -> plentiful (al s) -> tells IX w ->
  exists m', after (al s) m' /\ let s' := mkStore m' (wps s) (wdss s) in
    match IX !! w with
    | Some dm => exists p d, lift (t_lookup index (FNVHash64 w)) s = Ok ((1, Some (FNVHash64 w, p)), s') /\
        wdss s !! p = Some d /\ docset s' d w dm
    | None => lift (t_lookup index (FNVHash64 w)) s = Ok ((0, None), s')
    end.
Proof.
  intros [(kvs & Hr & Hl & Hf & Hb) _] Hp Ht.
  destruct (t_lookup_ok _ _ _ (FNVHash64 w) Hr Hp) as (m' & HR & Ha). exists m'. split; [done|]. cbn.
  destruct (IX !! w) as [dm|] eqn:Hw.
  - destruct (Hb w dm Hw) as (p & d & Hk & Hd & Hds). rewrite Hk in HR. exists p, d.
    split; [by apply lift_ok|]. split; [done|]. by eapply docset_after.
  - destruct (_ !! FNVHash64 w) as [p|] eqn:E in HR; [|by apply lift_ok].
    destruct (Hf _ _ E) as (w' & dm & d & _ & Hh & Hm & _). rewrite (Ht w') in Hm; [congruence|by eexists|done].
Qed.

Lemma load_wds_ok s p d : wdss s !! p = Some d -> load_wds p s = Ok (d, s).
Proof. intros H. unfold load_wds, bind. cbn. by rewrite H. Qed.

(** Storing a docset for one word, the index pointing to it. *)
Lemma index_store s s' index kvs' IX w p d dm :
  (forall h q, (list_to_map kvs' : gmap Z positive) !! h = Some q -> h <> FNVHash64 w ->
     exists w' dm' d', wdss s !! q = Some d' /\ h = FNVHash64 w' /\ IX !! w' = Some dm' /\ docset s d' w' dm') ->
  (forall w' dm', IX !! w' = Some dm' -> w' <> w ->
     exists q d', (list_to_map kvs' : gmap Z positive) !! FNVHash64 w' = Some q /\
       wdss s !! q = Some d' /\ docset s d' w' dm') ->
  (forall w' dm', IX !! w' = Some dm' -> dm' <> ∅) ->
  (list_to_map kvs' : gmap Z positive) !! FNVHash64 w = Some p ->
  (forall q d' w' dm', wdss s !! q = Some d' -> docset s d' w' dm' -> w' <> w -> q <> p) ->
  (forall w', is_Some (IX !! w') -> w' <> w -> FNVHash64 w' <> FNVHash64 w) ->
  t_rep (al s') index kvs' -> length kvs' = size (<[w := dm]> IX) -> dm <> ∅ ->
  after (al s) (al s') -> wdss s' = <[p := d]> (wdss s) -> docset s' d w dm ->
  index_rep s' index (<[w := dm]> IX).
Proof.
  intros Hf Hb Hne Hp Hdiff Hh Hr Hl Hdm Ha HW Hd. split.
  - exists kvs'. split_and!; [done|done| |].
    + intros h q Hq. destruct (decide (h = FNVHash64 w)) as [->|Hhw].
      * rewrite Hp in Hq. injection Hq as <-. exists w, dm, d. rewrite HW, !lookup_insert_eq. done.
      * destruct (Hf h q Hq Hhw) as (w' & dm' & d' & Hq' & -> & Hm & Hds).
        assert (w' <> w) by congruence. assert (q <> p) by (by eapply Hdiff).
        exists w', dm', d'. rewrite HW, !lookup_insert_ne by congruence.
        split_and!; [done..|by eapply docset_after].
    + intros w' dm' [[<- <-]|[Hw' Hm]]%lookup_insert_Some.
      * exists p, d. by rewrite HW, lookup_insert_eq.
      * destruct (Hb w' dm' Hm) as (q & d' & Hq & Hq' & Hds); [congruence|].
        assert (q <> p) by (by eapply Hdiff). exists q, d'. rewrite HW, lookup_insert_ne by congruence.
        split_and!; [done..|by eapply docset_after].
  - intros w' dm' [[<- <-]|[_ Hm]]%lookup_insert_Some; [done|by eapply Hne].
Qed.

Lemma MIAddPostingList_ok s index IX w docid ps :
  index_rep s index IX -> fresh_store s -> plentiful (al s) -> tells IX w ->
  default ∅ (IX !! w) !! docid = None -> Z.of_nat (size IX) < capacity ->
  Z.of_nat (size (default ∅ (IX !! w))) < capacity ->
  exists index' s', MIAddPostingList index w docid ps s = Ok ((1, index'), s') /\
    index_rep s' index' (add_posting IX w docid ps) /\ fresh_store s' /\
    after (al s) (al s') /\ wps s' = wps s.
Proof.
  intros Hix Hfr Hp Ht Hnew Hcap1 Hcap2. unfold MIAddPostingList, add_posting.
  destruct (index_lookup s index IX w Hix Hp Ht) as (m1 & A1 & HL). cbn in HL.
  set (s1 := mkStore m1 (wps s) (wdss s)) in *.
  assert (Hp1 : plentiful (al s1)) by (by eapply after_plentiful).
  pose proof (fresh_later s m1 Hfr A1) as Hfr1. fold s1 in Hfr1.
  destruct Hix as [(kvs & Hrep & Hlen & Hfwd & Hbwd) Hne].
  assert (Hhash : forall w', is_Some (IX !! w') -> w' <> w -> FNVHash64 w' <> FNVHash64 w) by (intros; eauto).
  destruct (IX !! w) as [dm|] eqn:Hw; cbn [default from_option] in *; unfold id in *.
  - destruct HL as (p & d & R1 & Hd & Hds). step R1. cbn [Z.eqb Pos.eqb].
    destruct (release_after 1 m1) as (m2 & R2 & A2). rewrite bind_assoc. step (lift_ok _ s1 _ _ R2).
    set (s2 := mkStore m2 (wps s1) (wdss s1)). cbn [get_or]. rewrite bind_assoc, bind_ret, bind_ret.
    cbn [snd]. step (load_wds_ok s2 p d Hd). destruct Hds as (Hdw & kv2 & Hr2 & Hm2 & Hl2).
    assert (Hp2 : plentiful m2) by (by eapply after_plentiful).
    assert (Hr2' : t_rep m2 (docIDs d) kv2) by (by eapply t_rep_after).
    destruct (t_lookup_ok _ _ _ docid Hr2' Hp2) as (m3 & R3 & A3). rewrite Hm2, Hnew in R3.
    step (lift_ok _ s2 _ _ R3). cbn [Z.eqb ensure]. rewrite bind_ret.
    set (s3 := mkStore m3 (wps s2) (wdss s2)).
    destruct (t_insert_ok m3 (docIDs d) kv2 docid ps) as (d' & kv2' & m4 & R4 & A4 & Hr4 & E4);
      [by eapply t_rep_after|by eapply after_plentiful|by rewrite Hl2|].
    rewrite Hm2, Hnew in R4. step (lift_ok _ s3 _ _ R4). unfold bind at 1. cbn.
    assert (A14 : after m1 m4) by (by rewrite A2, A3). assert (A04 : after (al s) m4) by (by rewrite A1).
    exists index. eexists. split; [reflexivity|]. rewrite <- Hm2.
    assert (Hsz : size (<[w := <[docid := ps]> (list_to_map kv2)]> IX) = length kvs).
    { by rewrite map_size_insert_Some by (by eexists). }
    destruct (Hbwd w dm Hw) as (p0 & d0 & Hp0 & Hd0 & Hds0).
    assert (Hpp : p0 = p).
    { destruct (t_lookup_ok _ _ _ (FNVHash64 w) Hrep Hp) as (mx & Rx & _). rewrite Hp0 in Rx.
      unfold lift in R1. rewrite Rx in R1. by injection R1. }
    subst p0. rewrite Hd in Hd0. injection Hd0 as <-.
    split; [|split; [|by split]].
    + apply (index_store s _ _ kvs IX w p (mkWDS (wds_word d) d')); cbn; try done.
      * intros h q Hq _. apply Hfwd, Hq.
      * intros w' dm' Hm _. by apply Hbwd.
      * intros q d2 w2 dm2 Hq Hds2 Hw2 ->. rewrite Hd in Hq. injection Hq as <-.
        destruct Hds2 as [Hx _]. congruence.
      * by eapply t_rep_after.
      * apply insert_non_empty.
      * split; [done|]. exists kv2'. cbn. split_and!; [done|done|].
        rewrite <- E4. symmetry. apply map_size_list_to_map. by eapply t_rep_nodup.
    + destruct (fresh_later s m4 Hfr A04) as [F1 F2]. split; cbn in *; [done|].
      intros q [->|[_ Hq]]%lookup_insert_is_Some; [|by apply F2]. apply F2. by eexists.
  - assert (Hk : (list_to_map kvs : gmap Z positive) !! FNVHash64 w = None).
    { destruct (t_lookup_ok _ _ _ (FNVHash64 w) Hrep Hp) as (mx & Rx & _).
      unfold lift in HL. rewrite Rx in HL. by destruct (_ !! FNVHash64 w). }
    step HL. cbn [Z.eqb]. destruct (alloc_ok m1 Hp1) as (m2 & R2 & L2 & Hid). rewrite bind_assoc.
    step (lift_ok _ s1 _ _ R2). set (p := next_id m1) in *. set (s2 := mkStore m2 (wps s1) (wdss s1)).
    assert (A2 : after m1 m2) by (by eexists).
    destruct (t_alloc_ok (V := list Z) 32 m2) as (d & m3 & R3 & A3 & Hr3); [lia|by eapply after_plentiful|].
    rewrite bind_assoc. step (lift_ok _ s2 _ _ R3). cbn [get_or]. rewrite bind_assoc, bind_ret.
    rewrite bind_assoc. unfold bind at 1. cbn [store_wds modify al wps wdss].
    assert (Hp3 : plentiful m3) by (eapply after_plentiful; [exact A3|by eapply after_plentiful]).
    assert (A03 : after (al s) m3) by (by rewrite A1, A2).
    set (s3 := mkStore m3 (wps s) (<[p := mkWDS w d]> (wdss s))).
    destruct (t_insert_ok m3 index kvs (FNVHash64 w) p) as (index' & kvs' & m4 & R4 & A4 & Hr4 & E4);
      [by eapply t_rep_after|done|lia|]. rewrite Hk in R4.
    rewrite bind_assoc. step (lift_ok _ s3 _ _ R4). cbn [Z.eqb Pos.eqb ensure].
    rewrite bind_assoc, bind_ret, bind_ret.
    set (s4 := mkStore m4 (wps s3) (wdss s3)).
    assert (Hd4 : wdss s4 !! p = Some (mkWDS w d)) by (cbn; by rewrite lookup_insert_eq).
    step (load_wds_ok s4 p _ Hd4). cbn [docIDs wds_word].
    assert (Hp4 : plentiful m4) by (by eapply after_plentiful).
    destruct (t_lookup_ok m4 d [] docid) as (m5 & R5 & A5); [by eapply t_rep_after|done|].
    cbn in R5. rewrite lookup_empty in R5. step (lift_ok _ s4 _ _ R5). cbn [Z.eqb ensure]. rewrite bind_ret.
    set (s5 := mkStore m5 (wps s4) (wdss s4)).
    destruct (t_insert_ok m5 d [] docid ps) as (d' & kv2 & m6 & R6 & A6 & Hr6 & E6);
      [eapply t_rep_after; [|exact A5]; by eapply t_rep_after|by eapply after_plentiful|done|].
    cbn in R6. rewrite lookup_empty in R6. step (lift_ok _ s5 _ _ R6). unfold bind at 1. cbn.
    assert (A46 : after m4 m6) by (by rewrite A5). assert (A06 : after (al s) m6) by (by rewrite A03, A4).
    exists index'. eexists. split; [reflexivity|]. rewrite insert_insert_eq.
    assert (Hpf : wdss s !! p = None).
    { destruct (wdss s !! p) eqn:E; [|done]. destruct Hfr1 as [_ F2]. cbn in F2.
      specialize (F2 p ltac:(by eexists)). unfold p in F2. lia. }
    split; [|split; [|by split]].
    + apply (index_store s _ _ kvs' IX w p (mkWDS w d')); cbn; try done.
      * intros h q. rewrite E4. intros [[<- _]|[_ Hq]]%lookup_insert_Some Hh; [done|]. by apply Hfwd.
      * intros w' dm' Hm Hw'. destruct (Hbwd w' dm' Hm) as (q & d2 & Hq & Hrest). exists q, d2.
        rewrite E4, lookup_insert_ne; [done|]. apply not_eq_sym, Hhash; [by eexists|done].
      * by rewrite E4, lookup_insert_eq.
      * intros q d2 w2 dm2 Hq _ _ ->. congruence.
      * by eapply t_rep_after.
      * rewrite map_size_insert_None, <- Hlen by done.
        apply (Permutation_length (l' := (FNVHash64 w, p) :: kvs)).
        eapply insert_new_perm; [by eapply t_rep_nodup..|done|done].
      * split; [done|]. exists kv2. cbn. split_and!; [done|by rewrite E6|].
        change (<[docid := ps]> ∅) with (<[docid := ps]> (list_to_map [] : postings)). rewrite <- E6.
        symmetry. apply map_size_list_to_map. by eapply t_rep_nodup.
    + destruct (fresh_later s m6 Hfr A06) as [F1 F2]. split; cbn in *; [done|].
      intros q [->|[_ Hq]]%lookup_insert_is_Some; [|by apply F2].
      pose proof (after_id _ _ A3). pose proof (after_id _ _ A4). pose proof (after_id _ _ A46). lia.
Qed.

(** *** Queries *)

(** How often [w] occurs in document [d], if at all. *)
Definition count IX (w : list Z) (d : Z) : option Z :=
  dm ← IX !! w; ps ← dm !! d; Some (Z.of_nat (length ps)).

(** The total over the words of a query, when [d] has them all. *)
Fixpoint score IX (q : list (list Z)) (d : Z) : option Z :=
  match q with
  | [] => Some 0
  | w :: q' => a ← count IX w d; b ← score IX q' d; Some (a + b)
  end.

Lemma score_snoc IX q w d :
  score IX (q ++ [w]) d = a ← score IX q d; b ← count IX w d; Some (a + b).
Proof.
  induction q as [|w' q IH]; cbn.
  - destruct (count IX w d); cbn; [|done]. by rewrite Z.add_0_r.
  - rewrite IH. destruct (count IX w' d), (score IX q d), (count IX w d); cbn; try done.
    f_equal. lia.
Qed.

(** [rs] lists each document that has all the words of [q], with its score. *)
Definition scored IX (q : list (list Z)) (rs : list SearchResult) : Prop :=
  NoDup (docid <$> rs) /\
  forall sr, sr ∈ rs <-> exists n, score IX q (docid sr) = Some n /\ rank sr = u32 n.

Lemma scored_perm IX q rs rs' : rs ≡ₚ rs' -> scored IX q rs -> scored IX q rs'.
Proof.
  intros Hp [Hnd Hin]. split; [by rewrite <- Hp|]. intros sr. by rewrite <- Hp.
Qed.

Lemma scored_nil IX q : scored IX q [] -> forall d, score IX q d = None.
Proof.
  intros [_ Hin] d. destruct (score IX q d) as [n|] eqn:E; [|done].
  assert (Hx : mkSR d (u32 n) ∈ @nil SearchResult) by (apply Hin; by exists n).
  by apply elem_of_nil in Hx.
Qed.

Definition first_results (kvs : list (Z * list Z)) : list SearchResult :=
  (fun x => mkSR x.1 (u32 (Z.of_nat (length x.2)))) <$> kvs.

Lemma first_results_scored IX w kvs :
  IX !! w = Some (list_to_map kvs) -> NoDup kvs.*1 -> scored IX [w] (rev (first_results kvs)).
Proof.
  intros Hw Hnd. assert (Hs : scored IX [w] (first_results kvs)).
  { split.
    - unfold first_results. by rewrite <- list_fmap_compose.
    - intros [d r]. cbn. unfold count. rewrite Hw. cbn. unfold first_results.
      rewrite list_elem_of_fmap. split.
      + intros ([d' ps] & [= -> ->] & Hin). apply (elem_of_list_to_map_1 (M := gmap Z)) in Hin; [|done].
        exists (Z.of_nat (length ps)). rewrite Hin. cbn. by rewrite Z.add_0_r.
      + intros (n & Hn & ->). destruct (list_to_map kvs !! d) as [ps|] eqn:E; [|done].
        cbn in Hn. injection Hn as <-. rewrite Z.add_0_r. exists (d, ps). split; [done|].
        by apply (elem_of_list_to_map_2 (M := gmap Z)) in E. }
  eapply scored_perm; [|exact Hs]. apply Permutation_rev.
Qed.

(** What the next word does to one result. *)
Definition narrow (dm : postings) (sr : SearchResult) : option SearchResult :=
  ps ← dm !! docid sr; Some (mkSR (docid sr) (u32 (rank sr + u32 (Z.of_nat (length ps))))).

Lemma narrow_keep dm sr ps rest : dm !! docid sr = Some ps ->
  omap (narrow dm) (sr :: rest)
  = mkSR (docid sr) (u32 (rank sr + u32 (Z.of_nat (length ps)))) :: omap (narrow dm) rest.
Proof. intros H. cbn. unfold narrow at 1. by rewrite H. Qed.

Lemma narrow_drop dm sr rest : dm !! docid sr = None -> omap (narrow dm) (sr :: rest) = omap (narrow dm) rest.
Proof. intros H. cbn. unfold narrow at 1. by rewrite H. Qed.

Lemma narrow_scored IX q w dm rs :
  IX !! w = Some dm -> scored IX q rs -> scored IX (q ++ [w]) (omap (narrow dm) rs).
Proof.
  intros Hw [Hnd Hin]. split.
  - clear Hin. induction rs as [|sr rs IH]; cbn; [constructor|].
    cbn in Hnd. apply NoDup_cons in Hnd as [Hn Hnd]. specialize (IH Hnd).
    destruct (narrow dm sr) as [sr'|] eqn:E; cbn; [|done]. apply NoDup_cons. split; [|done].
    intros (sr2 & E2 & Hin2)%list_elem_of_fmap. apply Hn.
    apply list_elem_of_omap in Hin2 as (sr3 & Hin3 & E3).
    unfold narrow in E, E3. destruct (dm !! docid sr); [|done]. destruct (dm !! docid sr3); [|done].
    cbn in E, E3. injection E as <-. injection E3 as <-. cbn in E2. rewrite E2.
    by apply list_elem_of_fmap_2.
  - intros [d r]. rewrite list_elem_of_omap. rewrite score_snoc. unfold count. rewrite Hw. cbn. split.
    + intros (sr & Hsr & E). apply Hin in Hsr as (n & Hn & Hr). unfold narrow in E.
      destruct (dm !! docid sr) as [ps|] eqn:Ed; [|done]. cbn in E. injection E as <- <-.
      rewrite Hn, Ed. cbn. eexists. split; [done|]. rewrite Hr. unfold wrapu.
      by rewrite <- Zplus_mod.
    + intros (n & Hn & ->). destruct (score IX q d) as [a|] eqn:Ea; [|done].
      destruct (dm !! d) as [ps|] eqn:Ed; [|done]. cbn in Hn. injection Hn as <-.
      exists (mkSR d (u32 a)). split; [apply Hin; by exists a|]. unfold narrow. cbn. rewrite Ed. cbn.
      do 2 f_equal. unfold wrapu. by rewrite <- Zplus_mod.
Qed.

Lemma first_word_loop_ok s0 t kvs :
  t_rep (al s0) t kvs -> forall post fuel s it pre x acc,
  t_at t it pre x post -> after (al s0) (al s) -> plentiful (al s) -> (length post < fuel)%nat ->
  exists it' m', first_word_loop fuel true t it acc s
      = Ok ((it', rev (first_results (x :: post)) ++ acc), mkStore m' (wps s) (wdss s)) /\
    after (al s) m'.
Proof.
  intros Hr0 post. induction post as [|y post IH]; intros fuel s it pre x acc Hat Ha Hp Hfuel;
    (destruct fuel as [|fuel]; [lia|]); cbn [first_word_loop].
  all: assert (Hr : t_rep (al s) t kvs) by (by eapply t_rep_after).
  all: destruct (t_get_ok _ _ _ _ _ _ _ Hr Hat) as [_ R1]; step (lift_ok _ s _ _ R1).
  all: destruct (alloc_after (al s) Hp) as (p2 & m2 & R2 & A2).
  all: set (s2 := mkStore m2 (wps s) (wdss s)).
  all: assert (RM : must_alloc (mkStore (al s) (wps s) (wdss s)) = Ok (p2, s2))
    by (unfold must_alloc; by step (lift_ok alloc (mkStore (al s) (wps s) (wdss s)) _ _ R2)).
  all: step RM; cbn [get_or ensure]; rewrite !bind_ret.
  all: assert (Hp2 : plentiful m2) by (by eapply after_plentiful).
  all: destruct (alloc_after m2 Hp2) as (p3 & m3 & R3 & A3); step (lift_ok _ s2 _ _ R3).
  all: assert (Hp3 : plentiful m3) by (by eapply after_plentiful).
  all: assert (A03 : after (al s) m3) by (by rewrite A2).
  all: destruct (t_next_ok m3 t kvs it pre x) with (1 := t_rep_after _ _ _ _ Hr A03) (2 := Hp3) (3 := Hat)
    as (it' & m4 & A4 & HN); cbn iota beta in HN.
  - step (lift_ok _ (mkStore m3 (wps s2) (wdss s2)) _ _ HN). cbn [Z.eqb negb].
    exists it', m4. split; [|by rewrite A03]. cbn. done.
  - destruct HN as [HN Hat']. step (lift_ok _ (mkStore m3 (wps s2) (wdss s2)) _ _ HN). cbn [Z.eqb Pos.eqb negb].
    edestruct (IH fuel (mkStore m4 (wps s2) (wdss s2)) it' (pre ++ [x]) y) as (it2 & m5 & R5 & A5).
    + done.
    + cbn. by rewrite Ha, A03.
    + cbn. by eapply after_plentiful.
    + cbn [length] in Hfuel. lia.
    + exists it2, m5. split; [|cbn in A5; by rewrite A03, A4].
      cbn [wps wdss] in R5. etransitivity; [exact R5|]. cbn. by rewrite <- !app_assoc.
Qed.

Lemma next_word_loop_ok s0 t kvs dm :
  t_rep (al s0) t kvs -> list_to_map kvs = dm -> forall ahead s before rs,
  after (al s0) (al s) -> plentiful (al s) ->
  exists p m', next_word_loop (S (length ahead)) t (Some (before, rs, ahead)) s
      = Ok (p, mkStore m' (wps s) (wdss s)) /\
    list_of p = before ++ omap (narrow dm) (rs :: ahead) /\ after (al s) m'.
Proof.
  intros Hr0 Hm ahead. induction ahead as [|y ahead IH]; intros s before rs Ha Hp; cbn [length].
  all: assert (Hr : t_rep (al s) t kvs) by (by eapply t_rep_after).
  all: change (next_word_loop (S ?n)) with (fun wds llit => next_word_loop (OL := OL) (S n) wds llit);
    cbn beta; cbn [next_word_loop get_or]; rewrite bind_ret; cbn beta iota.
  all: destruct (t_lookup_ok _ _ _ (docid rs) Hr Hp) as (m1 & R1 & A1); rewrite Hm in R1.
  all: set (s1 := mkStore m1 (wps s) (wdss s)).
  all: destruct (dm !! docid rs) as [ps|] eqn:Ed.
  all: step (lift_ok _ s _ _ R1); cbn [Z.eqb Pos.eqb get_or snd].
  1,3: rewrite bind_ret.
  3,4: destruct (release_after 2 m1) as (m2 & R2 & A2); step (lift_ok _ s1 _ _ R2).
  - eexists _, m1. split; [reflexivity|]. split; [|done]. by rewrite (narrow_keep _ _ _ _ Ed).
  - destruct (IH s1 (before ++ [mkSR (docid rs) (u32 (rank rs + u32 (Z.of_nat (length ps))))]) y)
      as (p & m3 & R3 & E3 & A3).
    + cbn. by rewrite Ha.
    + by eapply after_plentiful.
    + exists p, m3. split; [exact R3|]. split; [|cbn in A3; by rewrite A1].
      by rewrite E3, <- app_assoc, (narrow_keep _ _ _ _ Ed).
  - eexists _, m2. split; [reflexivity|]. split; [|by rewrite A1].
    rewrite (narrow_drop _ _ _ Ed). cbn.
    destruct (rev before) as [|z before'] eqn:E; cbn.
    + apply (f_equal (@rev _)) in E. rewrite rev_involutive in E. by rewrite E.
    + apply (f_equal (@rev _)) in E. rewrite rev_involutive in E. rewrite E. cbn. by rewrite app_nil_r.
  - destruct (IH (mkStore m2 (wps s1) (wdss s1)) before y) as (p & m3 & R3 & E3 & A3).
    + cbn. by rewrite Ha, A1.
    + cbn. eapply after_plentiful; [exact A2|by eapply after_plentiful].
    + exists p, m3. split; [exact R3|]. split; [|cbn in A3; by rewrite A1, A2].
      by rewrite E3, (narrow_drop _ _ _ Ed).
Qed.

(** A query is stuck when no document has the first [i >= 2] of its words, all
    of which are indexed, and a further indexed word is left. *)
Definition stuck IX (q : list (list Z)) : Prop :=
  exists i : nat, (2 <= i < length q)%nat /\ (forall w, w ∈ take (S i) q -> is_Some (IX !! w)) /\
    forall d, score IX (take i q) d = None.

Lemma index_rep_after s m' index IX :
  index_rep s index IX -> after (al s) m' -> index_rep (mkStore m' (wps s) (wdss s)) index IX.
Proof.
  intros [(kvs & Hr & Hl & Hf & Hb) Hne] Ha. split; [|done]. exists kvs.
  split_and!; [by eapply t_rep_after|done| |].
  - intros h p Hh. destruct (Hf h p Hh) as (w & dm & d & ? & ? & ? & ?). exists w, dm, d.
    split_and!; try done. by eapply docset_after.
  - intros w dm Hw. destruct (Hb w dm Hw) as (p & d & ? & ? & ?). exists p, d.
    split_and!; try done. by eapply docset_after.
Qed.

Lemma score_unknown IX q w : w ∈ q -> IX !! w = None -> forall d, score IX q d = None.
Proof.
  intros Hin Hw d. induction q as [|w' q IH]; [by apply elem_of_nil in Hin|].
  cbn. apply elem_of_cons in Hin as [<-|Hin].
  - unfold count. by rewrite Hw.
  - rewrite IH by done. by destruct (count IX w' d).
Qed.

(** A further word that is indexed narrows the results that are left. *)
Lemma query_step index IX q i w todo s rs : (forall w, w ∈ q -> tells IX w) -> q !! i = Some w -> is_Some (IX !! w) ->
  index_rep s index IX -> plentiful (al s) -> scored IX (take i q) rs -> rs <> [] ->
  exists rs' m', query_loop (S todo) index q i rs s = query_loop todo index q (S i) rs' (mkStore m' (wps s) (wdss s)) /\
    after (al s) m' /\ scored IX (take (S i) q) rs'.
Proof.
  intros Ht Hw [dm HIw] Hix Hp Hs Hne. cbn [query_loop]. rewrite Hw. cbn [get_or]. rewrite bind_ret.
  assert (Hwq : w ∈ q) by (by eapply list_elem_of_lookup_2).
  destruct (index_lookup s index IX w Hix Hp (Ht w Hwq)) as (m1 & A1 & HL). cbn in HL.
  assert (Htake : take (S i) q = take i q ++ [w]) by (by apply take_S_r).
  set (s1 := mkStore m1 (wps s) (wdss s)) in *.
  assert (Hp1 : plentiful m1) by (by eapply after_plentiful).
  rewrite HIw in HL. destruct HL as (p & d & R1 & Hd & Hds). step R1. cbn [Z.eqb Pos.eqb get_or snd]. rewrite bind_ret.
  step (load_wds_ok s1 p d Hd). destruct Hds as (_ & kv2 & Hr2 & Hm2 & _).
  destruct rs as [|sr rs]; [done|].
  cbn [make_iter]. destruct (alloc_after m1 Hp1) as (p2 & m2 & R2 & A2). rewrite bind_assoc.
  step (lift_ok _ s1 _ _ R2). rewrite bind_ret. cbn [length].
  set (s2 := mkStore m2 (wps s1) (wdss s1)).
  assert (Hp2 : plentiful m2) by (by eapply after_plentiful).
  destruct (next_word_loop_ok s1 (docIDs d) kv2 dm Hr2 Hm2 rs s2 [] sr) as (pos & m3 & R3 & E3 & A3);
    [done|done|]. step R3. rewrite bool_decide_false by done. cbn [negb ensure]. rewrite bind_ret.
  destruct (release_after 1 m3) as (m4 & R4 & A4). step (lift_ok _ (mkStore m3 (wps s2) (wdss s2)) _ _ R4).
  cbn [app] in E3. rewrite E3. exists (omap (narrow dm) (sr :: rs)), m4. split; [done|].
  split; [transitivity m1; [done|]; transitivity m2; [done|]; by transitivity m3|].
  rewrite Htake. by apply narrow_scored.
Qed.

(** With no result left an indexed word stops the program: there is nothing to iterate on. *)
Lemma query_no_results index IX q i w todo s : (forall w, w ∈ q -> tells IX w) -> q !! i = Some w -> is_Some (IX !! w) ->
  index_rep s index IX -> plentiful (al s) -> query_loop (S todo) index q i [] s = Err VerifyFailed.
Proof.
  intros Ht Hw [dm HIw] Hix Hp. cbn [query_loop]. rewrite Hw. cbn [get_or]. rewrite bind_ret.
  destruct (index_lookup s index IX w Hix Hp) as (m1 & A1 & HL); [by eapply Ht, list_elem_of_lookup_2|]. cbn in HL.
  rewrite HIw in HL. destruct HL as (p & d & R1 & Hd & Hds). step R1. cbn [Z.eqb Pos.eqb get_or snd]. rewrite bind_ret.
  by step (load_wds_ok (mkStore m1 (wps s) (wdss s)) p d Hd).
Qed.

Lemma known_before IX q i w : q !! i = Some w -> is_Some (IX !! w) ->
  (forall w, w ∈ take i q -> is_Some (IX !! w)) -> forall w, w ∈ take (S i) q -> is_Some (IX !! w).
Proof.
  intros Hw Hk Hi w'. rewrite (take_S_r _ _ _ Hw). intros [?| ->%list_elem_of_singleton]%elem_of_app; eauto.
Qed.

Lemma query_loop_ok index IX q : (forall w, w ∈ q -> tells IX w) -> ~ stuck IX q ->
  forall todo i s rs, (todo + i = length q)%nat -> (1 <= i)%nat ->
  index_rep s index IX -> plentiful (al s) ->
  (forall w, w ∈ take i q -> is_Some (IX !! w)) -> scored IX (take i q) rs -> (i = 1%nat -> rs <> []) ->
  exists r m', query_loop todo index q i rs s = Ok (r, mkStore m' (wps s) (wdss s)) /\ after (al s) m' /\
    match r with
    | Some rs' => scored IX q rs'
    | None => forall d, score IX q d = None
    end.
Proof.
  intros Ht Hns todo. induction todo as [|todo IH]; intros i s rs Hlen Hi Hix Hp Hknown Hs Hne.
  { exists (Some rs), (al s). rewrite firstn_all2 in Hs by lia. by destruct s. }
  destruct (lookup_lt_is_Some_2 q i) as [w Hw]; [lia|].
  destruct (IX !! w) as [dm|] eqn:HIw.
  - assert (Hk : is_Some (IX !! w)) by (by exists dm). pose proof (known_before IX q i w Hw Hk Hknown) as Hknown'.
    assert (rs <> []) as Hrs.
    { intros ->. apply Hns. exists i. assert (i <> 1%nat) by (intros ->; by apply Hne).
      split; [lia|]. split; [done|by apply scored_nil]. }
    destruct (query_step index IX q i w todo s rs Ht Hw Hk Hix Hp Hs Hrs) as (rs' & m1 & E & A1 & Hs').
    destruct (IH (S i) (mkStore m1 (wps s) (wdss s)) rs') as (r & m5 & R5 & A5 & Hr5); try done; try lia.
    + by apply index_rep_after.
    + by eapply after_plentiful.
    + exists r, m5. rewrite E. split; [exact R5|]. split; [by transitivity m1|done].
  - cbn [query_loop]. rewrite Hw. cbn [get_or]. rewrite bind_ret.
    assert (Hwq : w ∈ q) by (by eapply list_elem_of_lookup_2).
    destruct (index_lookup s index IX w Hix Hp (Ht w Hwq)) as (m1 & A1 & HL). cbn in HL. rewrite HIw in HL.
    step HL. cbn [Z.eqb]. unfold free_results.
    destruct (release_after (2 * Z.of_nat (length rs) + 1) m1) as (m2 & R2 & A2).
    step (lift_ok _ (mkStore m1 (wps s) (wdss s)) _ _ R2). exists None, m2. split; [reflexivity|]. split; [by rewrite A1|].
    by eapply score_unknown.
Qed.

(** A stuck query stops the program. *)
Lemma query_loop_stuck index IX q j : (forall w, w ∈ q -> tells IX w) -> (j < length q)%nat ->
  (forall w, w ∈ take (S j) q -> is_Some (IX !! w)) -> (forall d, score IX (take j q) d = None) ->
  forall todo i s rs, (todo + i = length q)%nat -> (i <= j)%nat ->
  index_rep s index IX -> plentiful (al s) -> scored IX (take i q) rs ->
  query_loop todo index q i rs s = Err VerifyFailed.
Proof.
  intros Ht Hj Hknown Hnone todo. induction todo as [|todo IH]; intros i s rs Hlen Hi Hix Hp Hs; [lia|].
  destruct (lookup_lt_is_Some_2 q i) as [w Hw]; [lia|].
  assert (Hk : is_Some (IX !! w)).
  { apply Hknown. eapply list_elem_of_lookup_2. rewrite lookup_take_lt; [exact Hw|lia]. }
  destruct rs as [|sr rs]; [by eapply query_no_results|].
  destruct (query_step index IX q i w todo s (sr :: rs) Ht Hw Hk Hix Hp Hs) as (rs' & m1 & E & A1 & Hs'); [done|].
  rewrite E. apply IH; try done; try lia.
  - assert (i <> j); [|lia]. intros ->. destruct Hs as [_ Hin]. destruct (proj1 (Hin sr)) as (n & Hn & _); [by left|].
    by rewrite Hnone in Hn.
  - by apply index_rep_after.
  - by eapply after_plentiful.
Qed.

(** adding a word's positions in a document it is not yet posted for
    makes exactly that posting in the map the index represents. *)
Theorem MIAddPostingList_posts s index IX w docid ps :
  index_rep s index IX -> fresh_store s -> plentiful (al s) -> tells IX w ->
  default ∅ (IX !! w) !! docid = None -> Z.of_nat (size IX) < capacity ->
  Z.of_nat (size (default ∅ (IX !! w))) < capacity ->
  exists index' s', MIAddPostingList index w docid ps s = Ok ((1, index'), s') /\
    index_rep s' index' (add_posting IX w docid ps) /\ fresh_store s' /\
    MINumWordsInMemIndex index' = Z.of_nat (size (add_posting IX w docid ps)).
Proof.
  intros Hix Hfr Hp Ht Hnew Hc1 Hc2.
  destruct (MIAddPostingList_ok s index IX w docid ps) as (index' & s' & HR & Hix' & Hfr' & _); try done.
  exists index', s'. split_and!; try done; [by destruct Hfr'..|].
  destruct Hix' as [(kvs & Hr & Hl & _) _]. unfold MINumWordsInMemIndex. by rewrite (t_rep_num _ _ _ Hr), Hl.
Qed.

(** What is left to do once the first word, which is indexed, has been looked up. *)
Definition query_rest index (q : list (list Z)) (rs : list SearchResult) : M (store OL) (option (list SearchResult)) :=
  if Z.of_nat (length q) =? 1 then ret (Some (sort_list 0 MISearchListComparator rs))
  else
    let* retlist := query_loop (Z.to_nat (Z.of_nat (length q)) - 1) index q 1 rs in
    match retlist with
    | None => ret None
    | Some [] => do* free_results []; ret None
    | Some retlist => ret (Some (sort_list 0 MISearchListComparator retlist))
    end.

Lemma query_first s index IX w q : index_rep s index IX -> plentiful (al s) -> (forall w', w' ∈ w :: q -> tells IX w') ->
  is_Some (IX !! w) ->
  exists rs m', MIProcessQuery index (w :: q) (Z.of_nat (length (w :: q))) s = query_rest index (w :: q) rs (mkStore m' (wps s) (wdss s)) /\
    after (al s) m' /\ scored IX [w] rs /\ rs <> [].
Proof.
  intros Hix Hp Ht [dm HIw]. unfold MIProcessQuery. rewrite (proj2 (Z.eqb_neq _ 0)) by (cbn [length]; lia).
  destruct (alloc_after (al s) Hp) as (p0 & m0 & R0 & A0). step (lift_ok _ s _ _ R0).
  cbn [lookup list_lookup get_or]. rewrite bind_ret. set (s0 := mkStore m0 (wps s) (wdss s)).
  assert (Hix0 : index_rep s0 index IX) by (by apply index_rep_after).
  assert (Hp0 : plentiful (al s0)) by (by eapply after_plentiful).
  destruct (index_lookup s0 index IX w Hix0 Hp0) as (m1 & A1 & HL); [apply Ht; by left|]. cbn in HL.
  set (s1 := mkStore m1 (wps s0) (wdss s0)) in *. rewrite HIw in HL.
  destruct HL as (p & d & R1 & Hd & Hds). step R1. cbn [Z.eqb Pos.eqb get_or snd]. rewrite bind_ret.
  step (load_wds_ok s1 p d Hd). destruct Hds as (_ & kv2 & Hr2 & Hm2 & Hl2).
  assert (Hp1 : plentiful m1) by (by eapply after_plentiful).
  destruct (t_iter_ok m1 (docIDs d) kv2 Hr2 Hp1) as (it & m2 & R2 & A2 & Hit). step (lift_ok _ s1 _ _ R2).
  cbn [get_or]. rewrite bind_ret.
  destruct kv2 as [|x post].
  { destruct Hix as [_ Hne]. destruct (Hne w dm HIw). by rewrite <- Hm2. }
  rewrite bool_decide_true by (by eexists).
  assert (Hp2 : plentiful m2) by (by eapply after_plentiful).
  destruct (first_word_loop_ok s1 (docIDs d) (x :: post) Hr2 post
    (S (Z.to_nat (t_num (docIDs d)))) (mkStore m2 (wps s1) (wdss s1)) it [] x [])
    as (it' & m3 & R3 & A3); [done|done|done| |].
  { rewrite (t_rep_num _ _ _ Hr2). cbn. lia. }
  step R3. rewrite app_nil_r. destruct (t_iter_free_ok it' m3) as (m4 & R4 & A4).
  step (lift_ok _ (mkStore m3 (wps (mkStore m2 (wps s1) (wdss s1))) (wdss (mkStore m2 (wps s1) (wdss s1)))) _ _ R4).
  cbn [wps wdss]. exists (rev (first_results (x :: post))), m4. split; [done|].
  split; [transitivity m0; [done|]; transitivity m1; [done|]; transitivity m2; [done|]; by transitivity m3|]. split.
  - apply first_results_scored; [by rewrite Hm2|by eapply t_rep_nodup].
  - intros E. apply (f_equal length) in E. rewrite length_rev in E. done.
Qed.

Lemma query_unknown s index IX w q : index_rep s index IX -> plentiful (al s) -> tells IX w -> IX !! w = None ->
  exists m', MIProcessQuery index (w :: q) (Z.of_nat (length (w :: q))) s = Ok (None, mkStore m' (wps s) (wdss s)) /\ after (al s) m'.
Proof.
  intros Hix Hp Ht HIw. unfold MIProcessQuery. rewrite (proj2 (Z.eqb_neq _ 0)) by (cbn [length]; lia).
  destruct (alloc_after (al s) Hp) as (p0 & m0 & R0 & A0). step (lift_ok _ s _ _ R0).
  cbn [lookup list_lookup get_or]. rewrite bind_ret. set (s0 := mkStore m0 (wps s) (wdss s)).
  destruct (index_lookup s0 index IX w) as (m1 & A1 & HL); [by apply index_rep_after|by eapply after_plentiful|done|]. cbn in HL.
  rewrite HIw in HL. step HL. cbn [Z.eqb]. rewrite bool_decide_true by (by eexists). cbn [ensure]. rewrite bind_ret.
  destruct (release_after 1 m1) as (m2 & R2 & A2). unfold free_results.
  step (lift_ok _ (mkStore m1 (wps s0) (wdss s0)) _ _ R2). exists m2. split; [reflexivity|].
  transitivity m0; [done|]. by transitivity m1.
Qed.

Lemma MIProcessQuery_ok s index IX q :
  index_rep s index IX -> plentiful (al s) -> (forall w, w ∈ q -> tells IX w) ->
  (1 <= length q)%nat -> ~ stuck IX q ->
  exists r s', MIProcessQuery index q (Z.of_nat (length q)) s = Ok (r, s') /\ after (al s) (al s') /\
    (wps s' = wps s /\ wdss s' = wdss s) /\ match r with
    | Some rs => rs <> [] /\ scored IX q rs /\ StronglySorted (fun a b => rank b <= rank a) rs
    | None => forall d, score IX q d = None
    end.
Proof.
  intros Hix Hp Ht Hlen Hns. destruct q as [|w q]; [cbn in Hlen; lia|].
  destruct (IX !! w) as [dm|] eqn:HIw.
  2:{ destruct (query_unknown s index IX w q Hix Hp) as (m1 & E & A1); [apply Ht; by left|done|].
      eexists None, _. split; [exact E|]. split; [done|]. split; [done|]. eapply score_unknown; [|exact HIw]. by left. }
  destruct (query_first s index IX w q Hix Hp Ht) as (rs & m4 & E & A04 & Hs & Hne); [by exists dm|]. rewrite E. unfold query_rest.
  assert (Hdone : forall rs, rs <> [] -> scored IX (w :: q) rs ->
    sort_list 0 MISearchListComparator rs <> [] /\ scored IX (w :: q) (sort_list 0 MISearchListComparator rs) /\
    StronglySorted (fun a b => rank b <= rank a) (sort_list 0 MISearchListComparator rs)).
  { intros rs' Hrs Hsc. destruct (sort_results_ok rs') as [Hperm Hsort]. split_and!; [|by eapply scored_perm|done].
    intros E'. unfold sort_results in Hperm. rewrite E' in Hperm. by apply Permutation_nil in Hperm. }
  destruct q as [|w2 q'].
  { cbn [length]. change (Z.of_nat 1 =? 1) with true. cbn iota.
    eexists (Some _), _. split; [reflexivity|]. split; [done|]. split; [done|]. by apply Hdone. }
  rewrite (proj2 (Z.eqb_neq _ 1)) by (cbn [length]; lia).
  destruct (query_loop_ok index IX (w :: w2 :: q') Ht Hns
    (Z.to_nat (Z.of_nat (length (w :: w2 :: q'))) - 1) 1 (mkStore m4 (wps s) (wdss s)) rs) as (r & m5 & R5 & A5 & Hr5).
  - cbn [length]. lia.
  - done.
  - by apply index_rep_after.
  - cbn. by eapply after_plentiful.
  - intros w' Hw'. apply list_elem_of_singleton in Hw' as ->. by eexists.
  - done.
  - done.
  - assert (A05 : after (al s) m5) by (by transitivity m4). step R5. destruct r as [[|sr rs']|].
    + destruct (release_after 1 m5) as (m6 & R6 & A6). unfold free_results.
      step (lift_ok _ (mkStore m5 (wps (mkStore m4 (wps s) (wdss s))) (wdss (mkStore m4 (wps s) (wdss s)))) _ _ R6).
      eexists None, _. split; [reflexivity|]. split; [by transitivity m5|]. split; [done|]. by apply scored_nil.
    + eexists (Some _), _. split; [reflexivity|]. split; [done|]. split; [done|]. by apply Hdone.
    + eexists None, _. split; [reflexivity|]. split; [done|]. by split.
Qed.

Lemma MIProcessQuery_stuck s index IX q : index_rep s index IX -> plentiful (al s) -> (forall w, w ∈ q -> tells IX w) ->
  stuck IX q -> MIProcessQuery index q (Z.of_nat (length q)) s = Err VerifyFailed.
Proof.
  intros Hix Hp Ht (j & Hj & Hknown & Hnone). destruct q as [|w q]; [cbn in Hj; lia|].
  destruct (query_first s index IX w q Hix Hp Ht) as (rs & m4 & E & A04 & Hs & Hne).
  { apply Hknown. cbn. by left. }
  rewrite E. unfold query_rest. rewrite (proj2 (Z.eqb_neq _ 1)) by lia. unfold bind.
  by rewrite (query_loop_stuck index IX (w :: q) j Ht (proj2 Hj) Hknown Hnone); [..|by apply index_rep_after|by eapply after_plentiful|];
    rewrite ?Nat2Z.id; try lia.
Qed.

(** a query of one to 255 words that does not get stuck returns exactly
    the documents that have all its words, each once, ranked by how often the
    words occur in it and sorted by falling rank, or [NULL] when there is no
    such document. *)
Theorem MIProcessQuery_ranks s index IX q :
  index_rep s index IX -> plentiful (al s) -> (forall w, w ∈ q -> tells IX w) ->
  (1 <= length q)%nat -> ~ stuck IX q ->
  exists r s', MIProcessQuery index q (Z.of_nat (length q)) s = Ok (r, s') /\
    match r with
    | Some rs => rs <> [] /\ scored IX q rs /\ StronglySorted (fun a b => rank b <= rank a) rs
    | None => forall d, score IX q d = None
    end.
Proof.
  intros Hix Hp Ht Hlen Hns.
  destruct (MIProcessQuery_ok s index IX q) as (r & s' & HR & _ & _ & Hr); try done. by exists r, s'.
Qed.

End Spec.

(** * The inverted index, part 3: a small index built by its operations, on
    which the theorems about postings and queries apply, and a query that
    stops the program. *)
Open Scope Z_scope.

Abbreviation wa := [97] (only parsing).
Abbreviation wb := [98] (only parsing).
Abbreviation wc := [99] (only parsing).

(** Document 1 is "a b a", document 2 is "a", document 3 is "b c". *)
Definition sample_index : gmap (list Z) postings :=
  {[ wa := {[ 1 := [0; 4]; 2 := [0] ]}; wb := {[ 1 := [2]; 3 := [0] ]}; wc := {[ 3 := [2] ]} ]}.

Definition add (w : list Z) (d : Z) (ps : list Z) (index : table (V := positive))
    : M (store hash_ops) (table (V := positive)) :=
  let* (_, index) := MIAddPostingList index w d ps in ret index.
Definition sample_run : M (store hash_ops) (table (V := positive)) :=
  let* index := AllocateMemIndex in
  let* index := get_or BadAccess index in
  let* index := add wa 1 [0; 4] index in
  let* index := add wb 1 [2] index in
  let* index := add wa 2 [0] index in
  let* index := add wb 3 [0] index in
  add wc 3 [2] index.

Definition known (w : list Z) : Prop := w = wa \/ w = wb \/ w = wc.

Lemma known_inj w w' : known w -> known w' -> FNVHash64 w = FNVHash64 w' -> w = w'.
Proof. intros [->|[->| ->]] [->|[->| ->]] E; try reflexivity; vm_compute in E; discriminate. Qed.

Record state_ok (s : store hash_ops) (index : table (V := positive)) (IX : gmap (list Z) postings) : Prop := {
  so_rep : index_rep s index IX;
  so_fresh : fresh_store s;
  so_mem : plentiful (al s);
  so_known : forall w, is_Some (IX !! w) -> known w;
  so_size : (size IX <= 3)%nat /\ forall w dm, IX !! w = Some dm -> (size dm <= 3)%nat
}.

Lemma state_tells s index IX w : state_ok s index IX -> known w -> tells IX w.
Proof. intros Hs Hw w' Hw' E. apply known_inj; [by eapply so_known|done|done]. Qed.

Lemma add_ok s index IX w d ps :
  state_ok s index IX -> known w -> default ∅ (IX !! w) !! d = None ->
  (size (add_posting IX w d ps) <= 3)%nat ->
  (forall w' dm, add_posting IX w d ps !! w' = Some dm -> (size dm <= 3)%nat) ->
  exists index' s', add w d ps index s = Ok (index', s') /\ state_ok s' index' (add_posting IX w d ps).
Proof.
  intros Hs Hw Hnew H1 H2. pose proof Hs as [Hix Hfr Hp Hk [Hsz Hsd]].
  assert (Hc : 16777216 = capacity) by reflexivity.
  destruct (MIAddPostingList_ok s index IX w d ps) as (index' & s' & HR & Hix' & Hfr' & Ha & _);
    [done|done|done|by eapply state_tells|done|lia| |].
  { destruct (IX !! w) as [dm|] eqn:E; cbn; [specialize (Hsd w dm E); unfold id; lia|].
    rewrite map_size_empty. lia. }
  exists index', s'. split; [unfold add; by step HR|]. split; try done; [by eapply after_plentiful|].
  unfold add_posting. intros w' [<-|[_ Hw']]%lookup_insert_is_Some; [done|by apply Hk].
Qed.

Lemma AllocateMemIndex_ok s :
  fresh_store s -> plentiful (al s) ->
  exists index s', AllocateMemIndex s = Ok (Some index, s') /\ state_ok s' index ∅.
Proof.
  intros Hfr Hp. unfold AllocateMemIndex.
  destruct (t_alloc_ok (V := positive) 128 (al s)) as (index & m' & HR & Ha & Hr); [lia|done|].
  exists index, (mkStore m' (wps s) (wdss s)). split; [exact (lift_ok (t_alloc 128) s _ _ HR)|].
  split; [|by apply fresh_later|by eapply after_plentiful| |].
  - split; [|done]. exists []. by split_and!.
  - intros w [x Hx]. by rewrite lookup_empty in Hx.
  - split; [by rewrite map_size_empty; lia|]. intros w dm Hw. by rewrite lookup_empty in Hw.
Qed.

Lemma sample_run_ok : exists index s,
  sample_run empty_store = Ok (index, s) /\ state_ok s index sample_index.
Proof.
  assert (Hsize : forall IX : gmap (list Z) postings, forallb (fun x => (size x.2 <=? 3)%nat) (map_to_list IX) = true ->
    forall w dm, IX !! w = Some dm -> (size dm <= 3)%nat).
  { intros IX HF w dm Hw. rewrite forallb_forall in HF.
    specialize (HF (w, dm) (proj1 (list_elem_of_In _ _) (proj2 (elem_of_map_to_list _ _ _) Hw))).
    by apply Nat.leb_le in HF. }
  destruct (AllocateMemIndex_ok empty_store) as (i0 & s0 & R0 & H0).
  { split; intros p [x Hx]; cbn in Hx; by rewrite lookup_empty in Hx. } { by intros n. }
  unfold sample_run. step R0. cbn [get_or]. rewrite bind_ret.
  destruct (add_ok s0 i0 ∅ wa 1 [0; 4] H0) as (i1 & s1 & R1 & H1);
    [by left|done|vm_compute; lia|apply Hsize; by vm_compute|]. step R1.
  destruct (add_ok s1 i1 _ wb 1 [2] H1) as (i2 & s2 & R2 & H2);
    [by right; left|done|vm_compute; lia|apply Hsize; by vm_compute|]. step R2.
  destruct (add_ok s2 i2 _ wa 2 [0] H2) as (i3 & s3 & R3 & H3);
    [by left|done|vm_compute; lia|apply Hsize; by vm_compute|]. step R3.
  destruct (add_ok s3 i3 _ wb 3 [0] H3) as (i4 & s4 & R4 & H4);
    [by right; left|done|vm_compute; lia|apply Hsize; by vm_compute|]. step R4.
  destruct (add_ok s4 i4 _ wc 3 [2] H4) as (i5 & s5 & R5 & H5);
    [by right; right|done|vm_compute; lia|apply Hsize; by vm_compute|].
  exists i5, s5. split; [done|]. replace sample_index with (add_posting (add_posting (add_posting
    (add_posting (add_posting ∅ wa 1 [0; 4]) wb 1 [2]) wa 2 [0]) wb 3 [0]) wc 3 [2]); [done|].
  apply (map_eq (M := gmap (list Z))). intros w. by vm_compute.
Qed.

Lemma MIAddPostingList_posts_witness : exists s index index' s',
  sample_run empty_store = Ok (index, s) /\
  MIAddPostingList index wc 1 [9] s = Ok ((1, index'), s') /\
  index_rep s' index' (add_posting sample_index wc 1 [9]).
Proof.
  destruct sample_run_ok as (index & s & HR & Hs). exists s, index.
  destruct (MIAddPostingList_posts s index sample_index wc 1 [9] (so_rep _ _ _ Hs) (so_fresh _ _ _ Hs)
    (so_mem _ _ _ Hs)) as (index' & s' & HR' & Hix & _).
  - apply (state_tells s index); [exact Hs|]. right. right. reflexivity.
  - reflexivity.
  - reflexivity.
  - reflexivity.
  - exists index', s'. split; [exact HR|]. split; [exact HR'|exact Hix].
Defined.

Lemma MIProcessQuery_ranks_witness : exists s index r s',
  sample_run empty_store = Ok (index, s) /\
  MIProcessQuery index [wa; wb] 2 s = Ok (Some r, s') /\ scored sample_index [wa; wb] r.
Proof.
  destruct sample_run_ok as (index & s & HR & Hs). exists s, index.
  destruct (MIProcessQuery_ranks s index sample_index [wa; wb] (so_rep _ _ _ Hs) (so_mem _ _ _ Hs))
    as (r & s' & HR' & Hr).
  - intros w Hw. apply (state_tells s index); [exact Hs|].
    apply elem_of_cons in Hw as [->|Hw%list_elem_of_singleton]; [left; reflexivity|right; left; exact Hw].
  - cbn. lia.
  - intros (i & Hi & _). cbn in Hi. lia.
  - destruct r as [rs|].
    + exists rs, s'. split; [exact HR|]. split; [exact HR'|]. apply Hr.
    + specialize (Hr 1). vm_compute in Hr. discriminate.
Defined.

(** No document has both "a" and "c"; with a third word in the query, the
    iterator of the now empty result list is [NULL] and freeing it stops the
    program. *)
Example empty_results_stop_the_program :
  match sample_run empty_store with
  | Ok (index, s) =>
      match MIProcessQuery index [wa; wc; wb] 3 s with Err VerifyFailed => True | _ => False end
  | Err _ => False
  end.
Proof. vm_compute. exact I. Qed.

Example no_results_get_stuck : stuck sample_index [wa; wc; wb].
Proof.
  exists 2%nat. split; [cbn; lia|]. split.
  - cbn [take]. intros w Hw. rewrite !elem_of_cons, elem_of_nil in Hw.
    destruct Hw as [->|[->|[->|[]]]]; vm_compute; by eexists.
  - intros d. cbn [score take]. unfold count.
    replace (sample_index !! wc) with (Some ({[ 3 := [2] ]} : postings)) by (by vm_compute).
    replace (sample_index !! wa) with (Some ({[ 1 := [0; 4]; 2 := [0] ]} : postings)) by (by vm_compute).
    cbn. destruct (decide (d = 3)) as [->|Hd]; [by vm_compute|].
    rewrite (lookup_singleton_ne 3 d) by done. by destruct ({[ 1 := _; 2 := _ ]} !! d).
Qed.
