(* ===== verification/FileCrawler.v ===== *)
(** Crawling a directory tree into a document table and an inverted index,
    [uw_cse333/hw/hw2/filecrawler.c].  The file system is a tree of what
    [stat], [opendir], [readdir_r] and [read] answer. *)
From S2P Require Import Prelude Alloc HashTable Table DocTable FileParser FileParserSpec LinkedList LinkedListSpec MemIndex MemIndexSpec.
Open Scope Z_scope.

Inductive fs_node :=
  | RegularFile (f : file_script)
  | Directory (opens : bool) (entries : list (list Z * fs_node))
  | OtherFile
  | Unstatable.

Section FileCrawler.
Context {OL : TableOps (list Z)} {ON : TableOps Z} {OP : TableOps positive}.

Abbreviation state := (DocTableRecord OL ON * table (V := positive))%type.

(** [while (NumElementsInHashTable(tab) > 0)]: moves every posting over. *)
Fixpoint HandleFile_loop (fuel : nat) (docID : Z) (tab : table (V := positive))
    (it : titer (V := positive)) (index : table (V := positive))
    : M (store OL) (table (V := positive) * titer (V := positive) * table (V := positive)) :=
  match fuel with
  | O => fail OutOfFuel
  | S fuel' =>
      if t_num tab <=? 0 then ret (tab, it, index)
      else
        let* (_, kv, it, tab) := lift (t_delete it tab) in
        let* kv := get_or BadAccess kv in
        let* wp := load_wp kv.2 in
        let* (res, index) := MIAddPostingList index (wp_word wp) docID (wp_positions wp) in
        do* ensure VerifyFailed (res =? 1);
        do* free_wp kv.2;
        HandleFile_loop fuel' docID tab it index
  end.

Definition HandleFile (fpath : list Z) (f : file_script) (st : state) : M (store OL) state :=
  let '(doctable, index) := st in
  let* tab := BuildWordHT f in
  match tab with
  | None => ret (doctable, index)
  | Some tab =>
      let* (docID, doctable) := lift (DTRegisterDocumentName doctable fpath) in
      do* ensure VerifyFailed (negb (docID =? 0));
      let* it := lift (t_iter tab) in
      let* it := get_or VerifyFailed it in
      let* (tab, it, index) := HandleFile_loop (S (Z.to_nat (t_num tab))) docID tab it index in
      do* lift (t_iter_free it);
      do* FreeWordHT tab;
      ret (doctable, index)
  end.

(** [snprintf] of the directory's path, a slash unless it ends in one, and
    the entry's name. *)
Definition join_path (dirpath name : list Z) : option (list Z) :=
  c ← last dirpath;
  Some (if c =? 47 then dirpath ++ name else dirpath ++ 47 :: name).

(** [strncmp(d_name, ".", 1) == 0]; the second test never adds to it. *)
Definition skipped (name : list Z) : bool :=
  match name with c :: _ => c =? 46 | [] => false end.

(** The body of [HandleDir]'s loop for one entry, already [stat]ed; the inner
    loop is [HandleDir] on a directory that could be opened. *)
Fixpoint handle_entry (n : fs_node) (path : list Z) (st : state) : M (store OL) state :=
  match n with
  | RegularFile f => HandleFile path f st
  | Directory true entries =>
      (fix HandleDir (es : list (list Z * fs_node)) (st : state) : M (store OL) state :=
         match es with
         | [] => ret st
         | (name, n') :: es' =>
             if skipped name then HandleDir es' st
             else
               let* newfile := lift alloc in
               do* ensure VerifyFailed (bool_decide (is_Some newfile));
               let* path' := get_or BadAccess (join_path path name) in
               let* st := handle_entry n' path' st in
               do* lift (release 1);
               HandleDir es' st
         end) entries st
  | _ => ret st
  end.

(** [HandleDir] on the entries of the directory [dirpath]. *)
Definition HandleDir (dirpath : list Z) (entries : list (list Z * fs_node)) (st : state)
    : M (store OL) state := handle_entry (Directory true entries) dirpath st.

Definition CrawlFileTree (rootdir : list Z) (root : fs_node) : M (store OL) (Z * option state) :=
  match root with
  | Directory true entries =>
      let* doctable := lift AllocateDocTable in
      let* index := AllocateMemIndex in
      let* index := get_or VerifyFailed index in
      let* st := HandleDir rootdir entries (doctable, index) in
      ret (1, Some st)
  | _ => ret (0, None)
  end.

End FileCrawler.
