(* ===== verification/FileCrawlerSpec.v ===== *)
(** Crawling, part 2: after a crawl the document table and the index say of
    every file of the tree which words it has, and where. *)
From S2P Require Import Prelude Alloc HashTable Table DocTable FileParser FileParserSpec LinkedList LinkedListSpec MemIndex MemIndexSpec FileCrawler.
Open Scope Z_scope.

#[local] Arguments words : simpl never.

(** ** What a tree holds *)

(** Everything the reads of a file deliver. *)
Definition file_text (f : file_script) : list Z :=
  concat ((fun r => match r with ReadBytes bs => bs | ReadError _ => [] end) <$> f_reads f).

(** The regular files of a tree in the order they are visited, with their
    paths and texts. *)
Fixpoint tree_files (n : fs_node) (path : list Z) : list (list Z * list Z) :=
  match n with
  | RegularFile f => [(path, file_text f)]
  | Directory true entries =>
      (fix go (es : list (list Z * fs_node)) : list (list Z * list Z) :=
         match es with
         | [] => []
         | (name, n') :: es' =>
             (if skipped name then [] else tree_files n' (default [] (join_path path name))) ++ go es'
         end) entries
  | _ => []
  end.

(** The documents: the files with at least one word. *)
Definition has_words (x : list Z * list Z) : Prop := words x.2 <> [].
#[export] Instance has_words_dec x : Decision (has_words x).
Proof. unfold has_words. apply _. Defined.

(** [IX] posts exactly the words of the documents, the [i]-th with id [i+1]. *)
Definition posts (IX : gmap (list Z) postings) (files : list (list Z * list Z)) : Prop :=
  forall w d, (dm ← IX !! w; dm !! d) =
    if decide (1 <= d) then x ← files !! Z.to_nat (d - 1); index_of (words x.2) !! w else None.

Lemma words_index ws w : is_Some (index_of ws !! w) -> w ∈ ws.*1.
Proof.
  rewrite index_of_lookup. unfold positions_of.
  destruct (filter _ ws) as [|x l] eqn:E; [by intros []|]. intros _.
  assert (Hx : x ∈ filter (fun x => x.1 = w) ws) by (rewrite E; by left).
  apply list_elem_of_filter in Hx as [<- Hx]. by apply list_elem_of_fmap_2.
Qed.

Lemma range_size {A} (m : gmap Z A) n :
  (forall d, is_Some (m !! d) -> 1 <= d <= Z.of_nat n) -> (size m <= n)%nat.
Proof.
  intros H. rewrite <- size_dom.
  assert (Hsub : dom m ⊆ list_to_set (C := gset Z) (seqZ 1 (Z.of_nat n))).
  { intros d Hd%elem_of_dom. apply elem_of_list_to_set, elem_of_seqZ. specialize (H d Hd). lia. }
  apply subseteq_size in Hsub. rewrite size_list_to_set in Hsub by apply NoDup_seqZ.
  rewrite length_seqZ in Hsub. lia.
Qed.

Lemma keys_size {A} (m : gmap (list Z) A) (ws : list (list Z)) :
  (forall w, is_Some (m !! w) -> w ∈ ws) -> (size m <= length ws)%nat.
Proof.
  intros H. rewrite <- size_dom.
  assert (Hsub : dom m ⊆ list_to_set (C := gset (list Z)) (remove_dups ws)).
  { intros w Hw%elem_of_dom. apply elem_of_list_to_set, elem_of_remove_dups. auto. }
  apply subseteq_size in Hsub. rewrite size_list_to_set in Hsub by apply NoDup_remove_dups.
  assert (length (remove_dups ws) <= length ws)%nat.
  { clear. induction ws as [|w ws IH]; cbn; [lia|]. destruct (decide_rel _ _ _); cbn; lia. }
  lia.
Qed.

Lemma posts_range IX files w d :
  posts IX files -> is_Some (default ∅ (IX !! w) !! d) -> 1 <= d <= Z.of_nat (length files).
Proof.
  intros HP [ps Hd]. specialize (HP w d). destruct (IX !! w) as [dm|]; cbn in *; [|by rewrite lookup_empty in Hd].
  unfold id in Hd. rewrite Hd in HP. destruct (decide (1 <= d)); [|done]. split; [done|].
  destruct (files !! Z.to_nat (d - 1)) as [x|] eqn:Hx; [|done]. apply lookup_lt_Some in Hx. lia.
Qed.

Section Spec.
Context {OL : TableOps (list Z)} {ON : TableOps Z} {OP : TableOps positive}.
Context {LL : TableLaws (list Z)} {LN : TableLaws Z} {LP : TableLaws positive}.
Implicit Types (s : store OL) (IX : gmap (list Z) postings).

(** Every word that can occur, told apart by the hash. *)
Context (vocabulary : list (list Z)).
Context (vocabulary_hash : forall w1 w2, w1 ∈ vocabulary -> w2 ∈ vocabulary ->
  FNVHash64 w1 = FNVHash64 w2 -> w1 = w2).
Context (vocabulary_size : Z.of_nat (length vocabulary) < capacity).

(** *** Moving the postings of one file *)

Definition entry_of s (kv : Z * positive) (e : list Z * list Z) : Prop :=
  kv.1 = FNVHash64 e.1 /\ wps s !! kv.2 = Some (mkWP e.1 e.2).

Lemma word_table_entries s tab mp : word_table s tab mp ->
  exists kvs ents, t_rep (al s) tab kvs /\ Forall2 (entry_of s) kvs ents /\
    NoDup ents.*1 /\ forall w, (list_to_map ents : gmap (list Z) (list Z)) !! w = mp !! w.
Proof.
  intros [(kvs & Hr & _ & Hf & Hb)]. pose proof (t_rep_nodup _ _ _ Hr) as Hnd.
  assert (Hex : Forall (fun kv => exists e, entry_of s kv e /\ mp !! e.1 = Some e.2) kvs).
  { apply Forall_forall. intros [h p] Hin.
    apply (elem_of_list_to_map_1 (M := gmap Z)) in Hin; [|done].
    destruct (Hf h p Hin) as (w & ps & Hw & -> & Hm). by exists (w, ps). }
  assert (exists ents, Forall2 (fun kv e => entry_of s kv e /\ mp !! e.1 = Some e.2) kvs ents) as [ents H2].
  { clear -Hex. induction Hex as [|kv kvs [e He] _ [ents IH]]; [by exists []|].
    exists (e :: ents). by constructor. }
  exists kvs, ents. split; [done|].
  assert (HE : Forall2 (entry_of s) kvs ents) by (eapply Forall2_impl; [exact H2|]; by intros ? ? []).
  split; [done|].
  assert (Hkeys : kvs.*1 = FNVHash64 <$> ents.*1).
  { clear -HE. induction HE as [|kv e kvs ents [Hk _] _ IH]; cbn; [done|]. by rewrite Hk, IH. }
  assert (Hnde : NoDup ents.*1) by (rewrite Hkeys in Hnd; by eapply NoDup_fmap_1).
  split; [done|]. intros w. destruct (mp !! w) as [ps|] eqn:Hw.
  - destruct (Hb w ps Hw) as (p & Hp & Hwp). apply elem_of_list_to_map_1; [done|].
    apply (elem_of_list_to_map_2 (M := gmap Z)) in Hp. apply list_elem_of_lookup in Hp as [i Hi].
    destruct (Forall2_lookup_l _ _ _ _ _ H2 Hi) as ([w' ps'] & He & [_ Hwp'] & Hm).
    cbn in *. rewrite Hwp in Hwp'. injection Hwp' as <- <-. by eapply list_elem_of_lookup_2.
  - destruct ((list_to_map ents : gmap _ _) !! w) as [ps|] eqn:E; [|done].
    apply (elem_of_list_to_map_2 (M := gmap (list Z))), list_elem_of_lookup in E as [i Hi].
    destruct (Forall2_lookup_r _ _ _ _ _ H2 Hi) as (kv & _ & _ & Hm). cbn in Hm. congruence.
Qed.

Definition add_entries IX (id : Z) (ents : list (list Z * list Z)) : gmap (list Z) postings :=
  foldl (fun IX e => add_posting IX e.1 id e.2) IX ents.

Lemma add_entries_lookup IX id ents w : NoDup ents.*1 ->
  add_entries IX id ents !! w =
    match (list_to_map ents : gmap (list Z) (list Z)) !! w with
    | Some ps => Some (<[id := ps]> (default ∅ (IX !! w)))
    | None => IX !! w
    end.
Proof.
  unfold add_entries. revert IX; induction ents as [|[w' ps'] ents IH]; intros IX Hnd; cbn [foldl].
  - cbn. by rewrite lookup_empty.
  - cbn in Hnd. apply NoDup_cons in Hnd as [Hn Hnd]. rewrite IH by done. cbn. unfold add_posting; cbn.
    destruct (decide (w' = w)) as [->|Hne].
    + rewrite (not_elem_of_list_to_map_1 _ _ Hn), !lookup_insert_eq. done.
    + by rewrite !lookup_insert_ne by done.
Qed.

Lemma HandleFile_loop_ok id : forall kvs ents fuel s tab it index IX,
  t_rep (al s) tab kvs -> Forall2 (entry_of s) kvs ents -> NoDup ents.*1 ->
  match kvs with [] => True | x :: post => t_at tab it [] x post end ->
  index_rep s index IX -> fresh_store s -> plentiful (al s) -> (length kvs < fuel)%nat ->
  (forall w, is_Some (IX !! w) -> w ∈ vocabulary) -> (forall w, w ∈ ents.*1 -> w ∈ vocabulary) ->
  (forall w, w ∈ ents.*1 -> default ∅ (IX !! w) !! id = None) ->
  (forall w, w ∈ ents.*1 -> Z.of_nat (size (default ∅ (IX !! w))) < capacity) ->
  exists tab' it' index' s', HandleFile_loop fuel id tab it index s = Ok ((tab', it', index'), s') /\
    t_rep (al s') tab' [] /\ index_rep s' index' (add_entries IX id ents) /\ fresh_store s' /\
    after (al s) (al s').
Proof.
  induction kvs as [|[h p] kvs IH]; intros ents fuel s tab it index IX Hr He Hnd Hat Hix Hfr Hp Hfuel HIX Hev Hnew Hsz;
    (destruct fuel as [|fuel]; [lia|]); cbn [HandleFile_loop]; rewrite (t_rep_num _ _ _ Hr).
  { apply Forall2_nil_inv_l in He as ->. cbn. by exists tab, it, index, s. }
  apply Forall2_cons_inv_l in He as ([w ps] & ents' & [Hh Hwp] & He & ->). cbn in Hh, Hwp. subst h.
  cbn [length]. rewrite (proj2 (Z.leb_gt _ 0)) by lia.
  destruct (t_delete_ok _ _ _ _ _ _ _ Hr Hp Hat) as (it1 & tab1 & m1 & r & R1 & A1 & Hr1 & Hat1).
  step (lift_ok _ s _ _ R1). cbn [get_or snd]. rewrite bind_ret.
  set (s1 := mkStore m1 (wps s) (wdss s)). cbn [app] in Hr1.
  assert (RL : load_wp p s1 = Ok (mkWP w ps, s1)).
  { unfold load_wp, bind. cbn. by rewrite Hwp. }
  step RL. cbn [wp_word wp_positions].
  cbn in Hnd. apply NoDup_cons in Hnd as [Hnw Hnd].
  assert (Hp1 : plentiful (al s1)) by (by eapply after_plentiful).
  assert (Hsize : Z.of_nat (size IX) < capacity) by (pose proof (keys_size IX vocabulary HIX); lia).
  destruct (MIAddPostingList_ok s1 index IX w id ps) as (index2 & s2 & R2 & Hix2 & Hfr2 & A2 & W2).
  - by apply index_rep_after.
  - by apply fresh_later.
  - done.
  - intros w' Hw' E. apply vocabulary_hash; [by apply HIX|apply Hev; by left|done].
  - apply Hnew. by left.
  - done.
  - apply Hsz. by left.
  - step R2. cbn [Z.eqb Pos.eqb ensure]. rewrite bind_ret.
    assert (RF : exists m3, free_wp p s2 = Ok (tt, mkStore m3 (delete p (wps s2)) (wdss s2)) /\ after (al s2) m3).
    { destruct (release_after 1 (al s2)) as (m3 & R3 & A3). exists m3. split; [|done].
      unfold free_wp. assert (RL2 : load_wp p s2 = Ok (mkWP w ps, s2)).
      { unfold load_wp, bind. cbn. rewrite W2. cbn. by rewrite Hwp. }
      step RL2. by step (lift_ok _ s2 _ _ R3). }
    destruct RF as (m3 & R3 & A3). step R3.
    assert (A03 : after m1 m3) by (by transitivity (al s2)).
    destruct (IH ents' fuel (mkStore m3 (delete p (wps s2)) (wdss s2)) tab1 it1 index2
      (add_posting IX w id ps)) as (tab' & it' & index' & s' & R' & Hr' & Hix' & Hfr' & A'); try done.
    + by eapply t_rep_after.
    + apply Forall2_same_length_lookup_2; [by eapply Forall2_length|].
      intros i [h' p'] [w' ps'] Hi Hi'. pose proof (Forall2_lookup_lr _ _ _ _ _ _ He Hi Hi') as [Hh' Hwp'].
      split; [done|]. cbn in *. rewrite lookup_delete_ne, W2; [done|]. intros ->. rewrite Hwp in Hwp'.
      injection Hwp' as -> ->. apply Hnw. apply list_elem_of_fmap_2' with (x := (w', ps')); [|done].
      by eapply list_elem_of_lookup_2.
    + pose proof (index_rep_after s2 m3 _ _ Hix2 A3) as [(kk & K1 & K2 & K3 & K4) Kne].
      split; [|done]. exists kk. done.
    + pose proof (fresh_later s2 m3 Hfr2 A3) as [F1 F2]. split; [|done].
      intros q [x Hq]. apply F1. cbn in *. apply lookup_delete_Some in Hq as [_ Hq]. by eexists.
    + cbn. eapply after_plentiful; [exact A3|]. by eapply after_plentiful.
    + cbn [length] in Hfuel. lia.
    + unfold add_posting. intros w' [<-|[_ Hw']]%lookup_insert_is_Some; [apply Hev; by left|by apply HIX].
    + intros w' Hw'. apply Hev. by right.
    + intros w' Hw'. unfold add_posting. rewrite lookup_insert_ne by (intros ->; done).
      apply Hnew. by right.
    + intros w' Hw'. unfold add_posting. rewrite lookup_insert_ne by (intros ->; done).
      apply Hsz. by right.
    + exists tab', it', index', s'. split_and!; try done; [by destruct Hfr'..|].
      transitivity m1; [done|]. by transitivity m3.
Qed.

(** *** One file *)

(** The paths that can occur, told apart by the hash. *)
Context (paths : list (list Z)).
Context (paths_hash : forall p1 p2, p1 ∈ paths -> p2 ∈ paths -> FNVHash64 p1 = FNVHash64 p2 -> p1 = p2).
Context (paths_size : Z.of_nat (length paths) < capacity).

(** A file the crawl can index: its text is ASCII over the vocabulary. *)
Definition indexable (x : list Z * list Z) : Prop :=
  x.1 ∈ paths /\ ascii x.2 /\ Z.of_nat (length (words x.2)) <= capacity /\
  forall w, w ∈ (words x.2).*1 -> w ∈ vocabulary.

(** After a crawl of [files]: the documents are registered in order, and the
    index posts exactly their words. *)
Record crawled s (st : DocTableRecord OL ON * table (V := positive)) (files : list (list Z * list Z)) : Prop := {
  cr_registry : registry (al s) st.1 (files.*1);
  cr_index : exists IX, index_rep s st.2 IX /\ posts IX files;
  cr_fresh : fresh_store s;
  cr_mem : plentiful (al s);
  cr_nodup : NoDup files.*1;
  cr_files : Forall indexable files
}.

(** An indexed word is a word of a document. *)
Lemma posted_word IX files w :
  posts IX files -> (forall w dm, IX !! w = Some dm -> dm <> ∅) -> is_Some (IX !! w) ->
  exists x, x ∈ files /\ w ∈ (words x.2).*1.
Proof.
  intros HP Hne [dm Hw]. specialize (Hne w dm Hw). apply map_choose in Hne as (d & ps & Hd).
  specialize (HP w d). rewrite Hw in HP. cbn in HP. rewrite Hd in HP.
  destruct (decide (1 <= d)); [|done]. destruct (files !! Z.to_nat (d - 1)) as [x|] eqn:Hx; [|done].
  cbn in HP. exists x. split; [by eapply list_elem_of_lookup_2|]. apply words_index. by eexists.
Qed.

Lemma index_words ws w : w ∈ ws.*1 -> is_Some (index_of ws !! w).
Proof.
  intros (x & -> & Hx)%list_elem_of_fmap. rewrite index_of_lookup. unfold positions_of.
  assert (H : x ∈ filter (fun y => y.1 = x.1) ws) by (by apply list_elem_of_filter).
  destruct (filter _ ws); [by apply elem_of_nil in H|by eexists].
Qed.

Lemma word_posted IX files w path text : posts IX files -> (path, text) ∈ files -> w ∈ (words text).*1 -> is_Some (IX !! w).
Proof.
  intros HP [i Hi]%list_elem_of_lookup Hw. specialize (HP w (Z.of_nat i + 1)). rewrite decide_True in HP by lia.
  replace (Z.to_nat (Z.of_nat i + 1 - 1)) with i in HP by lia. rewrite Hi in HP. cbn in HP.
  apply index_words in Hw as [ps Hps]. rewrite Hps in HP. destruct (IX !! w); [by eexists|done].
Qed.

Lemma posts_vocabulary IX files w :
  posts IX files -> (forall w dm, IX !! w = Some dm -> dm <> ∅) -> Forall indexable files ->
  is_Some (IX !! w) -> w ∈ vocabulary.
Proof.
  intros HP Hne Hfiles Hw. destruct (posted_word IX files w HP Hne Hw) as (x & Hx & Hwx).
  rewrite Forall_forall in Hfiles. destruct (Hfiles x Hx) as (_ & _ & _ & Hv). by apply Hv.
Qed.

Lemma files_size files : NoDup files.*1 -> Forall indexable files -> (length files <= length paths)%nat.
Proof.
  intros Hnd Hf. rewrite <- (length_fmap fst). apply submseteq_length, NoDup_submseteq; [done|].
  intros p (x & -> & Hx)%list_elem_of_fmap. rewrite Forall_forall in Hf. by apply Hf.
Qed.

Lemma posts_add IX files x ents IX' :
  posts IX files -> (forall w, (list_to_map ents : gmap (list Z) (list Z)) !! w = index_of (words x.2) !! w) ->
  NoDup ents.*1 -> IX' = add_entries IX (Z.of_nat (length files) + 1) ents -> posts IX' (files ++ [x]).
Proof.
  intros HP Hents Hnd -> w d. rewrite add_entries_lookup, Hents by done. specialize (HP w d).
  destruct (decide (d = Z.of_nat (length files) + 1)) as [->|Hd].
  - rewrite decide_True by lia. replace (Z.to_nat _) with (length files) by lia.
    rewrite list_lookup_middle by done. cbn. destruct (index_of (words x.2) !! w); cbn.
    + by rewrite lookup_insert_eq.
    + rewrite HP, decide_True by lia. by rewrite lookup_ge_None_2 by lia.
  - transitivity (dm ← IX !! w; dm !! d).
    { destruct (index_of (words x.2) !! w); cbn; [|done]. rewrite lookup_insert_ne by done.
      destruct (IX !! w); cbn; [done|]. by rewrite lookup_empty. }
    rewrite HP. destruct (decide (1 <= d)); [|done].
    destruct (decide (d <= Z.of_nat (length files))); [by rewrite lookup_app_l by lia|].
    rewrite !lookup_ge_None_2; [done|rewrite length_app; cbn; lia|lia].
Qed.

Lemma HandleFile_ok s st files path f :
  crawled s st files -> path ∉ files.*1 -> readable f (file_text f) -> indexable (path, file_text f) ->
  exists st' s', HandleFile path f st s = Ok (st', s') /\
    crawled s' st' (files ++ filter has_words [(path, file_text f)]).
Proof.
  intros [Hreg (IX & Hix & HP) Hfr Hp Hnd Hfiles] Hpath Hread (Hin & Has & Hcap & Hvoc).
  cbn in Hin, Has, Hcap, Hvoc. generalize dependent (file_text f). intros text Hread Has Hcap Hvoc. destruct st as [dt index]. cbn in Hreg, Hix.
  assert (Hlen : (length files < length paths)%nat).
  { assert (Hnd' : NoDup (files ++ [(path, text)]).*1).
    { rewrite fmap_app. cbn. apply NoDup_app. split_and!; [done| |apply NoDup_singleton].
      intros q Hq ->%list_elem_of_singleton. done. }
    pose proof (files_size (files ++ [(path, text)]) Hnd') as Hl. rewrite length_app in Hl. cbn in Hl.
    enough (length files + 1 <= length paths)%nat by lia. apply Hl.
    apply Forall_app_2; [done|]. by constructor. }
  unfold HandleFile. destruct (BuildWordHT_ok s f text Hread Has Hfr Hp) as (r & s1 & R1 & Hfr1 & [A1 W1] & Hr).
  { intros w1 w2 H1 H2. apply vocabulary_hash; auto. } { done. }
  step R1. assert (Hp1 : plentiful (al s1)) by (by eapply after_plentiful).
  assert (Hix1 : index_rep s1 index IX).
  { pose proof (index_rep_after s (al s1) index IX Hix A1) as [(k & K1 & K2 & K3 & K4) Kn].
    split; [|done]. exists k. cbn in *. rewrite W1. done. }
  destruct (decide (has_words (path, text))) as [Hw|Hw].
  2:{ assert (E : words text = []).
      { destruct (words text) eqn:E; [done|]. destruct Hw. unfold has_words. cbn. by rewrite E. }
      rewrite E in Hr. subst r.
      exists (dt, index), s1. split; [done|]. rewrite filter_cons_False by (unfold has_words; cbn; congruence).
      rewrite filter_nil, app_nil_r. split; try done; [by eapply registry_after|by exists IX]. }
  rewrite filter_cons_True, filter_nil by done.
  assert (exists tab, r = Some tab /\ word_table s1 tab (index_of (words text))) as (tab & -> & Hwt)
    by (unfold has_words in Hw; cbn in Hw; by destruct (words text)).
  destruct (DTRegisterDocumentName_ok (al s1) dt files.*1 path) as (id & dt' & m2 & R2 & A2 & Hcase).
  - by eapply registry_after.
  - done.
  - intros d Hd. apply paths_hash; [|done]. apply list_elem_of_fmap in Hd as (x & -> & Hx).
    rewrite Forall_forall in Hfiles. by apply Hfiles.
  - rewrite length_fmap. lia.
  - destruct Hcase as [(i & _ & Hi & _)|(_ & Hid & Hreg')]; [by apply list_elem_of_lookup_2 in Hi|].
    rewrite length_fmap in Hid. step (lift_ok _ s1 _ _ R2).
    rewrite (proj2 (Z.eqb_neq _ 0)) by lia. cbn [negb ensure]. rewrite bind_ret.
    destruct (word_table_entries s1 tab _ Hwt) as (kvs & ents & Hrk & He & Hnde & Hents).
    assert (Hrk2 : t_rep m2 tab kvs) by (by eapply t_rep_after).
    assert (Hp2 : plentiful m2) by (by eapply after_plentiful).
    destruct (t_iter_ok m2 tab kvs Hrk2 Hp2) as (it & m3 & R3 & A3 & Hit).
    step (lift_ok _ (mkStore m2 (wps s1) (wdss s1)) _ _ R3). cbn [get_or]. rewrite bind_ret.
    rewrite (t_rep_num _ _ _ Hrk).
    assert (Hentv : forall w, w ∈ ents.*1 -> w ∈ vocabulary).
    { intros w (e & -> & Hin')%list_elem_of_fmap. destruct e as [w ps]. cbn. apply Hvoc, words_index.
      rewrite <- Hents. apply (elem_of_list_to_map_1 (M := gmap (list Z))) in Hin'; [|done]. by eexists. }
    assert (Hixne : forall w dm, IX !! w = Some dm -> dm <> ∅) by apply Hix.
    assert (Hnone : forall w, default ∅ (IX !! w) !! id = None).
    { intros w. destruct (default ∅ (IX !! w) !! id) eqn:E; [|done].
      pose proof (posts_range IX files w id HP ltac:(by eexists)). lia. }
    assert (Hsz : forall w, Z.of_nat (size (default ∅ (IX !! w))) < capacity).
    { intros w. pose proof (range_size (default ∅ (IX !! w)) (length files)) as Hs.
      enough (size (default ∅ (IX !! w)) <= length files)%nat by lia.
      apply Hs. intros d. by apply posts_range. }
    assert (A13 : after (al s1) m3) by (by transitivity m2).
    destruct (HandleFile_loop_ok id kvs ents (S (Z.to_nat (Z.of_nat (length kvs))))
      (mkStore m3 (wps s1) (wdss s1)) tab it index IX) as (tab' & it' & index' & s4 & R4 & Hr4 & Hix4 & Hfr4 & A4);
      try done.
    + by eapply t_rep_after.
    + by apply index_rep_after.
    + by apply fresh_later.
    + by eapply after_plentiful.
    + lia.
    + intros w. by apply (posts_vocabulary IX files).
    + step R4. destruct (t_iter_free_ok it' (al s4)) as (m5 & R5 & A5). step (lift_ok _ s4 _ _ R5).
      unfold FreeWordHT. rewrite bind_assoc, (bind_ok _ _ (mkStore m5 (wps s4) (wdss s4)) _ _ eq_refl).
      destruct (t_free_ok (V := positive) m5 (al s4) tab' [] (WordHTFree (wps s4)) Hr4) as (m6 & R6 & A6);
        [by intros k v m ?%elem_of_nil|]. step (lift_ok _ (mkStore m5 (wps s4) (wdss s4)) _ _ R6).
      exists (dt', index'), (mkStore m6 (wps s4) (wdss s4)). split; [reflexivity|].
      assert (A46 : after (al s4) m6) by (by transitivity m5).
      split; cbn [fst snd al].
      * rewrite fmap_app. eapply registry_after; [exact Hreg'|].
        transitivity m3; [done|]. by transitivity (al s4).
      * exists (add_entries IX id ents). split; [by apply index_rep_after|].
        by eapply (posts_add IX files (path, text)); [..|rewrite <- Hid].
      * by apply fresh_later.
      * eapply after_plentiful; [|exact Hp1]. transitivity m3; [done|]. by transitivity (al s4).
      * rewrite fmap_app. cbn. apply NoDup_app. split_and!; [done| |apply NoDup_singleton].
        intros q Hq ->%list_elem_of_singleton. done.
      * apply Forall_app_2; [done|]. by constructor.
Qed.

(** *** A whole tree *)

Lemma fs_node_ind (P : fs_node -> Prop) :
  (forall f, P (RegularFile f)) ->
  (forall o entries, Forall (fun e => P e.2) entries -> P (Directory o entries)) ->
  P OtherFile -> P Unstatable -> forall n, P n.
Proof.
  intros HR HD HO HU. fix IH 1. intros [f|o entries| |]; [apply HR| |done|done].
  apply HD. induction entries as [|[name n] entries IHe]; constructor; [apply IH|exact IHe].
Qed.

(** Every regular file of the tree can be read. *)
Fixpoint readable_tree (n : fs_node) : Prop :=
  match n with
  | RegularFile f => readable f (file_text f)
  | Directory _ entries =>
      (fix go (es : list (list Z * fs_node)) : Prop :=
         match es with [] => True | (_, n') :: es' => readable_tree n' /\ go es' end) entries
  | _ => True
  end.

Definition entry_files (path : list Z) (e : list Z * fs_node) : list (list Z * list Z) :=
  if skipped e.1 then [] else tree_files e.2 (default [] (join_path path e.1)).

Lemma tree_files_dir path entries :
  tree_files (Directory true entries) path = concat (entry_files path <$> entries).
Proof. cbn. induction entries as [|[name n] entries IH]; cbn; [done|]. by rewrite IH. Qed.

Lemma join_path_ok path name : path <> [] -> exists p, join_path path name = Some p /\ p <> [].
Proof.
  intros Hp. unfold join_path. destruct (last path) as [c|] eqn:E; [|by apply last_None in E].
  cbn. eexists. split; [reflexivity|]. destruct (c =? 47); by destruct path.
Qed.

Definition handles (n : fs_node) : Prop := forall path s st files,
  path <> [] -> readable_tree n -> crawled s st files ->
  NoDup (files ++ tree_files n path).*1 -> Forall indexable (tree_files n path) ->
  exists st' s', handle_entry n path st s = Ok (st', s') /\
    crawled s' st' (files ++ filter has_words (tree_files n path)).

Lemma fmap_sublist {A B} (f : A -> B) xs ys : sublist xs ys -> sublist (f <$> xs) (f <$> ys).
Proof. induction 1; cbn; by constructor. Qed.

Lemma nodup_app_filter (files new rest : list (list Z * list Z)) :
  NoDup (files ++ new ++ rest).*1 -> NoDup ((files ++ filter has_words new) ++ rest).*1.
Proof.
  intros Hnd. eapply sublist_NoDup; [exact Hnd|]. apply fmap_sublist. rewrite <- app_assoc.
  apply sublist_app; [done|]. apply sublist_app; [apply sublist_filter|done].
Qed.

Lemma crawled_after s m' st files :
  crawled s st files -> after (al s) m' -> crawled (mkStore m' (wps s) (wdss s)) st files.
Proof.
  intros [] Ha. split; try done.
  - by eapply registry_after.
  - destruct cr_index0 as (IX & HI & HP). exists IX. split; [by apply index_rep_after|done].
  - by apply fresh_later.
  - by eapply after_plentiful.
Qed.

Lemma handle_entry_ok n : handles n.
Proof.
  induction n as [f|o entries Hall| |] using fs_node_ind; intros path s st files Hpath Hread Hcr Hnd Hidx.
  - cbn in *. inversion_clear Hidx as [|? ? Hi _].
    destruct (HandleFile_ok s st files path f) as (st' & s' & HR & Hcr'); try done.
    { rewrite fmap_app in Hnd. cbn in Hnd. apply NoDup_app in Hnd as (_ & Hd & _).
      intros Hin. apply (Hd path Hin). by left. }
    by exists st', s'.
  - destruct o; [|cbn; exists st, s; by rewrite app_nil_r].
    rewrite tree_files_dir in *. revert s st files Hcr Hnd Hidx Hread. cbn [handle_entry readable_tree].
    induction Hall as [|[name n] entries Hn _ IH]; intros s st files Hcr Hnd Hidx Hread.
    { exists st, s. cbn. by rewrite app_nil_r. }
    cbn [fmap list_fmap concat] in *. destruct Hread as [Hreadn Hread].
    rewrite filter_app, app_assoc. apply Forall_app in Hidx as [Hidx1 Hidx2].
    unfold entry_files at 1 in Hnd. unfold entry_files at 1 in Hidx1. unfold entry_files at 1. cbn [fst snd] in *.
    destruct (skipped name).
    { rewrite filter_nil, app_nil_r. by apply IH. }
    destruct (join_path_ok path name Hpath) as (p & Hj & Hpne). rewrite Hj in *. cbn [default from_option] in *.
    unfold id in *. assert (Hp : plentiful (al s)) by apply Hcr.
    destruct (alloc_after (al s) Hp) as (q & m1 & R1 & A1). step (lift_ok _ s _ _ R1).
    rewrite bool_decide_true by (by eexists). cbn [ensure get_or]. rewrite !bind_ret.
    destruct (Hn p (mkStore m1 (wps s) (wdss s)) st files) as (st2 & s2 & R2 & Hcr2); try done.
    + by apply crawled_after.
    + rewrite app_assoc, fmap_app in Hnd. by apply NoDup_app in Hnd as [Hnd _].
    + cbn [snd] in R2. step R2. destruct (release_after 1 (al s2)) as (m3 & R3 & A3). step (lift_ok _ s2 _ _ R3).
      apply IH; [by apply crawled_after| |done|done]. by apply nodup_app_filter.
  - cbn. exists st, s. by rewrite app_nil_r.
  - cbn. exists st, s. by rewrite app_nil_r.
Qed.

Lemma CrawlFileTree_ok s rootdir entries :
  rootdir <> [] -> fresh_store s -> plentiful (al s) ->
  readable_tree (Directory true entries) ->
  NoDup (tree_files (Directory true entries) rootdir).*1 ->
  Forall indexable (tree_files (Directory true entries) rootdir) ->
  exists dt index s' IX, CrawlFileTree rootdir (Directory true entries) s = Ok ((1, Some (dt, index)), s') /\
    let docs := filter has_words (tree_files (Directory true entries) rootdir) in
    crawled s' (dt, index) docs /\ index_rep s' index IX /\ posts IX docs.
Proof.
  intros Hroot Hfr Hp Hread Hnd Hidx. unfold CrawlFileTree.
  destruct (AllocateDocTable_ok (al s) Hp) as (dt & m1 & R1 & A1 & Hreg). step (lift_ok _ s _ _ R1).
  destruct (t_alloc_ok (V := positive) 128 m1) as (index & m2 & R2 & A2 & Hr2);
    [lia|by eapply after_plentiful|]. unfold AllocateMemIndex.
  step (lift_ok _ (mkStore m1 (wps s) (wdss s)) _ _ R2). cbn [get_or]. rewrite bind_ret.
  assert (A02 : after (al s) m2) by (by transitivity m1).
  destruct (handle_entry_ok (Directory true entries) rootdir (mkStore m2 (wps s) (wdss s)) (dt, index) [])
    as (st' & s' & R3 & Hcr); try done.
  - split; cbn [fst snd al]; [by eapply registry_after| |by apply fresh_later|by eapply after_plentiful| |done].
    + exists ∅. split; [split|]; [exists []; by split_and!|done|].
      intros w d. rewrite lookup_empty. cbn. by destruct (decide _).
    + constructor.
  - unfold HandleDir. cbn [wps wdss]. step R3. destruct st' as [dt' index'].
    destruct (cr_index _ _ _ Hcr) as (IX & Hix & HP). by exists dt', index', s', IX.
Qed.

(** C12: crawling a readable tree from an empty store returns 1 with the
    documents, the visible files that have words, registered in the order they
    are met, and an index that gives for every word and document exactly the
    word's positions in that document's text.  Visible are the files that are reached
    through names without a leading dot.  The words of a text are its runs of letters, in
    lower case, except a run that reaches the very end of the file: although
    [fileparser.h] says that each word found is inserted, the parser stops before it adds
    that one ([without_last_run] of [FileParserSpec]). *)
Theorem CrawlFileTree_indexes s rootdir entries :
  rootdir <> [] -> fresh_store s -> plentiful (al s) ->
  readable_tree (Directory true entries) ->
  NoDup (tree_files (Directory true entries) rootdir).*1 ->
  Forall indexable (tree_files (Directory true entries) rootdir) ->
  exists dt index s' IX, CrawlFileTree rootdir (Directory true entries) s = Ok ((1, Some (dt, index)), s') /\
    let docs := filter has_words (tree_files (Directory true entries) rootdir) in
    registry (al s') dt docs.*1 /\ index_rep s' index IX /\
    forall w d, (dm ← IX !! w; dm !! d) =
      if decide (1 <= d) then x ← docs !! Z.to_nat (d - 1); index_of (words x.2) !! w else None.
Proof.
  intros Hroot Hfr Hp Hread Hnd Hidx.
  destruct (CrawlFileTree_ok s rootdir entries) as (dt & index & s' & IX & HR & Hcr & Hix & HP); try done.
  exists dt, index, s', IX. split; [done|]. split; [apply Hcr|done].
Qed.

End Spec.

(** The tree r/ with the file a ("Hi a b"), a hidden file and a directory d
    with the file e ("a a "). *)
Definition sample_entries : list (list Z * fs_node) :=
  [([97], RegularFile sample_file);
   ([46; 104], RegularFile sample_file);
   ([100], Directory true [([101], RegularFile (mkFile (Some (true, 4)) true [ReadBytes [97; 32; 97; 32]]))])].
Definition sample_vocabulary : list (list Z) := [[104; 105]; [97]].
Definition sample_paths : list (list Z) := [[114; 47; 97]; [114; 47; 100; 47; 101]].

Lemma pair_hash_inj (a b : list Z) : FNVHash64 a <> FNVHash64 b ->
  forall w1 w2, w1 ∈ [a; b] -> w2 ∈ [a; b] -> FNVHash64 w1 = FNVHash64 w2 -> w1 = w2.
Proof.
  intros Hab w1 w2 H1 H2 E. rewrite !elem_of_cons, elem_of_nil in H1, H2.
  destruct H1 as [->|[->|[]]], H2 as [->|[->|[]]]; congruence.
Qed.

Lemma sample_tree_readable : readable_tree (Directory true sample_entries).
Proof.
  cbn. split; [exact sample_readable|]. split; [exact sample_readable|]. split; [|done].
  split; [|done]. split; [done|]. split; [done|]. split; [|done].
  by apply (delivers_bytes [97; 32; 97; 32] _ []); [|constructor].
Qed.

Lemma sample_files : tree_files (Directory true sample_entries) [114] =
  [([114; 47; 97], sample_text); ([114; 47; 100; 47; 101], [97; 32; 97; 32])].
Proof. reflexivity. Qed.

Lemma sample_indexable : Forall (indexable sample_vocabulary sample_paths)
  [([114; 47; 97], sample_text); ([114; 47; 100; 47; 101], [97; 32; 97; 32])].
Proof.
  apply Forall_cons. split; [|apply Forall_singleton]; split_and!; cbn [fst snd].
  - apply (bool_decide_unpack _). vm_compute. exact I.
  - repeat constructor; discriminate.
  - discriminate.
  - intros w Hw. apply (bool_decide_unpack (w ∈ sample_vocabulary)).
    change (w ∈ [[104; 105]; [97]]) in Hw.
    rewrite !elem_of_cons, elem_of_nil in Hw. destruct Hw as [->|[->|[]]]; vm_compute; exact I.
  - apply (bool_decide_unpack _). vm_compute. exact I.
  - repeat constructor; discriminate.
  - discriminate.
  - intros w Hw. apply (bool_decide_unpack (w ∈ sample_vocabulary)).
    change (w ∈ [[97]; [97]]) in Hw.
    rewrite !elem_of_cons, elem_of_nil in Hw. destruct Hw as [->|[->|[]]]; vm_compute; exact I.
Qed.

Lemma sample_vocabulary_hash : forall w1 w2, w1 ∈ sample_vocabulary -> w2 ∈ sample_vocabulary ->
  FNVHash64 w1 = FNVHash64 w2 -> w1 = w2.
Proof. apply pair_hash_inj. vm_compute. discriminate. Qed.
Lemma sample_paths_hash : forall p1 p2, p1 ∈ sample_paths -> p2 ∈ sample_paths ->
  FNVHash64 p1 = FNVHash64 p2 -> p1 = p2.
Proof. apply pair_hash_inj. vm_compute. discriminate. Qed.

Lemma empty_store_ok : fresh_store empty_store /\ plentiful (al empty_store).
Proof.
  split; [|by intros n]. split; intros p [x Hx]; cbn in Hx; rewrite lookup_empty in Hx; discriminate.
Qed.

Lemma sample_nodup : NoDup (tree_files (Directory true sample_entries) [114]).*1.
Proof. rewrite sample_files. apply (bool_decide_unpack _). vm_compute. exact I. Qed.

Lemma sample_all_indexable :
  Forall (indexable sample_vocabulary sample_paths) (tree_files (Directory true sample_entries) [114]).
Proof. rewrite sample_files. exact sample_indexable. Qed.

Lemma CrawlFileTree_indexes_witness : exists dt index s' IX,
  CrawlFileTree [114] (Directory true sample_entries) empty_store = Ok ((1, Some (dt, index)), s') /\
  index_rep s' index IX /\ (dm ← IX !! [97]; dm !! 2) = Some [0; 2].
Proof.
  destruct empty_store_ok as [Hfr Hp].
  assert (Hroot : [114] <> []) by discriminate.
  destruct (CrawlFileTree_indexes sample_vocabulary sample_vocabulary_hash eq_refl sample_paths
    sample_paths_hash eq_refl empty_store [114] sample_entries Hroot Hfr Hp sample_tree_readable
    sample_nodup sample_all_indexable) as (dt & index & s' & IX & HR & _ & Hix & HP).
  exists dt, index, s', IX. split; [exact HR|]. split; [exact Hix|].
  rewrite HP, sample_files. reflexivity.
Defined.
