(* ===== verification/SearchShell.v ===== *)
(** The search shell, [uw_cse333/hw/hw2/searchshell.c]: crawl a tree, then
    answer each line of input.  Each answer is a list of document names and
    ranks; the usage message and the prompts are left out. *)
From S2P Require Import Prelude Alloc HashTable Table DocTable FileParser MemIndex FileCrawler.
Open Scope Z_scope.

(** [strtok_r] with the delimiters blank and newline, called until [NULL]. *)
Definition delimiter (c : Z) : bool := (c =? 32) || (c =? 10).
Fixpoint tokens (line word : list Z) : list (list Z) :=
  match line with
  | [] => match word with [] => [] | _ => [word] end
  | c :: line' =>
      if delimiter c then
        match word with [] => tokens line' [] | _ => word :: tokens line' [] end
      else tokens line' (word ++ [c])
  end.

Section SearchShell.
Context {OL : TableOps (list Z)} {ON : TableOps Z} {OP : TableOps positive}.

Fixpoint show_results (dt : DocTableRecord OL ON) (llres : list SearchResult)
    : M (store OL) (list (option (list Z) * Z)) :=
  match llres with
  | [] => ret []
  | result :: llres' =>
      let* name := lift (DTLookupDocID dt (docid result)) in
      let* out := show_results dt llres' in
      ret ((name, rank result) :: out)
  end.

(** One round of [while (true)]; [words] has room for 32 words. *)
Definition answer_line (dt : DocTableRecord OL ON) (idx : table (V := positive)) (line : list Z)
    : M (store OL) (list (option (list Z) * Z)) :=
  let words := tokens line [] in
  do* ensure BadAccess (Z.of_nat (length words) <=? 32);
  let* llres := MIProcessQuery idx words (u8 (Z.of_nat (length words))) in
  match llres with
  | None => do* lift (release 1); ret []
  | Some llres =>
      (* an empty list has no iterator *)
      do* ensure VerifyFailed (bool_decide (llres <> []));
      let* it := lift alloc in
      do* ensure VerifyFailed (bool_decide (is_Some it));
      let* out := show_results dt llres in
      do* lift (release 1);
      do* free_results llres;
      do* lift (release 1);
      ret out
  end.

Fixpoint answer_lines (dt : DocTableRecord OL ON) (idx : table (V := positive)) (lines : list (list Z))
    : M (store OL) (list (list (option (list Z) * Z))) :=
  match lines with
  | [] => ret []
  | line :: lines' =>
      let* out := answer_line dt idx line in
      let* outs := answer_lines dt idx lines' in
      ret (out :: outs)
  end.

(** [Usage] *)
Definition Usage : M (store OL) unit := fail (Exit (-1)).

(** The exit status and the answers; [root] is what [argv1] names. *)
Definition searchshell_main (argc : Z) (argv1 : list Z) (root : fs_node) (lines : list (list Z))
    : M (store OL) (Z * list (list (option (list Z) * Z))) :=
  do* (if argc =? 2 then ret tt else Usage);
  let* (res, st) := CrawlFileTree argv1 root in
  match st with
  | Some (dt, idx) =>
      let* outs := answer_lines dt idx lines in
      do* lift (FreeDocTable dt);
      do* FreeMemIndex idx;
      ret (0, outs)
  | None => ret (1, [])
  end.

End SearchShell.
