(* ===== verification/SearchShellSpec.v ===== *)
(** What the search shell of [SearchShell] answers: for each line of a session the
    documents that have every word of the line, ranked. *)
From S2P Require Import Prelude Alloc HashTable Table DocTable FileParser FileParserSpec LinkedList LinkedListSpec MemIndex MemIndexSpec FileCrawler FileCrawlerSpec SearchShell.
Open Scope Z_scope.

#[local] Arguments words : simpl never.
#[local] Arguments index_of : simpl never.

(** ** An answer, from the texts *)

(** How often the words of [q] occur in [text], when each does. *)
Fixpoint occurrences (q : list (list Z)) (text : list Z) : option Z :=
  match q with
  | [] => Some 0
  | w :: q' =>
      ps ← index_of (words text) !! w; n ← occurrences q' text;
      Some (Z.of_nat (length ps) + n)
  end.

Section Spec.
Context {OL : TableOps (list Z)} {ON : TableOps Z} {OP : TableOps positive}.
Context {LL : TableLaws (list Z)} {LN : TableLaws Z} {LP : TableLaws positive}.
Implicit Types (s : store OL) (IX : gmap (list Z) postings).

Lemma score_occurrences IX files q (i : nat) path text :
  posts IX files -> files !! i = Some (path, text) ->
  score IX q (Z.of_nat i + 1) = occurrences q text.
Proof.
  intros HP Hi. induction q as [|w q IH]; cbn; [done|]. rewrite IH. unfold count.
  specialize (HP w (Z.of_nat i + 1)). rewrite decide_True in HP by lia.
  replace (Z.to_nat (Z.of_nat i + 1 - 1)) with i in HP by lia. rewrite Hi in HP. cbn in HP.
  rewrite <- HP. destruct (IX !! w) as [dm|]; cbn; [|done]. by destruct (dm !! (Z.of_nat i + 1)).
Qed.

Lemma score_range IX files q d n :
  posts IX files -> q <> [] -> score IX q d = Some n -> 1 <= d <= Z.of_nat (length files).
Proof.
  intros HP Hq Hs. destruct q as [|w q]; [done|]. cbn in Hs. unfold count in Hs.
  apply (posts_range IX files w d HP). destruct (IX !! w) as [dm|]; cbn in *; [|done].
  unfold id. destruct (dm !! d); [by eexists|done].
Qed.

Lemma show_results_ok dt docs : forall rs s,
  registry (al s) dt docs -> plentiful (al s) -> Forall (fun sr => 0 < docid sr) rs ->
  exists m', show_results dt rs s =
      Ok ((fun sr => (docs !! Z.to_nat (docid sr - 1), rank sr)) <$> rs, mkStore m' (wps s) (wdss s)) /\
    after (al s) m'.
Proof.
  induction rs as [|sr rs IH]; intros s Hreg Hp Hrs; cbn [show_results].
  { exists (al s). split; [by destruct s|done]. }
  inversion_clear Hrs as [|? ? Hsr Hrs'].
  destruct (DTLookupDocID_ok (al s) dt docs (docid sr) Hreg Hp Hsr) as (m1 & R1 & A1).
  step (lift_ok _ s _ _ R1).
  destruct (IH (mkStore m1 (wps s) (wdss s))) as (m2 & R2 & A2); [by eapply registry_after|by eapply after_plentiful|done|].
  step R2. exists m2. split; [done|]. by transitivity m1.
Qed.

(** Exactly the documents in which every word of [q] occurs, each once and by name,
    with the number of occurrences of the words in its text, most frequent first. *)
Definition answers (docs : list (list Z * list Z)) (q : list (list Z)) (out : list (option (list Z) * Z)) : Prop :=
  NoDup out.*1 /\ StronglySorted (fun a b => b.2 <= a.2) out /\
  forall name r, (name, r) ∈ out <->
    exists path text n, name = Some path /\ (path, text) ∈ docs /\ occurrences q text = Some n /\ r = u32 n.

Lemma answer_line_ok s dt idx IX docs line :
  let q := tokens line [] in
  registry (al s) dt docs.*1 -> index_rep s idx IX -> posts IX docs -> NoDup docs.*1 ->
  plentiful (al s) -> (forall w, w ∈ q -> tells IX w) ->
  (1 <= length q <= 32)%nat -> ~ stuck IX q ->
  exists out m', answer_line dt idx line s = Ok (out, mkStore m' (wps s) (wdss s)) /\
    after (al s) m' /\ answers docs q out.
Proof.
  intros q Hreg Hix HP Hnd Hp Ht Hlen Hns. unfold answer_line. fold q.
  rewrite (proj2 (Z.leb_le _ 32)) by lia. cbn [ensure]. rewrite bind_ret, wrapu_small by lia.
  destruct (MIProcessQuery_ok s idx IX q Hix Hp Ht) as (r & s1 & R1 & A1 & [Hwps Hwds] & Hr); [lia|done|]. step R1.
  rewrite <- Hwps, <- Hwds.
  assert (Hq : q <> []) by (by destruct q; [cbn in Hlen; lia|]).
  destruct r as [rs|].
  2:{ destruct (release_after 1 (al s1)) as (m2 & R2 & A2). step (lift_ok _ s1 _ _ R2).
      eexists [], _. split; [reflexivity|]. split; [by transitivity (al s1)|].
      split; [constructor|]. split; [constructor|].
      intros name r. split; [by intros ?%elem_of_nil|]. intros (path & text & n & _ & Hin & Hn & _).
      apply list_elem_of_lookup in Hin as [i Hi]. specialize (Hr (Z.of_nat i + 1)).
      by rewrite (score_occurrences IX docs q i path text), Hn in Hr. }
  destruct Hr as (Hne & [Hndr Hin] & Hsorted).
  assert (Hrange : forall sr, sr ∈ rs -> 1 <= docid sr <= Z.of_nat (length docs)).
  { intros sr Hsr. apply Hin in Hsr as (n & Hn & _). by eapply score_range. }
  assert (Hp1 : plentiful (al s1)) by (by eapply after_plentiful).
  rewrite (bool_decide_true (rs <> [])) by done. cbn [ensure]. rewrite bind_ret.
  destruct (alloc_after (al s1) Hp1) as (p & m2 & R2 & A2). step (lift_ok _ s1 _ _ R2).
  rewrite bool_decide_true by (by eexists). cbn [ensure]. rewrite bind_ret.
  assert (A02 : after (al s) m2) by (by transitivity (al s1)).
  destruct (show_results_ok dt docs.*1 rs (mkStore m2 (wps s1) (wdss s1))) as (m3 & R3 & A3).
  { by eapply registry_after. } { by eapply after_plentiful. }
  { apply Forall_forall. intros sr Hsr. specialize (Hrange sr Hsr). lia. }
  step R3. cbn [wps wdss]. unfold free_results.
  destruct (release_after 1 m3) as (m4 & R4 & A4). step (lift_ok _ (mkStore m3 (wps s1) (wdss s1)) _ _ R4).
  destruct (release_after (2 * Z.of_nat (length rs) + 1) m4) as (m5 & R5 & A5).
  step (lift_ok _ (mkStore m4 (wps s1) (wdss s1)) _ _ R5).
  destruct (release_after 1 m5) as (m6 & R6 & A6). step (lift_ok _ (mkStore m5 (wps s1) (wdss s1)) _ _ R6).
  eexists _, _. split; [reflexivity|]. split; [by rewrite A02, A3, A4, A5, A6|].
  assert (Hname : forall sr, sr ∈ rs -> exists path text, docs !! Z.to_nat (docid sr - 1) = Some (path, text) /\
    docs.*1 !! Z.to_nat (docid sr - 1) = Some path).
  { intros sr Hsr. specialize (Hrange sr Hsr).
    destruct (lookup_lt_is_Some_2 docs (Z.to_nat (docid sr - 1))) as [[path text] Hx]; [lia|].
    exists path, text. by rewrite list_lookup_fmap, Hx. }
  split; [|split].
  - rewrite <- list_fmap_compose. apply NoDup_fmap_2_strong.
    + intros a b Ha Hb E. cbn in E. destruct (Hname a Ha) as (pa & ta & _ & Ea).
      destruct (Hname b Hb) as (pb & tb & _ & Eb). rewrite Ea, Eb in E. injection E as ->.
      pose proof (NoDup_lookup _ _ _ _ Hnd Ea Eb) as Eab.
      pose proof (Hrange a Ha). pose proof (Hrange b Hb).
      assert (Hd : docid a = docid b) by lia.
      apply Hin in Ha as (na & Sa & Ra), Hb as (nb & Sb & Rb). destruct a, b; cbn in *. subst.
      congruence.
    + by eapply NoDup_fmap_1.
  - clear -Hsorted. induction Hsorted as [|sr rs Hs IH HF]; cbn; constructor; [exact IH|].
    rewrite Forall_fmap. eapply Forall_impl; [exact HF|]. done.
  - intros name r. rewrite list_elem_of_fmap. split.
    + intros (sr & [= -> ->] & Hsr). destruct (Hname sr Hsr) as (path & text & Hx & Hx').
      pose proof (Hrange sr Hsr). apply Hin in Hsr as (n & Hn & Hr).
      exists path, text, n. split; [done|]. split; [by eapply list_elem_of_lookup_2|]. split; [|done].
      rewrite <- (score_occurrences IX docs q _ path text HP Hx), <- Hn. f_equal. lia.
    + intros (path & text & n & -> & Hx & Hn & ->). apply list_elem_of_lookup in Hx as [i Hi].
      exists (mkSR (Z.of_nat i + 1) (u32 n)). cbn. split.
      * replace (Z.to_nat (Z.of_nat i + 1 - 1)) with i by lia. by rewrite list_lookup_fmap, Hi.
      * apply Hin. exists n. split; [|done]. cbn. by rewrite (score_occurrences IX docs q i path text).
Qed.

(** ** Sessions *)

(** No document has the first [i >= 2] words of [q], each of which some document
    has, as some has the next one: the query makes the program stop. *)
Definition stuck_on (docs : list (list Z * list Z)) (q : list (list Z)) : Prop :=
  exists i : nat, (2 <= i < length q)%nat /\
    (forall w, w ∈ take (S i) q -> exists x, x ∈ docs /\ w ∈ (words x.2).*1) /\
    forall x, x ∈ docs -> occurrences (take i q) x.2 = None.

Lemma stuck_stuck_on IX docs q : posts IX docs -> (forall w dm, IX !! w = Some dm -> dm <> ∅) ->
  stuck IX q -> stuck_on docs q.
Proof.
  intros HP Hne (i & Hi & Hw & Hs). exists i. split; [done|]. split.
  - intros w Hin. by apply (posted_word IX docs w HP Hne), Hw.
  - intros [path text] Hx. apply list_elem_of_lookup in Hx as [j Hj].
    by rewrite <- (score_occurrences IX docs _ j path text HP Hj).
Qed.

Lemma stuck_on_stuck IX docs q : posts IX docs -> stuck_on docs q -> stuck IX q.
Proof.
  intros HP (i & Hi & Hw & Hs). exists i. split; [done|]. split.
  - intros w Hin. destruct (Hw w Hin) as ([path text] & Hx & Hwx). by eapply word_posted.
  - intros d. destruct (score IX (take i q) d) as [n|] eqn:E; [|done].
    assert (Hq : take i q <> []) by (destruct q, i; cbn in *; done || lia).
    pose proof (score_range IX docs _ d n HP Hq E) as Hd.
    destruct (lookup_lt_is_Some_2 docs (Z.to_nat (d - 1))) as [[path text] Hx]; [lia|].
    pose proof (score_occurrences IX docs (take i q) _ path text HP Hx) as Ho.
    pose proof (Hs (path, text) (list_elem_of_lookup_2 _ _ _ Hx)) as Hn. cbn [snd] in Hn. rewrite Hn in Ho.
    replace (Z.of_nat (Z.to_nat (d - 1)) + 1) with d in Ho by lia. congruence.
Qed.

(** A stuck line and one with too many words stop the program. *)
Lemma answer_line_stuck s dt idx IX docs line : index_rep s idx IX -> posts IX docs -> plentiful (al s) ->
  (forall w, w ∈ tokens line [] -> tells IX w) -> (length (tokens line []) <= 32)%nat -> stuck_on docs (tokens line []) ->
  answer_line dt idx line s = Err VerifyFailed.
Proof.
  intros Hix HP Hp Ht Hlen Hs. unfold answer_line.
  rewrite (proj2 (Z.leb_le _ 32)) by lia. cbn [ensure]. rewrite bind_ret, wrapu_small by lia.
  unfold bind. by rewrite (MIProcessQuery_stuck s idx IX) by (done || by eapply stuck_on_stuck).
Qed.

Lemma answer_line_long s dt idx line : (32 < length (tokens line []))%nat -> answer_line dt idx line s = Err BadAccess.
Proof. intros Hlen. unfold answer_line. by rewrite (proj2 (Z.leb_gt _ 32)) by lia. Qed.

Lemma answer_lines_stop dt idx e line rest : forall good s outs s', answer_lines dt idx good s = Ok (outs, s') ->
  answer_line dt idx line s' = Err e -> answer_lines dt idx (good ++ line :: rest) s = Err e.
Proof.
  induction good as [|l good IH]; intros s outs s'; cbn [answer_lines app].
  - intros [= <- <-] E. unfold bind. by rewrite E.
  - destruct (answer_line dt idx l s) as [[o s1]|] eqn:E1; unfold bind at 1; rewrite E1; [|done].
    intros H E. unfold bind at 1. rewrite E1. destruct (answer_lines dt idx good s1) as [[os s2]|] eqn:E2; unfold bind at 1 in H; rewrite E2 in H; [|done].
    injection H as <- <-. unfold bind. by rewrite (IH s1 os s2 E2 E).
Qed.

(** A line of blanks is answered with nothing. *)
Definition answered (docs : list (list Z * list Z)) (line : list Z) (out : list (option (list Z) * Z)) : Prop :=
  match tokens line [] with [] => out = [] | q => answers docs q out end.

Lemma answer_lines_ok dt idx IX docs : posts IX docs -> NoDup docs.*1 -> forall lines s,
  registry (al s) dt docs.*1 -> index_rep s idx IX -> plentiful (al s) ->
  Forall (fun line => (length (tokens line []) <= 32)%nat /\
    (forall w, w ∈ tokens line [] -> tells IX w) /\ ~ stuck IX (tokens line [])) lines ->
  exists outs m', answer_lines dt idx lines s = Ok (outs, mkStore m' (wps s) (wdss s)) /\ after (al s) m' /\
    Forall2 (answered docs) lines outs.
Proof.
  intros HP Hnd lines. induction lines as [|line lines IH]; intros s Hreg Hix Hp Hl; cbn [answer_lines].
  { exists [], (al s). split; [by destruct s|]. split; [done|constructor]. }
  apply Forall_cons in Hl as [(Hlen & Ht & Hns) Hl].
  assert (exists out m1, answer_line dt idx line s = Ok (out, mkStore m1 (wps s) (wdss s)) /\
    after (al s) m1 /\ answered docs line out) as (out & m1 & R1 & A1 & Ho).
  { destruct (tokens line []) as [|w q] eqn:Hq.
    - unfold answer_line. rewrite Hq. change (Z.of_nat (length []) <=? 32) with true.
      cbn [ensure]. rewrite bind_ret. destruct (release_after 1 (al s)) as (m1 & R1 & A1).
      exists [], m1. split; [|split; [done|unfold answered; by rewrite Hq]].
      change (MIProcessQuery idx [] _) with (@ret (store OL) _ (@None (list SearchResult))).
      rewrite bind_ret. by step (lift_ok _ s _ _ R1).
    - rewrite <- Hq in *. destruct (answer_line_ok s dt idx IX docs line) as (out & m1 & R1 & A1 & Ho); try done.
      { rewrite Hq. cbn. rewrite Hq in Hlen. cbn in Hlen. lia. }
      exists out, m1. split; [done|]. split; [done|]. unfold answered. by rewrite Hq in *. }
  step R1. destruct (IH (mkStore m1 (wps s) (wdss s))) as (outs & m2 & R2 & A2 & Hos).
  - by eapply registry_after.
  - by apply index_rep_after.
  - by eapply after_plentiful.
  - done.
  - step R2. exists (out :: outs), m2. split; [done|]. split; [by transitivity m1|by constructor].
Qed.

(** A line the program can answer: at most 32 words, not stuck. *)
Definition answerable (docs : list (list Z * list Z)) (line : list Z) : Prop :=
  (length (tokens line []) <= 32)%nat /\ ~ stuck_on docs (tokens line []).

(** C13: a session of the search shell.  With a finite vocabulary and finite paths the
    hash tells apart, on a directory whose files can be read and whose texts are
    ASCII over the vocabulary, and lines of words of the vocabulary: the program crawls the
    directory, answers every line with exactly the documents that have all its words,
    releases everything and exits with status 0, when no line has more than 32 words and
    none is stuck; the first line that has more overruns the array of the words, and the
    first that is stuck - some indexed word is left when no document has the two or more
    before it - fails a check.  On a root that is no directory it can open it exits with
    status 1, and with other than one argument with status -1.
    The words of a document are those of its text without a run of letters that reaches
    the very end of the file, which the parser loses. *)
Theorem searchshell_session vocabulary paths s rootdir entries lines
    (Hhash : forall w1 w2, w1 ∈ vocabulary -> w2 ∈ vocabulary -> FNVHash64 w1 = FNVHash64 w2 -> w1 = w2)
    (Hsize : Z.of_nat (length vocabulary) < capacity)
    (Hpaths : forall p1 p2, p1 ∈ paths -> p2 ∈ paths -> FNVHash64 p1 = FNVHash64 p2 -> p1 = p2)
    (Hpsize : Z.of_nat (length paths) < capacity)
    (Hroot : rootdir <> []) (Hfresh : fresh_store s) (Hplenty : plentiful (al s))
    (Hread : readable_tree (Directory true entries))
    (Hnd : NoDup (tree_files (Directory true entries) rootdir).*1)
    (Hidx : Forall (indexable vocabulary paths) (tree_files (Directory true entries) rootdir))
    (Hlines : Forall (fun line => forall w, w ∈ tokens line [] -> w ∈ vocabulary) lines) :
  let docs := filter has_words (tree_files (Directory true entries) rootdir) in
  (Forall (answerable docs) lines ->
   exists outs s', searchshell_main 2 rootdir (Directory true entries) lines s = Ok ((0, outs), s') /\
     Forall2 (answered docs) lines outs) /\
  (forall good line rest, lines = good ++ line :: rest -> Forall (answerable docs) good ->
   ((32 < length (tokens line []))%nat -> searchshell_main 2 rootdir (Directory true entries) lines s = Err BadAccess) /\
   ((length (tokens line []) <= 32)%nat -> stuck_on docs (tokens line []) ->
    searchshell_main 2 rootdir (Directory true entries) lines s = Err VerifyFailed)) /\
  (forall root, (forall es, root <> Directory true es) -> searchshell_main 2 rootdir root lines s = Ok ((1, []), s)) /\
  (forall argc root, argc <> 2 -> searchshell_main argc rootdir root lines s = Err (Exit (-1))).
Proof.
  intros docs.
  destruct (CrawlFileTree_ok vocabulary Hhash Hsize paths Hpaths Hpsize s rootdir entries)
    as (dt & idx & s1 & IX & R1 & Hcr & Hix & HP); try done. fold docs in Hcr, HP.
  assert (Hmain : forall ls, searchshell_main 2 rootdir (Directory true entries) ls s =
    (let* outs := answer_lines dt idx ls in do* lift (FreeDocTable dt); do* FreeMemIndex idx; ret (0, outs)) s1).
  { intros ls. unfold searchshell_main. change (2 =? 2) with true. cbn iota. rewrite bind_ret. by step R1. }
  assert (Htell : forall line w, line ∈ lines -> w ∈ tokens line [] -> tells IX w).
  { intros line w Hline Hw w' Hw' E. rewrite Forall_forall in Hlines. apply Hhash; [|by eapply Hlines|exact E].
    eapply posts_vocabulary; [exact HP|apply Hix|exact (cr_files _ _ _ _ _ Hcr)|exact Hw']. }
  assert (Hgood : forall ls, ls ⊆ lines -> Forall (answerable docs) ls ->
    exists outs m2, answer_lines dt idx ls s1 = Ok (outs, mkStore m2 (wps s1) (wdss s1)) /\ after (al s1) m2 /\ Forall2 (answered docs) ls outs).
  { intros ls Hsub Hl. apply (answer_lines_ok dt idx IX docs HP (cr_nodup _ _ _ _ _ Hcr)); [apply (cr_registry _ _ _ _ _ Hcr)|done|apply (cr_mem _ _ _ _ _ Hcr)|].
    apply Forall_forall. intros line Hin. rewrite Forall_forall in Hl. destruct (Hl line Hin) as [H1 H3].
    split; [done|]. split; [intros w Hw; eapply Htell; [by apply Hsub|done]|]. intros Hst. apply H3. eapply stuck_stuck_on; [exact HP|apply Hix|exact Hst]. }
  split; [|split; [|split]].
  - intros Hl. rewrite Hmain. destruct (Hgood lines ltac:(done) Hl) as (outs & m2 & R2 & A2 & Ho).
    step R2. destruct (FreeDocTable_ok (al s1) m2 dt docs.*1 (cr_registry _ _ _ _ _ Hcr)) as (m3 & R3 & _).
    step (lift_ok _ (mkStore m2 (wps s1) (wdss s1)) _ _ R3).
    destruct (FreeMemIndex_ok s1 m3 idx IX Hix) as (m4 & R4 & _). step R4.
    by eexists outs, _.
  - intros good line rest -> Hl. rewrite Hmain. destruct (Hgood good ltac:(set_solver) Hl) as (outs & m2 & R2 & A2 & _).
    split; [intros Hlen|intros Hlen Hst]; unfold bind at 1.
    + by rewrite (answer_lines_stop dt idx BadAccess line rest good s1 outs _ R2) by (by apply answer_line_long).
    + rewrite (answer_lines_stop dt idx VerifyFailed line rest good s1 outs _ R2); [done|].
      apply (answer_line_stuck _ dt idx IX docs); [by apply index_rep_after|done| | |done|done].
      * cbn. eapply after_plentiful; [exact A2|apply (cr_mem _ _ _ _ _ Hcr)].
      * intros w. apply Htell. set_solver.
  - intros root Hno. unfold searchshell_main. change (2 =? 2) with true. cbn iota. rewrite bind_ret.
    destruct root as [|[] es| |]; try done. by destruct (Hno es).
  - intros argc root Hargc. unfold searchshell_main. by rewrite (proj2 (Z.eqb_neq _ _) Hargc).
Qed.

End Spec.

(** A 33rd word on a line is written past the end of [words]. *)
Example long_line_overflows : exists line,
  length (tokens line []) = 33%nat /\ forall (dt : DocTableRecord hash_ops hash_ops) idx,
    answer_line dt idx line empty_store = Err BadAccess.
Proof. exists (concat (repeat [97; 32] 33)). split; [reflexivity|]. intros dt idx. reflexivity. Qed.

(** Lines of at most two words are never stuck. *)
Lemma short_line docs line : (length (tokens line []) <= 2)%nat -> answerable docs line.
Proof. intros Hq. split; [lia|]. intros (i & Hi & _). lia. Qed.

(** The sample tree, asked for "a" and then for "hi a". *)
Lemma searchshell_session_witness : exists outs s',
  searchshell_main (ON := hash_ops) 2 [114] (Directory true sample_entries) [[97; 10]; []; [104; 105; 32; 97; 10]] empty_store
    = Ok ((0, outs), s') /\
  exists o1 o2 o3, outs = [o1; o2; o3] /\ (Some [114; 47; 100; 47; 101], 2) ∈ o1 /\ o2 = [].
Proof.
  destruct empty_store_ok as [Hfr Hp].
  assert (Hroot : [114] <> []) by discriminate.
  destruct (searchshell_session sample_vocabulary sample_paths empty_store [114] sample_entries
    [[97; 10]; []; [104; 105; 32; 97; 10]] sample_vocabulary_hash eq_refl sample_paths_hash eq_refl
    Hroot Hfr Hp sample_tree_readable sample_nodup sample_all_indexable) as [H _].
  { repeat (apply Forall_cons; split; [intros w Hw; apply (bool_decide_unpack (w ∈ sample_vocabulary)); cbn in Hw; repeat (apply elem_of_cons in Hw as [->|Hw]; [vm_compute; exact I|]); by apply elem_of_nil in Hw|]). by apply Forall_nil. }
  destruct H as (outs & s' & HR & Ho).
  - repeat (apply Forall_cons; split; [apply short_line; cbn; lia|]). by apply Forall_nil.
  - exists outs, s'. split; [exact HR|]. rewrite sample_files in Ho.
    inversion Ho as [|l1 o1 ls1 os1 H1 Ho1]; subst. inversion Ho1 as [|l2 o2 ls2 os2 H2 Ho2]; subst.
    inversion Ho2 as [|l3 o3 ls3 os3 H3 Ho3]; subst. inversion Ho3; subst.
    exists o1, o2, o3. split; [reflexivity|]. split; [|exact H2].
    destruct H1 as (_ & _ & H1). apply H1.
    exists [114; 47; 100; 47; 101], [97; 32; 97; 32], 2. split; [reflexivity|].
    split; [right; left|]. split; reflexivity.
Defined.
