(* ===== verification/Disk.v ===== *)
(** Files on disk and the layout of an index file, [uw_cse333/hw/hw3/filelayout.h] and
    [fileindexutil.h], with the checksum of [fileindexutil.cc].  A [FILE] is the bytes
    of the file and a position.  Which calls to the system fail, of the stream, of the
    descriptor and of the allocator, is an oracle; a call that fails does nothing.  Integers in memory are little-endian. *)
From Stdlib Require Import ZArith Lia.
From S2P Require Import Prelude.
Open Scope Z_scope.

(** ** Bytes and byte order *)

Fixpoint bytes_le (w : nat) (x : Z) : list Z :=
  match w with O => [] | S w' => x mod 256 :: bytes_le w' (x / 256) end.
Fixpoint value_le (bs : list Z) : Z :=
  match bs with [] => 0 | b :: bs' => b + 256 * value_le bs' end.

(** [htons] and [htonl], their own inverses, and the macro of [fileindexutil.h]. *)
Definition htons (x : Z) : Z := value_le (rev (bytes_le 2 x)).
Definition htonl (x : Z) : Z := value_le (rev (bytes_le 4 x)).
Definition ntohll (x : Z) : Z :=
  Z.lor (u64 (Z.shiftl (htonl (u32 (Z.shiftr (u64 (Z.shiftl x 32)) 32))) 32)) (htonl (u32 (Z.shiftr x 32))).
Definition htonll (x : Z) : Z := ntohll x.
Definition hton (w : nat) : Z -> Z := match w with 2%nat => htons | 4%nat => htonl | 8%nat => htonll | _ => id end.

(** ** Packed structures *)

(** A structure without padding: the widths of its fields and their values. *)
Class Packed (T : Type) := {
  widths : list nat;
  to_fields : T -> list Z;
  of_fields : list Z -> T
}.
Arguments widths T {Packed}.

Definition sizeof (T : Type) `{Packed T} : Z := Z.of_nat (sum_list (widths T)).

Section packed.
Context {T : Type} `{Packed T}.

(** Both methods convert every field. *)
Definition toDiskFormat (t : T) : T := of_fields (zip_with hton (widths T) (to_fields t)).
Definition toHostFormat (t : T) : T := of_fields (zip_with hton (widths T) (to_fields t)).

(** The bytes of a structure in memory, and the structure bytes make. *)
Definition image (t : T) : list Z := concat (zip_with bytes_le (widths T) (to_fields t)).
Fixpoint split_fields (ws : list nat) (bs : list Z) : list Z :=
  match ws with [] => [] | w :: ws' => value_le (take w bs) :: split_fields ws' (drop w bs) end.
Definition of_image (bs : list Z) : T := of_fields (split_fields (widths T) bs).
End packed.

Record IndexFileHeader : Type := mk_header { magic_number : Z; checksum : Z; doctable_size : Z; index_size : Z }.
#[export] Instance header_packed : Packed IndexFileHeader := {
  widths := [4; 4; 4; 4]%nat;
  to_fields h := [magic_number h; checksum h; doctable_size h; index_size h];
  of_fields fs := match fs with [a; b; c; d] => mk_header a b c d | _ => mk_header 0 0 0 0 end
}.

Record BucketListHeader : Type := mk_list_header { list_buckets : Z }.
#[export] Instance list_header_packed : Packed BucketListHeader := {
  widths := [4]%nat;
  to_fields h := [list_buckets h];
  of_fields fs := match fs with [a] => mk_list_header a | _ => mk_list_header 0 end
}.

Record bucket_rec : Type := mk_bucket_rec { chain_len : Z; bucket_position : Z }.
#[export] Instance bucket_rec_packed : Packed bucket_rec := {
  widths := [4; 4]%nat;
  to_fields r := [chain_len r; bucket_position r];
  of_fields fs := match fs with [a; b] => mk_bucket_rec a b | _ => mk_bucket_rec 0 0 end
}.

Record element_position_rec : Type := mk_element_pos { element_position : Z }.
#[export] Instance element_pos_packed : Packed element_position_rec := {
  widths := [4]%nat;
  to_fields r := [element_position r];
  of_fields fs := match fs with [a] => mk_element_pos a | _ => mk_element_pos 0 end
}.

Record doctable_element_header : Type := mk_doc_header { doc_docid : Z; filename_len : Z }.
#[export] Instance doc_header_packed : Packed doctable_element_header := {
  widths := [8; 2]%nat;
  to_fields r := [doc_docid r; filename_len r];
  of_fields fs := match fs with [a; b] => mk_doc_header a b | _ => mk_doc_header 0 0 end
}.

Record worddocset_header : Type := mk_word_header { word_len : Z; doctable_len : Z }.
#[export] Instance word_header_packed : Packed worddocset_header := {
  widths := [2; 4]%nat;
  to_fields r := [word_len r; doctable_len r];
  of_fields fs := match fs with [a; b] => mk_word_header a b | _ => mk_word_header 0 0 end
}.

Record docid_element_header : Type := mk_docid_header { el_docid : Z; num_positions : Z }.
#[export] Instance docid_header_packed : Packed docid_element_header := {
  widths := [8; 4]%nat;
  to_fields r := [el_docid r; num_positions r];
  of_fields fs := match fs with [a; b] => mk_docid_header a b | _ => mk_docid_header 0 0 end
}.

Record docid_element_position : Type := mk_position { position : Z }.
#[export] Instance position_packed : Packed docid_element_position := {
  widths := [4]%nat;
  to_fields r := [position r];
  of_fields fs := match fs with [a] => mk_position a | _ => mk_position 0 end
}.

Definition MAGIC_NUMBER : Z := 0xCAFEF00D.

(** ** Files *)

Record FILE : Type := mk_file { bytes : list Z; pos : Z; calls : nat }.

(** Bytes written at [p]; a gap before them reads as zeros. *)
Definition write_at (p : nat) (data l : list Z) : list Z :=
  let l := l ++ replicate (p - length l) 0 in
  take p l ++ data ++ drop (p + length data) l.

Section file.
(** Does the [n]-th call to the system fail? *)
Context (fails : nat -> bool).

Definition fseek (offset : Z) : M FILE Z := fun f =>
  if fails (calls f) then Ok (-1, mk_file (bytes f) (pos f) (S (calls f)))
  else Ok (0, mk_file (bytes f) offset (S (calls f))).

(** The number of items written; [data] is [size * nmemb] bytes. *)
Definition fwrite (data : list Z) (size nmemb : Z) : M FILE Z := fun f =>
  if (size * nmemb =? 0) || fails (calls f) then Ok (0, mk_file (bytes f) (pos f) (S (calls f)))
  else Ok (nmemb, mk_file (write_at (Z.to_nat (pos f)) data (bytes f)) (pos f + Z.of_nat (length data)) (S (calls f))).

(** The number of whole items read, fewer at the end of the file, and their bytes. *)
Definition fread (size nmemb : Z) : M FILE (Z * list Z) := fun f =>
  if fails (calls f) then Ok ((0, []), mk_file (bytes f) (pos f) (S (calls f)))
  else
    let left_ := Z.of_nat (length (bytes f)) - pos f in
    let n := Z.max 0 (Z.min nmemb (left_ / size)) in
    let data := take (Z.to_nat (n * size)) (drop (Z.to_nat (pos f)) (bytes f)) in
    Ok ((n, data), mk_file (bytes f) (pos f + n * size) (S (calls f))).

(** A call whose failure the program does not survive: an allocation that is verified,
    [dup] and [fdopen]. *)
Definition must_succeed : M FILE unit := fun f =>
  if fails (calls f) then Err VerifyFailed else Ok (tt, mk_file (bytes f) (pos f) (S (calls f))).
Definition FileDup : M FILE unit := do* must_succeed; must_succeed.

(** [fwrite] and [fread] of one structure, in disk format. *)
Definition write_struct {T} `{Packed T} (t : T) : M FILE Z := fwrite (image (toDiskFormat t)) (sizeof T) 1.
Definition read_struct {T} `{Packed T} : M FILE (Z * T) :=
  let* (n, data) := fread (sizeof T) 1 in
  ret (n, toHostFormat (of_image data)).
End file.

(** ** The checksum *)

(** [for (position = 1; position < (c + 1); position++)], [n] rounds left *)
Fixpoint reflect_loop (n : nat) (c position reflectme val : Z) : Z :=
  match n with
  | O => val
  | S n' =>
      let val := if Z.land reflectme 1 =? 0 then val else Z.lor val (u32 (Z.shiftl 1 (c - position))) in
      reflect_loop n' c (position + 1) (Z.shiftr reflectme 1) val
  end.
Definition CRC32Reflect (reflectme c : Z) : Z := reflect_loop (Z.to_nat c) c 1 reflectme 0.

Definition polynomial : Z := 0x04C11DB7.
Fixpoint table_loop (n : nat) (entry : Z) : Z :=
  match n with
  | O => entry
  | S n' =>
      table_loop n' (Z.lxor (u32 (Z.shiftl entry 1)) (if Z.land entry (u32 (Z.shiftl 1 31)) =? 0 then 0 else polynomial))
  end.
Definition table_entry (codes : Z) : Z :=
  CRC32Reflect (table_loop 8 (u32 (Z.shiftl (CRC32Reflect codes 8) 24))) 32.

(** [table_], after [Initialize]. *)
Definition crc_table : list Z := table_entry <$> seqZ 0 256.

Record CRC32 : Type := mk_crc { crc_state : Z; finalized : bool }.
Definition new_CRC32 : CRC32 := mk_crc 0xFFFFFFFF false.
Definition FoldByteIntoCRC (c : CRC32) (nextbyte : Z) : res CRC32 :=
  if finalized c then Err VerifyFailed
  else
    let? entry := cell crc_table (Z.lxor (Z.land (crc_state c) 0xFF) nextbyte) in
    Ok (mk_crc (Z.lxor (Z.shiftr (crc_state c) 8) entry) false).
Definition GetFinalCRC (c : CRC32) : Z * CRC32 :=
  if finalized c then (crc_state c, c)
  else let v := Z.lxor (crc_state c) 0xFFFFFFFF in (v, mk_crc v true).
