(* ===== verification/DiskSpec.v ===== *)
(** What [Disk] promises: structures written in disk format are big-endian and read back
    as they were, writing changes only the bytes written, and the checksum is the
    reflected CRC-32 and notices every change of one byte. *)
From Stdlib Require Import ZArith Lia List.
From S2P Require Import Prelude Disk.
Open Scope Z_scope.

(** ** Byte order *)

Definition bytes_be (w : nat) (x : Z) : list Z := rev (bytes_le w x).

Lemma bytes_le_length w x : length (bytes_le w x) = w.
Proof. revert x. induction w as [|w IH]; intros x; cbn; [done|]. by rewrite IH. Qed.

Lemma bytes_be_length w x : length (bytes_be w x) = w.
Proof. unfold bytes_be. by rewrite length_rev, bytes_le_length. Qed.

Definition byte (b : Z) : Prop := 0 <= b < 256.

Lemma bytes_le_byte w x : Forall byte (bytes_le w x).
Proof. revert x. induction w as [|w IH]; intros x; cbn; constructor; [apply Z.mod_pos_bound; lia|apply IH]. Qed.

Lemma bytes_be_byte w x : Forall byte (bytes_be w x).
Proof. apply List.Forall_rev, bytes_le_byte. Qed.

Lemma value_le_range bs : Forall byte bs -> 0 <= value_le bs < 256 ^ Z.of_nat (length bs).
Proof.
  induction 1 as [|b bs Hb _ IH]; cbn [value_le length]; [done|]. rewrite Nat2Z.inj_succ, Z.pow_succ_r by lia. unfold byte in Hb. nia.
Qed.

Lemma value_bytes w x : 0 <= x < 256 ^ Z.of_nat w -> value_le (bytes_le w x) = x.
Proof.
  revert x. induction w as [|w IH]; intros x Hx; [cbn in *; lia|]. rewrite Nat2Z.inj_succ, Z.pow_succ_r in Hx by lia.
  cbn [bytes_le value_le]. rewrite IH by (split; [apply Z.div_pos; lia|apply Z.div_lt_upper_bound; lia]).
  pose proof (Z.div_mod x 256). lia.
Qed.

Lemma bytes_value bs : Forall byte bs -> bytes_le (length bs) (value_le bs) = bs.
Proof.
  induction 1 as [|b bs Hb _ IH]; [done|]. cbn [length value_le bytes_le]. unfold byte in Hb. f_equal.
  - rewrite (Z.mul_comm 256), Z.mod_add by lia. by apply Z.mod_small.
  - rewrite (Z.mul_comm 256), Z.div_add by lia. by rewrite Z.div_small by lia.
Qed.

(** Converting and storing puts the most significant byte first. *)
Lemma hton_bytes w x : w = 2%nat \/ w = 4%nat -> bytes_le w (hton w x) = bytes_be w x.
Proof.
  intros Hw. assert (E : hton w x = value_le (bytes_be w x)) by (by destruct Hw as [-> | ->]). rewrite E.
  rewrite <- (bytes_be_length w x) at 1. apply bytes_value, bytes_be_byte.
Qed.

Lemma value_le_app xs ys : Forall byte xs -> value_le (xs ++ ys) = value_le xs + 256 ^ Z.of_nat (length xs) * value_le ys.
Proof.
  induction 1 as [|x xs _ _ IH]; cbn [app value_le length]; [cbn; lia|]. rewrite IH, Nat2Z.inj_succ, Z.pow_succ_r by lia. lia.
Qed.

Lemma bytes_le_app w1 w2 x : bytes_le (w1 + w2) x = bytes_le w1 x ++ bytes_le w2 (x / 256 ^ Z.of_nat w1).
Proof.
  revert x. induction w1 as [|w1 IH]; intros x; [cbn; by rewrite Z.div_1_r|]. cbn [Nat.add bytes_le app].
  rewrite IH, Nat2Z.inj_succ, Z.pow_succ_r by lia. by rewrite Z.div_div by lia.
Qed.

Lemma bytes_le_mod w x k : Z.of_nat w <= k -> bytes_le w (x mod 256 ^ k) = bytes_le w x.
Proof.
  revert x k. induction w as [|w IH]; intros x k Hk; [done|]. cbn [bytes_le].
  replace k with (1 + (k - 1)) by lia. rewrite Z.pow_add_r, Z.pow_1_r by lia.
  pose proof (Z.pow_pos_nonneg 256 (k - 1)). rewrite Z.rem_mul_r by lia. f_equal.
  - rewrite (Z.mul_comm 256), Z.mod_add by lia. apply Z.mod_mod. lia.
  - rewrite (Z.mul_comm 256), Z.div_add by lia. rewrite Z.div_small by (apply Z.mod_pos_bound; lia).
    rewrite Z.add_0_l. apply IH. lia.
Qed.

(** The macro swaps the two halves and the bytes of each. *)
Lemma htonll_bytes x : 0 <= x < 2 ^ 64 -> bytes_le 8 (htonll x) = bytes_be 8 x.
Proof.
  intros Hx. unfold htonll, ntohll. set (lo := x mod 2 ^ 32). set (hi := x / 2 ^ 32).
  assert (Elo : u32 (Z.shiftr (u64 (Z.shiftl x 32)) 32) = lo).
  { unfold wrapu. rewrite Z.shiftl_mul_pow2, Z.shiftr_div_pow2 by lia. change (2 ^ 64) with (2 ^ 32 * 2 ^ 32).
    rewrite Z.mul_mod_distr_r, Z.div_mul by lia. by rewrite Z.mod_mod by lia. }
  assert (Ehi : u32 (Z.shiftr x 32) = hi).
  { rewrite Z.shiftr_div_pow2 by lia. apply wrapu_small. subst hi. split; [apply Z.div_pos; lia|apply Z.div_lt_upper_bound; bound_lia]. }
  rewrite Elo, Ehi. unfold htonl. fold (bytes_be 4 lo) (bytes_be 4 hi).
  pose proof (value_le_range _ (bytes_be_byte 4 lo)) as R1. pose proof (value_le_range _ (bytes_be_byte 4 hi)) as R2.
  rewrite bytes_be_length in R1, R2. change (256 ^ Z.of_nat 4) with (2 ^ 32) in R1, R2.
  rewrite Z.shiftl_mul_pow2 by lia. rewrite (wrapu_small 64) by bound_lia.
  assert (E : Z.lor (value_le (bytes_be 4 lo) * 2 ^ 32) (value_le (bytes_be 4 hi)) = value_le (bytes_be 4 hi ++ bytes_be 4 lo)).
  { rewrite value_le_app, bytes_be_length by apply bytes_be_byte. change (256 ^ Z.of_nat 4) with (2 ^ 32).
    pose proof (Z.add_lor_land (value_le (bytes_be 4 lo) * 2 ^ 32) (value_le (bytes_be 4 hi))) as Ha.
    assert (El : Z.land (value_le (bytes_be 4 lo) * 2 ^ 32) (value_le (bytes_be 4 hi)) = 0); [|rewrite El in Ha; lia].
    apply Z.bits_inj'. intros n Hn. rewrite Z.land_spec, Z.bits_0. destruct (Z.lt_ge_cases n 32).
    - by rewrite Z.mul_pow2_bits_low by lia.
    - rewrite <- (Z.mod_small _ _ R2), Z.mod_pow2_bits_high by lia. by rewrite andb_false_r. }
  rewrite E. assert (El : length (bytes_be 4 hi ++ bytes_be 4 lo) = 8%nat) by (by rewrite length_app, !bytes_be_length).
  rewrite <- El at 1. rewrite bytes_value by (apply Forall_app; split; apply bytes_be_byte).
  unfold bytes_be. rewrite <- rev_app_distr. f_equal. change 8%nat with (4 + 4)%nat. rewrite bytes_le_app.
  subst lo hi. change (2 ^ 32) with (256 ^ 4). by rewrite bytes_le_mod by lia.
Qed.

Definition width_ok (w : nat) : Prop := w = 2%nat \/ w = 4%nat \/ w = 8%nat.
Definition fits (w : nat) (x : Z) : Prop := 0 <= x < 256 ^ Z.of_nat w.

Lemma hton_stored w x : width_ok w -> fits w x -> bytes_le w (hton w x) = bytes_be w x.
Proof.
  intros [-> |[-> | ->]] Hx; [apply hton_bytes; auto|apply hton_bytes; auto|]. by apply htonll_bytes.
Qed.

Lemma hton_fits w x : width_ok w -> fits w (hton w x).
Proof.
  assert (Hv : forall n y, fits n (value_le (bytes_be n y))).
  { intros n y. pose proof (value_le_range _ (bytes_be_byte n y)) as H. by rewrite bytes_be_length in H. }
  intros [-> |[-> | ->]]; [apply (Hv 2%nat)|apply (Hv 4%nat)|]. unfold fits. cbn [hton].
  change (256 ^ Z.of_nat 8) with (2 ^ 64). unfold htonll, ntohll.
  set (a := u64 _). set (b := htonl _). assert (Ha : is_u 64 a) by (apply wrapu_range; lia).
  assert (Hb : is_u 64 b) by (pose proof (Hv 4%nat (u32 (Z.shiftr x 32))); unfold fits in *; subst b; unfold htonl;
    fold (bytes_be 4 (u32 (Z.shiftr x 32))); change (256 ^ Z.of_nat 4) with (2 ^ 32) in *; bound_lia).
  split; [apply Z.lor_nonneg; lia|]. destruct (decide (Z.lor a b = 0)) as [->|]; [done|].
  pose proof (proj2 (Z.lor_nonneg a b)). apply Z.log2_lt_pow2; [lia|]. rewrite Z.log2_lor by lia.
  apply Z.max_lub_lt.
  - destruct (decide (a = 0)) as [->|]; [done|]. apply Z.log2_lt_pow2; lia.
  - destruct (decide (b = 0)) as [->|]; [done|]. apply Z.log2_lt_pow2; lia.
Qed.

Lemma hton_hton w x : width_ok w -> fits w x -> hton w (hton w x) = x.
Proof.
  intros Hw Hx. pose proof (hton_fits w x Hw) as H1. pose proof (hton_fits w (hton w x) Hw) as H2.
  transitivity (value_le (bytes_le w (hton w (hton w x)))); [symmetry; by apply value_bytes|].
  transitivity (value_le (bytes_le w x)); [f_equal|by apply value_bytes].
  rewrite hton_stored by done. unfold bytes_be. rewrite hton_stored by done. apply rev_involutive.
Qed.

(** ** Structures *)

Class PackedLaws (T : Type) {P : Packed T} := {
  packed_widths : Forall width_ok (widths T);
  packed_length : forall t : T, length (to_fields t) = length (widths T);
  packed_of_to : forall t : T, of_fields (to_fields t) = t;
  packed_to_of : forall fs, length fs = length (widths T) -> to_fields (of_fields fs : T) = fs
}.

Ltac packed_solve := constructor;
  [repeat (apply Forall_cons; split; [unfold width_ok; auto|]); by apply Forall_nil|intros []; reflexivity|intros []; reflexivity
  |intros fs H; cbn in H; repeat (destruct fs as [|? fs]; try discriminate); reflexivity].
#[export] Instance header_laws : PackedLaws IndexFileHeader. Proof. packed_solve. Qed.
#[export] Instance list_header_laws : PackedLaws BucketListHeader. Proof. packed_solve. Qed.
#[export] Instance bucket_rec_laws : PackedLaws bucket_rec. Proof. packed_solve. Qed.
#[export] Instance element_pos_laws : PackedLaws element_position_rec. Proof. packed_solve. Qed.
#[export] Instance doc_header_laws : PackedLaws doctable_element_header. Proof. packed_solve. Qed.
#[export] Instance word_header_laws : PackedLaws worddocset_header. Proof. packed_solve. Qed.
#[export] Instance docid_header_laws : PackedLaws docid_element_header. Proof. packed_solve. Qed.
#[export] Instance position_laws : PackedLaws docid_element_position. Proof. packed_solve. Qed.

Section structs.
Context {T : Type} `{PackedLaws T}.

(** Every field is in the range of its type. *)
Definition sound (t : T) : Prop := Forall2 fits (widths T) (to_fields t).
(** The fields in order, each with its most significant byte first. *)
Definition disk_image (t : T) : list Z := concat (zip_with bytes_be (widths T) (to_fields t)).

Lemma concat_width (f : nat -> Z -> list Z) ws xs : (forall w x, length (f w x) = w) -> length xs = length ws ->
  length (concat (zip_with f ws xs)) = sum_list ws.
Proof.
  intros Hf. revert xs. induction ws as [|w ws IH]; intros [|x xs] Hl; try done. cbn in *.
  rewrite length_app, Hf, IH by lia. done.
Qed.

Lemma disk_image_length t : Z.of_nat (length (disk_image t)) = sizeof T.
Proof. unfold disk_image, sizeof. by rewrite concat_width by (apply bytes_be_length || apply packed_length). Qed.

Lemma disk_image_bytes t : Forall byte (disk_image t).
Proof.
  unfold disk_image. generalize (to_fields t). induction (widths T) as [|w ws IH]; intros [|x xs]; try constructor.
  cbn. apply Forall_app. split; [apply bytes_be_byte|apply IH].
Qed.

Lemma image_disk t : sound t -> image (toDiskFormat t) = disk_image t.
Proof.
  intros Hs. unfold image, disk_image, toDiskFormat. pose proof packed_widths as Hw.
  rewrite packed_to_of by (rewrite length_zip_with, packed_length; lia). f_equal. unfold sound in Hs.
  revert Hs Hw. generalize (to_fields t). generalize (widths T). intros ws xs. induction 1 as [|w x ws xs Hx _ IH]; [done|].
  intros Hw%Forall_cons. cbn. by rewrite hton_stored, IH by apply Hw || done.
Qed.

Lemma split_image (f : nat -> Z -> list Z) ws (xs : list Z) : (forall w x, length (f w x) = w) -> length xs = length ws ->
  split_fields ws (concat (zip_with f ws xs)) = zip_with (fun w x => value_le (f w x)) ws xs.
Proof.
  intros Hf. revert xs. induction ws as [|w ws IH]; intros [|x xs] Hl; try done. cbn in *.
  rewrite take_app_length', drop_app_length', IH by (rewrite ?Hf; lia). done.
Qed.

(** A structure stored in disk format reads back as it was. *)
Lemma of_disk_image t : sound t -> toHostFormat (of_image (disk_image t)) = t.
Proof.
  intros Hs. rewrite <- (image_disk t Hs). unfold of_image, image. pose proof packed_widths as Hw.
  rewrite split_image by (apply bytes_le_length || apply packed_length). unfold toHostFormat, toDiskFormat.
  rewrite packed_to_of by (rewrite !length_zip_with, packed_to_of; rewrite ?length_zip_with, ?packed_length; lia).
  rewrite packed_to_of by (rewrite length_zip_with, packed_length; lia).
  transitivity (of_fields (to_fields t) : T); [|apply packed_of_to]. f_equal. unfold sound in Hs.
  revert Hs Hw. generalize (to_fields t). generalize (widths T). intros ws xs. induction 1 as [|w x ws xs Hx _ IH]; [done|].
  intros [Hw Hws]%Forall_cons. cbn. rewrite value_bytes by (by apply hton_fits). by rewrite hton_hton, IH.
Qed.
End structs.

(** ** The bytes of a file *)

Definition byte_at (F : list Z) (i : Z) : option Z := if 0 <=? i then F !! Z.to_nat i else None.
Definition flen (F : list Z) : Z := Z.of_nat (length F).

(** [data] stands at [off]. *)
Definition holds (F : list Z) (off : Z) (data : list Z) : Prop :=
  forall i b, data !! i = Some b -> byte_at F (off + Z.of_nat i) = Some b.
(** [n] bytes from [off] *)
Definition span (off n i : Z) : Prop := off <= i < off + n.
(** Whatever stands outside the region [R] still does, and a file of octets is still one. *)
Record keeps (R : Z -> Prop) (F F' : list Z) : Prop := {
  keeps_at : forall i b, ~ R i -> byte_at F i = Some b -> byte_at F' i = Some b;
  keeps_octets : Forall byte F -> Forall byte F'
}.
Definition apart (R R' : Z -> Prop) : Prop := forall i, R i -> ~ R' i.

#[export] Instance keeps_preorder R : PreOrder (keeps R).
Proof. split; [by split|]. intros F1 F2 F3 [H1 O1] [H2 O2]. split; auto. Qed.

Lemma keeps_within (R R' : Z -> Prop) F F' : (forall i, R i -> R' i) -> keeps R F F' -> keeps R' F F'.
Proof. intros HR [Hk Ho]. split; [|done]. intros i b Hi. apply Hk. auto. Qed.

Lemma holds_keeps R F F' o data : keeps R F F' -> apart (span o (Z.of_nat (length data))) R ->
  holds F o data -> holds F' o data.
Proof. intros [Hk _] Hd Hh i b Hi. apply Hk; [|by apply Hh]. apply Hd. apply lookup_lt_Some in Hi. unfold span. lia. Qed.

Lemma holds_app F off xs ys : holds F off (xs ++ ys) <-> holds F off xs /\ holds F (off + Z.of_nat (length xs)) ys.
Proof.
  unfold holds. split.
  - intros H. split; intros i b Hi.
    + apply H. by apply lookup_app_l_Some.
    + replace (_ + _ + Z.of_nat i) with (off + Z.of_nat (length xs + i)) by lia. apply H. rewrite lookup_app_r by lia. by rewrite Nat.add_sub'.
  - intros [H1 H2] i b [Hi|[Hl Hi]]%lookup_app_Some; [by apply H1|]. apply H2 in Hi. rewrite <- Hi. f_equal. lia.
Qed.

Lemma holds_nil F off : holds F off [].
Proof. by intros i b. Qed.

Lemma byte_at_size F i b : byte_at F i = Some b -> 0 <= i < flen F.
Proof. unfold byte_at, flen. destruct (Z.leb_spec 0 i); [|done]. intros Hb%lookup_lt_Some. lia. Qed.

Lemma holds_size F off data : data <> [] -> holds F off data -> 0 <= off /\ off + Z.of_nat (length data) <= flen F.
Proof.
  intros Hd Hh. destruct data as [|b0 data]; [done|]. pose proof (byte_at_size _ _ _ (Hh 0%nat b0 eq_refl)).
  destruct (lookup_lt_is_Some_2 (b0 :: data) (length data)) as [b Hb]; [cbn; lia|].
  pose proof (byte_at_size _ _ _ (Hh _ b Hb)). cbn [length]. lia.
Qed.

Lemma holds_take F off data : 0 <= off -> holds F off data <-> take (length data) (drop (Z.to_nat off) F) = data.
Proof.
  intros Ho. unfold holds, byte_at. split.
  - intros H. apply list_eq. intros i. destruct (data !! i) as [b|] eqn:E.
    + pose proof (lookup_lt_Some _ _ _ E). rewrite lookup_take_lt, lookup_drop by lia.
      specialize (H i b E). rewrite (proj2 (Z.leb_le _ _)) in H by lia. by replace (Z.to_nat (off + Z.of_nat i)) with (Z.to_nat off + i)%nat in H by lia.
    + apply lookup_ge_None in E. rewrite lookup_take_ge by lia. done.
  - intros <- i b Hi. pose proof (lookup_lt_Some _ _ _ Hi) as Hl. rewrite length_take in Hl.
    rewrite lookup_take_lt, lookup_drop in Hi by lia. rewrite (proj2 (Z.leb_le _ _)) by lia.
    by replace (Z.to_nat (off + Z.of_nat i)) with (Z.to_nat off + i)%nat by lia.
Qed.

(** Writing [data] at [off]: it stands there, all else is kept and the file is just long enough. *)
Record wrote (F : list Z) (off : Z) (data F' : list Z) : Prop := {
  wrote_data : holds F' off data;
  wrote_keeps : keeps (span off (Z.of_nat (length data))) F F';
  wrote_size : flen F' = Z.max (flen F) (off + Z.of_nat (length data))
}.

Lemma write_at_wrote F off data : 0 <= off -> Forall byte data -> wrote F off data (write_at (Z.to_nat off) data F).
Proof.
  intros Ho Hd. unfold write_at. set (l := F ++ replicate (Z.to_nat off - length F) 0).
  assert (Hl : (Z.to_nat off <= length l)%nat) by (subst l; rewrite length_app, length_replicate; lia).
  assert (Ht : length (take (Z.to_nat off) l) = Z.to_nat off) by (rewrite length_take; lia). split.
  - apply holds_take; [done|]. rewrite drop_app_length' by done. by rewrite take_app_length.
  - split; [|intros HF; apply Forall_app; split; [|apply Forall_app; split; [done|]]].
    2:{ apply Forall_take, Forall_app. split; [done|]. by apply Forall_replicate. }
    2:{ apply Forall_drop, Forall_app. split; [done|]. by apply Forall_replicate. }
    intros i b Hi Hb. pose proof (byte_at_size _ _ _ Hb) as Hs. unfold byte_at, flen in *. destruct (Z.leb_spec 0 i); [|done].
    assert (Hb' : l !! Z.to_nat i = Some b) by (subst l; by apply lookup_app_l_Some).
    destruct (Z.lt_ge_cases i off).
    + rewrite lookup_app_l, lookup_take_lt by lia. done.
    + unfold span in Hi. rewrite lookup_app_r, lookup_app_r, lookup_drop by lia. rewrite <- Hb'. f_equal. lia.
  - unfold flen. rewrite !length_app, Ht, length_drop. subst l. rewrite length_app, length_replicate. lia.
Qed.

(** ** Streams *)

Definition never_fails (fails : nat -> bool) : Prop := forall n, fails n = false.

Section streams.
Context (fails : nat -> bool) (Hnf : never_fails fails).
Context {T : Type} {P : Packed T} {L : PackedLaws T}.

Lemma fseek_ok offset f : fseek fails offset f = Ok (0, mk_file (bytes f) offset (S (calls f))).
Proof. unfold fseek. by rewrite Hnf. Qed.

Lemma must_succeed_ok f : must_succeed fails f = Ok (tt, mk_file (bytes f) (pos f) (S (calls f))).
Proof. unfold must_succeed. by rewrite Hnf. Qed.

Lemma fwrite_ok data sz nmemb f : Forall byte data -> data <> [] -> Z.of_nat (length data) = sz * nmemb -> 0 <= pos f ->
  exists f', fwrite fails data sz nmemb f = Ok (nmemb, f') /\ wrote (bytes f) (pos f) data (bytes f') /\
    pos f' = pos f + Z.of_nat (length data).
Proof.
  intros Hb Hd Hl Hp. unfold fwrite. rewrite Hnf, orb_false_r. rewrite (proj2 (Z.eqb_neq _ 0)).
  - eexists. split; [reflexivity|]. cbn. split; [by apply write_at_wrote|done].
  - destruct data; [done|]. cbn [length] in Hl. lia.
Qed.

Lemma fread_ok data sz nmemb f : holds (bytes f) (pos f) data -> data <> [] -> Z.of_nat (length data) = sz * nmemb ->
  0 < sz -> 0 <= nmemb ->
  fread fails sz nmemb f = Ok ((nmemb, data), mk_file (bytes f) (pos f + nmemb * sz) (S (calls f))).
Proof.
  intros Hh Hd Hl Hs Hn. destruct (holds_size _ _ _ Hd Hh) as [H0 Hsz]. unfold fread. rewrite Hnf.
  unfold flen in Hsz. assert (Hle : nmemb <= (Z.of_nat (length (bytes f)) - pos f) / sz) by (apply Z.div_le_lower_bound; lia).
  rewrite Z.min_l, Z.max_r by lia. apply holds_take in Hh; [|done].
  replace (Z.to_nat (nmemb * sz)) with (length data) by lia. by rewrite Hh.
Qed.

Lemma sizeof_pos : 0 <= sizeof T.
Proof. unfold sizeof. lia. Qed.

Lemma write_struct_ok (t : T) f : sound t -> 0 < sizeof T -> 0 <= pos f ->
  exists f', write_struct fails t f = Ok (1, f') /\ wrote (bytes f) (pos f) (disk_image t) (bytes f') /\
    pos f' = pos f + sizeof T.
Proof.
  intros Hs Hsz Hp. unfold write_struct. rewrite image_disk by done. pose proof (disk_image_length t) as Hl.
  rewrite <- Hl. apply fwrite_ok; [apply disk_image_bytes| |lia|done]. intros E. rewrite E in Hl. cbn in Hl. lia.
Qed.

Lemma read_struct_ok (t : T) f : holds (bytes f) (pos f) (disk_image t) -> sound t -> 0 < sizeof T ->
  read_struct fails f = Ok ((1, t), mk_file (bytes f) (pos f + sizeof T) (S (calls f))).
Proof.
  intros Hh Hs Hsz. unfold read_struct. pose proof (disk_image_length t) as Hl.
  rewrite (bind_ok _ _ _ _ _ (fread_ok _ (sizeof T) 1 f Hh ltac:(intros E; rewrite E in Hl; cbn in Hl; lia) ltac:(lia) Hsz ltac:(lia))).
  cbn beta iota. rewrite of_disk_image by done. by rewrite Z.mul_1_l.
Qed.
End streams.

(** Structures of 4-byte integers and the like are sound when their fields are small. *)
Ltac sound_solve := unfold sound; cbn; repeat (apply Forall2_cons; split; [unfold fits; cbn; bound_lia|]); by apply Forall2_nil.

(** ** The checksum

    The register of the reflected CRC-32, one bit and one byte at a time. *)
Definition bit_step (s : Z) : Z := if Z.odd s then Z.lxor (Z.shiftr s 1) 0xEDB88320 else Z.shiftr s 1.
Fixpoint bits_step (n : nat) (s : Z) : Z := match n with O => s | S n' => bit_step (bits_step n' s) end.
Definition crc32 (bs : list Z) : Z :=
  Z.lxor (fold_left (fun s b => bits_step 8 (Z.lxor s b)) bs 0xFFFFFFFF) 0xFFFFFFFF.

Lemma bit_step_range s : is_u 32 s -> is_u 32 (bit_step s).
Proof.
  intros Hs. assert (H : is_u 32 (Z.shiftr s 1)).
  { rewrite Z.shiftr_div_pow2 by lia. split; [apply Z.div_pos; lia|apply Z.div_lt_upper_bound; bound_lia]. }
  unfold bit_step. destruct (Z.odd s); [by apply lxor_u|done].
Qed.

Lemma bits_step_range n s : is_u 32 s -> is_u 32 (bits_step n s).
Proof. intros Hs. induction n as [|n IH]; cbn; [done|]. by apply bit_step_range. Qed.

Lemma bit_step_lxor a b : bit_step (Z.lxor a b) = Z.lxor (bit_step a) (bit_step b).
Proof.
  unfold bit_step. rewrite Z.shiftr_lxor, <- !Z.bit0_odd, Z.lxor_spec.
  destruct (Z.testbit a 0), (Z.testbit b 0); cbn [xorb]; apply Z.bits_inj'; intros n Hn; rewrite ?Z.lxor_spec;
    by destruct (Z.testbit (Z.shiftr a 1) n), (Z.testbit (Z.shiftr b 1) n), (Z.testbit 0xEDB88320 n).
Qed.

Lemma bits_step_lxor n a b : bits_step n (Z.lxor a b) = Z.lxor (bits_step n a) (bits_step n b).
Proof. induction n as [|n IH]; cbn; [done|]. by rewrite IH, bit_step_lxor. Qed.

(** A register whose low bits are clear only shifts. *)
Lemma bits_step_shift n y : 0 <= y -> bits_step n (Z.shiftl y (Z.of_nat n)) = y.
Proof.
  revert y. induction n as [|n IH]; intros y Hy; [apply Z.shiftl_0_r|].
  change (bit_step (bits_step n (Z.shiftl y (Z.of_nat (S n)))) = y).
  assert (E : Z.shiftl y (Z.of_nat (S n)) = Z.shiftl (2 * y) (Z.of_nat n)).
  { rewrite !Z.shiftl_mul_pow2, Nat2Z.inj_succ, Z.pow_succ_r by lia. lia. }
  rewrite E, IH by lia. unfold bit_step. rewrite Z.odd_mul. cbn [Z.odd andb]. rewrite Z.shiftr_div_pow2 by lia.
  rewrite Z.pow_1_r, Z.mul_comm. by apply Z.div_mul.
Qed.

(** The table holds the effect of eight steps on each byte. *)
Lemma crc_table_entry b : byte b -> crc_table !! Z.to_nat b = Some (bits_step 8 b).
Proof.
  intros Hb. assert (H : forallb (fun b => from_option (fun e => e =? bits_step 8 b) false (crc_table !! Z.to_nat b)) (seqZ 0 256) = true)
    by (vm_compute; reflexivity).
  rewrite forallb_forall in H. specialize (H b). unfold byte in Hb.
  destruct (crc_table !! Z.to_nat b) as [e|]; cbn in H.
  - f_equal. apply Z.eqb_eq, H, list_elem_of_In, elem_of_seqZ. lia.
  - discriminate H. apply list_elem_of_In, elem_of_seqZ. lia.
Qed.

Lemma low_high s : 0 <= s -> s = Z.lxor (Z.land s 0xFF) (Z.shiftl (Z.shiftr s 8) 8).
Proof.
  intros Hs. apply Z.bits_inj'. intros n Hn. change 0xFF with (Z.ones 8). rewrite Z.lxor_spec, Z.land_spec.
  destruct (Z.lt_ge_cases n 8).
  - rewrite Z.ones_spec_low, Z.shiftl_spec_low by lia. by rewrite andb_true_r, xorb_false_r.
  - rewrite Z.ones_spec_high, Z.shiftl_spec, Z.shiftr_spec by lia. rewrite andb_false_r. cbn [xorb]. f_equal. lia.
Qed.

Lemma FoldByteIntoCRC_ok s b : is_u 32 s -> byte b ->
  FoldByteIntoCRC (mk_crc s false) b = Ok (mk_crc (bits_step 8 (Z.lxor s b)) false).
Proof.
  intros Hs Hb. unfold FoldByteIntoCRC. cbn [finalized crc_state].
  assert (Hi : byte (Z.lxor (Z.land s 0xFF) b)).
  { apply (lxor_u 8); [done| |done]. change 0xFF with (Z.ones 8). rewrite Z.land_ones by lia. by apply Z.mod_pos_bound. }
  rewrite (cell_at _ _ _ (proj1 Hi) (crc_table_entry _ Hi)). cbn [rbind]. do 2 f_equal.
  pose proof (bits_step_shift 8 (Z.shiftr s 8) ltac:(apply Z.shiftr_nonneg; lia)) as Hh. change (Z.of_nat 8) with 8 in Hh.
  rewrite <- Hh, <- bits_step_lxor. f_equal.
  by rewrite <- Z.lxor_assoc, (Z.lxor_comm (Z.shiftl _ 8) (Z.land s 255)), <- low_high by lia.
Qed.

(** The bytes folded in from a register, and what they leave there. *)
Definition crc_from (s : Z) (bs : list Z) : Z := fold_left (fun s b => bits_step 8 (Z.lxor s b)) bs s.

Lemma crc_from_range s bs : is_u 32 s -> Forall byte bs -> is_u 32 (crc_from s bs).
Proof.
  intros Hs Hb. revert s Hs. induction Hb as [|b bs Hb _ IH]; intros s Hs; [done|]. apply IH, bits_step_range, lxor_u; [done|done|].
  unfold byte in Hb. bound_lia.
Qed.

Lemma bits_step_add m n s : bits_step (m + n) s = bits_step m (bits_step n s).
Proof. induction m as [|m IH]; cbn; [done|]. by rewrite IH. Qed.

(** Folding bytes is stepping through their bits, the first byte's first. *)
Lemma crc_from_bits bs : Forall byte bs -> forall s, crc_from s bs = bits_step (8 * length bs) (Z.lxor s (value_le bs)).
Proof.
  induction 1 as [|b bs Hb Hbs IH]; intros s; [cbn; by rewrite Z.lxor_0_r|].
  change (crc_from s (b :: bs)) with (crc_from (bits_step 8 (Z.lxor s b)) bs). rewrite IH. cbn [length value_le].
  pose proof (proj1 (value_le_range bs Hbs)) as Hv.
  replace (8 * S (length bs))%nat with (8 * length bs + 8)%nat by lia. rewrite bits_step_add. f_equal.
  assert (E : b + 256 * value_le bs = Z.lxor b (Z.shiftl (value_le bs) 8)).
  { rewrite (low_high (b + 256 * value_le bs)) by (unfold byte in Hb; lia). change 255 with (Z.ones 8).
    rewrite Z.land_ones, Z.shiftr_div_pow2 by lia. change (2 ^ 8) with 256. unfold byte in Hb.
    rewrite (Z.mul_comm 256), Z.mod_add, Z.div_add, Z.mod_small, Z.div_small by lia. done. }
  rewrite E, <- Z.lxor_assoc, (bits_step_lxor 8 (Z.lxor s b)). f_equal.
  pose proof (bits_step_shift 8 _ Hv) as Hsh. change (Z.of_nat 8) with 8 in Hsh. by rewrite Hsh.
Qed.

Lemma lxor_cancel_r a b c : Z.lxor a c = Z.lxor b c -> a = b.
Proof.
  intros E. apply (f_equal (fun z => Z.lxor z c)) in E. by rewrite !Z.lxor_assoc, !Z.lxor_nilpotent, !Z.lxor_0_r in E.
Qed.

Lemma bit_step_inj a b : is_u 32 a -> is_u 32 b -> bit_step a = bit_step b -> a = b.
Proof.
  intros Ha Hb. unfold bit_step.
  assert (Hr : forall x, is_u 32 x -> Z.testbit (Z.shiftr x 1) 31 = false).
  { intros x Hx. rewrite Z.shiftr_spec by lia. rewrite <- (Z.mod_small _ _ Hx). by rewrite Z.mod_pow2_bits_high by lia. }
  assert (Hbit : forall x y, is_u 32 x -> is_u 32 y -> Z.lxor (Z.shiftr x 1) 0xEDB88320 = Z.shiftr y 1 -> False).
  { intros x y Hx Hy E. apply (f_equal (fun z => Z.testbit z 31)) in E. rewrite Z.lxor_spec, !Hr in E by done. discriminate. }
  assert (Hhalf : Z.shiftr a 1 = Z.shiftr b 1 -> Z.odd a = Z.odd b -> a = b).
  { rewrite !Z.shiftr_div_pow2 by lia. change (2 ^ 1) with 2. intros E1 E2.
    pose proof (Z.div_mod a 2 ltac:(done)). pose proof (Z.div_mod b 2 ltac:(done)). rewrite !Zmod_odd, E1, E2 in *. lia. }
  destruct (Z.odd a) eqn:Ea, (Z.odd b) eqn:Eb; intros E.
  - apply Hhalf; [|done]. by apply lxor_cancel_r in E.
  - by destruct (Hbit a b).
  - by destruct (Hbit b a).
  - by apply Hhalf.
Qed.

Lemma bits_step_inj n a b : is_u 32 a -> is_u 32 b -> bits_step n a = bits_step n b -> a = b.
Proof.
  intros Ha Hb. induction n as [|n IH]; cbn; [done|]. intros E. apply IH. apply bit_step_inj; [by apply bits_step_range..|done].
Qed.

Lemma crc_from_inj s s' bs : is_u 32 s -> is_u 32 s' -> Forall byte bs -> crc_from s bs = crc_from s' bs -> s = s'.
Proof.
  intros Hs Hs' Hb. revert s s' Hs Hs'. induction Hb as [|b bs Hb _ IH]; intros s s' Hs Hs'; [done|].
  assert (Hr : is_u 32 b) by (unfold byte in Hb; bound_lia).
  intros E. apply IH in E; [|by apply bits_step_range, lxor_u..]. apply bits_step_inj in E; [|by apply lxor_u..].
  by apply lxor_cancel_r in E.
Qed.

(** The checksum of the code is the reference one. *)
Lemma fold_bytes_ok bs s : is_u 32 s -> Forall byte bs ->
  fold_left (fun r b => let? c := r in FoldByteIntoCRC c b) bs (Ok (mk_crc s false)) = Ok (mk_crc (crc_from s bs) false).
Proof.
  intros Hs Hb. revert s Hs. induction Hb as [|b bs Hb _ IH]; intros s Hs; [done|]. cbn [fold_left rbind].
  rewrite FoldByteIntoCRC_ok by done. apply IH, bits_step_range, lxor_u; [done|done|]. unfold byte in Hb. bound_lia.
Qed.

Lemma crc32_detects pre old new suf : Forall byte (pre ++ old ++ suf) -> Forall byte new -> length new = length old ->
  (length old <= 4)%nat -> new <> old -> crc32 (pre ++ new ++ suf) <> crc32 (pre ++ old ++ suf).
Proof.
  intros Hb Hnew Hl H4 Hne E. apply Hne. apply Forall_app in Hb as [Hpre [Hold Hsuf]%Forall_app].
  apply lxor_cancel_r in E. rewrite !fold_left_app in E. fold (crc_from 0xFFFFFFFF pre) in E. set (s := crc_from 0xFFFFFFFF pre) in E.
  assert (Hs : is_u 32 s) by (by apply crc_from_range).
  fold (crc_from s new) (crc_from s old) in E. fold (crc_from (crc_from s new) suf) (crc_from (crc_from s old) suf) in E.
  assert (Hv : forall bs, Forall byte bs -> (length bs <= 4)%nat -> is_u 32 (value_le bs)).
  { intros l Hl' Hlen. pose proof (value_le_range l Hl'). assert (256 ^ Z.of_nat (length l) <= 256 ^ 4) by (apply Z.pow_le_mono_r; lia).
    change (256 ^ 4) with (2 ^ 32) in *. lia. }
  apply crc_from_inj in E; [|by apply crc_from_range..|done]. rewrite !crc_from_bits, Hl in E by done.
  apply bits_step_inj in E; [|apply lxor_u; [done|done|apply Hv; (done || lia)]..].
  rewrite !(Z.lxor_comm s) in E. apply lxor_cancel_r in E. rewrite <- (bytes_value new), <- (bytes_value old), Hl, E by done. done.
Qed.

(** C29: folding bytes into a new [CRC32] with its table and finishing gives the
    reflected CRC-32 with the polynomial 0x04C11DB7, computed bit by bit; no change
    confined to four consecutive bytes goes unnoticed; and a finished object accepts no
    more bytes and returns the same value again. *)
Theorem CRC32_reference bs : Forall byte bs ->
  exists c, fold_left (fun r b => let? c := r in FoldByteIntoCRC c b) bs (Ok new_CRC32) = Ok c /\
    (GetFinalCRC c).1 = crc32 bs /\
    GetFinalCRC (GetFinalCRC c).2 = GetFinalCRC c /\ (forall b, FoldByteIntoCRC (GetFinalCRC c).2 b = Err VerifyFailed) /\
    forall pre old new suf, bs = pre ++ old ++ suf -> Forall byte new -> length new = length old -> (length old <= 4)%nat ->
      new <> old -> crc32 (pre ++ new ++ suf) <> crc32 bs.
Proof.
  intros Hb. exists (mk_crc (crc_from 0xFFFFFFFF bs) false). split_and!; [by apply fold_bytes_ok|done|done|done|].
  intros pre old new suf ->. by apply crc32_detects.
Qed.

(** The check value of the catalogues, for "123456789". *)
Lemma CRC32_reference_witness : exists c,
  fold_left (fun r b => let? c := r in FoldByteIntoCRC c b) [49; 50; 51; 52; 53; 54; 55; 56; 57] (Ok new_CRC32) = Ok c /\
  (GetFinalCRC c).1 = 0xCBF43926.
Proof.
  destruct (CRC32_reference [49; 50; 51; 52; 53; 54; 55; 56; 57]) as (c & H1 & H2 & _).
  - repeat (constructor; [unfold byte; lia|]). constructor.
  - exists c. split; [exact H1|]. rewrite H2. vm_compute. reflexivity.
Defined.
