(* ===== verification/IndexWriter.v ===== *)
(** Writing an index file, [uw_cse333/hw/hw3/fileindexwriter.cc]: the document table and
    the inverted index of hw2 as nested hash tables on disk, behind a header with a
    checksum.  A [write_element_fn] is a function of the offset and the pair.  Iterators
    over chains and position lists are the lists themselves, taken from an allocation
    that the oracle of [Disk] may fail; their release is left out. *)
From S2P Require Import Prelude Disk Alloc HashTable Table DocTable FileParser.
Open Scope Z_scope.

(** [NumElementsInLinkedList] *)
Definition num {A} (l : list A) : Z := u32 (Z.of_nat (length l)).

Section writer.
Context (fails : nat -> bool).

(** [LLMakeIterator] and the check of its result: an empty list has no iterator. *)
Definition make_iterator {A} (l : list A) : M FILE unit :=
  do* ensure VerifyFailed (negb (num l =? 0)); must_succeed fails.

Section WriteHashTable.
Context {V : Type} (fn : Z -> HTKeyValue V -> M FILE Z).

Definition WriteBucketRecord (li : bucket V) (br_offset b_offset : Z) : M FILE Z :=
  let br := mk_bucket_rec (num li) b_offset in
  let* res := fseek fails br_offset in
  if negb (res =? 0) then ret 0
  else
    let* n := write_struct fails br in
    if negb (n =? 1) then ret 0 else ret (sizeof bucket_rec).

(** [for (j = 0; j < chainlen_ho; j++)]; [None] for the early [return 0]. *)
Fixpoint WriteBucket_loop (chain : bucket V) (offset bucketlen nextelpos : Z) : M FILE (option Z) :=
  match chain with
  | [] => ret (Some bucketlen)
  | (_, kv) :: chain' =>
      let* res := fseek fails offset in
      if negb (res =? 0) then ret None
      else
        let* n := write_struct fails (mk_element_pos nextelpos) in
        if negb (n =? 1) then ret None
        else
          let* ellen := fn nextelpos kv in
          WriteBucket_loop chain' (u32 (offset + sizeof element_position_rec)) (u32 (bucketlen + ellen)) (u32 (nextelpos + ellen))
  end.

Definition WriteBucket (li : bucket V) (offset : Z) : M FILE Z :=
  let chainlen_ho := num li in
  let bucketlen := u32 (sizeof element_position_rec * chainlen_ho) in
  let nextelpos := u32 (offset + bucketlen) in
  if 0 <? chainlen_ho then
    do* make_iterator li;
    let* r := WriteBucket_loop (take (Z.to_nat chainlen_ho) li) offset bucketlen nextelpos in
    ret (default 0 r)
  else ret bucketlen.

(** [for (i = 0; i < ht->num_buckets; i++)] over the buckets that are left *)
Fixpoint WriteHashTable_loop (bs : list (bucket V)) (next_bucket_rec_offset next_bucket_offset : Z) : M FILE Z :=
  match bs with
  | [] => ret next_bucket_offset
  | li :: bs' =>
      let* res := WriteBucketRecord li next_bucket_rec_offset next_bucket_offset in
      let next_bucket_rec_offset := u32 (next_bucket_rec_offset + res) in
      if num li =? 0 then WriteHashTable_loop bs' next_bucket_rec_offset next_bucket_offset
      else
        let* res := WriteBucket li next_bucket_offset in
        WriteHashTable_loop bs' next_bucket_rec_offset (u32 (next_bucket_offset + res))
  end.

Definition WriteHashTable (ht : HashTableRecord V) (offset : Z) : M FILE Z :=
  let next_bucket_rec_offset := u32 (offset + sizeof BucketListHeader) in
  let* res := fseek fails offset in
  if negb (res =? 0) then ret 0
  else
    let* res := write_struct fails (mk_list_header (num_buckets ht)) in
    if negb (res =? 1) then ret 0
    else
      let next_bucket_offset := u32 (next_bucket_rec_offset + num_buckets ht * sizeof bucket_rec) in
      let* next_bucket_offset := WriteHashTable_loop (take (Z.to_nat (num_buckets ht)) (buckets ht))
        next_bucket_rec_offset next_bucket_offset in
      ret (u32 (next_bucket_offset - offset)).
End WriteHashTable.

(** ** The elements *)

Definition WriteDocidDocnameFn (offset : Z) (kv : HTKeyValue (list Z)) : M FILE Z :=
  let slen_ho := u16 (Z.of_nat (length (value kv))) in
  let* res := fseek fails offset in
  if negb (res =? 0) then ret 0
  else
    let* res := write_struct fails (mk_doc_header (key kv) slen_ho) in
    if negb (res =? 1) then ret 0
    else
      let* res := fwrite fails (take (Z.to_nat slen_ho) (value kv)) 1 slen_ho in
      if negb (res =? slen_ho) then ret 0 else ret (u32 (sizeof doctable_element_header + slen_ho)).

Definition WriteDocTable (dt : DocTableRecord hash_ops hash_ops) (offset : Z) : M FILE Z :=
  WriteHashTable WriteDocidDocnameFn (DTGetDocidTable dt) offset.

(** [for (i = 0; i < num_pos_ho; i++)]; [None] for the early [return 0]. *)
Fixpoint write_positions (payloads : list Z) (total : Z) : M FILE (option Z) :=
  match payloads with
  | [] => ret (Some total)
  | payload :: payloads' =>
      let* res := write_struct fails (mk_position (u32 payload)) in
      if negb (res =? 1) then ret None
      else write_positions payloads' (u32 (total + sizeof docid_element_position))
  end.

Definition WriteDocPositionListFn (offset : Z) (kv : HTKeyValue (list Z)) : M FILE Z :=
  let positions := value kv in
  let num_pos_ho := num positions in
  let* res := fseek fails offset in
  if negb (res =? 0) then ret 0
  else
    let* res := write_struct fails (mk_docid_header (key kv) num_pos_ho) in
    if negb (res =? 1) then ret 0
    else
      do* make_iterator positions;
      let* r := write_positions (take (Z.to_nat num_pos_ho) positions) (sizeof docid_element_header) in
      match r with
      | None => ret 0
      | Some total =>
          do* ensure AssertFailed (total =? sizeof docid_element_header + sizeof docid_element_position * num_pos_ho);
          ret total
      end.

(** [wdss] is the memory the pairs of the index point to. *)
Definition WriteWordDocSetFn (wdss : gmap positive (WordDocSet hash_ops)) (offset : Z) (kv : HTKeyValue positive) : M FILE Z :=
  let* wds := get_or BadAccess (wdss !! value kv) in
  let wordlen_ho := u16 (Z.of_nat (length (wds_word wds))) in
  let* htlen_ho := WriteHashTable WriteDocPositionListFn (docIDs wds)
    (u32 (offset + sizeof worddocset_header + wordlen_ho)) in
  let* res := fseek fails offset in
  if negb (res =? 0) then ret 0
  else
    let* res := write_struct fails (mk_word_header wordlen_ho htlen_ho) in
    if negb (res =? 1) then ret 0
    else
      let* res := fwrite fails (take (Z.to_nat wordlen_ho) (wds_word wds)) wordlen_ho 1 in
      if negb (res =? 1) then ret 0 else ret (u32 (sizeof worddocset_header + wordlen_ho + htlen_ho)).

Definition WriteMemIndex (wdss : gmap positive (WordDocSet hash_ops)) (mi : HashTableRecord positive) (offset : Z) : M FILE Z :=
  WriteHashTable (WriteWordDocSetFn wdss) mi offset.

(** ** The header *)

Definition fold_byte (crcobj : CRC32) (byte : Z) : M FILE CRC32 := fun f =>
  match FoldByteIntoCRC crcobj byte with Ok c => Ok (c, f) | Err e => Err e end.

(** [for (size_t i = 0; i < cslen; ++i)], [n] bytes to go; [None] for the early [return 0]. *)
Fixpoint checksum_loop (n : nat) (crcobj : CRC32) : M FILE (option CRC32) :=
  match n with
  | O => ret (Some crcobj)
  | S n' =>
      let* (r, data) := fread fails 1 1 in
      if negb (r =? 1) then ret None
      else
        let* byte := get_or BadAccess (head data) in
        let* crcobj := fold_byte crcobj byte in
        checksum_loop n' crcobj
  end.

Definition WriteHeader (doct_size memidx_size : Z) : M FILE Z :=
  let cslen := u32 (doct_size + memidx_size) in
  let* res := fseek fails (sizeof IndexFileHeader) in
  if negb (res =? 0) then ret 0
  else
    let* r := checksum_loop (Z.to_nat cslen) new_CRC32 in
    match r with
    | None => ret 0
    | Some crcobj =>
        let header := mk_header MAGIC_NUMBER (GetFinalCRC crcobj).1 doct_size memidx_size in
        let* res := fseek fails 0 in
        if negb (res =? 0) then ret 0
        else
          let* res := write_struct fails header in
          if negb (res =? 1) then ret 0
          else
            do* must_succeed fails;
            ret (sizeof IndexFileHeader)
    end.

(** The stream [WriteIndex] works on, from [fopen] to [fclose]; 0 for its early
    returns, which unlink the file. *)
Definition WriteIndex_stream (wdss : gmap positive (WordDocSet hash_ops)) (mi : HashTableRecord positive)
    (dt : DocTableRecord hash_ops hash_ops) : M FILE Z :=
  let* dtres := WriteDocTable dt (sizeof IndexFileHeader) in
  if dtres =? 0 then ret 0
  else
    let* mires := WriteMemIndex wdss mi (u32 (sizeof IndexFileHeader + dtres)) in
    if mires =? 0 then ret 0
    else
      let* headerres := WriteHeader dtres mires in
      if headerres =? 0 then ret 0 else ret (u32 (u32 (dtres + mires) + headerres)).

(** The files by name, and the calls so far. *)
Record disk : Type := mk_disk { files : gmap (list Z) (list Z); disk_calls : nat }.

Definition WriteIndex (wdss : gmap positive (WordDocSet hash_ops)) (mi : HashTableRecord positive)
    (dt : DocTableRecord hash_ops hash_ops) (filename : list Z) : M disk Z := fun d =>
  if fails (disk_calls d) then Ok (0, mk_disk (files d) (S (disk_calls d)))
  else
    match WriteIndex_stream wdss mi dt (mk_file [] 0 (S (disk_calls d))) with
    | Ok (filesize, f) =>
        Ok (filesize, mk_disk (if filesize =? 0 then delete filename (files d) else <[filename := bytes f]> (files d)) (calls f))
    | Err e => Err e
    end.
End writer.
