(* ===== verification/IndexWriterSpec.v ===== *)
(** What [IndexWriter] promises: the layout of a table on disk, and that a table is
    written with that layout, at its place and nowhere else, in as many bytes as the
    writer returns. *)
From Stdlib Require Import ZArith Lia.
From S2P Require Import Prelude Disk DiskSpec Alloc HashTable HashTableSpec Table DocTable FileParser IndexWriter.
Open Scope Z_scope.

(** ** Elements

    A kind of element: its size, what it looks like on disk and which pairs fit the
    layout. *)
Record element (V : Type) : Type := mk_element {
  el_size : HTKeyValue V -> Z;
  el_on : list Z -> Z -> HTKeyValue V -> Prop;
  el_ok : HTKeyValue V -> Prop
}.
Arguments mk_element {V}. Arguments el_size {V}. Arguments el_on {V}. Arguments el_ok {V}.

(** The run [m] writes [n] bytes at [off], which then satisfy [P]. *)
Definition writes (m : M FILE Z) (off n : Z) (P : list Z -> Prop) : Prop :=
  forall f, exists f', m f = Ok (n, f') /\ P (bytes f') /\ keeps (span off n) (bytes f) (bytes f') /\
    flen (bytes f') = Z.max (flen (bytes f)) (off + n).

Class Element {V} (E : element V) : Prop := {
  el_size_pos : forall kv, el_ok E kv -> 0 < el_size E kv;
  el_local : forall R F F' off kv, el_ok E kv -> keeps R F F' -> apart (span off (el_size E kv)) R -> el_on E F off kv -> el_on E F' off kv
}.

(** [fn] writes elements of the kind [E]. *)
Class Writer {V} (fn : Z -> HTKeyValue V -> M FILE Z) (E : element V) : Prop :=
  el_writes : forall off kv, el_ok E kv -> 0 <= off -> off + el_size E kv < 2 ^ 32 ->
    writes (fn off kv) off (el_size E kv) (fun F => el_on E F off kv).

Section table.
Context {V : Type} (E : element V).

Definition chain_size (c : bucket V) : Z := foldr (fun x n => el_size E x.2 + n) 0 c.
Definition bucket_size (c : bucket V) : Z := 4 * Z.of_nat (length c) + chain_size c.
Definition buckets_size (bs : list (bucket V)) : Z := foldr (fun c n => bucket_size c + n) 0 bs.
Definition table_size (t : HashTableRecord V) : Z := 4 + 8 * num_buckets t + buckets_size (buckets t).

(** The positions from [slots] and the elements between [lo] and [hi] of a chain. *)
Definition chain_on (F : list Z) (slots lo hi : Z) (c : bucket V) : Prop :=
  forall j x, c !! j = Some x -> exists epos, lo <= epos /\ epos + el_size E x.2 <= hi /\
    holds F (slots + 4 * Z.of_nat j) (disk_image (mk_element_pos epos)) /\ el_on E F epos x.2.

(** The records from [recs] and the buckets between [lo] and [hi], one after the other. *)
Definition buckets_on (F : list Z) (recs lo hi : Z) (bs : list (bucket V)) : Prop :=
  forall i c, bs !! i = Some c -> exists bpos, lo <= bpos /\ bpos + bucket_size c <= hi /\
    holds F (recs + 8 * Z.of_nat i) (disk_image (mk_bucket_rec (Z.of_nat (length c)) bpos)) /\
    chain_on F bpos (bpos + 4 * Z.of_nat (length c)) (bpos + bucket_size c) c /\
    bpos = lo + buckets_size (take i bs).

Definition table_on (F : list Z) (off : Z) (t : HashTableRecord V) : Prop :=
  holds F off (disk_image (mk_list_header (num_buckets t))) /\
  buckets_on F (off + 4) (off + 4 + 8 * num_buckets t) (off + table_size t) (buckets t).

(** The tables that are written: their buckets are there and their pairs fit. *)
Record table_ok (t : HashTableRecord V) : Prop := {
  tk_nb : 0 < num_buckets t;
  tk_len : length (buckets t) = Z.to_nat (num_buckets t);
  tk_elems : forall x, x ∈ items t -> el_ok E x.2
}.

Context {HE : Element E}.

Definition chain_ok (c : bucket V) : Prop := Forall (fun x => el_ok E x.2) c.

Lemma chain_size_nonneg c : chain_ok c -> 0 <= chain_size c.
Proof. induction 1 as [|x c Hx _ IH]; [done|]. pose proof (el_size_pos _ Hx). change (0 <= el_size E x.2 + chain_size c). lia. Qed.

Lemma bucket_size_nonneg c : chain_ok c -> 0 <= bucket_size c.
Proof. intros H%chain_size_nonneg. unfold bucket_size. lia. Qed.

Lemma buckets_size_nonneg bs : Forall chain_ok bs -> 0 <= buckets_size bs.
Proof. induction 1 as [|c bs Hc _ IH]; [done|]. pose proof (bucket_size_nonneg _ Hc). change (0 <= bucket_size c + buckets_size bs). lia. Qed.

Lemma table_ok_chains t : table_ok t -> Forall chain_ok (buckets t).
Proof.
  intros [_ _ H]. unfold items in H. induction (buckets t) as [|c bs IH]; [constructor|]. cbn in H. constructor.
  - apply Forall_forall. intros x Hx. apply H, elem_of_app. by left.
  - apply IH. intros x Hx. apply H, elem_of_app. by right.
Qed.

Lemma slot_length p : length (disk_image (mk_element_pos p)) = 4%nat.
Proof. pose proof (disk_image_length (mk_element_pos p)) as H. change (sizeof _) with 4 in H. lia. Qed.
Lemma rec_length a b : length (disk_image (mk_bucket_rec a b)) = 8%nat.
Proof. pose proof (disk_image_length (mk_bucket_rec a b)) as H. change (sizeof _) with 8 in H. lia. Qed.
Lemma head_length n : length (disk_image (mk_list_header n)) = 4%nat.
Proof. pose proof (disk_image_length (mk_list_header n)) as H. change (sizeof _) with 4 in H. lia. Qed.

(** *** The layout depends on its own bytes only *)

Lemma chain_on_local R F F' slots lo hi c : chain_ok c -> keeps R F F' -> apart (span slots (4 * Z.of_nat (length c))) R ->
  apart (span lo (hi - lo)) R -> chain_on F slots lo hi c -> chain_on F' slots lo hi c.
Proof.
  intros Hok Hk Hs He Hc j x Hj. destruct (Hc j x Hj) as (epos & H1 & H2 & H3 & H4). exists epos. split_and!; try done.
  - eapply holds_keeps; [done| |done]. intros i Hi. rewrite slot_length in Hi. apply Hs. apply lookup_lt_Some in Hj.
    unfold span in *. lia.
  - eapply el_local; [by eapply Forall_lookup_1 in Hok|done| |done]. intros i Hi. apply He. unfold span in *. lia.
Qed.

Lemma buckets_on_local R F F' recs lo hi bs : keeps R F F' -> Forall chain_ok bs -> apart (span recs (8 * Z.of_nat (length bs))) R ->
  apart (span lo (hi - lo)) R -> buckets_on F recs lo hi bs -> buckets_on F' recs lo hi bs.
Proof.
  intros Hk Hok Hs He Hb i c Hi. destruct (Hb i c Hi) as (bpos & H1 & H2 & H3 & H4 & H5). exists bpos. split_and!; try done.
  - eapply holds_keeps; [done| |done]. intros k Hin. rewrite rec_length in Hin. apply Hs. apply lookup_lt_Some in Hi.
    unfold span in *. lia.
  - pose proof (chain_size_nonneg c ltac:(by eapply Forall_lookup_1)). unfold bucket_size in *.
    eapply chain_on_local; [by eapply Forall_lookup_1|done| | |done]; intros k Hin; apply He; unfold span in *; lia.
Qed.

Lemma table_on_local R F F' off t : keeps R F F' -> table_ok t -> apart (span off (table_size t)) R ->
  table_on F off t -> table_on F' off t.
Proof.
  intros Hk Hok Ha [H1 H2]. pose proof (table_ok_chains t Hok) as Hc. pose proof (buckets_size_nonneg _ Hc). destruct Hok as [Hnb Hl _].
  unfold table_size in *. split.
  - eapply holds_keeps; [done| |done]. intros i Hi. rewrite head_length in Hi. apply Ha. unfold span in *. lia.
  - eapply buckets_on_local; [done|done| | |done]; intros i Hi; apply Ha; unfold table_size, span in *; lia.
Qed.

(** *** Writing a bucket *)

Context (fails : nat -> bool) (Hnf : never_fails fails) (fn : Z -> HTKeyValue V -> M FILE Z) {HW : Writer fn E}.

Lemma apart_span a n b m : a + n <= b \/ b + m <= a -> apart (span a n) (span b m).
Proof. unfold apart, span. lia. Qed.

(** What is not part of the slots or of the elements of a chain. *)
Definition chain_span (slots n lo len i : Z) : Prop := span slots n i \/ span lo len i.

Lemma WriteBucket_loop_ok c : chain_ok c -> forall offset bucketlen nextelpos f,
  0 <= offset -> offset + 4 * Z.of_nat (length c) <= nextelpos -> nextelpos + chain_size c < 2 ^ 32 ->
  0 <= bucketlen -> bucketlen + chain_size c < 2 ^ 32 ->
  exists f', WriteBucket_loop fails fn c offset bucketlen nextelpos f = Ok (Some (bucketlen + chain_size c), f') /\
    chain_on (bytes f') offset nextelpos (nextelpos + chain_size c) c /\
    keeps (chain_span offset (4 * Z.of_nat (length c)) nextelpos (chain_size c)) (bytes f) (bytes f') /\
    flen (bytes f') = match c with [] => flen (bytes f) | _ => Z.max (flen (bytes f)) (nextelpos + chain_size c) end.
Proof.
  induction 1 as [|[n kv] c Hkv Hc IH]; intros offset bucketlen nextelpos f Ho Hn H32 Hb Hb32.
  - exists f. cbn. rewrite Z.add_0_r. split_and!; [done|by intros j x|reflexivity|done].
  - change (chain_size ((n, kv) :: c)) with (el_size E kv + chain_size c) in *. cbn [length] in Hn. cbn in Hkv.
    pose proof (el_size_pos kv Hkv) as Hsz. pose proof (chain_size_nonneg c Hc) as Hcs.
    cbn [WriteBucket_loop]. step (fseek_ok fails Hnf offset f). cbn [Z.eqb negb].
    destruct (write_struct_ok fails Hnf (mk_element_pos nextelpos) (mk_file (bytes f) offset (S (calls f))))
      as (f1 & R1 & [D1 K1 L1] & P1); [by sound_solve|done|done|]. step R1. cbn [Z.eqb Pos.eqb negb]. cbn [bytes pos] in *.
    destruct (el_writes nextelpos kv Hkv ltac:(lia) ltac:(lia) f1) as (f2 & R2 & D2 & K2 & L2). step R2.
    change (sizeof element_position_rec) with 4. rewrite !wrapu_small by bound_lia.
    destruct (IH (offset + 4) (bucketlen + el_size E kv) (nextelpos + el_size E kv) f2) as (f3 & R3 & D3 & K3 & L3); [lia..|].
    rewrite slot_length in *. exists f3. split_and!.
    + rewrite R3. do 2 f_equal. f_equal. lia.
    + intros [|j] x Hj; cbn in Hj.
      * injection Hj as <-. exists nextelpos. cbn [snd]. rewrite Z.add_0_r. split_and!; [lia|lia| |].
        -- eapply holds_keeps; [exact K3| |eapply holds_keeps; [exact K2| |exact D1]]; rewrite slot_length;
             unfold apart, chain_span, span; lia.
        -- eapply el_local; [done|exact K3| |exact D2]. unfold apart, chain_span, span; lia.
      * destruct (D3 j x Hj) as (epos & H1 & H2 & H3 & H4). exists epos. split_and!; [lia|lia| |done].
        by replace (offset + 4 * Z.of_nat (S j)) with (offset + 4 + 4 * Z.of_nat j) by lia.
    + etransitivity; [eapply keeps_within; [|exact K1]|etransitivity; [eapply keeps_within; [|exact K2]|eapply keeps_within; [|exact K3]]];
        unfold chain_span, span; cbn [length]; lia.
    + rewrite L3. destruct c as [|x c]; [cbn|]; rewrite L2, L1; lia.
Qed.

Lemma num_small {A} (l : list A) : Z.of_nat (length l) < 2 ^ 32 -> num l = Z.of_nat (length l).
Proof. intros H. apply wrapu_small. lia. Qed.

Lemma chain_empty c : chain_ok c -> bucket_size c = 0 -> c = [].
Proof.
  intros Hc. destruct c as [|x c]; [done|]. inversion Hc as [|? ? Hx Hc']; subst. unfold bucket_size. cbn [length].
  pose proof (chain_size_nonneg _ Hc). lia.
Qed.

Lemma WriteBucketRecord_ok (c : bucket V) br_offset b_offset : 0 <= br_offset -> Z.of_nat (length c) < 2 ^ 32 -> 0 <= b_offset < 2 ^ 32 ->
  writes (WriteBucketRecord fails c br_offset b_offset) br_offset 8
    (fun F => holds F br_offset (disk_image (mk_bucket_rec (Z.of_nat (length c)) b_offset))).
Proof.
  intros Ho Hl Hb f. unfold WriteBucketRecord. rewrite num_small by done. step (fseek_ok fails Hnf br_offset f). cbn [Z.eqb negb].
  destruct (write_struct_ok fails Hnf (mk_bucket_rec (Z.of_nat (length c)) b_offset) (mk_file (bytes f) br_offset (S (calls f))))
    as (f1 & R1 & [D1 K1 L1] & P1); [by sound_solve|done|done|]. step R1. cbn [Z.eqb Pos.eqb negb]. rewrite rec_length in *.
  by exists f1.
Qed.

Lemma WriteBucket_ok c off : chain_ok c -> c <> [] -> 0 <= off -> off + bucket_size c < 2 ^ 32 ->
  writes (WriteBucket fails fn c off) off (bucket_size c)
    (fun F => chain_on F off (off + 4 * Z.of_nat (length c)) (off + bucket_size c) c).
Proof.
  intros Hc Hne Ho H32 f. pose proof (chain_size_nonneg c Hc) as Hcs. unfold bucket_size in *.
  assert (Hlen : 0 < Z.of_nat (length c)) by (destruct c; [done|cbn [length]; lia]).
  unfold WriteBucket, make_iterator. rewrite num_small by lia. change (sizeof element_position_rec) with 4.
  rewrite !wrapu_small by bound_lia. rewrite (proj2 (Z.ltb_lt _ _)), (proj2 (Z.eqb_neq _ _)) by lia. cbn [negb ensure].
  rewrite bind_assoc, bind_ret. step (must_succeed_ok fails Hnf f). rewrite take_ge by lia.
  destruct (WriteBucket_loop_ok c Hc off (4 * Z.of_nat (length c)) (off + 4 * Z.of_nat (length c)) (mk_file (bytes f) (pos f) (S (calls f))))
    as (f1 & R1 & D1 & K1 & L1); [lia..|]. step R1. exists f1. cbn [default id bytes] in *. split_and!; [done| | |].
  - by rewrite Z.add_assoc.
  - eapply keeps_within; [|exact K1]. unfold chain_span, span. lia.
  - rewrite L1. destruct c; [done|]. f_equal. lia.
Qed.

(** *** Writing a table *)

Lemma WriteHashTable_loop_ok bs : Forall chain_ok bs -> forall recs nbo f,
  0 <= recs -> recs + 8 * Z.of_nat (length bs) <= nbo -> nbo + buckets_size bs < 2 ^ 32 ->
  exists f', WriteHashTable_loop fails fn bs recs nbo f = Ok (nbo + buckets_size bs, f') /\
    buckets_on (bytes f') recs nbo (nbo + buckets_size bs) bs /\
    keeps (chain_span recs (8 * Z.of_nat (length bs)) nbo (buckets_size bs)) (bytes f) (bytes f') /\
    flen (bytes f') = match bs with [] => flen (bytes f) | _ =>
      Z.max (flen (bytes f)) (if buckets_size bs =? 0 then recs + 8 * Z.of_nat (length bs) else nbo + buckets_size bs) end.
Proof.
  induction 1 as [|c bs Hc Hbs IH]; intros recs nbo f Ho Hn H32.
  - exists f. cbn. rewrite Z.add_0_r. split_and!; [done|by intros i c|reflexivity|done].
  - change (buckets_size (c :: bs)) with (bucket_size c + buckets_size bs) in *. cbn [length] in Hn.
    pose proof (bucket_size_nonneg c Hc) as Hsz. pose proof (buckets_size_nonneg bs Hbs) as Hbsz.
    pose proof (chain_size_nonneg c Hc) as Hcsz.
    assert (Hcl : Z.of_nat (length c) < 2 ^ 32) by (unfold bucket_size in *; lia).
    cbn [WriteHashTable_loop]. destruct (WriteBucketRecord_ok c recs nbo ltac:(lia) Hcl ltac:(lia) f) as (f1 & R1 & D1 & K1 & L1).
    step R1. rewrite (wrapu_small 32 (recs + 8)) by bound_lia. rewrite num_small by done.
    assert (exists f2, (if Z.of_nat (length c) =? 0 then WriteHashTable_loop fails fn bs (recs + 8) nbo
        else let* res := WriteBucket fails fn c nbo in WriteHashTable_loop fails fn bs (recs + 8) (u32 (nbo + res))) f1 =
        WriteHashTable_loop fails fn bs (recs + 8) (nbo + bucket_size c) f2 /\
      chain_on (bytes f2) nbo (nbo + 4 * Z.of_nat (length c)) (nbo + bucket_size c) c /\
      keeps (span nbo (bucket_size c)) (bytes f1) (bytes f2) /\
      flen (bytes f2) = if bucket_size c =? 0 then flen (bytes f1) else Z.max (flen (bytes f1)) (nbo + bucket_size c)) as
      (f2 & -> & D2 & K2 & L2).
    { destruct c as [|x c].
      - exists f1. cbn. rewrite Z.add_0_r. split_and!; [done|by intros j y|reflexivity|done].
      - rewrite (proj2 (Z.eqb_neq (Z.of_nat _) 0)) by (cbn [length]; lia).
        destruct (WriteBucket_ok (x :: c) nbo Hc ltac:(done) ltac:(lia) ltac:(lia) f1) as (f2 & R2 & D2 & K2 & L2). exists f2.
        split; [by rewrite (bind_ok _ _ _ _ _ R2), wrapu_small by bound_lia|]. split_and!; [done|done|].
        rewrite (proj2 (Z.eqb_neq (bucket_size _) 0)); [done|]. intros E0. by apply chain_empty in E0. }
    destruct (IH (recs + 8) (nbo + bucket_size c) f2) as (f3 & R3 & D3 & K3 & L3); [lia..|]. exists f3. split_and!.
    + rewrite R3. by rewrite Z.add_assoc.
    + intros [|i] c' Hi; cbn in Hi.
      * injection Hi as <-. exists nbo. rewrite Z.add_0_r. split_and!; [lia|lia| | |cbn; lia].
        -- eapply holds_keeps; [exact K3| |eapply holds_keeps; [exact K2| |exact D1]]; rewrite rec_length;
             unfold apart, chain_span, span; lia.
        -- unfold bucket_size in *. eapply chain_on_local; [done|exact K3| | |exact D2]; unfold apart, chain_span, span; lia.
      * destruct (D3 i c' Hi) as (bpos & H1 & H2 & H3 & H4 & H5). exists bpos.
        split_and!; [lia|lia| |done|cbn [take]; change (buckets_size (c :: take i bs)) with (bucket_size c + buckets_size (take i bs)); lia].
        by replace (recs + 8 * Z.of_nat (S i)) with (recs + 8 + 8 * Z.of_nat i) by lia.
    + etransitivity; [eapply keeps_within; [|exact K1]|etransitivity; [eapply keeps_within; [|exact K2]|eapply keeps_within; [|exact K3]]];
        unfold chain_span, span; cbn [length]; lia.
    + rewrite L3, L2, L1. cbn [length]. destruct bs as [|c' bs]; [change (buckets_size []) with 0 in *; cbn [length] in *|];
        repeat case_match; lia.
Qed.

Lemma WriteHashTable_ok t off : table_ok t -> 0 <= off -> off + table_size t < 2 ^ 32 ->
  writes (WriteHashTable fails fn t off) off (table_size t) (fun F => table_on F off t).
Proof.
  intros Hok Ho H32 f. pose proof (table_ok_chains t Hok) as Hc. pose proof (buckets_size_nonneg _ Hc) as Hbs.
  destruct Hok as [Hnb Hl _]. unfold table_size in *. unfold WriteHashTable.
  change (sizeof BucketListHeader) with 4. change (sizeof bucket_rec) with 8.
  step (fseek_ok fails Hnf off f). cbn [Z.eqb negb].
  destruct (write_struct_ok fails Hnf (mk_list_header (num_buckets t)) (mk_file (bytes f) off (S (calls f))))
    as (f1 & R1 & [D1 K1 L1] & P1); [by sound_solve|done|done|]. step R1. cbn [Z.eqb Pos.eqb negb bytes pos] in *. rewrite head_length in *.
  rewrite (wrapu_small 32 (off + 4)) by bound_lia. rewrite wrapu_small by bound_lia. rewrite take_ge by lia.
  destruct (WriteHashTable_loop_ok (buckets t) Hc (off + 4) (off + 4 + num_buckets t * 8) f1) as (f2 & R2 & D2 & K2 & L2); [lia..|].
  step R2. exists f2. rewrite Hl in *. split_and!.
  - rewrite (wrapu_small 32) by bound_lia. unfold ret. do 2 f_equal. lia.
  - split; [eapply holds_keeps; [exact K2| |exact D1]; rewrite head_length; unfold apart, chain_span, span; lia|].
    unfold table_size. replace (off + 4 + 8 * num_buckets t) with (off + 4 + num_buckets t * 8) by lia.
    by replace (off + (4 + 8 * num_buckets t + _)) with (off + 4 + num_buckets t * 8 + buckets_size (buckets t)) by lia.
  - etransitivity; [eapply keeps_within; [|exact K1]|eapply keeps_within; [|exact K2]]; unfold chain_span, span; lia.
  - rewrite L2, L1. destruct (buckets t) as [|c bs] eqn:Eb; [change (buckets_size []) with 0 in *; cbn [length] in *; lia|].
    case_match; lia.
Qed.

End table.

(** ** The three kinds of elements *)

Section elements.

Lemma image_length_nat {T} {P : Packed T} {L : PackedLaws T} (t : T) : length (disk_image t) = sum_list (widths T).
Proof. pose proof (disk_image_length t) as H. unfold sizeof in H. lia. Qed.

(** A structure and the bytes written after it. *)
Lemma wrote_then F1 F2 F3 off xs ys n : wrote F1 off xs F2 -> wrote F2 (off + Z.of_nat (length xs)) ys F3 ->
  n = Z.of_nat (length xs) + Z.of_nat (length ys) ->
  holds F3 off (xs ++ ys) /\ keeps (span off n) F1 F3 /\ flen F3 = Z.max (flen F1) (off + n).
Proof.
  intros [D1 K1 L1] [D2 K2 L2] ->. split_and!.
  - apply holds_app. split; [|done]. eapply holds_keeps; [exact K2| |done]. by apply apart_span; lia.
  - etransitivity; [eapply keeps_within; [|exact K1]|eapply keeps_within; [|exact K2]]; unfold span; lia.
  - rewrite L2, L1. lia.
Qed.

(** A document id and its name. *)
Definition doc_element : element (list Z) := mk_element
  (fun kv => 10 + Z.of_nat (length (value kv)))
  (fun F off kv => holds F off (disk_image (mk_doc_header (key kv) (Z.of_nat (length (value kv)))) ++ value kv))
  (fun kv => is_u 64 (key kv) /\ Z.of_nat (length (value kv)) < 2 ^ 16 /\ Forall byte (value kv)).

#[export] Instance doc_element_laws : Element doc_element.
Proof.
  split; cbn [doc_element el_size el_on el_ok].
  - intros kv _. lia.
  - intros R F F' off kv _ Hk Ha. apply (holds_keeps R); [done|]. rewrite length_app, image_length_nat. cbn.
    intros i Hi. apply Ha. unfold span in *. lia.
Qed.

(** The words' positions, one after the other. *)
Definition positions_image (ps : list Z) : list Z := concat ((fun p => disk_image (mk_position (u32 p))) <$> ps).

Lemma positions_image_cons p ps : positions_image (p :: ps) = disk_image (mk_position (u32 p)) ++ positions_image ps.
Proof. done. Qed.

Lemma positions_length ps : length (positions_image ps) = (4 * length ps)%nat.
Proof. induction ps as [|p ps IH]; [done|]. rewrite positions_image_cons, length_app, IH, image_length_nat. cbn. lia. Qed.

(** A document id and the positions of the word in the document. *)
Definition postings_element : element (list Z) := mk_element
  (fun kv => 12 + 4 * Z.of_nat (length (value kv)))
  (fun F off kv => holds F off (disk_image (mk_docid_header (key kv) (Z.of_nat (length (value kv)))) ++ positions_image (value kv)))
  (fun kv => is_u 64 (key kv) /\ value kv <> []).

#[export] Instance postings_element_laws : Element postings_element.
Proof.
  split; cbn [postings_element el_size el_on el_ok].
  - intros kv _. lia.
  - intros R F F' off kv _ Hk Ha. apply (holds_keeps R); [done|]. rewrite length_app, image_length_nat, positions_length. cbn.
    intros i Hi. apply Ha. unfold span in *. lia.
Qed.

Context (wdss : gmap positive (WordDocSet hash_ops)).

(** A word and the table of its documents. *)
Definition word_element : element positive := mk_element
  (fun kv => from_option (fun wds => 6 + Z.of_nat (length (wds_word wds)) + table_size postings_element (docIDs wds)) 0 (wdss !! value kv))
  (fun F off kv => exists wds, wdss !! value kv = Some wds /\
     let n := Z.of_nat (length (wds_word wds)) in
     holds F off (disk_image (T := worddocset_header) (mk_word_header n (table_size postings_element (docIDs wds))) ++ wds_word wds) /\
     table_on postings_element F (off + 6 + n) (docIDs wds))
  (fun kv => exists wds, wdss !! value kv = Some wds /\ 0 < Z.of_nat (length (wds_word wds)) < 2 ^ 16 /\ Forall byte (wds_word wds) /\
     table_ok postings_element (docIDs wds)).

Lemma table_size_pos {V} (E : element V) `{!Element E} t : table_ok E t -> 4 <= table_size E t.
Proof.
  intros Hok. pose proof (buckets_size_nonneg E _ (table_ok_chains E t Hok)). destruct Hok as [Hnb _ _]. unfold table_size. lia.
Qed.

#[export] Instance word_element_laws : Element word_element.
Proof.
  split; cbn [word_element el_size el_on el_ok].
  - intros kv (wds & -> & Hw & _ & Hok). cbn. pose proof (table_size_pos _ _ Hok). lia.
  - intros R F F' off kv (wds & Hd & Hw & Hb & Hok) Hk Ha (wds' & Hd' & Hh & Ht). rewrite Hd in Ha, Hd'. injection Hd' as <-. cbn in Ha.
    pose proof (table_size_pos _ _ Hok). exists wds. split_and!; [done| |].
    + eapply holds_keeps; [done| |done]. rewrite length_app, image_length_nat. cbn. intros i Hi. apply Ha. unfold span in *. lia.
    + eapply (table_on_local postings_element); [done|done| |done]. intros i Hi. apply Ha. unfold span in *. lia.
Qed.
(** *** Writing them *)

Context (fails : nat -> bool) (Hnf : never_fails fails).

#[export] Instance doc_element_writer : Writer (WriteDocidDocnameFn fails) doc_element.
Proof.
  intros off [k name] (Hkey & Hl & Hb) Ho H32 f. cbn [doc_element el_ok el_size el_on] in *. cbn [key value] in *. unfold WriteDocidDocnameFn. cbn [key value].
  rewrite (wrapu_small 16) by lia. step (fseek_ok fails Hnf off f). cbn [Z.eqb negb].
  destruct (write_struct_ok fails Hnf (mk_doc_header k (Z.of_nat (length name))) (mk_file (bytes f) off (S (calls f))))
    as (f1 & R1 & W1 & P1); [by sound_solve|done|done|]. step R1. cbn [Z.eqb Pos.eqb negb bytes pos] in *.
  change (sizeof doctable_element_header) with 10 in *. rewrite take_ge by lia. rewrite (wrapu_small 32) by bound_lia.
  destruct (decide (name = [])) as [->|Hne].
  + assert (R2 : fwrite fails [] 1 0 f1 = Ok (0, mk_file (bytes f1) (pos f1) (S (calls f1)))) by done.
    step R2. eexists. split; [reflexivity|]. cbn [bytes]. rewrite app_nil_r. destruct W1 as [D K L].
    rewrite image_length_nat in K, L. by split_and!.
  + destruct (fwrite_ok fails Hnf name 1 (Z.of_nat (length name)) f1) as (f2 & R2 & W2 & _); [done|done|lia|lia|].
    step R2. rewrite Z.eqb_refl. cbn [negb]. exists f2. split; [done|]. rewrite P1 in W2.
    eapply wrote_then; [exact W1| |]; rewrite image_length_nat; [exact W2|cbn; lia].
Qed.

Lemma write_positions_ok ps : forall total f, 0 <= pos f -> 0 <= total -> total + 4 * Z.of_nat (length ps) < 2 ^ 32 ->
  exists f', write_positions fails ps total f = Ok (Some (total + 4 * Z.of_nat (length ps)), f') /\
    (if decide (ps = []) then f' = f else wrote (bytes f) (pos f) (positions_image ps) (bytes f')).
Proof.
  induction ps as [|p ps IH]; intros total f Hp Ht H32; [exists f; cbn; by rewrite Z.add_0_r|].
  cbn [write_positions length] in *. pose proof (wrapu_range 32 p ltac:(lia)) as Hu.
  destruct (write_struct_ok fails Hnf (mk_position (u32 p)) f) as (f1 & R1 & W1 & P1); [by sound_solve|done|done|].
  step R1. cbn [Z.eqb Pos.eqb negb]. change (sizeof docid_element_position) with 4 in *. rewrite wrapu_small by bound_lia.
  destruct (IH (total + 4) f1) as (f2 & R2 & W2); [lia..|]. exists f2. split; [rewrite R2; do 2 f_equal; f_equal; lia|].
  rewrite positions_image_cons. rewrite decide_False by done. destruct (decide (ps = [])) as [->|Hne].
  - subst f2. change (positions_image []) with (@nil Z). by rewrite app_nil_r.
  - destruct (wrote_then (bytes f) (bytes f1) (bytes f2) (pos f) _ (positions_image ps) (4 + Z.of_nat (length (positions_image ps))) W1) as (D & K & L);
      [rewrite image_length_nat; rewrite P1 in W2; exact W2|by rewrite image_length_nat|].
    assert (El : 4 + Z.of_nat (length (positions_image ps)) = Z.of_nat (length (disk_image (mk_position (u32 p)) ++ positions_image ps)))
      by (by rewrite length_app, image_length_nat, Nat2Z.inj_add).
    rewrite El in K, L. by split.
Qed.

#[export] Instance postings_element_writer : Writer (WriteDocPositionListFn fails) postings_element.
Proof.
  intros off [k ps] [Hkey Hne] Ho H32 f. cbn [postings_element el_ok el_size el_on] in *. cbn [key value] in *. unfold WriteDocPositionListFn, make_iterator. cbn [key value].
  assert (0 < Z.of_nat (length ps)) by (destruct ps; [done|cbn [length]; lia]).
  rewrite num_small by lia. step (fseek_ok fails Hnf off f). cbn [Z.eqb negb].
  destruct (write_struct_ok fails Hnf (mk_docid_header k (Z.of_nat (length ps))) (mk_file (bytes f) off (S (calls f))))
    as (f1 & R1 & W1 & P1); [by sound_solve|done|done|]. step R1. cbn [Z.eqb Pos.eqb negb bytes pos] in *.
  change (sizeof docid_element_header) with 12 in *. change (sizeof docid_element_position) with 4.
  rewrite (proj2 (Z.eqb_neq _ _)) by lia. cbn [negb ensure]. rewrite bind_assoc, bind_ret. step (must_succeed_ok fails Hnf f1).
  rewrite take_ge by lia.
  destruct (write_positions_ok ps 12 (mk_file (bytes f1) (pos f1) (S (calls f1)))) as (f2 & R2 & W2); cbn [pos]; [lia..|].
  step R2. rewrite Z.eqb_refl. cbn [ensure]. rewrite bind_ret. exists f2. split; [done|]. rewrite decide_False in W2 by done.
  cbn [bytes pos] in W2. rewrite P1 in W2.
  eapply wrote_then; [exact W1| |]; rewrite image_length_nat; [exact W2|rewrite positions_length; cbn; lia].
Qed.

#[export] Instance word_element_writer : Writer (WriteWordDocSetFn fails wdss) word_element.
Proof.
  intros off kv (wds & Hd & Hw & Hb & Hok) Ho H32 f. cbn [word_element el_ok el_size el_on] in *. rewrite Hd in *. cbn [from_option] in *. unfold WriteWordDocSetFn.
  set (n := Z.of_nat (length (wds_word wds))) in *. set (h := table_size postings_element (docIDs wds)) in *.
  pose proof (table_size_pos _ _ Hok). fold h in H. rewrite Hd. cbn [get_or]. rewrite bind_ret.
  change (sizeof worddocset_header) with 6. rewrite (wrapu_small 16) by lia. rewrite (wrapu_small 32) by bound_lia.
  destruct (WriteHashTable_ok postings_element fails Hnf (WriteDocPositionListFn fails) (docIDs wds) (off + 6 + n) Hok ltac:(lia) ltac:(fold h; lia) f)
    as (f1 & R1 & D1 & K1 & L1). fold h in R1, K1, L1. step R1. step (fseek_ok fails Hnf off f1). cbn [Z.eqb negb].
  destruct (write_struct_ok fails Hnf (mk_word_header n h) (mk_file (bytes f1) off (S (calls f1))))
    as (f2 & R2 & W2 & P2); [by sound_solve|done|done|]. step R2. cbn [Z.eqb Pos.eqb negb bytes pos] in *.
  change (sizeof worddocset_header) with 6 in P2. rewrite take_ge by lia.
  destruct (fwrite_ok fails Hnf (wds_word wds) n 1 f2) as (f3 & R3 & W3 & _); [done| |lia|lia|].
  { intros E. subst n. rewrite E in Hw. cbn in Hw. lia. }
  step R3. cbn [Z.eqb Pos.eqb negb]. rewrite (wrapu_small 32) by bound_lia. exists f3. split; [done|]. rewrite P2 in W3.
  destruct (wrote_then (bytes f1) (bytes f2) (bytes f3) off _ (wds_word wds) (6 + n) W2) as (D & K & L); [rewrite image_length_nat; exact W3|rewrite image_length_nat; cbn; lia|].
  split_and!.
  + exists wds. split_and!; [done|done|]. eapply (table_on_local postings_element); [exact K|done| |done]. apply apart_span. lia.
  + etransitivity; [eapply keeps_within; [|exact K1]|eapply keeps_within; [|exact K]]; unfold span; lia.
  + rewrite L, L1. lia.
Qed.
End elements.

(** ** The header and the file *)

(** What an index file holds: the header with the sizes and the checksum of the rest, the
    document table and the table of words. *)
Record index_on (wdss : gmap positive (WordDocSet hash_ops)) (mi : HashTableRecord positive)
    (dt : DocTableRecord hash_ops hash_ops) (F : list Z) : Prop := {
  io_header : holds F 0 (disk_image (mk_header MAGIC_NUMBER (crc32 (drop 16 F))
    (table_size doc_element (docid_to_docname dt)) (table_size (word_element wdss) mi)));
  io_docs : table_on doc_element F 16 (docid_to_docname dt);
  io_words : table_on (word_element wdss) F (16 + table_size doc_element (docid_to_docname dt)) mi;
  io_size : flen F = 16 + table_size doc_element (docid_to_docname dt) + table_size (word_element wdss) mi;
  io_octets : Forall byte F
}.

(** The tables are sound, their pairs fit the layout and the file stays below 4 GiB. *)
Record index_fits (wdss : gmap positive (WordDocSet hash_ops)) (mi : HashTableRecord positive)
    (dt : DocTableRecord hash_ops hash_ops) : Prop := {
  if_docs : table_ok doc_element (docid_to_docname dt);
  if_words : table_ok (word_element wdss) mi;
  if_size : 16 + table_size doc_element (docid_to_docname dt) + table_size (word_element wdss) mi < 2 ^ 32
}.

Section file.
Context (fails : nat -> bool) (Hnf : never_fails fails).

Lemma checksum_loop_ok data : Forall byte data -> forall s f, is_u 32 s -> holds (bytes f) (pos f) data ->
  exists f', checksum_loop fails (length data) (mk_crc s false) f = Ok (Some (mk_crc (crc_from s data) false), f') /\
    bytes f' = bytes f.
Proof.
  induction 1 as [|b data Hb _ IH]; intros s f Hs Hh; [by exists f|]. cbn [length checksum_loop].
  apply (holds_app _ _ [b] data) in Hh as [Hh1 Hh2].
  step (fread_ok fails Hnf [b] 1 1 f Hh1 ltac:(done) ltac:(done) ltac:(done) ltac:(done)). cbn [Z.eqb Pos.eqb negb head get_or].
  rewrite bind_ret. unfold fold_byte at 1, bind. rewrite FoldByteIntoCRC_ok by done.
  destruct (IH (bits_step 8 (Z.lxor s b)) (mk_file (bytes f) (pos f + 1 * 1) (S (calls f)))) as (f' & R & E); [| |by exists f'].
  - apply bits_step_range, lxor_u; [done|done|]. unfold byte in Hb. bound_lia.
  - exact Hh2.
Qed.

Lemma drop_keeps F F' (n : nat) : keeps (span 0 (Z.of_nat n)) F F' -> flen F' = flen F -> drop n F' = drop n F.
Proof.
  intros [Hk _] Hl. unfold flen in Hl. apply list_eq. intros i. rewrite !lookup_drop. destruct (F !! (n + i)%nat) as [b|] eqn:E.
  - specialize (Hk (Z.of_nat (n + i)) b). unfold byte_at in Hk. rewrite Nat2Z.id in Hk.
    destruct (Z.leb_spec 0 (Z.of_nat (n + i))); [|lia]. apply Hk; [unfold span; lia|done].
  - apply lookup_ge_None in E. apply lookup_ge_None. lia.
Qed.

Lemma WriteHeader_ok d m f : 0 <= d -> 0 <= m -> 16 + d + m < 2 ^ 32 -> flen (bytes f) = 16 + d + m -> Forall byte (bytes f) ->
  exists f', WriteHeader fails d m f = Ok (16, f') /\ keeps (span 0 16) (bytes f) (bytes f') /\
    holds (bytes f') 0 (disk_image (mk_header MAGIC_NUMBER (crc32 (drop 16 (bytes f))) d m)) /\ flen (bytes f') = 16 + d + m.
Proof.
  intros Hd Hm H32 Hl Ho. unfold WriteHeader. change (sizeof IndexFileHeader) with 16. rewrite wrapu_small by bound_lia.
  step (fseek_ok fails Hnf 16 f). cbn [Z.eqb negb]. set (data := drop 16 (bytes f)).
  assert (El : length data = Z.to_nat (d + m)) by (subst data; rewrite length_drop; unfold flen in Hl; lia).
  assert (Hdata : Forall byte data) by (by apply Forall_drop).
  destruct (checksum_loop_ok data Hdata 0xFFFFFFFF (mk_file (bytes f) 16 (S (calls f)))) as (f1 & R1 & E1); [done| |].
  { apply holds_take; [done|]. cbn [bytes pos]. change (Z.to_nat 16) with 16%nat. fold data. apply firstn_all. }
  rewrite El in R1. step R1. step (fseek_ok fails Hnf 0 f1). cbn [Z.eqb negb]. cbn [bytes] in E1.
  change ((GetFinalCRC (mk_crc (crc_from 0xFFFFFFFF data) false)).1) with (crc32 data).
  assert (Hc : is_u 32 (crc32 data)) by (apply lxor_u; [done| |done]; by apply crc_from_range).
  destruct (write_struct_ok fails Hnf (mk_header MAGIC_NUMBER (crc32 data) d m) (mk_file (bytes f1) 0 (S (calls f1))))
    as (f2 & R2 & [D2 K2 L2] & P2); [unfold MAGIC_NUMBER; sound_solve|done|done|]. step R2. cbn [Z.eqb Pos.eqb negb].
  step (must_succeed_ok fails Hnf f2). cbn [bytes pos] in *. rewrite image_length_nat in K2, L2. rewrite E1 in K2, L2.
  eexists. split; [reflexivity|]. cbn [bytes]. split_and!; [done|done|]. rewrite L2, Hl. cbn. lia.
Qed.

Lemma WriteIndex_stream_ok wdss mi dt k : index_fits wdss mi dt ->
  exists f', WriteIndex_stream fails wdss mi dt (mk_file [] 0 k) = Ok (flen (bytes f'), f') /\ index_on wdss mi dt (bytes f').
Proof.
  intros [Hdocs Hwords H32]. pose proof (doc_element_writer fails Hnf) as LD. pose proof (word_element_writer wdss fails Hnf) as LW.
  set (d := table_size doc_element (docid_to_docname dt)) in *. set (m := table_size (word_element wdss) mi) in *.
  pose proof (table_size_pos _ _ Hdocs) as Hd. pose proof (table_size_pos _ _ Hwords) as Hm. fold d in Hd. fold m in Hm.
  unfold WriteIndex_stream, WriteDocTable, WriteMemIndex, DTGetDocidTable. change (sizeof IndexFileHeader) with 16.
  destruct (WriteHashTable_ok doc_element fails Hnf (WriteDocidDocnameFn fails) _ 16 Hdocs ltac:(lia) ltac:(fold d; lia) (mk_file [] 0 k)) as (f1 & R1 & D1 & K1 & L1).
  fold d in R1, K1, L1. step R1. rewrite (proj2 (Z.eqb_neq d 0)) by lia. rewrite (wrapu_small 32 (16 + d)) by bound_lia.
  destruct (WriteHashTable_ok (word_element wdss) fails Hnf (WriteWordDocSetFn fails wdss) _ (16 + d) Hwords ltac:(lia) ltac:(fold m; lia) f1) as (f2 & R2 & D2 & K2 & L2).
  fold m in R2, K2, L2. step R2. rewrite (proj2 (Z.eqb_neq m 0)) by lia. cbn [bytes] in *. change (flen []) with 0 in L1.
  assert (Ho : Forall byte (bytes f2)) by (apply K2, K1; constructor).
  destruct (WriteHeader_ok d m f2) as (f3 & R3 & K3 & D3 & L3); [lia..|done|]. step R3. cbn [Z.eqb].
  rewrite (wrapu_small 32 (d + m)) by bound_lia. rewrite (wrapu_small 32 (d + m + 16)) by bound_lia. exists f3. rewrite L3. split; [unfold ret; do 2 f_equal; lia|].
  assert (Hdrop : drop 16 (bytes f3) = drop 16 (bytes f2)) by (apply drop_keeps; [done|lia]).
  split; fold d; fold m.
  - by rewrite Hdrop.
  - eapply (table_on_local doc_element); [exact K3|done|by apply apart_span; fold d; lia|].
    eapply (table_on_local doc_element); [exact K2|done|by apply apart_span; fold d; lia|done].
  - eapply (table_on_local (word_element wdss)); [exact K3|done|by apply apart_span; fold m; lia|done].
  - done.
  - by apply K3.
Qed.
End file.
