(* ===== verification/IndexReader.v ===== *)
(** Reading an index file, [uw_cse333/hw/hw3]: [HashTableReader.cc],
    [DocTableReader.cc], [DocIDTableReader.cc], [IndexTableReader.cc] and
    [FileIndexReader.cc].  The readers of one file hold duplicates of its descriptor,
    which share one position; each operation seeks before it reads, so they are one
    [FILE] here.  A derived reader has the fields of its base class only. *)
From S2P Require Import Prelude Disk Alloc HashTable.
Open Scope Z_scope.

Record HashTableReader : Type := mk_reader { offset_ : Z; header_ : BucketListHeader }.

Section reader.
Context (fails : nat -> bool).

(** [Verify333(fseek(...) == 0)] and [Verify333(fread(&t, sizeof(t), 1, file_) == 1)] *)
Definition seek_to (offset : Z) : M FILE unit :=
  let* r := fseek fails offset in ensure VerifyFailed (r =? 0).
Definition read_one (T : Type) `{Packed T} : M FILE T :=
  let* (n, t) := read_struct fails in
  do* ensure VerifyFailed (n =? 1);
  ret t.
Definition read_byte : M FILE Z :=
  let* (n, data) := fread fails 1 1 in
  do* ensure VerifyFailed (n =? 1);
  get_or BadAccess (head data).

(** ** HashTableReader *)

Definition new_HashTableReader (offset : Z) : M FILE HashTableReader :=
  do* seek_to offset;
  let* header := read_one BucketListHeader in
  ret (mk_reader offset header).

(** The copy constructor and, for another object, the assignment. *)
Definition copy_HashTableReader (rhs : HashTableReader) : M FILE HashTableReader :=
  do* FileDup fails;
  ret (mk_reader (offset_ rhs) (header_ rhs)).

(** [for (size_t i = 0; i < b_rec.chain_len; ++i)] *)
Fixpoint read_elements (n : nat) (retval : list Z) : M FILE (list Z) :=
  match n with
  | O => ret retval
  | S n' =>
      let* e_rec := read_one element_position_rec in
      read_elements n' (retval ++ [element_position e_rec])
  end.

Definition LookupElementPositions (htr : HashTableReader) (hashKey : Z) : M FILE (list Z) :=
  do* ensure BadAccess (negb (list_buckets (header_ htr) =? 0));
  let bucket_num := hashKey mod list_buckets (header_ htr) in
  let bucketrec_offset := u32 (offset_ htr + sizeof BucketListHeader + sizeof bucket_rec * bucket_num) in
  do* seek_to bucketrec_offset;
  let* b_rec := read_one bucket_rec in
  if chain_len b_rec =? 0 then ret []
  else
    do* seek_to (bucket_position b_rec);
    read_elements (Z.to_nat (chain_len b_rec)) [].

(** ** DocTableReader *)

(** [n] characters into a string stream. *)
Fixpoint read_string (n : nat) (ss : list Z) : M FILE (list Z) :=
  match n with
  | O => ret ss
  | S n' => let* nextc := read_byte in read_string n' (ss ++ [nextc])
  end.

Fixpoint find_docname (elements : list Z) (docid : Z) : M FILE (option (list Z)) :=
  match elements with
  | [] => ret None
  | next_offset :: elements' =>
      do* seek_to next_offset;
      let* header := read_one doctable_element_header in
      if doc_docid header =? docid then
        let* name := read_string (Z.to_nat (filename_len header)) [] in
        ret (Some name)
      else find_docname elements' docid
  end.

(** The string returned through [ret_str], if any. *)
Definition DocTable_LookupDocID (dtr : HashTableReader) (docid : Z) : M FILE (option (list Z)) :=
  let* elements := LookupElementPositions dtr docid in
  if (length elements =? 0)%nat then ret None else find_docname elements docid.

(** ** DocIDTableReader *)

(** [for (size_t i = 0; i < header.num_positions; ++i)] *)
Fixpoint read_positions (n : nat) (ret_list : list Z) : M FILE (list Z) :=
  match n with
  | O => ret ret_list
  | S n' =>
      let* doc_elem_pos := read_one docid_element_position in
      read_positions n' (ret_list ++ [position doc_elem_pos])
  end.

Fixpoint find_positions (elements : list Z) (docid : Z) : M FILE (option (list Z)) :=
  match elements with
  | [] => ret None
  | next_offset :: elements' =>
      do* seek_to next_offset;
      let* header := read_one docid_element_header in
      if el_docid header =? docid then
        let* ps := read_positions (Z.to_nat (num_positions header)) [] in
        ret (Some ps)
      else find_positions elements' docid
  end.

(** What is appended to [ret_list], if the document is found. *)
Definition DocIDTable_LookupDocID (ditr : HashTableReader) (docid : Z) : M FILE (option (list Z)) :=
  let* elements := LookupElementPositions ditr docid in
  if (length elements =? 0)%nat then ret None else find_positions elements docid.

(** [for (j = 0; j < b_rec.chain_len; j++)], [n] rounds left *)
Fixpoint docid_chain_loop (n : nat) (b_rec : bucket_rec) (j : Z) (docidlist : list docid_element_header)
    : M FILE (list docid_element_header) :=
  match n with
  | O => ret docidlist
  | S n' =>
      do* seek_to (bucket_position b_rec + j * sizeof element_position_rec);
      let* ep := read_one element_position_rec in
      do* seek_to (element_position ep);
      let* doc_el := read_one docid_element_header in
      docid_chain_loop n' b_rec (u32 (j + 1)) (docidlist ++ [doc_el])
  end.

(** [for (i = 0; i < header_.num_buckets; i++)], [n] rounds left *)
Fixpoint docid_bucket_loop (n : nat) (ditr : HashTableReader) (i : Z) (docidlist : list docid_element_header)
    : M FILE (list docid_element_header) :=
  match n with
  | O => ret docidlist
  | S n' =>
      do* seek_to (4 + i * sizeof bucket_rec + offset_ ditr);
      let* b_rec := read_one bucket_rec in
      let* docidlist := docid_chain_loop (Z.to_nat (chain_len b_rec)) b_rec 0 docidlist in
      docid_bucket_loop n' ditr (u32 (i + 1)) docidlist
  end.

Definition GetDocIDList (ditr : HashTableReader) : M FILE (list docid_element_header) :=
  docid_bucket_loop (Z.to_nat (list_buckets (header_ ditr))) ditr 0 [].

(** ** IndexTableReader *)

Fixpoint find_word (elements : list Z) (word : list Z) : M FILE (option HashTableReader) :=
  match elements with
  | [] => ret None
  | next_offset :: elements' =>
      do* seek_to next_offset;
      let* header := read_one worddocset_header in
      if negb (word_len header =? Z.of_nat (length word)) then find_word elements' word
      else
        let* ss := read_string (Z.to_nat (word_len header)) [] in
        if bool_decide (word = ss) then
          let docidtableoffset := u32 (next_offset + 6 + word_len header) in
          do* FileDup fails;
          let* ditr := new_HashTableReader docidtableoffset in
          ret (Some ditr)
        else find_word elements' word
  end.

Definition LookupWord (itr : HashTableReader) (word : list Z) : M FILE (option HashTableReader) :=
  let wordhash := FNVHash64 word in
  let* elements := LookupElementPositions itr wordhash in
  if (length elements =? 0)%nat then ret None else find_word elements word.

(** ** FileIndexReader *)

Fixpoint fold_bytes (buf : list Z) (crcobj : CRC32) : res CRC32 :=
  match buf with
  | [] => Ok crcobj
  | b :: buf' => let? crcobj := FoldByteIntoCRC crcobj b in fold_bytes buf' crcobj
  end.

(** [while (left_to_read > 0)] *)
Fixpoint validate_loop (fuel : nat) (left_to_read : Z) (crcobj : CRC32) : M FILE CRC32 :=
  match fuel with
  | O => fail OutOfFuel
  | S fuel' =>
      if 0 <? left_to_read then
        let* (nread, buf) := fread fails 1 512 in
        let* crcobj := (fun f => match fold_bytes buf crcobj with Ok c => Ok (c, f) | Err e => Err e end) in
        validate_loop fuel' (u32 (left_to_read - nread)) crcobj
      else ret crcobj
  end.

(** The header, on the stream that [fopen] returned. *)
Definition new_FileIndexReader (fuel : nat) (validate : bool) : M FILE IndexFileHeader :=
  let* header := read_one IndexFileHeader in
  do* ensure VerifyFailed (magic_number header =? MAGIC_NUMBER);
  do* must_succeed fails;
  let* st_size := gets (fun f => Z.of_nat (length (bytes f))) in
  do* ensure VerifyFailed (u32 st_size =? u32 (sizeof IndexFileHeader + doctable_size header + index_size header));
  do* (if validate then
         let* crcobj := validate_loop fuel (u32 (doctable_size header + index_size header)) new_CRC32 in
         ensure VerifyFailed ((GetFinalCRC crcobj).1 =? checksum header)
       else ret tt);
  ret header.

Definition GetDocTableReader (header : IndexFileHeader) : M FILE HashTableReader :=
  do* FileDup fails;
  new_HashTableReader (sizeof IndexFileHeader).
Definition GetIndexTableReader (header : IndexFileHeader) : M FILE HashTableReader :=
  do* FileDup fails;
  new_HashTableReader (u32 (sizeof IndexFileHeader + doctable_size header)).
End reader.
