(* ===== verification/IndexReaderSpec.v ===== *)
(** What [IndexReader] promises: on a file with the layout of [IndexWriterSpec], the
    readers find exactly what the tables hold, and an index file passes the checks. *)
From Stdlib Require Import ZArith Lia.
From S2P Require Import Prelude Disk DiskSpec Alloc HashTable HashTableSpec Table DocTable FileParser IndexWriter IndexWriterSpec IndexReader.
Open Scope Z_scope.

Section reader.
Context (fails : nat -> bool) (Hnf : never_fails fails).

(** Run on a file [F], wherever it stands, [m] returns [a] and leaves the file as it was. *)
Definition reads {A} (m : M FILE A) (F : list Z) (a : A) : Prop :=
  forall f, bytes f = F -> exists f', m f = Ok (a, f') /\ bytes f' = F.

Lemma reads_ret {A} F (a : A) : reads (ret a) F a.
Proof. intros f Hf. by exists f. Qed.

Lemma reads_bind {A B} (m : M FILE A) (k : A -> M FILE B) F a b : reads m F a -> reads (k a) F b -> reads (bind m k) F b.
Proof. intros Hm Hk f Hf. destruct (Hm f Hf) as (f1 & R1 & E1). step R1. by apply Hk. Qed.

Lemma reads_dup F : reads (FileDup fails) F tt.
Proof.
  intros f Hf. unfold FileDup. step (must_succeed_ok fails Hnf f). rewrite must_succeed_ok by done. by eexists.
Qed.

Section structs.
Context {T : Type} {P : Packed T} {L : PackedLaws T}.

Lemma read_one_ok (t : T) f : holds (bytes f) (pos f) (disk_image t) -> sound t -> 0 < sizeof T ->
  read_one fails T f = Ok (t, mk_file (bytes f) (pos f + sizeof T) (S (calls f))).
Proof. intros Hh Hs Hsz. unfold read_one. by step (read_struct_ok fails Hnf t f Hh Hs Hsz). Qed.

(** [fseek] and [fread] of a structure *)
Lemma seek_read {A} off (t : T) (k : T -> M FILE A) F a : holds F off (disk_image t) -> sound t -> 0 < sizeof T ->
  (forall f, bytes f = F -> pos f = off + sizeof T -> exists f', k t f = Ok (a, f') /\ bytes f' = F) ->
  reads (do* seek_to fails off; let* x := read_one fails T in k x) F a.
Proof.
  intros Hh Hs Hsz Hk f Hf. unfold seek_to. rewrite bind_assoc. step (fseek_ok fails Hnf off f). cbn [Z.eqb ensure]. rewrite bind_ret.
  rewrite (bind_ok _ _ _ _ _ (read_one_ok t (mk_file (bytes f) off (S (calls f))) ltac:(cbn; by rewrite Hf) Hs Hsz)).
  by apply Hk.
Qed.
End structs.

Lemma read_byte_ok b data f : holds (bytes f) (pos f) (b :: data) ->
  read_byte fails f = Ok (b, mk_file (bytes f) (pos f + 1) (S (calls f))) /\ holds (bytes f) (pos f + 1) data.
Proof.
  intros Hh. apply (holds_app _ _ [b] data) in Hh as [Hh1 Hh2]. split; [|done]. unfold read_byte.
  by step (fread_ok fails Hnf [b] 1 1 f Hh1 ltac:(done) ltac:(done) ltac:(done) ltac:(done)).
Qed.

Lemma read_string_ok name : forall ss f, holds (bytes f) (pos f) name ->
  exists f', read_string fails (length name) ss f = Ok (ss ++ name, f') /\ bytes f' = bytes f.
Proof.
  induction name as [|b name IH]; intros ss f Hh; [exists f; by rewrite app_nil_r|]. cbn [length read_string].
  destruct (read_byte_ok b name f Hh) as [R1 Hh']. step R1. destruct (IH (ss ++ [b]) (mk_file (bytes f) (pos f + 1) (S (calls f))) Hh')
    as (f' & R & E). exists f'. by rewrite R, <- app_assoc.
Qed.

(** Positions as the file keeps them. *)
Definition disk_positions (ps : list Z) : list Z := wrapu 32 <$> ps.

Lemma read_positions_ok ps : forall acc f, holds (bytes f) (pos f) (positions_image ps) ->
  exists f', read_positions fails (length ps) acc f = Ok (acc ++ disk_positions ps, f') /\ bytes f' = bytes f.
Proof.
  induction ps as [|p ps IH]; intros acc f Hh; [exists f; cbn; by rewrite app_nil_r|]. cbn [length read_positions].
  rewrite positions_image_cons in Hh. apply holds_app in Hh as [Hh1 Hh2]. rewrite image_length_nat in Hh2.
  pose proof (wrapu_range 32 p ltac:(lia)).
  step (read_one_ok (mk_position (u32 p)) f Hh1 ltac:(sound_solve) ltac:(done)). cbn [position].
  destruct (IH (acc ++ [u32 p]) (mk_file (bytes f) (pos f + sizeof docid_element_position) (S (calls f)))) as (f' & R & E); [exact Hh2|].
  exists f'. by rewrite R, <- app_assoc.
Qed.

(** ** Chains *)

Section table.
Context {V : Type} (E : element V) {HE : Element E}.

(** The positions of the elements of a chain. *)
Definition located (F : list Z) (epos : Z) (x : positive * HTKeyValue V) : Prop :=
  0 <= epos /\ epos + el_size E x.2 < 2 ^ 32 /\ el_on E F epos x.2.

Lemma read_elements_ok F lo hi c : 0 <= lo -> hi < 2 ^ 32 -> chain_ok E c -> forall slots, chain_on E F slots lo hi c ->
  exists eps, Forall2 (located F) eps c /\ forall acc f, bytes f = F -> pos f = slots ->
    exists f', read_elements fails (length c) acc f = Ok (acc ++ eps, f') /\ bytes f' = F.
Proof.
  intros Hlo Hhi. induction 1 as [|x c Hx Hok IH]; intros slots Hc.
  - exists []. split; [constructor|]. intros acc f Hf _. exists f. by rewrite app_nil_r.
  - destruct (Hc 0%nat x eq_refl) as (epos & H1 & H2 & H3 & H4). rewrite Z.add_0_r in H3. pose proof (el_size_pos _ Hx).
    destruct (IH (slots + 4)) as (eps & HF & Hrun).
    { intros j y Hj. destruct (Hc (S j) y Hj) as (epos' & ? & ? & Hh & ?). exists epos'. split_and!; try done.
      by replace (slots + 4 + 4 * Z.of_nat j) with (slots + 4 * Z.of_nat (S j)) by lia. }
    exists (epos :: eps). split; [constructor; [|done]; split_and!; [lia|lia|done]|]. intros acc f Hf Hp. cbn [length read_elements].
    rewrite <- Hf, <- Hp in H3. step (read_one_ok (mk_element_pos epos) f H3 ltac:(sound_solve) ltac:(done)). cbn [element_position].
    destruct (Hrun (acc ++ [epos]) (mk_file (bytes f) (pos f + 4) (S (calls f)))) as (f' & R & E'); [done|cbn; lia|].
    exists f'. split; [|done]. etransitivity; [exact R|]. by rewrite <- app_assoc.
Qed.

Context (F : list Z) (off : Z) (t : HashTableRecord V).

(** A table on the file. *)
Record readable_table : Prop := {
  rt_on : table_on E F off t;
  rt_ok : table_ok E t;
  rt_off : 0 <= off /\ off + table_size E t < 2 ^ 32
}.
Definition reader_of : HashTableReader := mk_reader off (mk_list_header (num_buckets t)).

Lemma readable_bounds : readable_table -> 0 <= buckets_size E (buckets t) /\ off + 4 + 8 * num_buckets t + buckets_size E (buckets t) < 2 ^ 32.
Proof.
  intros [_ Hok [? ?]]. pose proof (buckets_size_nonneg E _ (table_ok_chains E t Hok)). unfold table_size in *. lia.
Qed.

Lemma new_HashTableReader_ok : readable_table -> reads (new_HashTableReader fails off) F reader_of.
Proof.
  intros Hr. pose proof (readable_bounds Hr). destruct Hr as [[Hh _] [Hnb _ _] Ho].
  apply (seek_read off (mk_list_header (num_buckets t))); [done|sound_solve|done|]. intros f Hf _. by exists f.
Qed.

(** The record of a bucket and the chain behind it. *)
Lemma bucket_on i c : readable_table -> buckets t !! i = Some c -> chain_ok E c /\ exists bpos,
  let len := Z.of_nat (length c) in
  holds F (off + 4 + 8 * Z.of_nat i) (disk_image (mk_bucket_rec len bpos)) /\ sound (mk_bucket_rec len bpos) /\ 0 <= bpos /\
  chain_on E F bpos (bpos + 4 * len) (bpos + bucket_size E c) c /\ bpos + bucket_size E c < 2 ^ 32.
Proof.
  intros Hr Hi. pose proof (readable_bounds Hr). destruct Hr as [[_ Hb] Hok Ho]. pose proof (tk_nb _ _ Hok).
  assert (Hc : chain_ok E c) by (eapply Forall_lookup_1; [by apply table_ok_chains|done]).
  split; [done|]. destruct (Hb i c Hi) as (bpos & H1 & H2 & H3 & H4 & _). exists bpos.
  pose proof (chain_size_nonneg E c Hc). unfold bucket_size, table_size in *. split_and!; [done| |lia|done|lia]. sound_solve.
Qed.

Lemma LookupElementPositions_ok k c : readable_table -> buckets t !! Z.to_nat (k mod num_buckets t) = Some c ->
  exists eps, reads (LookupElementPositions fails reader_of k) F eps /\ Forall2 (located F) eps c.
Proof.
  intros Hr Hi. pose proof (readable_bounds Hr). pose proof (tk_nb _ _ (rt_ok Hr)) as Hnb. pose proof (rt_off Hr) as [Ho _].
  pose proof (Z.mod_pos_bound k (num_buckets t) Hnb) as Hk.
  destruct (bucket_on _ c Hr Hi) as (Hc & bpos & H1 & H2 & H3 & H4 & H5). rewrite Z2Nat.id in H1 by lia.
  destruct (read_elements_ok F (bpos + 4 * Z.of_nat (length c)) (bpos + bucket_size E c) c ltac:(lia) H5 Hc bpos H4) as (eps & HF & Hrun).
  exists eps. split; [|done]. unfold LookupElementPositions. cbn [reader_of offset_ header_ list_buckets].
  change (sizeof BucketListHeader) with 4. change (sizeof bucket_rec) with 8.
  rewrite (proj2 (Z.eqb_neq _ 0)) by lia. rewrite wrapu_small by bound_lia. eapply reads_bind; [apply reads_ret|].
  eapply (seek_read _ (mk_bucket_rec (Z.of_nat (length c)) bpos)); [exact H1|done|done|]. intros f Hf _. cbn [chain_len bucket_position].
  destruct (Z.eqb_spec (Z.of_nat (length c)) 0) as [E0|_].
  - destruct c; [|done]. apply Forall2_nil_inv_r in HF as ->. by exists f.
  - unfold seek_to. rewrite bind_assoc. step (fseek_ok fails Hnf bpos f). cbn [Z.eqb ensure]. rewrite bind_ret, Nat2Z.id.
    by destruct (Hrun [] (mk_file (bytes f) bpos (S (calls f)))) as (f' & R & E'); [done|done|exists f'].
Qed.
End table.

(** ** The three readers *)

(** An element that is one structure followed by [data]. *)
Lemma seek_element {T} {P : Packed T} {L : PackedLaws T} {A} off (t : T) data (k : T -> M FILE A) F a :
  holds F off (disk_image t ++ data) -> sound t -> 0 < sizeof T ->
  (forall f, bytes f = F -> holds F (pos f) data -> exists f', k t f = Ok (a, f') /\ bytes f' = F) ->
  reads (do* seek_to fails off; let* x := read_one fails T in k x) F a.
Proof.
  intros [Hh Hd]%holds_app Hs Hsz Hk. apply (seek_read off t); [done..|]. intros f Hf Hp. apply Hk; [done|].
  rewrite image_length_nat in Hd. by rewrite Hp.
Qed.

Lemma find_docname_ok F k eps c : Forall2 (located doc_element F) eps c -> chain_ok doc_element c ->
  reads (find_docname fails eps k) F (value <$> find_kv c k).
Proof.
  induction 1 as [|epos [n [k' name]] eps c (H1 & H2 & H3) _ IH]; intros Hok; [apply reads_ret|].
  inversion Hok as [|? ? (Hk & Hl & Hb) Hok']; subst. cbn [snd doc_element el_size el_on key value] in *. cbn [find_docname].
  eapply seek_element; [exact H3|sound_solve|done|]. intros f Hf Hd. cbn [doc_docid filename_len find_kv key].
  destruct (k' =? k); [|by apply IH]. rewrite Nat2Z.id. rewrite <- Hf in Hd. destruct (read_string_ok name [] f Hd) as (f1 & R1 & E1). step R1.
  exists f1. by rewrite E1.
Qed.

Lemma find_positions_ok F k eps c : Forall2 (located postings_element F) eps c -> chain_ok postings_element c ->
  reads (find_positions fails eps k) F ((fun kv => disk_positions (value kv)) <$> find_kv c k).
Proof.
  induction 1 as [|epos [n [k' ps]] eps c (H1 & H2 & H3) _ IH]; intros Hok; [apply reads_ret|].
  inversion Hok as [|? ? (Hk & Hne) Hok']; subst. cbn [snd postings_element el_size el_on key value] in *. cbn [find_positions].
  eapply seek_element; [exact H3|sound_solve|done|]. intros f Hf Hd. cbn [el_docid num_positions find_kv key].
  destruct (k' =? k); [|by apply IH]. rewrite Nat2Z.id. rewrite <- Hf in Hd. destruct (read_positions_ok ps [] f Hd) as (f1 & R1 & E1). step R1.
  exists f1. by rewrite E1.
Qed.

Lemma elements_nil {V} (E : element V) F eps c : Forall2 (located E F) eps c -> (length eps =? 0)%nat = true -> c = [].
Proof. intros HF H0. apply Nat.eqb_eq in H0. destruct eps; [|done]. by inversion HF. Qed.

(** [LookupDocID] finds what the table in memory holds. *)
Lemma LookupDocID_ok {V B} (E : element V) `{!Element E} (find : list Z -> Z -> M FILE (option B)) (g : V -> B) F off t k m :
  (forall eps c, Forall2 (located E F) eps c -> chain_ok E c -> reads (find eps k) F ((fun kv => g (value kv)) <$> find_kv c k)) ->
  wf m t -> readable_table E F off t ->
  reads (let* elements := LookupElementPositions fails (reader_of off t) k in
         if (length elements =? 0)%nat then ret None else find elements k) F (g <$> view t !! k).
Proof.
  intros Hfind Hwf Hr. destruct (bucket_index m t k Hwf) as (i & c & Hi & Hk & _).
  assert (Hv : g <$> view t !! k = (fun kv => g (value kv)) <$> find_kv c k)
    by (rewrite (view_lookup m t i c k) by done; by destruct (find_kv c k)).
  unfold HashKeyToBucketNum in Hi. destruct (LookupElementPositions_ok E F off t k c Hr) as (eps & Hl & HF); [by rewrite <- Hi, Nat2Z.id|].
  destruct (bucket_on E F off t i c Hr Hk) as [Hc _]. eapply reads_bind; [exact Hl|]. rewrite Hv.
  destruct (length eps =? 0)%nat eqn:E0; [|by apply Hfind]. rewrite (elements_nil _ _ _ _ HF E0). apply reads_ret.
Qed.

Lemma DocTable_LookupDocID_ok F off t k m : wf m t -> readable_table doc_element F off t ->
  reads (DocTable_LookupDocID fails (reader_of off t) k) F (view t !! k).
Proof.
  intros Hwf Hr. pose proof (doc_element_laws). replace (view t !! k) with (id <$> view t !! k) by by destruct (view t !! k).
  apply (LookupDocID_ok doc_element (find_docname fails) id _ _ _ _ m); [|done|done]. intros eps c. apply find_docname_ok.
Qed.

Lemma DocIDTable_LookupDocID_ok F off t k m : wf m t -> readable_table postings_element F off t ->
  reads (DocIDTable_LookupDocID fails (reader_of off t) k) F (disk_positions <$> view t !! k).
Proof.
  intros Hwf Hr. pose proof (postings_element_laws).
  apply (LookupDocID_ok postings_element (find_positions fails) disk_positions _ _ _ _ m); [|done|done].
  intros eps c. apply find_positions_ok.
Qed.

(** The headers of a table of documents, bucket by bucket. *)
Definition docid_headers (c : bucket (list Z)) : list docid_element_header :=
  (fun x => mk_docid_header (key x.2) (Z.of_nat (length (value x.2)))) <$> c.

Lemma docid_chain_loop_ok F bpos lo hi brec c : 0 <= lo -> hi < 2 ^ 32 -> bucket_position brec = bpos ->
  chain_ok postings_element c -> forall (pre : nat) acc,
  Z.of_nat (pre + length c) < 2 ^ 32 -> chain_on postings_element F (bpos + 4 * Z.of_nat pre) lo hi c ->
  reads (docid_chain_loop fails (length c) brec (Z.of_nat pre) acc) F (acc ++ docid_headers c).
Proof.
  intros Hlo Hhi Hb. induction 1 as [|[n [k ps]] c [Hk Hne] Hc IH]; intros pre acc Hpre Hon; [rewrite app_nil_r; apply reads_ret|].
  cbn [snd key value] in *. cbn [length docid_chain_loop] in *. rewrite Hb. change (sizeof element_position_rec) with 4.
  destruct (Hon 0%nat _ eq_refl) as (epos & H1 & H2 & H3 & H4). cbn [snd postings_element el_size el_on key value] in *. rewrite Z.add_0_r in H3.
  replace (Z.of_nat pre * 4) with (4 * Z.of_nat pre) by lia.
  apply (seek_read _ (mk_element_pos epos)); [done|sound_solve|done|]. intros f Hf _. cbn [element_position]. revert f Hf.
  eapply (seek_element epos); [exact H4|sound_solve|done|]. intros f Hf _. revert f Hf.
  rewrite (wrapu_small 32) by bound_lia. replace (Z.of_nat pre + 1) with (Z.of_nat (S pre)) by lia.
  change (docid_headers ((n, mkKV k ps) :: c)) with ([mk_docid_header k (Z.of_nat (length ps))] ++ docid_headers c). rewrite app_assoc.
  apply IH; [lia|]. intros j y Hj. destruct (Hon (S j) y Hj) as (epos' & ? & ? & Hh & ?). exists epos'. split_and!; try done.
  by replace (bpos + 4 * Z.of_nat (S pre) + 4 * Z.of_nat j) with (bpos + 4 * Z.of_nat pre + 4 * Z.of_nat (S j)) by lia.
Qed.

Lemma docid_bucket_loop_ok F off t : readable_table postings_element F off t -> forall n i acc,
  (i + n = length (buckets t))%nat ->
  reads (docid_bucket_loop fails n (reader_of off t) (Z.of_nat i) acc) F (acc ++ docid_headers (concat (drop i (buckets t)))).
Proof.
  intros Hr. pose proof (postings_element_laws) as LE. pose proof (readable_bounds _ F off t Hr). pose proof (rt_off _ _ _ _ Hr).
  destruct (rt_ok _ _ _ _ Hr) as [Hnb Hl _]. induction n as [|n IH]; intros i acc Hi.
  - rewrite drop_ge by lia. cbn. rewrite app_nil_r. apply reads_ret.
  - destruct (lookup_lt_is_Some_2 (buckets t) i) as [c Hc]; [lia|]. cbn [docid_bucket_loop reader_of offset_]. change (sizeof bucket_rec) with 8.
    destruct (bucket_on _ F off t i c Hr Hc) as (Hok & bpos & H1 & H2 & H3 & H4 & H5).
    replace (4 + Z.of_nat i * 8 + off) with (off + 4 + 8 * Z.of_nat i) by lia.
    apply (seek_read _ (mk_bucket_rec (Z.of_nat (length c)) bpos)); [done|done|done|]. intros f Hf _. cbn [chain_len]. revert f Hf.
    rewrite Nat2Z.id, wrapu_small by bound_lia. replace (Z.of_nat i + 1) with (Z.of_nat (S i)) by lia.
    rewrite (drop_S _ _ _ Hc). cbn [concat]. unfold docid_headers. rewrite fmap_app, app_assoc. fold (docid_headers c).
    pose proof (chain_size_nonneg _ c Hok). unfold bucket_size in *.
    eapply reads_bind; [|apply IH; lia].
    apply (docid_chain_loop_ok F bpos (bpos + 4 * Z.of_nat (length c)) _ (mk_bucket_rec (Z.of_nat (length c)) bpos) c ltac:(lia) H5 eq_refl Hok 0%nat acc); [lia|].
    by rewrite Z.add_0_r.
Qed.

Lemma GetDocIDList_ok F off t : readable_table postings_element F off t ->
  reads (GetDocIDList fails (reader_of off t)) F (docid_headers (items t)).
Proof.
  intros Hr. destruct (rt_ok _ _ _ _ Hr) as [Hnb Hl _]. unfold GetDocIDList. cbn [reader_of header_ list_buckets].
  rewrite <- Hl. exact (docid_bucket_loop_ok F off t Hr (length (buckets t)) 0 [] eq_refl).
Qed.

(** ** Words *)

Section words.
Context (wdss : gmap positive (WordDocSet hash_ops)).

(** The first record of a chain for a word. *)
Fixpoint find_wds (c : bucket positive) (w : list Z) : option (WordDocSet hash_ops) :=
  match c with
  | [] => None
  | (_, kv) :: c' =>
      match wdss !! value kv with
      | Some wds => if decide (w = wds_word wds) then Some wds else find_wds c' w
      | None => find_wds c' w
      end
  end.

(** What looking up a word yields: a reader of the table of its documents. *)
Definition word_found (F : list Z) (o : option (WordDocSet hash_ops)) (r : option HashTableReader) : Prop :=
  match o with
  | Some wds => exists off, r = Some (reader_of off (docIDs wds)) /\ readable_table postings_element F off (docIDs wds)
  | None => r = None
  end.

Lemma find_word_ok F w eps c : Forall2 (located (word_element wdss) F) eps c -> chain_ok (word_element wdss) c ->
  exists r, reads (find_word fails eps w) F r /\ word_found F (find_wds c w) r.
Proof.
  induction 1 as [|epos [n kv] eps c (H1 & H2 & H3) _ IH]; intros Hok; [exists None; split; [apply reads_ret|done]|].
  inversion Hok as [|? ? Hx Hok']; subst. destruct (IH Hok') as (r' & Hrest & Hr').
  cbn [snd word_element el_size el_on el_ok key value] in *. destruct Hx as (wds & Hd & Hw & Hb & Htab).
  destruct H3 as (wds' & Hd' & Hh & Ht). rewrite Hd in Hd', H2. injection Hd' as <-. cbn [from_option] in H2.
  cbn [find_word find_wds]. rewrite Hd. set (wn := Z.of_nat (length (wds_word wds))) in *.
  pose proof (postings_element_laws) as LE. pose proof (table_size_pos _ _ Htab) as Hsz.
  set (h := table_size postings_element (docIDs wds)) in *.
  assert (Hrt : readable_table postings_element F (epos + 6 + wn) (docIDs wds)).
  { split; [done|done|]. fold h. lia. }
  destruct (decide (w = wds_word wds)) as [->|Hne].
  - exists (Some (reader_of (epos + 6 + wn) (docIDs wds))). split; [|by eexists].
    eapply seek_element; [exact Hh|sound_solve|done|]. intros f Hf Hdat. cbn [word_len]. fold wn. rewrite Z.eqb_refl. cbn [negb].
    rewrite <- Hf in Hdat. unfold wn at 1. rewrite Nat2Z.id.
    destruct (read_string_ok (wds_word wds) [] f Hdat) as (f1 & R1 & E1). step R1. rewrite bool_decide_true by done.
    rewrite wrapu_small by bound_lia. revert f1 R1 E1. intros f1 _ E1. rewrite Hf in E1. revert f1 E1.
    eapply reads_bind; [apply reads_dup|]. eapply reads_bind; [by apply (new_HashTableReader_ok postings_element)|]. apply reads_ret.
  - exists r'. split; [|done]. eapply seek_element; [exact Hh|sound_solve|done|]. intros f Hf Hdat. cbn [word_len]. fold wn.
    destruct (Z.eqb_spec wn (Z.of_nat (length w))) as [El|El]; cbn [negb]; [|by apply Hrest].
    rewrite <- Hf in Hdat. unfold wn at 1. rewrite Nat2Z.id.
    destruct (read_string_ok (wds_word wds) [] f Hdat) as (f1 & R1 & E1). step R1. rewrite bool_decide_false by done.
    apply Hrest. by rewrite E1.
Qed.

Lemma LookupWord_ok F off t w c m : wf m t -> readable_table (word_element wdss) F off t ->
  buckets t !! Z.to_nat (FNVHash64 w mod num_buckets t) = Some c ->
  exists r, reads (LookupWord fails (reader_of off t) w) F r /\ word_found F (find_wds c w) r.
Proof.
  intros Hwf Hr Hc. pose proof (word_element_laws wdss).
  destruct (LookupElementPositions_ok _ F off t _ c Hr Hc) as (eps & Hl & HF).
  destruct (bucket_on _ F off t _ c Hr Hc) as [Hok _]. destruct (find_word_ok F w eps c HF Hok) as (r & Hfind & Hr').
  exists r. split; [|done]. eapply reads_bind; [exact Hl|].
  destruct (length eps =? 0)%nat eqn:E0; [|done]. rewrite (elements_nil _ _ _ _ HF E0) in *. cbn in Hr'. subst r. apply reads_ret.
Qed.
End words.

(** ** Opening an index file *)

Definition header_of (F : list Z) : IndexFileHeader := toHostFormat (of_image (take 16 F)).

(** What the constructor demands of a file. *)
Definition accepted (validate : bool) (F : list Z) : Prop :=
  16 <= flen F /\ magic_number (header_of F) = MAGIC_NUMBER /\
  flen F = u32 (16 + doctable_size (header_of F) + index_size (header_of F)) /\
  (validate = true -> checksum (header_of F) = crc32 (drop 16 F)).
#[export] Instance accepted_dec validate F : Decision (accepted validate F).
Proof. unfold accepted. apply _. Defined.

Lemma fread_some sz nmemb f : 0 < sz -> 0 <= pos f <= flen (bytes f) ->
  exists n, n = Z.max 0 (Z.min nmemb ((flen (bytes f) - pos f) / sz)) /\
  fread fails sz nmemb f = Ok ((n, take (Z.to_nat (n * sz)) (drop (Z.to_nat (pos f)) (bytes f))),
    mk_file (bytes f) (pos f + n * sz) (S (calls f))).
Proof. intros Hs Hp. eexists. split; [reflexivity|]. unfold fread. by rewrite Hnf. Qed.

Lemma fold_buffer buf s : is_u 32 s -> Forall byte buf -> fold_bytes buf (mk_crc s false) = Ok (mk_crc (crc_from s buf) false).
Proof.
  intros Hs Hb. revert s Hs. induction Hb as [|b buf Hb _ IH]; intros s Hs; [done|]. cbn [fold_bytes rbind].
  rewrite FoldByteIntoCRC_ok by done. apply IH, bits_step_range, lxor_u; [done|done|]. unfold byte in Hb. bound_lia.
Qed.

Lemma crc_from_app s xs ys : crc_from s (xs ++ ys) = crc_from (crc_from s xs) ys.
Proof. apply fold_left_app. Qed.

(** The loop reads the rest of the file, 512 bytes at a time. *)
Lemma validate_loop_ok fuel : forall s f, Forall byte (bytes f) -> is_u 32 s -> 0 <= pos f <= flen (bytes f) -> flen (bytes f) < 2 ^ 32 ->
  flen (bytes f) - pos f <= 512 * Z.of_nat fuel ->
  exists f', validate_loop fails (S fuel) (flen (bytes f) - pos f) (mk_crc s false) f =
    Ok (mk_crc (crc_from s (drop (Z.to_nat (pos f)) (bytes f))) false, f') /\ bytes f' = bytes f.
Proof.
  induction fuel as [|fuel IH]; intros s f Hb Hs Hp H32 Hfuel; cbn [validate_loop].
  - destruct (Z.ltb_spec 0 (flen (bytes f) - pos f)); [lia|]. exists f. split; [|done]. unfold flen in *. by rewrite drop_ge by lia.
  - destruct (Z.ltb_spec 0 (flen (bytes f) - pos f)) as [Hlt|Hge].
    2:{ exists f. split; [|done]. unfold flen in *. by rewrite drop_ge by lia. }
    destruct (fread_some 1 512 f ltac:(done) Hp) as (n & Hn & R). step R. rewrite Z.div_1_r in Hn.
    set (buf := take (Z.to_nat (n * 1)) (drop (Z.to_nat (pos f)) (bytes f))).
    unfold bind at 1. rewrite fold_buffer by (done || by apply Forall_take, Forall_drop). rewrite wrapu_small by bound_lia.
    destruct (IH (crc_from s buf) (mk_file (bytes f) (pos f + n * 1) (S (calls f)))) as (f' & R' & E'); cbn [bytes pos]; try done.
    + apply crc_from_range; [done|]. by apply Forall_take, Forall_drop.
    + lia.
    + lia.
    + exists f'. split; [|done]. cbn [bytes pos] in R'. replace (flen (bytes f) - pos f - n) with (flen (bytes f) - (pos f + n * 1)) by lia.
      etransitivity; [exact R'|]. rewrite <- crc_from_app. do 4 f_equal. rewrite Z2Nat.inj_add, <- drop_drop by lia. by apply take_drop.
Qed.

Lemma read_file_header F k : 
  read_one fails IndexFileHeader (mk_file F 0 k) =
    if decide (16 <= flen F) then Ok (header_of F, mk_file F 16 (S k)) else Err VerifyFailed.
Proof.
  unfold read_one, read_struct. rewrite bind_assoc. change (sizeof IndexFileHeader) with 16.
  destruct (fread_some 16 1 (mk_file F 0 k)) as (n & Hn & R); [done|cbn; unfold flen; lia|]. step R. cbn [bytes pos calls] in *.
  rewrite bind_ret. cbn [drop Z.to_nat] in *. rewrite Z.sub_0_r in Hn. destruct (decide (16 <= flen F)) as [H|H].
  - assert (1 <= flen F / 16) by (apply Z.div_le_lower_bound; lia). replace n with 1 by lia. done.
  - rewrite Z.div_small in Hn by (unfold flen in *; lia). by replace n with 0 by lia.
Qed.

(** The constructor's result: the header of an accepted file, an abort otherwise. *)
Definition opened (validate : bool) (F : list Z) (r : res (IndexFileHeader * FILE)) : Prop :=
  if decide (accepted validate F) then exists f', r = Ok (header_of F, f') /\ bytes f' = F else r = Err VerifyFailed.

Lemma not_opened validate F : ~ accepted validate F -> opened validate F (Err VerifyFailed).
Proof. intros H. unfold opened. by rewrite decide_False. Qed.

Lemma is_opened validate F f' : accepted validate F -> bytes f' = F -> opened validate F (Ok (header_of F, f')).
Proof. intros H Hf. unfold opened. rewrite decide_True by done. by exists f'. Qed.

Lemma new_FileIndexReader_ok F k fuel validate : Forall byte F -> flen F < 2 ^ 32 -> flen F <= 512 * Z.of_nat fuel ->
  opened validate F (new_FileIndexReader fails (S fuel) validate (mk_file F 0 k)).
Proof.
  intros Hb H32 Hfuel. unfold new_FileIndexReader, bind at 1. rewrite read_file_header.
  destruct (decide (16 <= flen F)) as [H16|H16]; [|apply not_opened; unfold accepted; tauto]. set (h := header_of F).
  destruct (Z.eqb_spec (magic_number h) MAGIC_NUMBER) as [Hm|Hm]; [|apply not_opened; unfold accepted; tauto]. cbn [ensure]. rewrite bind_ret.
  step (must_succeed_ok fails Hnf (mk_file F 16 (S k))). rewrite bind_gets. cbn [bytes pos calls]. fold (flen F).
  change (sizeof IndexFileHeader) with 16. rewrite (wrapu_small 32 (flen F)) by (unfold flen in *; lia).
  destruct (Z.eqb_spec (flen F) (u32 (16 + doctable_size h + index_size h))) as [Hs|Hs]; [|apply not_opened; unfold accepted; tauto].
  cbn [ensure]. rewrite bind_ret. destruct validate; [|by apply is_opened].
  assert (El : u32 (doctable_size h + index_size h) = flen F - 16).
  { unfold wrapu in *. rewrite <- (Z.mod_small (flen F - 16) (2 ^ 32)) by lia.
    rewrite Hs, Zminus_mod_idemp_l. f_equal. lia. }
  rewrite El. destruct (validate_loop_ok fuel 0xFFFFFFFF (mk_file F 16 (S (S k)))) as (f' & R & E); cbn [bytes pos]; [done|done|lia|done|lia|].
  cbn [bytes pos] in R. rewrite bind_assoc. step R. change (Z.to_nat 16) with 16%nat.
  change ((GetFinalCRC (mk_crc (crc_from 0xFFFFFFFF (drop 16 F)) false)).1) with (crc32 (drop 16 F)).
  destruct (Z.eqb_spec (crc32 (drop 16 F)) (checksum h)) as [Hc|Hc]; cbn [ensure].
  - rewrite bind_ret. by apply is_opened.
  - apply not_opened. intros (_ & _ & _ & H). apply Hc. symmetry. by apply H.
Qed.
End reader.
