(* ===== verification/IndexQuery.v ===== *)
(** Queries over index files, [uw_cse333/hw/hw3/QueryProcessor.cc], and the two programs:
    [buildfileindex.cc] crawls a tree and writes its index, [filesearchshell.cc] answers
    the lines of its input from index files.  A [std::map] is a finite map that is walked
    in the order of its keys; [std::sort] is a parameter.  Files are opened, read and
    closed one descriptor per index, and the calls on each have an oracle of their own.
    The messages of [buildfileindex] and the release of objects are left out. *)
From S2P Require Import Prelude Disk Alloc HashTable Table DocTable FileParser FileCrawler MemIndex IndexWriter IndexReader.
Open Scope Z_scope.

Record QueryResult : Type := mk_result { document_name : list Z; result_rank : Z }.
#[export] Instance QueryResult_eq_dec : EqDecision QueryResult.
Proof. solve_decision. Defined.

(** [operator<] of [QueryResult]: the better rank first. *)
Definition result_lt (a b : QueryResult) : bool := result_rank b <? result_rank a.

(** [std::string]'s order, and the entries of a map in it. *)
Fixpoint string_le (a b : list Z) : bool :=
  match a, b with
  | [], _ => true
  | _ :: _, [] => false
  | x :: a', y :: b' => if x =? y then string_le a' b' else x <? y
  end.
Definition entry_le (x y : list Z * Z) : Prop := string_le x.1 y.1 = true.
#[export] Instance entry_le_dec : RelDecision entry_le.
Proof. intros x y. unfold entry_le. apply _. Defined.
Definition map_entries (m : gmap (list Z) Z) : list (list Z * Z) := merge_sort entry_le (map_to_list m).

Section index.
Context (fails : nat -> bool).

(** *** One index file *)

(** [for (const auto& docidheader : dilist)]; the maps are [ranks] and [tmpranks]. *)
Fixpoint docs_loop (j : nat) (dReader : HashTableReader) (dilist : list docid_element_header)
    (ranks tmpranks : gmap (list Z) Z) : M FILE (gmap (list Z) Z) :=
  match dilist with
  | [] => ret tmpranks
  | docidheader :: dilist' =>
      let* docname := DocTable_LookupDocID fails dReader (el_docid docidheader) in
      let* docname := get_or VerifyFailed docname in
      let n := num_positions docidheader in
      if (j =? 0)%nat || (0 <? n) && bool_decide (is_Some (ranks !! docname)) then
        let r := default 0 (ranks !! docname) in
        docs_loop j dReader dilist' (<[docname := r]> ranks) (<[docname := u32 (r + n)]> tmpranks)
      else docs_loop j dReader dilist' ranks tmpranks
  end.

(** [for (size_t j = 0; j < query.size(); ++j)] *)
Fixpoint words_loop (j : nat) (dReader iReader : HashTableReader) (query : list (list Z)) (ranks : gmap (list Z) Z)
    : M FILE (gmap (list Z) Z) :=
  match query with
  | [] => ret ranks
  | word :: query' =>
      let* diReader := LookupWord fails iReader word in
      match diReader with
      | None => ret ∅
      | Some diReader =>
          let* dilist := GetDocIDList fails diReader in
          match dilist with
          | [] => ret ∅
          | _ =>
              let* tmpranks := docs_loop j dReader dilist ranks ∅ in
              words_loop (S j) dReader iReader query' tmpranks
          end
      end
  end.

(** The body of the constructor's loop, once the file is open. *)
Definition load_index (validate : bool) : M FILE (HashTableReader * HashTableReader) :=
  let* len := gets (fun f => length (bytes f)) in
  let* fir := new_FileIndexReader fails (S (S (len / 512))) validate in
  let* d := GetDocTableReader fails fir in
  let* i := GetIndexTableReader fails fir in
  ret (d, i).
End index.

(** *** Several *)

Section QueryProcessor.
Context (fails : nat -> nat -> bool).

(** Opens the files [indexlist] names, numbered from [i]. *)
Fixpoint load_indexes (i : nat) (validate : bool) (fs : gmap (list Z) (list Z)) (indexlist : list (list Z))
    : res (list (HashTableReader * HashTableReader) * list FILE) :=
  match indexlist with
  | [] => Ok ([], [])
  | name :: indexlist' =>
      match (if fails i 0%nat then None else fs !! name) with
      | None => Err VerifyFailed
      | Some content =>
          let? (readers, f) := load_index (fails i) validate (mk_file content 0 1) in
          let? (rs, files) := load_indexes (S i) validate fs indexlist' in
          Ok (readers :: rs, f :: files)
      end
  end.

Definition new_QueryProcessor (validate : bool) (fs : gmap (list Z) (list Z)) (indexlist : list (list Z))
    : res (list (HashTableReader * HashTableReader) * list FILE) :=
  if (length indexlist =? 0)%nat then Err VerifyFailed else load_indexes 0 validate fs indexlist.

(** A run on the [i]-th file. *)
Definition on_file {A} (i : nat) (m : M FILE A) : M (list FILE) A := fun fs =>
  match fs !! i with
  | None => Err BadAccess
  | Some f => match m f with Ok (a, f') => Ok (a, <[i := f']> fs) | Err e => Err e end
  end.

(** [for (size_t i = 0; i < arraylen_; ++i)] *)
Fixpoint indexes_loop (i : nat) (readers : list (HashTableReader * HashTableReader)) (query : list (list Z))
    (finalresult : list QueryResult) : M (list FILE) (list QueryResult) :=
  match readers with
  | [] => ret finalresult
  | (dReader, iReader) :: readers' =>
      let* ranks := on_file i (words_loop (fails i) 0 dReader iReader query ∅) in
      indexes_loop (S i) readers' query (finalresult ++ ((fun kv => mk_result kv.1 kv.2) <$> map_entries ranks))
  end.

(** [std::sort] *)
Context (sort : list QueryResult -> list QueryResult).

Definition ProcessQuery (readers : list (HashTableReader * HashTableReader)) (query : list (list Z))
    : M (list FILE) (list QueryResult) :=
  do* ensure VerifyFailed (negb (length query =? 0)%nat);
  let* finalresult := indexes_loop 0 readers query [] in
  ret (sort finalresult).

(** ** filesearchshell.cc *)

(** [std::getline]: the line and the rest, or the end of the input before a newline. *)
Fixpoint getline (input line : list Z) : option (list Z * list Z) :=
  match input with
  | [] => None
  | c :: input' => if c =? 10 then Some (line, input') else getline input' (line ++ [c])
  end.

(** The words [>>] extracts from a line; [word] is the one being read. *)
Fixpoint query_words (line word : list Z) : list (list Z) :=
  match line with
  | [] => match word with [] => [] | _ => [word] end
  | c :: line' =>
      if isspace c then
        match word with [] => query_words line' [] | _ => word :: query_words line' [] end
      else query_words line' (word ++ [c])
  end.

(** The lines of output for a query. *)
Definition enter_query : list Z := [69; 110; 116; 101; 114; 32; 113; 117; 101; 114; 121; 58; 10].
Definition show_result (qr : QueryResult) : list Z :=
  [32] ++ document_name qr ++ [40] ++ ((fun d => 48 + d) <$> digits 64 10 (result_rank qr)) ++ [41; 10].

(** [while (1)]; the fuel covers a line per character of input. *)
Fixpoint shell_loop (fuel : nat) (readers : list (HashTableReader * HashTableReader)) (input out : list Z)
    : M (list FILE) (list Z) :=
  match fuel with
  | O => fail OutOfFuel
  | S fuel' =>
      let out := out ++ enter_query in
      match getline input [] with
      | None => ret out
      | Some (queryLine, input') =>
          let* qrs := ProcessQuery readers (query_words queryLine []) in
          shell_loop fuel' readers input' (out ++ concat (show_result <$> qrs))
      end
  end.

(** The exit status and the output. *)
Definition filesearchshell_main (fs : gmap (list Z) (list Z)) (args : list (list Z)) (input : list Z) : res (Z * list Z) :=
  if (length args <? 1)%nat then Err (Exit 1)
  else
    let? (readers, files) := new_QueryProcessor true fs args in
    let? (out, _) := shell_loop (S (length input)) readers input [] files in
    Ok (0, out).
End QueryProcessor.

(** ** buildfileindex.cc *)

Record world : Type := mk_world { heap : store hash_ops; drive : disk }.

Definition on_heap {A} (m : M (store hash_ops) A) : M world A := fun w =>
  match m (heap w) with Ok (a, h) => Ok (a, mk_world h (drive w)) | Err e => Err e end.
Definition on_drive {A} (m : M disk A) : M world A := fun w =>
  match m (drive w) with Ok (a, d) => Ok (a, mk_world (heap w) d) | Err e => Err e end.

(** The exit status; [root] is what the first argument names. *)
Definition buildfileindex_main (fails : nat -> bool) (args : list (list Z)) (root : fs_node) : M world Z :=
  match args with
  | [crawlroot; indexname] =>
      let* (r, st) := on_heap (CrawlFileTree (ON := hash_ops) (OP := hash_ops) crawlroot root) in
      match st with
      | Some (dt, idx) =>
          do* ensure (Exit 1) (r =? 1);
          let* recs := on_heap (gets wdss) in
          let* idxlen := on_drive (WriteIndex fails recs idx dt indexname) in
          do* on_heap (lift (FreeDocTable dt));
          do* on_heap (FreeMemIndex idx);
          ret (if idxlen =? 0 then 1 else 0)
      | None => fail (Exit 1)
      end
  | _ => fail (Exit 1)
  end.
