(* ===== verification/IndexQuerySpec.v ===== *)
(** Queries over index files answer like the index in memory: a written file serves the
    maps it was written from, a query over several files returns for each the documents
    that have all its words, ranked, and building an index and querying it is exact for
    the crawled tree. *)
From Stdlib Require Import ZArith Lia.
From S2P Require Import Prelude Disk DiskSpec Alloc HashTable HashTableSpec Table DocTable FileParser FileParserSpec MemIndex MemIndexSpec FileCrawler FileCrawlerSpec IndexWriter IndexWriterSpec IndexReader IndexReaderSpec IndexQuery.
Open Scope Z_scope.

(** ** What an index file serves *)

Section serves.
Context (fails : nat -> bool) (Hnf : never_fails fails).

(** The headers of the documents of [dm], each once. *)
Record headers_of (dm : postings) (hs : list docid_element_header) : Prop := {
  hd_nodup : NoDup (el_docid <$> hs);
  hd_in : forall h, h ∈ hs <-> exists ps, dm !! el_docid h = Some ps /\ num_positions h = Z.of_nat (length ps)
}.

(** The readers [d] and [i] of the file [F] answer from the documents [docs], the [i]-th
    with id [i + 1], and the index [IX]. *)
Record serves (F : list Z) (docs : list (list Z)) (IX : gmap (list Z) postings) (d i : HashTableReader) : Prop := {
  sv_docs : forall id, reads (DocTable_LookupDocID fails d id) F (if decide (1 <= id) then docs !! Z.to_nat (id - 1) else None);
  sv_word : forall w, exists r, reads (LookupWord fails i w) F r /\
    match IX !! w with
    | None => r = None
    | Some dm => exists ditr hs, r = Some ditr /\ reads (GetDocIDList fails ditr) F hs /\ headers_of dm hs /\
        forall id, reads (DocIDTable_LookupDocID fails ditr id) F (disk_positions <$> dm !! id)
    end
}.

Lemma item_view {V} `{EqDecision V} m (t : HashTableRecord V) x : wf m t -> x ∈ items t -> view t !! key x.2 = Some (value x.2).
Proof.
  intros Hwf Hx. apply elem_of_list_to_map_1.
  - rewrite <- list_fmap_compose. by apply (items_keys m).
  - apply list_elem_of_fmap. by exists x.
Qed.

Lemma view_item {V} `{EqDecision V} m (t : HashTableRecord V) k v : wf m t -> view t !! k = Some v ->
  exists x, x ∈ items t /\ key x.2 = k /\ value x.2 = v.
Proof. intros Hwf Hv. apply elem_of_list_to_map_2, list_elem_of_fmap in Hv as (x & [= -> ->] & Hx). by exists x. Qed.

Lemma docid_headers_ok m t : wf m t -> headers_of (view t) (docid_headers (items t)).
Proof.
  intros Hwf. split.
  - unfold docid_headers. rewrite <- list_fmap_compose. by apply (items_keys m).
  - intros [id n]. unfold docid_headers. rewrite list_elem_of_fmap. cbn [el_docid num_positions]. split.
    + intros (x & [= -> ->] & Hx). exists (value x.2). split; [by eapply item_view|done].
    + intros (ps & Hv & ->). destruct (view_item m t id ps Hwf Hv) as (x & Hx & <- & <-). by exists x.
Qed.

Lemma find_wds_Some wdss c w wds : find_wds wdss c w = Some wds ->
  exists x, x ∈ c /\ wdss !! value x.2 = Some wds /\ wds_word wds = w.
Proof.
  induction c as [|[n kv] c IH]; [done|]. cbn [find_wds]. assert (Hrest : find_wds wdss c w = Some wds ->
    exists x, x ∈ (n, kv) :: c /\ wdss !! value x.2 = Some wds /\ wds_word wds = w).
  { intros H. destruct (IH H) as (x & Hx & Hd). exists x. split; [by right|done]. }
  destruct (wdss !! value kv) as [d|] eqn:Ed; [|done]. destruct (decide (w = wds_word d)) as [->|]; [|done].
  intros [= ->]. exists (n, kv). split_and!; [by left|done|done].
Qed.

Lemma find_wds_None wdss c w x d : find_wds wdss c w = None -> x ∈ c -> wdss !! value x.2 = Some d -> wds_word d <> w.
Proof.
  induction c as [|[n kv] c IH]; intros Hn Hx Hd; [by apply not_elem_of_nil in Hx|]. cbn [find_wds] in Hn.
  apply elem_of_cons in Hx as [->|Hx].
  - cbn [snd] in Hd. rewrite Hd in Hn. by destruct (decide (w = wds_word d)).
  - apply IH; [|done|done]. destruct (wdss !! value kv); [|done]. by destruct (decide _).
Qed.

(** The bucket of a word's hash holds its record, if any. *)
Lemma find_indexed_word s (mi : HashTableRecord positive) IX w i c :
  index_rep (OL := hash_ops) (OP := hash_ops) (LL := hash_laws) (LP := hash_laws) s mi IX ->
  wf (al s) mi -> Z.of_nat i = HashKeyToBucketNum mi (FNVHash64 w) -> buckets mi !! i = Some c ->
  match IX !! w, find_wds (wdss s) c w with
  | Some dm, Some d => docset s d w dm
  | None, None => True
  | _, _ => False
  end.
Proof.
  intros [(kvs & (_ & _ & _ & ->) & _ & Hf & Hb) _] Hwf Hi Hc. rewrite pairs_view in Hf, Hb.
  assert (Hin : forall x, x ∈ c -> x ∈ items mi).
  { intros x Hx. unfold items. rewrite (concat_split _ _ _ Hc). apply elem_of_app. right. apply elem_of_app. by left. }
  destruct (find_wds (wdss s) c w) as [d|] eqn:E.
  - apply find_wds_Some in E as (x & Hx & Hd & Hw).
    destruct (Hf _ _ (item_view _ _ _ Hwf (Hin x Hx))) as (w' & dm & d' & Hd' & _ & HIX & Hds).
    rewrite Hd in Hd'. injection Hd' as <-. pose proof (proj1 Hds) as Hw'. rewrite Hw in Hw'. subst w'. by rewrite HIX.
  - destruct (IX !! w) as [dm|] eqn:EIX; [|done]. destruct (Hb w dm EIX) as (p & d & Hp & Hd & [Hw _]).
    rewrite (view_lookup (al s) mi i c) in Hp by done. destruct (find_kv c (FNVHash64 w)) as [kv|] eqn:Ek; [|done].
    injection Hp as <-. assert (exists n, (n, kv) ∈ c) as [n Hn].
    { clear -Ek. induction c as [|[n kv'] c IH]; [done|]. cbn in Ek. destruct (key kv' =? FNVHash64 w).
      - injection Ek as ->. exists n. by left.
      - destruct (IH Ek) as [n' H]. exists n'. by right. }
    by apply (find_wds_None _ _ _ (n, kv) d E Hn Hd).
Qed.

(** A written index file serves what it was written from. *)
Lemma index_serves s m mi dt F IX docs :
  index_on (wdss s) mi dt F -> index_fits (wdss s) mi dt ->
  index_rep (OL := hash_ops) (OP := hash_ops) (LL := hash_laws) (LP := hash_laws) s mi IX ->
  registry (OS := hash_ops) (ON := hash_ops) (LS := hash_laws) (LN := hash_laws) m dt docs ->
  serves F docs IX (reader_of 16 (docid_to_docname dt)) (reader_of (16 + table_size doc_element (docid_to_docname dt)) mi).
Proof.
  intros [_ Hdocs Hwords _ _] [Kd Kw H32] Hix Hreg.
  pose proof (table_size_pos _ _ Kd). pose proof (table_size_pos _ _ Kw). split.
  - intros id. destruct Hreg as [(ids & names & (Hwf & _ & _ & ->) & _ & _ & _ & Hmap & _) _ _]. rewrite <- Hmap, pairs_view.
    apply (DocTable_LookupDocID_ok fails Hnf F 16 _ id m Hwf). split; [done|done|lia].
  - intros w. pose proof Hix as [(kvs & (Hwf & _ & _ & _) & _) _]. destruct (bucket_index _ _ (FNVHash64 w) Hwf) as (i & c & Hi & Hc & _).
    assert (Hr : readable_table (word_element (wdss s)) F (16 + table_size doc_element (docid_to_docname dt)) mi) by (split; [done|done|lia]).
    destruct (LookupWord_ok fails Hnf (wdss s) F _ mi w c (al s) Hwf Hr) as (r & HR & Hfound).
    { unfold HashKeyToBucketNum in Hi. by rewrite <- Hi, Nat2Z.id. }
    exists r. split; [done|]. pose proof (find_indexed_word s mi IX w i c Hix Hwf Hi Hc) as Hw.
    destruct (IX !! w) as [dm|], (find_wds (wdss s) c w) as [d|]; try done. destruct Hfound as (off & -> & Hrd).
    destruct Hw as (_ & kvs' & (Hwf' & _ & _ & ->) & <- & _). rewrite pairs_view.
    eexists _, _. split_and!; [done|by apply GetDocIDList_ok|by eapply docid_headers_ok|].
    intros id. by apply (DocIDTable_LookupDocID_ok fails Hnf F off _ id (al s)).
Qed.
End serves.

(** ** Queries *)

Lemma score_absent IX q w d : w ∈ q -> count IX w d = None -> score IX q d = None.
Proof.
  intros Hw Hc. induction q as [|w' q IH]; [by apply not_elem_of_nil in Hw|]. cbn. apply elem_of_cons in Hw as [->|Hw].
  - by rewrite Hc.
  - rewrite IH by done. by destruct (count IX w' d).
Qed.

(** The postings name registered documents only, none with an empty list. *)
Definition dense (docs : list (list Z)) (IX : gmap (list Z) postings) : Prop :=
  NoDup docs /\ forall w dm id ps, IX !! w = Some dm -> dm !! id = Some ps ->
    1 <= id /\ is_Some (docs !! Z.to_nat (id - 1)) /\ ps <> [].

(** The ranks of the documents that have all words of [q], by name. *)
Definition rank_map (docs : list (list Z)) (IX : gmap (list Z) postings) (q : list (list Z)) (m : gmap (list Z) Z) : Prop :=
  (forall i n, docs !! i = Some n -> m !! n = wrapu 32 <$> score IX q (Z.of_nat i + 1)) /\
  (forall n, n ∉ docs -> m !! n = None).

Section query.
Context (fails : nat -> bool) (F : list Z) (docs : list (list Z)) (IX : gmap (list Z) postings) (d i : HashTableReader).
Context (Hserves : serves fails F docs IX d i) (Hdense : dense docs IX).

Definition name_of (h : docid_element_header) : option (list Z) :=
  if decide (1 <= el_docid h) then docs !! Z.to_nat (el_docid h - 1) else None.

Lemma name_inj h h' n : name_of h = Some n -> name_of h' = Some n -> el_docid h = el_docid h'.
Proof.
  unfold name_of. destruct (decide (1 <= el_docid h)), (decide (1 <= el_docid h')); try done. intros H1 H2.
  pose proof (NoDup_lookup _ _ _ _ (proj1 Hdense) H1 H2). lia.
Qed.

(** What the loop over the documents of a word enters for one of them. *)
Definition entered (j : nat) (ranks tmp : gmap (list Z) Z) (h : docid_element_header) (n : list Z) : option Z :=
  if (j =? 0)%nat || (0 <? num_positions h) && bool_decide (is_Some (ranks !! n))
  then Some (u32 (default 0 (ranks !! n) + num_positions h)) else tmp !! n.

Lemma docs_loop_ok j hs : NoDup (el_docid <$> hs) -> (forall h, h ∈ hs -> is_Some (name_of h)) -> forall ranks tmp,
  exists out, reads (docs_loop fails j d hs ranks tmp) F out /\
    (forall h n, h ∈ hs -> name_of h = Some n -> out !! n = entered j ranks tmp h n) /\
    (forall n, (forall h, h ∈ hs -> name_of h <> Some n) -> out !! n = tmp !! n).
Proof.
  induction hs as [|h hs IH]; intros Hnd Hnames ranks tmp.
  - exists tmp. split_and!; [apply reads_ret|by intros h n Hh%not_elem_of_nil|done].
  - inversion Hnd as [|? ? Hh Hnd']; subst. destruct (Hnames h ltac:(by left)) as [n Hn].
    assert (Hnames' : forall h', h' ∈ hs -> is_Some (name_of h')) by (intros h' Hh'; apply Hnames; by right).
    assert (Hother : forall h', h' ∈ hs -> name_of h' <> Some n).
    { intros h' Hh' Hn'. apply Hh. rewrite (name_inj h h' n Hn Hn'). by apply list_elem_of_fmap_2. }
    assert (Hread : reads (DocTable_LookupDocID fails d (el_docid h)) F (Some n)) by (rewrite <- Hn; apply (sv_docs _ _ _ _ _ _ Hserves)).
    set (cond := (j =? 0)%nat || (0 <? num_positions h) && bool_decide (is_Some (ranks !! n))).
    set (r := default 0 (ranks !! n)).
    set (ranks' := if cond then <[n := r]> ranks else ranks). set (tmp' := if cond then <[n := u32 (r + num_positions h)]> tmp else tmp).
    destruct (IH Hnd' Hnames' ranks' tmp') as (out & Hout & Hin & Hno). exists out. split_and!.
    + cbn [docs_loop]. eapply reads_bind; [exact Hread|]. eapply reads_bind; [apply reads_ret|]. fold cond r. subst ranks' tmp'. by destruct cond.
    + intros h' n' [->|Hh']%elem_of_cons Hn'.
      * rewrite Hn in Hn'. injection Hn' as <-. rewrite Hno by done. unfold entered. fold cond r. subst tmp'. destruct cond; [|done].
        by rewrite lookup_insert_eq.
      * assert (n <> n') by (intros ->; by apply (Hother h')). rewrite (Hin h' n' Hh' Hn'). unfold entered.
        subst ranks' tmp'. destruct cond; [|done]. by rewrite !lookup_insert_ne.
    + intros n' Hn'. assert (n <> n') by (intros ->; apply (Hn' h); [by left|done]).
      rewrite Hno by (intros h' Hh'; apply Hn'; by right). subst tmp'. destruct cond; [|done]. by rewrite lookup_insert_ne.
Qed.

Lemma rank_map_none q w : w ∈ q -> (forall id, count IX w id = None) -> rank_map docs IX q ∅.
Proof.
  intros Hw Hc. split; [|intros n _; apply lookup_empty]. intros k n _. by rewrite (score_absent IX q w), lookup_empty.
Qed.

Lemma docs_round q w dm hs ranks out j : IX !! w = Some dm -> headers_of dm hs ->
  (j = 0%nat /\ q = [] /\ ranks = ∅ \/ (0 < j)%nat /\ rank_map docs IX q ranks) ->
  (forall h n, h ∈ hs -> name_of h = Some n -> out !! n = entered j ranks ∅ h n) ->
  (forall n, (forall h, h ∈ hs -> name_of h <> Some n) -> out !! n = (∅ : gmap (list Z) Z) !! n) ->
  rank_map docs IX (q ++ [w]) out.
Proof.
  intros HIX [Hnd Hhs] Hj Hin Hno. split.
  - intros k n Hk. rewrite score_snoc. assert (Hcount : count IX w (Z.of_nat k + 1) = (fun ps => Z.of_nat (length ps)) <$> dm !! (Z.of_nat k + 1)).
    { unfold count. rewrite HIX. cbn. by destruct (dm !! _). }
    rewrite Hcount. assert (Hname : forall h, el_docid h = Z.of_nat k + 1 -> name_of h = Some n).
    { intros h Hh. unfold name_of. rewrite Hh, decide_True by lia. by replace (Z.to_nat _) with k by lia. }
    destruct (dm !! (Z.of_nat k + 1)) as [ps|] eqn:Eps; cbn [fmap option_fmap option_map].
    + set (h := mk_docid_header (Z.of_nat k + 1) (Z.of_nat (length ps))).
      rewrite (Hin h n) by (try apply Hhs; try apply Hname; by (exists ps) || done).
      assert (0 < Z.of_nat (length ps)) by (destruct (proj2 Hdense w dm _ ps HIX Eps) as (_ & _ & Hps); destruct ps; [done|cbn; lia]).
      unfold entered. cbn [num_positions h]. rewrite (proj2 (Z.ltb_lt 0 _)) by done. cbn [andb].
      destruct Hj as [(-> & -> & ->)|[Hj Hr]]; [by rewrite lookup_empty|]. rewrite (proj2 (Nat.eqb_neq _ _)) by lia. cbn [orb].
      rewrite (proj1 Hr k n Hk). destruct (score IX q (Z.of_nat k + 1)) as [a|]; cbn; [|done].
      f_equal. unfold wrapu. by rewrite Zplus_mod_idemp_l.
    + rewrite Hno; [by destruct (score IX q _)|]. intros h Hh Hn. apply Hhs in Hh as (ps & Hps & _).
      assert (E : el_docid h = Z.of_nat k + 1) by (apply (name_inj h (mk_docid_header (Z.of_nat k + 1) 0) n); [done|by apply Hname]).
      by rewrite E, Eps in Hps.
  - intros n Hn. rewrite Hno; [apply lookup_empty|]. intros h _ Hh. apply Hn. unfold name_of in Hh. destruct (decide _); [|done].
    by eapply list_elem_of_lookup_2.
Qed.

Lemma words_loop_ok query : forall q ranks j,
  (j = 0%nat /\ q = [] /\ ranks = ∅ \/ (0 < j)%nat /\ rank_map docs IX q ranks) -> q ++ query <> [] ->
  exists out, reads (words_loop fails j d i query ranks) F out /\ rank_map docs IX (q ++ query) out.
Proof.
  induction query as [|w query IH]; intros q ranks j Hj Hne.
  - rewrite app_nil_r in *. exists ranks. split; [apply reads_ret|]. by destruct Hj as [(_ & -> & _)|[_ ?]].
  - assert (Hw : w ∈ q ++ w :: query) by (apply elem_of_app; right; by left).
    destruct (sv_word _ _ _ _ _ _ Hserves w) as (r & HR & Hr). cbn [words_loop]. destruct (IX !! w) as [dm|] eqn:EIX.
    2:{ subst r. exists ∅. split; [eapply reads_bind; [exact HR|apply reads_ret]|]. apply (rank_map_none _ w Hw). intros id. unfold count. by rewrite EIX. }
    destruct Hr as (ditr & hs & -> & Hlist & Hhs & _). destruct hs as [|h hs].
    + exists ∅. split; [eapply reads_bind; [exact HR|]; eapply reads_bind; [exact Hlist|apply reads_ret]|].
      apply (rank_map_none _ w Hw). intros id. unfold count. rewrite EIX. cbn. destruct (dm !! id) as [ps|] eqn:E; [|done]. exfalso.
      apply (not_elem_of_nil (mk_docid_header id (Z.of_nat (length ps)))), Hhs. by exists ps.
    + destruct (docs_loop_ok j (h :: hs) (hd_nodup _ _ Hhs)) with (ranks := ranks) (tmp := ∅ : gmap (list Z) Z) as (tmp & Htmp & Hin & Hno).
      { intros h' (ps & Hps & _)%Hhs. destruct (proj2 Hdense w dm _ ps EIX Hps) as (H1 & H2 & _). unfold name_of. by rewrite decide_True. }
      destruct (IH (q ++ [w]) tmp (S j)) as (out & Hout & Hmap).
      { right. split; [lia|]. by apply (docs_round q w dm (h :: hs) ranks tmp j). }
      { by destruct q. }
      rewrite <- app_assoc in Hmap. exists out. split; [|done].
      eapply reads_bind; [exact HR|]. eapply reads_bind; [exact Hlist|]. eapply reads_bind; [exact Htmp|]. exact Hout.
Qed.
End query.

(** The results of one index: each document with all the words of [q], once, and its rank. *)
Definition answers (docs : list (list Z)) (IX : gmap (list Z) postings) (q : list (list Z)) (rs : list QueryResult) : Prop :=
  NoDup (document_name <$> rs) /\
  forall r, r ∈ rs <-> exists i n, docs !! i = Some (document_name r) /\ score IX q (Z.of_nat i + 1) = Some n /\ result_rank r = u32 n.

Lemma map_entries_answers docs IX q m : NoDup docs -> rank_map docs IX q m ->
  answers docs IX q ((fun kv => mk_result kv.1 kv.2) <$> map_entries m).
Proof.
  intros Hnd [Hin Hout]. unfold map_entries. pose proof (merge_sort_Permutation entry_le (map_to_list m)) as HP. split.
  - rewrite <- list_fmap_compose. rewrite (fmap_Permutation _ _ _ HP). apply NoDup_fst_map_to_list.
  - intros [n rk]. cbn [document_name result_rank]. rewrite (fmap_Permutation _ _ _ HP), list_elem_of_fmap. split.
    + intros ([n' rk'] & [= -> ->] & Hm%elem_of_map_to_list). destruct (decide (n' ∈ docs)) as [[i Hi]%list_elem_of_lookup|Hno].
      * rewrite (Hin i n' Hi) in Hm. destruct (score IX q (Z.of_nat i + 1)) as [a|] eqn:E; [|done]. injection Hm as <-. by exists i, a.
      * by rewrite (Hout n' Hno) in Hm.
    + intros (i & a & Hi & Hs & ->). exists (n, u32 a). split; [done|]. apply elem_of_map_to_list. by rewrite (Hin i n Hi), Hs.
Qed.

Abbreviation corpus := (list (list Z) * gmap (list Z) postings)%type.

Section queries.
Context (fails : nat -> nat -> bool) (Hnf : forall i, never_fails (fails i)).

(** The open files, from the [i]-th on, serve the corpora. *)
Fixpoint ready (i : nat) (readers : list (HashTableReader * HashTableReader)) (corpora : list corpus) (fs : list FILE) : Prop :=
  match readers, corpora with
  | [], [] => True
  | (d, ir) :: readers', (docs, IX) :: corpora' =>
      (exists f, fs !! i = Some f /\ serves (fails i) (bytes f) docs IX d ir) /\ dense docs IX /\ ready (S i) readers' corpora' fs
  | _, _ => False
  end.

Lemma ready_same readers : forall i corpora fs fs', bytes <$> fs' = bytes <$> fs -> ready i readers corpora fs -> ready i readers corpora fs'.
Proof.
  induction readers as [|[d ir] readers IH]; intros i [|[docs IX] corpora] fs fs' Hb; try done. cbn. intros ((f & Hf & Hs) & Hd & Hr).
  split_and!; [|done|by eapply IH].
  assert (Hl : (bytes <$> fs') !! i = Some (bytes f)) by (by rewrite Hb, list_lookup_fmap, Hf).
  rewrite list_lookup_fmap in Hl. destruct (fs' !! i) as [f'|]; [|done]. injection Hl as E. exists f'. by rewrite E.
Qed.

Lemma on_file_reads {A} i (m : M FILE A) fs f a : fs !! i = Some f -> reads m (bytes f) a ->
  exists fs', on_file i m fs = Ok (a, fs') /\ bytes <$> fs' = bytes <$> fs.
Proof.
  intros Hf Hm. destruct (Hm f eq_refl) as (f' & R & E). unfold on_file. rewrite Hf, R. eexists. split; [done|].
  rewrite list_fmap_insert, E. apply list_insert_id. by rewrite list_lookup_fmap, Hf.
Qed.

Lemma indexes_loop_ok q readers : q <> [] -> forall i corpora fs acc, ready i readers corpora fs ->
  exists rss fs', indexes_loop fails i readers q acc fs = Ok (acc ++ concat rss, fs') /\ bytes <$> fs' = bytes <$> fs /\
    Forall2 (fun c rs => answers c.1 c.2 q rs) corpora rss.
Proof.
  intros Hq. induction readers as [|[d ir] readers IH]; intros i [|[docs IX] corpora] fs acc Hr; try done.
  - exists [], fs. cbn. by rewrite app_nil_r.
  - destruct Hr as ((f & Hf & Hs) & Hd & Hr).
    destruct (words_loop_ok (fails i) (bytes f) docs IX d ir Hs Hd q [] ∅ 0) as (m & Hm & Hmap); [by left|done|].
    destruct (on_file_reads i _ fs f m Hf Hm) as (fs1 & R1 & E1). cbn [indexes_loop]. step R1.
    destruct (IH (S i) corpora fs1 (acc ++ ((fun kv => mk_result kv.1 kv.2) <$> map_entries m))) as (rss & fs2 & R2 & E2 & HF);
      [by eapply ready_same|].
    eexists (_ :: rss), fs2. rewrite R2. cbn [concat]. rewrite <- app_assoc. split_and!; [done|by rewrite E2|].
    constructor; [|done]. apply map_entries_answers; [apply Hd|done].
Qed.

Context (sort : list QueryResult -> list QueryResult).
(** [std::sort] permutes its range into an order [operator<] does not contradict. *)
Context (sort_perm : forall rs, sort rs ≡ₚ rs).
Context (sort_sorted : forall rs, StronglySorted (fun a b => result_lt b a = false) (sort rs)).

(** The results of a query over several indexes: those of each, sorted together. *)
Definition query_results (corpora : list corpus) (q : list (list Z)) (rs : list QueryResult) : Prop :=
  StronglySorted (fun a b => result_rank b <= result_rank a) rs /\
  exists rss, rs ≡ₚ concat rss /\ Forall2 (fun c rs => answers c.1 c.2 q rs) corpora rss.

Lemma ProcessQuery_ok q readers corpora fs : q <> [] -> ready 0 readers corpora fs ->
  exists rs fs', ProcessQuery fails sort readers q fs = Ok (rs, fs') /\ bytes <$> fs' = bytes <$> fs /\ query_results corpora q rs.
Proof.
  intros Hq Hr. unfold ProcessQuery. assert (Hl : (length q =? 0)%nat = false) by (by destruct q). rewrite Hl. cbn [negb ensure]. rewrite bind_ret.
  destruct (indexes_loop_ok q readers Hq 0 corpora fs [] Hr) as (rss & fs' & R & E & HF). step R. exists (sort (concat rss)), fs'.
  split_and!; [done|done|split; [|by exists rss]]. pose proof (sort_sorted (concat rss)) as Hs.
  induction Hs as [|x xs _ IH Hx]; [constructor|]. constructor; [done|]. eapply Forall_impl; [exact Hx|]. intros y Hy. cbn in Hy.
  unfold result_lt in Hy. apply Z.ltb_ge in Hy. lia.
Qed.

(** *** The shell *)

Lemma getline_line l : Forall (fun c => c <> 10) l -> forall rest acc, getline (l ++ 10 :: rest) acc = Some (acc ++ l, rest).
Proof.
  induction 1 as [|c l Hc _ IH]; intros rest acc; cbn; [by rewrite app_nil_r|]. rewrite (proj2 (Z.eqb_neq _ _)) by done.
  by rewrite IH, <- app_assoc.
Qed.

Lemma getline_end l : Forall (fun c => c <> 10) l -> forall acc, getline l acc = None.
Proof. induction 1 as [|c l Hc _ IH]; intros acc; cbn; [done|]. rewrite (proj2 (Z.eqb_neq _ _)) by done. apply IH. Qed.

(** What the shell prints for the results of its queries. *)
Definition transcript (qrss : list (list QueryResult)) : list Z :=
  concat ((fun qrs => enter_query ++ concat (show_result <$> qrs)) <$> qrss) ++ enter_query.

Lemma shell_loop_ok readers corpora lines : Forall (fun l => Forall (fun c => c <> 10) l /\ query_words l [] <> []) lines ->
  forall rest, Forall (fun c => c <> 10) rest -> forall fuel fs out, ready 0 readers corpora fs -> (length lines < fuel)%nat ->
  exists qrss fs', shell_loop fails sort fuel readers (concat ((fun l => l ++ [10]) <$> lines) ++ rest) out fs = Ok (out ++ transcript qrss, fs') /\
    Forall2 (fun l => query_results corpora (query_words l [])) lines qrss.
Proof.
  induction 1 as [|l lines [Hl Hq] _ IH]; intros rest Hrest [|fuel] fs out Hr Hfuel; cbn [length] in Hfuel; try lia; cbn [shell_loop].
  - cbn [fmap list_fmap concat app]. rewrite getline_end by done. exists [], fs. split; [done|constructor].
  - cbn [fmap list_fmap concat]. rewrite <- !app_assoc. cbn [app]. rewrite getline_line by done. cbn [app].
    destruct (ProcessQuery_ok (query_words l []) readers corpora fs Hq Hr) as (rs & fs1 & R1 & E1 & Hrs). step R1.
    destruct (IH rest Hrest fuel fs1 ((out ++ enter_query) ++ concat (show_result <$> rs))) as (qrss & fs2 & R2 & HF);
      [by eapply ready_same|lia|].
    exists (rs :: qrss), fs2. split; [|by constructor]. etransitivity; [exact R2|]. unfold transcript. cbn [fmap list_fmap concat].
    by rewrite <- !app_assoc.
Qed.

(** A blank line stops the shell. *)
Lemma shell_loop_blank readers corpora lines : Forall (Forall (fun c => c <> 10)) lines ->
  Exists (fun l => query_words l [] = []) lines ->
  forall rest fuel fs out, ready 0 readers corpora fs -> (length lines < fuel)%nat ->
  shell_loop fails sort fuel readers (concat ((fun l => l ++ [10]) <$> lines) ++ rest) out fs = Err VerifyFailed.
Proof.
  induction 1 as [|l lines Hl _ IH]; intros Hex rest [|fuel] fs out Hr Hfuel; cbn [length] in Hfuel; try lia; [by inversion Hex|].
  cbn [shell_loop fmap list_fmap concat]. rewrite <- !app_assoc. cbn [app]. rewrite getline_line by done. cbn [app].
  destruct (decide (query_words l [] = [])) as [E|Hq]; [by rewrite E|].
  destruct (ProcessQuery_ok (query_words l []) readers corpora fs Hq Hr) as (rs & fs1 & R1 & E1 & Hrs). step R1.
  apply IH; [by inversion Hex|by eapply ready_same|lia].
Qed.

Lemma lines_fuel lines (rest : list Z) : (length lines < S (length (concat ((fun l => l ++ [10%Z]) <$> lines) ++ rest)))%nat.
Proof.
  rewrite length_app. assert (length lines <= length (concat ((fun l => l ++ [10%Z]) <$> lines)))%nat; [|lia].
  induction lines as [|l lines IH]; [done|]. cbn [fmap list_fmap concat length] in *. rewrite !length_app. cbn [length]. lia.
Qed.
End queries.

(** ** Opening what was written *)

Lemma header_of_image F h : holds F 0 (disk_image h) -> sound h -> header_of F = h.
Proof.
  intros Hh Hs. unfold header_of. apply holds_take in Hh; [|done]. rewrite image_length_nat in Hh.
  change (take 16 F = disk_image h) in Hh. rewrite Hh.
  by apply of_disk_image.
Qed.

Section written.
Context (wdss : gmap positive (WordDocSet hash_ops)) (mi : HashTableRecord positive) (dt : DocTableRecord hash_ops hash_ops).
Abbreviation dsz := (table_size doc_element (docid_to_docname dt)).
Abbreviation msz := (table_size (word_element wdss) mi).
Context (Hfits : index_fits wdss mi dt).

Lemma written_header F : index_on wdss mi dt F -> header_of F = mk_header MAGIC_NUMBER (crc32 (drop 16 F)) dsz msz.
Proof.
  intros [Hh _ _ Hsz Ho]. destruct Hfits as [Kd Kw H32]. pose proof (table_size_pos _ _ Kd). pose proof (table_size_pos _ _ Kw).
  apply header_of_image; [done|]. assert (is_u 32 (crc32 (drop 16 F))).
  { apply lxor_u; [done| |done]. apply crc_from_range; [done|]. by apply Forall_drop. }
  unfold MAGIC_NUMBER. sound_solve.
Qed.

Lemma written_accepted F validate : index_on wdss mi dt F -> accepted validate F.
Proof.
  intros Hon. pose proof (written_header F Hon) as Hh. destruct Hon as [_ _ _ Hsz _].
  destruct Hfits as [Kd Kw H32]. pose proof (table_size_pos _ _ Kd). pose proof (table_size_pos _ _ Kw).
  unfold accepted. rewrite Hh. cbn [magic_number doctable_size index_size checksum]. split_and!; [lia|done| |done].
  by rewrite wrapu_small by bound_lia.
Qed.

Lemma load_index_ok fails F k validate : never_fails fails -> index_on wdss mi dt F ->
  exists f', load_index fails validate (mk_file F 0 k) = Ok ((reader_of 16 (docid_to_docname dt), reader_of (16 + dsz) mi), f') /\ bytes f' = F.
Proof.
  intros Hnf Hon. pose proof (written_header F Hon) as Hh. pose proof (written_accepted F validate Hon) as Ha.
  pose proof Hon as [_ Hd Hw Hsz Ho]. destruct Hfits as [Kd Kw H32]. pose proof (table_size_pos _ _ Kd). pose proof (table_size_pos _ _ Kw).
  unfold load_index. rewrite bind_gets. cbn [bytes].
  assert (Hfuel : flen F <= 512 * Z.of_nat (S (length F / 512))).
  { unfold flen. pose proof (Nat.div_mod_eq (length F) 512). pose proof (Nat.mod_upper_bound (length F) 512 ltac:(done)). lia. }
  pose proof (new_FileIndexReader_ok fails Hnf F k _ validate Ho ltac:(lia) Hfuel) as Hop. unfold opened in Hop.
  rewrite decide_True in Hop by done. destruct Hop as (f1 & R1 & E1). step R1. rewrite Hh. revert f1 R1 E1. intros f1 _ E1. revert f1 E1.
  change (sizeof IndexFileHeader) with 16. unfold GetDocTableReader, GetIndexTableReader. cbn [doctable_size].
  change (sizeof IndexFileHeader) with 16. rewrite wrapu_small by bound_lia.
  eapply (reads_bind _ _ F (reader_of 16 (docid_to_docname dt))).
  - eapply reads_bind; [by apply reads_dup|]. apply (new_HashTableReader_ok fails Hnf doc_element). split; [done|done|lia].
  - eapply (reads_bind _ _ F (reader_of (16 + dsz) mi)); [|apply reads_ret].
    eapply reads_bind; [by apply reads_dup|]. apply (new_HashTableReader_ok fails Hnf (word_element wdss)). split; [done|done|lia].
Qed.

(** A file that differs from a written one in at most four consecutive bytes of its
    tables does not open. *)
Lemma damaged_rejected F pre old new suf : index_on wdss mi dt F -> drop 16 F = pre ++ old ++ suf -> Forall byte new ->
  length new = length old -> (length old <= 4)%nat -> new <> old ->
  ~ accepted true (take 16 F ++ pre ++ new ++ suf).
Proof.
  intros Hon Hdrop Hnew Hl H4 Hne (_ & _ & _ & Hc). specialize (Hc eq_refl). pose proof (written_header F Hon) as Hh.
  pose proof (written_accepted F true Hon) as (H16 & _). pose proof (io_octets _ _ _ _ Hon) as Ho. unfold flen in H16.
  assert (Ht : length (take 16 F) = 16%nat) by (rewrite length_take; lia).
  unfold header_of in Hc, Hh. rewrite take_app_length', drop_app_length' in Hc by done. rewrite Hh in Hc. cbn [checksum] in Hc.
  symmetry in Hc. revert Hc. rewrite Hdrop. apply (crc32_detects pre old new suf); try done. rewrite <- Hdrop. by apply Forall_drop.
Qed.
End written.

(** A name and a word the layout has room for. *)
Definition name_fits (n : list Z) : Prop := Z.of_nat (length n) < 2 ^ 16 /\ Forall byte n.
Definition word_fits (w : list Z) : Prop := 0 < Z.of_nat (length w) < 2 ^ 16 /\ Forall byte w.

Abbreviation hash_index := (index_rep (OL := hash_ops) (OP := hash_ops) (LL := hash_laws) (LP := hash_laws)).
Abbreviation hash_registry := (registry (OS := hash_ops) (ON := hash_ops) (LS := hash_laws) (LN := hash_laws)).

Lemma hash_table_ok {V} `{EqDecision V} m (t : HashTableRecord V) (E : element V) : wf m t ->
  (forall k v, view t !! k = Some v -> el_ok E (mkKV k v)) -> table_ok E t.
Proof.
  intros Hwf Hok. split; [apply (wf_nb _ _ Hwf)|apply (wf_len _ _ Hwf)|]. intros [n [k v]] Hx.
  apply Hok. by apply (item_view m t (n, mkKV k v)).
Qed.

Lemma index_fits_of s mi dt IX docs : hash_index s mi IX -> hash_registry (al s) dt docs -> dense docs IX ->
  Forall name_fits docs -> (forall w, is_Some (IX !! w) -> word_fits w) ->
  16 + table_size doc_element (docid_to_docname dt) + table_size (word_element (wdss s)) mi < 2 ^ 32 ->
  index_fits (wdss s) mi dt.
Proof.
  intros Hix [(ids & names & (Hwf & _ & _ & ->) & _ & _ & _ & Hmap & _) _ Hcap] [_ Hd] Hn Hw H32.
  rewrite pairs_view in Hmap. assert (Hc64 : capacity < 2 ^ 64) by done. split; [| |done].
  - apply (hash_table_ok (al s)); [done|]. intros k v Hv. rewrite Hmap in Hv. cbn [doc_element el_ok key value].
    destruct (decide (1 <= k)); [|done]. pose proof (lookup_lt_Some _ _ _ Hv). destruct (Forall_lookup_1 _ _ _ _ Hn Hv). split_and!; [lia|lia|done|done].
  - destruct Hix as [(kvs & (Hwf' & _ & _ & ->) & _ & Hf & _) _]. rewrite pairs_view in Hf.
    apply (hash_table_ok (al s)); [done|]. intros h p Hp. destruct (Hf h p Hp) as (w & dm & d & Hd' & _ & HIX & Hword & kvs' & (Hwf2 & _ & _ & ->) & Hm & _).
    rewrite pairs_view in Hm. subst dm. destruct (Hw w ltac:(by eexists)) as [Hlen Hb]. rewrite <- Hword in Hlen, Hb.
    cbn [word_element el_ok value]. exists d. split_and!; [done|lia|lia|done|].
    apply (hash_table_ok (al s)); [done|]. intros id ps Hps. cbn [postings_element el_ok key value].
    destruct (Hd w _ id ps HIX Hps) as (H1 & [x Hx] & Hne). pose proof (lookup_lt_Some _ _ _ Hx). split; [lia|done].
Qed.

Lemma WriteIndex_ok fails wdss mi dt filename d : never_fails fails -> index_fits wdss mi dt ->
  exists F d', WriteIndex fails wdss mi dt filename d = Ok (flen F, d') /\ files d' = <[filename := F]> (files d) /\ index_on wdss mi dt F.
Proof.
  intros Hnf Hfits. destruct (WriteIndex_stream_ok fails Hnf wdss mi dt (S (disk_calls d)) Hfits) as (f' & R & Hon).
  unfold WriteIndex. rewrite Hnf, R. pose proof (written_accepted wdss mi dt Hfits _ true Hon) as (H16 & _).
  rewrite (proj2 (Z.eqb_neq _ 0)) by lia. by eexists _, _.
Qed.

(** C2: writing an index that fits the layout returns the size of the file it creates, and
    what was written can be read back.  The constructors accept the file, with or without
    validation; looking up a document id gives the registered name, looking up a word
    gives a reader exactly when the word is indexed, and that reader lists each document
    of the word once, with the number of its positions, and gives the positions in
    order.  If at most four consecutive bytes of the tables were changed instead, opening
    the file with validation aborts. *)
Theorem WriteIndex_roundtrip fails s mi dt IX docs filename d :
  never_fails fails -> hash_index s mi IX -> hash_registry (al s) dt docs -> dense docs IX ->
  Forall name_fits docs -> (forall w, is_Some (IX !! w) -> word_fits w) ->
  16 + table_size doc_element (docid_to_docname dt) + table_size (word_element (wdss s)) mi < 2 ^ 32 ->
  exists F d', WriteIndex fails (wdss s) mi dt filename d = Ok (flen F, d') /\ files d' = <[filename := F]> (files d) /\
    (forall rfails validate k, never_fails rfails -> exists dr ir f,
       load_index rfails validate (mk_file F 0 k) = Ok ((dr, ir), f) /\ serves rfails F docs IX dr ir) /\
    (forall rfails k pre old new suf, never_fails rfails -> drop 16 F = pre ++ old ++ suf -> Forall byte new ->
       length new = length old -> (length old <= 4)%nat -> new <> old ->
       load_index rfails true (mk_file (take 16 F ++ pre ++ new ++ suf) 0 k) = Err VerifyFailed).
Proof.
  intros Hnf Hix Hreg Hd Hn Hw H32. pose proof (index_fits_of s mi dt IX docs Hix Hreg Hd Hn Hw H32) as Hfits.
  destruct (WriteIndex_ok fails (wdss s) mi dt filename d Hnf Hfits) as (F & d' & R & Hfs & Hon). exists F, d'. split_and!; [done|done| |].
  - intros rfails validate k Hr. destruct (load_index_ok (wdss s) mi dt Hfits rfails F k validate Hr Hon) as (f & Rl & _).
    eexists _, _, f. split; [exact Rl|]. by eapply index_serves.
  - intros rfails k pre old new suf Hr Hdrop Hnew Hl H4 Hne. set (F' := take 16 F ++ pre ++ new ++ suf).
    assert (Hlen : length F' = length F).
    { subst F'. rewrite <- (take_drop 16 F) at 2. rewrite Hdrop, !length_app. lia. }
    pose proof (io_octets _ _ _ _ Hon) as Ho. assert (Ho' : Forall byte F').
    { rewrite <- (take_drop 16 F), Hdrop in Ho. apply Forall_app in Ho as [H1 [H2 [_ H3]%Forall_app]%Forall_app].
      subst F'. by rewrite !Forall_app. }
    pose proof (damaged_rejected (wdss s) mi dt Hfits F pre old new suf Hon Hdrop Hnew Hl H4 Hne) as Hna. fold F' in Hna.
    unfold load_index. rewrite bind_gets. cbn [bytes]. apply bind_err.
    assert (Hfuel : flen F' <= 512 * Z.of_nat (S (length F' / 512))).
    { unfold flen. pose proof (Nat.div_mod_eq (length F') 512). pose proof (Nat.mod_upper_bound (length F') 512 ltac:(done)). lia. }
    pose proof (io_size _ _ _ _ Hon) as Hsz. destruct Hfits as [_ _ Hb].
    pose proof (new_FileIndexReader_ok rfails Hr F' k _ true Ho' ltac:(unfold flen in *; lia) Hfuel) as Hop. unfold opened in Hop.
    by rewrite decide_False in Hop by done.
Qed.

(** ** From the tree to the answers *)

Definition occurrences (w text : list Z) : Z := Z.of_nat (length (positions_of w (words text))).
Definition total (q : list (list Z)) (text : list Z) : Z := foldr (fun w n => occurrences w text + n) 0 q.

(** The answers to a query: the documents with all its words, each once, with how often
    the words occur in it, the best first. *)
Definition tree_answers (docs : list (list Z * list Z)) (q : list (list Z)) (rs : list QueryResult) : Prop :=
  StronglySorted (fun a b => result_rank b <= result_rank a) rs /\ NoDup (document_name <$> rs) /\
  forall r, r ∈ rs <-> exists text, (document_name r, text) ∈ docs /\ (forall w, w ∈ q -> 0 < occurrences w text) /\
    result_rank r = u32 (total q text).

Lemma count_posts IX docs w i x : posts IX docs -> docs !! i = Some x ->
  count IX w (Z.of_nat i + 1) = if 0 <? occurrences w x.2 then Some (occurrences w x.2) else None.
Proof.
  intros HP Hi. pose proof (HP w (Z.of_nat i + 1)) as H. rewrite decide_True in H by lia.
  replace (Z.to_nat (Z.of_nat i + 1 - 1)) with i in H by lia. rewrite Hi in H. cbn in H. rewrite index_of_lookup in H.
  unfold count, occurrences. destruct (IX !! w) as [dm|]; cbn in *; [rewrite H|]; by destruct (positions_of w (words x.2)).
Qed.

Lemma score_posts IX docs q i x n : posts IX docs -> docs !! i = Some x ->
  score IX q (Z.of_nat i + 1) = Some n <-> (forall w, w ∈ q -> 0 < occurrences w x.2) /\ n = total q x.2.
Proof.
  intros HP Hi. revert n. induction q as [|w q IH]; intros n.
  - cbn. split; [intros [= <-]; split; [by intros w Hw%not_elem_of_nil|done]|by intros [_ ->]].
  - cbn [score total foldr]. fold (total q x.2). rewrite (count_posts IX docs w i x HP Hi).
    destruct (Z.ltb_spec 0 (occurrences w x.2)) as [H0|H0]; cbn.
    + destruct (score IX q (Z.of_nat i + 1)) as [b|]; cbn.
      * destruct (proj1 (IH b) eq_refl) as [Hq Hb]. split; [intros [= <-]; split; [|lia]|intros [_ ->]; f_equal; lia].
        intros w' [->|Hw']%elem_of_cons; auto.
      * split; [done|]. intros [Hq _]. assert (Hf : None = Some (total q x.2)); [|discriminate Hf].
        apply IH. split; [|done]. intros w' Hw'. apply Hq. by right.
    + split; [done|]. intros [Hq _]. specialize (Hq w ltac:(by left)). lia.
Qed.

Lemma posts_dense IX docs : posts IX docs -> NoDup docs.*1 -> dense docs.*1 IX.
Proof.
  intros HP Hnd. split; [done|]. intros w dm id ps HIX Hps. pose proof (posts_range IX docs w id HP) as Hr. rewrite HIX in Hr.
  specialize (Hr ltac:(by eexists)). destruct (lookup_lt_is_Some_2 docs (Z.to_nat (id - 1))) as [x Hx]; [lia|].
  split_and!; [lia|rewrite list_lookup_fmap, Hx; by eexists|]. pose proof (HP w id) as Hw. rewrite HIX in Hw. cbn in Hw.
  rewrite decide_True, Hps, Hx in Hw by lia. cbn in Hw. rewrite index_of_lookup in Hw. intros ->. by destruct (positions_of _ _).
Qed.

Lemma answers_tree IX docs q rs : posts IX docs -> NoDup docs.*1 -> query_results [(docs.*1, IX)] q rs -> tree_answers docs q rs.
Proof.
  intros HP Hnd [Hs (rss & Hperm & HF)]. inversion HF as [|? rs' ? rss' [Hn Hr] HF']; subst. inversion HF'; subst.
  cbn [concat] in Hperm. rewrite app_nil_r in Hperm. cbn [fst snd] in *. split_and!; [done|by rewrite (fmap_Permutation _ _ _ Hperm)|].
  intros r. rewrite Hperm, Hr. split.
  - intros (i & n & Hi & Hsc & Hrk). apply list_lookup_fmap_Some in Hi as ([nm text] & Hname & Hi). cbn [fst] in Hname.
    apply (score_posts IX docs q i _ n HP Hi) in Hsc as [Hq ->]. exists text. split_and!; [rewrite Hname; by eapply list_elem_of_lookup_2|done|done].
  - intros (text & [i Hi]%list_elem_of_lookup & Hq & Hrk). exists i, (total q text).
    split_and!; [by rewrite list_lookup_fmap, Hi|by apply (score_posts IX docs q i _ _ HP Hi)|done].
Qed.

(** The bytes of the index of a tree. *)
Definition index_bytes (s : store hash_ops) (rootdir : list Z) (root : fs_node) : Z :=
  match CrawlFileTree (ON := hash_ops) (OP := hash_ops) rootdir root s with
  | Ok ((_, Some (dt, idx)), s') => 16 + table_size doc_element (docid_to_docname dt) + table_size (word_element (wdss s')) idx
  | _ => 0
  end.

Lemma index_bytes_crawled s rootdir root r dt idx s' :
  CrawlFileTree (ON := hash_ops) (OP := hash_ops) rootdir root s = Ok ((r, Some (dt, idx)), s') ->
  index_bytes s rootdir root = 16 + table_size doc_element (docid_to_docname dt) + table_size (word_element (wdss s')) idx.
Proof. intros H. unfold index_bytes. by rewrite H. Qed.

Section end_to_end.
Context (vocabulary : list (list Z)).
Context (vocabulary_hash : forall w1 w2, w1 ∈ vocabulary -> w2 ∈ vocabulary -> FNVHash64 w1 = FNVHash64 w2 -> w1 = w2).
Context (vocabulary_size : Z.of_nat (length vocabulary) < capacity).
Context (paths : list (list Z)).
Context (paths_hash : forall p1 p2, p1 ∈ paths -> p2 ∈ paths -> FNVHash64 p1 = FNVHash64 p2 -> p1 = p2).
Context (paths_size : Z.of_nat (length paths) < capacity).
Context (sort : list QueryResult -> list QueryResult).
Context (sort_perm : forall rs, sort rs ≡ₚ rs).
Context (sort_sorted : forall rs, StronglySorted (fun a b => result_lt b a = false) (sort rs)).

Lemma buildfileindex_ok fails s rootdir entries indexname dr : never_fails fails ->
  rootdir <> [] -> fresh_store s -> plentiful (al s) -> readable_tree (Directory true entries) ->
  NoDup (tree_files (Directory true entries) rootdir).*1 ->
  Forall (indexable vocabulary paths) (tree_files (Directory true entries) rootdir) ->
  Forall word_fits vocabulary -> Forall name_fits paths -> index_bytes s rootdir (Directory true entries) < 2 ^ 32 ->
  exists w' F IX, buildfileindex_main fails [rootdir; indexname] (Directory true entries) (mk_world s dr) = Ok (0, w') /\
    files (drive w') !! indexname = Some F /\
    let docs := filter has_words (tree_files (Directory true entries) rootdir) in
    posts IX docs /\ NoDup docs.*1 /\ dense docs.*1 IX /\
    (forall rfails validate k, never_fails rfails -> exists d i f,
       load_index rfails validate (mk_file F 0 k) = Ok ((d, i), f) /\ bytes f = F /\ serves rfails F docs.*1 IX d i) /\
    Forall (indexable vocabulary paths) docs /\
    exists s' idx dt, hash_index s' idx IX /\ hash_registry (al s') dt docs.*1 /\ index_fits (wdss s') idx dt /\ index_on (wdss s') idx dt F /\
      flen F = index_bytes s rootdir (Directory true entries).
Proof.
  intros Hnf Hroot Hfr Hp Hread Hnd Hidx Hvoc Hpath H32.
  destruct (CrawlFileTree_ok (LL := hash_laws) (LN := hash_laws) (LP := hash_laws) vocabulary vocabulary_hash vocabulary_size paths paths_hash paths_size s rootdir entries)
    as (dt & idx & s' & IX & HR & Hcr & Hix & HP); try done.
  rewrite (index_bytes_crawled _ _ _ _ _ _ _ HR) in *. set (docs := filter has_words _) in *.
  destruct Hcr as [Hreg _ _ Hp' Hndocs Hfiles]. cbn [fst] in Hreg.
  pose proof (posts_dense IX docs HP Hndocs) as Hd.
  assert (Hnames : Forall name_fits docs.*1).
  { apply Forall_forall. intros n (x & -> & Hx)%list_elem_of_fmap. 
    apply (proj1 (Forall_forall _ _) Hpath), (proj1 (Forall_forall _ _) Hfiles x Hx). }
  assert (Hwords : forall w, is_Some (IX !! w) -> word_fits w).
  { intros w Hw. destruct (posted_word IX docs w HP (ix_nonempty _ _ _ Hix) Hw) as (x & Hx & Hwx). 
    apply (proj1 (Forall_forall _ _) Hvoc), (proj1 (Forall_forall _ _) Hfiles x Hx), Hwx. }
  pose proof (index_fits_of s' idx dt IX docs.*1 Hix Hreg Hd Hnames Hwords H32) as Hfits.
  destruct (WriteIndex_ok fails (wdss s') idx dt indexname dr Hnf Hfits) as (F & dr' & RW & Hfs & Hon).
  destruct (FreeDocTable_ok (al s') (al s') dt docs.*1 Hreg) as (m1 & RF & _).
  destruct (FreeMemIndex_ok s' m1 idx IX Hix) as (m2 & RM & _).
  pose proof (written_accepted _ _ _ Hfits F true Hon) as (H16 & _).
  eexists (mk_world _ dr'), F, IX. split.
  - unfold buildfileindex_main. unfold bind at 1, on_heap at 1. cbn [heap drive]. rewrite HR. cbn [Z.eqb Pos.eqb ensure]. rewrite bind_ret.
    unfold bind at 1, on_heap at 1, gets. cbn [heap drive]. unfold bind at 1, on_drive. cbn [heap drive]. rewrite RW.
    unfold bind at 1, on_heap at 1. cbn [heap drive]. rewrite (lift_ok _ s' _ _ RF).
    unfold bind at 1, on_heap at 1. cbn [heap drive]. rewrite RM. rewrite (proj2 (Z.eqb_neq _ 0)) by lia. reflexivity.
  - cbn [drive]. rewrite Hfs, lookup_insert_eq. split_and!; [done|done|done|done| |done|exists s', idx, dt; split_and!; try done; apply Hon]. intros rfails validate k Hr.
    destruct (load_index_ok (wdss s') idx dt Hfits rfails F k validate Hr Hon) as (f & Rl & Ef).
    eexists _, _, f. split_and!; [exact Rl|done|]. by eapply index_serves.
Qed.

(** C1: [buildfileindex] on a readable tree whose index fits exits with status 0, and
    [filesearchshell] on the index it wrote answers every line of its input exactly, when
    every line has a word: it prints the documents of the tree that have all the words of
    the line, each once, with the number of their occurrences, the best first.  When a line
    is blank the shell stops there by a failed check of the query processor.
    Query words are looked up as they are typed: the conversion to lower case that the
    comment of [filesearchshell.cc] requires is missing, so a word with a capital finds
    nothing.  The words of a document are those of its text without a run of letters that
    reaches the very end of the file, which the parser loses ([words] of [FileParserSpec]
    is written in these terms). *)
Theorem index_and_search fails rfails s rootdir entries indexname dr : never_fails fails -> (forall i, never_fails (rfails i)) ->
  rootdir <> [] -> fresh_store s -> plentiful (al s) -> readable_tree (Directory true entries) ->
  NoDup (tree_files (Directory true entries) rootdir).*1 ->
  Forall (indexable vocabulary paths) (tree_files (Directory true entries) rootdir) ->
  Forall word_fits vocabulary -> Forall name_fits paths -> index_bytes s rootdir (Directory true entries) < 2 ^ 32 ->
  exists w', buildfileindex_main fails [rootdir; indexname] (Directory true entries) (mk_world s dr) = Ok (0, w') /\
    forall lines rest, Forall (Forall (fun c => c <> 10)) lines -> Forall (fun c => c <> 10) rest ->
    let run := filesearchshell_main rfails sort (files (drive w')) [indexname] (concat ((fun l => l ++ [10]) <$> lines) ++ rest) in
    (Forall (fun l => query_words l [] <> []) lines -> exists qrss, run = Ok (0, transcript qrss) /\
       Forall2 (fun l => tree_answers (filter has_words (tree_files (Directory true entries) rootdir)) (query_words l [])) lines qrss) /\
    (Exists (fun l => query_words l [] = []) lines -> run = Err VerifyFailed).
Proof.
  intros Hnf Hrnf Hroot Hfr Hp Hread Hnd Hidx Hvoc Hpath H32.
  destruct (buildfileindex_ok fails s rootdir entries indexname dr) as (w' & F & IX & HR & HF & HP & Hndocs & Hd & Hload & _); try done.
  exists w'. split; [done|]. intros lines rest Hl Hrest run. set (docs := filter has_words _) in *.
  destruct (Hload (rfails 0%nat) true 1%nat (Hrnf 0%nat)) as (d & i & f & Rl & Ef & Hs).
  assert (Hready : ready rfails 0 [(d, i)] [(docs.*1, IX)] [f]) by (cbn; split_and!; [exists f; split; [done|by rewrite Ef]|done|done]).
  assert (Hrun : run = let? (out, _) := shell_loop rfails sort (S (length (concat ((fun l => l ++ [10]) <$> lines) ++ rest))) [(d, i)]
    (concat ((fun l => l ++ [10]) <$> lines) ++ rest) [] [f] in Ok (0, out)).
  { unfold run, filesearchshell_main, new_QueryProcessor. cbn [length Nat.ltb Nat.leb Nat.eqb load_indexes]. by rewrite Hrnf, HF, Rl. }
  rewrite Hrun. split.
  - intros Hw. destruct (shell_loop_ok rfails sort sort_perm sort_sorted [(d, i)] [(docs.*1, IX)] lines) with
      (rest := rest) (fuel := S (length (concat ((fun l => l ++ [10]) <$> lines) ++ rest))) (fs := [f]) (out := @nil Z) as (qrss & fs' & Rsh & HQ);
      [by apply Forall_and|done|done|apply lines_fuel|].
    exists qrss. rewrite Rsh. split; [done|]. eapply Forall2_impl; [exact HQ|]. intros l rs. by apply answers_tree.
  - intros Hb. by rewrite (shell_loop_blank rfails sort sort_perm sort_sorted [(d, i)] [(docs.*1, IX)] lines Hl Hb) by (done || apply lines_fuel).
Qed.
End end_to_end.

(** ** The sample tree *)

Definition result_le (a b : QueryResult) : Prop := result_rank b <= result_rank a.
#[export] Instance result_le_dec : RelDecision result_le.
Proof. intros a b. unfold result_le. apply _. Defined.
#[export] Instance result_le_total : Total result_le.
Proof. intros a b. unfold result_le. lia. Qed.
#[export] Instance result_le_trans : Transitive result_le.
Proof. intros a b c. unfold result_le. lia. Qed.

Lemma merge_sort_results rs : StronglySorted (fun a b => result_lt b a = false) (merge_sort result_le rs).
Proof.
  assert (Hs : StronglySorted result_le (merge_sort result_le rs)) by (apply Sorted_StronglySorted, Sorted_merge_sort; apply _).
  induction Hs as [|x xs _ IH Hx]; [constructor|]. constructor; [done|]. eapply Forall_impl; [exact Hx|]. intros y Hy.
  unfold result_le in Hy. unfold result_lt. by apply Z.ltb_ge.
Qed.

Lemma sample_bytes : index_bytes empty_store [114] (Directory true sample_entries) < 2 ^ 32.
Proof. vm_compute. reflexivity. Qed.

Lemma sample_words_fit : Forall word_fits sample_vocabulary.
Proof. repeat (constructor; [split; [cbn; lia|repeat (constructor; [unfold byte; lia|]); constructor]|]). constructor. Qed.
Lemma sample_paths_fit : Forall name_fits sample_paths.
Proof. repeat (constructor; [split; [cbn; lia|repeat (constructor; [unfold byte; lia|]); constructor]|]). constructor. Qed.

Definition no_failure : nat -> bool := fun _ => false.
Lemma no_failure_ok : never_fails no_failure.
Proof. by intros n. Qed.

(** Indexing the sample tree into the file i, and the queries "a" and "hi a". *)
Lemma index_and_search_witness : exists w',
  buildfileindex_main no_failure [[114]; [105]] (Directory true sample_entries) (mk_world empty_store (mk_disk ∅ 0)) = Ok (0, w') /\
  exists qrss, filesearchshell_main (fun _ => no_failure) (merge_sort result_le) (files (drive w')) [[105]] [97; 10; 104; 105; 32; 97; 10] =
    Ok (0, transcript qrss) /\ length qrss = 2%nat /\
  filesearchshell_main (fun _ => no_failure) (merge_sort result_le) (files (drive w')) [[105]] [97; 10; 32; 10] = Err VerifyFailed.
Proof.
  destruct empty_store_ok as [Hfr Hp]. assert (Hroot : [114] <> []) by discriminate.
  destruct (index_and_search sample_vocabulary sample_vocabulary_hash eq_refl sample_paths sample_paths_hash eq_refl
    (merge_sort result_le) (merge_sort_Permutation result_le) merge_sort_results no_failure (fun _ => no_failure) empty_store [114]
    sample_entries [105] (mk_disk ∅ 0) no_failure_ok (fun _ => no_failure_ok) Hroot Hfr Hp sample_tree_readable
    sample_nodup sample_all_indexable sample_words_fit sample_paths_fit sample_bytes) as (w' & HR & Hsearch).
  exists w'. split; [exact HR|]. destruct (Hsearch [[97]; [104; 105; 32; 97]] []) as [Hgood _];
    [repeat (constructor; [repeat (constructor; [discriminate|]); constructor|]); constructor|constructor|].
  destruct Hgood as (qrss & Hq & HF); [repeat (constructor; [discriminate|]); constructor|].
  exists qrss. split; [exact Hq|]. split; [symmetry; exact (Forall2_length _ _ _ HF)|].
  destruct (Hsearch [[97]; [32]] []) as [_ Hblank];
    [repeat (constructor; [repeat (constructor; [discriminate|]); constructor|]); constructor|constructor|].
  apply Hblank. apply Exists_cons_tl, Exists_cons_hd. reflexivity.
Defined.

(** Writing the index of the sample tree and looking the word "a" up in the file. *)
Lemma WriteIndex_roundtrip_witness : exists dt idx s' F d', 
  CrawlFileTree [114] (Directory true sample_entries) empty_store = Ok ((1, Some (dt, idx)), s') /\
  WriteIndex no_failure (wdss s') idx dt [105] (mk_disk ∅ 0) = Ok (flen F, d') /\
  exists dr ir f, load_index no_failure true (mk_file F 0 0) = Ok ((dr, ir), f) /\
    reads (DocTable_LookupDocID no_failure dr 1) F (Some [114; 47; 97]).
Proof.
  destruct empty_store_ok as [Hfr Hp]. assert (Hroot : [114] <> []) by discriminate.
  destruct (CrawlFileTree_ok (LL := hash_laws) (LN := hash_laws) (LP := hash_laws) sample_vocabulary sample_vocabulary_hash eq_refl
    sample_paths sample_paths_hash eq_refl empty_store [114] sample_entries Hroot Hfr Hp sample_tree_readable sample_nodup
    sample_all_indexable) as (dt & idx & s' & IX & HR & [Hreg _ _ _ Hnd Hfiles] & Hix & HP).
  pose proof sample_bytes as H32. rewrite (index_bytes_crawled _ _ _ _ _ _ _ HR) in H32. exists dt, idx, s'. rewrite sample_files in *.
  destruct (WriteIndex_roundtrip no_failure s' idx dt IX _ [105] (mk_disk ∅ 0) no_failure_ok Hix Hreg (posts_dense IX _ HP Hnd))
    as (F & d' & HW & _ & Hload & _).
  - apply Forall_forall. intros n (x & -> & Hx)%list_elem_of_fmap.
    apply (proj1 (Forall_forall _ _) sample_paths_fit), (proj1 (Forall_forall _ _) Hfiles x Hx).
  - intros w Hw. destruct (posted_word IX _ w HP (ix_nonempty _ _ _ Hix) Hw) as (x & Hx & Hwx).
    apply (proj1 (Forall_forall _ _) sample_words_fit), (proj1 (Forall_forall _ _) Hfiles x Hx), Hwx.
  - exact H32.
  - exists F, d'. split; [exact HR|]. split; [exact HW|].
    destruct (Hload no_failure true 0%nat no_failure_ok) as (dr & ir & f & Hl & Hs). exists dr, ir, f. split; [exact Hl|].
    exact (sv_docs _ _ _ _ _ _ Hs 1).
Defined.

(** * A small index on disk, byte by byte, and what happens to it when one call fails. *)
Open Scope Z_scope.

(** One document, 1 with name "a", and the word "b" at offset 2 of it. *)
Definition small_docs : DocTableRecord hash_ops hash_ops :=
  mkDT (OS := hash_ops) (ON := hash_ops) (mkHT 1 1 [[(1%positive, mkKV 1 [97])]]) (mkHT 1 0 [[]]) 1.
Definition small_index : HashTableRecord positive := mkHT 1 1 [[(1%positive, mkKV (FNVHash64 [98]) 7%positive)]].
Definition small_heap : gmap positive (WordDocSet hash_ops) :=
  {[7%positive := mkWDS (OL := hash_ops) [98] (mkHT 1 1 [[(1%positive, mkKV 1 [2])]])]}.
Definition small_disk : disk := mk_disk ∅ 0.

(** The bytes written when the [n]-th call fails. *)
Definition small_file (fails : nat -> bool) : option (Z * list Z) :=
  match WriteIndex fails small_heap small_index small_docs [105] small_disk with
  | Ok (n, d) => F ← files d !! [105]; Some (n, F)
  | Err _ => None
  end.

Example small_file_bytes : small_file (fun _ => false) = Some (98,
  [202; 254; 240; 13] ++ [100; 253; 235; 70] ++ [0; 0; 0; 27; 0; 0; 0; 55] ++
  [0; 0; 0; 1] ++ [0; 0; 0; 1; 0; 0; 0; 28] ++ [0; 0; 0; 32] ++ [0; 0; 0; 0; 0; 0; 0; 1; 0; 1; 97] ++
  [0; 0; 0; 1] ++ [0; 0; 0; 1; 0; 0; 0; 55] ++ [0; 0; 0; 59] ++ [0; 1; 0; 0; 0; 32; 98] ++
  [0; 0; 0; 1] ++ [0; 0; 0; 1; 0; 0; 0; 78] ++ [0; 0; 0; 82] ++ [0; 0; 0; 0; 0; 0; 0; 1; 0; 0; 0; 1] ++ [0; 0; 0; 2]).
Proof. vm_compute. reflexivity. Qed.

(** The name the file gives for document 1, if it opens with validation. *)
Definition first_name (F : list Z) : option (option (list Z)) :=
  match load_index (fun _ => false) true (mk_file F 0 0) with
  | Ok ((dr, _), f) =>
      match DocTable_LookupDocID (fun _ => false) dr 1 f with Ok (name, _) => Some name | Err _ => None end
  | Err _ => None
  end.

(** [WriteBucket] and [WriteHashTable] add up what their calls return, a 0 for a failure
    included: when the seek to the only document's element fails, the element is never
    written, and still [WriteIndex] reports success and the file opens with validation,
    without the document. *)
Example WriteIndex_unnoticed_failure :
  (first_name ∘ snd <$> small_file (fun _ => false)) = Some (Some (Some [97])) /\
  (fst <$> small_file (Nat.eqb 8)) = Some 87 /\
  (first_name ∘ snd <$> small_file (Nat.eqb 8)) = Some (Some None).
Proof. split_and!; vm_compute; reflexivity. Qed.

(** A blank line has no query words, which the query processor does not accept, and words
    are looked up as they are typed. *)
Example blank_line_aborts : exists F,
  snd <$> small_file (fun _ => false) = Some F /\
  filesearchshell_main (fun _ _ => false) id {[[105] := F]} [[105]] [10] = Err VerifyFailed.
Proof. eexists. split; [vm_compute; reflexivity|]. vm_compute. reflexivity. Qed.

Example capitals_kept : exists F,
  snd <$> small_file (fun _ => false) = Some F /\
  filesearchshell_main (fun _ _ => false) id {[[105] := F]} [[105]] [98; 10; 66; 10] =
    Ok (0, enter_query ++ [32; 97; 40; 49; 41; 10] ++ enter_query ++ enter_query).
Proof. eexists. split; [vm_compute; reflexivity|]. vm_compute. reflexivity. Qed.
