(* ===== verification/Fsck.v ===== *)
(** The checker of index files, [uw_cse333/hw/hw3/hw3fsck]: it walks the whole file and
    complains of whatever does not fit.  The text of the complaints, and the context
    printed with them, is left out; the streams that [FileDup] makes share the position of
    the first, which every reader sets before it reads.  A failed [assert] of [stat] or
    [FileDup] is the fault of [must_succeed].  The checksum is that of [Disk]:
    [fileindexutil.cc] is there a second time. *)
From Stdlib Require Import ZArith.
From S2P Require Import Prelude Disk FileParser.
Open Scope Z_scope.

(** What [Check16] to [CheckLT64] are called for; [SwappedSizes] is the note on a
    forgotten conversion. *)
Inductive complaint : Type :=
  | BadMagic | BadSizes | SwappedSizes | BadChecksum
  | ManyBuckets | BucketsOutOfOrder (i : Z) | BadFirstBucket | BucketOutside (i : Z) | ElementOutside (i j : Z)
  | DocInWrongBucket (i : Z) | LongName | NameNotASCII (k : Z)
  | LongWord | WordOutside | WordNotASCII (k : Z) | WordNotLower (k : Z)
  | PostingInWrongBucket (i : Z) | ManyPositions | PositionsOutOfOrder (k : Z).
#[export] Instance complaint_eq_dec : EqDecision complaint.
Proof. solve_decision. Defined.

Record fsck : Type := mk_fsck { file_ : FILE; complaints : list complaint }.

Definition on_file {A} (m : M FILE A) : M fsck A := fun s =>
  match m (file_ s) with Ok (a, f) => Ok (a, mk_fsck f (complaints s)) | Err e => Err e end.
Definition Check (b : bool) (c : complaint) : M fsck unit :=
  if b then ret tt else modify (fun s => mk_fsck (file_ s) (complaints s ++ [c])).

Definition isascii (c : Z) : bool := (0 <=? c) && (c <=? 127).
Definition islower (c : Z) : bool := (97 <=? c) && (c <=? 122).

Section fsck.
Context (fails : nat -> bool).

(** [assert(fseek(...) == 0)], and [assert(fread(&x, w, 1, file_) == 1)] with the
    conversion of [x]. *)
Definition seek (offset : Z) : M fsck unit :=
  let* r := on_file (fseek fails offset) in ensure AssertFailed (r =? 0).
Definition read_block (size : Z) : M fsck (list Z) :=
  let* (n, data) := on_file (fread fails size 1) in
  do* ensure AssertFailed (n =? 1);
  ret data.
Definition read_net (w : nat) : M fsck Z :=
  let* data := read_block (Z.of_nat w) in
  ret (hton w (value_le data)).

(** *** HashTableChecker *)

Record HashTableChecker : Type := mk_checker { offset_ : Z; len_ : Z }.

(** The copy constructor does not set [len_] of the new object, which is whatever was in
    its memory, and the assignment keeps the old one. *)
Definition copy_HashTableChecker (rhs : HashTableChecker) (memory : Z) : M fsck HashTableChecker :=
  do* on_file (FileDup fails);
  ret (mk_checker (offset_ rhs) memory).
Definition assign_HashTableChecker (this rhs : HashTableChecker) (self : bool) : M fsck HashTableChecker :=
  if negb self then
    do* on_file (must_succeed fails);
    do* on_file (FileDup fails);
    ret (mk_checker (offset_ rhs) (len_ this))
  else ret this.

Section table.
(** [CheckElement], given [num_buckets_]. *)
Context (CheckElement : Z -> Z -> Z -> M fsck unit) (c : HashTableChecker) (offset len num_buckets_ : Z).

(** [for (int j = 0; j < curchainlen; j++)], [n] rounds left *)
Fixpoint chain_loop (n : nat) (curbucket i j : Z) : M fsck unit :=
  match n with
  | O => ret tt
  | S n' =>
      do* seek (u32 (curbucket + j * 4));
      let* elementpos := read_net 4 in
      do* Check (elementpos <? u32 (offset + len + 1)) (ElementOutside i j);
      do* CheckElement num_buckets_ elementpos i;
      chain_loop n' curbucket i (j + 1)
  end.

(** [for (uint32_t i = 0; i < num_buckets_; i++)], [n] rounds left *)
Fixpoint bucket_loop (n : nat) (i : Z) (foundfirstnonempty : bool) (prevbucket : Z) : M fsck unit :=
  match n with
  | O => ret tt
  | S n' =>
      do* seek (u32 (offset_ c + 4 + 8 * i));
      let* curchainlen := read_net 4 in
      let* curbucket := read_net 4 in
      let* (foundfirstnonempty, prevbucket) :=
        if foundfirstnonempty && (0 <? curchainlen) then
          do* Check (prevbucket <? curbucket) (BucketsOutOfOrder i);
          ret (true, curbucket)
        else if (0 <? curchainlen) && negb foundfirstnonempty then
          do* seek (u32 (offset_ c + 4));
          let* _ := read_net 4 in
          let* prevbucket := read_net 4 in
          do* Check (u32 (offset_ c + 4 + 8 * num_buckets_) =? prevbucket) BadFirstBucket;
          ret (true, prevbucket)
        else ret (foundfirstnonempty, prevbucket) in
      do* Check (curbucket <? u32 (offset + len + 1)) (BucketOutside i);
      do* chain_loop (Z.to_nat curchainlen) curbucket i 0;
      bucket_loop n' (u32 (i + 1)) foundfirstnonempty prevbucket
  end.
End table.

Definition CheckTable (CheckElement : Z -> Z -> Z -> M fsck unit) (c : HashTableChecker) (offset len : Z) : M fsck unit :=
  do* seek (offset_ c);
  let* num_buckets_ := read_net 4 in
  do* Check (u32 (num_buckets_ * 8) <? len) ManyBuckets;
  bucket_loop CheckElement c offset len num_buckets_ (Z.to_nat num_buckets_) 0 false 0.

(** *** DocTableChecker *)

(** The loop over the characters of a name, from the [k]-th. *)
Fixpoint name_loop (filename : list Z) (k : Z) : M fsck unit :=
  match filename with
  | [] => ret tt
  | ch :: filename' => do* Check (isascii ch) (NameNotASCII k); name_loop filename' (k + 1)
  end.

Definition DocTable_CheckElement (num_buckets_ element_offset bucket_number : Z) : M fsck unit :=
  do* seek element_offset;
  let* docID := read_net 8 in
  do* Check (bucket_number =? u32 (docID mod num_buckets_)) (DocInWrongBucket bucket_number);
  let* fnlen := read_net 2 in
  do* Check (fnlen <? 1024) LongName;
  let* filename := read_block fnlen in
  name_loop filename 0.

(** *** DocIDTableChecker *)

(** The loop over the positions, [n] left, from the [i]-th; [None] before the first. *)
Fixpoint positions_loop (n : nat) (i : Z) (prevposn : option Z) : M fsck unit :=
  match n with
  | O => ret tt
  | S n' =>
      let* curposn := read_net 4 in
      do* match prevposn with Some p => Check (p <? curposn) (PositionsOutOfOrder i) | None => ret tt end;
      positions_loop n' (i + 1) (Some curposn)
  end.

Definition DocIDTable_CheckElement (num_buckets_ element_offset bucket_number : Z) : M fsck unit :=
  do* seek element_offset;
  let* docid := read_net 8 in
  do* Check (bucket_number =? u32 (docid mod num_buckets_)) (PostingInWrongBucket bucket_number);
  let* numposn := read_net 4 in
  do* Check (numposn <? 1000000) ManyPositions;
  positions_loop (Z.to_nat numposn) 0 None.

(** *** IndexTableChecker *)

Fixpoint word_loop (word : list Z) (k : Z) : M fsck unit :=
  match word with
  | [] => ret tt
  | ch :: word' =>
      do* Check (isascii ch) (WordNotASCII k);
      do* (if isalpha ch then Check (islower ch) (WordNotLower k) else ret tt);
      word_loop word' (k + 1)
  end.

Definition IndexTable_CheckElement (c : HashTableChecker) (num_buckets_ element_offset bucket_number : Z) : M fsck unit :=
  do* seek element_offset;
  let* wordlen := read_net 2 in
  do* Check (wordlen <? 8192) LongWord;
  let* docidlen := read_net 4 in
  do* Check (u32 (element_offset + 2 + 4 + wordlen) <? u32 (offset_ c + len_ c)) WordOutside;
  let* word := read_block wordlen in
  do* word_loop word 0;
  do* on_file (FileDup fails);
  let at_ := u32 (element_offset + 2 + 4 + wordlen) in
  CheckTable DocIDTable_CheckElement (mk_checker at_ docidlen) at_ docidlen.

(** *** FileIndexChecker *)

Fixpoint fold_read (buf : list Z) (crcobj : CRC32) : res CRC32 :=
  match buf with [] => Ok crcobj | b :: buf' => let? crcobj := FoldByteIntoCRC crcobj b in fold_read buf' crcobj end.

(** [while (left_to_read > 0)]; each round reads something. *)
Fixpoint crc_loop (fuel : nat) (left_to_read : Z) (crcobj : CRC32) : M fsck CRC32 :=
  match fuel with
  | O => fail OutOfFuel
  | S fuel' =>
      if 0 <? left_to_read then
        let* (readlen, buf) := on_file (fread fails 1 512) in
        do* ensure AssertFailed (0 <? readlen);
        let* crcobj := (fun s => match fold_read buf crcobj with Ok c => Ok (c, s) | Err e => Err e end) in
        crc_loop fuel' (u32 (left_to_read - readlen)) crcobj
      else ret crcobj
  end.

(** The constructor, on the stream that [fopen] returned; the fuel of the checksum is a
    round for each 512 bytes. *)
Definition FileIndexChecker : M fsck unit :=
  do* seek 0;
  let* magic_number := read_net 4 in
  do* Check (MAGIC_NUMBER =? magic_number) BadMagic;
  let* checksum := read_net 4 in
  let* doctable_size := read_net 4 in
  let* index_size := read_net 4 in
  do* on_file (must_succeed fails);
  let* st_size := gets (fun s => Z.of_nat (length (bytes (file_ s)))) in
  do* Check (u32 (u32 st_size - 16) =? u32 (doctable_size + index_size)) BadSizes;
  do* Check (negb (u32 (htonl doctable_size + htonl index_size) =? u32 (u32 st_size - 16))) SwappedSizes;
  let* crcobj := crc_loop (S (S (Z.to_nat (st_size / 512)))) (u32 (u32 st_size - 16)) new_CRC32 in
  do* Check ((GetFinalCRC crcobj).1 =? checksum) BadChecksum;
  do* on_file (FileDup fails);
  do* CheckTable DocTable_CheckElement (mk_checker 16 doctable_size) 16 doctable_size;
  do* on_file (FileDup fails);
  let words := u32 (16 + doctable_size) in
  CheckTable (IndexTable_CheckElement (mk_checker words index_size)) (mk_checker words index_size) words index_size.

(** The exit status and the complaints about the file the first argument names. *)
Definition hw3fsck_main (fs : gmap (list Z) (list Z)) (args : list (list Z)) : res (Z * list complaint) :=
  match args with
  | [] => Err (Exit 1)
  | name :: _ =>
      match fs !! name with
      | None => Err AssertFailed
      | Some content =>
          if fails 0%nat then Err AssertFailed else
          let? (_, s) := FileIndexChecker (mk_fsck (mk_file content 0 1) []) in
          Ok (0, complaints s)
      end
  end.
End fsck.
