(* ===== verification/FsckSpec.v ===== *)
(** What [hw3fsck] promises: it has nothing to complain of in an index file that
    [buildfileindex] wrote, and a file without complaints about its header and checksum is
    one that the readers open. *)
From Stdlib Require Import ZArith Lia.
From S2P Require Import Prelude Disk DiskSpec Alloc HashTable HashTableSpec Table DocTable FileParser FileParserSpec MemIndex MemIndexSpec FileCrawler FileCrawlerSpec IndexWriter IndexWriterSpec IndexReader IndexReaderSpec IndexQuery IndexQuerySpec Fsck.
Open Scope Z_scope.

Section checker.
Context (fails : nat -> bool) (Hnf : never_fails fails).

(** From position [p] of the file [F] the run [m] returns [a] at [p'], without a complaint. *)
Definition passes {A} (F : list Z) (p : Z) (m : M fsck A) (a : A) (p' : Z) : Prop :=
  forall k cs, exists k', m (mk_fsck (mk_file F p k) cs) = Ok (a, mk_fsck (mk_file F p' k') cs).

Lemma passes_ret {A} F p (a : A) : passes F p (ret a) a p.
Proof. intros k cs. by exists k. Qed.

Lemma passes_bind {A B} F p m p1 (a : A) (k : A -> M fsck B) b p2 : passes F p m a p1 -> passes F p1 (k a) b p2 -> passes F p (bind m k) b p2.
Proof. intros H1 H2 n cs. destruct (H1 n cs) as [n1 E1]. step E1. apply H2. Qed.

Lemma passes_check F p b c : b = true -> passes F p (Check b c) tt p.
Proof. intros ->. apply passes_ret. Qed.

Lemma passes_seek F p off : passes F p (seek fails off) tt off.
Proof. intros k cs. unfold seek, on_file, fseek, bind. cbn [file_ calls]. rewrite Hnf. by eexists. Qed.

Lemma passes_must F p : passes F p (on_file (must_succeed fails)) tt p.
Proof. intros k cs. unfold on_file, must_succeed. cbn [file_ calls]. rewrite Hnf. by eexists. Qed.

Lemma passes_dup F p : passes F p (on_file (FileDup fails)) tt p.
Proof. intros k cs. unfold on_file, FileDup, must_succeed, bind. cbn [file_ calls]. rewrite !Hnf. by eexists. Qed.

Lemma passes_block F p data : holds F p data -> data <> [] -> 0 <= p -> passes F p (read_block fails (Z.of_nat (length data))) data (p + Z.of_nat (length data)).
Proof.
  intros Hh Hne Hp k cs. unfold read_block, on_file, bind. cbn [file_].
  rewrite (fread_ok fails Hnf data (Z.of_nat (length data)) 1 (mk_file F p k)); cbn [bytes pos]; try done; try lia.
  - cbn [Z.eqb Pos.eqb ensure file_ complaints calls]. rewrite Z.mul_1_l. eexists. reflexivity.
  - destruct data; [done|cbn; lia].
Qed.

Lemma passes_net F p w x : holds F p (bytes_be w x) -> width_ok w -> fits w x -> 0 <= p -> passes F p (read_net fails w) x (p + Z.of_nat w).
Proof.
  intros Hh Hw Hx Hp. unfold read_net. rewrite <- (bytes_be_length w x) at 1.
  eapply passes_bind; [apply passes_block; [done| |done]|].
  - intros E. apply (f_equal length) in E. rewrite bytes_be_length in E. destruct Hw as [->|[->| ->]]; done.
  - rewrite bytes_be_length. rewrite <- (hton_hton w x) at 2 by done. rewrite <- (hton_stored w x) by done. rewrite value_bytes by (by apply hton_fits).
    apply passes_ret.
Qed.

(** ** Tables *)

Lemma image_pair a b F off : holds F off (disk_image (mk_bucket_rec a b)) <-> holds F off (bytes_be 4 a) /\ holds F (off + 4) (bytes_be 4 b).
Proof. unfold disk_image. cbn [widths bucket_rec_packed to_fields chain_len bucket_position zip_with concat]. rewrite app_nil_r, holds_app, bytes_be_length. done. Qed.

Lemma image_single w x F off : holds F off (concat (zip_with bytes_be [w] [x])) <-> holds F off (bytes_be w x).
Proof. cbn [zip_with concat]. by rewrite app_nil_r. Qed.

Section table.
Context {V : Type} (E : element V) {HE : Element E} (fn : Z -> Z -> Z -> M fsck unit) (F : list Z) (off : Z) (t : HashTableRecord V).
Context (Hon : table_on E F off t) (Hok : table_ok E t) (Hoff : 0 <= off) (H32 : off + table_size E t + 1 < 2 ^ 32).

(** The checker of elements has nothing to say about those of a chain. *)
Definition quiet (i : nat) (c : bucket V) : Prop := forall x p epos, x ∈ c -> el_on E F epos x.2 -> 0 <= epos ->
  epos + el_size E x.2 <= off + table_size E t -> exists p', passes F p (fn (num_buckets t) epos (Z.of_nat i)) tt p'.
Context (Hquiet : forall i c, buckets t !! i = Some c -> quiet i c).

Lemma chain_loop_quiet i c slots lo : buckets t !! i = Some c -> 0 <= slots -> slots + 4 * Z.of_nat (length c) <= lo ->
  lo <= off + table_size E t -> forall hi, hi <= off + table_size E t -> chain_on E F slots lo hi c ->
  forall n j p, (j + n = length c)%nat -> exists p', passes F p (chain_loop fails fn off (table_size E t) (num_buckets t) n slots (Z.of_nat i) (Z.of_nat j)) tt p'.
Proof.
  intros Hi Hs Hlo Hlo' hi Hhi Hc n. induction n as [|n IH]; intros j p Hj; cbn [chain_loop]; [exists p; apply passes_ret|].
  destruct (lookup_lt_is_Some_2 c j) as [x Hx]; [lia|]. destruct (Hc j x Hx) as (epos & H1 & H2 & H3 & H4).
  assert (Hex : 0 < el_size E x.2).
  { apply el_size_pos. pose proof (table_ok_chains E t Hok) as Hch. pose proof (Forall_lookup_1 _ _ _ _ Hch Hi) as Hci. exact (Forall_lookup_1 _ _ _ _ Hci Hx). }
  assert (Hjl : (j < length c)%nat) by (by eapply lookup_lt_Some).
  destruct (Hquiet i c Hi x (u32 (slots + Z.of_nat j * 4) + Z.of_nat 4) epos) as [p1 R1]; [by eapply list_elem_of_lookup_2|done|lia|lia|].
  destruct (IH (S j) p1) as [p2 R2]; [lia|]. exists p2.
  eapply passes_bind; [apply passes_seek|]. eapply passes_bind; [|eapply passes_bind; [|eapply passes_bind; [exact R1|]]].
  - apply passes_net; [|by right; left|unfold fits; change (256 ^ Z.of_nat 4) with (2 ^ 32); lia|apply wrapu_range; lia].
    rewrite wrapu_small by lia. unfold disk_image in H3. apply image_single in H3. by replace (slots + Z.of_nat j * 4) with (slots + 4 * Z.of_nat j) by lia.
  - apply passes_check. rewrite wrapu_small by lia. apply Z.ltb_lt. lia.
  - by replace (Z.of_nat j + 1) with (Z.of_nat (S j)) by lia.
Qed.

#[local] Notation lo := (off + 4 + 8 * num_buckets t).
Definition before (i : nat) : Z := buckets_size E (take i (buckets t)).

Lemma before_nonneg i : 0 <= before i.
Proof. apply buckets_size_nonneg; [done|]. by apply Forall_take, table_ok_chains. Qed.

Lemma buckets_size_app bs bs' : buckets_size E (bs ++ bs') = buckets_size E bs + buckets_size E bs'.
Proof. induction bs as [|c bs IH]; [done|]. cbn [app]. change (bucket_size E c + buckets_size E (bs ++ bs') = bucket_size E c + buckets_size E bs + buckets_size E bs'). lia. Qed.

Lemma before_next i c : buckets t !! i = Some c -> before (S i) = before i + bucket_size E c /\ before (S i) <= buckets_size E (buckets t).
Proof.
  intros Hi. unfold before. assert (Et : buckets_size E (take (S i) (buckets t)) = buckets_size E (take i (buckets t)) + bucket_size E c).
  { rewrite (take_S_r _ _ c), buckets_size_app by done. cbn. lia. }
  split; [done|]. rewrite <- (take_drop (S i) (buckets t)) at 2. rewrite buckets_size_app.
  pose proof (buckets_size_nonneg E (drop (S i) (buckets t)) ltac:(by apply Forall_drop, table_ok_chains)). lia.
Qed.

Lemma bucket_rec_runs i c : buckets t !! i = Some c ->
  let n := Z.of_nat (length c) in
  fits 4 n /\ fits 4 (lo + before i) /\ holds F (off + 4 + 8 * Z.of_nat i) (bytes_be 4 n) /\ holds F (off + 4 + 8 * Z.of_nat i + 4) (bytes_be 4 (lo + before i)) /\
  chain_on E F (lo + before i) (lo + before i + 4 * n) (lo + before i + bucket_size E c) c.
Proof.
  intros Hi. destruct Hon as [_ Hb]. destruct (Hb i c Hi) as (bpos & H1 & H2 & H3 & H4 & ->). fold (before i) in *.
  apply image_pair in H3 as [H3 H3']. destruct (before_next i c Hi) as [Hn Hle]. pose proof (before_nonneg i).
  pose proof (chain_size_nonneg E c) as Hcs. assert (chain_ok E c) as Hch by (eapply Forall_lookup_1; [by apply table_ok_chains|done]). specialize (Hcs Hch).
  pose proof (tk_nb _ _ Hok). unfold fits. change (256 ^ Z.of_nat 4) with (2 ^ 32). unfold bucket_size, table_size in *. split_and!; try done; lia.
Qed.

#[local] Notation here := (mk_checker off (table_size E t)).

(** The part of a round that compares the positions of the buckets. *)
Lemma order_runs i c found prev p : buckets t !! i = Some c -> (found = true -> prev < lo + before i) -> (found = false -> before i = 0) ->
  exists found' prev' p', passes F p
    (if found && (0 <? Z.of_nat (length c)) then
       do* Check (prev <? lo + before i) (BucketsOutOfOrder (Z.of_nat i)); ret (true, lo + before i)
     else if (0 <? Z.of_nat (length c)) && negb found then
       do* seek fails (u32 (off + 4)); let* _ := read_net fails 4 in let* prevbucket := read_net fails 4 in
       do* Check (u32 lo =? prevbucket) BadFirstBucket; ret (true, prevbucket)
     else ret (found, prev)) (found', prev') p' /\
  (found' = true -> prev' < lo + before (S i)) /\ (found' = false -> before (S i) = 0).
Proof.
  intros Hi Ht Hf. destruct (before_next i c Hi) as [Hn _]. pose proof (before_nonneg i) as Hb0. pose proof (tk_nb _ _ Hok).
  assert (Hch : chain_ok E c) by (eapply Forall_lookup_1; [by apply table_ok_chains|done]).
  pose proof (bucket_size_nonneg E c Hch) as Hsz. pose proof (chain_size_nonneg E c Hch) as Hcs.
  destruct found; cbn [andb negb]; rewrite ?andb_false_r, ?andb_true_r; destruct (Z.ltb_spec 0 (Z.of_nat (length c))) as [Hl|Hl].
  - eexists true, (lo + before i), p. split; [eapply passes_bind; [apply passes_check, Z.ltb_lt, Ht; done|apply passes_ret]|].
    split; [|done]. intros _. unfold bucket_size in Hn. lia.
  - eexists true, prev, p. split; [apply passes_ret|]. split; [|done]. intros _. specialize (Ht eq_refl). lia.
  - specialize (Hf eq_refl). destruct (lookup_lt_is_Some_2 (buckets t) 0) as [c0 Hc0]; [eapply Nat.le_lt_trans; [apply Nat.le_0_l|by eapply lookup_lt_Some]|].
    destruct (bucket_rec_runs 0 c0 Hc0) as (F1 & F2 & H1 & H2 & _). change (before 0) with 0 in *. rewrite Z.mul_0_r, !Z.add_0_r in *.
    assert (Hlo : lo < 2 ^ 32).
    { pose proof (buckets_size_nonneg E (buckets t) (table_ok_chains E t Hok)). unfold table_size in *. lia. }
    assert (El : u32 lo = lo) by (apply wrapu_small; lia).
    eexists true, lo, _. split.
    + eapply passes_bind; [apply passes_seek|]. rewrite (wrapu_small 32 (off + 4)) by lia.
      eapply passes_bind; [apply passes_net; [exact H1|by right; left|exact F1|lia]|]. eapply passes_bind; [apply passes_net; [exact H2|by right; left|exact F2|lia]|].
      eapply passes_bind; [apply passes_check, Z.eqb_eq, El|apply passes_ret].
    + split; [|done]. intros _. unfold bucket_size in Hn. lia.
  - eexists false, prev, p. split; [apply passes_ret|]. split; [done|]. intros _. specialize (Hf eq_refl).
    assert (c = []) as -> by (destruct c; [done|cbn in Hl; lia]). change (bucket_size E []) with 0 in Hn. lia.
Qed.

Lemma bucket_loop_quiet n : forall i found prev p, (i + n = length (buckets t))%nat ->
  (found = true -> prev < lo + before i) -> (found = false -> before i = 0) ->
  exists p', passes F p (bucket_loop fails fn here off (table_size E t) (num_buckets t) n (Z.of_nat i) found prev) tt p'.
Proof.
  induction n as [|n IH]; intros i found prev p Hn Ht Hf; cbn [bucket_loop]; [exists p; apply passes_ret|].
  destruct (lookup_lt_is_Some_2 (buckets t) i) as [c Hc]; [lia|]. cbn [offset_].
  destruct (bucket_rec_runs i c Hc) as (F1 & F2 & H1 & H2 & H3). destruct (before_next i c Hc) as [Hnx Hle]. pose proof (before_nonneg i).
  assert (Hch : chain_ok E c) by (eapply Forall_lookup_1; [by apply table_ok_chains|done]). pose proof (chain_size_nonneg E c Hch) as Hcs.
  pose proof (tk_nb _ _ Hok). pose proof (tk_len _ _ Hok) as Hbl. apply lookup_lt_Some in Hc as Hil. unfold bucket_size, table_size in *.
  destruct (order_runs i c found prev (off + 4 + 8 * Z.of_nat i + 4 + 4) Hc Ht Hf) as (found' & prev' & p1 & R1 & Ht' & Hf').
  destruct (chain_loop_quiet i c (lo + before i) (lo + before i + 4 * Z.of_nat (length c)) Hc) with (hi := lo + before i + bucket_size E c) (n := length c) (j := 0%nat) (p := p1)
    as [p2 R2]; [lia|lia|unfold table_size; lia|unfold bucket_size, table_size; lia|done|done|].
  destruct (IH (S i) found' prev' p2) as [p3 R3]; [lia|done|done|]. exists p3.
  eapply passes_bind; [apply passes_seek|]. rewrite (wrapu_small 32 (off + 4 + 8 * Z.of_nat i)) by lia.
  eapply passes_bind; [apply passes_net; [exact H1|by right; left|exact F1|lia]|]. eapply passes_bind; [apply passes_net; [exact H2|by right; left|exact F2|lia]|].
  eapply passes_bind; [exact R1|]. cbn beta iota. eapply passes_bind; [apply passes_check; rewrite wrapu_small by lia; apply Z.ltb_lt; lia|].
  rewrite Nat2Z.id. eapply passes_bind; [exact R2|]. rewrite wrapu_small by lia. by replace (Z.of_nat i + 1) with (Z.of_nat (S i)) by lia.
Qed.

Lemma CheckTable_quiet p : exists p', passes F p (CheckTable fails fn here off (table_size E t)) tt p'.
Proof.
  pose proof (tk_nb _ _ Hok). pose proof (buckets_size_nonneg E (buckets t) (table_ok_chains E t Hok)).
  destruct (bucket_loop_quiet (Z.to_nat (num_buckets t)) 0 false 0 (off + 4)) as [p' R]; [rewrite (tk_len _ _ Hok); lia|done|done|]. exists p'.
  destruct Hon as [Hh _]. unfold disk_image in Hh. apply image_single in Hh. cbn [list_buckets to_fields list_header_packed] in Hh. unfold CheckTable. cbn [offset_].
  eapply passes_bind; [apply passes_seek|]. eapply passes_bind; [apply passes_net; [exact Hh|by right; left| |done]|].
  - unfold fits, table_size in *. change (256 ^ Z.of_nat 4) with (2 ^ 32). lia.
  - eapply passes_bind; [apply passes_check|exact R]. apply Z.ltb_lt. rewrite wrapu_small; unfold table_size in *; lia.
Qed.
End table.

(** ** Elements *)

(** What the checker demands of a name, a word and a list of positions. *)
Definition tidy_name (n : list Z) : Prop := 0 < Z.of_nat (length n) < 1024 /\ Forall (fun c => 0 <= c <= 127) n.
Definition tidy_word (w : list Z) : Prop :=
  0 < Z.of_nat (length w) < 8192 /\ Forall (fun c => 0 <= c <= 127 /\ (isalpha c = true -> 97 <= c <= 122)) w.
Definition tidy_positions (ps : list Z) : Prop :=
  0 < Z.of_nat (length ps) < 1000000 /\ Forall (fun p => is_u 32 p) ps /\ Sorted Z.lt ps.

Lemma name_loop_quiet F p name : Forall (fun c => 0 <= c <= 127) name -> forall k, passes F p (name_loop name k) tt p.
Proof.
  induction 1 as [|c name Hc _ IH]; intros k; [apply passes_ret|]. cbn [name_loop].
  eapply passes_bind; [apply passes_check|apply IH]. unfold isascii. lia.
Qed.

Lemma word_loop_quiet F p w : Forall (fun c => 0 <= c <= 127 /\ (isalpha c = true -> 97 <= c <= 122)) w -> forall k, passes F p (word_loop w k) tt p.
Proof.
  induction 1 as [|c w [Hc Hl] _ IH]; intros k; [apply passes_ret|]. cbn [word_loop].
  eapply passes_bind; [apply passes_check; unfold isascii; lia|]. eapply passes_bind; [|apply IH].
  destruct (isalpha c); [|apply passes_ret]. apply passes_check. unfold islower. specialize (Hl eq_refl). lia.
Qed.

Lemma fits_u w x : is_u (8 * Z.of_nat w) x -> fits w x.
Proof. intros Hx. unfold fits. change 256 with (2 ^ 8). rewrite <- Z.pow_mul_r by lia. exact Hx. Qed.

Lemma positions_loop_quiet F ps : Forall (fun p => is_u 32 p) ps -> Sorted Z.lt ps -> forall p i prev, 0 <= p ->
  (forall q, prev = Some q -> HdRel Z.lt q ps) -> holds F p (positions_image ps) ->
  exists p', passes F p (positions_loop fails (length ps) i prev) tt p'.
Proof.
  intros Hu. induction Hu as [|x ps Hx Hu IH]; intros Hs p i prev Hp Hprev Hh; [exists p; apply passes_ret|].
  inversion Hs as [|? ? Hs' Hx']; subst. rewrite positions_image_cons in Hh. apply holds_app in Hh as [Hh1 Hh2].
  rewrite image_length_nat in Hh2. unfold disk_image in Hh1. apply image_single in Hh1. cbn [position] in Hh1. rewrite wrapu_small in Hh1 by bound_lia.
  destruct (IH Hs' (p + 4) (i + 1) (Some x)) as [p' R]; [lia|by intros q [= <-]|done|]. exists p'. cbn [length positions_loop].
  eapply passes_bind; [apply passes_net; [exact Hh1|by right; left|by apply fits_u|done]|].
  eapply passes_bind; [|exact R]. destruct prev as [q|]; [|apply passes_ret]. apply passes_check, Z.ltb_lt.
  specialize (Hprev q eq_refl). by inversion Hprev.
Qed.

(** The bucket of a pair is that of its key. *)
Lemma slot_check {V} m (t : HashTableRecord V) i c x : wf m t -> buckets t !! i = Some c -> x ∈ c ->
  (Z.of_nat i =? u32 (key x.2 mod num_buckets t)) = true.
Proof.
  intros Hwf Hi Hx. rewrite (bo_slot _ _ _ _ (wf_bucket _ _ Hwf i c Hi) x Hx). pose proof (wf_nb _ _ Hwf).
  pose proof (wf_len _ _ Hwf). apply lookup_lt_Some in Hi. rewrite wrapu_small by lia. apply Z.eqb_refl.
Qed.

Lemma in_items {V} (t : HashTableRecord V) i c x : buckets t !! i = Some c -> x ∈ c -> x ∈ items t.
Proof. intros Hc Hx. unfold items. rewrite (concat_split _ _ _ Hc). apply elem_of_app. right. apply elem_of_app. by left. Qed.

(** The two fields of an element, and what follows. *)
Lemma image_fields {T} `{Packed T} (t : T) v w a b data F p :
  holds F p (disk_image t ++ data) -> widths T = [v; w] -> to_fields t = [a; b] -> holds F p (bytes_be v a) /\ holds F (p + Z.of_nat v) (bytes_be w b) /\ holds F (p + Z.of_nat v + Z.of_nat w) data.
Proof.
  intros [Hh Hd]%holds_app Hw Hf. unfold disk_image in Hh, Hd. rewrite Hw, Hf in Hh, Hd. cbn [zip_with concat] in Hh, Hd. rewrite app_nil_r in Hh, Hd.
  apply holds_app in Hh as [Ha Hb]. rewrite length_app, !bytes_be_length in Hd. rewrite bytes_be_length in Hb.
  split_and!; [done|done|]. by replace (p + Z.of_nat v + Z.of_nat w) with (p + Z.of_nat (v + w)) by lia.
Qed.

Section elements.
Context (F : list Z).

Lemma doc_quiet m off t : wf m t -> table_ok doc_element t -> (forall x, x ∈ items t -> tidy_name (value x.2)) ->
  forall i c, buckets t !! i = Some c -> quiet doc_element (DocTable_CheckElement fails) F off t i c.
Proof.
  intros Hwf Hok Htidy i c Hi x p epos Hx Hon Hp Hle. pose proof (in_items t i c x Hi Hx) as Hin.
  destruct (Htidy x Hin) as [Hl Ha]. destruct (tk_elems _ _ Hok x Hin) as (Hk & _ & _). cbn [doc_element el_on] in Hon.
  destruct (image_fields (mk_doc_header _ _) 8 2 _ _ _ F epos Hon eq_refl eq_refl) as (H1 & H2 & H3). cbn [doc_docid filename_len] in *. eexists.
  unfold DocTable_CheckElement. eapply passes_bind; [apply passes_seek|].
  eapply passes_bind; [apply passes_net; [exact H1|by right; right|by apply fits_u|done]|].
  eapply passes_bind; [by apply passes_check, (slot_check m t i c)|].
  eapply passes_bind; [apply passes_net; [exact H2|by left|unfold fits; lia|lia]|]. eapply passes_bind; [apply passes_check, Z.ltb_lt; lia|].
  eapply passes_bind; [apply passes_block; [exact H3| |lia]|by apply name_loop_quiet]. intros E. rewrite E in Hl. cbn in Hl. lia.
Qed.

Lemma postings_quiet m off t : wf m t -> table_ok postings_element t -> (forall x, x ∈ items t -> tidy_positions (value x.2)) ->
  forall i c, buckets t !! i = Some c -> quiet postings_element (DocIDTable_CheckElement fails) F off t i c.
Proof.
  intros Hwf Hok Htidy i c Hi x p epos Hx Hon Hp Hle. pose proof (in_items t i c x Hi Hx) as Hin.
  destruct (Htidy x Hin) as (Hl & Hu & Hs). destruct (tk_elems _ _ Hok x Hin) as (Hk & _). cbn [postings_element el_on] in Hon.
  destruct (image_fields (mk_docid_header _ _) 8 4 _ _ _ F epos Hon eq_refl eq_refl) as (H1 & H2 & H3). cbn [el_docid num_positions] in *.
  destruct (positions_loop_quiet F (value x.2) Hu Hs (epos + Z.of_nat 8 + Z.of_nat 4) 0 None) as [p' R]; [lia|done|done|]. exists p'.
  unfold DocIDTable_CheckElement. eapply passes_bind; [apply passes_seek|].
  eapply passes_bind; [apply passes_net; [exact H1|by right; right|by apply fits_u|done]|].
  eapply passes_bind; [by apply passes_check, (slot_check m t i c)|].
  eapply passes_bind; [apply passes_net; [exact H2|by right; left|unfold fits; change (256 ^ Z.of_nat 4) with (2 ^ 32); lia|lia]|].
  eapply passes_bind; [apply passes_check, Z.ltb_lt; lia|]. by rewrite Nat2Z.id.
Qed.

Context (wdss : gmap positive (WordDocSet hash_ops)).

(** A record of the index that passes. *)
Definition tidy_record (d : WordDocSet hash_ops) : Prop :=
  tidy_word (wds_word d) /\ (exists m, wf m (docIDs d)) /\ forall x, x ∈ items (docIDs d) -> tidy_positions (value x.2).

Lemma word_quiet m off t : wf m t -> table_ok (word_element wdss) t -> 0 <= off -> off + table_size (word_element wdss) t + 1 < 2 ^ 32 ->
  (forall x d, x ∈ items t -> wdss !! value x.2 = Some d -> tidy_record d) ->
  forall i c, buckets t !! i = Some c ->
    quiet (word_element wdss) (IndexTable_CheckElement fails (mk_checker off (table_size (word_element wdss) t))) F off t i c.
Proof.
  intros Hwf Hok Ho H32 Htidy i c Hi x p epos Hx Hon Hp Hle. pose proof (in_items t i c x Hi Hx) as Hin.
  cbn [word_element el_on el_size] in Hon, Hle. destruct Hon as (d & Hd & Hh & Ht). rewrite Hd in Hle. cbn [from_option] in Hle.
  destruct (tk_elems _ _ Hok x Hin) as (d' & Hd' & Hw & Hb & Hdok). rewrite Hd in Hd'. injection Hd' as <-.
  destruct (Htidy x d Hin Hd) as ([Hl Hc] & [m' Hwf'] & Hps). set (n := Z.of_nat (length (wds_word d))) in *.
  set (size := table_size (word_element wdss) t) in *. pose proof (table_size_pos _ _ Hdok) as Hpos. set (h := table_size postings_element (docIDs d)) in *.
  destruct (image_fields (T := worddocset_header) (mk_word_header _ _) 2 4 _ _ _ F epos Hh eq_refl eq_refl) as (H1 & H2 & H3). cbn [word_len doctable_len] in *.
  destruct (CheckTable_quiet postings_element (DocIDTable_CheckElement fails) F (epos + 6 + n) (docIDs d) Ht Hdok) with (p := epos + Z.of_nat 2 + Z.of_nat 4 + n)
    as [p' R]; [lia|fold h; lia|by apply (postings_quiet m')|]. fold h in R. exists p'.
  unfold IndexTable_CheckElement. eapply passes_bind; [apply passes_seek|].
  eapply passes_bind; [apply passes_net; [exact H1|by left|unfold fits; lia|done]|]. eapply passes_bind; [apply passes_check, Z.ltb_lt; lia|].
  eapply passes_bind; [apply passes_net; [exact H2|by right; left|unfold fits; change (256 ^ Z.of_nat 4) with (2 ^ 32); lia|lia]|].
  cbn [offset_ len_]. rewrite !wrapu_small by lia. eapply passes_bind; [apply passes_check, Z.ltb_lt; lia|].
  eapply passes_bind; [apply passes_block; [exact H3| |lia]|]. { intros E. subst n. rewrite E in Hl. cbn in Hl. lia. }
  eapply passes_bind; [by apply word_loop_quiet|]. eapply passes_bind; [apply passes_dup|]. cbv zeta.
  by replace (epos + 2 + 4 + n) with (epos + 6 + n) by lia.
Qed.
End elements.

(** ** The header *)

Lemma fold_read_bytes buf c : fold_read buf c = fold_bytes buf c.
Proof. revert c. induction buf as [|b buf IH]; intros c; [done|]. cbn. by destruct (FoldByteIntoCRC c b). Qed.

Lemma crc_loop_quiet F : Forall byte F -> flen F < 2 ^ 32 -> forall fuel s p, is_u 32 s -> 0 <= p <= flen F ->
  flen F - p <= 512 * Z.of_nat fuel ->
  passes F p (crc_loop fails (S fuel) (flen F - p) (mk_crc s false)) (mk_crc (crc_from s (drop (Z.to_nat p) F)) false) (flen F).
Proof.
  intros Hb H32 fuel. induction fuel as [|fuel IH]; intros s p Hs Hp Hfuel; cbn [crc_loop];
    (destruct (Z.ltb_spec 0 (flen F - p)) as [Hlt|Hge]; [|assert (Ep : p = flen F) by lia; rewrite drop_ge by (unfold flen in *; lia); rewrite Ep; apply passes_ret]); [lia|].
  set (n := Z.min 512 (flen F - p)). set (buf := take (Z.to_nat (n * 1)) (drop (Z.to_nat p) F)).
  assert (Hbuf : Forall byte buf) by (by apply Forall_take, Forall_drop).
  eapply (passes_bind _ _ _ (p + n * 1) (n, buf)).
  { intros k cs. unfold on_file. cbn [file_]. destruct (fread_some fails Hnf 1 512 (mk_file F p k) ltac:(done) Hp) as (n' & Hn & R).
    cbn [bytes pos] in *. rewrite Z.div_1_r in Hn. rewrite R. replace n' with n by lia. by eexists. }
  cbn beta iota. eapply passes_bind; [intros k cs; exists k; by rewrite (proj2 (Z.ltb_lt 0 n)) by lia|].
  eapply (passes_bind _ _ _ (p + n * 1)); [intros k cs; rewrite fold_read_bytes, (fold_buffer buf s Hs Hbuf); by exists k|].
  rewrite wrapu_small by bound_lia. replace (flen F - p - n) with (flen F - (p + n * 1)) by lia.
  replace (crc_from s (drop (Z.to_nat p) F)) with (crc_from (crc_from s buf) (drop (Z.to_nat (p + n * 1)) F)).
  - apply IH; [by apply crc_from_range|lia|lia].
  - rewrite <- crc_from_app. f_equal. rewrite Z2Nat.inj_add, <- drop_drop by lia. apply take_drop.
Qed.

(** The note on a conversion that was forgotten: it is printed when the sizes add up
    with their bytes swapped as well. *)
Definition swapped (doctable_size index_size : Z) : list complaint :=
  if u32 (htonl doctable_size + htonl index_size) =? u32 (doctable_size + index_size) then [SwappedSizes] else [].

Section index.
Context (wdss : gmap positive (WordDocSet hash_ops)) (mi : HashTableRecord positive) (dt : DocTableRecord hash_ops hash_ops) (F : list Z).
Abbreviation dsz := (table_size doc_element (docid_to_docname dt)).
Abbreviation msz := (table_size (word_element wdss) mi).
Context (Hfits : index_fits wdss mi dt) (Hon : index_on wdss mi dt F) (H32 : flen F + 1 < 2 ^ 32).
Context (Hdocs : exists m, wf m (docid_to_docname dt)) (Hnames : forall x, x ∈ items (docid_to_docname dt) -> tidy_name (value x.2)).
Context (Hwords : exists m, wf m mi) (Htidy : forall x d, x ∈ items mi -> wdss !! value x.2 = Some d -> tidy_record d).

(** A run without complaints, then the rest. *)
Lemma passes_then {A B} p m p1 (a : A) (k : A -> M fsck B) n cs (P : B * fsck -> Prop) : passes F p m a p1 ->
  (forall n', exists r, k a (mk_fsck (mk_file F p1 n') cs) = Ok r /\ P r) -> exists r, bind m k (mk_fsck (mk_file F p n) cs) = Ok r /\ P r.
Proof. intros H1 H2. destruct (H1 n cs) as [n1 E1]. unfold bind. rewrite E1. apply H2. Qed.

Lemma header_fields a b c e : holds F 0 (disk_image (mk_header a b c e)) ->
  holds F 0 (bytes_be 4 a) /\ holds F 4 (bytes_be 4 b) /\ holds F 8 (bytes_be 4 c) /\ holds F 12 (bytes_be 4 e).
Proof.
  unfold disk_image. cbn [widths header_packed to_fields zip_with concat magic_number checksum doctable_size index_size].
  rewrite app_nil_r, !holds_app, !bytes_be_length. done.
Qed.

Lemma FileIndexChecker_quiet k : exists r, FileIndexChecker fails (mk_fsck (mk_file F 0 k) []) = Ok r /\ complaints r.2 = swapped dsz msz.
Proof.
  destruct Hon as [Hh Hd Hw Hsz Ho]. destruct Hfits as [Kd Kw _]. pose proof (table_size_pos _ _ Kd) as Hd0. pose proof (table_size_pos _ _ Kw) as Hm0.
  destruct Hdocs as [m1 W1], Hwords as [m2 W2].
  assert (Hc : is_u 32 (crc32 (drop 16 F))) by (apply lxor_u; [done| |done]; apply crc_from_range; [done|by apply Forall_drop]).
  destruct (header_fields _ _ _ _ Hh) as (H1 & H2 & H3 & H4). clear Hh. set (d := dsz) in *. set (m := msz) in *.
  assert (fits4 : forall x, is_u 32 x -> fits 4 x) by (intros x; apply (fits_u 4)). assert (w4 : width_ok 4) by (by right; left).
  unfold FileIndexChecker. eapply passes_then; [apply passes_seek|intros k1].
  eapply passes_then; [apply passes_net; [exact H1|done|by apply fits4|done]|intros k2]. rewrite Z.eqb_refl. eapply passes_then; [apply passes_ret|intros k3].
  eapply passes_then; [apply passes_net; [exact H2|done|by apply fits4|done]|intros k4].
  eapply passes_then; [apply passes_net; [exact H3|done|apply fits4; lia|done]|intros k5].
  eapply passes_then; [apply passes_net; [exact H4|done|apply fits4; lia|done]|intros k6].
  eapply passes_then; [apply passes_must|intros k7]. rewrite bind_gets. cbn [file_ bytes]. fold (flen F).
  rewrite (wrapu_small 32 (flen F)) by lia. rewrite (wrapu_small 32 (flen F - 16)) by lia.
  assert (Es : flen F - 16 = d + m) by lia. rewrite !Es, wrapu_small by lia.
  eapply passes_then; [apply passes_check, Z.eqb_refl|intros k8].
  assert (Hsw : forall f, Check (negb (u32 (htonl d + htonl m) =? d + m)) SwappedSizes (mk_fsck f []) = Ok (tt, mk_fsck f (swapped d m))).
  { intros f. unfold Check, swapped. rewrite (wrapu_small 32 (d + m)) by lia. by destruct (u32 (htonl d + htonl m) =? d + m). }
  unfold bind at 1. rewrite Hsw. rewrite <- Es.
  eapply passes_then; [apply (crc_loop_quiet F Ho ltac:(lia) _ 0xFFFFFFFF 16); [done|lia|]|intros k9].
  { pose proof (Z.div_mod (flen F) 512 ltac:(done)). pose proof (Z.mod_pos_bound (flen F) 512 ltac:(done)). lia. }
  change (GetFinalCRC (mk_crc (crc_from 0xFFFFFFFF (drop (Z.to_nat 16) F)) false)).1 with (crc32 (drop 16 F)).
  eapply passes_then; [apply passes_check, Z.eqb_refl|intros k10]. eapply passes_then; [apply passes_dup|intros k11].
  destruct (CheckTable_quiet doc_element (DocTable_CheckElement fails) F 16 _ Hd Kd ltac:(done)) with (p := flen F) as [p1 R1];
    [fold d; lia|by apply (doc_quiet F m1)|]. fold d in R1.
  eapply passes_then; [exact R1|intros k12]. eapply passes_then; [apply passes_dup|intros k13]. rewrite (wrapu_small 32 (16 + d)) by lia.
  destruct (CheckTable_quiet (word_element wdss) (IndexTable_CheckElement fails (mk_checker (16 + d) m)) F (16 + d) _ Hw Kw ltac:(lia)) with (p := p1) as [p2 R2];
    [fold m; lia|apply (word_quiet F wdss m2); [done|done|lia|fold m; lia|done]|]. fold m in R2.
  destruct (R2 k13 (swapped d m)) as [k14 R]. by eexists.
Qed.
End index.
End checker.

(** ** Words of a text are tidy *)

Definition lower (w : list Z) : Prop := w <> [] /\ Forall (fun c => 97 <= c <= 122) w.

Lemma words_from_lower text : forall pos run, Forall (fun c => 97 <= c <= 122) run -> Forall (fun x => lower x.1) (words_from text pos run).
Proof.
  induction text as [|c text IH]; intros pos run Hr; [constructor|]. cbn [words_from]. destruct (isalpha c) eqn:Ec.
  - apply IH, Forall_app. split; [done|]. constructor; [|constructor]. unfold isalpha in Ec. cbv beta. unfold tolower.
    destruct ((65 <=? c) && (c <=? 90)) eqn:E; lia.
  - destruct run; [by apply IH|]. constructor; [by split|by apply IH].
Qed.

(** Positions lie between the start of the current word and the end of the text. *)
Lemma words_from_sorted text : forall pos run, (length run <= pos)%nat -> Z.of_nat (pos + length text) < 2 ^ 32 ->
  StronglySorted Z.lt (words_from text pos run).*2 /\ Forall (fun x => Z.of_nat pos - Z.of_nat (length run) <= x.2 < 2 ^ 32) (words_from text pos run).
Proof.
  induction text as [|c text IH]; intros pos run Hr H32; [by split; constructor|]. cbn [words_from length] in *. destruct (isalpha c).
  - destruct (IH (S pos) (run ++ [tolower c])) as [HS HF]; [rewrite length_app; cbn; lia|lia|]. split; [done|].
    eapply Forall_impl; [exact HF|]. intros x. rewrite length_app. cbn. lia.
  - destruct (IH (S pos) []) as [HS HF]; [cbn; lia|lia|]. cbn [length] in HF. destruct run as [|b run].
    + split; [done|]. eapply Forall_impl; [exact HF|]. intros x. cbn. lia.
    + rewrite wrapu_small by (cbn [length] in *; lia). cbn [length] in *. split.
      * constructor; [done|]. apply Forall_fmap. eapply Forall_impl; [exact HF|]. intros x. cbn. lia.
      * constructor; [cbn [snd]; lia|]. eapply Forall_impl; [exact HF|]. intros x Hx. cbv beta in *. lia.
Qed.

Lemma positions_sorted text w : Z.of_nat (length text) < 2 ^ 32 ->
  Forall (fun p => is_u 32 p) (positions_of w (words text)) /\ Sorted Z.lt (positions_of w (words text)).
Proof.
  intros H32. destruct (words_from_sorted text 0 []) as [HS HF]; [done|done|]. rewrite <- words_scan in HS, HF. unfold positions_of.
  induction (words text) as [|x ws IH]; [by split; constructor|]. cbn [fmap list_fmap] in HS. inversion HS as [|? ? HS' Hx]; subst.
  inversion HF as [|? ? Hb HF']; subst. destruct (IH HS' HF') as [H1 H2]. destruct (decide (x.1 = w)) as [E|E].
  - rewrite filter_cons_True by done. cbn [fmap list_fmap]. split; [constructor; [cbn in Hb; lia|done]|]. constructor; [done|].
    apply StronglySorted_Sorted in HS'. clear -Hx.
    assert (Hf : Forall (Z.lt x.2) (filter (fun x => x.1 = w) ws).*2) by (apply Forall_forall; intros q (y & -> & [_ Hy]%list_elem_of_filter)%list_elem_of_fmap; by apply (proj1 (Forall_forall _ _) Hx), list_elem_of_fmap_2).
    destruct Hf; by constructor.
  - by rewrite filter_cons_False.
Qed.

Lemma positions_length_le w ws : (length (positions_of w ws) <= length ws)%nat.
Proof. unfold positions_of. rewrite length_fmap. apply length_filter. Qed.

(** ** The checker on what [buildfileindex] writes *)

Section built.
Context (vocabulary : list (list Z)).
Context (vocabulary_hash : forall w1 w2, w1 ∈ vocabulary -> w2 ∈ vocabulary -> FNVHash64 w1 = FNVHash64 w2 -> w1 = w2).
Context (vocabulary_size : Z.of_nat (length vocabulary) < capacity).
Context (paths : list (list Z)).
Context (paths_hash : forall p1 p2, p1 ∈ paths -> p2 ∈ paths -> FNVHash64 p1 = FNVHash64 p2 -> p1 = p2).
Context (paths_size : Z.of_nat (length paths) < capacity).

(** A text the checker's limits allow: its positions are told apart by 32 bits, and there
    are fewer than a million of them. *)
Definition modest (x : list Z * list Z) : Prop := Z.of_nat (length x.2) < 2 ^ 32 /\ Z.of_nat (length (words x.2)) < 1000000.

Definition short_word (w : list Z) : Prop := 0 < Z.of_nat (length w) < 8192 /\ Forall byte w.

Lemma posts_positions IX docs w dm id ps : posts IX docs -> IX !! w = Some dm -> dm !! id = Some ps ->
  exists x, x ∈ docs /\ ps = positions_of w (words x.2) /\ ps <> [].
Proof.
  intros HP Hw Hd. specialize (HP w id). rewrite Hw in HP. cbn in HP. rewrite Hd in HP. destruct (decide (1 <= id)); [|done].
  destruct (docs !! Z.to_nat (id - 1)) as [x|] eqn:Hx; [|done]. cbn in HP. rewrite index_of_lookup in HP.
  exists x. split; [by eapply list_elem_of_lookup_2|]. destruct (positions_of w (words x.2)) as [|q qs]; [done|]. injection HP as ->. done.
Qed.

Lemma lower_tidy w : lower w -> Z.of_nat (length w) < 8192 -> tidy_word w.
Proof.
  intros [Hne Hl] H. split; [destruct w; [done|cbn in *; lia]|]. eapply Forall_impl; [exact Hl|]. intros c Hc. cbv beta in *. lia.
Qed.

Lemma posted_tidy IX docs w dm id ps : posts IX docs -> Forall modest docs -> IX !! w = Some dm -> dm !! id = Some ps -> tidy_positions ps.
Proof.
  intros HP Hm Hw Hd. destruct (posts_positions IX docs w dm id ps HP Hw Hd) as (x & Hx & -> & Hne).
  destruct (proj1 (Forall_forall _ _) Hm x Hx) as [Hl Hn]. destruct (positions_sorted x.2 w Hl) as [Hu Hs]. split; [|done].
  pose proof (positions_length_le w (words x.2)). destruct (positions_of w (words x.2)); [done|]. cbn [length] in *. lia.
Qed.

(** The records of a crawled index are tidy. *)
Lemma crawled_tidy s idx IX docs x d : hash_index s idx IX -> posts IX docs -> Forall modest docs ->
  (forall w, is_Some (IX !! w) -> tidy_word w) -> x ∈ items idx -> wdss s !! value x.2 = Some d -> tidy_record d.
Proof.
  intros [(kvs & (Hwf & _ & _ & ->) & _ & Hf & _) _] HP Hm Hw Hx Hd. rewrite pairs_view in Hf.
  destruct (Hf _ _ (item_view _ _ _ Hwf Hx)) as (w & dm & d' & Hd' & _ & HIX & Hword & kvs' & (Hwf' & _ & _ & ->) & Hdm & _).
  rewrite Hd in Hd'. injection Hd' as <-. rewrite pairs_view in Hdm. split_and!; [rewrite Hword; by apply Hw|by eexists|].
  intros y Hy. apply (posted_tidy IX docs w dm (key y.2) (value y.2)); try done. rewrite <- Hdm. by apply (item_view (al s)).
Qed.

(** The names of a registry are tidy when the documents are. *)
Lemma registered_tidy m dt docs x : hash_registry m dt docs -> Forall tidy_name docs -> x ∈ items (docid_to_docname dt) -> tidy_name (value x.2).
Proof.
  intros [(ids & names & (Hwf & _ & _ & ->) & _ & _ & _ & Hmap & _) _ _] Ht Hx. rewrite pairs_view in Hmap.
  pose proof (item_view _ _ _ Hwf Hx) as Hv. rewrite Hmap in Hv. destruct (decide (1 <= key x.2)); [|done]. by eapply Forall_lookup_1.
Qed.

(** The indexed words are tidy. *)
Lemma words_tidy s idx IX docs w : hash_index s idx IX -> posts IX docs -> Forall (indexable vocabulary paths) docs -> Forall short_word vocabulary ->
  is_Some (IX !! w) -> tidy_word w.
Proof.
  intros Hix HP Hf Hs Hw. destruct (posted_word IX docs w HP (ix_nonempty _ _ _ Hix) Hw) as (x & Hx & Hin).
  destruct (proj1 (Forall_forall _ _) Hf x Hx) as (_ & _ & _ & Hv). destruct (proj1 (Forall_forall _ _) Hs w (Hv w Hin)) as [Hl _].
  apply lower_tidy; [|lia]. apply list_elem_of_fmap in Hin as (y & -> & Hy).
  rewrite words_scan in Hy. exact (proj1 (Forall_forall _ _) (words_from_lower x.2 0 [] ltac:(constructor)) y Hy).
Qed.

(** C3: [hw3fsck] has nothing to complain of in an index that [buildfileindex] wrote: when
    the names are ASCII and shorter than 1024 characters, the words shorter than 8192 and
    no text has a million words, it walks the whole file, every bucket, name, word and
    position, and exits with status 0 without a complaint.  Only when the two sizes in
    the header happen to add up with their bytes swapped too does it print its note on a
    forgotten conversion. *)
Theorem built_index_passes fails cfails s rootdir entries indexname dr : never_fails fails -> never_fails cfails ->
  rootdir <> [] -> fresh_store s -> plentiful (al s) -> readable_tree (Directory true entries) ->
  NoDup (tree_files (Directory true entries) rootdir).*1 ->
  Forall (indexable vocabulary paths) (tree_files (Directory true entries) rootdir) ->
  Forall short_word vocabulary -> Forall tidy_name paths ->
  Forall modest (filter has_words (tree_files (Directory true entries) rootdir)) ->
  index_bytes s rootdir (Directory true entries) + 1 < 2 ^ 32 ->
  exists w' d i, buildfileindex_main fails [rootdir; indexname] (Directory true entries) (mk_world s dr) = Ok (0, w') /\
    d + i + 16 = index_bytes s rootdir (Directory true entries) /\
    hw3fsck_main cfails (files (drive w')) [indexname] = Ok (0, swapped d i).
Proof.
  intros Hnf Hcnf Hroot Hfr Hp Hread Hnd Hidx Hshort Hpath Hmod H32.
  destruct (buildfileindex_ok vocabulary vocabulary_hash vocabulary_size paths paths_hash paths_size fails s rootdir entries indexname dr)
    as (w' & F & IX & HR & HF & HP & Hndocs & Hd & _ & Hfiles & s' & idx & dt & Hix & Hreg & Hfits & Hon & Hsz); try done.
  { eapply Forall_impl; [exact Hshort|]. intros w [Hl Hb]. split; [lia|done]. }
  { eapply Forall_impl; [exact Hpath|]. intros n [Hl Ha]. split; [lia|]. eapply Forall_impl; [exact Ha|]. unfold byte. cbv beta. lia. }
  { lia. }
  set (docs := filter has_words _) in *.
  exists w', (table_size doc_element (docid_to_docname dt)), (table_size (word_element (wdss s')) idx). split; [exact HR|]. split; [|unfold hw3fsck_main; rewrite HF, Hcnf].
  - rewrite <- Hsz, (io_size _ _ _ _ Hon). lia.
  - destruct (FileIndexChecker_quiet cfails Hcnf (wdss s') idx dt F Hfits Hon) with (k := 1%nat) as ([[] sf] & R & Hc).
    + lia.
    + destruct Hreg as [(ids & names & (Hwf & _) & _) _ _]. by eexists.
    + intros x. apply (registered_tidy (al s') dt docs.*1); [done|]. apply Forall_fmap, Forall_forall. intros y Hy.
      apply (proj1 (Forall_forall _ _) Hpath), (proj1 (Forall_forall _ _) Hfiles y Hy).
    + destruct Hix as [(kvs & (Hwf & _) & _) _]. by eexists.
    + intros x d. apply (crawled_tidy s' idx IX docs); [done|done|done|]. intros w. by apply (words_tidy s' idx IX docs).
    + rewrite R. cbn [rbind snd] in *. by rewrite <- Hc.
Qed.
End built.

(** ** What the complaints about the header show *)

(** The complaints about the tables. *)
Definition inner (c : complaint) : bool :=
  match c with BadMagic | BadSizes | SwappedSizes | BadChecksum => false | _ => true end.

(** No complaint is taken back, and the new ones are about the tables. *)
Class Grows {A} (m : M fsck A) : Prop := grows s a s' : m s = Ok (a, s') ->
  exists added, complaints s' = complaints s ++ added /\ Forall (fun c => inner c = true) added.

Lemma grows_none s s' : complaints s' = complaints s ->
  exists added, complaints s' = complaints s ++ added /\ Forall (fun c => inner c = true) added.
Proof. intros ->. exists []. by rewrite app_nil_r. Qed.

#[export] Instance grows_ret {A} (a : A) : Grows (ret a).
Proof. intros s b s' [= <- <-]. by apply grows_none. Qed.

#[export] Instance grows_bind {A B} (m : M fsck A) (k : A -> M fsck B) : Grows m -> (forall a, Grows (k a)) -> Grows (bind m k).
Proof.
  intros Hm Hk s b s'' (a & s' & (l1 & E1 & H1)%Hm & (l2 & E2 & H2)%Hk)%bind_inv.
  exists (l1 ++ l2). rewrite E2, E1, <- app_assoc. split; [done|by apply Forall_app].
Qed.

Lemma grows_check b c : inner c = true -> Grows (Check b c).
Proof. intros Hc s a s'. unfold Check. destruct b; intros [= <- <-]; [by apply grows_none|]. exists [c]. split; [done|by constructor]. Qed.

#[export] Instance grows_file {A} (m : M FILE A) : Grows (on_file m).
Proof. intros s a s'. unfold on_file. destruct (m (file_ s)) as [[b f]|]; [|done]. intros [= <- <-]. by apply grows_none. Qed.

#[export] Instance grows_ensure e b : Grows (ensure e b).
Proof. intros s a s'. unfold ensure. destruct b; [|done]. intros [= <- <-]. by apply grows_none. Qed.

#[export] Instance grows_gets {A} (f : fsck -> A) : Grows (gets f).
Proof. intros s a s' [= <- <-]. by apply grows_none. Qed.

#[export] Instance grows_lift {A} (r : res A) : Grows (fun s => match r with Ok a => Ok (a, s) | Err e => Err e end).
Proof. intros s a s'. destruct r; [|done]. intros [= <- <-]. by apply grows_none. Qed.

#[export] Instance grows_fail {A} e : Grows (fail e : M fsck A).
Proof. by intros s a s'. Qed.

#[local] Hint Extern 1 (Grows (Check _ _)) => apply grows_check; reflexivity : typeclass_instances.
#[local] Hint Extern 1 (Grows (match ?x with _ => _ end)) => destruct x : typeclass_instances.
#[local] Hint Extern 1 (Grows (let x := _ in _)) => cbv zeta : typeclass_instances.

Section grows.
Context (fails : nat -> bool).

#[export] Instance grows_seek off : Grows (seek fails off).
Proof. unfold seek. apply _. Qed.
#[export] Instance grows_block n : Grows (read_block fails n).
Proof. unfold read_block. apply _. Qed.
#[export] Instance grows_net w : Grows (read_net fails w).
Proof. unfold read_net. apply _. Qed.

Section table.
Context (fn : Z -> Z -> Z -> M fsck unit) `{forall nb p i, Grows (fn nb p i)} (c : HashTableChecker) (off len nb : Z).

#[export] Instance grows_chain n cur i j : Grows (chain_loop fails fn off len nb n cur i j).
Proof. revert cur i j. induction n as [|n IH]; intros cur i j; cbn [chain_loop]; apply _. Qed.

#[export] Instance grows_buckets n i found prev : Grows (bucket_loop fails fn c off len nb n i found prev).
Proof. revert i found prev. induction n as [|n IH]; intros i found prev; cbn [bucket_loop]; apply _. Qed.
End table.

#[export] Instance grows_table fn c off len : (forall nb p i, Grows (fn nb p i)) -> Grows (CheckTable fails fn c off len).
Proof. intros Hfn. unfold CheckTable. apply _. Qed.

#[export] Instance grows_name name k : Grows (name_loop name k).
Proof. revert k. induction name as [|ch name IH]; intros k; cbn [name_loop]; apply _. Qed.
#[export] Instance grows_word w k : Grows (word_loop w k).
Proof. revert k. induction w as [|ch w IH]; intros k; cbn [word_loop]; apply _. Qed.
#[export] Instance grows_positions n i prev : Grows (positions_loop fails n i prev).
Proof. revert i prev. induction n as [|n IH]; intros i prev; cbn [positions_loop]; apply _. Qed.

#[export] Instance grows_doc nb p i : Grows (DocTable_CheckElement fails nb p i).
Proof. unfold DocTable_CheckElement. apply _. Qed.
#[export] Instance grows_posting nb p i : Grows (DocIDTable_CheckElement fails nb p i).
Proof. unfold DocIDTable_CheckElement. apply _. Qed.
#[export] Instance grows_word_element c nb p i : Grows (IndexTable_CheckElement fails c nb p i).
Proof. unfold IndexTable_CheckElement. apply _. Qed.
#[export] Instance grows_crc fuel left_to_read c : Grows (crc_loop fails fuel left_to_read c).
Proof. revert left_to_read c. induction fuel as [|fuel IH]; intros left_to_read c; cbn [crc_loop]; apply _. Qed.
End grows.

Section verdict.
Context (fails : nat -> bool) (Hnf : never_fails fails) (F : list Z) (Hb : Forall byte F) (H32 : flen F < 2 ^ 32).

(** The field at [p]. *)
Definition field (p : nat) : Z := hton 4 (value_le (take 4 (drop p F))).

Lemma read_net_inv p k cs x s : read_net fails 4 (mk_fsck (mk_file F (Z.of_nat p) k) cs) = Ok (x, s) ->
  x = field p /\ Z.of_nat p + 4 <= flen F /\ exists k', s = mk_fsck (mk_file F (Z.of_nat (p + 4)) k') cs.
Proof.
  unfold read_net, read_block. intros (data & s1 & ((n & d) & s2 & R1 & R2)%bind_inv & R3)%bind_inv.
  unfold on_file, fread in R1. rewrite Hnf in R1. cbn [file_ bytes pos calls complaints] in R1. injection R1 as Hn Hd Hs2.
  fold (flen F) in Hn, Hd, Hs2. apply bind_inv in R2 as ([] & s3 & R4 & R5). unfold ensure in R4. destruct (Z.eqb_spec n 1) as [->|]; [|done].
  injection R4 as <-. injection R5 as <- <-. injection R3 as <- <-. rewrite Hn in Hd, Hs2. change (Z.to_nat (1 * Z.of_nat 4)) with 4%nat in Hd.
  rewrite Nat2Z.id in Hd. assert (H1 : 1 <= (flen F - Z.of_nat p) / Z.of_nat 4) by lia.
  pose proof (Z.mul_div_le (flen F - Z.of_nat p) (Z.of_nat 4) ltac:(lia)). split_and!; [by rewrite <- Hd|lia|].
  exists (S k). rewrite <- Hs2. by replace (Z.of_nat (p + 4)) with (Z.of_nat p + 1 * Z.of_nat 4) by lia.
Qed.

Lemma header_of_fields : 16 <= flen F -> header_of F = mk_header (field 0) (field 4) (field 8) (field 12).
Proof.
  intros H16. assert (El : length (take 16 F) = 16%nat) by (rewrite length_take; unfold flen in H16; lia).
  assert (Ef : forall p, (p + 4 <= 16)%nat -> field p = hton 4 (value_le (take 4 (drop p (take 16 F))))).
  { intros p Hp. unfold field. rewrite !take_drop_commute, take_take. by rewrite Nat.min_l by lia. }
  unfold header_of. rewrite !Ef by lia. clear Ef. generalize dependent (take 16 F). intros l El. do 17 (destruct l as [|? l]; try done).
Qed.

Lemma check_run b c f cs : Check b c (mk_fsck f cs) = Ok (tt, mk_fsck f (cs ++ if b then [] else [c])).
Proof. unfold Check. destruct b; [by rewrite app_nil_r|done]. Qed.

Lemma seek_inv off f cs s : seek fails off (mk_fsck f cs) = Ok (tt, s) -> exists k, s = mk_fsck (mk_file (bytes f) off k) cs.
Proof. unfold seek, on_file, fseek, bind. cbn [file_]. rewrite Hnf. intros [= <-]. by eexists. Qed.

Lemma quiet_check (b : bool) (c d : complaint) : c ∈ (if b then [] else [d]) <-> c = d /\ b = false.
Proof. destruct b; rewrite ?elem_of_nil, ?list_elem_of_singleton; naive_solver. Qed.
Lemma not_inner l c : Forall (fun c => inner c = true) l -> c ∈ l -> inner c = true.
Proof. rewrite Forall_forall. auto. Qed.

(** The three complaints about the header, in a run that ends. *)
Definition header_complaint (cs : list complaint) : Prop := BadMagic ∈ cs \/ BadSizes ∈ cs \/ BadChecksum ∈ cs.

Lemma header_complaint_cases b1 b2 b3 b4 l : Forall (fun c => inner c = true) l ->
  header_complaint (((((if b1 : bool then [] else [BadMagic]) ++ (if b2 : bool then [] else [BadSizes])) ++
    (if b3 : bool then [] else [SwappedSizes])) ++ (if b4 : bool then [] else [BadChecksum])) ++ l) <->
  ~ (b1 = true /\ b2 = true /\ b4 = true).
Proof.
  intros Hl. unfold header_complaint. rewrite !elem_of_app, !quiet_check.
  pose proof (not_inner l BadMagic Hl). pose proof (not_inner l BadSizes Hl). pose proof (not_inner l BadChecksum Hl).
  destruct b1, b2, b4; naive_solver.
Qed.

(** The sizes of the header add up, in both readings. *)
Lemma sizes_agree d i : 16 <= flen F ->
  (u32 (flen F - 16) =? u32 (d + i)) = bool_decide (flen F = u32 (16 + d + i)).
Proof.
  intros H16. rewrite (wrapu_small 32 (flen F - 16)) by lia.
  assert (E : (16 + d + i) mod 2 ^ 32 = (16 + (d + i) mod 2 ^ 32) mod 2 ^ 32) by (rewrite Zplus_mod_idemp_r; f_equal; lia).
  pose proof (wrapu_range 32 (d + i)) as Hr. unfold wrapu in *.
  case_bool_decide as Hs; [apply Z.eqb_eq|apply Z.eqb_neq].
  - rewrite <- (Z.mod_small (flen F - 16) (2 ^ 32)) by lia. rewrite Hs, Zminus_mod_idemp_l. f_equal. lia.
  - intros H. apply Hs. rewrite E, <- H, Z.mod_small; lia.
Qed.

(** The three are made exactly of the files that the constructor does not accept. *)
Lemma header_verdict k s : FileIndexChecker fails (mk_fsck (mk_file F 0 k) []) = Ok (tt, s) ->
  header_complaint (complaints s) <-> ~ accepted true F.
Proof.
  unfold FileIndexChecker. intros ([] & s0 & [k0 ->]%seek_inv & R)%bind_inv. cbn [bytes] in R.
  apply bind_inv in R as (magic & s1 & (-> & _ & k1 & ->)%(read_net_inv 0) & R).
  rewrite (bind_ok _ _ _ _ _ (check_run _ _ _ _)) in R.
  apply bind_inv in R as (sum & s2 & (-> & _ & k2 & ->)%(read_net_inv 4) & R).
  apply bind_inv in R as (dsize & s3 & (-> & _ & k3 & ->)%(read_net_inv 8) & R).
  apply bind_inv in R as (isize & s4 & (-> & H16 & k4 & ->)%(read_net_inv 12) & R).
  apply bind_inv in R as ([] & s5 & R5 & R). unfold on_file in R5. rewrite must_succeed_ok in R5 by done. injection R5 as <-.
  rewrite bind_gets in R. cbn [file_ bytes pos complaints] in R.
  do 2 rewrite (bind_ok _ _ _ _ _ (check_run _ _ _ _)) in R.
  fold (flen F) in R. change (Z.of_nat 12 + 4) with 16 in H16. change (Z.of_nat (12 + 4)) with 16 in R.
  rewrite (wrapu_small 32 (flen F)) in R by (unfold flen in *; lia). rewrite sizes_agree in R by done.
  rewrite (wrapu_small 32 (flen F - 16)) in R by lia.
  match type of R with context [mk_fsck _ ?c] => set (cs := c) in R end.
  destruct (crc_loop_quiet fails Hnf F Hb H32 (S (Z.to_nat (flen F / 512))) 0xFFFFFFFF 16) with (k := S k4) (cs := cs) as [k5 Rc]; [done|lia| |].
  { pose proof (Z.div_mod (flen F) 512 ltac:(done)). pose proof (Z.mod_pos_bound (flen F) 512 ltac:(done)). lia. }
  rewrite (bind_ok _ _ _ _ _ Rc) in R. rewrite (bind_ok _ _ _ _ _ (check_run _ _ _ _)) in R.
  match type of R with ?m _ = _ => assert (Hg : Grows m) by apply _ end.
  destruct (Hg _ _ _ R) as (added & -> & Hin). cbn [complaints]. unfold cs. rewrite header_complaint_cases by done.
  match goal with |- ~ (?x = _ /\ _) <-> _ => change x with (MAGIC_NUMBER =? field 0) end.
  unfold accepted. rewrite (header_of_fields H16). cbn [magic_number doctable_size index_size checksum].
  rewrite bool_decide_eq_true, !Z.eqb_eq.
  match goal with |- ~ (_ /\ _ /\ ?x = _) <-> _ => change x with (crc32 (drop 16 F)) end.
  naive_solver.
Qed.
End verdict.

(** C28: [hw3fsck] and the readers judge the header alike.  When a run of the checker ends
    without a complaint about the magic number, the sizes and the checksum, the constructor
    of the readers opens the file with validation and has its header; when the run makes
    one of these complaints, the constructor refuses the file by a failed check. *)
Theorem silent_run_opens fails rfails fs name F st cs k fuel : never_fails fails -> never_fails rfails ->
  fs !! name = Some F -> Forall byte F -> flen F < 2 ^ 32 -> flen F <= 512 * Z.of_nat fuel ->
  hw3fsck_main fails fs [name] = Ok (st, cs) ->
  (~ header_complaint cs -> exists f', new_FileIndexReader rfails (S fuel) true (mk_file F 0 k) = Ok (header_of F, f') /\ bytes f' = F) /\
  (header_complaint cs -> new_FileIndexReader rfails (S fuel) true (mk_file F 0 k) = Err VerifyFailed).
Proof.
  intros Hnf Hrf HF Hb H32 Hfuel HR. unfold hw3fsck_main in HR. rewrite HF, Hnf in HR.
  destruct (FileIndexChecker fails _) as [[[] s]|e] eqn:E; [|done]. injection HR as _ <-.
  rewrite (header_verdict fails Hnf F Hb H32 1 s E).
  pose proof (new_FileIndexReader_ok rfails Hrf F k fuel true Hb H32 Hfuel) as Ho. unfold opened in Ho.
  destruct (decide (accepted true F)); naive_solver.
Qed.

(** ** The sample tree and the small index *)

Lemma sample_words_short : Forall short_word sample_vocabulary.
Proof. repeat (constructor; [split; [cbn; lia|repeat (constructor; [unfold byte; lia|]); constructor]|]). constructor. Qed.
Lemma sample_paths_tidy : Forall tidy_name sample_paths.
Proof. repeat (constructor; [split; [cbn; lia|repeat (constructor; [cbn; lia|]); constructor]|]). constructor. Qed.
Lemma sample_modest : Forall modest (filter has_words (tree_files (Directory true sample_entries) [114])).
Proof. rewrite sample_files. repeat (constructor; [split; vm_compute; reflexivity|]). constructor. Qed.

(** Indexing the sample tree into the file i and checking it. *)
Lemma built_index_passes_witness : exists w' d i,
  buildfileindex_main no_failure [[114]; [105]] (Directory true sample_entries) (mk_world empty_store (mk_disk ∅ 0)) = Ok (0, w') /\
  hw3fsck_main no_failure (files (drive w')) [[105]] = Ok (0, swapped d i).
Proof.
  destruct empty_store_ok as [Hfr Hp]. assert (Hroot : [114] <> []) by discriminate.
  assert (H32 : index_bytes empty_store [114] (Directory true sample_entries) + 1 < 2 ^ 32) by (vm_compute; reflexivity).
  destruct (built_index_passes sample_vocabulary sample_vocabulary_hash eq_refl sample_paths sample_paths_hash eq_refl
    no_failure no_failure empty_store [114] sample_entries [105] (mk_disk ∅ 0) no_failure_ok no_failure_ok Hroot Hfr Hp sample_tree_readable
    sample_nodup sample_all_indexable sample_words_short sample_paths_tidy sample_modest H32) as (w' & d & i & HR & _ & Hc).
  exists w', d, i. split; [exact HR|exact Hc].
Defined.

(** The complaints about the small index, with [change] done to its bytes. *)
Definition small_check (change : list Z -> list Z) : option (res (Z * list complaint)) :=
  (fun nF => hw3fsck_main no_failure {[[105] := change nF.2]} [[105]]) <$> small_file no_failure.

(** Its name is at byte 42, its word at 65, the position at 94. *)
Example small_checks :
  small_check id = Some (Ok (0, [])) /\
  small_check <[42%nat := 200]> = Some (Ok (0, [BadChecksum; NameNotASCII 0])) /\
  small_check <[65%nat := 66]> = Some (Ok (0, [BadChecksum; WordNotLower 0])) /\
  small_check <[0%nat := 0]> = Some (Ok (0, [BadMagic])) /\
  small_check (take 97) = Some (Err AssertFailed).
Proof. split_and!; vm_compute; reflexivity. Qed.

(** A copy of a checker of words does not know the length of its table: it complains of a
    word well inside. *)
Example copied_checker : exists F c s, snd <$> small_file no_failure = Some F /\
  copy_HashTableChecker no_failure (mk_checker 43 55) 0 (mk_fsck (mk_file F 0 1) []) = Ok (c, s) /\
  exists s', CheckTable no_failure (IndexTable_CheckElement no_failure c) c 43 55 s = Ok (tt, s') /\ complaints s' = [WordOutside].
Proof. eexists _, _, _. split_and!; [vm_compute; reflexivity|reflexivity|]. eexists. split; vm_compute; reflexivity. Qed.

(** The file of the small index. *)
Definition small_F : list Z := default [] (snd <$> small_file no_failure).

Lemma silent_run_opens_witness :
  (exists f', new_FileIndexReader no_failure 2 true (mk_file small_F 0 1) = Ok (header_of small_F, f') /\ bytes f' = small_F) /\
  new_FileIndexReader no_failure 2 true (mk_file (<[65%nat := 66]> small_F) 0 1) = Err VerifyFailed.
Proof.
  split.
  - apply (silent_run_opens no_failure no_failure {[[105] := small_F]} [105] small_F 0 [] 1 1 no_failure_ok no_failure_ok).
    + reflexivity.
    + vm_compute. repeat (constructor; [split; [discriminate|reflexivity]|]). constructor.
    + vm_compute. reflexivity.
    + vm_compute. discriminate.
    + vm_compute. reflexivity.
    + intros [H|[H|H]]; by apply elem_of_nil in H.
  - apply (silent_run_opens no_failure no_failure {[[105] := <[65%nat := 66]> small_F]} [105] (<[65%nat := 66]> small_F) 0
      [BadChecksum; WordNotLower 0] 1 1 no_failure_ok no_failure_ok).
    + reflexivity.
    + vm_compute. repeat (constructor; [split; [discriminate|reflexivity]|]). constructor.
    + vm_compute. reflexivity.
    + vm_compute. discriminate.
    + vm_compute. reflexivity.
    + right. right. left.
Defined.
