(* ===== verification/JosString.v ===== *)
(** The string routines of the JOS kernel, [mit6.828/lab/lib/string.c], on a
    byte-addressed memory.  An address is an integer, a byte an integer below
    256; reading or writing an unmapped address is a [BadAccess].  [char] is
    signed.  The inline assembly of [memset] and [memmove] is modelled by the
    string instructions it consists of. *)
From S2P Require Import Prelude.
Open Scope Z_scope.

Abbreviation memory := (gmap Z Z).

Definition load (a : Z) : M memory Z := fun m =>
  match m !! a with Some b => Ok (b, m) | None => Err BadAccess end.
Definition store (a b : Z) : M memory unit := fun m =>
  match m !! a with Some _ => Ok (tt, <[a := u8 b]> m) | None => Err BadAccess end.

(** [*s] for [const char *s] *)
Definition load_char (a : Z) : M memory Z := let* b := load a in ret (s8 b).

(** *** Strings; every loop has the fuel of the longest string it can meet *)

Fixpoint strlen_loop (fuel : nat) (s n : Z) : M memory Z :=
  match fuel with
  | O => fail OutOfFuel
  | S fuel' =>
      let* c := load_char s in
      if c =? 0 then ret n else strlen_loop fuel' (s + 1) (s32 (n + 1))
  end.
Definition strlen (fuel : nat) (s : Z) : M memory Z := strlen_loop fuel s 0.

Fixpoint strnlen_loop (fuel : nat) (s size n : Z) : M memory Z :=
  match fuel with
  | O => fail OutOfFuel
  | S fuel' =>
      if size <=? 0 then ret n
      else
        let* c := load_char s in
        if c =? 0 then ret n else strnlen_loop fuel' (s + 1) (size - 1) (s32 (n + 1))
  end.
Definition strnlen (fuel : nat) (s size : Z) : M memory Z := strnlen_loop fuel s size 0.

Fixpoint strcpy_loop (fuel : nat) (dst src : Z) : M memory unit :=
  match fuel with
  | O => fail OutOfFuel
  | S fuel' =>
      let* c := load_char src in
      do* store dst c;
      if c =? 0 then ret tt else strcpy_loop fuel' (dst + 1) (src + 1)
  end.
Definition strcpy (fuel : nat) (dst src : Z) : M memory Z :=
  do* strcpy_loop fuel dst src; ret dst.

Definition strcat (fuel : nat) (dst src : Z) : M memory Z :=
  let* len := strlen fuel dst in
  do* strcpy fuel (dst + len) src;
  ret dst.

Fixpoint strncpy_loop (size : nat) (dst src : Z) : M memory unit :=
  match size with
  | O => ret tt
  | S size' =>
      let* c := load_char src in
      do* store dst c;
      strncpy_loop size' (dst + 1) (if c =? 0 then src else src + 1)
  end.
Definition strncpy (dst src size : Z) : M memory Z :=
  do* strncpy_loop (Z.to_nat size) dst src; ret dst.

(** [while (--size > 0 && *src != '\0')], with [size] still to be decremented *)
Fixpoint strlcpy_loop (size : nat) (dst src : Z) : M memory Z :=
  match size with
  | O | S O => ret dst
  | S size' =>
      let* c := load_char src in
      if c =? 0 then ret dst
      else do* store dst c; strlcpy_loop size' (dst + 1) (src + 1)
  end.
Definition strlcpy (dst src size : Z) : M memory Z :=
  if size <=? 0 then ret 0
  else
    let* d := strlcpy_loop (Z.to_nat size) dst src in
    do* store d 0;
    ret (d - dst).

(** [(int) ((unsigned char) *p - (unsigned char) *q)] *)
Definition char_difference (p q : Z) : M memory Z :=
  let* a := load p in let* b := load q in ret (a - b).

Fixpoint strcmp (fuel : nat) (p q : Z) : M memory Z :=
  match fuel with
  | O => fail OutOfFuel
  | S fuel' =>
      let* a := load_char p in
      if a =? 0 then char_difference p q
      else
        let* b := load_char q in
        if a =? b then strcmp fuel' (p + 1) (q + 1) else char_difference p q
  end.

Fixpoint strncmp (n : nat) (p q : Z) : M memory Z :=
  match n with
  | O => ret 0
  | S n' =>
      let* a := load_char p in
      if a =? 0 then char_difference p q
      else
        let* b := load_char q in
        if a =? b then strncmp n' (p + 1) (q + 1) else char_difference p q
  end.

Fixpoint strchr (fuel : nat) (s c : Z) : M memory Z :=
  match fuel with
  | O => fail OutOfFuel
  | S fuel' =>
      let* a := load_char s in
      if a =? 0 then ret 0 else if a =? c then ret s else strchr fuel' (s + 1) c
  end.

Fixpoint strfind (fuel : nat) (s c : Z) : M memory Z :=
  match fuel with
  | O => fail OutOfFuel
  | S fuel' =>
      let* a := load_char s in
      if a =? 0 then ret s else if a =? c then ret s else strfind fuel' (s + 1) c
  end.

(** *** Blocks *)

(** A little-endian 32-bit store and load. *)
Definition store32 (a v : Z) : M memory unit :=
  do* store a (Z.land v 255);
  do* store (a + 1) (Z.land (Z.shiftr v 8) 255);
  do* store (a + 2) (Z.land (Z.shiftr v 16) 255);
  store (a + 3) (Z.land (Z.shiftr v 24) 255).
Definition load32 (a : Z) : M memory Z :=
  let* b0 := load a in let* b1 := load (a + 1) in
  let* b2 := load (a + 2) in let* b3 := load (a + 3) in
  ret (Z.lor b0 (Z.lor (Z.shiftl b1 8) (Z.lor (Z.shiftl b2 16) (Z.shiftl b3 24)))).

(** [rep stosb]/[rep stosl] with the direction flag clear: [ecx] stores of
    [size] bytes. *)
Fixpoint rep_stos (sto : Z -> M memory unit) (ecx : nat) (edi size : Z) : M memory unit :=
  match ecx with
  | O => ret tt
  | S ecx' => do* sto edi; rep_stos sto ecx' (edi + size) size
  end.
Definition stosb (al edi : Z) : M memory unit := store edi al.
Definition stosl (eax edi : Z) : M memory unit := store32 edi eax.

(** [rep movsb]/[rep movsl]; [step] is the element size, negative after [std]. *)
Fixpoint rep_movs (mov : Z -> Z -> M memory unit) (ecx : nat) (edi esi step : Z) : M memory unit :=
  match ecx with
  | O => ret tt
  | S ecx' => do* mov edi esi; rep_movs mov ecx' (edi + step) (esi + step) step
  end.
Definition movsb (edi esi : Z) : M memory unit := let* b := load esi in store edi b.
Definition movsl (edi esi : Z) : M memory unit := let* v := load32 esi in store32 edi v.

(** [(int)p % 4 == 0] *)
Definition aligned (p : Z) : bool := Z.rem (s32 p) 4 =? 0.

Definition memset (v c n : Z) : M memory Z :=
  if n =? 0 then ret v
  else if aligned v && (n mod 4 =? 0) then
    let c := Z.land c 0xFF in
    let c := Z.lor (Z.lor (Z.lor (Z.shiftl c 24) (Z.shiftl c 16)) (Z.shiftl c 8)) c in
    do* rep_stos (stosl c) (Z.to_nat (n / 4)) v 4;
    ret v
  else
    do* rep_stos (stosb (u8 c)) (Z.to_nat n) v 1;
    ret v.

Definition memmove (dst src n : Z) : M memory Z :=
  if (src <? dst) && (dst <? src + n) then
    let s := src + n in
    let d := dst + n in
    do* (if aligned s && aligned d && (n mod 4 =? 0)
         then rep_movs movsl (Z.to_nat (n / 4)) (d - 4) (s - 4) (-4)
         else rep_movs movsb (Z.to_nat n) (d - 1) (s - 1) (-1));
    ret dst
  else
    do* (if aligned src && aligned dst && (n mod 4 =? 0)
         then rep_movs movsl (Z.to_nat (n / 4)) dst src 4
         else rep_movs movsb (Z.to_nat n) dst src 1);
    ret dst.

Definition memcpy (dst src n : Z) : M memory Z := memmove dst src n.

Fixpoint memcmp (n : nat) (s1 s2 : Z) : M memory Z :=
  match n with
  | O => ret 0
  | S n' =>
      let* a := load s1 in
      let* b := load s2 in
      if negb (a =? b) then ret (a - b) else memcmp n' (s1 + 1) (s2 + 1)
  end.

Fixpoint memfind (n : nat) (s c : Z) : M memory Z :=
  match n with
  | O => ret s
  | S n' =>
      let* b := load s in
      if b =? u8 c then ret s else memfind n' (s + 1) c
  end.

(** *** Numbers; [long] has 32 bits *)

Fixpoint skip_blanks (fuel : nat) (s : Z) : M memory Z :=
  match fuel with
  | O => fail OutOfFuel
  | S fuel' =>
      let* c := load_char s in
      if (c =? 32) || (c =? 9) then skip_blanks fuel' (s + 1) else ret s
  end.

(** The value of a digit or letter, [None] for any other character. *)
Definition digit_value (c : Z) : option Z :=
  if (48 <=? c) && (c <=? 57) then Some (c - 48)
  else if (97 <=? c) && (c <=? 122) then Some (c - 97 + 10)
  else if (65 <=? c) && (c <=? 90) then Some (c - 65 + 10)
  else None.

Fixpoint strtol_digits (fuel : nat) (s base val : Z) : M memory (Z * Z) :=
  match fuel with
  | O => fail OutOfFuel
  | S fuel' =>
      let* c := load_char s in
      match digit_value c with
      | None => ret (s, val)
      | Some dig =>
          if base <=? dig then ret (s, val)
          else strtol_digits fuel' (s + 1) base (s32 (val * base + dig))
      end
  end.

Definition strtol_sign (s : Z) : M memory (Z * bool) :=
  let* c := load_char s in
  ret (if c =? 43 then (s + 1, false) else if c =? 45 then (s + 1, true) else (s, false)).

Definition strtol_prefix (s base : Z) : M memory (Z * Z) :=
  let* prefix16 :=
    (if (base =? 0) || (base =? 16) then
       let* c0 := load_char s in
       if c0 =? 48 then let* c1 := load_char (s + 1) in ret (c1 =? 120) else ret false
     else ret false) in
  if (prefix16 : bool) then ret (s + 2, 16)
  else if base =? 0 then
    let* c0 := load_char s in
    if c0 =? 48 then ret (s + 1, 8) else ret (s, 10)
  else ret (s, base).

(** The value and the end pointer. *)
Definition strtol (fuel : nat) (s base : Z) : M memory (Z * Z) :=
  let* s := skip_blanks fuel s in
  let* (s, neg) := strtol_sign s in
  let* (s, base) := strtol_prefix s base in
  let* (s, val) := strtol_digits fuel s base 0 in
  ret (if (neg : bool) then s32 (- val) else val, s).
