(* ===== verification/JosStringSpec.v ===== *)
(** What the routines of [JosString] do to memory: the block routines move and
    fill a range and nothing else, whichever instruction they choose; the
    string routines meet the C library's contracts on NUL-terminated strings. *)
From Stdlib Require Import ZArith Lia Bool Btauto.
From S2P Require Import Prelude JosString.
Open Scope Z_scope.

(** ** Memory *)

(** Every byte is one. *)
Definition bytes_wf (m : memory) : Prop := forall a b, m !! a = Some b -> 0 <= b < 256.
(** The [n] addresses from [a] are mapped. *)
Definition mapped (m : memory) (a n : Z) : Prop := forall i, a <= i < a + n -> is_Some (m !! i).
Definition in_range (a n i : Z) : bool := (a <=? i) && (i <? a + n).
(** [m'] is [m] with the [n] bytes at [src] written at [dst]. *)
Definition moved (m m' : memory) (dst src n : Z) : Prop :=
  forall i, m' !! i = if in_range dst n i then m !! (src + (i - dst)) else m !! i.
(** [m'] is [m] with [n] bytes [c] at [v]. *)
Definition filled (m m' : memory) (v n c : Z) : Prop :=
  forall i, m' !! i = if in_range v n i then Some c else m !! i.

Lemma in_range_spec a n i : reflect (a <= i < a + n) (in_range a n i).
Proof.
  apply iff_reflect. unfold in_range. rewrite andb_true_iff, Z.leb_le, Z.ltb_lt. done.
Qed.

Ltac ranges :=
  repeat match goal with
  | |- context [in_range ?a ?n ?i] => destruct (in_range_spec a n i)
  | H : context [in_range ?a ?n ?i] |- _ => destruct (in_range_spec a n i)
  end; try lia; try reflexivity.

Lemma u8_byte b : 0 <= b < 256 -> u8 b = b.
Proof. intros; apply wrapu_small; bound_lia. Qed.

Lemma load_run (m : memory) a b : m !! a = Some b -> load a m = Ok (b, m).
Proof. intros H; unfold load; by rewrite H. Qed.

Lemma store_run (m : memory) a b : is_Some (m !! a) -> store a b m = Ok (tt, <[a := u8 b]> m).
Proof. intros [x H]; unfold store; by rewrite H. Qed.

Lemma mapped_insert m a n i b : mapped m a n -> mapped (<[i := b]> m) a n.
Proof. intros H j Hj. apply lookup_insert_is_Some'. right. by apply H. Qed.

Lemma mapped_sub m a n b k : mapped m a n -> a <= b -> b + k <= a + n -> mapped m b k.
Proof. intros H ?? i Hi. apply H. lia. Qed.

Lemma mapped_at m a n : mapped m a n -> 0 < n -> is_Some (m !! a).
Proof. intros H ?. apply H. lia. Qed.

Lemma bytes_wf_insert m i b : bytes_wf m -> 0 <= b < 256 -> bytes_wf (<[i := b]> m).
Proof. intros H Hb a x. rewrite lookup_insert_Some. intros [[_ <-]|[_ Hx]]; eauto. Qed.

Lemma u8_range b : 0 <= u8 b < 256.
Proof. pose proof (wrapu_range 8 b). bound_lia. Qed.

Lemma moved_mapped m m' dst src n a k :
  moved m m' dst src n -> mapped m src n -> mapped m a k -> mapped m' a k.
Proof. intros Hm Hs Ha i Hi. rewrite Hm. ranges; [apply Hs; lia|by apply Ha]. Qed.

Lemma moved_wf m m' dst src n : moved m m' dst src n -> bytes_wf m -> bytes_wf m'.
Proof. intros Hm Hw i b. rewrite Hm. ranges; apply Hw. Qed.

(** ** Words *)

Lemma byte_testbit b i : 0 <= b < 256 -> 8 <= i -> Z.testbit b i = false.
Proof.
  intros Hb Hi. rewrite <- (u8_byte b Hb). unfold wrapu. apply Z.mod_pow2_bits_high. lia.
Qed.

Definition word (b0 b1 b2 b3 : Z) : Z :=
  Z.lor b0 (Z.lor (Z.shiftl b1 8) (Z.lor (Z.shiftl b2 16) (Z.shiftl b3 24))).

(** A word stored is the four bytes it was loaded from. *)
Lemma word_byte b0 b1 b2 b3 : 0 <= b0 < 256 -> 0 <= b1 < 256 -> 0 <= b2 < 256 -> 0 <= b3 < 256 ->
  let w := word b0 b1 b2 b3 in
  Z.land w 255 = b0 /\ Z.land (Z.shiftr w 8) 255 = b1 /\
  Z.land (Z.shiftr w 16) 255 = b2 /\ Z.land (Z.shiftr w 24) 255 = b3.
Proof.
  intros H0 H1 H2 H3 w. change 255 with (Z.ones 8).
  assert (Hbit : forall k i, 0 <= k -> 0 <= i ->
    Z.testbit (Z.land (Z.shiftr w k) (Z.ones 8)) i =
    (i <? 8) && Z.testbit w (i + k)).
  { intros k i Hk Hi. rewrite Z.land_spec, Z.shiftr_spec by lia.
    destruct (Z.ltb_spec i 8).
    - rewrite Z.ones_spec_low by lia. by rewrite andb_true_r.
    - rewrite Z.ones_spec_high by lia. by rewrite andb_false_r. }
  assert (Hw : forall i, 0 <= i -> Z.testbit w i =
    Z.testbit b0 i || (Z.testbit b1 (i - 8) || (Z.testbit b2 (i - 16) || Z.testbit b3 (i - 24)))).
  { intros i Hi. unfold w, word. by rewrite !Z.lor_spec, !Z.shiftl_spec by lia. }
  assert (Hneg : forall b i, i < 0 -> Z.testbit b i = false) by (intros; by apply Z.testbit_neg_r).
  rewrite <- (Z.shiftr_0_r w) at 1.
  repeat split; apply Z.bits_inj'; intros i Hi; rewrite Hbit, Hw by lia;
    (destruct (Z.ltb_spec i 8); cbn [andb];
     [|symmetry; apply byte_testbit; lia]);
    repeat match goal with
    | |- context [Z.testbit ?b ?j] =>
        first [rewrite (Hneg b j) by lia | rewrite (byte_testbit b j) by lia]
    end; rewrite ?orb_false_r; cbn [orb]; f_equal; lia.
Qed.

(** One element moved, of [w] bytes. *)
Definition moves (mov : Z -> Z -> M memory unit) (w : Z) : Prop :=
  forall m d s, bytes_wf m -> mapped m s w -> mapped m d w ->
    exists m', mov d s m = Ok (tt, m') /\ moved m m' d s w.

Lemma movsb_moves : moves movsb 1.
Proof.
  intros m d s Hw Hs Hd. destruct (mapped_at _ _ _ Hs) as [b Hb]; [lia|].
  exists (<[d := b]> m). unfold movsb. step (load_run _ _ _ Hb).
  rewrite store_run by (by eapply mapped_at). rewrite (u8_byte b) by eauto. split; [done|].
  intros i. ranges; [|by rewrite lookup_insert_ne by lia].
  replace i with d by lia. rewrite lookup_insert_eq. by replace (s + (d - d)) with s by lia.
Qed.

Lemma store32_run m a v : mapped m a 4 ->
  store32 a v m = Ok (tt,
    <[a + 3 := u8 (Z.land (Z.shiftr v 24) 255)]> (<[a + 2 := u8 (Z.land (Z.shiftr v 16) 255)]>
    (<[a + 1 := u8 (Z.land (Z.shiftr v 8) 255)]> (<[a := u8 (Z.land v 255)]> m)))).
Proof.
  intros Hm. unfold store32.
  assert (H : forall i, a <= i < a + 4 -> is_Some (m !! i)) by (intros; by apply Hm).
  rewrite (bind_ok _ _ _ _ _ (store_run m a _ ltac:(apply H; lia))).
  do 2 (erewrite bind_ok; [|apply store_run; repeat (apply lookup_insert_is_Some'; right); apply H; lia]).
  apply store_run. repeat (apply lookup_insert_is_Some'; right). apply H; lia.
Qed.

Lemma movsl_moves : moves movsl 4.
Proof.
  intros m d s Hw Hs Hd. unfold movsl, load32.
  destruct (Hs s) as [b0 H0], (Hs (s + 1)) as [b1 H1], (Hs (s + 2)) as [b2 H2],
    (Hs (s + 3)) as [b3 H3]; try lia.
  rewrite !bind_assoc. step (load_run _ _ _ H0). rewrite !bind_assoc. step (load_run _ _ _ H1).
  rewrite !bind_assoc. step (load_run _ _ _ H2). rewrite !bind_assoc. step (load_run _ _ _ H3).
  rewrite bind_ret. fold (word b0 b1 b2 b3). rewrite store32_run by done.
  destruct (word_byte b0 b1 b2 b3) as (-> & -> & -> & ->); [eauto..|].
  rewrite !u8_byte by eauto. eexists; split; [done|]. intros i. ranges.
  - assert (i = d \/ i = d + 1 \/ i = d + 2 \/ i = d + 3) as [-> | [-> | [-> | ->]]] by lia;
      repeat (rewrite lookup_insert_ne by lia); rewrite lookup_insert_eq; symmetry;
      [rewrite <- H0|rewrite <- H1|rewrite <- H2|rewrite <- H3]; f_equal; lia.
  - by rewrite !lookup_insert_ne by lia.
Qed.

(** ** [rep movs] *)

Section rep_movs.
Context (mov : Z -> Z -> M memory unit) (w : Z) (Hw0 : 0 < w) (Hmov : moves mov w).

(** Upwards, when the destination is not above the source inside it. *)
Lemma rep_movs_up k m d s : let n := Z.of_nat k * w in
  bytes_wf m -> mapped m s n -> mapped m d n -> d <= s \/ s + n <= d ->
  exists m', rep_movs mov k d s w m = Ok (tt, m') /\ moved m m' d s n.
Proof.
  revert m d s. induction k as [|k IH]; intros m d s n Hwf Hs Hd Hds; cbn [rep_movs].
  - exists m. split; [done|]. intros i. unfold n. ranges.
  - assert (Hn : n = Z.of_nat k * w + w) by (unfold n; lia).
    assert (0 <= Z.of_nat k * w) by (apply Z.mul_nonneg_nonneg; lia).
    destruct (Hmov m d s) as (m1 & E1 & M1);
      [done|eapply mapped_sub; [exact Hs|lia..]|eapply mapped_sub; [exact Hd|lia..]|].
    destruct (IH m1 (d + w) (s + w)) as (m2 & E2 & M2).
    + by eapply moved_wf.
    + eapply moved_mapped; [exact M1|eapply mapped_sub; [exact Hs|lia..]..].
    + eapply moved_mapped; [exact M1|eapply mapped_sub; [exact Hs|lia..]|].
      eapply mapped_sub; [exact Hd|lia..].
    + lia.
    + exists m2. step E1. split; [done|]. intros i. rewrite M2.
      ranges; rewrite M1; ranges; f_equal; lia.
Qed.

(** Downwards, when the destination is above the source. *)
Lemma rep_movs_down k m d s : let n := Z.of_nat k * w in
  bytes_wf m -> mapped m s n -> mapped m d n -> s < d ->
  exists m', rep_movs mov k (d + n - w) (s + n - w) (- w) m = Ok (tt, m') /\ moved m m' d s n.
Proof.
  revert m. induction k as [|k IH]; intros m n Hwf Hs Hd Hds; cbn [rep_movs].
  - exists m. split; [done|]. intros i. unfold n. ranges.
  - assert (Hn : n = Z.of_nat k * w + w) by (unfold n; lia).
    assert (0 <= Z.of_nat k * w) by (apply Z.mul_nonneg_nonneg; lia).
    destruct (Hmov m (d + n - w) (s + n - w)) as (m1 & E1 & M1);
      [done|eapply mapped_sub; [exact Hs|lia..]|eapply mapped_sub; [exact Hd|lia..]|].
    destruct (IH m1) as (m2 & E2 & M2).
    + by eapply moved_wf.
    + eapply moved_mapped; [exact M1|eapply mapped_sub; [exact Hs|lia..]..].
    + eapply moved_mapped; [exact M1|eapply mapped_sub; [exact Hs|lia..]|].
      eapply mapped_sub; [exact Hd|lia..].
    + lia.
    + exists m2. step E1. split.
      * rewrite <- E2. f_equal; lia.
      * intros i. rewrite M2. ranges; rewrite M1; ranges; f_equal; lia.
Qed.
End rep_movs.

Lemma words_count n : 0 <= n -> n mod 4 = 0 -> Z.of_nat (Z.to_nat (n / 4)) * 4 = n.
Proof. intros. rewrite Z2Nat.id by (apply Z.div_pos; lia). pose proof (Z.div_mod n 4). lia. Qed.

(** Whichever element size the code picks. *)
Lemma rep_movs_pick m (up al : bool) d s n : 0 <= n -> bytes_wf m -> mapped m s n -> mapped m d n ->
  (if up then d <= s \/ s + n <= d else s < d) -> (al = true -> n mod 4 = 0) ->
  exists m',
    (if up then
       if al then rep_movs movsl (Z.to_nat (n / 4)) d s 4 else rep_movs movsb (Z.to_nat n) d s 1
     else
       if al then rep_movs movsl (Z.to_nat (n / 4)) (d + n - 4) (s + n - 4) (-4)
       else rep_movs movsb (Z.to_nat n) (d + n - 1) (s + n - 1) (-1)) m = Ok (tt, m') /\
    moved m m' d s n.
Proof.
  intros Hn Hwf Hs Hd Hds Hal.
  assert (H1 : Z.of_nat (Z.to_nat n) * 1 = n) by lia.
  pose proof (words_count n Hn) as H4.
  pose proof (rep_movs_up movsb 1 ltac:(lia) movsb_moves (Z.to_nat n) m d s) as U1.
  pose proof (rep_movs_up movsl 4 ltac:(lia) movsl_moves (Z.to_nat (n / 4)) m d s) as U4.
  pose proof (rep_movs_down movsb 1 ltac:(lia) movsb_moves (Z.to_nat n) m d s) as D1.
  pose proof (rep_movs_down movsl 4 ltac:(lia) movsl_moves (Z.to_nat (n / 4)) m d s) as D4.
  cbn zeta in *. rewrite H1 in U1, D1.
  destruct al; [rewrite H4 in U4, D4 by auto|]; destruct up; auto.
Qed.

Lemma memmove_ok m dst src n : 0 <= n -> bytes_wf m -> mapped m src n -> mapped m dst n ->
  exists m', memmove dst src n m = Ok (dst, m') /\ moved m m' dst src n.
Proof.
  intros Hn Hwf Hs Hd. unfold memmove.
  set (down := (src <? dst) && (dst <? src + n)).
  set (al p q := aligned p && aligned q && (n mod 4 =? 0)).
  assert (Hal : forall p q, al p q = true -> n mod 4 = 0)
    by (intros p q [_ H]%andb_true_iff; by apply Z.eqb_eq).
  destruct down eqn:Hdown; unfold down in Hdown.
  - apply andb_true_iff in Hdown as [H1%Z.ltb_lt H2%Z.ltb_lt].
    destruct (rep_movs_pick m false (al (src + n) (dst + n)) dst src n)
      as (m' & E & HM); [done..|eauto|]. exists m'. by step E.
  - apply andb_false_iff in Hdown as Hd'. rewrite !Z.ltb_ge in Hd'.
    destruct (rep_movs_pick m true (al src dst) dst src n)
      as (m' & E & HM); [done..|lia|eauto|]. exists m'. by step E.
Qed.

(** ** [memset] *)

Definition stores (sto : Z -> M memory unit) (w c : Z) : Prop :=
  forall m a, mapped m a w -> exists m', sto a m = Ok (tt, m') /\ filled m m' a w c.

Lemma filled_mapped m m' v n c a k : filled m m' v n c -> mapped m a k -> mapped m' a k.
Proof. intros Hf Ha i Hi. rewrite Hf. ranges; [eauto|by apply Ha]. Qed.

Lemma rep_stos_ok sto w c k m a : let n := Z.of_nat k * w in
  0 < w -> stores sto w c -> mapped m a n ->
  exists m', rep_stos sto k a w m = Ok (tt, m') /\ filled m m' a n c.
Proof.
  revert m a. induction k as [|k IH]; intros m a n Hw Hst Hm; cbn [rep_stos].
  - exists m. split; [done|]. intros i. unfold n. ranges.
  - assert (Hn : n = Z.of_nat k * w + w) by (unfold n; lia).
    assert (0 <= Z.of_nat k * w) by (apply Z.mul_nonneg_nonneg; lia).
    destruct (Hst m a) as (m1 & E1 & M1); [eapply mapped_sub; [exact Hm|lia..]|].
    destruct (IH m1 (a + w)) as (m2 & E2 & M2); [done|done| |].
    + eapply filled_mapped, mapped_sub; [exact M1|exact Hm|lia..].
    + exists m2. step E1. split; [done|]. intros i. rewrite M2. ranges; rewrite M1; ranges.
Qed.

Lemma stosb_stores b : 0 <= b < 256 -> stores (stosb b) 1 b.
Proof.
  intros Hb m a Hm. exists (<[a := b]> m). unfold stosb.
  rewrite store_run, u8_byte by (done || by eapply mapped_at). split; [done|].
  intros i. ranges; [replace i with a by lia; by rewrite lookup_insert_eq|].
  by rewrite lookup_insert_ne by lia.
Qed.

Lemma stosl_stores b : 0 <= b < 256 -> stores (stosl (word b b b b)) 4 b.
Proof.
  intros Hb m a Hm. unfold stosl. rewrite store32_run by done.
  destruct (word_byte b b b b) as (-> & -> & -> & ->); [done..|]. rewrite !u8_byte by done.
  eexists; split; [done|]. intros i. ranges.
  - assert (i = a \/ i = a + 1 \/ i = a + 2 \/ i = a + 3) as [-> | [-> | [-> | ->]]] by lia;
      repeat (rewrite lookup_insert_ne by lia); by rewrite lookup_insert_eq.
  - by rewrite !lookup_insert_ne by lia.
Qed.

Lemma memset_word c : let b := Z.land c 255 in
  Z.lor (Z.lor (Z.lor (Z.shiftl b 24) (Z.shiftl b 16)) (Z.shiftl b 8)) b = word b b b b.
Proof.
  intros b. unfold word. rewrite <- !Z.lor_assoc. rewrite (Z.lor_comm b).
  rewrite <- !Z.lor_assoc. apply Z.bits_inj'. intros i _. rewrite !Z.lor_spec. btauto.
Qed.

Lemma land_255 c : Z.land c 255 = u8 c.
Proof. change 255 with (Z.ones 8). by rewrite Z.land_ones by lia. Qed.

Lemma memset_ok m v c n : 0 <= n -> mapped m v n ->
  exists m', memset v c n m = Ok (v, m') /\ filled m m' v n (u8 c).
Proof.
  intros Hn Hm. unfold memset. pose proof (u8_range c) as Hc.
  destruct (Z.eqb_spec n 0) as [->|]; [exists m; split; [done|]; intros i; ranges|].
  destruct (aligned v && (n mod 4 =? 0)) eqn:Hal.
  - apply andb_true_iff in Hal as [_ H4%Z.eqb_eq%words_count]; [|done].
    rewrite memset_word, land_255.
    destruct (rep_stos_ok (stosl (word (u8 c) (u8 c) (u8 c) (u8 c))) 4 (u8 c)
      (Z.to_nat (n / 4)) m v) as (m' & E & F); rewrite ?H4 in *;
      [lia|by apply stosl_stores|done|]. exists m'. by step E.
  - assert (H1 : Z.of_nat (Z.to_nat n) * 1 = n) by lia.
    destruct (rep_stos_ok (stosb (u8 c)) 1 (u8 c) (Z.to_nat n) m v)
      as (m' & E & F); rewrite ?H1 in *; [lia|by apply stosb_stores|done|]. exists m'. by step E.
Qed.

(** ** Strings *)

(** The characters [bs] and a NUL at [a]. *)
Fixpoint cstr (m : memory) (a : Z) (bs : list Z) : Prop :=
  match bs with
  | [] => m !! a = Some 0
  | b :: bs => m !! a = Some b /\ 0 < b < 256 /\ cstr m (a + 1) bs
  end.

(** [m] with the bytes [bs] written at [a]. *)
Fixpoint write (m : memory) (a : Z) (bs : list Z) : memory :=
  match bs with [] => m | b :: bs => write (<[a := b]> m) (a + 1) bs end.

Abbreviation zlength bs := (Z.of_nat (length bs)).

Lemma s8_zero b : 0 <= b < 256 -> (s8 b =? 0) = (b =? 0).
Proof.
  intros Hb. unfold wraps. change (2 ^ (8 - 1)) with 128. change (2 ^ 8) with 256.
  destruct (Z.eqb_spec b 0), (Z.eqb_spec ((b + 128) mod 256 - 128) 0); try done.
  - by subst.
  - pose proof (Z.div_mod (b + 128) 256). lia.
Qed.

Lemma s8_inj a b : 0 <= a < 256 -> 0 <= b < 256 -> (s8 a =? s8 b) = (a =? b).
Proof.
  intros Ha Hb. unfold wraps. change (2 ^ (8 - 1)) with 128. change (2 ^ 8) with 256.
  pose proof (Z.div_mod (a + 128) 256). pose proof (Z.div_mod (b + 128) 256).
  pose proof (Z.mod_pos_bound (a + 128) 256). pose proof (Z.mod_pos_bound (b + 128) 256).
  destruct (Z.eqb_spec a b), (Z.eqb_spec ((a + 128) mod 256 - 128) ((b + 128) mod 256 - 128));
    try done; lia.
Qed.

Lemma u8_s8 b : 0 <= b < 256 -> u8 (s8 b) = b.
Proof.
  intros Hb. unfold wraps, wrapu. change (2 ^ (8 - 1)) with 128. change (2 ^ 8) with 256.
  rewrite Zminus_mod_idemp_l. replace (b + 128 - 128) with b by lia. by apply Z.mod_small.
Qed.

Lemma cstr_nil m a : cstr m a [] -> load a m = Ok (0, m) /\ load_char a m = Ok (0, m).
Proof. intros H. unfold load_char, load, bind. cbn in H. by rewrite H. Qed.

Lemma cstr_cons m a b bs : cstr m a (b :: bs) ->
  load a m = Ok (b, m) /\ load_char a m = Ok (s8 b, m) /\ (s8 b =? 0) = false /\
  0 < b < 256 /\ cstr m (a + 1) bs.
Proof.
  intros (H & Hb & Hc). unfold load_char, load, bind. rewrite H. rewrite s8_zero by lia.
  repeat split; [by apply Z.eqb_neq; lia|lia..|done].
Qed.

(** Steps over the next character of a string. *)
Ltac cstr_step H :=
  first [destruct (cstr_nil _ _ H) as [?Hl ?Hlc]
        |destruct (cstr_cons _ _ _ _ H) as (?Hl & ?Hlc & ?Hz & ?Hb & ?Hc)];
  repeat match goal with
  | HH : load_char ?a ?m = Ok _ |- context [bind (load_char ?a) _ ?m] => step HH
  | HH : load ?a ?m = Ok _ |- context [bind (load ?a) _ ?m] => step HH
  | HH : (s8 ?b =? 0) = false |- context [s8 ?b =? 0] => rewrite HH
  end; cbn [Z.eqb] in *.

Lemma strlen_ok m s bs fuel n : cstr m s bs -> (length bs < fuel)%nat -> 0 <= n ->
  n + zlength bs < 2 ^ 31 -> strlen_loop fuel s n m = Ok (n + zlength bs, m).
Proof.
  revert s fuel n. induction bs as [|b bs IH]; intros s [|fuel] n Hc Hf Hn Hlt;
    cbn [length] in *; try lia; cbn [strlen_loop]; cstr_step Hc.
  - rewrite Z.add_0_r. done.
  - rewrite wraps_small by bound_lia. rewrite (IH (s + 1)) by (done || lia). do 2 f_equal. lia.
Qed.

Lemma strnlen_ok m s bs fuel size n : cstr m s bs -> (length bs < fuel)%nat -> 0 <= n ->
  0 <= size -> n + zlength bs < 2 ^ 31 ->
  strnlen_loop fuel s size n m = Ok (n + Z.min size (zlength bs), m).
Proof.
  revert s fuel size n. induction bs as [|b bs IH]; intros s [|fuel] size n Hc Hf Hn Hs Hlt;
    cbn [length] in *; try lia; cbn [strnlen_loop];
    (destruct (Z.leb_spec size 0); [unfold ret; do 2 f_equal; lia|]); cstr_step Hc.
  - unfold ret. do 2 f_equal. lia.
  - rewrite wraps_small by bound_lia. rewrite (IH (s + 1)) by (done || lia). do 2 f_equal. lia.
Qed.

(** The index of the first character [c]. *)
Fixpoint char_index (c : Z) (bs : list Z) : option Z :=
  match bs with
  | [] => None
  | b :: bs => if s8 b =? c then Some 0 else Z.succ <$> char_index c bs
  end.

Lemma strchr_ok m s bs fuel c : cstr m s bs -> (length bs < fuel)%nat ->
  strchr fuel s c m = Ok (match char_index c bs with Some i => s + i | None => 0 end, m) /\
  strfind fuel s c m =
    Ok (match char_index c bs with Some i => s + i | None => s + zlength bs end, m).
Proof.
  revert s fuel. induction bs as [|b bs IH]; intros s [|fuel] Hc Hf;
    cbn [length] in *; try lia; cbn [strchr strfind char_index]; cstr_step Hc.
  - by rewrite Z.add_0_r.
  - destruct (s8 b =? c); [by rewrite Z.add_0_r|].
    destruct (IH (s + 1) fuel) as [-> ->]; [done|lia|].
    destruct (char_index c bs); cbn; split; do 2 f_equal; lia.
Qed.

(** The difference of the first bytes that differ, the NUL included. *)
Fixpoint byte_difference (xs ys : list Z) : Z :=
  match xs, ys with
  | x :: xs, y :: ys => if x =? y then byte_difference xs ys else x - y
  | x :: _, [] => x
  | [], y :: _ => - y
  | [], [] => 0
  end.

Lemma strcmp_ok m p q xs ys fuel : cstr m p xs -> cstr m q ys -> (length xs < fuel)%nat ->
  strcmp fuel p q m = Ok (byte_difference xs ys, m).
Proof.
  revert p q ys fuel. induction xs as [|x xs IH]; intros p q [|y ys] [|fuel] Hp Hq Hf;
    cbn [length] in *; try lia; cbn [strcmp byte_difference]; cstr_step Hp; unfold char_difference;
    cstr_step Hq; try (unfold ret; do 2 f_equal; lia).
  - rewrite s8_inj by lia. destruct (x =? y) eqn:?; [by apply IH; [..|lia]|].
    step Hl. by step Hl0.
Qed.

Lemma strncmp_ok m p q xs ys n : cstr m p xs -> cstr m q ys ->
  strncmp n p q m = Ok (byte_difference (take n xs) (take n ys), m).
Proof.
  revert p q xs ys. induction n as [|n IH]; intros p q [|x xs] [|y ys] Hp Hq; try done;
    cbn [strncmp take byte_difference]; cstr_step Hp; unfold char_difference;
    cstr_step Hq; try (unfold ret; do 2 f_equal; lia).
  - rewrite s8_inj by lia. destruct (x =? y) eqn:?; [by apply IH|].
    step Hl. by step Hl0.
Qed.

(** *** Writers *)

Lemma cstr_insert m a bs i b : ~ a <= i <= a + zlength bs -> cstr m a bs -> cstr (<[i := b]> m) a bs.
Proof.
  revert a. induction bs as [|x bs IH]; intros a Hi; cbn [cstr length] in *.
  - rewrite lookup_insert_ne by lia. done.
  - intros (H & Hx & Hc). rewrite lookup_insert_ne by lia. repeat split; [done|lia..|].
    apply IH; [lia|done].
Qed.

Lemma cstr_write m a bs d l : d + zlength l <= a \/ a + zlength bs < d ->
  cstr m a bs -> cstr (write m d l) a bs.
Proof.
  revert m d. induction l as [|x l IH]; intros m d Hd Hc; cbn [write length] in *; [done|].
  apply IH; [lia|]. apply cstr_insert; [lia|done].
Qed.

(** [write] is an update of a range. *)
Lemma write_lookup m a bs i :
  write m a bs !! i = if in_range a (zlength bs) i then bs !! Z.to_nat (i - a) else m !! i.
Proof.
  revert m a. induction bs as [|b bs IH]; intros m a; cbn [write length].
  - ranges.
  - rewrite IH. ranges.
    + by replace (Z.to_nat (i - a)) with (S (Z.to_nat (i - (a + 1)))) by lia.
    + replace i with a by lia. by rewrite lookup_insert_eq, Z.sub_diag.
    + by rewrite lookup_insert_ne by lia.
Qed.

Lemma write_app m a xs ys : write m a (xs ++ ys) = write (write m a xs) (a + zlength xs) ys.
Proof.
  revert m a. induction xs as [|x xs IH]; intros m a; cbn [app write length].
  - by rewrite Z.add_0_r.
  - rewrite IH. f_equal. lia.
Qed.

Lemma mapped_tail m a n b : 0 < n -> mapped m a n -> mapped (<[a := b]> m) (a + 1) (n - 1).
Proof. intros ? H. apply mapped_insert. eapply mapped_sub; [exact H|lia..]. Qed.

Lemma store_write (m : memory) a c b n : mapped m a n -> 0 < n -> u8 c = b ->
  store a c m = Ok (tt, <[a := b]> m).
Proof. intros H ? <-. apply store_run. by eapply mapped_at. Qed.

(** [n] bytes at [dst] apart from the string at [src]. *)
Definition apart (dst n src : Z) (bs : list Z) : Prop :=
  dst + n <= src \/ src + zlength bs < dst.

Lemma strcpy_loop_ok m dst src bs fuel : cstr m src bs -> mapped m dst (zlength bs + 1) ->
  apart dst (zlength bs + 1) src bs -> (length bs < fuel)%nat ->
  strcpy_loop fuel dst src m = Ok (tt, write m dst (bs ++ [0])).
Proof.
  revert m dst src fuel. induction bs as [|b bs IH]; intros m dst src [|fuel] Hs Hd Ha Hf;
    unfold apart in *; cbn [length] in *; try lia; cbn [strcpy_loop app write]; cstr_step Hs.
  - by step (store_write m dst 0 0 _ Hd ltac:(lia) eq_refl).
  - step (store_write m dst (s8 b) b _ Hd ltac:(lia) ltac:(apply u8_s8; lia)).
    apply IH; unfold apart; [|eapply mapped_sub; [by apply mapped_insert|..]|..]; try lia.
    apply cstr_insert; [lia|done].
Qed.

Lemma strcpy_ok m dst src bs fuel : cstr m src bs -> mapped m dst (zlength bs + 1) ->
  apart dst (zlength bs + 1) src bs -> (length bs < fuel)%nat ->
  strcpy fuel dst src m = Ok (dst, write m dst (bs ++ [0])).
Proof. intros Hs Hd Ha Hf. unfold strcpy. by step (strcpy_loop_ok _ _ _ _ _ Hs Hd Ha Hf). Qed.

Lemma strcat_ok m dst src ds bs fuel : cstr m src bs -> cstr m dst ds ->
  mapped m dst (zlength ds + zlength bs + 1) -> apart dst (zlength ds + zlength bs + 1) src bs ->
  (length bs < fuel)%nat -> (length ds < fuel)%nat -> zlength ds < 2 ^ 31 ->
  strcat fuel dst src m = Ok (dst, write m (dst + zlength ds) (bs ++ [0])).
Proof.
  intros Hs Hds Hd Ha Hf Hf' Hlen. unfold strcat, strlen.
  step (strlen_ok m dst ds fuel 0 Hds Hf' ltac:(lia) ltac:(lia)). rewrite Z.add_0_l.
  unfold apart in *. erewrite bind_ok; [done|].
  apply strcpy_ok; unfold apart; [done| |lia|lia]. eapply mapped_sub; [done|lia..].
Qed.

Lemma strncpy_ok m dst src bs n : cstr m src bs -> mapped m dst (Z.of_nat n) ->
  apart dst (Z.of_nat n) src bs ->
  strncpy_loop n dst src m = Ok (tt, write m dst (take n (bs ++ replicate n 0))).
Proof.
  revert m dst src bs. induction n as [|n IH]; intros m dst src bs Hs Hd Ha; [done|].
  unfold apart in *. cbn [strncpy_loop].
  destruct bs as [|b bs]; cbn [length] in *; cbn [app replicate take write]; cstr_step Hs.
  - step (store_write m dst 0 0 _ Hd ltac:(lia) eq_refl). rewrite (IH _ _ _ []); [done|..];
      unfold apart; cbn [length]; try lia.
    + apply (cstr_insert _ _ []); cbn; [lia|done].
    + eapply mapped_sub; [by apply mapped_insert|lia..].
  - step (store_write m dst (s8 b) b _ Hd ltac:(lia) ltac:(apply u8_s8; lia)).
    rewrite (IH _ _ _ bs); unfold apart; try lia.
    + do 3 f_equal. change (0 :: replicate n 0) with (replicate (S n) 0).
      rewrite replicate_S_end, (assoc_L (++)). symmetry. apply take_app_le.
      rewrite length_app, length_replicate. lia.
    + apply cstr_insert; [lia|done].
    + eapply mapped_sub; [by apply mapped_insert|lia..].
Qed.

Lemma strlcpy_loop_ok m dst src bs n : cstr m src bs -> mapped m dst (Z.of_nat n) ->
  apart dst (Z.of_nat n) src bs -> (0 < n)%nat ->
  let l := take (n - 1) bs in
  strlcpy_loop n dst src m = Ok (dst + zlength l, write m dst l).
Proof.
  revert m dst src bs. induction n as [|n IH]; intros m dst src bs Hs Hd Ha Hn l; [lia|].
  unfold apart in *. unfold l. replace (S n - 1)%nat with n by lia.
  destruct n as [|n]; [cbn; by rewrite Z.add_0_r|].
  change (strlcpy_loop (S (S n)) dst src) with
    (let* c := load_char src in
     if c =? 0 then ret dst
     else do* store dst c; strlcpy_loop (S n) (dst + 1) (src + 1)).
  destruct bs as [|b bs]; cbn [length] in *; cbn [take write length]; cstr_step Hs.
  - by rewrite Z.add_0_r.
  - step (store_write m dst (s8 b) b _ Hd ltac:(lia) ltac:(apply u8_s8; lia)).
    rewrite (IH _ _ _ bs); unfold apart; try lia.
    + replace (S n - 1)%nat with n by lia. do 2 f_equal. lia.
    + apply cstr_insert; [lia|done].
    + eapply mapped_sub; [by apply mapped_insert|lia..].
Qed.

Lemma strlcpy_ok m dst src bs size : cstr m src bs -> mapped m dst size ->
  apart dst size src bs -> 0 < size ->
  let l := take (Z.to_nat size - 1) bs in
  strlcpy dst src size m = Ok (zlength l, write m dst (l ++ [0])).
Proof.
  intros Hs Hd Ha Hn l. unfold strlcpy. destruct (Z.leb_spec size 0); [lia|].
  rewrite <- (Z2Nat.id size) in Hd, Ha by lia.
  step (strlcpy_loop_ok m dst src bs (Z.to_nat size) Hs Hd Ha ltac:(lia)). fold l.
  assert (zlength l < size) by (unfold l; rewrite length_take; lia).
  assert (Hm : is_Some (write m dst l !! (dst + zlength l))).
  { rewrite write_lookup. ranges. apply Hd. lia. }
  step (store_run _ _ 0 Hm). rewrite write_app. cbn [write]. unfold ret. do 2 f_equal. lia.
Qed.

(** *** [strtol] *)

Lemma cstr_hd m s bs : cstr m s bs -> load_char s m = Ok (s8 (hd 0 bs), m).
Proof.
  destruct bs as [|b bs]; intros H; [by apply cstr_nil in H as [_ H]|].
  by apply cstr_cons in H as (_ & H & _).
Qed.

Lemma cstr_app m s xs ys : cstr m s (xs ++ ys) -> cstr m (s + zlength xs) ys.
Proof.
  revert s. induction xs as [|x xs IH]; intros s; cbn [app cstr length].
  - by rewrite Z.add_0_r.
  - intros (_ & _ & H%IH). by replace (s + Z.of_nat (S (length xs))) with (s + 1 + zlength xs) by lia.
Qed.

Lemma s8_ascii c : 0 <= c < 128 -> s8 c = c.
Proof. intros. apply wraps_small; bound_lia. Qed.

(** The numeral of a digit, as [printnum] writes it. *)
Definition digit_char (d : Z) : Z := if d <? 10 then 48 + d else 87 + d.
Lemma digit_value_char d : 0 <= d < 36 -> digit_value (s8 (digit_char d)) = Some d.
Proof.
  intros Hd. unfold digit_char. destruct (Z.ltb_spec d 10); rewrite s8_ascii by lia; unfold digit_value.
  - destruct (Z.leb_spec 48 (48 + d)), (Z.leb_spec (48 + d) 57); try lia; cbn. f_equal. lia.
  - destruct (Z.leb_spec 48 (87 + d)), (Z.leb_spec (87 + d) 57), (Z.leb_spec 97 (87 + d)),
      (Z.leb_spec (87 + d) 122); try lia; cbn. f_equal. lia.
Qed.

Lemma s32_step v b d : s32 (s32 v * b + d) = s32 (v * b + d).
Proof.
  unfold wraps. change (2 ^ (32 - 1)) with 2147483648. change (2 ^ 32) with 4294967296.
  f_equal. set (M := 4294967296). set (h := 2147483648).
  rewrite (Z.mod_eq (v + h) M) by (unfold M; lia).
  replace (((v + h) - M * ((v + h) / M) - h) * b + d + h)
    with (v * b + d + h + (- ((v + h) / M) * b) * M) by lia.
  by rewrite Z_mod_plus_full.
Qed.

Lemma s32_neg v : s32 (- s32 v) = s32 (- v).
Proof.
  pose proof (s32_step v (-1) 0) as H. rewrite !Z.add_0_r in H.
  by rewrite <- !Z.opp_eq_mul_m1 in H.
Qed.

(** Not a digit of the base. *)
Definition stops (base : Z) (rest : list Z) : Prop :=
  match digit_value (s8 (hd 0 rest)) with Some d => base <= d | None => True end.

Lemma strtol_digits_ok m s base ds rest fuel v :
  cstr m s ((digit_char <$> ds) ++ rest) -> Forall (fun d => 0 <= d < base) ds -> base <= 36 ->
  stops base rest -> (length ds < fuel)%nat ->
  strtol_digits fuel s base (s32 v) m =
    Ok ((s + zlength ds, s32 (fold_left (fun v d => v * base + d) ds v)), m).
Proof.
  revert s fuel v. induction ds as [|d ds IH]; intros s [|fuel] v Hc Hds Hb Hr Hf;
    cbn [length] in *; try lia; cbn [strtol_digits]; step (cstr_hd _ _ _ Hc).
  - cbn [fmap list_fmap app]. unfold stops in Hr. destruct (digit_value _) as [d|].
    + destruct (Z.leb_spec base d); [|lia]. cbn. by rewrite Z.add_0_r.
    + cbn. by rewrite Z.add_0_r.
  - apply Forall_cons in Hds as [Hd Hds]. cbn [fmap list_fmap app hd].
    rewrite digit_value_char by lia. destruct (Z.leb_spec base d); [lia|].
    rewrite s32_step, IH; [cbn [fold_left]; do 3 f_equal; lia| |done..|lia].
    apply (cstr_app m s [digit_char d]). done.
Qed.

Definition is_blank (c : Z) : Prop := c = 32 \/ c = 9.

Lemma skip_blanks_ok m s blanks rest fuel : cstr m s (blanks ++ rest) -> Forall is_blank blanks ->
  ~ is_blank (s8 (hd 0 rest)) -> (length blanks < fuel)%nat ->
  skip_blanks fuel s m = Ok (s + zlength blanks, m).
Proof.
  revert s fuel. induction blanks as [|b bs IH]; intros s [|fuel] Hc Hbs Hr Hf;
    cbn [length] in *; try lia; cbn [skip_blanks]; step (cstr_hd _ _ _ Hc); cbn [app hd].
  - destruct (Z.eqb_spec (s8 (hd 0 rest)) 32), (Z.eqb_spec (s8 (hd 0 rest)) 9);
      [exfalso; apply Hr; unfold is_blank; auto..|]. cbn. by rewrite Z.add_0_r.
  - apply Forall_cons in Hbs as [Hb Hbs].
    assert (s8 b = b) as -> by (destruct Hb as [-> | ->]; reflexivity).
    replace ((b =? 32) || (b =? 9)) with true by (destruct Hb as [-> | ->]; reflexivity).
    rewrite IH; [do 2 f_equal; lia| |done..|lia]. by apply (cstr_app m s [b]).
Qed.

(** The base given, the prefix recognised, what follows it, the base used. *)
Inductive base_prefix : Z -> list Z -> list Z -> Z -> Prop :=
  | prefix_hex base tail : base = 0 \/ base = 16 -> base_prefix base [48; 120] tail 16
  | prefix_octal tail : s8 (hd 0 tail) <> 120 -> base_prefix 0 [48] tail 8
  | prefix_decimal tail : s8 (hd 0 tail) <> 48 -> base_prefix 0 [] tail 10
  | prefix_given base tail :
      base <> 0 -> base <> 16 \/ s8 (hd 0 tail) <> 48 -> base_prefix base [] tail base.

(** The signs [strtol] accepts, with the factor they stand for. *)
Inductive signed : list Z -> list Z -> bool -> Prop :=
  | sign_plus tail : signed [43] tail false
  | sign_minus tail : signed [45] tail true
  | sign_none tail : s8 (hd 0 tail) <> 43 -> s8 (hd 0 tail) <> 45 -> signed [] tail false.

Lemma strtol_sign_ok m s sg tail neg : cstr m s (sg ++ tail) -> signed sg tail neg ->
  strtol_sign s m = Ok ((s + zlength sg, neg), m).
Proof.
  intros Hc Hs. unfold strtol_sign. step (cstr_hd _ _ _ Hc).
  destruct Hs as [tail|tail|tail H1 H2]; cbn [app hd length]; try done.
  apply Z.eqb_neq in H1 as ->, H2 as ->. by rewrite Z.add_0_r.
Qed.

Lemma strtol_prefix_ok m s base pre tail base' : cstr m s (pre ++ tail) ->
  base_prefix base pre tail base' ->
  strtol_prefix s base m = Ok ((s + zlength pre, base'), m).
Proof.
  intros Hc Hp. unfold strtol_prefix. pose proof (cstr_hd _ _ _ Hc) as H0. rewrite ?bind_assoc.
  assert (H1 : forall c, pre = [48; c] \/ pre = [48] ->
    load_char (s + 1) m = Ok (s8 (hd 0 (drop 1 pre ++ tail)), m)).
  { intros c [-> | ->]; apply cstr_hd; apply (cstr_app m s [48]); exact Hc. }
  destruct Hp as [base tail Hb|tail Ht|tail Ht|base tail Hb Ht].
  - replace ((base =? 0) || (base =? 16)) with true by (destruct Hb as [-> | ->]; reflexivity).
    rewrite ?bind_assoc. step H0. cbn [app hd].
    change (s8 48 =? 48) with true. cbn iota.
    rewrite ?bind_assoc. step (H1 120 (or_introl eq_refl)). by cbn.
  - change (0 =? 0) with true. cbn [orb]. rewrite ?bind_assoc. step H0. cbn [app hd].
    change (s8 48 =? 48) with true. cbn iota.
    rewrite ?bind_assoc. step (H1 0 (or_intror eq_refl)). cbn [drop app].
    apply Z.eqb_neq in Ht. rewrite bind_ret, Ht. cbn iota.
    rewrite ?bind_assoc. by step H0.
  - change (0 =? 0) with true. cbn [orb]. cbn [app] in H0. rewrite ?bind_assoc. step H0.
    apply Z.eqb_neq in Ht. rewrite Ht, bind_ret. cbn iota.
    rewrite ?bind_assoc. step H0. rewrite Ht. cbn. by rewrite Z.add_0_r.
  - apply Z.eqb_neq in Hb. rewrite Hb. cbn [orb]. cbn [app length] in *.
    destruct (Z.eqb_spec base 16) as [->|].
    + destruct Ht as [?|Ht]; [done|]. apply Z.eqb_neq in Ht. rewrite ?bind_assoc. step H0.
      rewrite Ht. cbn. by rewrite Z.add_0_r.
    + cbn. by rewrite Z.add_0_r.
Qed.

(** A numeral as [strtol] reads it: blanks, sign, base prefix, digits, and what
    ends it. *)
Record numeral (base : Z) (blanks sg pre ds rest : list Z) (neg : bool) (base' : Z) : Prop := {
  numeral_blanks : Forall is_blank blanks;
  numeral_start : ~ is_blank (s8 (hd 0 (sg ++ pre ++ (digit_char <$> ds) ++ rest)));
  numeral_sign : signed sg (pre ++ (digit_char <$> ds) ++ rest) neg;
  numeral_prefix : base_prefix base pre ((digit_char <$> ds) ++ rest) base';
  numeral_base : base' <= 36;
  numeral_digits : Forall (fun d => 0 <= d < base') ds;
  numeral_rest : stops base' rest
}.

Lemma strtol_ok m s fuel base blanks sg pre ds rest neg base' :
  let str := blanks ++ sg ++ pre ++ (digit_char <$> ds) ++ rest in
  cstr m s str -> (length str < fuel)%nat -> numeral base blanks sg pre ds rest neg base' ->
  strtol fuel s base m =
    Ok ((s32 (if neg then - digits_value base' ds else digits_value base' ds),
         s + zlength (blanks ++ sg ++ pre ++ ds)), m).
Proof.
  intros str Hc Hf [Hbl Hst Hsg Hpre Hb Hds Hr].
  unfold str in *. rewrite !length_app, length_fmap in Hf. unfold strtol.
  step (skip_blanks_ok _ _ _ _ fuel Hc Hbl Hst ltac:(lia)). apply cstr_app in Hc.
  step (strtol_sign_ok _ _ _ _ _ Hc Hsg). apply cstr_app in Hc.
  step (strtol_prefix_ok _ _ _ _ _ _ Hc Hpre). apply cstr_app in Hc.
  change 0 with (s32 0). step (strtol_digits_ok _ _ _ _ _ fuel 0 Hc Hds Hb Hr ltac:(lia)).
  unfold ret, digits_value. rewrite !length_app. destruct neg; rewrite ?s32_neg; do 3 f_equal; lia.
Qed.

(** ** The contracts *)

(** C35: [memmove], [memcpy] and [memset] have the effect they name, whatever the
    overlap of the blocks and whichever of the word or byte instructions the
    alignment selects: on well-formed memory with both blocks mapped, [memmove]
    leaves in the destination the bytes the source had, [memset] leaves [n]
    copies of the low byte of [c], every other byte is unchanged and the
    destination is returned. *)
Theorem blocks_correct m dst src c n (Hn : 0 <= n) (Hwf : bytes_wf m)
    (Hsrc : mapped m src n) (Hdst : mapped m dst n) :
  (exists m', memmove dst src n m = Ok (dst, m') /\ memcpy dst src n m = Ok (dst, m') /\
     moved m m' dst src n) /\
  (exists m', memset dst c n m = Ok (dst, m') /\ filled m m' dst n (u8 c)).
Proof.
  split; [|by apply memset_ok].
  destruct (memmove_ok m dst src n) as (m' & E & H); [done..|]. by exists m'.
Qed.

(** On NUL-terminated strings [strlen] and [strnlen] count, [strchr] and
    [strfind] find the first occurrence (or [NULL], or the end), and [strcmp] and
    [strncmp] return the difference of the first bytes that differ, compared
    as unsigned; none changes memory. *)
Theorem readers_correct m s q xs ys c size k fuel (Hs : cstr m s xs) (Hq : cstr m q ys)
    (Hfuel : (length xs < fuel)%nat) (Hsize : 0 <= size) (Hlen : zlength xs < 2 ^ 31) :
  strlen fuel s m = Ok (zlength xs, m) /\
  strnlen fuel s size m = Ok (Z.min size (zlength xs), m) /\
  strchr fuel s c m = Ok (match char_index c xs with Some i => s + i | None => 0 end, m) /\
  strfind fuel s c m =
    Ok (match char_index c xs with Some i => s + i | None => s + zlength xs end, m) /\
  strcmp fuel s q m = Ok (byte_difference xs ys, m) /\
  strncmp k s q m = Ok (byte_difference (take k xs) (take k ys), m).
Proof.
  unfold strlen, strnlen. rewrite (strlen_ok m s xs), (strnlen_ok m s xs) by (done || lia).
  destruct (strchr_ok m s xs fuel c) as [-> ->]; [done..|].
  by rewrite (strcmp_ok m s q xs ys), (strncmp_ok m s q xs ys).
Qed.

(** On a destination apart from the source, [strcpy] writes the string and its
    NUL, [strcat] writes them at the end of the destination's string,
    [strncpy] writes exactly [size] bytes, padded with NULs, and [strlcpy] writes
    at most [size - 1] characters and always a NUL, and returns how many
    characters it wrote; nothing else changes. *)
Theorem writers_correct m dst src bs ds size fuel (Hsrc : cstr m src bs)
    (Hdst : mapped m dst size) (Hapart : apart dst size src bs) (Hds : cstr m dst ds)
    (Hroom : zlength ds + zlength bs + 1 <= size) (Hlen : zlength ds < 2 ^ 31)
    (Hfuel : (length bs + length ds < fuel)%nat) (n : Z) (Hn : 0 < n <= size) :
  strcpy fuel dst src m = Ok (dst, write m dst (bs ++ [0])) /\
  strcat fuel dst src m = Ok (dst, write m (dst + zlength ds) (bs ++ [0])) /\
  strncpy dst src n m =
    Ok (dst, write m dst (take (Z.to_nat n) (bs ++ replicate (Z.to_nat n) 0))) /\
  strlcpy dst src n m =
    Ok (zlength (take (Z.to_nat n - 1) bs), write m dst (take (Z.to_nat n - 1) bs ++ [0])).
Proof.
  assert (Hsub : forall k, 0 <= k <= size -> mapped m dst k /\ apart dst k src bs).
  { intros k Hk. split; [by eapply mapped_sub; [exact Hdst|lia..]|]. unfold apart in *. lia. }
  destruct (Hsub n) as [Hmn Han]; [lia|]. repeat split.
  - apply strcpy_ok; [done|apply Hsub; lia|apply Hsub; lia|lia].
  - apply strcat_ok; [done|done|apply Hsub; lia|apply Hsub; lia|lia|lia|done].
  - unfold strncpy. erewrite bind_ok; [done|]. rewrite <- (Z2Nat.id n) in Hmn, Han by lia.
    by apply strncpy_ok.
  - apply strlcpy_ok; [done..|lia].
Qed.
