(* ===== verification/Boot.v ===== *)
(** The boot loader of JOS, [mit6.828/lab/boot/main.c]: it reads the kernel, an ELF
    image, from the disk's second sector on and jumps to it.  Memory is that of
    [JosString]; the devices behind the port instructions of [inc/x86.h] are a
    parameter.  The fields of [inc/elf.h] are read at their offsets. *)
From Stdlib Require Import ZArith Lia.
From S2P Require Import Prelude JosString.
Open Scope Z_scope.

Definition SECTSIZE : Z := 512.
Definition ELFHDR : Z := 0x10000.
Definition ELF_MAGIC : Z := 0x464C457F.

(** [sizeof(struct Proghdr)] *)
Definition sizeof_Proghdr : Z := 32.

(** How [bootmain] ends: in the kernel, or in the loop after [bad]. *)
Inductive boot_end : Type := Enter (entry : Z) | Spin.

(** The port instructions, over the state [D] of the devices. *)
Class Ports (D : Type) := {
  port_inb : Z -> D -> Z * D;
  port_inl : Z -> D -> Z * D;
  port_outb : Z -> Z -> D -> D;
  port_outw : Z -> Z -> D -> D
}.

Section boot.
Context {D : Type} {P : Ports D}.

Record machine : Type := mk_machine { ram : memory; devices : D }.

Definition inb (port : Z) : M machine Z := fun s =>
  let '(v, d) := port_inb port (devices s) in Ok (v, mk_machine (ram s) d).
Definition inl (port : Z) : M machine Z := fun s =>
  let '(v, d) := port_inl port (devices s) in Ok (v, mk_machine (ram s) d).
Definition outb (port data : Z) : M machine unit :=
  modify (fun s => mk_machine (ram s) (port_outb port (u8 data) (devices s))).
Definition outw (port data : Z) : M machine unit :=
  modify (fun s => mk_machine (ram s) (port_outw port (u16 data) (devices s))).

Definition on_ram {A} (m : M memory A) : M machine A := fun s =>
  match m (ram s) with
  | Ok (a, r) => Ok (a, mk_machine r (devices s))
  | Err e => Err e
  end.
Definition load16 (a : Z) : M memory Z :=
  let* b0 := load a in let* b1 := load (a + 1) in ret (b0 + b1 * 2 ^ 8).
Definition load32 (a : Z) : M memory Z :=
  let* h0 := load16 a in let* h1 := load16 (a + 2) in ret (h0 + h1 * 2 ^ 16).
Definition store32 (a v : Z) : M memory unit :=
  do* store a v;
  do* store (a + 1) (Z.shiftr v 8);
  do* store (a + 2) (Z.shiftr v 16);
  store (a + 3) (Z.shiftr v 24).

(** [insl]: [cnt] words from a port to [addr] on. *)
Fixpoint insl (port addr : Z) (cnt : nat) : M machine unit :=
  match cnt with
  | O => ret tt
  | S cnt' =>
      let* v := inl port in
      do* on_ram (store32 addr v);
      insl port (addr + 4) cnt'
  end.

(** The fields of [struct Elf] and [struct Proghdr]. *)
Definition e_magic (hdr : Z) : M machine Z := on_ram (load32 hdr).
Definition e_entry (hdr : Z) : M machine Z := on_ram (load32 (hdr + 24)).
Definition e_phoff (hdr : Z) : M machine Z := on_ram (load32 (hdr + 28)).
Definition e_phnum (hdr : Z) : M machine Z := on_ram (load16 (hdr + 44)).
Definition p_offset (ph : Z) : M machine Z := on_ram (load32 (ph + 4)).
Definition p_pa (ph : Z) : M machine Z := on_ram (load32 (ph + 12)).
Definition p_memsz (ph : Z) : M machine Z := on_ram (load32 (ph + 20)).

Fixpoint waitdisk (fuel : nat) : M machine unit :=
  match fuel with
  | O => fail OutOfFuel
  | S fuel' =>
      let* status := inb 0x1F7 in
      if negb (Z.land status 0xC0 =? 0x40) then waitdisk fuel' else ret tt
  end.

(** [fuel] bounds the polls of one wait and the rounds of each loop. *)
Context (fuel : nat).

Definition readsect (dst offset : Z) : M machine unit :=
  do* waitdisk fuel;
  do* outb 0x1F2 1;
  do* outb 0x1F3 offset;
  do* outb 0x1F4 (Z.shiftr offset 8);
  do* outb 0x1F5 (Z.shiftr offset 16);
  do* outb 0x1F6 (Z.lor (Z.shiftr offset 24) 0xE0);
  do* outb 0x1F7 0x20;
  do* waitdisk fuel;
  insl 0x1F0 dst (Z.to_nat (SECTSIZE / 4)).

(** [while (pa < end_pa)] *)
Fixpoint readseg_loop (rounds : nat) (pa end_pa offset : Z) : M machine unit :=
  match rounds with
  | O => fail OutOfFuel
  | S rounds' =>
      if pa <? end_pa then
        do* readsect pa offset;
        readseg_loop rounds' (u32 (pa + SECTSIZE)) end_pa (u32 (offset + 1))
      else ret tt
  end.

Definition readseg (pa count offset : Z) : M machine unit :=
  let end_pa := u32 (pa + count) in
  let pa := Z.land pa (u32 (Z.lnot (SECTSIZE - 1))) in
  let offset := u32 (offset / SECTSIZE + 1) in
  readseg_loop fuel pa end_pa offset.

(** [for (; ph < eph; ph++)] *)
Fixpoint load_segments (rounds : nat) (ph eph : Z) : M machine unit :=
  match rounds with
  | O => fail OutOfFuel
  | S rounds' =>
      if ph <? eph then
        let* pa := p_pa ph in
        let* memsz := p_memsz ph in
        let* offset := p_offset ph in
        do* readseg pa memsz offset;
        load_segments rounds' (u32 (ph + sizeof_Proghdr)) eph
      else ret tt
  end.

Definition bootmain : M machine boot_end :=
  do* readseg ELFHDR (SECTSIZE * 8) 0;
  let* magic := e_magic ELFHDR in
  if negb (magic =? ELF_MAGIC) then
    do* outw 0x8A00 0x8A00;
    do* outw 0x8A00 0x8E00;
    ret Spin
  else
    let* phoff := e_phoff ELFHDR in
    let ph := u32 (ELFHDR + phoff) in
    let* phnum := e_phnum ELFHDR in
    let eph := u32 (ph + phnum * sizeof_Proghdr) in
    do* load_segments fuel ph eph;
    let* entry := e_entry ELFHDR in
    ret (Enter entry).
End boot.
Arguments machine D : clear implicits.
