(* ===== verification/BootSpec.v ===== *)
(** What the boot loader of [Boot] does: on a disk that keeps the ATA protocol it
    loads every segment of the kernel where its header says and enters it. *)
From Stdlib Require Import ZArith Lia.
From S2P Require Import Prelude JosString JosStringSpec Boot.
Open Scope Z_scope.

(** ** The disk *)

(** The sector the registers name, in the 28 bits of an address. *)
Definition lba (reg : Z -> Z) : Z :=
  reg 0x1F3 + reg 0x1F4 * 2 ^ 8 + reg 0x1F5 * 2 ^ 16 + Z.land (reg 0x1F6) 0xF * 2 ^ 24.

Definition disk_bytes (disk : Z -> Z) (start : Z) (n : nat) : list Z :=
  (fun i => disk (start + Z.of_nat i)) <$> seq 0 n.

(** An ATA disk that holds [disk]: it is ready after fewer than [patience] polls; while
    it is, its registers can be set, and the command 0x20 makes it fetch a sector,
    which is then read word by word. *)
Class Disk {D} (P : Ports D) (patience : nat) (disk : Z -> Z) := {
  busy : D -> nat;
  reg : D -> Z -> Z;
  fifo : D -> list Z;
  disk_byte : forall i, 0 <= disk i < 256;
  busy_law : forall d, (busy d < patience)%nat;
  status_law : forall d, exists v d', port_inb 0x1F7 d = (v, d') /\
    (Z.land v 0xC0 =? 0x40) = (busy d =? 0)%nat /\ busy d' = pred (busy d) /\
    reg d' = reg d /\ fifo d' = fifo d;
  reg_law : forall d r v, 0x1F2 <= r <= 0x1F6 -> busy d = 0%nat ->
    busy (port_outb r v d) = 0%nat /\ forall r', reg (port_outb r v d) r' = if r' =? r then v else reg d r';
  read_law : forall d, busy d = 0%nat -> reg d 0x1F2 = 1 -> Z.land (reg d 0x1F6) 0xF0 = 0xE0 ->
    fifo (port_outb 0x1F7 0x20 d) = disk_bytes disk (512 * lba (reg d)) 512;
  data_law : forall d b0 b1 b2 b3 bs, busy d = 0%nat -> fifo d = b0 :: b1 :: b2 :: b3 :: bs ->
    exists d', port_inl 0x1F0 d = (b0 + b1 * 2 ^ 8 + b2 * 2 ^ 16 + b3 * 2 ^ 24, d') /\
      busy d' = 0%nat /\ fifo d' = bs
}.

(** ** Memory *)

(** [m'] is [m] with the bytes [bs] at [a]; with the bytes [f i] at the [n] addresses
    [i] from [a] on. *)
Definition written (m m' : memory) (a : Z) (bs : list Z) : Prop :=
  forall i, m' !! i = if in_range a (Z.of_nat (length bs)) i then bs !! Z.to_nat (i - a) else m !! i.
Definition copied (m m' : memory) (a n : Z) (f : Z -> Z) : Prop :=
  forall i, m' !! i = if in_range a n i then Some (f i) else m !! i.

Lemma written_nil m a : written m m a [].
Proof. intros i. cbn. ranges. Qed.

Lemma written_cons m m' a b bs : written (<[a := b]> m) m' (a + 1) bs -> written m m' a (b :: bs).
Proof.
  intros H i. rewrite H. cbn [length]. rewrite Nat2Z.inj_succ. ranges.
  - replace (Z.to_nat (i - a)) with (S (Z.to_nat (i - (a + 1)))) by lia. done.
  - replace i with a by lia. by rewrite lookup_insert_eq, Z.sub_diag.
  - by rewrite lookup_insert_ne by lia.
Qed.

Lemma written_app m m1 m2 a bs cs : written m m1 a bs -> written m1 m2 (a + Z.of_nat (length bs)) cs ->
  written m m2 a (bs ++ cs).
Proof.
  intros H1 H2 i. rewrite H2, H1, length_app, Nat2Z.inj_add. ranges.
  - rewrite lookup_app_r by lia. f_equal. lia.
  - by rewrite lookup_app_l by lia.
Qed.

Lemma written_mapped m m' a bs b n : written m m' a bs -> mapped m b n -> mapped m' b n.
Proof. intros H Hm i Hi. rewrite H. ranges; [apply lookup_lt_is_Some; lia|by apply Hm]. Qed.

Lemma copied_mapped m m' a n f b k : copied m m' a n f -> mapped m b k -> mapped m' b k.
Proof. intros H Hm i Hi. rewrite H. ranges; [by eexists|by apply Hm]. Qed.

Lemma copied_nil m a f : copied m m a 0 f.
Proof. intros i. ranges. Qed.

Lemma copied_app m m1 m2 a n k f : 0 <= n -> 0 <= k -> copied m m1 a n f -> copied m1 m2 (a + n) k f ->
  copied m m2 a (n + k) f.
Proof. intros ? ? H1 H2 i. rewrite H2, H1. ranges. Qed.

Lemma disk_bytes_length disk start n : length (disk_bytes disk start n) = n.
Proof. unfold disk_bytes. by rewrite length_fmap, length_seq. Qed.

Lemma written_sector m m' a disk start n : written m m' a (disk_bytes disk start n) ->
  copied m m' a (Z.of_nat n) (fun i => disk (start + (i - a))).
Proof.
  intros H i. rewrite H, disk_bytes_length. ranges. unfold disk_bytes. rewrite list_lookup_fmap.
  rewrite lookup_seq_lt by lia. cbn. do 2 f_equal. lia.
Qed.

Lemma store_word_run m a b0 b1 b2 b3 : mapped m a 4 -> Forall (fun b => 0 <= b < 256) [b0; b1; b2; b3] ->
  exists m', store32 a (b0 + b1 * 2 ^ 8 + b2 * 2 ^ 16 + b3 * 2 ^ 24) m = Ok (tt, m') /\ written m m' a [b0; b1; b2; b3].
Proof.
  intros Hm Hb. rewrite !Forall_cons in Hb. destruct Hb as (H0 & H1 & H2 & H3 & _).
  set (v := b0 + _ + _ + _). unfold store32. rewrite !Z.shiftr_div_pow2 by lia.
  assert (Hin : forall m', mapped m' a 4 -> forall k, 0 <= k < 4 -> is_Some (m' !! (a + k))) by (intros m' Hm' k Hk; apply Hm'; lia).
  rewrite (bind_ok _ _ _ _ _ (store_run m a v (mapped_at _ _ _ Hm ltac:(lia)))).
  pose proof (mapped_insert _ _ _ a (u8 v) Hm) as Hm1.
  rewrite (bind_ok _ _ _ _ _ (store_run _ (a + 1) _ (Hin _ Hm1 1 ltac:(lia)))).
  pose proof (mapped_insert _ _ _ (a + 1) (u8 (v / 2 ^ 8)) Hm1) as Hm2.
  rewrite (bind_ok _ _ _ _ _ (store_run _ (a + 2) _ (Hin _ Hm2 2 ltac:(lia)))).
  pose proof (mapped_insert _ _ _ (a + 2) (u8 (v / 2 ^ 16)) Hm2) as Hm3.
  rewrite (store_run _ (a + 3) _ (Hin _ Hm3 3 ltac:(lia))).
  eexists. split; [done|]. unfold wrapu. change (2 ^ 8) with 256 in *. change (2 ^ 16) with 65536 in *.
  change (2 ^ 24) with 16777216 in *.
  replace (v mod 256) with b0 by (subst v; Z.div_mod_to_equations; lia).
  replace ((v / 256) mod 256) with b1 by (subst v; Z.div_mod_to_equations; lia).
  replace ((v / 65536) mod 256) with b2 by (subst v; Z.div_mod_to_equations; lia).
  replace ((v / 16777216) mod 256) with b3 by (subst v; Z.div_mod_to_equations; lia).
  do 4 apply written_cons. replace (a + 1 + 1) with (a + 2) by lia. replace (a + 2 + 1) with (a + 3) by lia. apply written_nil.
Qed.

Lemma sector_cons disk start n : disk_bytes disk start (S n) = disk start :: disk_bytes disk (start + 1) n.
Proof.
  unfold disk_bytes. cbn [seq]. rewrite fmap_cons, Z.add_0_r, <- fmap_S_seq, <- list_fmap_compose. f_equal.
  apply list_fmap_ext. intros i x _. cbn. f_equal. lia.
Qed.

Lemma sector_word disk start n : disk_bytes disk start (4 + n) =
  [disk start; disk (start + 1); disk (start + 2); disk (start + 3)] ++ disk_bytes disk (start + 4) n.
Proof.
  cbn [Nat.add app]. rewrite !sector_cons. replace (start + 1 + 1) with (start + 2) by lia.
  replace (start + 2 + 1) with (start + 3) by lia. by replace (start + 3 + 1) with (start + 4) by lia.
Qed.

(** ** The runs *)

Section boots.
Context {D} {P : Ports D} (patience : nat) (disk : Z -> Z) {K : Disk P patience disk}.
Context (fuel : nat) (Hpatience : (patience <= fuel)%nat).

Lemma waitdisk_run n : forall m d, (busy d < n)%nat ->
  exists d', waitdisk n (mk_machine m d) = Ok (tt, mk_machine m d') /\ busy d' = 0%nat /\ reg d' = reg d /\ fifo d' = fifo d.
Proof.
  induction n as [|n IH]; intros m d Hb; [lia|]. cbn [waitdisk].
  destruct (status_law d) as (v & d' & E & Hv & Hb' & Hr & Hf).
  assert (E1 : inb 0x1F7 (mk_machine m d) = Ok (v, mk_machine m d')) by (unfold inb; cbn [devices ram]; by rewrite E).
  step E1. rewrite Hv. destruct (Nat.eqb_spec (busy d) 0); cbn [negb].
  - exists d'. split; [done|]. split; [lia|done].
  - destruct (IH m d') as (d2 & E2 & Hb2 & Hr2 & Hf2); [lia|]. exists d2. by rewrite E2, Hr2, Hf2, Hr, Hf.
Qed.

Lemma outb_run port data m d : outb port data (mk_machine m d) = Ok (tt, mk_machine m (port_outb port (u8 data) d)).
Proof. done. Qed.

Lemma on_ram_run {A} (k : M memory A) m (d : D) a m' : k m = Ok (a, m') -> on_ram k (mk_machine m d) = Ok (a, mk_machine m' d).
Proof. intros E. unfold on_ram. cbn [ram devices]. by rewrite E. Qed.

Lemma insl_run n : forall a m d start, fifo d = disk_bytes disk start (4 * n) -> busy d = 0%nat -> mapped m a (4 * Z.of_nat n) ->
  exists m' d', insl 0x1F0 a n (mk_machine m d) = Ok (tt, mk_machine m' d') /\ written m m' a (disk_bytes disk start (4 * n)).
Proof.
  induction n as [|n IH]; intros a m d start Hf Hb Hm; cbn [insl].
  - exists m, d. split; [done|]. apply written_nil.
  - replace (4 * S n)%nat with (4 + 4 * n)%nat in * by lia. rewrite sector_word in *.
    destruct (data_law _ _ _ _ _ _ Hb Hf) as (d1 & E1 & Hb1 & Hf1). set (v := disk start + _ + _ + _) in E1.
    assert (E : inl 0x1F0 (mk_machine m d) = Ok (v, mk_machine m d1)) by (unfold inl; cbn [devices ram]; by rewrite E1).
    step E. destruct (store_word_run m a (disk start) (disk (start + 1)) (disk (start + 2)) (disk (start + 3)))
      as (m1 & E2 & Hw1); [by eapply mapped_sub; [done|lia|lia]|repeat constructor; apply disk_byte|].
    step (on_ram_run _ m d1 _ _ E2).
    destruct (IH (a + 4) m1 d1 _ Hf1 Hb1) as (m2 & d2 & E3 & Hw2).
    { eapply written_mapped; [done|]. eapply mapped_sub; [done|lia|lia]. }
    exists m2, d2. split; [done|]. by eapply written_app.
Qed.

(** The address the four registers get. *)
Lemma lba_split n r : 0 <= n < 2 ^ 28 -> r 0x1F3 = u8 n -> r 0x1F4 = u8 (Z.shiftr n 8) -> r 0x1F5 = u8 (Z.shiftr n 16) ->
  r 0x1F6 = u8 (Z.lor (Z.shiftr n 24) 0xE0) -> lba r = n /\ Z.land (r 0x1F6) 0xF0 = 0xE0.
Proof.
  intros Hn H3 H4 H5 H6. set (t := Z.shiftr n 24) in *.
  assert (Ht : 0 <= t < 16) by (subst t; rewrite Z.shiftr_div_pow2 by lia; split; [apply Z.div_pos; lia|apply Z.div_lt_upper_bound; lia]).
  assert (E : Z.land (u8 (Z.lor t 0xE0)) 0xF = t /\ Z.land (u8 (Z.lor t 0xE0)) 0xF0 = 0xE0).
  { assert (H : forallb (fun t => (Z.land (u8 (Z.lor t 0xE0)) 0xF =? t) && (Z.land (u8 (Z.lor t 0xE0)) 0xF0 =? 0xE0))
      (Z.of_nat <$> seq 0 16) = true) by reflexivity.
    rewrite forallb_forall in H. specialize (H t). rewrite andb_true_iff, !Z.eqb_eq in H. apply H, list_elem_of_In.
    apply list_elem_of_fmap. exists (Z.to_nat t). rewrite elem_of_seq. lia. }
  unfold lba. rewrite H3, H4, H5, H6. destruct E as [-> ->]. split; [|done]. subst t.
  rewrite !Z.shiftr_div_pow2 by lia. unfold wrapu. change (2 ^ 8) with 256 in *. change (2 ^ 16) with 65536.
  change (2 ^ 24) with 16777216. Z.div_mod_to_equations. lia.
Qed.

Lemma readsect_run dst n m d : 0 <= n < 2 ^ 28 -> mapped m dst SECTSIZE ->
  exists m' d', readsect fuel dst n (mk_machine m d) = Ok (tt, mk_machine m' d') /\
    copied m m' dst SECTSIZE (fun i => disk (512 * n + (i - dst))).
Proof.
  intros Hn Hm. unfold readsect. pose proof (busy_law d).
  destruct (waitdisk_run fuel m d ltac:(lia)) as (d0 & E0 & B0 & _ & _). step E0.
  rewrite !(bind_ok _ _ _ _ _ (outb_run _ _ _ _)).
  destruct (reg_law d0 0x1F2 (u8 1) ltac:(lia) B0) as [B1 R1]. set (d1 := port_outb 0x1F2 _ d0) in *.
  destruct (reg_law d1 0x1F3 (u8 n) ltac:(lia) B1) as [B2 R2]. set (d2 := port_outb 0x1F3 _ d1) in *.
  destruct (reg_law d2 0x1F4 (u8 (Z.shiftr n 8)) ltac:(lia) B2) as [B3 R3]. set (d3 := port_outb 0x1F4 _ d2) in *.
  destruct (reg_law d3 0x1F5 (u8 (Z.shiftr n 16)) ltac:(lia) B3) as [B4 R4]. set (d4 := port_outb 0x1F5 _ d3) in *.
  destruct (reg_law d4 0x1F6 (u8 (Z.lor (Z.shiftr n 24) 0xE0)) ltac:(lia) B4) as [B5 R5]. set (d5 := port_outb 0x1F6 _ d4) in *.
  assert (Hreg : forall r, reg d5 r = if r =? 0x1F6 then u8 (Z.lor (Z.shiftr n 24) 0xE0) else if r =? 0x1F5 then u8 (Z.shiftr n 16)
    else if r =? 0x1F4 then u8 (Z.shiftr n 8) else if r =? 0x1F3 then u8 n else if r =? 0x1F2 then u8 1 else reg d0 r).
  { intros r. by rewrite R5, R4, R3, R2, R1. }
  destruct (lba_split n (reg d5) Hn) as [Hl H6]; try by rewrite Hreg.
  pose proof (read_law d5 B5 ltac:(by rewrite Hreg) H6) as F6. rewrite Hl in F6.
  set (d6 := port_outb 0x1F7 (u8 0x20) d5). change (port_outb 0x1F7 0x20 d5) with d6 in F6.
  pose proof (busy_law d6). destruct (waitdisk_run fuel m d6 ltac:(lia)) as (d7 & E7 & B7 & _ & F7). step E7.
  destruct (insl_run 128 dst m d7 (512 * n)) as (m' & d8 & E8 & Hw); [by rewrite F7, F6|done|done|].
  exists m', d8. split; [done|]. by apply written_sector in Hw.
Qed.

(** The sectors a segment touches: from [floor pa], [span pa count] bytes. *)
Definition floor (pa : Z) : Z := pa - pa mod 512.
Definition span (pa count : Z) : Z := 512 * ((pa mod 512 + count + 511) / 512).

Lemma readseg_loop_run n : forall rounds pa end_pa offset m d, (n < rounds)%nat -> 0 <= pa ->
  pa + 512 * Z.of_nat n < 2 ^ 32 -> (Z.of_nat n - 1) * 512 < end_pa - pa <= 512 * Z.of_nat n \/ (n = 0%nat /\ end_pa = pa) ->
  0 <= offset -> offset + Z.of_nat n <= 2 ^ 28 -> mapped m pa (512 * Z.of_nat n) ->
  exists m' d', readseg_loop fuel rounds pa end_pa offset (mk_machine m d) = Ok (tt, mk_machine m' d') /\
    copied m m' pa (512 * Z.of_nat n) (fun i => disk (512 * offset + (i - pa))).
Proof.
  induction n as [|n IH]; intros [|rounds] pa end_pa offset m d Hr Hpa Hlt Hend Hoff Hlba Hm; [lia| |lia|]; cbn [readseg_loop].
  - destruct (Z.ltb_spec pa end_pa); [lia|]. exists m, d. split; [done|]. apply copied_nil.
  - destruct (Z.ltb_spec pa end_pa); [|lia].
    destruct (readsect_run pa offset m d) as (m1 & d1 & E1 & H1); [lia|by eapply mapped_sub; [done|lia|unfold SECTSIZE; lia]|].
    step E1. unfold SECTSIZE in *. rewrite !wrapu_small by bound_lia.
    destruct (IH rounds (pa + 512) end_pa (offset + 1) m1 d1) as (m2 & d2 & E2 & H2); try lia.
    { eapply copied_mapped; [done|]. eapply mapped_sub; [done|lia|lia]. }
    exists m2, d2. split; [done|]. replace (512 * Z.of_nat (S n)) with (512 + 512 * Z.of_nat n) by lia.
    eapply copied_app; [lia|lia|done|]. intros i. rewrite H2. ranges. do 2 f_equal. lia.
Qed.

Lemma span_bounds pa count : 0 <= count -> 0 <= span pa count /\ span pa count - 512 < pa mod 512 + count <= span pa count.
Proof.
  intros Hc. unfold span. pose proof (Z.mod_pos_bound pa 512 ltac:(lia)).
  pose proof (Z.div_mod (pa mod 512 + count + 511) 512 ltac:(lia)).
  pose proof (Z.mod_pos_bound (pa mod 512 + count + 511) 512 ltac:(lia)).
  pose proof (Z.div_pos (pa mod 512 + count + 511) 512 ltac:(lia) ltac:(lia)). lia.
Qed.

(** The kernel image starts at the second sector. *)
Definition kernel (o : Z) : Z := disk (512 + o).

Lemma floor_land pa : 0 <= pa < 2 ^ 32 -> Z.land pa (u32 (Z.lnot (SECTSIZE - 1))) = floor pa.
Proof.
  intros Hpa. change (u32 (Z.lnot (SECTSIZE - 1))) with (Z.ldiff (Z.ones 32) (Z.ones 9)).
  unfold floor. change (pa mod 512) with (pa mod 2 ^ 9). rewrite <- (Z.land_ones pa 9) by lia.
  assert (H : pa = Z.land pa (Z.ones 32)) by (rewrite Z.land_ones by lia; symmetry; apply Z.mod_small; lia).
  assert (E : pa - Z.land pa (Z.ones 9) = Z.ldiff pa (Z.ones 9)) by (rewrite Z.ldiff_ones_r, Z.land_ones, Z.shiftr_div_pow2, Z.shiftl_mul_pow2 by lia; pose proof (Z.div_mod pa (2 ^ 9) ltac:(lia)); lia).
  rewrite E. rewrite H at 2. apply Z.bits_inj'. intros n Hn. by rewrite !Z.land_spec, !Z.ldiff_spec, !Z.land_spec, andb_assoc.
Qed.

Lemma readseg_run pa count offset m d : 0 <= pa -> 0 <= count -> 0 <= offset -> pa mod 512 = offset mod 512 ->
  pa + count + 512 <= 2 ^ 32 -> offset + count + 1536 <= 2 ^ 37 -> count + 1024 <= 512 * Z.of_nat fuel ->
  mapped m (floor pa) (span pa count) ->
  exists m' d', readseg fuel pa count offset (mk_machine m d) = Ok (tt, mk_machine m' d') /\
    copied m m' (floor pa) (span pa count) (fun i => kernel (offset + (i - pa))).
Proof.
  intros Hpa Hc Hoff Hal Hmax Hlba Hf Hm. unfold readseg.
  destruct (span_bounds pa count Hc) as [Hs0 Hs]. pose proof (Z.mod_pos_bound pa 512 ltac:(lia)) as Hmod.
  rewrite (wrapu_small 32 (pa + count)) by bound_lia. rewrite floor_land by bound_lia.
  pose proof (Z.div_mod offset 512 ltac:(lia)) as Hdm. pose proof (Z.div_pos offset 512 Hoff ltac:(lia)).
  pose proof (Z.mod_le pa 512 Hpa ltac:(lia)). pose proof (Z.mod_pos_bound offset 512 ltac:(lia)).
  change SECTSIZE with 512. rewrite wrapu_small by bound_lia.
  set (n := Z.to_nat ((pa mod 512 + count + 511) / 512)).
  assert (Hn : span pa count = 512 * Z.of_nat n) by (unfold span in *; lia). rewrite Hn in *.
  destruct (readseg_loop_run n fuel (floor pa) (pa + count) (offset / 512 + 1) m d) as (m' & d' & E & H'); try done; try (unfold floor; lia).
  exists m', d'. split; [done|]. intros i. rewrite H'. ranges. unfold kernel, floor. do 2 f_equal. lia.
Qed.

(** ** The kernel image *)

Record segment : Type := mk_segment { seg_pa : Z; seg_memsz : Z; seg_offset : Z }.

Definition half (o : Z) : Z := kernel o + kernel (o + 1) * 2 ^ 8.
Definition word (o : Z) : Z := half o + half (o + 2) * 2 ^ 16.
Definition phoff : Z := word 28.
Definition phnum : Z := half 44.
Definition segment_at (o : Z) : segment := mk_segment (word (o + 12)) (word (o + 20)) (word (o + 4)).
Definition segments : list segment := (fun j => segment_at (phoff + 32 * Z.of_nat j)) <$> seq 0 (Z.to_nat phnum).

(** The page of the header, in scratch space. *)
Definition header_in (m : memory) : Prop := forall o, 0 <= o < 4096 -> m !! (ELFHDR + o) = Some (kernel o).

Lemma load16_run m o : header_in m -> 0 <= o -> o + 2 <= 4096 -> load16 (ELFHDR + o) m = Ok (half o, m).
Proof.
  intros H ??. unfold load16. rewrite (bind_ok _ _ _ _ _ (load_run m _ _ (H o ltac:(lia)))).
  rewrite <- Z.add_assoc. by rewrite (bind_ok _ _ _ _ _ (load_run m _ _ (H (o + 1) ltac:(lia)))).
Qed.

Lemma load32_run m o : header_in m -> 0 <= o -> o + 4 <= 4096 -> load32 (ELFHDR + o) m = Ok (word o, m).
Proof.
  intros H ??. unfold load32. rewrite (bind_ok _ _ _ _ _ (load16_run m o H ltac:(lia) ltac:(lia))).
  rewrite <- Z.add_assoc. by rewrite (bind_ok _ _ _ _ _ (load16_run m (o + 2) H ltac:(lia) ltac:(lia))).
Qed.

Lemma half_range o : 0 <= half o < 2 ^ 16.
Proof. unfold half, kernel. pose proof (disk_byte (512 + o)). pose proof (disk_byte (512 + (o + 1))). lia. Qed.
Lemma word_range o : 0 <= word o < 2 ^ 32.
Proof. unfold word. pose proof (half_range o). pose proof (half_range (o + 2)). lia. Qed.

(** A segment that can be loaded: its sectors on disk are those of memory, and they
    spare the page of the header. *)
Definition loadable (m : memory) (s : segment) : Prop :=
  seg_pa s mod 512 = seg_offset s mod 512 /\
  seg_pa s + seg_memsz s + 512 <= 2 ^ 32 /\ seg_offset s + seg_memsz s + 1536 <= 2 ^ 37 /\
  seg_memsz s + 1024 <= 512 * Z.of_nat fuel /\
  mapped m (floor (seg_pa s)) (span (seg_pa s) (seg_memsz s)) /\
  (floor (seg_pa s) + span (seg_pa s) (seg_memsz s) <= ELFHDR \/ ELFHDR + 4096 <= floor (seg_pa s)).

(** What memory holds at [i] once [s] is loaded. *)
Definition load_segment (f : option Z) (i : Z) (s : segment) : option Z :=
  if in_range (floor (seg_pa s)) (span (seg_pa s) (seg_memsz s)) i then Some (kernel (seg_offset s + (i - seg_pa s))) else f.
Definition loads (m m' : memory) (ss : list segment) : Prop :=
  forall i, m' !! i = foldl (fun f s => load_segment f i s) (m !! i) ss.

Lemma loadable_mapped m m' s : (forall i, is_Some (m !! i) -> is_Some (m' !! i)) -> loadable m s -> loadable m' s.
Proof. intros H (H1 & H2 & H3 & H4 & H5 & H6). repeat split; try done. intros i Hi. by apply H, H5. Qed.

Lemma load_segments_run n : forall rounds o m d, header_in m -> 0 <= o -> o + 32 * Z.of_nat n <= 4096 -> (n < rounds)%nat ->
  let ss := (fun j => segment_at (o + 32 * Z.of_nat j)) <$> seq 0 n in
  Forall (loadable m) ss ->
  exists m' d', load_segments fuel rounds (ELFHDR + o) (ELFHDR + (o + 32 * Z.of_nat n)) (mk_machine m d) = Ok (tt, mk_machine m' d') /\
    header_in m' /\ loads m m' ss.
Proof.
  induction n as [|n IH]; intros [|rounds] o m d Hh Ho Hle Hr ss Hss; [lia| |lia|]; cbn [load_segments].
  - destruct (Z.ltb_spec (ELFHDR + o) (ELFHDR + (o + 32 * Z.of_nat 0))); [lia|]. by exists m, d.
  - destruct (Z.ltb_spec (ELFHDR + o) (ELFHDR + (o + 32 * Z.of_nat (S n)))); [|lia].
    assert (Ess : ss = segment_at o :: ((fun j => segment_at (o + 32 + 32 * Z.of_nat j)) <$> seq 0 n)).
    { unfold ss. cbn [seq]. rewrite fmap_cons, <- fmap_S_seq, <- list_fmap_compose, Z.mul_0_r, Z.add_0_r. f_equal.
      apply list_fmap_ext. intros i x _. cbn [compose]. f_equal. lia. }
    rewrite Ess in *. apply Forall_cons in Hss as [Hs Hss]. pose proof Hs as (H1 & H2 & H3 & H4 & H5 & H6).
    unfold p_pa, p_memsz, p_offset. rewrite <- !Z.add_assoc.
    step (on_ram_run _ m d _ _ (load32_run m (o + 12) Hh ltac:(lia) ltac:(lia))).
    step (on_ram_run _ m d _ _ (load32_run m (o + 20) Hh ltac:(lia) ltac:(lia))).
    step (on_ram_run _ m d _ _ (load32_run m (o + 4) Hh ltac:(lia) ltac:(lia))).
    cbn [segment_at seg_pa seg_memsz seg_offset] in H1, H2, H3, H4, H5, H6.
    pose proof (word_range (o + 12)). pose proof (word_range (o + 20)). pose proof (word_range (o + 4)).
    destruct (readseg_run (word (o + 12)) (word (o + 20)) (word (o + 4)) m d) as (m1 & d1 & E1 & C1); try done; try lia.
    step E1. unfold ELFHDR, sizeof_Proghdr in *. rewrite wrapu_small by bound_lia.
    assert (Hh1 : header_in m1).
    { intros i Hi. rewrite C1. unfold ELFHDR. ranges. by apply Hh. }
    destruct (IH rounds (o + 32) m1 d1) as (m2 & d2 & E2 & Hh2 & L2); try done; try lia.
    { eapply Forall_impl; [exact Hss|]. intros s. apply loadable_mapped. intros i Hi. rewrite C1. ranges; [by eexists|done]. }
    exists m2, d2. split; [|split; [done|]].
    + rewrite <- E2. f_equal; lia.
    + intros i. rewrite L2. cbn [foldl]. by rewrite C1.
Qed.

(** What [bootmain] needs of a kernel: its program headers in the first page and
    every segment loadable; of the segments, that sectors read for one do not spoil
    another, unless they hold the same part of the file. *)
Record bootable (m : memory) : Prop := {
  boot_page : mapped m ELFHDR 4096;
  boot_headers : phoff + 32 * phnum <= 4096;
  boot_segments : Forall (loadable m) segments;
  boot_coherent : forall s t i, s ∈ segments -> t ∈ segments -> seg_pa s <= i < seg_pa s + seg_memsz s ->
    floor (seg_pa t) <= i < floor (seg_pa t) + span (seg_pa t) (seg_memsz t) ->
    seg_offset s - seg_pa s = seg_offset t - seg_pa t;
  boot_fuel : 10 <= Z.of_nat fuel /\ phnum < Z.of_nat fuel
}.

Lemma loads_last ss i b : forall f, f = Some b ->
  (forall t, t ∈ ss -> in_range (floor (seg_pa t)) (span (seg_pa t) (seg_memsz t)) i = true ->
    kernel (seg_offset t + (i - seg_pa t)) = b) ->
  foldl (fun f s => load_segment f i s) f ss = Some b.
Proof.
  induction ss as [|t ss IH]; intros f Hf Ht; [done|]. cbn [foldl]. apply IH.
  - unfold load_segment. destruct (in_range _ _ _) eqn:E; [|done]. f_equal. apply Ht; [by left|done].
  - intros u Hu. apply Ht. by right.
Qed.

Lemma loads_segment m m' s i : bootable m -> loads m m' segments -> s ∈ segments -> 0 <= i < seg_memsz s ->
  m' !! (seg_pa s + i) = Some (kernel (seg_offset s + i)).
Proof.
  intros [_ _ _ Hco _] Hl Hs Hi. rewrite Hl.
  assert (Hk : forall t, t ∈ segments ->
    in_range (floor (seg_pa t)) (span (seg_pa t) (seg_memsz t)) (seg_pa s + i) = true ->
    kernel (seg_offset t + (seg_pa s + i - seg_pa t)) = kernel (seg_offset s + i)).
  { intros t Ht Hin. destruct (in_range_spec (floor (seg_pa t)) (span (seg_pa t) (seg_memsz t)) (seg_pa s + i)); [|done].
    rewrite <- (Z.add_simpl_r (seg_offset s + i) 0). f_equal. specialize (Hco s t (seg_pa s + i) Hs Ht ltac:(lia) ltac:(lia)). lia. }
  destruct (list_elem_of_split _ _ Hs) as (l1 & l2 & E). rewrite E in *. rewrite foldl_app. cbn [foldl].
  apply loads_last; [|intros t Ht; apply Hk; rewrite elem_of_app; right; by right].
  unfold load_segment. destruct (in_range_spec (floor (seg_pa s)) (span (seg_pa s) (seg_memsz s)) (seg_pa s + i)) as [|Hn].
  - do 2 f_equal. lia.
  - exfalso. apply Hn. destruct (span_bounds (seg_pa s) (seg_memsz s)); [lia|].
    pose proof (Z.mod_pos_bound (seg_pa s) 512 ltac:(lia)). unfold floor. lia.
Qed.

(** The addresses that a boot may write. *)
Definition boot_area (i : Z) : Prop :=
  ELFHDR <= i < ELFHDR + 4096 \/
  exists s, s ∈ segments /\ floor (seg_pa s) <= i < floor (seg_pa s) + span (seg_pa s) (seg_memsz s).

Lemma loads_outside m m' ss i : loads m m' ss ->
  (forall s, s ∈ ss -> ~ floor (seg_pa s) <= i < floor (seg_pa s) + span (seg_pa s) (seg_memsz s)) -> m' !! i = m !! i.
Proof.
  intros Hl Hout. rewrite Hl. generalize (m !! i) as f. clear Hl. induction ss as [|t ss IH]; intros f; [done|].
  cbn [foldl]. rewrite IH by (intros s Hs; apply Hout; by right). unfold load_segment.
  destruct (in_range_spec (floor (seg_pa t)) (span (seg_pa t) (seg_memsz t)) i); [|done]. by destruct (Hout t ltac:(by left)).
Qed.

Lemma read_header m d : mapped m ELFHDR 4096 -> 10 <= Z.of_nat fuel ->
  exists m1 d1, readseg fuel ELFHDR (SECTSIZE * 8) 0 (mk_machine m d) = Ok (tt, mk_machine m1 d1) /\ header_in m1 /\
    copied m m1 ELFHDR 4096 (fun i => kernel (i - ELFHDR)).
Proof.
  intros Hm Hf. destruct (readseg_run ELFHDR (SECTSIZE * 8) 0 m d) as (m1 & d1 & E & C); try done; try (unfold ELFHDR, SECTSIZE; lia).
  exists m1, d1. split; [done|]. split.
  - intros o Ho. rewrite C. change (floor ELFHDR) with ELFHDR. change (span ELFHDR (SECTSIZE * 8)) with 4096. ranges.
    do 2 f_equal. lia.
  - exact C.
Qed.

(** A kernel is loaded and entered; anything else stops in the loop after [bad]. *)
Lemma bootmain_ok m d : bootable m -> word 0 = ELF_MAGIC ->
  exists m' d', bootmain fuel (mk_machine m d) = Ok (Enter (word 24), mk_machine m' d') /\
    (forall s i, s ∈ segments -> 0 <= i < seg_memsz s -> m' !! (seg_pa s + i) = Some (kernel (seg_offset s + i))) /\
    (forall i, ~ boot_area i -> m' !! i = m !! i).
Proof.
  intros Hb Hmagic. destruct (boot_fuel m Hb) as [Hf Hph]. pose proof (boot_headers m Hb) as Hle.
  destruct (read_header m d (boot_page m Hb) Hf) as (m1 & d1 & E1 & Hh & C1). unfold bootmain. step E1.
  pose proof (word_range 28) as R28. pose proof (half_range 44) as R44. fold phoff phnum in *.
  unfold e_magic, e_phoff, e_phnum, e_entry.
  replace (load32 ELFHDR) with (load32 (ELFHDR + 0)) by (by rewrite Z.add_0_r).
  step (on_ram_run _ m1 d1 _ _ (load32_run m1 0 Hh ltac:(lia) ltac:(lia))). rewrite Hmagic, Z.eqb_refl. cbn [negb].
  step (on_ram_run _ m1 d1 _ _ (load32_run m1 28 Hh ltac:(lia) ltac:(lia))).
  step (on_ram_run _ m1 d1 _ _ (load16_run m1 44 Hh ltac:(lia) ltac:(lia))). fold phoff phnum.
  unfold sizeof_Proghdr. rewrite (wrapu_small 32 (ELFHDR + phoff)) by (unfold ELFHDR; bound_lia).
  rewrite wrapu_small by (unfold ELFHDR; bound_lia).
  destruct (load_segments_run (Z.to_nat phnum) fuel phoff m1 d1 Hh) as (m2 & d2 & E2 & Hh2 & L2); try lia.
  { eapply Forall_impl; [exact (boot_segments m Hb)|]. intros s. apply loadable_mapped. intros i Hi. rewrite C1. ranges; [by eexists|done]. }
  replace (ELFHDR + phoff + phnum * 32) with (ELFHDR + (phoff + 32 * Z.of_nat (Z.to_nat phnum))) by lia. step E2.
  step (on_ram_run _ m2 d2 _ _ (load32_run m2 24 Hh2 ltac:(lia) ltac:(lia))).
  exists m2, d2. split; [done|]. split.
  - intros s i Hs Hi. apply (loads_segment m1); try done. destruct Hb as [B1 B2 B3 B4 B5]. split; try done.
    + by eapply copied_mapped.
    + eapply Forall_impl; [exact B3|]. intros t. apply loadable_mapped. intros j Hj. rewrite C1. ranges; [by eexists|done].
  - intros i Hi. rewrite (loads_outside m1 m2 segments i L2).
    + rewrite C1. ranges. exfalso. apply Hi. by left.
    + intros s Hs Hin. apply Hi. right. by exists s.
Qed.

Lemma bootmain_bad m d : mapped m ELFHDR 4096 -> 10 <= Z.of_nat fuel -> word 0 <> ELF_MAGIC ->
  exists m' d', bootmain fuel (mk_machine m d) = Ok (Spin, mk_machine m' d') /\
    (forall i, ~ ELFHDR <= i < ELFHDR + 4096 -> m' !! i = m !! i).
Proof.
  intros Hm Hf Hmagic. destruct (read_header m d Hm Hf) as (m1 & d1 & E1 & Hh & C1). unfold bootmain. step E1.
  unfold e_magic. replace (load32 ELFHDR) with (load32 (ELFHDR + 0)) by (by rewrite Z.add_0_r).
  step (on_ram_run _ m1 d1 _ _ (load32_run m1 0 Hh ltac:(lia) ltac:(lia))).
  destruct (Z.eqb_spec (word 0) ELF_MAGIC); [done|]. cbn [negb]. eexists m1, _. split; [done|].
  intros i Hi. rewrite C1. ranges.
Qed.
End boots.

(** C14: on a disk that keeps the ATA protocol and gets ready in the end, [bootmain]
    ends.  An image with the ELF magic, with its program headers in its first page, and
    with segments in mapped memory that does not reach the top of the address space, apart
    from that page, at addresses congruent modulo the sector size to their places in the
    file, two of them sharing a sector of memory only where it is the same part of the file
    ([bootable]), is loaded segment by segment at the addresses its headers give, memory
    elsewhere is left alone, and the processor enters it at its entry point.  Whatever else
    is on the disk without the magic is not loaded: only the first page is read, and the
    loader spins. *)
Theorem boot_enters_kernel {D} {P : Ports D} patience disk (K : Disk P patience disk) fuel m d
    (Hpatience : (patience <= fuel)%nat) (Hpage : mapped m ELFHDR 4096) (Hfuel : 10 <= Z.of_nat fuel) :
  (word disk 0 = ELF_MAGIC -> bootable disk fuel m ->
   exists m' d', bootmain fuel (mk_machine m d) = Ok (Enter (word disk 24), mk_machine m' d') /\
     (forall s i, s ∈ segments disk -> 0 <= i < seg_memsz s -> m' !! (seg_pa s + i) = Some (kernel disk (seg_offset s + i))) /\
     (forall i, ~ boot_area disk i -> m' !! i = m !! i)) /\
  (word disk 0 <> ELF_MAGIC ->
   exists m' d', bootmain fuel (mk_machine m d) = Ok (Spin, mk_machine m' d') /\
     (forall i, ~ ELFHDR <= i < ELFHDR + 4096 -> m' !! i = m !! i)).
Proof.
  split; intros E; [intros Hboot; by apply (bootmain_ok patience disk fuel Hpatience)|by apply (bootmain_bad patience disk fuel Hpatience)].
Qed.

(** * A disk that keeps the ATA protocol, with a small kernel on it. *)
Open Scope Z_scope.

(** ** A disk: busy for two polls after every command *)

Record ata : Type := mk_ata { ata_busy : nat; ata_reg : Z -> Z; ata_fifo : list Z }.

Section ata.
Context (disk : Z -> Z) (disk_ok : forall i, 0 <= disk i < 256).

Definition ata_in (port : Z) (d : ata) : Z * ata :=
  (if (Nat.min (ata_busy d) 2 =? 0)%nat then 0x50 else 0xD0, mk_ata (pred (Nat.min (ata_busy d) 2)) (ata_reg d) (ata_fifo d)).
Definition ata_inl (port : Z) (d : ata) : Z * ata :=
  match ata_fifo d with
  | b0 :: b1 :: b2 :: b3 :: bs => (b0 + b1 * 2 ^ 8 + b2 * 2 ^ 16 + b3 * 2 ^ 24, mk_ata (ata_busy d) (ata_reg d) bs)
  | _ => (0, d)
  end.
Definition ata_out (port v : Z) (d : ata) : ata :=
  if port =? 0x1F7 then mk_ata 2 (ata_reg d) (disk_bytes disk (512 * lba (ata_reg d)) 512)
  else mk_ata (ata_busy d) (fun r => if r =? port then v else ata_reg d r) (ata_fifo d).

Definition ata_ports : Ports ata := {|
  port_inb := ata_in; port_inl := ata_inl; port_outb := ata_out; port_outw := fun _ _ d => d
|}.

Definition ata_disk : Disk ata_ports 3 disk.
Proof.
  refine {| busy d := Nat.min (ata_busy d) 2; reg := ata_reg; fifo := ata_fifo |}.
  - exact disk_ok.
  - intros d. lia.
  - intros d. eexists _, _. split; [done|]. cbn. split; [by destruct (Nat.min (ata_busy d) 2)|]. by split; [lia|].
  - intros d r v Hr Hb. cbn. unfold ata_out. destruct (Z.eqb_spec r 0x1F7); [lia|]. by split.
  - intros d _ _ _. done.
  - intros d b0 b1 b2 b3 bs Hb Hf. cbn. unfold ata_inl. rewrite Hf. by eexists.
Defined.
End ata.

(** ** A kernel of one segment: 8 bytes at 0x100000, from byte 4096 of the file *)

Definition le32 (n : Z) : list Z := [n mod 256; n / 256 mod 256; n / 2 ^ 16 mod 256; n / 2 ^ 24 mod 256].
Definition small_kernel : list Z :=
  le32 ELF_MAGIC ++ replicate 12 0 ++ replicate 8 0 ++ le32 0x10000C ++ le32 52 ++ replicate 8 0 ++ [52; 0; 32; 0; 1; 0] ++ replicate 6 0 ++
  le32 1 ++ le32 4096 ++ le32 0xF0100000 ++ le32 0x100000 ++ le32 8 ++ le32 8 ++ le32 5 ++ le32 4096.
Definition small_disk (i : Z) : Z :=
  if i <? 512 then 0
  else if i <? 512 + 4096 then default 0 (small_kernel !! Z.to_nat (i - 512))
  else i mod 256.

Lemma small_disk_byte i : 0 <= small_disk i < 256.
Proof.
  unfold small_disk. destruct (i <? 512); [lia|]. destruct (i <? 512 + 4096); [|apply Z.mod_pos_bound; lia].
  assert (H : Forall (fun b => 0 <= b < 256) small_kernel).
  { apply Forall_forall. intros b Hb. assert (Hall : forallb (fun b => (0 <=? b) && (b <? 256)) small_kernel = true) by reflexivity.
    rewrite forallb_forall in Hall. specialize (Hall b ltac:(by apply list_elem_of_In)). lia. }
  destruct (small_kernel !! _) as [b|] eqn:E; cbn; [|lia]. by apply (Forall_lookup_1 _ _ _ _ H) in E.
Qed.

(** Memory that is mapped at the two places. *)
Definition zeros (a : Z) (n : nat) : memory := list_to_map ((fun i => (a + Z.of_nat i, 0)) <$> seq 0 n).
Lemma zeros_mapped a n : mapped (zeros a n) a (Z.of_nat n).
Proof.
  intros i Hi. exists 0. apply elem_of_list_to_map_1'.
  - intros y Hy. apply list_elem_of_fmap in Hy as (j & [= _ ->] & _). done.
  - apply list_elem_of_fmap. exists (Z.to_nat (i - a)). rewrite elem_of_seq. split; [f_equal; lia|lia].
Qed.
Definition small_memory : memory := zeros 0x10000 4096 ∪ zeros 0x100000 512.
Lemma small_memory_mapped : mapped small_memory 0x10000 4096 /\ mapped small_memory 0x100000 512.
Proof.
  split; intros i Hi; unfold small_memory; rewrite lookup_union_is_Some; [left|right].
  - by apply (zeros_mapped 0x10000 4096).
  - by apply (zeros_mapped 0x100000 512).
Qed.

Lemma small_segments : segments small_disk = [mk_segment 0x100000 8 4096].
Proof. vm_compute. reflexivity. Qed.

Lemma small_bootable : bootable small_disk 20 small_memory.
Proof.
  assert (Hp : phoff small_disk = 52) by (vm_compute; reflexivity).
  assert (Hn : phnum small_disk = 1) by (vm_compute; reflexivity).
  split.
  - apply small_memory_mapped.
  - rewrite Hp, Hn. lia.
  - rewrite small_segments. constructor; [|constructor]. unfold loadable. cbn [seg_pa seg_memsz seg_offset].
    split; [done|]. split; [lia|]. split; [lia|]. split; [lia|]. split; [apply small_memory_mapped|].
    right. vm_compute. congruence.
  - rewrite small_segments. by intros s t i ->%list_elem_of_singleton ->%list_elem_of_singleton _ _.
  - rewrite Hn. lia.
Qed.

(** A disk that holds the same byte everywhere. *)
Definition garbage_disk (i : Z) : Z := 255.
Lemma garbage_disk_byte i : 0 <= garbage_disk i < 256.
Proof. unfold garbage_disk. lia. Qed.

Lemma boot_enters_kernel_witness :
  (exists m' d', bootmain (P := ata_ports small_disk) 20 (mk_machine small_memory (mk_ata 0 (fun _ => 0) [])) = Ok (Enter 0x10000C, mk_machine m' d') /\
     m' !! 0x100007 = Some (small_disk (512 + 4096 + 7))) /\
  exists m' d', bootmain (P := ata_ports garbage_disk) 20 (mk_machine small_memory (mk_ata 0 (fun _ => 0) [])) = Ok (Spin, mk_machine m' d') /\
    m' !! 0x100007 = Some 0.
Proof.
  split.
  - destruct (boot_enters_kernel 3 small_disk (ata_disk small_disk small_disk_byte) 20 small_memory
      (mk_ata 0 (fun _ => 0) []) ltac:(lia) (proj1 small_memory_mapped) ltac:(lia)) as [H _].
    destruct H as (m' & d' & Hrun & Hs & _); [vm_compute; reflexivity|exact small_bootable|].
    exists m', d'. rewrite Hrun. split; [f_equal; f_equal; f_equal; vm_compute; reflexivity|].
    exact (Hs (mk_segment 0x100000 8 4096) 7 ltac:(rewrite small_segments; by left) ltac:(cbn; lia)).
  - destruct (boot_enters_kernel 3 garbage_disk (ata_disk garbage_disk garbage_disk_byte) 20 small_memory
      (mk_ata 0 (fun _ => 0) []) ltac:(lia) (proj1 small_memory_mapped) ltac:(lia)) as [_ H].
    destruct H as (m' & d' & Hrun & Ho); [vm_compute; discriminate|].
    exists m', d'. split; [exact Hrun|]. rewrite Ho by (unfold ELFHDR; lia). vm_compute. reflexivity.
Defined.
