(* ===== verification/Entry.v ===== *)
(** The page tables the kernel of JOS starts with, [mit6.828/lab/kern/entrypgdir.c],
    and the address macros of [inc/mmu.h]; and how the processor translates with
    them. *)
From Stdlib Require Import ZArith Lia.
From S2P Require Import Prelude.
Open Scope Z_scope.

Definition KERNBASE : Z := 0xF0000000.
Definition NPDENTRIES : nat := 1024.
Definition NPTENTRIES : nat := 1024.
Definition PGSIZE : Z := 4096.
Definition PTXSHIFT : Z := 12.
Definition PDXSHIFT : Z := 22.
Definition PTE_P : Z := 0x001.
Definition PTE_W : Z := 0x002.

Definition PDX (la : Z) : Z := Z.land (Z.shiftr la PDXSHIFT) 0x3FF.
Definition PTX (la : Z) : Z := Z.land (Z.shiftr la PTXSHIFT) 0x3FF.
Definition PGOFF (la : Z) : Z := Z.land la 0xFFF.
Definition PGADDR (d t o : Z) : Z := Z.lor (Z.lor (Z.shiftl d PDXSHIFT) (Z.shiftl t PTXSHIFT)) o.
Definition PTE_ADDR (pte : Z) : Z := Z.land pte (u32 (Z.lnot 0xFFF)).

(** The 1024 entries, in order, of [0x1000] more each. *)
Definition entry_pgtable : list Z :=
  (fun i => Z.lor (Z.lor (Z.of_nat i * 0x1000) PTE_P) PTE_W) <$> seq 0 NPTENTRIES.

(** [table]: where [entry_pgtable] is linked. *)
Definition entry_pgdir (table : Z) : list Z :=
  <[0%nat := u32 (table - KERNBASE + PTE_P)]>
  (<[Z.to_nat (Z.shiftr KERNBASE PDXSHIFT) := u32 (table - KERNBASE + PTE_P + PTE_W)]> (replicate NPDENTRIES 0)).

(** ** Translation *)

(** The processor's walk: the physical address and whether it can be written; [tables]
    are the page tables in physical memory. *)
Definition page_walk (dir : list Z) (tables : Z -> option (list Z)) (la : Z) : option (Z * bool) :=
  pde ← dir !! Z.to_nat (PDX la);
  if Z.testbit pde 0 then
    table ← tables (PTE_ADDR pde);
    pte ← table !! Z.to_nat (PTX la);
    if Z.testbit pte 0 then Some (Z.lor (PTE_ADDR pte) (PGOFF la), Z.testbit pde 1 && Z.testbit pte 1) else None
  else None.

(** The three parts of an address. *)
Lemma parts la : 0 <= la < 2 ^ 32 ->
  PDX la = la / 2 ^ 22 /\ PTX la = (la / 2 ^ 12) mod 2 ^ 10 /\ PGOFF la = la mod 2 ^ 12.
Proof.
  intros H. unfold PDX, PTX, PGOFF, PDXSHIFT, PTXSHIFT. rewrite !Z.shiftr_div_pow2 by lia.
  change 0x3FF with (Z.ones 10). change 0xFFF with (Z.ones 12). rewrite !Z.land_ones by lia.
  split; [|done]. apply Z.mod_small. split; [apply Z.div_pos; lia|apply Z.div_lt_upper_bound; lia].
Qed.

Lemma pte_addr_div pte : 0 <= pte < 2 ^ 32 -> PTE_ADDR pte = pte / 2 ^ 12 * 2 ^ 12.
Proof.
  intros H. unfold PTE_ADDR. change (u32 (Z.lnot 0xFFF)) with (Z.ldiff (Z.ones 32) (Z.ones 12)).
  transitivity (Z.ldiff pte (Z.ones 12)).
  - assert (E : pte = Z.land pte (Z.ones 32)) by (rewrite Z.land_ones by lia; symmetry; apply Z.mod_small; lia).
    rewrite E at 2. apply Z.bits_inj'. intros n Hn. by rewrite !Z.land_spec, !Z.ldiff_spec, !Z.land_spec, andb_assoc.
  - by rewrite Z.ldiff_ones_r, Z.shiftr_div_pow2, Z.shiftl_mul_pow2 by lia.
Qed.

(** An aligned address with flags below it. *)
Lemma with_flags a f : 0 <= f < 2 ^ 12 -> Z.lor (a * 2 ^ 12) f = a * 2 ^ 12 + f.
Proof.
  intros Hf. assert (H0 : Z.land (a * 2 ^ 12) f = 0).
  { apply Z.bits_inj'. intros n Hn. rewrite Z.land_spec, Z.bits_0. destruct (Z.lt_ge_cases n 12).
    - by rewrite Z.mul_pow2_bits_low by lia.
    - rewrite <- (Z.mod_small f (2 ^ 12)) by lia. rewrite Z.mod_pow2_bits_high by lia. apply andb_false_r. }
  pose proof (Z.add_lor_land (a * 2 ^ 12) f). lia.
Qed.

Lemma flag_bits a f i : 0 <= i < 12 -> Z.testbit (a * 2 ^ 12 + f) i = Z.testbit f i.
Proof.
  intros Hi. rewrite <- (Z.mod_pow2_bits_low (a * 2 ^ 12 + f) 12), <- (Z.mod_pow2_bits_low f 12) by lia. by rewrite Z.add_comm, Z_mod_plus_full.
Qed.

(** The pieces of an address put together again. *)
Lemma PGADDR_parts la : 0 <= la < 2 ^ 32 -> PGADDR (PDX la) (PTX la) (PGOFF la) = la.
Proof.
  intros H. destruct (parts la H) as (-> & -> & ->). unfold PGADDR, PDXSHIFT, PTXSHIFT.
  rewrite !Z.shiftl_mul_pow2 by lia.
  assert (E : Z.lor (la / 2 ^ 22 * 2 ^ 22) ((la / 2 ^ 12) mod 2 ^ 10 * 2 ^ 12) = la / 2 ^ 12 * 2 ^ 12).
  { set (p := la / 2 ^ 12). replace (la / 2 ^ 22) with (p / 2 ^ 10) by (unfold p; rewrite Z.div_div by lia; done).
    replace (p / 2 ^ 10 * 2 ^ 22) with (p / 2 ^ 10 * 2 ^ 10 * 2 ^ 12) by lia.
    rewrite <- !(Z.shiftl_mul_pow2 _ 12), <- Z.shiftl_lor by lia. f_equal.
    assert (H0 : Z.land (p / 2 ^ 10 * 2 ^ 10) (p mod 2 ^ 10) = 0).
    { apply Z.bits_inj'. intros n Hn. rewrite Z.land_spec, Z.bits_0. destruct (Z.lt_ge_cases n 10).
      - by rewrite Z.mul_pow2_bits_low by lia.
      - rewrite Z.mod_pow2_bits_high by lia. apply andb_false_r. }
    pose proof (Z.add_lor_land (p / 2 ^ 10 * 2 ^ 10) (p mod 2 ^ 10)). pose proof (Z.div_mod p (2 ^ 10) ltac:(lia)). lia. }
  rewrite E, with_flags by (apply Z.mod_pos_bound; lia). pose proof (Z.div_mod la (2 ^ 12)). lia.
Qed.

Lemma entry_pte i : (i < 1024)%nat -> entry_pgtable !! i = Some (Z.of_nat i * 2 ^ 12 + 3).
Proof.
  intros Hi. unfold entry_pgtable, NPTENTRIES. rewrite list_lookup_fmap, lookup_seq_lt by done. cbn [fmap option_fmap option_map].
  f_equal. rewrite <- Z.lor_assoc. change (Z.lor PTE_P PTE_W) with 3. by apply (with_flags (Z.of_nat i) 3).
Qed.

Lemma entry_pde table i : (i < 1024)%nat ->
  entry_pgdir table !! i =
    if decide (i = 0%nat) then Some (u32 (table - KERNBASE + 1))
    else if decide (i = 960%nat) then Some (u32 (table - KERNBASE + 3)) else Some 0.
Proof.
  intros Hi. unfold entry_pgdir, NPDENTRIES. change (Z.to_nat (Z.shiftr KERNBASE PDXSHIFT)) with 960%nat.
  replace (table - KERNBASE + PTE_P + PTE_W) with (table - KERNBASE + 3) by (unfold PTE_P, PTE_W; lia).
  rewrite !list_lookup_insert, length_insert, length_replicate.
  repeat case_decide; try done; try lia. by apply lookup_replicate_2.
Qed.

(** The frame an entry names. *)
Lemma pte_addr_flags a f : 0 <= a -> 0 <= f < 2 ^ 12 -> a * 2 ^ 12 + f < 2 ^ 32 -> PTE_ADDR (a * 2 ^ 12 + f) = a * 2 ^ 12.
Proof.
  intros Ha Hf Hlt. rewrite pte_addr_div by lia. rewrite Z.add_comm, Z.div_add, (Z.div_small f) by lia. lia.
Qed.

Lemma walk_mapped phys d la flags : 0 <= la < 2 ^ 32 -> 0 <= phys -> phys < 2 ^ 16 -> 0 <= flags < 2 ^ 12 ->
  PDX la = Z.of_nat d -> (d < 1024)%nat -> Z.testbit flags 0 = true ->
  entry_pgdir (KERNBASE + phys * 2 ^ 12) !! d = Some (phys * 2 ^ 12 + flags) ->
  page_walk (entry_pgdir (KERNBASE + phys * 2 ^ 12)) (fun a => if a =? phys * 2 ^ 12 then Some entry_pgtable else None) la =
  Some (la mod 2 ^ 22, Z.testbit flags 1).
Proof.
  intros Hla Hp0 Hp Hf Hd Hd1 Hb E. unfold page_walk. rewrite Hd, Nat2Z.id, E. cbn [mbind option_bind].
  rewrite flag_bits, Hb, pte_addr_flags, Z.eqb_refl by lia. cbn [mbind option_bind].
  destruct (parts la Hla) as (_ & Et & Eo). pose proof (Z.mod_pos_bound (la / 2 ^ 12) (2 ^ 10) ltac:(lia)) as Hm.
  pose proof (Z.mod_pos_bound la (2 ^ 12) ltac:(lia)). rewrite Et, Eo. set (t := (la / 2 ^ 12) mod 2 ^ 10) in *.
  rewrite entry_pte by lia. cbn [mbind option_bind]. rewrite Z2Nat.id by lia.
  rewrite !flag_bits, pte_addr_flags, with_flags by lia. change (Z.testbit 3 0) with true. change (Z.testbit 3 1) with true.
  rewrite andb_true_r. do 2 f_equal. subst t. change (2 ^ 22) with (2 ^ 12 * 2 ^ 10). rewrite Z.rem_mul_r by lia. lia.
Qed.

(** C27: with the tables the kernel starts with, wherever they are linked in the memory
    they map, the first 4MB of addresses translate to themselves, read only, the
    4MB from [KERNBASE] on to the same physical memory, writable, and no other
    address translates; and the macros that cut an address up put it together again. *)
Theorem entry_translates table la (Hla : 0 <= la < 2 ^ 32) (Htable : KERNBASE <= table < KERNBASE + 2 ^ 28) (Hal : table mod PGSIZE = 0) :
  page_walk (entry_pgdir table) (fun a => if a =? table - KERNBASE then Some entry_pgtable else None) la =
    (if la <? 2 ^ 22 then Some (la, false)
     else if (KERNBASE <=? la) && (la <? KERNBASE + 2 ^ 22) then Some (la - KERNBASE, true) else None) /\
  PGADDR (PDX la) (PTX la) (PGOFF la) = la.
Proof.
  split; [|by apply PGADDR_parts].
  set (phys := (table - KERNBASE) / 2 ^ 12). assert (Ht : table = KERNBASE + phys * 2 ^ 12).
  { subst phys. unfold PGSIZE, KERNBASE in *. Z.div_mod_to_equations. lia. }
  assert (Hp : 0 <= phys < 2 ^ 16) by (unfold KERNBASE in *; lia).
  rewrite Ht. replace (KERNBASE + phys * 2 ^ 12 - KERNBASE) with (phys * 2 ^ 12) by lia.
  destruct (parts la Hla) as (Ed & _). pose proof (Z.div_mod la (2 ^ 22) ltac:(lia)) as Hdm.
  pose proof (Z.mod_pos_bound la (2 ^ 22) ltac:(lia)). pose proof (Z.div_pos la (2 ^ 22) ltac:(lia) ltac:(lia)).
  assert (Hd : la / 2 ^ 22 < 1024) by (apply Z.div_lt_upper_bound; lia).
  assert (Epde : forall f, 0 <= f < 4 -> u32 (KERNBASE + phys * 2 ^ 12 - KERNBASE + f) = phys * 2 ^ 12 + f).
  { intros f Hf. rewrite wrapu_small by bound_lia. lia. }
  destruct (Z.ltb_spec la (2 ^ 22)) as [Hlow|Hhigh].
  - rewrite (walk_mapped phys 0 la 1); try done; try lia.
    + do 2 f_equal. apply Z.mod_small. lia.
    + rewrite entry_pde by lia. by rewrite decide_True, Epde by lia.
  - destruct (Z.leb_spec KERNBASE la), (Z.ltb_spec la (KERNBASE + 2 ^ 22)); cbn [andb];
      unfold KERNBASE in * |-; [rewrite (walk_mapped phys 960 la 3); try done; try lia| | |lia].
    + do 2 f_equal. unfold KERNBASE. lia.
    + rewrite entry_pde by lia. by rewrite decide_False, decide_True, Epde by lia.
    + unfold page_walk. rewrite Ed, entry_pde by lia. by rewrite !decide_False by lia.
    + unfold page_walk. rewrite Ed, entry_pde by lia. by rewrite !decide_False by lia.
Qed.

Lemma entry_translates_witness :
  page_walk (entry_pgdir 0xF0118000) (fun a => if a =? 0x118000 then Some entry_pgtable else None) 0xF0100123 = Some (0x100123, true).
Proof. exact (proj1 (entry_translates 0xF0118000 0xF0100123 ltac:(lia) ltac:(unfold KERNBASE; lia) ltac:(reflexivity))). Defined.
