(* ===== verification/JosPrintf.v ===== *)
(** Formatted output of the JOS kernel: [mit6.828/lab/lib/printfmt.c] and
    [mit6.828/lab/kern/printf.c].  The output routine [putch] is a run over any
    state [S] that shows a memory.  A format is the characters of a literal,
    read by index because the code steps back in it; a [va_list] is the list of
    the 32-bit words left, an address of a string literal being the literal.
    The [int] counters [width] and [precision] are integers, [precision]
    wrapped where it accumulates digits. *)
From Stdlib Require Import ZArith Lia.
From S2P Require Import Prelude JosString.
Open Scope Z_scope.

Inductive arg : Type :=
  | Word (w : Z)
  | Literal (s : list Z).

(** A [const char *]. *)
Inductive text : Type :=
  | Ptr (a : Z)
  | Lit (s : list Z).

Definition MAXERROR : Z := 8.
Definition E_INVAL : Z := 3.

(** ["unspecified error"] and the others *)
Definition error_string (err : Z) : option (list Z) :=
  match err with
  | 1 => Some [117;110;115;112;101;99;105;102;105;101;100;32;101;114;114;111;114]
  | 2 => Some [98;97;100;32;101;110;118;105;114;111;110;109;101;110;116]
  | 3 => Some [105;110;118;97;108;105;100;32;112;97;114;97;109;101;116;101;114]
  | 4 => Some [111;117;116;32;111;102;32;109;101;109;111;114;121]
  | 5 => Some [111;117;116;32;111;102;32;101;110;118;105;114;111;110;109;101;110;116;115]
  | 6 => Some [115;101;103;109;101;110;116;97;116;105;111;110;32;102;97;117;108;116]
  | _ => None
  end.

Section printfmt.
Context {S : Type} (mem : S -> memory) (putch : Z -> M S unit).

(** A read of the memory the state shows. *)
Definition reading {A} (r : M memory A) : M S A := fun s =>
  match r (mem s) with Ok (a, _) => Ok (a, s) | Err e => Err e end.

(** *** Numbers *)

Fixpoint pad (n : nat) (padc : Z) : M S unit :=
  match n with O => ret tt | Datatypes.S n' => do* putch padc; pad n' padc end.

(** ["0123456789abcdef"[d]] *)
Definition hex_digit (d : Z) : Z := if d <? 10 then 48 + d else 87 + d.

(** [num] has 64 bits, so 64 divisions by a base above 1 reach the first digit. *)
Fixpoint printnum (fuel : nat) (num base width padc : Z) : M S unit :=
  match fuel with
  | O => fail OutOfFuel
  | Datatypes.S fuel' =>
      do* (if base <=? num then printnum fuel' (num / base) base (width - 1) padc
           else pad (Z.to_nat (width - 1)) padc);
      putch (hex_digit (num mod base))
  end.

(** *** Arguments *)

Definition va_int (ap : list arg) : M S (Z * list arg) :=
  match ap with Word w :: ap => ret (w, ap) | _ => fail BadAccess end.

(** Little-endian, the low word first. *)
Definition va_llong (ap : list arg) : M S (Z * list arg) :=
  let* (lo, ap) := va_int ap in let* (hi, ap) := va_int ap in ret (lo + hi * 2 ^ 32, ap).

Definition getuint (ap : list arg) (lflag : Z) : M S (Z * list arg) :=
  if 2 <=? lflag then va_llong ap
  else if negb (lflag =? 0) then va_int ap
  else va_int ap.

Definition getint (ap : list arg) (lflag : Z) : M S (Z * list arg) :=
  if 2 <=? lflag then let* (v, ap) := va_llong ap in ret (s64 v, ap)
  else if negb (lflag =? 0) then let* (v, ap) := va_int ap in ret (s32 v, ap)
  else let* (v, ap) := va_int ap in ret (s32 v, ap).

(** [va_arg(ap, char * )], with ["(null)"] for [NULL] *)
Definition va_text (ap : list arg) : M S (text * list arg) :=
  match ap with
  | Word a :: ap => ret (if a =? 0 then Lit [40;110;117;108;108;41] else Ptr a, ap)
  | Literal s :: ap => ret (Lit s, ap)
  | [] => fail BadAccess
  end.

(** *** Strings *)

(** [p[i]] *)
Definition text_char (p : text) (i : nat) : M S Z :=
  match p with
  | Ptr a => reading (load_char (a + Z.of_nat i))
  | Lit l => let* b := get_or BadAccess ((l ++ [0]) !! i) in ret (s8 b)
  end.
Definition text_nlen (fuel : nat) (p : text) (size : Z) : M S Z :=
  match p with
  | Ptr a => reading (strnlen fuel a size)
  | Lit l => ret (Z.min size (Z.of_nat (length l)))
  end.

(** The characters of [%s] from the [i]-th; returns the [width] left. *)
Fixpoint print_chars (fuel : nat) (p : text) (i : nat) (altflag : bool) (width precision : Z) : M S Z :=
  match fuel with
  | O => fail OutOfFuel
  | Datatypes.S fuel' =>
      let* ch := text_char p i in
      if negb (ch =? 0) && ((precision <? 0) || (0 <=? precision - 1)) then
        do* putch (if altflag && ((ch <? 32) || (126 <? ch)) then 63 else ch);
        print_chars fuel' p (i + 1) altflag (width - 1)
          (if precision <? 0 then precision else precision - 1)
      else ret width
  end.

(** *** The conversions *)

(** What the flags of an escape sequence have set. *)
Record escape : Type := mk_escape {
  padc : Z;
  width : Z;
  precision : Z;
  lflag : Z;
  altflag : bool
}.
Definition no_escape : escape := mk_escape 32 (-1) (-1) 0 false.

Definition print_text (fuel : nat) (p : text) (e : escape) : M S unit :=
  let* w :=
    (if (0 <? width e) && negb (padc e =? 45) then
       let* len := text_nlen fuel p (u32 (precision e)) in
       do* pad (Z.to_nat (width e - len)) (padc e);
       ret (Z.min (width e - len) 0)
     else ret (width e)) in
  let* w := print_chars fuel p 0 (altflag e) w (precision e) in
  pad (Z.to_nat w) 32.

(** [fmt[i]] *)
Definition fmt_at (fmt : list Z) (i : nat) : M S Z := get_or BadAccess ((fmt ++ [0]) !! i).

(** [for (fmt--; fmt[-1] != '%'; fmt--)] from [fmt - 1] *)
Fixpoint step_back (fmt : list Z) (i : nat) : M S nat :=
  match i with
  | O => fail BadAccess
  | Datatypes.S i' =>
      let* c := fmt_at fmt i' in
      if c =? 37 then ret i else step_back fmt i'
  end.

Definition error_args (err : Z) : list Z * list arg :=
  match (if MAXERROR <=? err then None else error_string err) with
  | None => ([101;114;114;111;114;32;37;100], [Word (u32 err)])
  | Some p => ([37;115], [Literal p])
  end.

(** The conversion letter [ch], the index [i] past it; [printfmt] is the
    recursive call. *)
Definition conversion (printfmt : list Z -> list arg -> M S unit) (fuel : nat) (fmt : list Z)
    (ch : Z) (i : nat) (e : escape) (ap : list arg) : M S (nat * list arg) :=
  let number num base := printnum 64 num base (width e) (padc e) in
  match ch with
  | 99 => (* c *)
      let* (w, ap) := va_int ap in
      do* putch (s32 w);
      ret (i, ap)
  | 101 => (* e *)
      let* (w, ap) := va_int ap in
      let err := if s32 w <? 0 then s32 (- s32 w) else s32 w in
      do* ensure BadAccess (0 <=? err);
      do* printfmt (error_args err).1 (error_args err).2;
      ret (i, ap)
  | 115 => (* s *)
      let* (p, ap) := va_text ap in
      do* print_text fuel p e;
      ret (i, ap)
  | 100 => (* d *)
      let* (v, ap) := getint ap (lflag e) in
      do* (if v <? 0 then do* putch 45; number (u64 (- v)) 10 else number (u64 v) 10);
      ret (i, ap)
  | 117 => (* u *)
      let* (v, ap) := getuint ap (lflag e) in
      do* number v 10;
      ret (i, ap)
  | 111 => (* o *)
      do* putch 88; do* putch 88; do* putch 88;
      ret (i, ap)
  | 112 => (* p *)
      do* putch 48;
      do* putch 120;
      let* (v, ap) := va_int ap in
      do* number v 16;
      ret (i, ap)
  | 120 => (* x *)
      let* (v, ap) := getuint ap (lflag e) in
      do* number v 16;
      ret (i, ap)
  | 37 =>
      do* putch 37;
      ret (i, ap)
  | _ =>
      do* putch 37;
      let* i := step_back fmt (i - 1) in
      ret (i, ap)
  end.

Definition is_digit (c : Z) : bool := (48 <=? c) && (c <=? 57).

(** [for (precision = 0; ; ++fmt)], [ch] the last digit read and [i] past it *)
Fixpoint parse_precision (fuel : nat) (fmt : list Z) (i : nat) (ch precision : Z) : M S (Z * nat) :=
  match fuel with
  | O => fail OutOfFuel
  | Datatypes.S fuel' =>
      let precision := s32 (precision * 10 + ch - 48) in
      let* c := fmt_at fmt i in
      if is_digit (s8 c) then parse_precision fuel' fmt (i + 1) (s8 c) precision
      else ret (precision, i)
  end.

Definition process_precision (e : escape) (p : Z) : escape :=
  if width e <? 0 then mk_escape (padc e) p (-1) (lflag e) (altflag e)
  else mk_escape (padc e) (width e) p (lflag e) (altflag e).

(** [reswitch:], [i] the index of the next character *)
Fixpoint reswitch (printfmt : list Z -> list arg -> M S unit) (fuel : nat) (fmt : list Z)
    (i : nat) (e : escape) (ap : list arg) : M S (nat * list arg) :=
  match fuel with
  | O => fail OutOfFuel
  | Datatypes.S fuel' =>
      let* ch := fmt_at fmt i in
      let again i e ap := reswitch printfmt fuel' fmt i e ap in
      if (ch =? 45) || (ch =? 48) then
        again (i + 1)%nat (mk_escape ch (width e) (precision e) (lflag e) (altflag e)) ap
      else if is_digit ch then
        let* (p, i) := parse_precision fuel' fmt (i + 1) ch 0 in
        again i (process_precision e p) ap
      else if ch =? 42 then
        let* (w, ap) := va_int ap in
        again (i + 1)%nat (process_precision e (s32 w)) ap
      else if ch =? 46 then
        again (i + 1)%nat (mk_escape (padc e) (if width e <? 0 then 0 else width e)
          (precision e) (lflag e) (altflag e)) ap
      else if ch =? 35 then
        again (i + 1)%nat (mk_escape (padc e) (width e) (precision e) (lflag e) true) ap
      else if ch =? 108 then
        again (i + 1)%nat (mk_escape (padc e) (width e) (precision e) (lflag e + 1) (altflag e)) ap
      else conversion printfmt fuel' fmt ch (i + 1) e ap
  end.

(** The loop of [vprintfmt], one character or escape sequence a step. *)
Fixpoint vprintfmt_loop (fuel : nat) (fmt : list Z) (i : nat) (ap : list arg) : M S unit :=
  match fuel with
  | O => fail OutOfFuel
  | Datatypes.S fuel' =>
      let* ch := fmt_at fmt i in
      if negb (ch =? 37) then
        if ch =? 0 then ret tt
        else do* putch ch; vprintfmt_loop fuel' fmt (i + 1) ap
      else
        let* (i, ap) :=
          reswitch (fun fmt ap => vprintfmt_loop fuel' fmt 0 ap) fuel' fmt (i + 1) no_escape ap in
        vprintfmt_loop fuel' fmt i ap
  end.

Definition vprintfmt (fuel : nat) (fmt : list Z) (ap : list arg) : M S unit :=
  vprintfmt_loop fuel fmt 0 ap.
Definition printfmt (fuel : nat) (fmt : list Z) (ap : list arg) : M S unit := vprintfmt fuel fmt ap.
End printfmt.

(** ** To a buffer *)

Record sprintbuf : Type := mk_sprintbuf {
  sb_mem : memory;
  sb_buf : Z;
  sb_ebuf : Z;
  sb_cnt : Z
}.

Definition sprintputch (ch : Z) : M sprintbuf unit := fun b =>
  let cnt := s32 (sb_cnt b + 1) in
  if sb_buf b <? sb_ebuf b then
    match store (sb_buf b) ch (sb_mem b) with
    | Ok (_, m) => Ok (tt, mk_sprintbuf m (sb_buf b + 1) (sb_ebuf b) cnt)
    | Err e => Err e
    end
  else Ok (tt, mk_sprintbuf (sb_mem b) (sb_buf b) (sb_ebuf b) cnt).

Definition vsnprintf (fuel : nat) (buf n : Z) (fmt : list Z) (ap : list arg) : M memory Z := fun m =>
  if (buf =? 0) || (n <? 1) then Ok (- E_INVAL, m)
  else
    match vprintfmt sb_mem sprintputch fuel fmt ap (mk_sprintbuf m buf (buf + n - 1) 0) with
    | Err e => Err e
    | Ok (_, b) => (do* store (sb_buf b) 0; ret (sb_cnt b)) (sb_mem b)
    end.
Definition snprintf (fuel : nat) (buf n : Z) (fmt : list Z) (ap : list arg) : M memory Z :=
  vsnprintf fuel buf n fmt ap.

(** ** To the console: [kern/printf.c] *)

Section cprintf.
Context {C : Type} (console_mem : C -> memory) (cputchar : Z -> M C unit).

(** [*cnt++] moves the local pointer; the counter keeps its value. *)
Definition putch (ch : Z) : M (C * Z) unit := fun '(c, cnt) =>
  match cputchar ch c with Ok (_, c) => Ok (tt, (c, cnt)) | Err e => Err e end.

Definition vcprintf (fuel : nat) (fmt : list Z) (ap : list arg) : M C Z := fun c =>
  match vprintfmt (fun s => console_mem s.1) putch fuel fmt ap (c, 0) with
  | Ok (_, (c, cnt)) => Ok (cnt, c)
  | Err e => Err e
  end.
Definition cprintf (fuel : nat) (fmt : list Z) (ap : list arg) : M C Z := vcprintf fuel fmt ap.
End cprintf.
