(* ===== verification/JosPrintfSpec.v ===== *)
(** What formatted output prints: the rendering of a format, defined on its
    directives, is what [vprintfmt] hands to [putch]; [vsnprintf] leaves the
    part that fits, terminated, in the buffer. *)
From Stdlib Require Import ZArith Lia Bool.
From S2P Require Import Prelude JosString JosStringSpec JosPrintf.
Open Scope Z_scope.

(** ** Output *)

Section output.
Context {S : Type} (mem : S -> memory) (putch : Z -> M S unit).

(** The run that puts the characters [cs]. *)
Fixpoint emit (cs : list Z) : M S unit :=
  match cs with [] => ret tt | c :: cs => do* putch c; emit cs end.

Lemma bind_ext_ok {A B} (r : M S A) (k k' : A -> M S B) s :
  (forall a s', r s = Ok (a, s') -> k a s' = k' a s') -> bind r k s = bind r k' s.
Proof. intros H. unfold bind. destruct (r s) as [[]|]; [by apply H|done]. Qed.

Lemma bind_ext {A B} (r : M S A) (k k' : A -> M S B) s :
  (forall a s', k a s' = k' a s') -> bind r k s = bind r k' s.
Proof. intros H. unfold bind. by destruct (r s) as [[]|]. Qed.

Lemma bind_eq {A B} (r r' : M S A) (k : A -> M S B) s : r s = r' s -> bind r k s = bind r' k s.
Proof. intros H. unfold bind. by rewrite H. Qed.

Lemma emit_app xs ys s : emit (xs ++ ys) s = (do* emit xs; emit ys) s.
Proof.
  revert s. induction xs as [|x xs IH]; intros s; cbn [app emit]; [done|].
  rewrite bind_assoc. apply bind_ext. intros _ s'. apply IH.
Qed.

Lemma bind_tt (r : M S unit) s : (do* r; ret tt) s = r s.
Proof. unfold bind. by destruct (r s) as [[[] ?]|]. Qed.

Lemma pad_emit n c s : pad putch n c s = emit (replicate n c) s.
Proof.
  revert s. induction n as [|n IH]; intros s; cbn; [done|]. by apply bind_ext.
Qed.

(** A number: padding up to the width, then its digits. *)
Definition numeral_text (base num width padc : Z) : list Z :=
  let ds := digits 64 base num in
  replicate (Z.to_nat (width - zlength ds)) padc ++ (digit_char <$> ds).

Lemma printnum_emit fuel num base width padc s : 2 <= base -> 0 <= num < base ^ Z.of_nat fuel ->
  (0 < fuel)%nat ->
  let ds := digits fuel base num in
  printnum putch fuel num base width padc s =
    emit (replicate (Z.to_nat (width - zlength ds)) padc ++ (digit_char <$> ds)) s.
Proof.
  intros Hb. revert num width s. induction fuel as [|fuel IH]; intros num width s Hn Hf ds; [lia|].
  unfold ds. cbn [printnum digits]. destruct (Z.leb_spec base num).
  - assert (Hq : 0 <= num / base < base ^ Z.of_nat fuel).
    { split; [apply Z.div_pos; lia|]. apply Z.div_lt_upper_bound; [lia|].
      rewrite Nat2Z.inj_succ, Z.pow_succ_r in Hn by lia. lia. }
    assert (0 < fuel)%nat.
    { destruct fuel; [|lia]. cbn in Hq. pose proof (Z.div_str_pos num base). lia. }
    erewrite bind_eq by (by apply IH).
    rewrite length_app, fmap_app, (assoc_L (++)). cbn [length]. symmetry.
    rewrite emit_app. cbn [fmap list_fmap emit].
    replace (width - Z.of_nat (length (digits fuel base (num / base)) + 1))
      with (width - 1 - zlength (digits fuel base (num / base))) by lia.
    apply bind_ext. intros. by rewrite bind_tt.
  - erewrite bind_eq by apply pad_emit. rewrite emit_app. cbn [length fmap list_fmap emit].
    rewrite (Z.mod_small num) by lia. change (Z.of_nat 1) with 1.
    apply bind_ext. intros. by rewrite bind_tt.
Qed.

Lemma printnum_text num base width padc s : 2 <= base -> 0 <= num < 2 ^ 64 ->
  printnum putch 64 num base width padc s = emit (numeral_text base num width padc) s.
Proof.
  intros Hb Hn. apply printnum_emit; [done| |lia]. split; [lia|].
  eapply Z.lt_le_trans; [apply Hn|]. apply Z.pow_le_mono_l. lia.
Qed.
End output.

(** ** Directives *)

(** Flags of an escape sequence, in the order the encoding writes them. *)
Record flags : Type := mk_flags {
  f_pad : option Z;
  f_width : option Z;
  f_precision : option Z;
  f_alt : bool;
  f_long : nat
}.

Definition flags_wf (f : flags) : Prop :=
  (f_pad f = None \/ f_pad f = Some 45 \/ f_pad f = Some 48) /\
  (forall w, f_width f = Some w -> 0 < w < 2 ^ 31) /\
  (forall p, f_precision f = Some p -> 0 < p < 2 ^ 31).

Definition numeral_chars (n : Z) : list Z := digit_char <$> digits 64 10 n.

Definition encode_flags (f : flags) : list Z :=
  match f_pad f with Some c => [c] | None => [] end ++
  match f_width f with Some w => numeral_chars w | None => [] end ++
  match f_precision f with Some p => 46 :: numeral_chars p | None => [] end ++
  (if f_alt f then [35] else []) ++ replicate (f_long f) 108.

Definition flags_width (f : flags) : Z :=
  match f_width f, f_precision f with Some w, _ => w | None, Some _ => 0 | None, None => -1 end.
Definition flags_padc (f : flags) : Z := default 32 (f_pad f).

(** What [reswitch] knows at the conversion letter. *)
Definition flags_escape (f : flags) : escape :=
  mk_escape (flags_padc f) (flags_width f) (default (-1) (f_precision f)) (Z.of_nat (f_long f)) (f_alt f).

Inductive directive : Type :=
  | Plain (c : Z)
  | Percent
  | Octal
  | Char (z : Z)
  | Decimal (f : flags) (z : Z)
  | Unsigned (f : flags) (z : Z)
  | Hex (f : flags) (z : Z)
  | Pointer (f : flags) (z : Z)
  | Text (f : flags) (p : Z + list Z) (l : list Z)
  | Error (z : Z).

Definition encode (d : directive) : list Z :=
  match d with
  | Plain c => [c]
  | Percent => [37; 37]
  | Octal => [37; 111]
  | Char _ => [37; 99]
  | Decimal f _ => 37 :: encode_flags f ++ [100]
  | Unsigned f _ => 37 :: encode_flags f ++ [117]
  | Hex f _ => 37 :: encode_flags f ++ [120]
  | Pointer f _ => 37 :: encode_flags f ++ [112]
  | Text f _ _ => 37 :: encode_flags f ++ [115]
  | Error _ => [37; 101]
  end.

Definition int_args (long : nat) (z : Z) : list arg :=
  if (2 <=? long)%nat then [Word (u32 z); Word (u32 (z / 2 ^ 32))] else [Word (u32 z)].

Definition args (d : directive) : list arg :=
  match d with
  | Plain _ | Percent | Octal => []
  | Char z | Pointer _ z | Error z => [Word (u32 z)]
  | Decimal f z | Unsigned f z | Hex f z => int_args (f_long f) z
  | Text _ (inl a) _ => [Word a]
  | Text _ (inr l) _ => [Literal l]
  end.

Definition null_text : list Z := [40; 110; 117; 108; 108; 41].

(** A string as [%s] shows it: cut to the precision, unprintable characters
    hidden under [#], padded. *)
Definition shown (alt : bool) (b : Z) : Z :=
  let ch := s8 b in if alt && ((ch <? 32) || (126 <? ch)) then 63 else ch.
Definition cut (f : flags) (l : list Z) : list Z :=
  match f_precision f with Some p => take (Z.to_nat p) l | None => l end.
Definition text_output (f : flags) (l : list Z) : list Z :=
  let cs := shown (f_alt f) <$> cut f l in
  let n := Z.to_nat (flags_width f - zlength cs) in
  if flags_padc f =? 45 then cs ++ replicate n 32 else replicate n (flags_padc f) ++ cs.

Definition number_output (f : flags) (base z : Z) : list Z :=
  numeral_text base z (flags_width f) (flags_padc f).
Definition decimal_output (f : flags) (z : Z) : list Z :=
  (if z <? 0 then [45] else []) ++ number_output f 10 (Z.abs z).

Definition plain_flags : flags := mk_flags None None None false 0.
Definition error_output (z : Z) : list Z :=
  match error_string (Z.abs z) with
  | Some l => text_output plain_flags l
  | None => [101; 114; 114; 111; 114; 32] ++ decimal_output plain_flags (Z.abs z)
  end.

Definition render (d : directive) : list Z :=
  match d with
  | Plain c => [c]
  | Percent => [37]
  | Octal => [88; 88; 88]
  | Char z => [z]
  | Decimal f z => decimal_output f z
  | Unsigned f z => number_output f 10 z
  | Hex f z => number_output f 16 z
  | Pointer f z => [48; 120] ++ number_output f 16 z
  | Text f _ l => text_output f l
  | Error z => error_output z
  end.

Definition is_text (l : list Z) : Prop := Forall (fun b => 0 < b < 256) l /\ zlength l < 2 ^ 31.

(** ** The rendering *)

Section rendering.
Context {S : Type} (mem : S -> memory) (putch : Z -> M S unit).
(** What the strings printed rely on; [putch] keeps it. *)
Context (Inv : S -> Prop) (Hinv : forall c s s', Inv s -> putch c s = Ok (tt, s') -> Inv s').

Definition int_range (signed : bool) (long : nat) (z : Z) : Prop :=
  let w := if (2 <=? long)%nat then 64 else 32 in if signed then is_s w z else is_u w z.

Definition text_holds (p : Z + list Z) (l : list Z) : Prop :=
  is_text l /\
  match p with
  | inl a => if a =? 0 then l = null_text else forall s, Inv s -> cstr (mem s) a l
  | inr l' => l' = l
  end.

Definition directive_wf (d : directive) : Prop :=
  match d with
  | Plain c => 0 < c < 256 /\ c <> 37
  | Percent | Octal => True
  | Char z => is_s 32 z
  | Decimal f z => flags_wf f /\ int_range true (f_long f) z
  | Unsigned f z | Hex f z => flags_wf f /\ int_range false (f_long f) z
  | Pointer f z => flags_wf f /\ is_u 32 z
  | Text f p l => flags_wf f /\ text_holds p l
  | Error z => is_s 32 z /\ z <> - 2 ^ 31
  end.

(** Fuel for one directive. *)
Definition need (d : directive) : nat :=
  2 * length (encode d) + match d with Text _ _ l => length l + 2 | Error _ => 200 | _ => 2 end.
Definition total_need (ds : list directive) : nat := sum_list_with need ds.

Lemma emit_inv cs s s' : Inv s -> emit putch cs s = Ok (tt, s') -> Inv s'.
Proof.
  revert s. induction cs as [|c cs IH]; intros s Hs; cbn [emit].
  - by intros [= <-].
  - intros ([] & s1 & H1 & H2)%bind_inv. eauto.
Qed.

Lemma emit_then {A} cs (k k' : M S A) s : Inv s -> (forall s', Inv s' -> k s' = k' s') ->
  (do* emit putch cs; k) s = (do* emit putch cs; k') s.
Proof.
  intros Hs Hk. unfold bind. destruct (emit putch cs s) as [[[] s']|] eqn:E; [|done].
  eauto using emit_inv.
Qed.

(** *** Reading the format *)

(** The characters [l] are what is left of [fmt] at [i]. *)
Definition rest_at (fmt : list Z) (i : nat) (l : list Z) : Prop := drop i (fmt ++ [0]) = l ++ [0].

Lemma rest_at_0 fmt : rest_at fmt 0 fmt.
Proof. done. Qed.

Lemma rest_at_app fmt i xs ys : rest_at fmt i (xs ++ ys) -> rest_at fmt (i + length xs) ys.
Proof.
  unfold rest_at. intros H. rewrite <- drop_drop, H, <- (assoc_L (++)). by rewrite drop_app_length.
Qed.

Lemma rest_at_cons fmt i x ys : rest_at fmt i (x :: ys) -> rest_at fmt (i + 1) ys.
Proof. apply (rest_at_app fmt i [x]). Qed.

Lemma fmt_at_hd fmt i l (s : S) : rest_at fmt i l -> fmt_at fmt i s = Ok (hd 0 l, s).
Proof.
  intros H. unfold fmt_at. assert (Hi : (fmt ++ [0]) !! i = Some (hd 0 l)).
  { rewrite <- (Nat.add_0_r i), <- lookup_drop, H. by destruct l. }
  by rewrite Hi.
Qed.

Lemma digit_char_range d : 0 <= d < 10 -> is_digit (digit_char d) = true /\ digit_char d = 48 + d.
Proof.
  intros Hd. unfold digit_char. destruct (Z.ltb_spec d 10); [|lia]. unfold is_digit.
  split; [|done]. apply andb_true_iff. rewrite !Z.leb_le. lia.
Qed.

Lemma parse_precision_ok fmt ds rest fuel i d v (s : S) : rest_at fmt i ((digit_char <$> ds) ++ rest) ->
  Forall (fun d => 0 <= d < 10) ds -> 0 <= d < 10 -> is_digit (s8 (hd 0 rest)) = false ->
  (length ds < fuel)%nat ->
  parse_precision fuel fmt i (48 + d) (s32 v) s =
    Ok ((s32 (fold_left (fun v d => v * 10 + d) (d :: ds) v), (i + length ds)%nat), s).
Proof.
  revert fuel i d v. induction ds as [|d' ds IH]; intros [|fuel] i d v Hr Hds Hd Hst Hf;
    cbn [length] in *; try lia; cbn [parse_precision]; step (fmt_at_hd _ _ _ s Hr);
    (replace (s32 v * 10 + (48 + d) - 48) with (s32 v * 10 + d) by lia); rewrite s32_step.
  - cbn [fmap list_fmap app]. rewrite Hst. cbn. by rewrite Nat.add_0_r.
  - apply Forall_cons in Hds as [Hd' Hds]. destruct (digit_char_range d' Hd') as [Hdig Hch].
    cbn [fmap list_fmap app hd]. rewrite s8_ascii by (rewrite Hch; lia). rewrite Hdig, Hch.
    rewrite (IH fuel (i + 1)%nat); [by rewrite <- Nat.add_assoc| |done..|lia].
    eapply rest_at_cons. exact Hr.
Qed.

(** *** Flags *)

(** Evaluates the tests on closed characters. *)
Ltac eval_tests :=
  repeat match goal with
  | |- context [Z.eqb ?a ?b] =>
      let v := eval vm_compute in (Z.eqb a b) in
      match v with true => idtac | false => idtac end; change (Z.eqb a b) with v
  | |- context [is_digit ?a] =>
      let v := eval vm_compute in (is_digit a) in
      match v with true => idtac | false => idtac end; change (is_digit a) with v
  end; cbn [orb andb negb].

Section reswitch.
Context (pf : list Z -> list arg -> M S unit) (fmt : list Z) (ap : list arg).
Abbreviation again fuel i e := (reswitch mem putch pf fuel fmt i e ap).

Lemma reswitch_pad fuel i e c l (s : S) : rest_at fmt i (c :: l) -> c = 45 \/ c = 48 ->
  again (Datatypes.S fuel) i e s =
  again fuel (i + 1)%nat (mk_escape c (width e) (precision e) (lflag e) (altflag e)) s.
Proof.
  intros Hr Hc. cbn [reswitch]. step (fmt_at_hd _ _ _ s Hr). cbn [hd].
  destruct Hc as [-> | ->]; by eval_tests.
Qed.

Lemma reswitch_dot fuel i e l (s : S) : rest_at fmt i (46 :: l) ->
  again (Datatypes.S fuel) i e s = again fuel (i + 1)%nat
    (mk_escape (padc e) (if width e <? 0 then 0 else width e) (precision e) (lflag e) (altflag e)) s.
Proof.
  intros Hr. cbn [reswitch]. step (fmt_at_hd _ _ _ s Hr). cbn [hd]. by eval_tests.
Qed.

Lemma reswitch_alt fuel i e l (s : S) : rest_at fmt i (35 :: l) ->
  again (Datatypes.S fuel) i e s = again fuel (i + 1)%nat
    (mk_escape (padc e) (width e) (precision e) (lflag e) true) s.
Proof.
  intros Hr. cbn [reswitch]. step (fmt_at_hd _ _ _ s Hr). cbn [hd]. by eval_tests.
Qed.

Lemma reswitch_long n fuel i e l (s : S) : rest_at fmt i (replicate n 108 ++ l) ->
  again (n + fuel)%nat i e s = again fuel (i + n)%nat
    (mk_escape (padc e) (width e) (precision e) (lflag e + Z.of_nat n) (altflag e)) s.
Proof.
  revert i e. induction n as [|n IH]; intros i e Hr.
  - cbn. rewrite Nat.add_0_r, Z.add_0_r. by destruct e.
  - cbn [Nat.add reswitch]. step (fmt_at_hd _ _ _ s Hr). cbn [replicate app hd]. eval_tests.
    rewrite IH by (eapply rest_at_cons, Hr). cbn. f_equal; [lia|]. f_equal. lia.
Qed.

Lemma reswitch_number fuel i e w l (s : S) : rest_at fmt i (numeral_chars w ++ l) ->
  0 < w < 2 ^ 31 -> is_digit (s8 (hd 0 l)) = false -> (length (numeral_chars w) <= fuel)%nat ->
  again (Datatypes.S fuel) i e s =
  again fuel (i + length (numeral_chars w))%nat (process_precision e w) s.
Proof.
  unfold numeral_chars. intros Hr Hw Hl Hf.
  assert (Hlt : w < 10 ^ Z.of_nat 64) by (change (10 ^ Z.of_nat 64) with (10 ^ 64); lia).
  destruct (digits_head 64 10 w) as (d & ds & E & Hd); [lia..|].
  destruct (digits_bound 64 10 w) as [Hb Hv]; [lia..|]. rewrite E in *.
  apply Forall_cons in Hb as [_ Hb].
  cbn [fmap list_fmap app length reswitch] in *. rewrite length_fmap in *.
  step (fmt_at_hd _ _ _ s Hr). cbn [hd].
  destruct (digit_char_range d ltac:(lia)) as [Hdig Hch]. rewrite Hdig, Hch.
  replace (48 + d =? 45) with false by (symmetry; apply Z.eqb_neq; lia).
  replace (48 + d =? 48) with false by (symmetry; apply Z.eqb_neq; lia).
  cbn [orb]. change 0 with (s32 0) at 1.
  step (parse_precision_ok fmt ds l fuel (i + 1) d 0 s (rest_at_cons _ _ _ _ Hr) Hb ltac:(lia) Hl
    ltac:(lia)).
  unfold digits_value in Hv. rewrite Hv, wraps_small by bound_lia.
  by replace (i + 1 + length ds)%nat with (i + Datatypes.S (length ds))%nat by lia.
Qed.

(** The letters that end an escape sequence. *)
Definition is_letter (c : Z) : bool :=
  negb ((c =? 45) || (c =? 48) || is_digit c || (c =? 42) || (c =? 46) || (c =? 35) || (c =? 108)).

Lemma reswitch_letter fuel i e c l (s : S) : rest_at fmt i (c :: l) -> is_letter c = true ->
  again (Datatypes.S fuel) i e s = conversion mem putch pf fuel fmt c (i + 1) e ap s.
Proof.
  intros Hr Hc. cbn [reswitch]. step (fmt_at_hd _ _ _ s Hr). cbn [hd]. unfold is_letter in Hc.
  rewrite negb_true_iff, !orb_false_iff in Hc.
  by destruct Hc as [[[[[[-> ->] ->] ->] ->] ->] ->].
Qed.
End reswitch.

Definition flags_steps (f : flags) : nat :=
  match f_pad f with Some _ => 1 | None => 0 end +
  (match f_width f with Some _ => 1 | None => 0 end +
  (match f_precision f with Some _ => 2 | None => 0 end +
  ((if f_alt f then 1 else 0) + f_long f))).

Lemma long_not_digit alt n c l : is_digit (s8 c) = false ->
  is_digit (s8 (hd 0 ((if (alt : bool) then [35] else []) ++ replicate n 108 ++ c :: l))) = false.
Proof. intros Hc. by destruct alt, n. Qed.

(** The flags read leave the code at the conversion letter. *)
Lemma reswitch_flags pf fmt ap fuel f c l i (s : S) : flags_wf f ->
  rest_at fmt i (encode_flags f ++ c :: l) -> is_letter c = true -> is_digit (s8 c) = false ->
  (length (encode_flags f) <= fuel)%nat ->
  reswitch mem putch pf (flags_steps f + Datatypes.S fuel) fmt i no_escape ap s =
    conversion mem putch pf fuel fmt c (i + length (encode_flags f) + 1) (flags_escape f) ap s.
Proof.
  intros (Hpad & Hwid & Hprec) Hr Hc Hc8 Hf.
  destruct f as [pad wid prec alt long]. unfold encode_flags, flags_steps, flags_escape, flags_width,
    flags_padc in *. cbn [f_pad f_width f_precision f_alt f_long] in *.
  rewrite <- !(assoc_L (++)) in Hr. rewrite !length_app in *. rewrite length_replicate in *.
  (* the padding *)
  set (e1 := mk_escape (default 32 pad) (-1) (-1) 0 false).
  transitivity (reswitch mem putch pf
    (match wid with Some _ => 1 | None => 0 end + (match prec with Some _ => 2 | None => 0 end +
      ((if alt then 1 else 0) + long)) + Datatypes.S fuel) fmt
    (i + length (match pad with Some c => [c] | None => [] end)) e1 ap s).
  { destruct pad as [pc|]; cbn [app length Nat.add] in *; [|by rewrite Nat.add_0_r].
    erewrite reswitch_pad by (first [exact Hr | naive_solver]). done. }
  apply rest_at_app in Hr. set (i1 := (i + _)%nat) in *.
  (* the width *)
  set (e2 := mk_escape (default 32 pad) (default (-1) wid) (-1) 0 false).
  transitivity (reswitch mem putch pf
    (match prec with Some _ => 2 | None => 0 end +
      ((if alt then 1 else 0) + long) + Datatypes.S fuel) fmt
    (i1 + length (match wid with Some w => numeral_chars w | None => [] end)) e2 ap s).
  { destruct wid as [w|]; cbn [app length Nat.add] in *; [|by rewrite Nat.add_0_r].
    erewrite (reswitch_number _ _ _ _ _ _ w); [done|exact Hr|by apply Hwid| |lia].
    destruct prec; [done|]. by apply long_not_digit. }
  apply rest_at_app in Hr. set (i2 := (i1 + _)%nat) in *.
  (* the precision *)
  set (e3 := mk_escape (default 32 pad) (match wid, prec with
    Some w, _ => w | None, Some _ => 0 | None, None => -1 end) (default (-1) prec) 0 false).
  transitivity (reswitch mem putch pf ((if alt then 1 else 0) + long + Datatypes.S fuel) fmt
    (i2 + length (match prec with Some p => 46 :: numeral_chars p | None => [] end)) e3 ap s).
  { destruct prec as [p|]; cbn [app length Nat.add] in *;
      [|rewrite Nat.add_0_r; by destruct wid].
    erewrite reswitch_dot by exact Hr. cbn [app] in Hr. apply rest_at_cons in Hr.
    erewrite (reswitch_number _ _ _ _ _ _ p); [|exact Hr|by apply Hprec|by apply long_not_digit|lia].
    f_equal; [lia|]. unfold process_precision. cbn.
    destruct wid as [w|]; [|done]. cbn. specialize (Hwid w eq_refl).
    by destruct (Z.ltb_spec w 0), (Z.ltb_spec w 0); try lia. }
  apply rest_at_app in Hr. set (i3 := (i2 + _)%nat) in *.
  (* the alternative form and the length *)
  set (e4 := mk_escape (padc e3) (width e3) (precision e3) 0 alt).
  transitivity (reswitch mem putch pf (long + Datatypes.S fuel) fmt
    (i3 + length (if alt then [35] else [])) e4 ap s).
  { destruct alt; cbn [app length Nat.add] in *; [|by rewrite Nat.add_0_r].
    by erewrite reswitch_alt by exact Hr. }
  apply rest_at_app in Hr. set (i4 := (i3 + _)%nat) in *.
  erewrite reswitch_long by exact Hr.
  pose proof (rest_at_app _ _ _ _ Hr) as Hr'. rewrite length_replicate in Hr'.
  erewrite reswitch_letter by (first [exact Hr' | done]). f_equal. lia.
Qed.

(** *** Arguments *)

Lemma wraps_wrapu w z : wraps w (wrapu w z) = wraps w z.
Proof. unfold wraps, wrapu. by rewrite Zplus_mod_idemp_l. Qed.

Lemma u64_words z : u32 z + u32 (z / 2 ^ 32) * 2 ^ 32 = u64 z.
Proof.
  unfold wrapu. change (2 ^ 64) with (2 ^ 32 * 2 ^ 32). rewrite Z.rem_mul_r by lia. lia.
Qed.

Lemma int_args_read long z ap (s : S) :
  (if (2 <=? Z.of_nat long) then va_llong (int_args long z ++ ap)
   else va_int (int_args long z ++ ap)) s =
  Ok ((if (2 <=? long)%nat then u64 z else u32 z, ap), s).
Proof.
  unfold int_args. destruct (Z.leb_spec 2 (Z.of_nat long)), (Nat.leb_spec 2 long); try lia; [|done].
  unfold va_llong. cbn. unfold ret. by rewrite u64_words.
Qed.

Lemma getuint_ok long z ap (s : S) : int_range false long z ->
  getuint (int_args long z ++ ap) (Z.of_nat long) s = Ok ((z, ap), s).
Proof.
  intros Hz. pose proof (int_args_read long z ap s) as H. unfold getuint.
  unfold int_range in Hz. destruct (Nat.leb_spec 2 long).
  - rewrite wrapu_small in H by done. destruct (2 <=? Z.of_nat long) eqn:?; [done|lia].
  - rewrite wrapu_small in H by done. destruct (2 <=? Z.of_nat long) eqn:?; [lia|].
    by destruct (negb _).
Qed.

Lemma getint_ok long z ap (s : S) : int_range true long z ->
  getint (int_args long z ++ ap) (Z.of_nat long) s = Ok ((z, ap), s).
Proof.
  intros Hz. pose proof (int_args_read long z ap s) as H. unfold getint.
  unfold int_range in Hz. destruct (Nat.leb_spec 2 long);
    (destruct (2 <=? Z.of_nat long) eqn:?; [|try lia]); try lia.
  - step H. unfold ret. by rewrite wraps_wrapu, wraps_small by (done || lia).
  - assert (Hw : s32 (u32 z) = z) by (rewrite wraps_wrapu; by apply wraps_small).
    destruct (negb _); step H; unfold ret; by rewrite Hw.
Qed.

(** *** Strings *)

Definition to_text (p : Z + list Z) (l : list Z) : text :=
  match p with inl a => if a =? 0 then Lit l else Ptr a | inr _ => Lit l end.

Lemma va_text_ok p l ap (s : S) : text_holds p l ->
  va_text (match p with inl a => [Word a] | inr l => [Literal l] end ++ ap) s =
    Ok ((to_text p l, ap), s).
Proof.
  intros [_ Hp]. destruct p as [a|l']; cbn; [|by subst].
  destruct (a =? 0); [by subst|done].
Qed.

Lemma text_char_ok p l i (s : S) : Inv s -> text_holds p l -> (i <= length l)%nat ->
  text_char mem (to_text p l) i s = Ok (s8 (hd 0 (drop i l)), s).
Proof.
  intros Hs [_ Hp] Hi. assert (Hlit : text_char mem (Lit l) i s = Ok (s8 (hd 0 (drop i l)), s)).
  { cbn. unfold get_or. assert ((l ++ [0]) !! i = Some (hd 0 (drop i l))) as ->; [|done].
    rewrite <- (Nat.add_0_r i) at 1. rewrite <- lookup_drop, drop_app_le by done. by destruct (drop i l). }
  destruct p as [a|l']; cbn [to_text]; [|done]. destruct (a =? 0); [done|]. cbn [text_char].
  unfold reading. specialize (Hp s Hs). rewrite <- (take_drop i l) in Hp. apply cstr_app in Hp.
  rewrite length_take_le in Hp by done. by rewrite (cstr_hd _ _ _ Hp).
Qed.

Lemma text_nlen_ok p l fuel size (s : S) : Inv s -> text_holds p l -> (length l < fuel)%nat ->
  0 <= size -> text_nlen mem fuel (to_text p l) size s = Ok (Z.min size (zlength l), s).
Proof.
  intros Hs [[_ Hl] Hp] Hf Hsz. destruct p as [a|l']; cbn [to_text]; [|done].
  destruct (a =? 0); [done|]. cbn [text_nlen]. unfold reading, strnlen.
  by rewrite (strnlen_ok _ a l) by (done || lia || apply Hp, Hs).
Qed.

Lemma emit_cons_then {A} c cs (k k' : M S A) s : Inv s ->
  (forall s', Inv s' -> k s' = (do* emit putch cs; k') s') ->
  (do* putch c; k) s = (do* emit putch (c :: cs); k') s.
Proof.
  intros Hs Hk. cbn [emit]. rewrite bind_assoc. apply bind_ext_ok. intros [] s' E. eauto.
Qed.

Lemma print_chars_ok p l alt fuel i wid prec s : Inv s -> text_holds p l -> (i <= length l)%nat ->
  (length l - i < fuel)%nat ->
  let l' := if prec <? 0 then drop i l else take (Z.to_nat prec) (drop i l) in
  print_chars mem putch fuel (to_text p l) i alt wid prec s =
    (do* emit putch (shown alt <$> l'); ret (wid - zlength l')) s.
Proof.
  intros Hs Hp. revert i wid prec s Hs. induction fuel as [|fuel IH]; intros i wid prec s Hs Hi Hf; [lia|].
  cbn [print_chars]. step (text_char_ok p l i s Hs Hp Hi).
  destruct (drop i l) as [|b bs] eqn:E.
  - cbn [hd]. change (s8 0 =? 0) with true. cbn [negb andb]. rewrite take_nil.
    destruct (prec <? 0); cbn; by rewrite Z.sub_0_r.
  - assert (Hb : 0 < b < 256).
    { destruct Hp as [[Hp _] _]. rewrite <- (take_drop i l), E in Hp.
      by apply Forall_app in Hp as [_ [Hb _]%Forall_cons]. }
    assert (Hi' : (i + 1 <= length l)%nat).
    { pose proof (f_equal length E) as HE. rewrite length_drop in HE. cbn in HE. lia. }
    assert (HE : drop (i + 1) l = bs) by (rewrite <- drop_drop, E; done).
    cbn [hd]. rewrite s8_zero by lia. destruct (Z.eqb_spec b 0); [lia|]. cbn [negb andb].
    destruct (Z.ltb_spec prec 0).
    + cbn [orb fmap list_fmap]. apply emit_cons_then; [done|]. intros s1 Hs1.
      rewrite IH by (done || lia). rewrite HE. destruct (Z.ltb_spec prec 0); [|lia].
      apply bind_ext. intros _ s2. unfold ret. do 2 f_equal. cbn [length]. lia.
    + cbn [orb]. destruct (Z.leb_spec 0 (prec - 1)).
      * replace (Z.to_nat prec) with (Datatypes.S (Z.to_nat (prec - 1))) by lia.
        cbn [take fmap list_fmap]. apply emit_cons_then; [done|]. intros s1 Hs1.
        rewrite IH by (done || lia). rewrite HE. destruct (Z.ltb_spec (prec - 1) 0); [lia|].
        apply bind_ext. intros _ s2. unfold ret. do 2 f_equal. cbn [length]. lia.
      * replace (Z.to_nat prec) with 0%nat by lia. cbn. by rewrite Z.sub_0_r.
Qed.

Lemma cut_length f l : flags_wf f -> is_text l ->
  Z.min (u32 (default (-1) (f_precision f))) (zlength l) = zlength (cut f l).
Proof.
  intros (_ & _ & Hp) [_ Hl]. unfold cut. destruct (f_precision f) as [p|]; cbn [default from_option id].
  - specialize (Hp p eq_refl). rewrite wrapu_small by bound_lia. rewrite length_take. lia.
  - change (u32 (-1)) with (2 ^ 32 - 1). bound_lia.
Qed.

Lemma cut_precision f l : flags_wf f ->
  (if default (-1) (f_precision f) <? 0 then drop 0 l
   else take (Z.to_nat (default (-1) (f_precision f))) (drop 0 l)) = cut f l.
Proof.
  intros (_ & _ & Hp). unfold cut. destruct (f_precision f) as [p|]; cbn [default from_option id]; [|done].
  specialize (Hp p eq_refl). destruct (Z.ltb_spec p 0); [lia|done].
Qed.

Lemma print_text_ok p l f fuel s : Inv s -> flags_wf f -> text_holds p l -> (length l < fuel)%nat ->
  print_text mem putch fuel (to_text p l) (flags_escape f) s = emit putch (text_output f l) s.
Proof.
  intros Hs Hf Hp Hl. unfold print_text, text_output. cbn [width padc precision altflag flags_escape].
  set (cs := shown (f_alt f) <$> cut f l). set (w := flags_width f).
  assert (Hcs : zlength (cut f l) = zlength cs) by (unfold cs; by rewrite length_fmap).
  assert (Hchars : forall wid s', Inv s' ->
    print_chars mem putch fuel (to_text p l) 0 (f_alt f) wid (default (-1) (f_precision f)) s' =
    (do* emit putch cs; ret (wid - zlength cs)) s').
  { intros wid s' Hs'. rewrite (print_chars_ok p l) by (done || lia). rewrite cut_precision by done.
    by rewrite Hcs. }
  assert (Hrest : forall wid n s', Inv s' -> Z.to_nat (wid - zlength cs) = n ->
    (let* w := print_chars mem putch fuel (to_text p l) 0 (f_alt f) wid
       (default (-1) (f_precision f)) in pad putch (Z.to_nat w) 32) s' =
    emit putch (cs ++ replicate n 32) s').
  { intros wid n s' Hs' Hn. rewrite (bind_eq _ _ _ _ (Hchars wid s' Hs')), bind_assoc, emit_app.
    apply bind_ext. intros _ s2. rewrite bind_ret, Hn. apply pad_emit. }
  destruct (Z.ltb_spec 0 w) as [Hw|Hw]; cbn [andb].
  - destruct (flags_padc f =? 45); cbn [negb].
    + rewrite bind_ret. by apply Hrest.
    + rewrite bind_assoc, (bind_ok _ _ _ _ _ (text_nlen_ok p l fuel _ s Hs Hp Hl
        (proj1 (wrapu_range 32 _ eq_refl)))).
      rewrite cut_length by (done || apply Hp). rewrite Hcs, bind_assoc, emit_app.
      erewrite bind_eq by apply pad_emit. apply emit_then; [done|]. intros s1 Hs1.
      rewrite bind_ret, (Hrest _ 0%nat) by (done || lia). by rewrite app_nil_r.
  - rewrite bind_ret. replace (Z.to_nat (w - zlength cs)) with 0%nat by lia.
    rewrite (Hrest w 0%nat) by (done || lia). cbn. rewrite app_nil_r. by destruct (_ =? _).
Qed.

(** *** The conversions *)

Definition letter (d : directive) : Z :=
  match d with
  | Plain c => c | Percent => 37 | Octal => 111 | Char _ => 99 | Decimal _ _ => 100
  | Unsigned _ _ => 117 | Hex _ _ => 120 | Pointer _ _ => 112 | Text _ _ _ => 115 | Error _ => 101
  end.
Definition directive_flags (d : directive) : flags :=
  match d with
  | Decimal f _ | Unsigned f _ | Hex f _ | Pointer f _ | Text f _ _ => f
  | _ => plain_flags
  end.
Definition is_escape (d : directive) : bool := match d with Plain _ => false | _ => true end.

(** The text an error code is printed as, a format of its own. *)
Definition error_directives (z : Z) : list directive :=
  match error_string (Z.abs z) with
  | Some l => [Text plain_flags (inr l) l]
  | None => (Plain <$> [101; 114; 114; 111; 114; 32]) ++ [Decimal plain_flags (Z.abs z)]
  end.

Lemma plain_flags_wf : flags_wf plain_flags.
Proof. split; [by left|]. by split. Qed.

Lemma error_string_some z l : error_string z = Some l ->
  z < MAXERROR /\ Forall (fun b => 0 < b < 256) l /\ (length l < 40)%nat.
Proof.
  unfold error_string, MAXERROR. intros H.
  repeat case_match; simplify_eq; (split; [lia|]; split; [repeat constructor; lia|cbn; lia]).
Qed.

Lemma escape_encoding d : is_escape d = true ->
  encode d = 37 :: encode_flags (directive_flags d) ++ [letter d].
Proof. by destruct d. Qed.

Lemma letter_ok d : is_escape d = true ->
  is_letter (letter d) = true /\ is_digit (s8 (letter d)) = false.
Proof. by destruct d. Qed.

Lemma decimal_run f z s : int_range true (f_long f) z ->
  (if z <? 0 then do* putch 45; printnum putch 64 (u64 (- z)) 10 (flags_width f) (flags_padc f)
   else printnum putch 64 (u64 z) 10 (flags_width f) (flags_padc f)) s =
  emit putch (decimal_output f z) s.
Proof.
  intros Hz. assert (Hz' : - 2 ^ 63 <= z < 2 ^ 63)
    by (unfold int_range in Hz; destruct (2 <=? f_long f)%nat; bound_lia).
  unfold decimal_output, number_output. destruct (Z.ltb_spec z 0).
  - cbn [app emit]. apply bind_ext. intros _ s'. rewrite wrapu_small by bound_lia.
    rewrite printnum_text by bound_lia. by rewrite Z.abs_neq by lia.
  - rewrite wrapu_small by bound_lia. rewrite printnum_text by bound_lia. by rewrite Z.abs_eq by lia.
Qed.

Lemma unsigned_range long z : int_range false long z -> 0 <= z < 2 ^ 64.
Proof. unfold int_range. destruct (2 <=? long)%nat; bound_lia. Qed.

Lemma conversion_ok pf fuel fmt i d ap s : Inv s -> directive_wf d -> is_escape d = true ->
  (need d <= fuel + 2 * length (encode d))%nat ->
  (forall z s', d = Error z -> Inv s' -> pf (mjoin (encode <$> error_directives z))
     (mjoin (args <$> error_directives z)) s' = emit putch (error_output z) s') ->
  conversion mem putch pf fuel fmt (letter d) i (flags_escape (directive_flags d)) (args d ++ ap) s =
    (do* emit putch (render d); ret (i, ap)) s.
Proof.
  intros Hs Hd He Hn Hpf. destruct d as [c| | |z|f z|f z|f z|f z|f p l|z]; try done;
    cbn [letter directive_flags args render]; unfold conversion;
    cbn [lflag width padc flags_escape app].
  - symmetry. apply bind_eq, bind_tt.
  - cbn [emit]. rewrite !bind_assoc. do 3 (apply bind_ext; intros; rewrite ?bind_assoc). done.
  - cbn in Hd. cbn [va_int]. rewrite bind_ret. cbn iota. rewrite wraps_wrapu, wraps_small by (done || lia).
    symmetry. apply bind_eq, bind_tt.
  - destruct Hd as [_ Hz]. step (getint_ok _ _ ap s Hz). apply bind_eq, decimal_run, Hz.
  - destruct Hd as [_ Hz]. step (getuint_ok _ _ ap s Hz). apply unsigned_range in Hz.
    apply bind_eq, printnum_text; lia.
  - destruct Hd as [_ Hz]. step (getuint_ok _ _ ap s Hz). apply unsigned_range in Hz.
    apply bind_eq, printnum_text; lia.
  - destruct Hd as [_ Hz]. cbn [emit]. rewrite !bind_assoc. apply bind_ext. intros _ s1.
    rewrite !bind_assoc. apply bind_ext. intros _ s2. cbn [va_int]. rewrite bind_ret. cbn iota.
    rewrite wrapu_small by done. apply bind_eq, printnum_text; bound_lia.
  - destruct Hd as [Hf Hp]. step (va_text_ok p l ap s Hp). apply bind_eq.
    apply print_text_ok; [done..|]. unfold need in Hn. lia.
  - destruct Hd as [Hz1 Hz2]. cbn [va_int]. rewrite bind_ret. cbn iota.
    rewrite wraps_wrapu, (wraps_small 32 z) by (done || lia).
    assert (Habs : (if z <? 0 then s32 (- z) else z) = Z.abs z).
    { destruct (Z.ltb_spec z 0); [rewrite wraps_small by bound_lia|]; lia. }
    rewrite Habs. destruct (Z.leb_spec 0 (Z.abs z)); [|lia]. cbn [ensure]. rewrite bind_ret.
    apply bind_eq. rewrite <- (Hpf z s eq_refl Hs). unfold error_args, error_directives.
    assert ((if MAXERROR <=? Z.abs z then None else error_string (Z.abs z)) = error_string (Z.abs z))
      as ->.
    { destruct (error_string (Z.abs z)) eqn:E; [|by destruct (_ <=? _)].
      apply error_string_some in E as [E _]. by destruct (Z.leb_spec MAXERROR (Z.abs z)); [unfold MAXERROR in *; lia|]. }
    by destruct (error_string (Z.abs z)).
Qed.

(** *** The loop *)

Lemma error_directives_wf z : is_s 32 z /\ z <> - 2 ^ 31 ->
  Forall directive_wf (error_directives z) /\
  mjoin (render <$> error_directives z) = error_output z /\
  (total_need (error_directives z) < 100)%nat.
Proof.
  intros Hz. unfold error_directives, error_output. destruct (error_string (Z.abs z)) as [l|] eqn:E.
  - apply error_string_some in E as (_ & Hl & Hlen). split; [|split].
    + apply Forall_singleton. split; [apply plain_flags_wf|]. split; [split; [done|lia]|done].
    + cbn. by rewrite app_nil_r.
    + unfold total_need, need. cbn. lia.
  - split; [|split].
    + apply Forall_app. split; [repeat (apply Forall_cons; split; [cbn; lia|]); constructor|].
      apply Forall_singleton. split; [apply plain_flags_wf|]. unfold int_range. cbn. bound_lia.
    + cbn. by rewrite app_nil_r.
    + unfold total_need, need. cbn. lia.
Qed.

Lemma flags_steps_le f : flags_wf f -> (flags_steps f <= length (encode_flags f))%nat.
Proof.
  intros (_ & Hw & Hp).
  assert (Hn : forall n, 0 < n < 2 ^ 31 -> (0 < length (numeral_chars n))%nat).
  { intros n Hn. destruct (digits_head 64 10 n) as (d & ds & E & _);
      [lia..|change (10 ^ Z.of_nat 64) with (10 ^ 64); lia|].
    unfold numeral_chars. rewrite E. cbn. lia. }
  unfold flags_steps, encode_flags. rewrite !length_app, length_replicate.
  destruct (f_pad f), (f_width f) as [w|], (f_precision f) as [p|], (f_alt f); cbn [length];
    try pose proof (Hn w (Hw w eq_refl)); try pose proof (Hn p (Hp p eq_refl)); lia.
Qed.

Lemma vprintfmt_loop_ok fuel ds fmt i ap s : Inv s -> Forall directive_wf ds ->
  rest_at fmt i (mjoin (encode <$> ds)) -> (total_need ds < fuel)%nat ->
  vprintfmt_loop mem putch fuel fmt i (mjoin (args <$> ds) ++ ap) s =
    emit putch (mjoin (render <$> ds)) s.
Proof.
  revert ds fmt i ap s. induction fuel as [|fuel IH]; intros ds fmt i ap s Hs Hds Hr Hf; [lia|].
  cbn [vprintfmt_loop]. step (fmt_at_hd _ _ _ s Hr).
  destruct ds as [|d ds]; [done|]. apply Forall_cons in Hds as [Hd Hds].
  cbn [fmap list_fmap mjoin list_join] in *. unfold total_need in *. cbn [sum_list_with] in Hf.
  destruct (is_escape d) eqn:Hesc.
  - rewrite (escape_encoding d Hesc) in *. cbn [app hd] in *. change (37 =? 37) with true. cbn [negb].
    apply rest_at_cons in Hr. rewrite <- !(assoc_L (++)) in *. cbn [app] in *.
    destruct (letter_ok d Hesc) as [Hl1 Hl2].
    assert (Hfl : flags_wf (directive_flags d))
      by (destruct d; try apply plain_flags_wf; apply Hd).
    pose proof (flags_steps_le _ Hfl) as Hst. unfold need in Hf at 1.
    rewrite (escape_encoding d Hesc) in Hf. cbn [length] in Hf. rewrite length_app in Hf. cbn in Hf.
    assert (exists k, fuel = (flags_steps (directive_flags d) + Datatypes.S k)%nat /\
      (need d <= k + 2 * length (encode d))%nat /\ (length (encode_flags (directive_flags d)) <= k)%nat)
      as (k & Hk & Hk1 & Hk2).
    { clear -Hf Hst Hesc. exists (fuel - flags_steps (directive_flags d) - 1)%nat. unfold need.
      rewrite (escape_encoding d Hesc). cbn [length]. rewrite length_app. cbn. lia. }
    pose proof (reswitch_flags (fun fmt ap => vprintfmt_loop mem putch fuel fmt 0 ap) fmt
      (args d ++ mjoin (args <$> ds) ++ ap) k _ _ _ _ s Hfl Hr Hl1 Hl2 Hk2) as Hsw.
    rewrite <- Hk in Hsw. rewrite (bind_eq _ _ _ _ Hsw). clear Hsw.
    assert (Hpf : forall z s', d = Error z -> Inv s' ->
      vprintfmt_loop mem putch fuel (mjoin (encode <$> error_directives z)) 0
        (mjoin (args <$> error_directives z)) s' = emit putch (error_output z) s').
    { intros z s' -> Hs'. destruct (error_directives_wf z Hd) as (H1 & H2 & H3). rewrite <- H2.
      rewrite <- (app_nil_r (mjoin (args <$> _))). unfold total_need in H3.
      unfold need in Hk1. cbn in Hk1.
      apply IH; [done..|apply rest_at_0|lia]. }
    rewrite (bind_eq _ _ _ _ (conversion_ok
      (fun fmt ap => vprintfmt_loop mem putch fuel fmt 0 ap) _ _ _ d _ s Hs Hd Hesc Hk1 Hpf)).
    rewrite bind_assoc, emit_app. apply emit_then; [done|]. intros s1 Hs1. rewrite bind_ret.
    apply IH; [done..| |lia]. apply rest_at_app in Hr. by apply rest_at_cons in Hr.
  - destruct d as [c| | | | | | | | |]; try done. cbn in Hd. destruct Hd as [Hc1 Hc2].
    cbn [encode app hd] in *. apply Z.eqb_neq in Hc2 as ->. cbn [negb].
    destruct (Z.eqb_spec c 0); [lia|]. cbn [render app emit args]. apply bind_ext_ok.
    intros [] s1 E. apply IH; [eauto|done|by eapply rest_at_cons|cbn in Hf; lia].
Qed.

End rendering.

(** The format, the arguments and the rendering of a list of directives. *)
Definition format (ds : list directive) : list Z := mjoin (encode <$> ds).
Definition arguments (ds : list directive) : list arg := mjoin (args <$> ds).
Definition output (ds : list directive) : list Z := mjoin (render <$> ds).

Lemma vprintfmt_ok {S} (mem : S -> memory) putch Inv fuel ds s :
  (forall c s s', Inv s -> putch c s = Ok (tt, s') -> Inv s') -> Inv s ->
  Forall (directive_wf mem Inv) ds -> (total_need ds < fuel)%nat ->
  vprintfmt mem putch fuel (format ds) (arguments ds) s = emit putch (output ds) s.
Proof.
  intros Hinv Hs Hds Hf. unfold vprintfmt, arguments. rewrite <- (app_nil_r (mjoin (args <$> ds))).
  apply (vprintfmt_loop_ok mem putch Inv Hinv); [done..|apply rest_at_0|done].
Qed.

(** C15: on any format built of directives -- plain characters, [%c], [%d], [%u],
    [%x], [%p], [%s], [%e], [%o], [%%] with pad, width, precision, [#] and [l]
    flags -- and the matching arguments, [vprintfmt] terminates and does exactly
    what putting the characters of its rendering one by one does, the failures
    of [putch] included.
    The rendering is not everywhere what the comments of [printfmt.c] and [init.c]
    promise: that of [%o] is the three characters [XXX], since octal is not written;
    a negative number has its sign before the padding and outside the width; and the
    flag [-] pads a number on its left, with the character [-]. *)
Theorem vprintfmt_renders {S} (mem : S -> memory) putch Inv fuel ds s
    (Hinv : forall c s s', Inv s -> putch c s = Ok (tt, s') -> Inv s') (Hs : Inv s)
    (Hds : Forall (directive_wf mem Inv) ds) (Hfuel : (total_need ds < fuel)%nat) :
  vprintfmt mem putch fuel (format ds) (arguments ds) s = emit putch (output ds) s.
Proof. intros. by apply (vprintfmt_ok mem putch Inv). Qed.

(** ** [vsnprintf] *)

(** The memories that agree outside [n] bytes at [a]. *)
Definition agree_outside (m m' : memory) (a n : Z) : Prop :=
  forall i, ~ a <= i < a + n -> m' !! i = m !! i.

(** What holds of the [sprintbuf] of a buffer of [n] bytes. *)
Definition sprint_inv (m : memory) (buf n : Z) (b : sprintbuf) : Prop :=
  agree_outside m (sb_mem b) buf n /\ buf <= sb_buf b /\ sb_ebuf b = buf + n - 1.

Lemma sprintputch_inv m buf n c b b' :
  sprint_inv m buf n b -> sprintputch c b = Ok (tt, b') -> sprint_inv m buf n b'.
Proof.
  intros (Ha & Hb & He). unfold sprintputch, store.
  destruct (Z.ltb_spec (sb_buf b) (sb_ebuf b)); [|intros [= <-]; by repeat split].
  destruct (sb_mem b !! sb_buf b); [|done]. intros [= <-]. cbn.
  split; [|split; [cbn; lia|done]]. intros i Hi. cbn. rewrite lookup_insert_ne by lia. by apply Ha.
Qed.

Lemma s32_succ v n : s32 (s32 (v + 1) + n) = s32 (v + (1 + n)).
Proof.
  pose proof (s32_step (v + 1) 1 n) as H. rewrite !Z.mul_1_r in H. rewrite H. f_equal. lia.
Qed.

Lemma emit_sprint cs m buf ebuf cnt : buf <= ebuf -> mapped m buf (ebuf - buf) ->
  let out := take (Z.to_nat (ebuf - buf)) (u8 <$> cs) in
  emit sprintputch cs (mk_sprintbuf m buf ebuf (s32 cnt)) =
    Ok (tt, mk_sprintbuf (write m buf out) (buf + zlength out) ebuf (s32 (cnt + zlength cs))).
Proof.
  revert m buf cnt. induction cs as [|c cs IH]; intros m buf cnt Hle Hm out; unfold out.
  - cbn [fmap list_fmap emit length]. rewrite take_nil. cbn. by rewrite !Z.add_0_r.
  - cbn [emit fmap list_fmap length]. unfold bind, sprintputch. cbn [sb_buf sb_ebuf sb_mem sb_cnt].
    pose proof (s32_step cnt 1 1) as H1. rewrite !Z.mul_1_r in H1. rewrite H1.
    destruct (Z.ltb_spec buf ebuf).
    + rewrite store_run by (apply (mapped_at _ _ _ Hm); lia).
      rewrite IH; [|lia|eapply mapped_sub; [by apply mapped_insert|lia..]].
      replace (Z.to_nat (ebuf - buf)) with (S (Z.to_nat (ebuf - (buf + 1)))) by lia.
      cbn [take write length]. do 3 f_equal; [lia|f_equal; lia].
    + rewrite IH by done. replace (Z.to_nat (ebuf - buf)) with 0%nat by lia. cbn [take length write].
      do 3 f_equal. f_equal. lia.
Qed.

Lemma vsnprintf_ok fuel m buf n ds : buf <> 0 -> 1 <= n -> mapped m buf n ->
  Forall (directive_wf sb_mem (sprint_inv m buf n)) ds -> (total_need ds < fuel)%nat ->
  zlength (output ds) < 2 ^ 31 ->
  vsnprintf fuel buf n (format ds) (arguments ds) m =
    Ok (zlength (output ds),
        write m buf (take (Z.to_nat (n - 1)) (u8 <$> output ds) ++ [0])).
Proof.
  intros Hb Hn Hm Hds Hf Hlen. unfold vsnprintf.
  destruct (Z.eqb_spec buf 0), (Z.ltb_spec n 1); try lia. cbn [orb].
  rewrite (vprintfmt_ok _ _ (sprint_inv m buf n)); [|apply sprintputch_inv| |done..].
  2: { split; [by intros i _|]. cbn. lia. }
  change 0 with (s32 0) at 1.
  rewrite emit_sprint by (lia || (eapply mapped_sub; [done|lia..])). cbn [sb_mem sb_buf sb_cnt].
  replace (buf + n - 1 - buf) with (n - 1) by lia. set (out := take _ _).
  assert (zlength out <= n - 1) by (unfold out; rewrite length_take; lia).
  erewrite bind_ok by (apply store_run; rewrite write_lookup; ranges; apply Hm; lia).
  rewrite write_app. unfold ret. cbn [write]. rewrite Z.add_0_l, wraps_small by bound_lia. done.
Qed.

(** C36: [vsnprintf] never writes outside its [n] bytes: it leaves the first
    [n - 1] characters of the rendering followed by a NUL in the buffer, every
    other byte of memory as it was, and returns the length of the whole
    rendering, as the C library's does; without a buffer it returns
    [-E_INVAL] and does nothing. *)
Theorem vsnprintf_fills fuel m buf n ds
    (Hmapped : 1 <= n -> mapped m buf n)
    (Hds : Forall (directive_wf sb_mem (sprint_inv m buf n)) ds)
    (Hfuel : (total_need ds < fuel)%nat) (Hlen : zlength (output ds) < 2 ^ 31) :
  vsnprintf fuel buf n (format ds) (arguments ds) m =
    if (buf =? 0) || (n <? 1) then Ok (- E_INVAL, m)
    else Ok (zlength (output ds), write m buf (take (Z.to_nat (n - 1)) (u8 <$> output ds) ++ [0])).
Proof.
  destruct (Z.eqb_spec buf 0) as [->|], (Z.ltb_spec n 1).
  1-3: unfold vsnprintf; cbn [orb]; rewrite ?orb_true_r; try done.
  - destruct (Z.ltb_spec n 1); [|lia]. by rewrite orb_true_r.
  - cbn [orb]. apply vsnprintf_ok; try done. auto.
Qed.

(** ** Printing and reading back *)

Lemma digit_char_ascii d : 0 <= d < 36 -> 0 < digit_char d < 128.
Proof. unfold digit_char. destruct (Z.ltb_spec d 10); lia. Qed.

Lemma u8_text l : Forall (fun b => 0 < b < 256) l -> u8 <$> l = l.
Proof. induction 1; cbn; [done|]. f_equal; [apply u8_byte; lia|done]. Qed.

Lemma cstr_of_write m a l : Forall (fun b => 0 < b < 256) l -> cstr (write m a (l ++ [0])) a l.
Proof.
  intros Hl. revert m a. induction Hl as [|b l Hb Hl IH]; intros m a; cbn [cstr app write].
  - by rewrite lookup_insert_eq.
  - split; [|split; [done|apply IH]]. rewrite write_lookup. ranges. by rewrite lookup_insert_eq.
Qed.

Lemma decimal_plain z : is_s 32 z ->
  decimal_output plain_flags z =
    (if z <? 0 then [45] else []) ++ (digit_char <$> digits 64 10 (Z.abs z)) /\
  Forall (fun d => 0 <= d < 10) (digits 64 10 (Z.abs z)) /\
  digits_value 10 (digits 64 10 (Z.abs z)) = Z.abs z.
Proof.
  intros Hz. assert (Habs : 0 <= Z.abs z < 10 ^ Z.of_nat 64).
  { change (10 ^ Z.of_nat 64) with (10 ^ 64). bound_lia. }
  split; [|apply digits_bound; lia]. unfold decimal_output, number_output, numeral_text. cbn zeta.
  change (flags_width plain_flags) with (-1).
  by replace (Z.to_nat (-1 - _)) with 0%nat by lia.
Qed.

Lemma decimal_length z : is_s 32 z -> zlength (decimal_output plain_flags z) <= 11.
Proof.
  intros Hz. destruct (decimal_plain z Hz) as (-> & _ & _).
  rewrite length_app, length_fmap.
  pose proof (digits_length 64 10 (Z.abs z) 9 ltac:(lia)
    ltac:(change (10 ^ Z.of_nat 10) with 10000000000; bound_lia)).
  destruct (z <? 0); cbn [length]; lia.
Qed.

Lemma numeral_decimal z : is_s 32 z ->
  numeral 10 [] (if z <? 0 then [45] else []) [] (digits 64 10 (Z.abs z)) [] (z <? 0) 10.
Proof.
  intros Hz. destruct (decimal_plain z Hz) as (_ & Hd & _).
  pose proof (digits_not_nil 10 (Z.abs z)). destruct (digits 64 10 (Z.abs z)) as [|d ds]; [done|].
  apply Forall_cons in Hd as Hd'. destruct Hd' as [Hd0 _].
  assert (Hc : s8 (digit_char d) = 48 + d).
  { unfold digit_char. destruct (Z.ltb_spec d 10); [|lia]. apply s8_ascii. lia. }
  split; cbn [app fmap list_fmap]; try done.
  - unfold is_blank. destruct (z <? 0); cbn [app hd]; intros H2; [by destruct H2|].
    rewrite Hc in H2. lia.
  - destruct (z <? 0); constructor; cbn [hd]; rewrite Hc; lia.
  - apply prefix_given; [lia|by left].
Qed.

(** printing an [int] with [%d] into a buffer of 12 bytes and reading the
    buffer with [strtol] in base 10 gives the number back and stops at the end
    of the text. *)
Theorem decimal_roundtrip m buf z (Hbuf : buf <> 0) (Hm : mapped m buf 12) (Hz : is_s 32 z) :
  exists m', snprintf 400 buf 12 [37; 100] [Word (u32 z)] m =
    Ok (zlength (decimal_output plain_flags z), m') /\
    strtol 20 buf 10 m' = Ok ((z, buf + zlength (decimal_output plain_flags z)), m').
Proof.
  pose proof (vsnprintf_ok 400 m buf 12 [Decimal plain_flags z] Hbuf ltac:(lia) Hm) as H.
  unfold format, arguments, output in H. cbn in H. rewrite app_nil_r in H.
  eexists; split; [apply H|].
  - apply Forall_singleton. split; [apply plain_flags_wf|]. unfold int_range. cbn. bound_lia.
  - unfold total_need, need. cbn. lia.
  - pose proof (decimal_length z Hz). bound_lia.
  - pose proof (decimal_length z Hz) as Hlen. destruct (decimal_plain z Hz) as (E & Hd & Hv).
    assert (Htext : Forall (fun b => 0 < b < 256) (decimal_output plain_flags z)).
    { rewrite E. apply Forall_app. split; [destruct (z <? 0); repeat constructor; lia|].
      apply Forall_fmap. eapply Forall_impl; [exact Hd|]. intros d Hd'. cbn in *.
      pose proof (digit_char_ascii d). lia. }
    rewrite u8_text by done. rewrite take_ge by (change (Z.to_nat (12 - 1)) with 11%nat; lia).
    pose proof (cstr_of_write m buf _ Htext) as Hc. set (m' := write m buf (decimal_output plain_flags z ++ [0])) in *.
    clear H. clearbody m'. pose proof (numeral_decimal z Hz) as Hnum.
    set (ds := digits 64 10 (Z.abs z)) in *. clearbody ds. rewrite E in Hc, Hlen |- *. clear E.
    pose proof (strtol_ok m' buf 20 10 [] (if z <? 0 then [45] else []) []
      ds [] (z <? 0) 10 ltac:(cbn [app]; rewrite app_nil_r; exact Hc)
      ltac:(cbn [app]; rewrite app_nil_r; lia) Hnum) as Hs.
    rewrite Hs, Hv. cbn [app]. rewrite !length_app, length_fmap.
    assert (Hval : (if z <? 0 then - Z.abs z else Z.abs z) = z) by (destruct (Z.ltb_spec z 0); lia).
    by rewrite Hval, wraps_small by (done || lia).
Qed.

(** ** [cprintf] *)

(** A state that holds another one shows its memory. *)
Lemma directive_wf_through {C D} (console_mem : C -> memory) (f : D -> C) Inv d :
  directive_wf console_mem Inv d ->
  directive_wf (fun s => console_mem (f s)) (fun s => Inv (f s)) d.
Proof.
  destruct d as [| | | | | | | |g p l|]; cbn; try done. intros [Hf [Hl Hp]]. split; [done|].
  split; [done|]. destruct p as [a|]; [|done]. destruct (a =? 0); auto.
Qed.

Lemma emit_console {C} (cputchar : Z -> M C unit) cs c cnt :
  emit (JosPrintf.putch cputchar) cs (c, cnt) =
  match emit cputchar cs c with Ok (_, c') => Ok (tt, (c', cnt)) | Err e => Err e end.
Proof.
  revert c. induction cs as [|ch cs IH]; intros c; cbn [emit]; [done|].
  unfold bind. unfold JosPrintf.putch at 1. destruct (cputchar ch c) as [[[] c']|]; [apply IH|done].
Qed.

(** [cprintf] puts the rendering of its format on the console, character by
    character, and returns 0 whatever it printed: the counter it is meant to
    return is never incremented. *)
Theorem cprintf_prints {C} (console_mem : C -> memory) cputchar Inv fuel ds c
    (Hinv : forall ch c c', Inv c -> cputchar ch c = Ok (tt, c') -> Inv c') (Hc : Inv c)
    (Hds : Forall (directive_wf console_mem Inv) ds) (Hfuel : (total_need ds < fuel)%nat) :
  cprintf console_mem cputchar fuel (format ds) (arguments ds) c =
    match emit cputchar (output ds) c with Ok (_, c') => Ok (0, c') | Err e => Err e end.
Proof.
  unfold cprintf, vcprintf.
  rewrite (vprintfmt_ok _ _ (fun s => Inv s.1)); [|..]; [| |done| |done].
  - rewrite emit_console. by destruct (emit cputchar (output ds) c) as [[]|].
  - intros ch [c1 n1] [c2 n2] H1. unfold JosPrintf.putch.
    destruct (cputchar ch c1) as [[[] c3]|] eqn:E; [|done]. intros [= <- <-]. by eapply Hinv.
  - eapply Forall_impl; [exact Hds|]. intros d. apply directive_wf_through.
Qed.

(** * The theorems on the JOS string and printing routines at concrete inputs. *)
Open Scope Z_scope.

(** The bytes [bs] at [a] and nothing else. *)
Definition memory_at (a : Z) (bs : list Z) : memory :=
  list_to_map (zip (seqZ a (zlength bs)) bs).

Lemma memory_at_mapped a bs : mapped (memory_at a bs) a (zlength bs).
Proof.
  intros i Hi. destruct (lookup_lt_is_Some_2 bs (Z.to_nat (i - a))) as [b Hb]; [lia|].
  exists b. apply elem_of_list_to_map.
  - rewrite fst_zip by (rewrite length_seqZ; lia). apply NoDup_seqZ.
  - apply list_elem_of_lookup. exists (Z.to_nat (i - a)).
    rewrite lookup_zip_with, Hb, lookup_seqZ_lt by lia. cbn. do 3 f_equal. lia.
Qed.

Lemma memory_at_wf a bs : Forall (fun b => 0 <= b < 256) bs -> bytes_wf (memory_at a bs).
Proof.
  intros Hb i b H%elem_of_list_to_map_2%elem_of_zip_r. rewrite Forall_forall in Hb. auto.
Qed.

(** ["ab"], then ["cd"] with room after it *)
Definition example_memory : memory := memory_at 100 [97; 98; 0; 0; 99; 100; 0; 0; 0; 0; 0; 0; 0].

Example memmove_overlap :
  match memmove 101 100 4 example_memory with
  | Ok (_, m) => map (fun i => m !! i) [100; 101; 102; 103; 104; 105]
  | Err _ => []
  end = [Some 97; Some 97; Some 98; Some 0; Some 0; Some 100].
Proof. reflexivity. Qed.

Lemma blocks_correct_witness :
  exists m', memmove 102 100 8 example_memory = Ok (102, m').
Proof.
  assert (Hm : forall a n, 100 <= a -> a + n <= 113 -> mapped example_memory a n).
  { intros a n ??. eapply mapped_sub; [apply memory_at_mapped|cbn; lia..]. }
  destruct (blocks_correct example_memory 102 100 0 8 ltac:(lia)) as [(m' & E & _) _].
  - apply memory_at_wf. repeat constructor; lia.
  - apply Hm; lia.
  - apply Hm; lia.
  - by exists m'.
Defined.

Lemma readers_correct_witness : strcmp 3 100 104 example_memory = Ok (-2, example_memory).
Proof.
  apply (readers_correct example_memory 100 104 [97; 98] [99; 100] 0 1 1 3);
    try done; repeat split; first [reflexivity | cbn; lia].
Defined.

Lemma writers_correct_witness :
  strcat 5 104 100 example_memory = Ok (104, write example_memory 106 [97; 98; 0]).
Proof.
  apply (writers_correct example_memory 104 100 [97; 98] [99; 100] 6 5) with (n := 1);
    try (repeat split; first [reflexivity | cbn; lia]).
  - eapply mapped_sub; [apply memory_at_mapped|cbn; lia..].
  - unfold apart. cbn. lia.
Defined.

(** *** Printing *)

(** ["%5d|%-3s|%x"] *)
Definition example_directives : list directive :=
  [Decimal (mk_flags None (Some 5) None false 0) (-42); Plain 124;
   Text (mk_flags (Some 45) (Some 3) None false 0) (inl 100) [97; 98]; Plain 124;
   Hex plain_flags 255].

Example example_format : format example_directives =
  [37; 53; 100; 124; 37; 45; 51; 115; 124; 37; 120].
Proof. reflexivity. Qed.
(** ["-   42|ab |ff"]: the sign comes before the padding and is not counted. *)
Example example_output : output example_directives =
  [45; 32; 32; 32; 52; 50; 124; 97; 98; 32; 124; 102; 102].
Proof. reflexivity. Qed.

Lemma example_flags_wf p w : (p = None \/ p = Some 45) -> 0 < w < 2 ^ 31 ->
  flags_wf (mk_flags p (Some w) None false 0).
Proof.
  intros Hp Hw. split; [cbn; naive_solver|]. split; cbn; [by intros ? [= <-]|done].
Qed.

Lemma example_directives_wf {S} (mem : S -> memory) Inv :
  (forall s, Inv s -> cstr (mem s) 100 [97; 98]) -> Forall (directive_wf mem Inv) example_directives.
Proof.
  intros Hs. repeat apply Forall_cons_2; try (by constructor).
  - split; [apply example_flags_wf; [by left|lia]|]. unfold int_range. cbn. bound_lia.
  - split; [apply example_flags_wf; [by right|lia]|]. split; [|exact Hs].
    split; [|cbn; lia]. repeat constructor; lia.
  - split; [apply plain_flags_wf|]. unfold int_range. cbn. bound_lia.
Qed.

(** Printing to a list. *)
Definition list_putch (c : Z) : M (list Z) unit := fun l => Ok (tt, l ++ [c]).

Lemma vprintfmt_renders_witness :
  vprintfmt (fun _ => example_memory) list_putch 80 (format example_directives)
    (arguments example_directives) [] =
  Ok (tt, [45; 32; 32; 32; 52; 50; 124; 97; 98; 32; 124; 102; 102]).
Proof.
  rewrite (vprintfmt_renders _ _ (fun _ => True)).
  - reflexivity.
  - done.
  - done.
  - apply example_directives_wf. intros _ _. repeat split; reflexivity || lia.
  - vm_compute. lia.
Defined.

Lemma vsnprintf_fills_witness :
  vsnprintf 80 106 6 (format example_directives) (arguments example_directives) example_memory =
  Ok (13, write example_memory 106 [45; 32; 32; 32; 52; 0]).
Proof.
  rewrite vsnprintf_fills.
  - reflexivity.
  - intros _. eapply mapped_sub; [apply memory_at_mapped|cbn; lia..].
  - apply example_directives_wf. intros s (Ha & _ & _).
    cbn. rewrite !Ha by lia. repeat split; reflexivity || lia.
  - vm_compute. lia.
  - vm_compute. done.
Defined.

Lemma decimal_roundtrip_witness :
  exists m', snprintf 400 100 12 [37; 100] [Word (u32 (-2147483648))] example_memory =
    Ok (11, m') /\ strtol 20 100 10 m' = Ok ((-2147483648, 111), m').
Proof.
  apply (decimal_roundtrip example_memory 100 (-2147483648)).
  - lia.
  - eapply mapped_sub; [apply memory_at_mapped|cbn; lia..].
  - bound_lia.
Defined.

Lemma cprintf_prints_witness :
  cprintf (fun _ : list Z => example_memory) list_putch 80 (format example_directives)
    (arguments example_directives) [] =
  Ok (0, [45; 32; 32; 32; 52; 50; 124; 97; 98; 32; 124; 102; 102]).
Proof.
  rewrite (cprintf_prints _ _ (fun _ => True)).
  - reflexivity.
  - done.
  - done.
  - apply example_directives_wf. intros _ _. repeat split; reflexivity || lia.
  - vm_compute. lia.
Defined.
