(* ===== verification/Malloc.v ===== *)
(** The heap allocator of [uw_cse351/lab5]: [memlib.c], the simulated break, and
    [mm.c], an explicit free list with boundary tags.  Memory is the words of
    eight bytes at multiples of eight; a [size_t] is a 64-bit word.  The code
    reads and writes only whole words, except the [memcpy] of [mm_realloc],
    which copies bytes. *)
From Stdlib Require Import ZArith Lia.
From S2P Require Import Prelude.
Open Scope Z_scope.

Definition MAX_HEAP : Z := 20 * 2 ^ 20.
Definition WORD_SIZE : Z := 8.
Definition MIN_BLOCK_SIZE : Z := 32.
Definition ALIGNMENT : Z := 8.
Definition TAG_USED : Z := 1.
Definition TAG_PRECEDING_USED : Z := 2.
Definition SIZE (x : Z) : Z := Z.land x (Z.lnot (ALIGNMENT - 1)).
(** A tag set in, cleared from, read off a [sizeAndTags]. *)
Definition has_tag (x tag : Z) : bool := negb (Z.land x tag =? 0).

Record heap : Type := mk_heap {
  words : gmap Z Z;
  mem_brk : Z
}.

Definition word (a : Z) : M heap Z := fun h =>
  match words h !! a with Some v => Ok (v, h) | None => Err BadAccess end.
Definition set_word (a v : Z) : M heap unit := fun h =>
  match words h !! a with
  | Some _ => Ok (tt, mk_heap (<[a := v]> (words h)) (mem_brk h))
  | None => Err BadAccess
  end.

Section memlib.
(** [mem_start_brk] and [getpagesize()]. *)
Context (lo pagesize : Z).

Definition mem_max_addr : Z := lo + MAX_HEAP.
(** The area [mem_init] gets from the C library's [malloc], with whatever it holds. *)
Definition mem_init (area : gmap Z Z) : heap := mk_heap area lo.
Definition mem_reset_brk : M heap unit := modify (fun h => mk_heap (words h) lo).
(** [-1] is the [size_t] with all bits set; pointer sums wrap at 64 bits. *)
Definition mem_sbrk (incr : Z) : M heap Z := fun h =>
  if mem_max_addr <? u64 (mem_brk h + incr) then Ok (u64 (-1), h)
  else Ok (mem_brk h, mk_heap (words h) (u64 (mem_brk h + incr))).
Definition mem_heap_lo : Z := lo.
Definition mem_heap_hi : M heap Z := gets (fun h => mem_brk h - 1).
Definition mem_heapsize : M heap Z := gets (fun h => mem_brk h - lo).
Definition mem_pagesize : Z := pagesize.

(** *** The free list; [sizeAndTags], [next] and [prev] of a [BlockInfo] *)

Definition sizeAndTags (b : Z) : Z := b.
Definition next (b : Z) : Z := b + 8.
Definition prev (b : Z) : Z := b + 16.
Definition FREE_LIST_HEAD : Z := mem_heap_lo.

Fixpoint searchFreeList_loop (fuel : nat) (freeBlock reqSize : Z) : M heap Z :=
  match fuel with
  | O => fail OutOfFuel
  | S fuel' =>
      if freeBlock =? 0 then ret 0
      else
        let* tags := word (sizeAndTags freeBlock) in
        if reqSize <=? SIZE tags then ret freeBlock
        else
          let* n := word (next freeBlock) in
          searchFreeList_loop fuel' n reqSize
  end.
Definition searchFreeList (fuel : nat) (reqSize : Z) : M heap Z :=
  let* freeBlock := word FREE_LIST_HEAD in searchFreeList_loop fuel freeBlock reqSize.

Definition insertFreeBlock (freeBlock : Z) : M heap unit :=
  let* oldHead := word FREE_LIST_HEAD in
  do* set_word (next freeBlock) oldHead;
  do* (if negb (oldHead =? 0) then
         let* p := word (prev oldHead) in
         do* set_word (prev freeBlock) p;
         set_word (prev oldHead) freeBlock
       else ret tt);
  set_word FREE_LIST_HEAD freeBlock.

Definition removeFreeBlock (freeBlock : Z) : M heap unit :=
  let* nextFree := word (next freeBlock) in
  let* prevFree := word (prev freeBlock) in
  do* (if negb (nextFree =? 0) then set_word (prev nextFree) prevFree else ret tt);
  let* head := word FREE_LIST_HEAD in
  if freeBlock =? head then set_word FREE_LIST_HEAD nextFree
  else if negb (prevFree =? 0) then set_word (next prevFree) nextFree
  else ret tt.

(** *** Coalescing *)

(** Over the free blocks before [blockCursor]; the cursor and the size so far. *)
Fixpoint coalesce_preceding (fuel : nat) (blockCursor newSize : Z) : M heap (Z * Z) :=
  match fuel with
  | O => fail OutOfFuel
  | S fuel' =>
      let* tags := word (sizeAndTags blockCursor) in
      if has_tag tags TAG_PRECEDING_USED then ret (blockCursor, newSize)
      else
        let* footer := word (blockCursor - WORD_SIZE) in
        let size := SIZE footer in
        let freeBlock := blockCursor - size in
        do* removeFreeBlock freeBlock;
        coalesce_preceding fuel' freeBlock (newSize + size)
  end.

Fixpoint coalesce_following (fuel : nat) (blockCursor newSize : Z) : M heap (Z * Z) :=
  match fuel with
  | O => fail OutOfFuel
  | S fuel' =>
      let* tags := word (sizeAndTags blockCursor) in
      if has_tag tags TAG_USED then ret (blockCursor, newSize)
      else
        let size := SIZE tags in
        do* removeFreeBlock blockCursor;
        coalesce_following fuel' (blockCursor + size) (newSize + size)
  end.

Definition coalesceFreeBlock (fuel : nat) (oldBlock : Z) : M heap unit :=
  let* tags := word (sizeAndTags oldBlock) in
  let oldSize := SIZE tags in
  let* (newBlock, newSize) := coalesce_preceding fuel oldBlock oldSize in
  let* (blockCursor, newSize) := coalesce_following fuel (oldBlock + oldSize) newSize in
  if negb (newSize =? oldSize) then
    do* removeFreeBlock oldBlock;
    do* set_word (sizeAndTags newBlock) (Z.lor newSize TAG_PRECEDING_USED);
    do* set_word (blockCursor - WORD_SIZE) (Z.lor newSize TAG_PRECEDING_USED);
    insertFreeBlock newBlock
  else ret tt.

Definition requestMoreSpace (fuel : nat) (reqSize : Z) : M heap unit :=
  let numPages := u64 (reqSize + pagesize - 1) / pagesize in
  let totalSize := u64 (numPages * pagesize) in
  let* mem_sbrk_result := mem_sbrk totalSize in
  if mem_sbrk_result =? u64 (-1) then fail (Exit 0)
  else
    let newBlock := mem_sbrk_result - WORD_SIZE in
    let* tags := word (sizeAndTags newBlock) in
    let prevLastWordMask := Z.land tags TAG_PRECEDING_USED in
    do* set_word (sizeAndTags newBlock) (Z.lor totalSize prevLastWordMask);
    do* set_word (sizeAndTags (newBlock + (totalSize - WORD_SIZE))) (Z.lor totalSize prevLastWordMask);
    do* set_word (newBlock + totalSize) TAG_USED;
    do* insertFreeBlock newBlock;
    coalesceFreeBlock fuel newBlock.

(** *** The interface *)

Definition mm_init : M heap Z :=
  let initSize := WORD_SIZE + MIN_BLOCK_SIZE + WORD_SIZE in
  let* mem_sbrk_result := mem_sbrk initSize in
  if mem_sbrk_result =? u64 (-1) then fail (Exit 1)
  else
    let firstFreeBlock := mem_heap_lo + WORD_SIZE in
    let totalSize := initSize - WORD_SIZE - WORD_SIZE in
    do* set_word (sizeAndTags firstFreeBlock) (Z.lor totalSize TAG_PRECEDING_USED);
    do* set_word (next firstFreeBlock) 0;
    do* set_word (prev firstFreeBlock) 0;
    do* set_word (firstFreeBlock + (totalSize - WORD_SIZE)) (Z.lor totalSize TAG_PRECEDING_USED);
    let* hi := mem_heap_hi in
    do* set_word (hi - (WORD_SIZE - 1)) TAG_USED;
    do* set_word FREE_LIST_HEAD firstFreeBlock;
    ret 0.

(** The size of the block that serves a request. *)
Definition request_size (size : Z) : Z :=
  let size := u64 (size + WORD_SIZE) in
  if size <=? MIN_BLOCK_SIZE then MIN_BLOCK_SIZE
  else u64 (ALIGNMENT * (u64 (size + ALIGNMENT - 1) / ALIGNMENT)).

(** The remainder of a split, from [reqSize] to the end of the block. *)
Definition split_block (b blockSize reqSize precedingBlockUseTag : Z) : M heap unit :=
  do* set_word (sizeAndTags b) (Z.lor reqSize precedingBlockUseTag);
  let* tags := word (sizeAndTags b) in
  do* set_word (sizeAndTags b) (Z.lor tags TAG_USED);
  do* set_word (b + reqSize) (Z.lor (blockSize - reqSize) TAG_PRECEDING_USED);
  do* set_word (b + (blockSize - WORD_SIZE)) (Z.lor (blockSize - reqSize) TAG_PRECEDING_USED);
  insertFreeBlock (b + reqSize).

(** The free block found is taken, its remainder split off where it is large enough. *)
Definition allocate_block (ptrFreeBlock reqSize : Z) : M heap unit :=
  let* tags := word (sizeAndTags ptrFreeBlock) in
  let precedingBlockUseTag := Z.land tags TAG_PRECEDING_USED in
  let blockSize := SIZE tags in
  do* removeFreeBlock ptrFreeBlock;
  if MIN_BLOCK_SIZE <=? u64 (blockSize - reqSize) then
    split_block ptrFreeBlock blockSize reqSize precedingBlockUseTag
  else
    let nextBlock := ptrFreeBlock + blockSize in
    let* t := word (sizeAndTags nextBlock) in
    do* set_word (sizeAndTags nextBlock) (Z.lor t TAG_PRECEDING_USED);
    let* t := word (sizeAndTags ptrFreeBlock) in
    set_word (sizeAndTags ptrFreeBlock) (Z.lor t TAG_USED).

Definition mm_malloc (fuel : nat) (size : Z) : M heap Z :=
  if size =? 0 then ret 0
  else
    let reqSize := request_size size in
    let* ptrFreeBlock := searchFreeList fuel reqSize in
    let* ptrFreeBlock :=
      (if ptrFreeBlock =? 0 then
         do* requestMoreSpace fuel reqSize; searchFreeList fuel reqSize
       else ret ptrFreeBlock) in
    do* allocate_block ptrFreeBlock reqSize;
    ret (ptrFreeBlock + WORD_SIZE).

Definition mm_free (fuel : nat) (ptr : Z) : M heap unit :=
  let blockInfo := ptr - WORD_SIZE in
  let* tags := word (sizeAndTags blockInfo) in
  let payloadSize := SIZE tags in
  let followingBlock := blockInfo + payloadSize in
  let* t := word (sizeAndTags followingBlock) in
  do* set_word (sizeAndTags followingBlock) (Z.land t (Z.lnot TAG_PRECEDING_USED));
  let* t := word (sizeAndTags blockInfo) in
  do* set_word (sizeAndTags blockInfo) (Z.land t (Z.lnot TAG_USED));
  let* t := word (sizeAndTags blockInfo) in
  do* set_word (blockInfo + (payloadSize - WORD_SIZE)) t;
  do* insertFreeBlock blockInfo;
  coalesceFreeBlock fuel blockInfo.

(** The C library's [memcpy] between word-aligned blocks apart: whole words, then
    the low bytes of one. *)
Fixpoint copy_words (n : nat) (dst src : Z) : M heap unit :=
  match n with
  | O => ret tt
  | S n' =>
      let* v := word src in
      do* set_word dst v;
      copy_words n' (dst + WORD_SIZE) (src + WORD_SIZE)
  end.
Definition memcpy (dst src n : Z) : M heap unit :=
  do* copy_words (Z.to_nat (n / WORD_SIZE)) dst src;
  let r := n mod WORD_SIZE in
  if r =? 0 then ret tt
  else
    let d := dst + (n - r) in
    let* v := word (src + (n - r)) in
    let* o := word d in
    set_word d (v mod 2 ^ (8 * r) + (o - o mod 2 ^ (8 * r))).

(** The growth into a free following block; the size of the block afterwards. *)
Definition realloc_grow (blockInfo old_size reqSize precedingBlockUseTag : Z) : M heap Z :=
  let nextBlock := blockInfo + old_size in
  let* nt := word (sizeAndTags nextBlock) in
  if has_tag nt TAG_USED then ret old_size
  else
    let addSize := SIZE nt in
    if reqSize <=? old_size + addSize then
      do* removeFreeBlock nextBlock;
      let old_size := old_size + addSize in
      do* set_word (sizeAndTags blockInfo) (Z.lor old_size precedingBlockUseTag);
      let* t := word (sizeAndTags blockInfo) in
      do* set_word (sizeAndTags blockInfo) (Z.lor t TAG_USED);
      do* set_word (sizeAndTags nextBlock) 0;
      let nextnextBlock := blockInfo + old_size in
      let* t := word (sizeAndTags nextnextBlock) in
      do* set_word (sizeAndTags nextnextBlock) (Z.lor t TAG_PRECEDING_USED);
      ret old_size
    else ret old_size.

Definition mm_realloc (fuel : nat) (ptr size : Z) : M heap Z :=
  let blockInfo := ptr - WORD_SIZE in
  let* tags := word (sizeAndTags blockInfo) in
  let old_size := SIZE tags in
  let copy_size := old_size - WORD_SIZE in
  if ptr =? 0 then mm_malloc fuel size
  else if size =? 0 then do* mm_free fuel ptr; ret 0
  else
    let reqSize := request_size size in
    if reqSize =? old_size then ret ptr
    else
      let precedingBlockUseTag := Z.land tags TAG_PRECEDING_USED in
      let* old_size :=
        (if old_size <? reqSize then realloc_grow blockInfo old_size reqSize precedingBlockUseTag
         else ret old_size) in
      if reqSize <=? old_size then
        do* (if MIN_BLOCK_SIZE <=? old_size - reqSize then
               do* split_block blockInfo old_size reqSize precedingBlockUseTag;
               let nextBlock := blockInfo + old_size in
               let* t := word (sizeAndTags nextBlock) in
               set_word (sizeAndTags nextBlock) (Z.land t (Z.lnot TAG_PRECEDING_USED))
             else ret tt);
        ret ptr
      else
        let* new_ptr := mm_malloc fuel size in
        if new_ptr =? 0 then ret 0
        else
          let copy_size := if size <? copy_size then size else copy_size in
          do* memcpy new_ptr ptr copy_size;
          do* mm_free fuel ptr;
          ret new_ptr.

Definition mm_check : Z := 0.
End memlib.
