(* ===== verification/MallocList.v ===== *)
(** The data structure of [Malloc]: tagged sizes, the row of blocks that tiles the
    heap, the doubly linked free list, and what the list operations do to them. *)
From Stdlib Require Import ZArith Lia.
From S2P Require Import Prelude Malloc.
Open Scope Z_scope.

(** ** Tagged sizes *)

(** A size with its two tags. *)
Definition tagged (s : Z) (used preceding_used : bool) : Z := s + (b2z used + 2 * b2z preceding_used).

Lemma testbit_low3 k r i : 0 <= r < 8 -> 0 <= i ->
  Z.testbit (8 * k + r) i = if i <? 3 then Z.testbit r i else Z.testbit k (i - 3).
Proof.
  intros Hr Hi. destruct (Z.ltb_spec i 3).
  - rewrite <- (Z.mod_pow2_bits_low (8 * k + r) 3) by lia. f_equal.
    change (2 ^ 3) with 8. rewrite Z.add_comm, Z.mul_comm, Z_mod_plus_full. by apply Z.mod_small.
  - replace i with (i - 3 + 3) at 1 by lia. rewrite <- Z.div_pow2_bits by lia. f_equal.
    change (2 ^ 3) with 8. rewrite Z.mul_comm, Z.div_add_l by lia. rewrite Z.div_small by lia. lia.
Qed.

Lemma testbit_high t i : 0 <= t < 8 -> 3 <= i -> Z.testbit t i = false.
Proof.
  intros Ht Hi. rewrite <- (Z.mod_small t (2 ^ 3)) by (change (2 ^ 3) with 8; lia).
  apply Z.mod_pow2_bits_high. lia.
Qed.

(** The bit operations of the code only reach the low three bits. *)
Lemma low3_ops k r t : 0 <= r < 8 -> 0 <= t < 8 ->
  0 <= Z.lor r t < 8 -> 0 <= Z.land r (Z.lnot t) < 8 ->
  Z.lor (8 * k + r) t = 8 * k + Z.lor r t /\ Z.land (8 * k + r) t = Z.land r t /\
  Z.land (8 * k + r) (Z.lnot t) = 8 * k + Z.land r (Z.lnot t).
Proof.
  intros Hr Ht Ho Hn. repeat split; apply Z.bits_inj'; intros i Hi;
    rewrite ?Z.lor_spec, ?Z.land_spec, ?Z.lnot_spec, !testbit_low3 by lia;
    (destruct (Z.ltb_spec i 3); rewrite ?Z.lor_spec, ?Z.land_spec, ?Z.lnot_spec by lia; [done|]);
    rewrite ?(testbit_high t), ?(testbit_high r) by lia; cbn [negb];
    by rewrite ?orb_false_r, ?andb_false_r, ?andb_true_r.
Qed.

Lemma mod8 s : s mod 8 = 0 -> s = 8 * (s / 8).
Proof. intros H. pose proof (Z.div_mod s 8). lia. Qed.

Lemma tagged_ops s u p : s mod 8 = 0 ->
  SIZE (tagged s u p) = s /\ has_tag (tagged s u p) TAG_USED = u /\
  has_tag (tagged s u p) TAG_PRECEDING_USED = p /\
  Z.land (tagged s u p) TAG_PRECEDING_USED = 2 * b2z p /\
  Z.lor (tagged s u p) TAG_USED = tagged s true p /\
  Z.lor (tagged s u p) TAG_PRECEDING_USED = tagged s u true /\
  Z.land (tagged s u p) (Z.lnot TAG_USED) = tagged s false p /\
  Z.land (tagged s u p) (Z.lnot TAG_PRECEDING_USED) = tagged s u false.
Proof.
  intros Hs. apply mod8 in Hs. revert Hs. generalize (s / 8). intros k ->.
  unfold SIZE, has_tag, tagged, TAG_USED, TAG_PRECEDING_USED, ALIGNMENT.
  assert (Hb : forall r t, 0 <= r < 4 -> t = 7 \/ t = 1 \/ t = 2 ->
    Z.lor (8 * k + r) t = 8 * k + Z.lor r t /\ Z.land (8 * k + r) t = Z.land r t /\
    Z.land (8 * k + r) (Z.lnot t) = 8 * k + Z.land r (Z.lnot t)).
  { intros r t Hr Ht. assert (r = 0 \/ r = 1 \/ r = 2 \/ r = 3) as Hr' by lia.
    apply low3_ops; destruct Hr' as [-> | [-> | [-> | ->]]], Ht as [-> | [-> | ->]]; by vm_compute. }
  set (r := b2z u + 2 * b2z p). assert (Hr : 0 <= r < 4) by (unfold r; destruct u, p; cbn; lia).
  change (8 - 1) with 7.
  destruct (Hb r 7 Hr) as (_ & _ & ->); [tauto|].
  destruct (Hb r 1 Hr) as (-> & -> & ->); [tauto|].
  destruct (Hb r 2 Hr) as (-> & -> & ->); [tauto|].
  assert (Z.land r (Z.lnot 7) = 0) as -> by (unfold r; by destruct u, p).
  rewrite Z.add_0_r. unfold r. by destruct u, p.
Qed.

Lemma tagged_new s p : s mod 8 = 0 ->
  Z.lor s (2 * b2z p) = tagged s false p /\ Z.lor s TAG_PRECEDING_USED = tagged s false true.
Proof.
  intros Hs. pose proof (tagged_ops s false false Hs) as (_ & _ & _ & _ & _ & H & _).
  assert (H0 : tagged s false false = s) by (unfold tagged; cbn; lia). rewrite H0 in H.
  split; [|done]. destruct p; [done|]. cbn. by rewrite Z.lor_0_r.
Qed.

(** ** Rows of blocks *)

(** A block is its size and whether it is in use. *)
Abbreviation blk := (Z * bool)%type.

Fixpoint total (bs : list blk) : Z :=
  match bs with [] => 0 | b :: bs => b.1 + total bs end.
(** Whether the last block is in use, [pu] when there is none. *)
Fixpoint last_used (pu : bool) (bs : list blk) : bool :=
  match bs with [] => pu | b :: bs => last_used b.2 bs end.

(** [bs] lies at [a], after a block in use or not. *)
Fixpoint row (w : gmap Z Z) (a : Z) (pu : bool) (bs : list blk) : Prop :=
  match bs with
  | [] => True
  | (s, u) :: bs =>
      32 <= s /\ s mod 8 = 0 /\ w !! a = Some (tagged s u pu) /\
      (u = false -> exists f, w !! (a + s - 8) = Some f /\ SIZE f = s) /\
      row w (a + s) u bs
  end.

(** The addresses of the blocks, with their sizes. *)
Fixpoint placed (a : Z) (bs : list blk) : list (Z * Z * bool) :=
  match bs with [] => [] | (s, u) :: bs => (a, s, u) :: placed (a + s) bs end.
Definition frees (a : Z) (bs : list blk) : list Z :=
  (fun b => b.1.1) <$> filter (fun b => b.2 = false) (placed a bs).
Definition used (a : Z) (bs : list blk) : list (Z * Z) :=
  (fun b => b.1) <$> filter (fun b => b.2 = true) (placed a bs).

Lemma total_app xs ys : total (xs ++ ys) = total xs + total ys.
Proof. induction xs as [|x xs IH]; cbn [app total]; lia. Qed.

Lemma last_used_app pu xs ys : last_used pu (xs ++ ys) = last_used (last_used pu xs) ys.
Proof. revert pu. induction xs as [|x xs IH]; cbn; auto. Qed.

Lemma row_app w a pu xs ys :
  row w a pu (xs ++ ys) <-> row w a pu xs /\ row w (a + total xs) (last_used pu xs) ys.
Proof.
  revert a pu. induction xs as [|[s u] xs IH]; intros a pu; cbn.
  - rewrite Z.add_0_r. tauto.
  - rewrite IH, Z.add_assoc. tauto.
Qed.

Lemma placed_app a xs ys : placed a (xs ++ ys) = placed a xs ++ placed (a + total xs) ys.
Proof.
  revert a. induction xs as [|[s u] xs IH]; intros a; cbn; [by rewrite Z.add_0_r|].
  by rewrite IH, Z.add_assoc.
Qed.

Lemma frees_app a xs ys : frees a (xs ++ ys) = frees a xs ++ frees (a + total xs) ys.
Proof. unfold frees. by rewrite placed_app, filter_app, fmap_app. Qed.

Lemma used_app a xs ys : used a (xs ++ ys) = used a xs ++ used (a + total xs) ys.
Proof. unfold used. by rewrite placed_app, filter_app, fmap_app. Qed.

Lemma row_nonneg w a pu bs : row w a pu bs -> 0 <= total bs.
Proof.
  revert a pu. induction bs as [|[s u] bs IH]; intros a pu; cbn; [lia|].
  intros (? & ? & ? & ? & ?%IH). lia.
Qed.

(** A block of a row is between its ends. *)
Lemma placed_bounds w a pu bs p s u : row w a pu bs -> (p, s, u) ∈ placed a bs ->
  a <= p /\ 32 <= s /\ p + s <= a + total bs /\ (p - a) mod 8 = 0 /\ s mod 8 = 0.
Proof.
  revert a pu. induction bs as [|[s' u'] bs IH]; intros a pu; cbn; [by intros _ ?%elem_of_nil|].
  intros (H1 & H2 & _ & _ & Hr) [[= -> -> ->]|Hin]%elem_of_cons.
  - apply row_nonneg in Hr. rewrite Z.sub_diag. repeat split; try lia; done.
  - destruct (IH _ _ Hr Hin) as (? & ? & ? & Hm & ?). repeat split; try lia.
    replace (p - a) with (p - (a + s') + s') by lia.
    rewrite Zplus_mod, Hm, H2. done.
Qed.

(** Two blocks of a row are apart. *)
Lemma placed_apart w a pu bs p s u p' s' u' : row w a pu bs ->
  (p, s, u) ∈ placed a bs -> (p', s', u') ∈ placed a bs ->
  (p = p' /\ s = s' /\ u = u') \/ p + s <= p' \/ p' + s' <= p.
Proof.
  revert a pu. induction bs as [|[s0 u0] bs IH]; intros a pu; cbn; [by intros _ ?%elem_of_nil|].
  intros (H1 & H2 & _ & _ & Hr) [[= -> -> ->]|Hin]%elem_of_cons [[= -> -> ->]|Hin']%elem_of_cons.
  - by left.
  - pose proof (placed_bounds _ _ _ _ _ _ _ Hr Hin'). lia.
  - pose proof (placed_bounds _ _ _ _ _ _ _ Hr Hin). lia.
  - eauto.
Qed.

(** ** The free list *)

(** Resolves lookups in updated memories. *)
Ltac look := repeat first [rewrite lookup_insert_eq | rewrite lookup_insert_ne by lia].

(** Links of the blocks [fl] after [p], the last one's [next] being [e]. *)
Fixpoint chain (w : gmap Z Z) (p : option Z) (fl : list Z) (e : Z) : Prop :=
  match fl with
  | [] => True
  | b :: fl =>
      w !! next b = Some (hd e fl) /\
      match p with Some q => w !! prev b = Some q | None => is_Some (w !! prev b) end /\
      chain w (Some b) fl e
  end.

Definition pred (p : option Z) (fl : list Z) : option Z :=
  match last fl with Some x => Some x | None => p end.

Lemma pred_cons p x fl : pred p (x :: fl) = pred (Some x) fl.
Proof.
  unfold pred. destruct fl as [|z fl]; [done|]. rewrite last_cons_cons.
  destruct (last (z :: fl)) eqn:E; [done|]. by apply last_None in E.
Qed.

Lemma chain_app w p xs ys e :
  chain w p (xs ++ ys) e <-> chain w p xs (hd e ys) /\ chain w (pred p xs) ys e.
Proof.
  revert p. induction xs as [|x xs IH]; intros p; [cbn; tauto|].
  cbn [app chain]. rewrite IH, pred_cons.
  assert (hd e (xs ++ ys) = hd (hd e ys) xs) as -> by by destruct xs. tauto.
Qed.

Lemma chain_frame w w' p fl e :
  (forall b, b ∈ fl -> w' !! next b = w !! next b /\ w' !! prev b = w !! prev b) ->
  chain w p fl e -> chain w' p fl e.
Proof.
  revert p. induction fl as [|b fl IH]; intros p Hw; cbn; [done|].
  intros (H1 & H2 & H3). destruct (Hw b) as [-> ->]; [by left|]. split; [done|]. split; [done|].
  apply IH; [|done]. intros b' Hb'. apply Hw. by right.
Qed.

Section free_list.
Context (lo : Z) (Hlo : 0 < lo).

Definition flist (w : gmap Z Z) (fl : list Z) : Prop :=
  w !! lo = Some (hd 0 fl) /\ chain w None fl 0.

(** The blocks of a free list are above the head word and apart. *)
Definition spaced (fl : list Z) : Prop :=
  (forall b, b ∈ fl -> lo + 8 <= b) /\
  (forall b b', b ∈ fl -> b' ∈ fl -> b <> b' -> b + 32 <= b' \/ b' + 32 <= b) /\ NoDup fl.

(** Only the list head and the links of [fl] differ. *)
Definition relinked (fl : list Z) (h h' : heap) : Prop :=
  mem_brk h' = mem_brk h /\
  (forall x, is_Some (words h !! x) -> is_Some (words h' !! x)) /\
  (forall x, x <> lo -> (forall b, b ∈ fl -> x <> next b /\ x <> prev b) ->
     words h' !! x = words h !! x).

Lemma relinked_refl fl h : relinked fl h h.
Proof. by split. Qed.

Lemma relinked_trans fl h1 h2 h3 : relinked fl h1 h2 -> relinked fl h2 h3 -> relinked fl h1 h3.
Proof.
  intros (H1 & H2 & H3) (H4 & H5 & H6). split; [congruence|]. split; [auto|].
  intros x Hx Hb. rewrite H6 by done. by apply H3.
Qed.

Lemma relinked_mono fl fl' h h' : fl ⊆ fl' -> relinked fl h h' -> relinked fl' h h'.
Proof.
  intros Hs (H1 & H2 & H3). split; [done|]. split; [done|]. intros x Hx Hb. apply H3; [done|].
  intros b Hbl. by apply Hb, Hs.
Qed.

Lemma relinked_set fl h x v : (x = lo \/ exists b, b ∈ fl /\ (x = next b \/ x = prev b)) ->
  relinked fl h (mk_heap (<[x := v]> (words h)) (mem_brk h)).
Proof.
  intros Hx. split; [done|]. split; cbn.
  - intros y Hy. apply lookup_insert_is_Some'. by right.
  - intros y Hy Hb. rewrite lookup_insert_ne; [done|]. intros <-.
    destruct Hx as [?|(b & Hin & [?|?])]; [done|..]; destruct (Hb b Hin); congruence.
Qed.

Lemma word_run h a v : words h !! a = Some v -> word a h = Ok (v, h).
Proof. intros H. unfold word. by rewrite H. Qed.

Lemma set_word_run h a v : is_Some (words h !! a) ->
  set_word a v h = Ok (tt, mk_heap (<[a := v]> (words h)) (mem_brk h)).
Proof. intros [x H]. unfold set_word. by rewrite H. Qed.

Lemma spaced_cons_neq b fl b' : spaced (b :: fl) -> b' ∈ fl ->
  (b + 32 <= b' \/ b' + 32 <= b) /\ lo + 8 <= b' /\ lo + 8 <= b.
Proof.
  intros (H1 & H2 & [Hn _]%NoDup_cons) Hb'.
  split; [apply H2; [by left|by right|set_solver]|]. split; apply H1; [by right|by left].
Qed.

Lemma insertFreeBlock_ok h fl b : flist (words h) fl -> spaced (b :: fl) ->
  is_Some (words h !! next b) -> is_Some (words h !! prev b) ->
  exists h', insertFreeBlock lo b h = Ok (tt, h') /\ flist (words h') (b :: fl) /\
    relinked (b :: fl) h h'.
Proof.
  intros [Hhd Hch] Hsp Hn Hp. unfold insertFreeBlock, FREE_LIST_HEAD, mem_heap_lo.
  step (word_run _ _ _ Hhd). step (set_word_run h (next b) (hd 0 fl) Hn).
  assert (Hb : lo + 8 <= b) by (apply Hsp; by left).
  destruct fl as [|b' fl]; cbn [hd].
  - change (0 =? 0) with true. cbn [negb]. rewrite bind_ret.
    rewrite set_word_run by (cbn; apply lookup_insert_is_Some'; right; by eexists).
    eexists; split; [done|]. unfold next, prev in *. split.
    + split; cbn; unfold next, prev; look; [done|]. split; [done|]. by split.
    + apply (relinked_trans _ _ (mk_heap (<[b + 8 := 0]> (words h)) (mem_brk h)));
        apply (relinked_set _ _ _ _); [|by left]. right. exists b. split; [by left|by left].
  - destruct (spaced_cons_neq b (b' :: fl) b' Hsp) as (Hd & Hb' & _); [by left|].
    destruct (Z.eqb_spec b' 0); [lia|]. cbn [negb]. rewrite !bind_assoc.
    destruct Hch as (Hn' & [q Hq] & Hch). unfold next, prev in *.
    erewrite bind_ok by (apply word_run; cbn; rewrite lookup_insert_ne by lia; exact Hq).
    rewrite !bind_assoc.
    erewrite bind_ok by (apply set_word_run; cbn; rewrite lookup_insert_ne by lia; exact Hp).
    erewrite bind_ok by (apply set_word_run; cbn; rewrite !lookup_insert_ne by lia; by eexists).
    rewrite set_word_run by (cbn; rewrite !lookup_insert_ne by lia; by eexists).
    eexists; split; [done|]. cbn [words mem_brk]. split.
    + split; [by look|]. cbn [chain hd]. unfold next, prev. look. split; [done|]. split; [by eexists|].
      split; [done|]. split; [done|]. eapply chain_frame; [|exact Hch].
      intros b2 Hb2. unfold next, prev.
      destruct (spaced_cons_neq b (b' :: fl) b2 Hsp) as (Hd2 & Hb2' & _); [by right|].
      assert (spaced (b' :: fl)) as Hsp'.
      { destruct Hsp as (S1 & S2 & [_ S3]%NoDup_cons). split; [intros; apply S1; by right|].
        split; [|done]. intros. apply S2; by try right. }
      destruct (spaced_cons_neq b' fl b2 Hsp' Hb2) as (Hd3 & _). by look.
    + split; [done|]. split.
      * intros x Hx. do 4 (apply lookup_insert_is_Some'; right). done.
      * intros x Hx Hl. destruct (Hl b) as [L1 L2]; [by left|].
        destruct (Hl b') as [L3 L4]; [right; by left|]. unfold next, prev in *. cbn. by look.
Qed.

Lemma spaced_submseteq fl fl' : fl' ⊆+ fl -> spaced fl -> spaced fl'.
Proof.
  intros Hs (H1 & H2 & H3).
  assert (forall b, b ∈ fl' -> b ∈ fl) by (intros; by eapply elem_of_submseteq).
  split; [auto|]. split; [auto|].
  apply submseteq_Permutation in Hs as [k Hk]. rewrite Hk in H3. by apply NoDup_app in H3 as [? _].
Qed.

Lemma spaced_perm fl fl' : fl ≡ₚ fl' -> spaced fl -> spaced fl'.
Proof. intros H. apply spaced_submseteq. by rewrite H. Qed.

(** The links of different blocks are different words. *)
Lemma spaced_links fl b b' : spaced fl -> b ∈ fl -> b' ∈ fl -> b <> b' ->
  next b <> next b' /\ prev b <> prev b' /\ next b <> prev b' /\ prev b <> next b'.
Proof. intros (_ & H & _) Hb Hb' Hne. destruct (H b b' Hb Hb' Hne); unfold next, prev; lia. Qed.

(** Patching the [prev] of the block after the one removed. *)
Lemma chain_patch w p q fl e v : spaced fl -> chain w p fl e ->
  match q with Some q => v = q | None => True end ->
  chain (match fl with [] => w | b :: _ => <[prev b := v]> w end) q fl e.
Proof.
  intros Hsp Hc Hv. destruct fl as [|b fl]; [done|]. destruct Hc as (H1 & H2 & H3). cbn [chain].
  assert (next b <> prev b) by (unfold next, prev; lia).
  rewrite lookup_insert_ne by done. split; [done|]. rewrite lookup_insert_eq.
  split; [destruct q; [by subst|by eexists]|].
  eapply chain_frame; [|exact H3]. intros b' Hb'.
  destruct (spaced_links (b :: fl) b b' Hsp) as (? & ? & ? & ?); [by left|by right| |].
  { intros ->. destruct Hsp as (_ & _ & [? _]%NoDup_cons). done. }
  by rewrite !lookup_insert_ne by done.
Qed.

Lemma pred_snoc p xs x : pred p (xs ++ [x]) = Some x.
Proof. unfold pred. by rewrite last_snoc. Qed.

Lemma hd_snoc_any {A} (d : A) xs x : hd d (xs ++ [x]) = hd x xs.
Proof. by destruct xs. Qed.

Lemma removeFreeBlock_ok h fl b : flist (words h) fl -> spaced fl -> b ∈ fl ->
  exists h' fl', removeFreeBlock lo b h = Ok (tt, h') /\ fl ≡ₚ b :: fl' /\
    flist (words h') fl' /\ relinked fl h h'.
Proof.
  intros [Hhd Hch] Hsp Hb. apply list_elem_of_split in Hb as (xs & ys & ->).
  pose proof Hch as Hch0. apply chain_app in Hch as [Hxs (Hn & Hp & Hys)]. cbn [hd] in *.
  assert (Hsp' : spaced (xs ++ ys)).
  { eapply spaced_submseteq; [|exact Hsp]. rewrite <- Permutation_middle. by apply submseteq_cons. }
  assert (Hspys : spaced ys).
  { eapply spaced_submseteq; [|exact Hsp']. by apply submseteq_inserts_l. }
  assert (Hnb : forall b', b' ∈ xs ++ ys -> b <> b').
  { intros b' Hb' <-. destruct Hsp as (_ & _ & Hnd). rewrite <- Permutation_middle in Hnd.
    by apply NoDup_cons in Hnd as [? _]. }
  assert (Hlow : forall b', b' ∈ xs ++ b :: ys -> lo < b') by (intros b' Hb'; apply Hsp in Hb'; lia).
  assert (exists p, words h !! prev b = Some p /\
    (p = default p (pred None xs))) as (p & Hpb & Hpv).
  { unfold pred in *. destruct (last xs); [by exists z|]. destruct Hp as [p Hp]. by exists p. }
  unfold removeFreeBlock, FREE_LIST_HEAD, mem_heap_lo.
  step (word_run _ _ _ Hn). step (word_run _ _ _ Hpb).
  set (h1 := mk_heap (match ys with [] => words h | b' :: _ => <[prev b' := p]> (words h) end)
    (mem_brk h)).
  assert (E1 : (if negb (hd 0 ys =? 0) then set_word (prev (hd 0 ys)) p else ret tt) h = Ok (tt, h1)).
  { unfold h1. destruct ys as [|b' ys]; [by destruct h|]. cbn [hd].
    destruct (Z.eqb_spec b' 0); [specialize (Hlow b' ltac:(set_solver)); lia|]. cbn [negb].
    apply set_word_run. cbn in Hys. destruct Hys as (_ & Hpy & _). by eexists. }
  step E1. clear E1.
  assert (R1 : relinked (xs ++ b :: ys) h h1).
  { unfold h1. destruct ys as [|b' ys]; [destruct h; apply relinked_refl|].
    apply relinked_set. right. exists b'. split; [set_solver|by right]. }
  assert (Hhd1 : words h1 !! lo = Some (hd b xs)).
  { assert (hd 0 (xs ++ b :: ys) = hd b xs) as E by by destruct xs. rewrite E in Hhd.
    unfold h1. destruct ys as [|b' ys]; [done|]. cbn. rewrite lookup_insert_ne; [done|].
    specialize (Hlow b' ltac:(set_solver)). unfold prev. lia. }
  step (word_run _ _ _ Hhd1).
  assert (Hys1 : forall q, match q with Some q => p = q | None => True end -> chain (words h1) q ys 0).
  { intros q Hq. by apply (chain_patch _ (Some b)). }
  destruct xs as [|x xs] using rev_ind; [|clear IHxs].
  - cbn [hd]. rewrite Z.eqb_refl, set_word_run by by eexists.
    eexists _, ys; split; [done|]. split; [done|]. cbn [app] in *. split.
    + split; cbn; [by rewrite lookup_insert_eq|]. eapply chain_frame; [|by apply (Hys1 None)].
      intros b' Hb'. specialize (Hlow b' ltac:(set_solver)). unfold next, prev. by look.
    + eapply relinked_trans; [exact R1|]. apply relinked_set. by left.
  - rewrite hd_snoc_any, (pred_snoc None xs x) in *. cbn in Hpv. subst p.
    assert (Hxin : x ∈ (xs ++ [x]) ++ b :: ys) by set_solver.
    assert (Hne : b <> hd x xs) by (apply Hnb; destruct xs; set_solver).
    destruct (Z.eqb_spec b (hd x xs)); [done|].
    destruct (Z.eqb_spec x 0); [specialize (Hlow x Hxin); lia|]. cbn [negb].
    apply chain_app in Hxs as [Hxs (Hnx & Hpx & _)]. cbn [hd] in *.
    assert (Hb1 : forall b', b' ∈ xs ++ [x] -> words h1 !! next b' = words h !! next b' /\
      words h1 !! prev b' = words h !! prev b').
    { intros b' Hb'. unfold h1. destruct ys as [|y ys]; [done|]. cbn.
      destruct (spaced_links _ b' y Hsp) as (? & ? & ? & ?); [set_solver..| |].
      - intros ->. destruct Hsp as (_ & _ & Hnd). apply NoDup_app in Hnd as (_ & Hd & _).
        apply (Hd y Hb'). set_solver.
      - by rewrite !lookup_insert_ne by done. }
    rewrite set_word_run by (destruct (Hb1 x) as [-> _]; [set_solver|by eexists]).
    eexists _, ((xs ++ [x]) ++ ys); split; [done|]. split; [symmetry; apply Permutation_middle|]. split.
    + split; cbn [words].
      * rewrite lookup_insert_ne by (specialize (Hlow x Hxin); unfold next; lia).
        rewrite Hhd1. by destruct xs.
      * assert (Hfr : forall b', b' ∈ xs ++ ys -> x <> b' /\ b' ∈ (xs ++ [x]) ++ b :: ys).
        { intros b' Hb'. split; [|set_solver]. intros <-. destruct Hsp' as (_ & _ & Hnd).
          rewrite <- (assoc_L (++)) in Hnd. cbn [app] in Hnd.
          rewrite <- Permutation_middle in Hnd. by apply NoDup_cons in Hnd as [? _]. }
        assert (Hfr2 : forall b', b' ∈ xs ++ ys ->
          <[next x := hd 0 ys]> (words h1) !! next b' = words h1 !! next b' /\
          <[next x := hd 0 ys]> (words h1) !! prev b' = words h1 !! prev b').
        { intros b' Hb'. destruct (Hfr b' Hb') as [H1 H2].
          destruct (spaced_links _ x b' Hsp Hxin H2 H1) as (? & ? & ? & ?).
          by rewrite !lookup_insert_ne by done. }
        apply chain_app. split; [apply chain_app; split|].
        -- eapply chain_frame; [|exact Hxs]. intros b' Hb'.
           destruct (Hfr2 b') as [-> ->]; [set_solver|]. apply Hb1. set_solver.
        -- cbn. rewrite lookup_insert_eq. split; [done|]. split; [|done].
           assert (E : <[next x := hd 0 ys]> (words h1) !! prev x = words h !! prev x).
           { rewrite lookup_insert_ne by (unfold next, prev; lia). apply Hb1. set_solver. }
           destruct (pred None xs); cbn in *; rewrite E; done.
        -- rewrite pred_snoc. eapply chain_frame; [|by apply (Hys1 (Some x))].
           intros b' Hb'. apply Hfr2. set_solver.
    + eapply relinked_trans; [exact R1|]. apply relinked_set. right. exists x. split; [done|by left].
Qed.
End free_list.
