(* ===== verification/MallocSpec.v ===== *)
(** The allocator of [Malloc] keeps its heap well formed: the blocks tile it, their
    tags are true and the free list holds exactly the free ones; allocating adds
    one block to those in use and freeing takes one away, and neither touches
    what the others hold. *)
From Stdlib Require Import ZArith Lia.
From S2P Require Import Prelude Malloc MallocList.
Open Scope Z_scope.

(** ** Tilings *)

(** The size and tag of the word after a row: the next block's header, or the
    last word of the heap, a used block of size 0. *)
Definition hsize (bs : list blk) : Z := match bs with [] => 0 | b :: _ => b.1 end.
Definition hused (bs : list blk) : bool := match bs with [] => true | b :: _ => b.2 end.

Definition tiled (w : gmap Z Z) (a : Z) (pu : bool) (bs : list blk) : Prop :=
  row w a pu bs /\ w !! (a + total bs) = Some (tagged 0 true (last_used pu bs)).

(** The words that hold tags: the headers, and the footers of free blocks. *)
Definition tag_word (a : Z) (bs : list blk) (x : Z) : Prop :=
  exists p s u, (p, s, u) ∈ placed a bs /\ (x = p \/ (u = false /\ x = p + s - 8)).

Lemma row_ext w w' a pu bs : (forall x, tag_word a bs x -> w' !! x = w !! x) ->
  row w a pu bs -> row w' a pu bs.
Proof.
  revert a pu. induction bs as [|[s u] bs IH]; intros a pu Hx; cbn; [done|].
  intros (H1 & H2 & H3 & H4 & H5). split; [done|]. split; [done|]. split; [|split].
  - rewrite Hx; [done|]. exists a, s, u. split; [by left|by left].
  - intros ->. destruct (H4 eq_refl) as (f & Hf & Hs). exists f. split; [|done].
    rewrite Hx; [done|]. exists a, s, false. split; [by left|by right].
  - apply IH; [|done]. intros x (p & s' & u' & Hin & Hp). apply Hx. exists p, s', u'.
    split; [by right|done].
Qed.

Lemma tag_word_bounds w a pu bs x : row w a pu bs -> tag_word a bs x -> a <= x < a + total bs.
Proof.
  intros Hr (p & s & u & Hin & Hx). pose proof (placed_bounds _ _ _ _ _ _ _ Hr Hin). lia.
Qed.

Lemma tiled_header w a pu xs ys : tiled w a pu (xs ++ ys) ->
  w !! (a + total xs) = Some (tagged (hsize ys) (hused ys) (last_used pu xs)).
Proof.
  intros [Hr He]. apply row_app in Hr as [_ Hr]. destruct ys as [|[s u] ys].
  - by rewrite app_nil_r in He.
  - by destruct Hr as (_ & _ & H & _).
Qed.

(** The word before a row can change its tag of the preceding block. *)
Lemma tiled_retag w w' e p p' post : tiled w e p post ->
  (forall x, e < x -> w' !! x = w !! x) ->
  w' !! e = Some (tagged (hsize post) (hused post) p') -> tiled w' e p' post.
Proof.
  intros [Hr He] Hx Hh. destruct post as [|[s u] post].
  - split; [done|]. cbn in *. by rewrite Z.add_0_r in *.
  - destruct Hr as (H1 & H2 & H3 & H4 & H5). pose proof (row_nonneg _ _ _ _ H5).
    split; [|cbn in *; rewrite Hx by lia; done].
    split; [done|]. split; [done|]. split; [done|]. split.
    + intros Hu. rewrite Hx by lia. auto.
    + eapply row_ext; [|exact H5]. intros x Hin.
      pose proof (tag_word_bounds _ _ _ _ _ H5 Hin). apply Hx. lia.
Qed.

(** A stretch of blocks can be cut differently. *)
Lemma tiled_replace w w' a pu pre mid mid' post :
  let start := a + total pre in
  let e := start + total mid in
  let p := last_used pu pre in
  tiled w a pu (pre ++ mid ++ post) ->
  (forall x, x < start \/ e < x -> w' !! x = w !! x) ->
  row w' start p mid' -> total mid' = total mid ->
  w' !! e = Some (tagged (hsize post) (hused post) (last_used p mid')) ->
  tiled w' a pu (pre ++ mid' ++ post).
Proof.
  intros start e p [Hr He] Hx Hmid Ht Hh.
  apply row_app in Hr as [Hpre Hr]. apply row_app in Hr as [Hmid0 Hpost].
  pose proof (row_nonneg _ _ _ _ Hmid0).
  assert (Hpost' : tiled w' e (last_used p mid') post).
  { eapply tiled_retag; [|intros; apply Hx; by right|exact Hh]. split; [exact Hpost|].
    rewrite !last_used_app, !total_app in He. unfold e, start. by rewrite <- !Z.add_assoc. }
  split.
  - apply row_app. split.
    + eapply row_ext; [|exact Hpre]. intros x Hin.
      pose proof (tag_word_bounds _ _ _ _ _ Hpre Hin). apply Hx. left. unfold start. lia.
    + apply row_app. split; [done|]. fold start p. rewrite Ht. apply Hpost'.
  - destruct Hpost' as [_ He']. rewrite !last_used_app, !total_app, Ht.
    unfold e, start in He'. by rewrite !Z.add_assoc.
Qed.

(** ** Frames *)

(** Only the words in [P] differ. *)
Definition only (P : Z -> Prop) (h h' : heap) : Prop :=
  (forall x, is_Some (words h !! x) -> is_Some (words h' !! x)) /\
  (forall x, ~ P x -> words h' !! x = words h !! x).

Lemma only_refl P h : only P h h.
Proof. by split. Qed.

Lemma only_trans P h1 h2 h3 : only P h1 h2 -> only P h2 h3 -> only P h1 h3.
Proof. intros [H1 H2] [H3 H4]. split; [auto|]. intros x Hx. by rewrite H4, H2. Qed.

Lemma only_mono (P Q : Z -> Prop) h h' : (forall x, P x -> Q x) -> only P h h' -> only Q h h'.
Proof. intros HPQ [H1 H2]. split; [done|]. intros x Hx. apply H2. auto. Qed.

Lemma only_set (P : Z -> Prop) h a v brk : P a -> only P h (mk_heap (<[a := v]> (words h)) brk).
Proof.
  intros Ha. split; cbn.
  - intros x Hx. apply lookup_insert_is_Some'. by right.
  - intros x Hx. rewrite lookup_insert_ne; [done|]. by intros <-.
Qed.

(** The head of the list and the links of the blocks [fl]. *)
Definition link_word (lo : Z) (fl : list Z) (x : Z) : Prop :=
  x = lo \/ exists b, b ∈ fl /\ (x = next b \/ x = prev b).

Lemma relinked_only lo fl h h' : relinked lo fl h h' -> only (link_word lo fl) h h'.
Proof.
  intros (_ & H1 & H2). split; [done|]. intros x Hx. apply H2.
  - intros ->. apply Hx. by left.
  - intros b Hb. split; intros ->; apply Hx; right; exists b; auto.
Qed.

(** The blocks of a list are blocks of the row. *)
Definition within (a : Z) (bs : list blk) (fl : list Z) : Prop :=
  forall b, b ∈ fl -> exists s, (b, s, false) ∈ placed a bs.

Lemma link_not_tag w lo pu bs fl x : row w (lo + 8) pu bs -> within (lo + 8) bs fl ->
  tag_word (lo + 8) bs x \/ x = lo + 8 + total bs -> ~ link_word lo fl x.
Proof.
  intros Hr Hw Hx [->|(b & Hb & Hl)].
  - pose proof (row_nonneg _ _ _ _ Hr).
    destruct Hx as [Hx%(tag_word_bounds _ _ _ _ _ Hr)|]; lia.
  - destruct (Hw b Hb) as (s & Hs). pose proof (placed_bounds _ _ _ _ _ _ _ Hr Hs).
    unfold next, prev in Hl. destruct Hx as [(p & s' & u' & Hin & Hx)|Hx]; [|lia].
    pose proof (placed_bounds _ _ _ _ _ _ _ Hr Hin).
    destruct (placed_apart _ _ _ _ _ _ _ _ _ _ Hr Hs Hin) as [(-> & -> & <-)|?]; lia.
Qed.

Lemma tiled_only lo h h' bs fl : tiled (words h) (lo + 8) true bs -> within (lo + 8) bs fl ->
  only (link_word lo fl) h h' -> tiled (words h') (lo + 8) true bs.
Proof.
  intros [Hr He] Hw [_ Ho]. split.
  - eapply row_ext; [|exact Hr]. intros x Hx. apply Ho. eapply link_not_tag; eauto.
  - rewrite Ho; [done|]. eapply link_not_tag; eauto.
Qed.

Lemma frees_within a bs : within a bs (frees a bs).
Proof.
  intros b. unfold frees. intros ([[b' s] u] & -> & [Hu Hin]%list_elem_of_filter)%list_elem_of_fmap.
  cbn in *. subst. by exists s.
Qed.

Lemma elem_of_frees a bs p : p ∈ frees a bs <-> exists s, (p, s, false) ∈ placed a bs.
Proof.
  split; [apply frees_within|]. intros (s & Hs). unfold frees.
  apply list_elem_of_fmap. exists (p, s, false). split; [done|]. by apply list_elem_of_filter.
Qed.

Lemma elem_of_used a bs p s : (p, s) ∈ used a bs <-> (p, s, true) ∈ placed a bs.
Proof.
  unfold used. rewrite list_elem_of_fmap. split.
  - intros ([[p' s'] u] & [= -> ->] & [Hu Hin]%list_elem_of_filter). cbn in Hu. by subst.
  - intros Hs. exists (p, s, true). split; [done|]. by apply list_elem_of_filter.
Qed.

Lemma frees_nodup w a pu bs : row w a pu bs -> NoDup (frees a bs).
Proof.
  revert a pu. induction bs as [|[s u] bs IH]; intros a pu; [constructor|].
  intros (H1 & _ & _ & _ & Hr). unfold frees. cbn [placed]. rewrite filter_cons. cbn.
  destruct (decide (u = false)); [|by eapply IH]. cbn. apply NoDup_cons. split; [|by eapply IH].
  intros Hin. apply frees_within in Hin as (s' & Hin).
  pose proof (placed_bounds _ _ _ _ _ _ _ Hr Hin). lia.
Qed.

Lemma frees_spaced w lo pu bs : row w (lo + 8) pu bs -> spaced lo (frees (lo + 8) bs).
Proof.
  intros Hr. split; [|split; [|by eapply frees_nodup]].
  - intros b (s & Hs)%frees_within. pose proof (placed_bounds _ _ _ _ _ _ _ Hr Hs). lia.
  - intros b b' (s & Hs)%frees_within (s' & Hs')%frees_within Hne.
    pose proof (placed_bounds _ _ _ _ _ _ _ Hr Hs). pose proof (placed_bounds _ _ _ _ _ _ _ Hr Hs').
    destruct (placed_apart _ _ _ _ _ _ _ _ _ _ Hr Hs Hs') as [(-> & _)|?]; [done|lia].
Qed.

(** ** Coalescing *)

Definition all_free (bs : list blk) : Prop := Forall (fun b => b.2 = false) bs.

Lemma frees_cons_free a s bs : frees a ((s, false) :: bs) = a :: frees (a + s) bs.
Proof. done. Qed.

Lemma all_free_used a bs : all_free bs -> used a bs = [].
Proof.
  intros H. revert a. induction H as [|[s u] bs Hu _ IH]; intros a; [done|]. cbn in Hu. subst.
  apply (IH (a + s)).
Qed.

(** A run of [set_word] on mapped words. *)
Ltac run_set Ha tac :=
  erewrite bind_ok by (apply set_word_run; cbn; repeat (apply lookup_insert_is_Some'; right);
    apply Ha; [lia|tac]); cbn [words mem_brk].

Section coalesce.
Context (lo : Z) (Hlo : 0 < lo).
Abbreviation base := (lo + 8).

(** The list holds blocks of the tiling and is spaced. *)
Definition list_ok (h : heap) (bs : list blk) (fl : list Z) : Prop :=
  tiled (words h) base true bs /\ flist lo (words h) fl /\ spaced lo fl /\ within base bs fl.

Lemma list_ok_remove h bs fl b : list_ok h bs fl -> b ∈ fl ->
  exists h' fl', removeFreeBlock lo b h = Ok (tt, h') /\ fl ≡ₚ b :: fl' /\ list_ok h' bs fl' /\
    mem_brk h' = mem_brk h /\ only (link_word lo fl) h h'.
Proof.
  intros (Ht & Hf & Hs & Hw) Hb.
  destruct (removeFreeBlock_ok lo Hlo h fl b) as (h' & fl' & E & Hp & Hf' & Hr); [done..|].
  pose proof (relinked_only _ _ _ _ Hr) as Ho. destruct Hr as (Hbrk & _).
  exists h', fl'. split; [done|]. split; [done|]. split; [|done].
  assert (Hs' : spaced lo (b :: fl')) by (by eapply spaced_perm).
  split; [by eapply tiled_only|]. split; [done|]. split.
  - eapply spaced_submseteq; [|exact Hs']. by apply submseteq_cons.
  - intros b' Hb'. apply Hw. rewrite Hp. by right.
Qed.

Lemma link_word_mono fl fl' x : fl' ⊆ fl -> link_word lo fl' x -> link_word lo fl x.
Proof. intros Hs [?|(b & Hb & ?)]; [by left|right; exists b; auto]. Qed.

(** The header the word at the end of a prefix is. *)
Lemma list_ok_header h xs ys fl : list_ok h (xs ++ ys) fl ->
  word (base + total xs) h = Ok (tagged (hsize ys) (hused ys) (last_used true xs), h).
Proof. intros (Ht & _). apply word_run. by apply tiled_header. Qed.

Lemma row_sizes w a pu bs : row w a pu bs -> Forall (fun b => 32 <= b.1 /\ b.1 mod 8 = 0) bs.
Proof.
  revert a pu. induction bs as [|[s u] bs IH]; intros a pu; constructor; cbn in *; [tauto|].
  destruct H as (_ & _ & _ & _ & H). by eapply IH.
Qed.

Lemma hsize_mod8 w a pu xs ys : tiled w a pu (xs ++ ys) -> hsize ys mod 8 = 0.
Proof.
  intros [Hr _]. apply row_sizes in Hr. apply Forall_app in Hr as [_ Hr].
  destruct Hr as [|b ys [_ H] _]; done.
Qed.

Lemma coalesce_preceding_ok F pre rest n fuel h fl :
  list_ok h (pre ++ F ++ rest) fl -> last_used true pre = true -> all_free F ->
  frees (base + total pre) F ⊆ fl -> (length F < fuel)%nat ->
  exists h' fl',
    coalesce_preceding lo fuel (base + total pre + total F) n h =
      Ok ((base + total pre, n + total F), h') /\
    fl ≡ₚ frees (base + total pre) F ++ fl' /\ list_ok h' (pre ++ F ++ rest) fl' /\
    mem_brk h' = mem_brk h /\ only (link_word lo fl) h h'.
Proof.
  revert rest n fuel h fl. induction F as [|[s u] F IH] using rev_ind;
    intros rest n [|fuel] h fl Hok Hpre Hfree Hin Hf; try lia; cbn [coalesce_preceding].
  - cbn [total app] in *. rewrite !Z.add_0_r. step (list_ok_header _ _ _ _ Hok). rewrite Hpre.
    destruct (tagged_ops (hsize rest) (hused rest) true) as (_ & _ & -> & _).
    { destruct Hok as [Ht _]. eapply hsize_mod8, Ht. }
    exists h, fl. split; [done|]. split; [done|]. split; [done|]. split; [done|apply only_refl].
  - apply Forall_app in Hfree as [Hfree [Hu _]%Forall_cons]. cbn in Hu. subst u.
    rewrite frees_app in Hin. cbn in Hin. rewrite total_app. cbn [total fst]. rewrite Z.add_0_r.
    rewrite length_app in Hf. cbn in Hf.
    assert (Hok' : list_ok h ((pre ++ F) ++ (s, false) :: rest) fl) by by rewrite <- !(assoc_L (++)) in *.
    pose proof Hok' as (Htile & _ & _ & _).
    pose proof Htile as [Hrow _]. apply row_app in Hrow as [_ (Hs1 & Hs2 & _ & Hft & _)].
    destruct (Hft eq_refl) as (f & Hfw & Hfs). rewrite total_app in Hfw.
    (* the tag *)
    assert (E1 : word (sizeAndTags (base + total pre + (total F + s))) h =
      Ok (tagged (hsize rest) (hused rest) false, h)).
    { pose proof (list_ok_header h (pre ++ F ++ [(s, false)]) rest fl) as H.
      rewrite !last_used_app, !total_app in H. cbn in H. unfold sizeAndTags.
      replace (base + total pre + (total F + s)) with (base + (total pre + (total F + (s + 0)))) by lia.
      apply H. by rewrite <- !(assoc_L (++)) in *. }
    step E1. destruct (tagged_ops (hsize rest) (hused rest) false) as (_ & _ & -> & _).
    { eapply (hsize_mod8 _ _ _ (pre ++ F ++ [(s, false)])). rewrite <- !(assoc_L (++)) in *. apply Hok. }
    (* the footer *)
    assert (E2 : word (base + total pre + (total F + s) - WORD_SIZE) h = Ok (f, h)).
    { apply word_run. rewrite <- Hfw. f_equal. unfold WORD_SIZE. lia. }
    step E2. rewrite Hfs.
    replace (base + total pre + (total F + s) - s) with (base + total pre + total F) by lia.
    destruct (list_ok_remove h _ fl (base + total pre + total F) Hok')
      as (h1 & fl1 & E3 & Hp1 & Hok1 & Hb1 & Ho1).
    { apply Hin. apply elem_of_app. right. by left. }
    step E3.
    destruct (IH ((s, false) :: rest) (n + s) fuel h1 fl1) as (h2 & fl2 & E4 & Hp2 & Hok2 & Hb2 & Ho2).
    + by rewrite (assoc_L (++)).
    + done.
    + done.
    + intros b Hb. assert (Hb' : b ∈ fl) by (apply Hin, elem_of_app; by left).
      rewrite Hp1 in Hb'. apply elem_of_cons in Hb' as [->|]; [|done].
      exfalso. apply frees_within in Hb as (s' & Hb).
      apply proj1 in Htile. apply row_app in Htile as [Htile _]. apply row_app in Htile as [_ Htile].
      pose proof (placed_bounds _ _ _ _ _ _ _ Htile Hb). lia.
    + lia.
    + exists h2, fl2. rewrite E4. split; [do 3 f_equal; lia|]. split; [|split; [|split]].
      * rewrite frees_app, Hp1, Hp2. cbn. rewrite Permutation_middle. by rewrite <- (assoc_L (++)).
      * by rewrite <- (assoc_L (++)).
      * congruence.
      * eapply only_trans; [exact Ho1|]. eapply only_mono; [|exact Ho2]. intros x. apply link_word_mono.
        intros b Hb. rewrite Hp1. by right.
Qed.

(** A block taken off the list is not among others. *)
Lemma frees_other w a pu xs ys fl fl1 b : row w a pu (xs ++ ys) ->
  fl ≡ₚ b :: fl1 ->
  (frees a xs ⊆ fl -> b ∈ frees (a + total xs) ys -> frees a xs ⊆ fl1) /\
  (frees (a + total xs) ys ⊆ fl -> b ∈ frees a xs -> frees (a + total xs) ys ⊆ fl1).
Proof.
  intros Hr Hp. pose proof (frees_nodup _ _ _ _ Hr) as Hnd. rewrite frees_app in Hnd.
  apply NoDup_app in Hnd as (_ & Hnd & _).
  split; intros Hin Hb b' Hb'; pose proof (Hin b' Hb') as H; rewrite Hp in H;
    apply elem_of_cons in H as [->|]; try done; exfalso; by eapply Hnd.
Qed.

Lemma coalesce_following_ok F pre post n fuel h fl :
  list_ok h (pre ++ F ++ post) fl -> hused post = true -> all_free F ->
  frees (base + total pre) F ⊆ fl -> (length F < fuel)%nat ->
  exists h' fl',
    coalesce_following lo fuel (base + total pre) n h =
      Ok ((base + total pre + total F, n + total F), h') /\
    fl ≡ₚ frees (base + total pre) F ++ fl' /\ list_ok h' (pre ++ F ++ post) fl' /\
    mem_brk h' = mem_brk h /\ only (link_word lo fl) h h'.
Proof.
  revert pre n fuel h fl. induction F as [|[s u] F IH];
    intros pre n [|fuel] h fl Hok Hpost Hfree Hin Hf; try (cbn in Hf; lia); cbn [coalesce_following];
    step (list_ok_header _ _ _ _ Hok);
    pose proof (hsize_mod8 _ _ _ _ _ (proj1 Hok)) as Hm.
  - destruct (tagged_ops (hsize post) true (last_used true pre) Hm) as (_ & Hun & _).
    cbn [app] in *. rewrite Hpost, Hun. cbn [total]. rewrite !Z.add_0_r.
    exists h, fl. split; [done|]. split; [done|]. split; [done|]. split; [done|apply only_refl].
  - apply Forall_cons in Hfree as [Hu Hfree]. cbn in Hu. subst u. cbn [hused hsize app fst snd] in *.
    destruct (tagged_ops s false (last_used true pre) Hm) as (Hsz & Hun & _).
    rewrite Hun, Hsz. rewrite frees_cons_free in *.
    destruct (list_ok_remove h _ fl (base + total pre) Hok)
      as (h1 & fl1 & E1 & Hp1 & Hok1 & Hb1 & Ho1); [apply Hin; by left|].
    step E1.
    assert (Ht : total (pre ++ [(s, false)]) = total pre + s) by (rewrite total_app; cbn; lia).
    destruct (IH (pre ++ [(s, false)]) (n + s) fuel h1 fl1) as (h2 & fl2 & E2 & Hp2 & Hok2 & Hb2 & Ho2).
    + by rewrite <- (assoc_L (++)).
    + done.
    + done.
    + rewrite Ht, Z.add_assoc. destruct Hok as ((Hr & _) & _). apply row_app in Hr as [_ Hr].
      change ((s, false) :: F ++ post) with ([(s, false)] ++ F ++ post) in Hr.
      rewrite (assoc_L (++)) in Hr. apply row_app in Hr as [Hr _].
      destruct (frees_other _ _ _ _ _ _ _ _ Hr Hp1) as [_ H]. cbn in H. rewrite Z.add_0_r in H.
      apply H; [|by left]. intros b Hb. apply Hin. by right.
    + cbn in Hf. lia.
    + rewrite Ht, !Z.add_assoc in *. exists h2, fl2. rewrite E2. cbn [total fst].
      split; [do 3 f_equal; lia|]. split; [|split; [|split]].
      * by rewrite Hp1, Hp2.
      * by rewrite <- (assoc_L (++)) in Hok2.
      * congruence.
      * eapply only_trans; [exact Ho1|]. eapply only_mono; [|exact Ho2]. intros x. apply link_word_mono.
        intros b Hb. rewrite Hp1. by right.
Qed.

(** A row splits at its last run of free blocks, or its first. *)
Lemma split_last_free pu bs : pu = true ->
  exists pre F, bs = pre ++ F /\ last_used pu pre = true /\ all_free F.
Proof.
  intros ->. induction bs as [|[s [|]] bs (pre & F & -> & Hl & Hf)] using rev_ind.
  - exists [], []. split; [done|]. split; [done|constructor].
  - exists ((pre ++ F) ++ [(s, true)]), []. rewrite app_nil_r. split; [done|]. split; [|constructor].
    by rewrite last_used_app.
  - exists pre, (F ++ [(s, false)]). rewrite (assoc_L (++)). split; [done|]. split; [done|].
    apply Forall_app. split; [done|by constructor].
Qed.

Lemma split_first_free bs : exists F post, bs = F ++ post /\ all_free F /\ hused post = true.
Proof.
  induction bs as [|[s [|]] bs (F & post & -> & Hf & Hp)].
  - exists [], []. split; [done|]. split; [constructor|done].
  - exists [], ((s, true) :: F ++ post). split; [done|]. split; [constructor|done].
  - exists ((s, false) :: F), post. split; [done|]. split; [by constructor|done].
Qed.

(** ** Well-formed heaps *)

Context (Halign : lo mod 8 = 0).

Record heap_ok (h : heap) (bs : list blk) (fl : list Z) : Prop := {
  ok_area : forall x, lo <= x < lo + MAX_HEAP -> x mod 8 = 0 -> is_Some (words h !! x);
  ok_brk : mem_brk h = base + total bs + 8;
  ok_max : mem_brk h <= lo + MAX_HEAP;
  ok_tiled : tiled (words h) base true bs;
  ok_flist : flist lo (words h) fl;
  ok_frees : fl ≡ₚ frees base bs
}.

(** What the blocks in use hold is kept; [skip] is the address of the one that need not. *)
Definition kept (skip : Z) (bs : list blk) (h h' : heap) : Prop :=
  forall p s x, (p, s) ∈ used base bs -> p <> skip -> p + 8 <= x < p + s ->
    words h' !! x = words h !! x.

Lemma placed_split a bs p s u : (p, s, u) ∈ placed a bs ->
  exists xs ys, bs = xs ++ (s, u) :: ys /\ p = a + total xs.
Proof.
  revert a. induction bs as [|[s' u'] bs IH]; intros a; cbn; [by intros ?%elem_of_nil|].
  intros [[= -> -> ->]|H]%elem_of_cons.
  - exists [], bs. cbn. split; [done|lia].
  - destruct (IH _ H) as (xs & ys & -> & ->). exists ((s', u') :: xs), ys. cbn. split; [done|lia].
Qed.

Lemma heap_list_ok h bs fl : heap_ok h bs fl -> list_ok h bs fl.
Proof.
  intros H. split; [apply H|]. split; [apply H|]. split.
  - eapply spaced_perm; [symmetry; apply H|]. eapply frees_spaced. apply (ok_tiled _ _ _ H).
  - intros b Hb. rewrite (ok_frees _ _ _ H) in Hb. by apply frees_within.
Qed.

(** The words of a heap that can be written. *)
Lemma heap_mapped h bs fl x : heap_ok h bs fl -> lo <= x <= base + total bs -> x mod 8 = 0 ->
  is_Some (words h !! x).
Proof.
  intros H Hx. apply (ok_area _ _ _ H). pose proof (ok_brk _ _ _ H). pose proof (ok_max _ _ _ H). lia.
Qed.

Lemma row_total_mod8 w a pu bs : row w a pu bs -> total bs mod 8 = 0.
Proof.
  intros H%row_sizes. induction H as [|[s u] bs [_ Hs] _ IH]; [done|]. cbn in *.
  by rewrite Zplus_mod, Hs, IH.
Qed.

Lemma mod8_add x y : x mod 8 = 0 -> y mod 8 = 0 -> (x + y) mod 8 = 0.
Proof. intros Hx Hy. by rewrite Zplus_mod, Hx, Hy. Qed.
Lemma mod8_sub x y : x mod 8 = 0 -> y mod 8 = 0 -> (x - y) mod 8 = 0.
Proof. intros Hx Hy. by rewrite Zminus_mod, Hx, Hy. Qed.

(** What a block in use outside a stretch holds is outside the stretch and no link. *)
Lemma kept_outside w pre mid post fl p s x : row w base true (pre ++ mid ++ post) ->
  within base (pre ++ mid ++ post) fl -> (p, s) ∈ used base (pre ++ mid ++ post) ->
  (p, s) ∉ used (base + total pre) mid -> p + 8 <= x < p + s ->
  ~ link_word lo fl x /\ (x < base + total pre \/ base + total pre + total mid < x).
Proof.
  intros Hr Hw Hu Hm Hx. apply elem_of_used in Hu as Hp.
  pose proof (placed_bounds _ _ _ _ _ _ _ Hr Hp) as Hb. split.
  - intros [->|(b & Hin & Hl)]; [lia|]. destruct (Hw b Hin) as (s' & Hs').
    pose proof (placed_bounds _ _ _ _ _ _ _ Hr Hs').
    destruct (placed_apart _ _ _ _ _ _ _ _ _ _ Hr Hp Hs') as [(_ & _ & [=])|?].
    unfold next, prev in Hl. lia.
  - rewrite !used_app in Hu. apply row_app in Hr as [Hr1 Hr]. apply row_app in Hr as [Hr2 Hr3].
    apply elem_of_app in Hu as [Hu|[Hu|Hu]%elem_of_app]; [|done|]; apply elem_of_used in Hu.
    + pose proof (placed_bounds _ _ _ _ _ _ _ Hr1 Hu). lia.
    + pose proof (placed_bounds _ _ _ _ _ _ _ Hr3 Hu). lia.
Qed.

Lemma flist_frame w w' fl : flist lo w fl -> w' !! lo = w !! lo ->
  (forall b, b ∈ fl -> w' !! next b = w !! next b /\ w' !! prev b = w !! prev b) -> flist lo w' fl.
Proof. intros [H1 H2] Hl Hb. split; [by rewrite Hl|]. by eapply chain_frame. Qed.

(** Inserting a free block that the list lacks completes it. *)
Lemma insert_completes h bs fl b s :
  (forall x, lo <= x < lo + MAX_HEAP -> x mod 8 = 0 -> is_Some (words h !! x)) ->
  mem_brk h = base + total bs + 8 -> mem_brk h <= lo + MAX_HEAP ->
  tiled (words h) base true bs -> flist lo (words h) fl ->
  (b, s, false) ∈ placed base bs -> frees base bs ≡ₚ b :: fl ->
  exists h', insertFreeBlock lo b h = Ok (tt, h') /\ heap_ok h' bs (b :: fl) /\
    mem_brk h' = mem_brk h /\ only (link_word lo (frees base bs)) h h'.
Proof.
  intros Ha Hbrk Hmax Ht Hf Hb Hp. pose proof Ht as [Hr _].
  pose proof (placed_bounds _ _ _ _ _ _ _ Hr Hb) as (H1 & H2 & H3 & H4 & _).
  assert (Hb8 : b mod 8 = 0).
  { replace b with ((b - base) + (lo + 8)) by lia. apply mod8_add; [done|by apply mod8_add]. }
  destruct (insertFreeBlock_ok lo Hlo h fl b) as (h' & E & Hf' & Hrl).
  - done.
  - eapply spaced_perm; [exact Hp|]. by eapply frees_spaced.
  - apply Ha; unfold next; [lia|by apply mod8_add].
  - apply Ha; unfold prev; [lia|by apply mod8_add].
  - assert (Ho : only (link_word lo (frees base bs)) h h').
    { eapply only_mono; [|by apply relinked_only]. intros x. apply link_word_mono.
      intros c Hc. by rewrite Hp. }
    destruct Hrl as (Hbrk' & _). exists h'. split; [done|]. split; [|done]. split.
    + intros x Hx Hx8. apply Ho. auto.
    + congruence.
    + congruence.
    + eapply tiled_only; [done|apply frees_within|done].
    + done.
    + by symmetry.
Qed.

Lemma total_zero w a pu bs : row w a pu bs -> total bs = 0 -> bs = [].
Proof.
  destruct bs as [|[s u] bs]; [done|]. cbn. intros (? & _ & _ & _ & H%row_nonneg). lia.
Qed.

Lemma hused_last_free pu p F s : all_free F -> last_used pu (p ++ (s, false) :: F) = false.
Proof.
  intros H. rewrite last_used_app. cbn. induction H as [|[s' u] F Hu _ IH]; [done|].
  cbn in *. by subst.
Qed.

(** Writing the header and footer of one free block over a stretch that ends free. *)
Lemma tile_merged h pre mid post :
  let start := base + total pre in
  let v := tagged (total mid) false true in
  tiled (words h) base true (pre ++ mid ++ post) -> last_used true pre = true ->
  last_used true mid = false -> 32 <= total mid -> mid <> [] ->
  tiled (<[start + total mid - 8 := v]> (<[start := v]> (words h))) base true
    (pre ++ [(total mid, false)] ++ post).
Proof.
  intros start v Ht Hpre Hmid Hsize Hne. pose proof Ht as [Hr _].
  apply row_app in Hr as [_ Hr]. apply row_app in Hr as [Hr _]. apply row_total_mod8 in Hr as H8.
  eapply (tiled_replace (words h)); [exact Ht|..]; fold start.
  - intros x Hx. by look.
  - rewrite Hpre. cbn. split; [done|]. split; [done|]. look. split; [done|]. split; [|done].
    intros _. exists v. look. split; [done|]. by apply tagged_ops.
  - cbn. lia.
  - look. rewrite (assoc_L (++)) in Ht. pose proof (tiled_header _ _ _ _ _ Ht) as Hh.
    rewrite last_used_app, total_app, Z.add_assoc, Hpre, Hmid in Hh. exact Hh.
Qed.

Section stretch.
Context (pre F1 F2 post : list blk) (s : Z).
Let mid := F1 ++ (s, false) :: F2.
Let bs := pre ++ mid ++ post.
Let start := base + total pre.
Let old := start + total F1.
Context (Hpre : last_used true pre = true) (Hpost : hused post = true)
  (Hf1 : all_free F1) (Hf2 : all_free F2).

Lemma stretch_assoc : bs = (pre ++ F1) ++ (s, false) :: F2 ++ post.
Proof. unfold bs, mid. by rewrite <- !(assoc_L (++)). Qed.

Lemma stretch_total : total mid = total F1 + s + total F2.
Proof. unfold mid. rewrite total_app. cbn. lia. Qed.

Lemma stretch_frees : frees base bs =
  frees base pre ++ (frees start F1 ++ old :: frees (old + s) F2) ++ frees (start + total mid) post.
Proof. unfold bs. rewrite !frees_app. unfold mid at 1. by rewrite frees_app. Qed.

Lemma stretch_sizes w : row w base true bs ->
  32 <= s /\ s mod 8 = 0 /\ 0 <= total F1 /\ 0 <= total F2 /\
  row w start true F1 /\ exists pu, row w (old + s) pu F2.
Proof.
  rewrite stretch_assoc. intros Hr. apply row_app in Hr as [Hr1 Hr]. apply row_app in Hr1 as [_ Hr1].
  destruct Hr as (? & ? & _ & _ & Hr). apply row_app in Hr as [Hr2 _].
  rewrite total_app, Z.add_assoc in Hr2. fold start old in Hr2. rewrite Hpre in Hr1.
  pose proof (row_nonneg _ _ _ _ Hr1). pose proof (row_nonneg _ _ _ _ Hr2).
  do 4 (split; [done|]). split; [done|]. by eexists.
Qed.

(** The two loops take the other free blocks of the stretch off the list. *)
Lemma coalesce_loops fuel h fl : heap_ok h bs fl -> (length bs < fuel)%nat ->
  exists h1 h2 fl2,
    coalesce_preceding lo fuel old s h = Ok ((start, s + total F1), h1) /\
    coalesce_following lo fuel (old + s) (s + total F1) h1 = Ok ((start + total mid, total mid), h2) /\
    fl2 ≡ₚ old :: frees base pre ++ frees (start + total mid) post /\ list_ok h2 bs fl2 /\
    mem_brk h2 = mem_brk h /\ only (link_word lo fl) h h2.
Proof.
  intros Hok Hfuel. pose proof (heap_list_ok _ _ _ Hok) as Hlok.
  pose proof (ok_frees _ _ _ Hok) as Hfr. rewrite stretch_frees in Hfr.
  unfold bs, mid in Hfuel. rewrite !length_app in Hfuel. cbn in Hfuel.
  destruct (coalesce_preceding_ok F1 pre ((s, false) :: F2 ++ post) s fuel h fl)
    as (h1 & fl1 & E1 & Hp1 & Hok1 & Hb1 & Ho1).
  { by rewrite (assoc_L (++)), <- stretch_assoc. }
  { done. } { done. } { fold start. intros c Hc. rewrite Hfr. set_solver. } { lia. }
  fold start old in E1, Hp1.
  assert (Hfl1 : fl1 ≡ₚ old :: frees (old + s) F2 ++ frees base pre ++ frees (start + total mid) post).
  { apply (Permutation_app_inv_l (frees start F1)). rewrite <- Hp1, Hfr. solve_Permutation. }
  assert (Hat : base + total (pre ++ F1 ++ [(s, false)]) = old + s)
    by (rewrite !total_app; cbn [total fst]; unfold old, start; lia).
  destruct (coalesce_following_ok F2 (pre ++ F1 ++ [(s, false)]) post (s + total F1) fuel h1 fl1)
    as (h2 & fl2 & E2 & Hp2 & Hok2 & Hb2 & Ho2); rewrite ?Hat in *.
  { rewrite <- !(assoc_L (++)). exact Hok1. }
  { done. } { done. } { intros c Hc. rewrite Hfl1. set_solver. } { lia. }
  exists h1, h2, fl2. split; [done|]. split.
  { rewrite E2, stretch_total. unfold old. do 3 f_equal; lia. }
  split; [|split; [|split]].
  - apply (Permutation_app_inv_l (frees (old + s) F2)). rewrite <- Hp2, Hfl1. solve_Permutation.
  - rewrite <- !(assoc_L (++)) in Hok2. cbn [app] in Hok2. unfold bs, mid. by rewrite <- !(assoc_L (++)).
  - congruence.
  - eapply only_trans; [exact Ho1|]. eapply only_mono; [|exact Ho2]. intros x. apply link_word_mono.
    intros c Hc. rewrite Hp1. set_solver.
Qed.

(** The merged block replaces the stretch. *)
Lemma coalesce_rebuild h2 fl2 : list_ok h2 bs fl2 ->
  (forall x, lo <= x < lo + MAX_HEAP -> x mod 8 = 0 -> is_Some (words h2 !! x)) ->
  mem_brk h2 = base + total bs + 8 -> mem_brk h2 <= lo + MAX_HEAP ->
  fl2 ≡ₚ old :: frees base pre ++ frees (start + total mid) post ->
  let bs' := pre ++ [(total mid, false)] ++ post in
  exists h' fl',
    (do* removeFreeBlock lo old;
     do* set_word start (Z.lor (total mid) TAG_PRECEDING_USED);
     do* set_word (start + total mid - WORD_SIZE) (Z.lor (total mid) TAG_PRECEDING_USED);
     insertFreeBlock lo start) h2 = Ok (tt, h') /\
    heap_ok h' bs' fl' /\ mem_brk h' = mem_brk h2 /\
    only (fun x => link_word lo (frees base bs) x \/ link_word lo (frees base bs') x \/
                   start <= x < start + total mid) h2 h'.
Proof.
  intros Hok Ha Hbrk Hmax Hfl2 bs'. pose proof Hok as (Ht & _ & _ & Hw2).
  destruct (stretch_sizes _ (proj1 Ht)) as (Hs & Hs8 & Ht1 & Ht2 & _).
  pose proof stretch_total as Htot.
  destruct (list_ok_remove h2 bs fl2 old Hok) as (h3 & fl3 & E3 & Hp3 & Hok3 & Hb3 & Ho3).
  { rewrite Hfl2. by left. }
  rewrite Hfl2 in Hp3. apply Permutation_cons_inv in Hp3.
  step E3.
  (* the tags *)
  pose proof Hok3 as (Ht3 & Hf3 & _ & Hw3). pose proof Ht3 as [Hr3 _]. apply row_total_mod8 in Hr3 as Htm.
  assert (Hm8 : total mid mod 8 = 0).
  { unfold bs in Hr3. apply row_app in Hr3 as [_ Hr3]. apply row_app in Hr3 as [Hr3 _].
    by eapply row_total_mod8. }
  assert (Hp8 : start mod 8 = 0).
  { unfold bs in Hr3. apply row_app in Hr3 as [Hr3 _]. apply row_total_mod8 in Hr3.
    unfold start. apply mod8_add; [by apply mod8_add|done]. }
  assert (Hpost0 : 0 <= total post /\ 0 <= total pre).
  { unfold bs in Hr3. apply row_app in Hr3 as [H1 Hr3]. apply row_app in Hr3 as [_ Hr3].
    split; by eapply row_nonneg. }
  assert (Ha3 : forall x, lo <= x < lo + MAX_HEAP -> x mod 8 = 0 -> is_Some (words h3 !! x))
    by (intros; apply Ho3; auto).
  unfold bs in Hbrk. rewrite !total_app in Hbrk.
  destruct (tagged_new (total mid) true Hm8) as [_ ->]. unfold WORD_SIZE.
  erewrite bind_ok by (apply set_word_run, Ha3; [unfold start in *; lia|done]).
  erewrite bind_ok by (apply set_word_run; cbn; apply lookup_insert_is_Some'; right; apply Ha3;
    [unfold start in *; lia|by apply mod8_sub; [apply mod8_add|]]). cbn [words mem_brk].
  set (v := tagged (total mid) false true).
  set (h4 := mk_heap (<[start + total mid - 8 := v]> (<[start := v]> (words h3))) (mem_brk h3)).
  assert (Hmne : mid <> []) by (unfold mid; by destruct F1).
  pose proof (tile_merged h3 pre mid post Ht3 Hpre (hused_last_free true F1 F2 s Hf2) ltac:(lia) Hmne) as Ht4.
  fold start v in Ht4.
  destruct (insert_completes h4 bs' fl3 start (total mid)) as (h5 & E5 & Hok5 & Hb5 & Ho5).
  - intros x Hx Hx8. cbn. do 2 (apply lookup_insert_is_Some'; right). auto.
  - cbn. unfold bs'. rewrite !total_app. cbn. lia.
  - cbn. lia.
  - exact Ht4.
  - cbn. eapply flist_frame; [exact Hf3|by look|]. intros b Hb. rewrite <- Hp3 in Hb.
    assert (Hout : b + 32 <= start \/ start + total mid <= b).
    { destruct Ht3 as [Hr _]. unfold bs in Hr. apply row_app in Hr as [Hr1 Hr].
      apply row_app in Hr as [_ Hr2]. fold start in Hr2.
      apply elem_of_app in Hb as [Hb|Hb]; apply frees_within in Hb as (sb & Hb).
      - pose proof (placed_bounds _ _ _ _ _ _ _ Hr1 Hb). unfold start. lia.
      - pose proof (placed_bounds _ _ _ _ _ _ _ Hr2 Hb). lia. }
    unfold next, prev. by look.
  - unfold bs'. rewrite placed_app. apply elem_of_app. right. by left.
  - unfold bs'. rewrite !frees_app. cbn. rewrite <- Hp3, Z.add_0_r. fold start. solve_Permutation.
  - exists h5, (start :: fl3). split; [exact E5|]. split; [done|]. split; [cbn in Hb5; congruence|].
    eapply only_trans; [|eapply only_trans].
    + eapply only_mono; [|exact Ho3]. cbn. intros x Hx. left. eapply link_word_mono; [|exact Hx].
      intros c Hc. rewrite Hfl2 in Hc. rewrite stretch_frees. set_solver.
    + apply (only_trans _ _ (mk_heap (<[start := v]> (words h3)) (mem_brk h3)));
        [apply only_set|apply (only_set _ (mk_heap (<[start := v]> (words h3)) (mem_brk h3))
          (start + total mid - 8) v)]; right; right; lia.
    + eapply only_mono; [|exact Ho5]. cbn. intros x Hx. by right; left.
Qed.
End stretch.

(** What blocks in use hold survives a change of free blocks and links. *)
Lemma kept_stretch h h' pre mid mid' post : row (words h) base true (pre ++ mid ++ post) ->
  all_free mid -> row (words h') base true (pre ++ mid' ++ post) -> all_free mid' ->
  total mid' = total mid ->
  only (fun x => link_word lo (frees base (pre ++ mid ++ post)) x \/
     link_word lo (frees base (pre ++ mid' ++ post)) x \/
     base + total pre <= x < base + total pre + total mid) h h' ->
  forall skip, kept skip (pre ++ mid ++ post) h h'.
Proof.
  intros Hr Hm Hr' Hm' Ht [_ Ho] skip p s x Hu _ Hx. apply Ho.
  destruct (kept_outside _ _ _ _ _ _ _ x Hr (frees_within _ _) Hu) as [H1 H2].
  { rewrite all_free_used by done. by apply not_elem_of_nil. } { done. }
  assert (Hu' : (p, s) ∈ used base (pre ++ mid' ++ post)).
  { rewrite !used_app in Hu |- *. rewrite (all_free_used _ mid) in Hu by done.
    rewrite (all_free_used _ mid') by done. by rewrite Ht. }
  destruct (kept_outside _ _ _ _ _ _ _ x Hr' (frees_within _ _) Hu') as [H3 _].
  { rewrite all_free_used by done. by apply not_elem_of_nil. } { done. }
  intros [?|[?|?]]; [done|done|lia].
Qed.

Lemma coalesceFreeBlock_ok fuel h bs fl b s : heap_ok h bs fl ->
  (b, s, false) ∈ placed base bs -> (length bs < fuel)%nat ->
  exists h' bs' fl', coalesceFreeBlock lo fuel b h = Ok (tt, h') /\ heap_ok h' bs' fl' /\
    used base bs' = used base bs /\ (forall skip, kept skip bs h h') /\ mem_brk h' = mem_brk h /\
    (length bs' <= length bs)%nat /\
    exists p' s', (p', s', false) ∈ placed base bs' /\ s <= s'.
Proof.
  intros Hok Hb Hfuel. pose proof (ok_tiled _ _ _ Hok) as Ht0.
  destruct (placed_split _ _ _ _ _ Hb) as (xs & ys & -> & ->).
  destruct (split_last_free true xs eq_refl) as (pre & F1 & -> & Hpre & Hf1).
  destruct (split_first_free ys) as (F2 & post & -> & Hf2 & Hpost).
  rewrite <- stretch_assoc in *. set (mid := F1 ++ (s, false) :: F2) in *.
  assert (Hmfree : all_free mid) by (apply Forall_app; split; [done|by constructor]).
  destruct (stretch_sizes pre F1 F2 post s Hpre (words h) (proj1 Ht0)) as (Hs & Hs8 & Ht1 & Ht2 & Hr1 & pu & Hr2).
  pose proof (stretch_total pre F1 F2 s) as Htot. fold mid in Htot.
  destruct (coalesce_loops pre F1 F2 post s Hpre Hpost Hf1 Hf2 fuel h fl Hok Hfuel)
    as (h1 & h2 & fl2 & E1 & E2 & Hfl2 & Hok2 & Hb2 & Ho2). fold mid in E2, Hfl2, Hok2.
  rewrite total_app, Z.add_assoc. unfold coalesceFreeBlock, sizeAndTags.
  assert (E0 : word (base + total pre + total F1) h = Ok (tagged s false (last_used true (pre ++ F1)), h)).
  { apply word_run. rewrite <- Z.add_assoc, <- total_app.
    apply (tiled_header _ _ _ _ ((s, false) :: F2 ++ post)). by rewrite <- stretch_assoc. }
  step E0. destruct (tagged_ops s false (last_used true (pre ++ F1)) Hs8) as (-> & _).
  step E1. step E2. destruct (Z.eqb_spec (total mid) s) as [Heq|Hne]; cbn [negb].
  - assert (F1 = []) as -> by (eapply total_zero; [exact Hr1|lia]).
    assert (F2 = []) as -> by (eapply total_zero; [exact Hr2|lia]).
    exists h2, (pre ++ mid ++ post), fl2. split; [done|]. split; [|split; [done|split; [|split; [done|split]]]].
    + destruct Hok as [Ka Kb Km _ _ _]. split; try congruence; [|apply Hok2..|].
      * intros x Hx Hx8. apply Ho2. auto.
      * rewrite Hfl2. unfold mid. rewrite (stretch_frees pre [] [] post s). cbn. rewrite !Z.add_0_r.
        solve_Permutation.
    + eapply (kept_stretch _ _ _ _ mid); try done; [apply Ht0|apply Hok2|].
      eapply only_mono; [|exact Ho2]. intros x Hx. left. eapply link_word_mono; [|exact Hx].
      intros c. by rewrite (ok_frees _ _ _ Hok).
    + done.
    + exists (base + total pre), s. split; [|lia]. rewrite placed_app. apply elem_of_app. right. by left.
  - destruct (coalesce_rebuild pre F1 F2 post s Hpre Hpost Hf1 Hf2 h2 fl2) as (h3 & fl3 & E3 & Hok3 & Hb3 & Ho3);
      fold mid; fold mid in Hok2.
    + done.
    + intros x Hx Hx8. apply Ho2. by apply (ok_area _ _ _ Hok).
    + rewrite Hb2. apply Hok.
    + rewrite Hb2. apply Hok.
    + done.
    + fold mid in E3, Hok3, Ho3. exists h3, (pre ++ [(total mid, false)] ++ post), fl3.
      split; [exact E3|]. split; [done|]. split; [|split; [|split; [congruence|split]]].
      * rewrite !used_app. rewrite (all_free_used _ mid) by done. cbn. by rewrite Z.add_0_r.
      * eapply (kept_stretch _ _ _ _ [(total mid, false)]); [apply Ht0|done|apply Hok3|by constructor|cbn; lia|].
        eapply only_trans; [|exact Ho3]. eapply only_mono; [|exact Ho2]. intros x Hx. left.
        eapply link_word_mono; [|exact Hx]. intros c. by rewrite (ok_frees _ _ _ Hok).
      * rewrite !length_app. unfold mid. rewrite length_app. cbn. lia.
      * exists (base + total pre), (total mid). split; [|lia].
        rewrite placed_app. apply elem_of_app. right. by left.
Qed.

(** ** Searching *)

Lemma search_loop_ok h bs p fl all fuel req : tiled (words h) base true bs ->
  within base bs all -> fl ⊆ all -> chain (words h) p fl 0 -> (length fl < fuel)%nat ->
  exists r, searchFreeList_loop fuel (hd 0 fl) req h = Ok (r, h) /\
    ((r = 0 /\ forall b s, b ∈ fl -> (b, s, false) ∈ placed base bs -> s < req) \/
     (r <> 0 /\ exists s, (r, s, false) ∈ placed base bs /\ req <= s /\ r ∈ all)).
Proof.
  intros Ht Hw. revert p fuel. induction fl as [|b fl IH]; intros p [|fuel] Hin Hc Hf;
    try (cbn in Hf; lia); cbn [searchFreeList_loop hd].
  - exists 0. change (0 =? 0) with true. split; [done|]. left. split; [done|].
    by intros b s ?%elem_of_nil.
  - destruct (Hw b) as (s & Hs); [apply Hin; by left|]. destruct Ht as [Hr He].
    pose proof (placed_bounds _ _ _ _ _ _ _ Hr Hs) as (Hb & _).
    destruct (Z.eqb_spec b 0); [lia|]. destruct Hc as (Hn & _ & Hc).
    destruct (placed_split _ _ _ _ _ Hs) as (xs & ys & -> & ->).
    pose proof (tiled_header _ _ _ xs ((s, false) :: ys) (conj Hr He)) as Hh. cbn in Hh.
    unfold sizeAndTags. step (word_run _ _ _ Hh).
    destruct (tagged_ops s false (last_used true xs)) as (-> & _).
    { apply row_app in Hr as [_ (_ & H & _)]. done. }
    destruct (Z.leb_spec req s).
    + exists (base + total xs). split; [done|]. right. split; [done|]. exists s.
      split; [done|]. split; [done|]. apply Hin. by left.
    + step (word_run _ _ _ Hn).
      destruct (IH (Some (base + total xs)) fuel) as (r & E & Hres);
        [intros c Hc'; apply Hin; by right|done|cbn in Hf; lia|].
      exists r. split; [done|]. destruct Hres as [[Hr0 Hall]|?]; [left|by right].
      split; [done|]. intros c sc [->|Hc']%elem_of_cons Hcs; [|by eapply Hall].
      destruct (placed_apart _ _ _ _ _ _ _ _ _ _ Hr Hs Hcs) as [(_ & -> & _)|?]; [lia|].
      pose proof (placed_bounds _ _ _ _ _ _ _ Hr Hcs). pose proof (placed_bounds _ _ _ _ _ _ _ Hr Hs). lia.
Qed.

Lemma searchFreeList_ok h bs fl fuel req : heap_ok h bs fl -> (length bs < fuel)%nat ->
  exists r, searchFreeList lo fuel req h = Ok (r, h) /\
    ((r = 0 /\ forall b s, (b, s, false) ∈ placed base bs -> s < req) \/
     (r <> 0 /\ exists s, (r, s, false) ∈ placed base bs /\ req <= s /\ r ∈ fl)).
Proof.
  intros Hok Hf. pose proof (heap_list_ok _ _ _ Hok) as (Ht & [Hhd Hch] & _ & Hw).
  unfold searchFreeList, FREE_LIST_HEAD, mem_heap_lo. step (word_run _ _ _ Hhd).
  destruct (search_loop_ok h bs None fl fl fuel req) as (r & E & Hr); [done..| |].
  - rewrite (ok_frees _ _ _ Hok). unfold frees. rewrite length_fmap.
    eapply Nat.le_lt_trans; [apply length_filter|]. clear -Hf. revert Hf.
    assert (length (placed base bs) = length bs) as ->; [|done].
    generalize base. induction bs as [|[s u] bs IH]; intros a; cbn; [done|]. by rewrite IH.
  - exists r. split; [done|]. destruct Hr as [[? Hall]|?]; [left|by right]. split; [done|].
    intros b s Hb. eapply Hall; [|done]. rewrite (ok_frees _ _ _ Hok). apply elem_of_frees. by exists s.
Qed.

(** ** Growing the heap *)

Context (pagesize : Z) (Hpage : 32 <= pagesize <= 2 ^ 32) (Hpage8 : pagesize mod 8 = 0)
  (Hspace : lo + MAX_HEAP < 2 ^ 62).

(** The bytes a request for [req] asks of [mem_sbrk]. *)
Definition page_bytes (req : Z) : Z := (req + pagesize - 1) / pagesize * pagesize.

Lemma page_bytes_bounds req : 0 < req -> req <= page_bytes req < req + pagesize /\
  page_bytes req mod 8 = 0 /\ 32 <= page_bytes req.
Proof.
  intros Hreq. unfold page_bytes. set (q := (req + pagesize - 1) / pagesize).
  pose proof (Z.div_mod (req + pagesize - 1) pagesize ltac:(lia)) as Hd.
  pose proof (Z.mod_pos_bound (req + pagesize - 1) pagesize ltac:(lia)). fold q in Hd.
  assert (Hq : 1 <= q) by (unfold q; apply Z.div_le_lower_bound; lia).
  split; [lia|]. split; [|nia]. rewrite Zmult_mod, Hpage8, Z.mul_0_r. done.
Qed.

Lemma kept_trans skip bs bs1 h h1 h2 : used base bs1 = used base bs ->
  kept skip bs h h1 -> kept skip bs1 h1 h2 -> kept skip bs h h2.
Proof.
  intros Hu H1 H2 p s x Hp Hne Hx. rewrite (H2 p s x); [by eapply H1|by rewrite Hu|done|done].
Qed.

Lemma heap_base8 h bs fl : heap_ok h bs fl -> (base + total bs) mod 8 = 0 /\ 0 <= total bs.
Proof.
  intros Hok. destruct (ok_tiled _ _ _ Hok) as [Hr _].
  split; [|by eapply row_nonneg]. apply mod8_add; [by apply mod8_add|by eapply row_total_mod8].
Qed.

(** A free block laid after the last one. *)
Lemma tile_extended h bs T lu : tiled (words h) base true bs -> last_used true bs = lu ->
  32 <= T -> T mod 8 = 0 ->
  let nb := base + total bs in
  tiled (<[nb + T := TAG_USED]> (<[nb + (T - 8) := tagged T false lu]>
    (<[nb := tagged T false lu]> (words h)))) base true (bs ++ [(T, false)]).
Proof.
  intros [Hr _] Hlu HT HT8 nb. split.
  - apply row_app. split.
    + eapply row_ext; [|exact Hr]. intros x Hx. pose proof (tag_word_bounds _ _ _ _ _ Hr Hx).
      unfold nb. by look.
    + fold nb. rewrite Hlu. cbn. split; [done|]. split; [done|]. look. split; [done|]. split; [|done].
      intros _. exists (tagged T false lu). replace (nb + T - 8) with (nb + (T - 8)) by lia. look.
      split; [done|]. by apply tagged_ops.
  - rewrite total_app, last_used_app. cbn. rewrite Z.add_0_r, Z.add_assoc. fold nb. by look.
Qed.

Lemma mem_sbrk_run h T : 0 <= mem_brk h + T < 2 ^ 64 ->
  mem_sbrk lo T h = if lo + MAX_HEAP <? mem_brk h + T then Ok (u64 (-1), h)
                    else Ok (mem_brk h, mk_heap (words h) (mem_brk h + T)).
Proof. intros H. unfold mem_sbrk, mem_max_addr. by rewrite wrapu_small. Qed.

Lemma requestMoreSpace_ok fuel h bs fl req : heap_ok h bs fl -> 0 < req < 2 ^ 62 ->
  (S (length bs) < fuel)%nat ->
  if lo + MAX_HEAP <? mem_brk h + page_bytes req
  then requestMoreSpace lo pagesize fuel req h = Err (Exit 0)
  else exists h' bs' fl', requestMoreSpace lo pagesize fuel req h = Ok (tt, h') /\
    heap_ok h' bs' fl' /\ used base bs' = used base bs /\ (forall skip, kept skip bs h h') /\
    (length bs' <= S (length bs))%nat /\
    exists p s, (p, s, false) ∈ placed base bs' /\ req <= s.
Proof.
  intros Hok Hreq Hfuel. pose proof (page_bytes_bounds req ltac:(lia)) as (HT & HT8 & HT32).
  set (T := page_bytes req) in *. pose proof (ok_brk _ _ _ Hok) as Hbrk.
  pose proof (ok_max _ _ _ Hok) as Hmax. destruct (heap_base8 _ _ _ Hok) as [Hb8 Hnn].
  assert (Hnp : u64 (u64 (req + pagesize - 1) / pagesize * pagesize) = T).
  { rewrite (wrapu_small 64 (req + pagesize - 1)) by bound_lia. apply wrapu_small. fold (page_bytes req). fold T.
    bound_lia. }
  unfold requestMoreSpace. rewrite Hnp. pose proof (mem_sbrk_run h T ltac:(bound_lia)) as E0.
  destruct (Z.ltb_spec (lo + MAX_HEAP) (mem_brk h + T)) as [Hfull|Hroom]; step E0.
  { by rewrite Z.eqb_refl. }
  change (u64 (-1)) with (2 ^ 64 - 1). destruct (Z.eqb_spec (mem_brk h) (2 ^ 64 - 1)); [bound_lia|].
  set (h0 := mk_heap (words h) (mem_brk h + T)). set (nb := base + total bs) in *.
  replace (mem_brk h - WORD_SIZE) with nb by (unfold WORD_SIZE; lia).
  unfold sizeAndTags, WORD_SIZE. set (lu := last_used true bs).
  assert (Hend : words h0 !! nb = Some (tagged 0 true lu)) by apply (ok_tiled _ _ _ Hok).
  step (word_run _ _ _ Hend).
  destruct (tagged_ops 0 true lu eq_refl) as (_ & _ & _ & -> & _).
  destruct (tagged_new T lu HT8) as [-> _].
  assert (Ha : forall x, lo <= x < lo + MAX_HEAP -> x mod 8 = 0 -> is_Some (words h !! x)) by apply Hok.
  erewrite bind_ok by (apply set_word_run, Ha; [lia|done]). cbn [words mem_brk].
  erewrite bind_ok by (apply set_word_run; cbn; apply lookup_insert_is_Some'; right;
    apply Ha; [lia|by apply mod8_add; [|apply mod8_sub]]). cbn [words mem_brk].
  erewrite bind_ok by (apply set_word_run; cbn; do 2 (apply lookup_insert_is_Some'; right);
    apply Ha; [lia|by apply mod8_add]). cbn [words mem_brk].
  pose proof (tile_extended h bs T lu (ok_tiled _ _ _ Hok) eq_refl HT32 HT8) as Ht1. fold nb in Ht1.
  set (h1 := mk_heap _ (mem_brk h0)). set (bs1 := bs ++ [(T, false)]).
  assert (Hpl : (nb, T, false) ∈ placed base bs1).
  { unfold bs1. rewrite placed_app. apply elem_of_app. right. by left. }
  assert (Hu1 : used base bs1 = used base bs) by (unfold bs1; rewrite used_app; cbn; by rewrite app_nil_r).
  assert (Htot : total bs1 = total bs + T) by (unfold bs1; rewrite total_app; cbn; lia).
  destruct (insert_completes h1 bs1 fl nb T) as (h2 & E2 & Hok2 & Hb2 & Ho2).
  - intros x Hx Hx8. cbn. do 3 (apply lookup_insert_is_Some'; right). auto.
  - cbn. lia.
  - cbn. lia.
  - exact Ht1.
  - eapply flist_frame; [apply Hok|cbn; by look|]. intros b Hb.
    rewrite (ok_frees _ _ _ Hok) in Hb. apply frees_within in Hb as (sb & Hb).
    pose proof (placed_bounds _ _ _ _ _ _ _ (proj1 (ok_tiled _ _ _ Hok)) Hb).
    unfold next, prev. cbn. by look.
  - done.
  - unfold bs1. rewrite frees_app. cbn. rewrite <- (ok_frees _ _ _ Hok). fold nb. solve_Permutation.
  - step E2. destruct (coalesceFreeBlock_ok fuel h2 bs1 _ nb T Hok2 Hpl)
      as (h3 & bs3 & fl3 & E3 & Hok3 & Hu3 & Hk3 & _ & Hl3 & p & s & Hp & Hs).
    { unfold bs1. rewrite length_app. cbn. lia. }
    exists h3, bs3, fl3. split; [done|]. split; [done|]. split; [congruence|]. split; [|split].
    + intros skip. eapply (kept_trans _ _ bs1); [done| |apply Hk3].
      intros p' s' x Hp' _ Hx. apply elem_of_used in Hp'.
      pose proof (placed_bounds _ _ _ _ _ _ _ (proj1 (ok_tiled _ _ _ Hok)) Hp') as Hb'.
      destruct Ho2 as [_ Ho2]. rewrite Ho2; [cbn; by look|].
      intros [->|(b & Hb & Hl)]; [lia|]. apply frees_within in Hb as (sb & Hb).
      assert (Hp1 : (p', s', true) ∈ placed base bs1)
        by (unfold bs1; rewrite placed_app; apply elem_of_app; by left).
      pose proof (placed_bounds _ _ _ _ _ _ _ (proj1 Ht1) Hb).
      destruct (placed_apart _ _ _ _ _ _ _ _ _ _ (proj1 Ht1) Hp1 Hb) as [(_ & _ & [=])|?].
      unfold next, prev in Hl. lia.
    + unfold bs1 in Hl3. rewrite length_app in Hl3. cbn in Hl3. lia.
    + exists p, s. split; [done|]. lia.
Qed.

(** ** Allocating a block *)

Lemma used_single a s u : used a [(s, u)] = if u then [(a, s)] else [].
Proof. by destruct u. Qed.

Lemma elem_of_used_single a s u p s' : (p, s') ∈ used a [(s, u)] -> u = true /\ p = a.
Proof.
  rewrite used_single. destruct u; [|by intros ?%elem_of_nil].
  by intros [= -> ->]%list_elem_of_singleton.
Qed.

Section block.
Context (xs ys : list blk) (B : Z) (u : bool).
Let bs := xs ++ (B, u) :: ys.
Let b := base + total xs.
Let pu := last_used true xs.

(** What is known of a heap where the block at [b] is off the free list. *)
Record detached (h : heap) (fl : list Z) : Prop := {
  det_area : forall x, lo <= x < lo + MAX_HEAP -> x mod 8 = 0 -> is_Some (words h !! x);
  det_brk : mem_brk h = base + total bs + 8;
  det_max : mem_brk h <= lo + MAX_HEAP;
  det_tiled : tiled (words h) base true bs;
  det_flist : flist lo (words h) fl;
  det_frees : fl ≡ₚ frees base xs ++ frees (b + B) ys
}.

Lemma detached_facts h fl : detached h fl ->
  32 <= B /\ B mod 8 = 0 /\ b mod 8 = 0 /\ 0 <= total xs /\ 0 <= total ys /\
  total bs = total xs + B + total ys /\ words h !! b = Some (tagged B u pu) /\
  words h !! (b + B) = Some (tagged (hsize ys) (hused ys) u) /\ hsize ys mod 8 = 0.
Proof.
  intros [_ _ _ Ht _ _]. pose proof Ht as [Hr _]. unfold bs in Hr. apply row_app in Hr as [H1 Hr].
  pose proof (row_total_mod8 _ _ _ _ H1). pose proof (row_nonneg _ _ _ _ H1).
  destruct Hr as (HB & HB8 & Hh & _ & Hr). pose proof (row_nonneg _ _ _ _ Hr).
  do 2 (split; [done|]). split; [unfold b; apply mod8_add; [by apply mod8_add|done]|].
  do 2 (split; [done|]). split; [unfold bs; rewrite total_app; cbn; lia|]. split; [done|].
  assert (E : bs = (xs ++ [(B, u)]) ++ ys) by (unfold bs; by rewrite <- (assoc_L (++))).
  rewrite E in Ht. pose proof (tiled_header _ _ _ _ _ Ht) as Hn.
  rewrite total_app, last_used_app in Hn. cbn in Hn. rewrite Z.add_0_r, Z.add_assoc in Hn.
  split; [done|]. by eapply hsize_mod8.
Qed.

(** The blocks of the list are away from the block. *)
Lemma detached_away h fl c : detached h fl -> c ∈ fl -> lo + 8 <= c /\ (c + 32 <= b \/ b + B <= c).
Proof.
  intros Hd Hc. rewrite (det_frees _ _ Hd) in Hc. pose proof (det_tiled _ _ Hd) as [Hr _].
  pose proof (detached_facts _ _ Hd) as (? & _ & _ & ? & _).
  unfold bs in Hr. apply row_app in Hr as [H1 (_ & _ & _ & _ & H2)].
  apply elem_of_app in Hc as [Hc|Hc]; apply frees_within in Hc as (s & Hc).
  - pose proof (placed_bounds _ _ _ _ _ _ _ H1 Hc). unfold b. lia.
  - pose proof (placed_bounds _ _ _ _ _ _ _ H2 Hc). unfold b in *. lia.
Qed.

(** A change inside the block, of the next header and of links keeps the others. *)
Lemma block_kept w h h' : row w base true bs ->
  only (fun x => link_word lo (frees base bs) x \/ b <= x <= b + B) h h' ->
  (forall skip, (u = true -> skip = b) -> kept skip bs h h').
Proof.
  intros Hr [_ Ho] skip Hskip p s x Hp Hne Hx. apply Ho.
  change bs with (xs ++ [(B, u)] ++ ys) in *.
  destruct (kept_outside _ _ _ _ _ _ _ x Hr (frees_within _ _) Hp) as [H1 H2]; [|done|].
  - intros [Hu ->]%elem_of_used_single. apply Hne. by rewrite Hskip.
  - cbn [total fst] in H2. rewrite Z.add_0_r in H2. fold b in H2. intros [?|?]; [done|lia].
Qed.
End block.

Abbreviation frees_around xs B ys := (frees base xs ++ frees (base + total xs + B) ys).

(** Taking a free block off the list. *)
Lemma detach_ok h xs B ys fl : let bs := xs ++ (B, false) :: ys in let b := base + total xs in
  heap_ok h bs fl ->
  exists h' fl', removeFreeBlock lo b h = Ok (tt, h') /\ detached xs ys B false h' fl' /\
    only (link_word lo (frees base bs)) h h'.
Proof.
  intros bs b Hok. pose proof (ok_frees _ _ _ Hok) as Hfr. unfold bs in Hfr.
  rewrite frees_app in Hfr. cbn in Hfr. fold b in Hfr.
  destruct (list_ok_remove h bs fl b (heap_list_ok _ _ _ Hok)) as (h' & fl' & E & Hp & Hl & Hb & Ho).
  { rewrite Hfr. set_solver. }
  exists h', fl'. split; [done|]. destruct Hl as (Ht & Hf & _).
  assert (Ho' : only (link_word lo (frees base bs)) h h').
  { eapply only_mono; [|exact Ho]. intros x. apply link_word_mono. intros c. by rewrite (ok_frees _ _ _ Hok). }
  split; [|done]. split; try done.
  - intros x Hx Hx8. apply Ho'. by apply (ok_area _ _ _ Hok).
  - rewrite Hb. apply Hok.
  - rewrite Hb. apply Hok.
  - apply (Permutation_cons_inv (a := b)). rewrite <- Hp, Hfr. solve_Permutation.
Qed.

(** The whole block is given: its tag and the next block's are set. *)
Lemma allocate_whole h xs B ys fl : let b := base + total xs in detached xs ys B false h fl ->
  exists h',
    (let* t := word (b + B) in
     do* set_word (b + B) (Z.lor t TAG_PRECEDING_USED);
     let* t := word b in
     set_word b (Z.lor t TAG_USED)) h = Ok (tt, h') /\
    heap_ok h' (xs ++ (B, true) :: ys) fl /\ only (fun x => b <= x <= b + B) h h'.
Proof.
  intros b Hd. destruct (detached_facts _ _ _ _ _ _ Hd) as (HB & HB8 & Hb8 & Hn1 & Hn2 & Htot & Hhd & Hnx & Hh8).
  pose proof Hd as [Ha Hbrk Hmax Ht Hf Hfr]. fold b in Hhd, Hnx, Hb8.
  assert (Hb : base <= b) by (unfold b; lia).
  step (word_run _ _ _ Hnx). destruct (tagged_ops (hsize ys) (hused ys) false Hh8) as (_&_&_&_&_&->&_).
  assert (Hroom : b + B < lo + MAX_HEAP) by (unfold b; lia).
  run_set Ha ltac:(by apply mod8_add).
  erewrite bind_ok by (apply word_run; cbn; rewrite lookup_insert_ne by lia; exact Hhd).
  destruct (tagged_ops B false (last_used true xs) HB8) as (_&_&_&_&->&_).
  rewrite set_word_run by (cbn; apply lookup_insert_is_Some'; right; apply Ha; [lia|done]).
  eexists; split; [done|]. split; [split; cbn [words mem_brk]|].
  - intros x Hx Hx8. do 2 (apply lookup_insert_is_Some'; right). auto.
  - rewrite Hbrk, Htot, total_app. cbn. lia.
  - done.
  - apply (tiled_replace (words h) _ _ _ xs [(B, false)] [(B, true)] ys); fold b; cbn [total fst last_used].
    + exact Ht.
    + intros x Hx. look. done.
    + cbn. look. done.
    + done.
    + rewrite Z.add_0_r. by look.
  - eapply flist_frame; [exact Hf|by look|]. intros c Hc.
    destruct (detached_away _ _ _ _ _ _ _ Hd Hc) as [? Haway]. fold b in Haway.
    unfold next, prev. by look.
  - rewrite Hfr, frees_app. done.
  - apply (only_trans _ _ (mk_heap (<[b + B := tagged (hsize ys) (hused ys) true]> (words h)) (mem_brk h)));
      [apply only_set; lia|].
    apply (only_set _ (mk_heap (<[b + B := tagged (hsize ys) (hused ys) true]> (words h)) (mem_brk h)) b); lia.
Qed.

(** The block is cut and its rest goes to the list; the header after it has still
    to say so when the block was in use. *)
Lemma split_block_ok h xs B u ys fl req : let b := base + total xs in
  let bs' := xs ++ (req, true) :: (B - req, false) :: ys in
  detached xs ys B u h fl -> 32 <= req -> req mod 8 = 0 -> 32 <= B - req ->
  exists h', split_block lo b B req (2 * b2z (last_used true xs)) h = Ok (tt, h') /\
    words h' !! (b + B) = words h !! (b + B) /\
    heap_ok (mk_heap (<[b + B := tagged (hsize ys) (hused ys) false]> (words h')) (mem_brk h')) bs'
      (b + req :: fl) /\
    only (fun x => link_word lo (frees base bs') x \/ x = b \/ b + req <= x < b + B) h h'.
Proof.
  intros b bs' Hd Hreq Hreq8 Hrest.
  destruct (detached_facts _ _ _ _ _ _ Hd) as (HB & HB8 & Hb8 & Hn1 & Hn2 & Htot & Hhd & Hnx & Hh8).
  pose proof Hd as [Ha Hbrk Hmax Ht Hf Hfr]. fold b in Hhd, Hnx, Hb8.
  set (pu := last_used true xs) in *. assert (Hb : base <= b) by (unfold b; lia).
  assert (Hroom : b + B < lo + MAX_HEAP) by (unfold b; lia).
  assert (HR8 : (B - req) mod 8 = 0) by by apply mod8_sub.
  unfold split_block, sizeAndTags, WORD_SIZE.
  destruct (tagged_new req pu Hreq8) as [-> _]. destruct (tagged_new (B - req) true HR8) as [_ ->].
  run_set Ha ltac:(done).
  erewrite bind_ok by (apply word_run; cbn; by rewrite lookup_insert_eq).
  destruct (tagged_ops req false pu Hreq8) as (_&_&_&_&->&_).
  run_set Ha ltac:(done). run_set Ha ltac:(by apply mod8_add).
  run_set Ha ltac:(by apply mod8_add; [|apply mod8_sub]).
  set (v := tagged (B - req) false true). set (n := tagged (hsize ys) (hused ys) false).
  set (h4 := mk_heap _ (mem_brk h)).
  assert (Hl4 : forall x, x < b \/ b + B <= x -> words h4 !! x = words h !! x) by (intros; cbn; by look).
  assert (Hm4 : forall x, lo <= x < lo + MAX_HEAP -> x mod 8 = 0 -> is_Some (words h4 !! x)).
  { intros x Hx Hx8. cbn. repeat (apply lookup_insert_is_Some'; right). auto. }
  assert (Ht4 : tiled (<[b + B := n]> (words h4)) base true bs').
  { apply (tiled_replace (words h) _ _ _ xs [(B, u)] [(req, true); (B - req, false)] ys);
      fold b pu; cbn [total fst last_used].
    - exact Ht.
    - intros x Hx. rewrite lookup_insert_ne by lia. apply Hl4. lia.
    - cbn. split; [done|]. split; [done|]. look. split; [done|]. split; [done|].
      split; [done|]. split; [done|]. look. split; [done|]. split; [|done].
      intros _. exists v. replace (b + req + (B - req) - 8) with (b + (B - 8)) by lia. look.
      split; [done|]. by apply tagged_ops.
    - lia.
    - rewrite Z.add_0_r. by look. }
  assert (Hfr' : frees base bs' ≡ₚ b + req :: fl).
  { unfold bs'. rewrite frees_app, Hfr. cbn. fold b.
    replace (b + req + (B - req)) with (b + B) by lia. solve_Permutation. }
  assert (Hmem : b + req + 8 < lo + MAX_HEAP /\ b + req + 16 < lo + MAX_HEAP) by lia.
  assert (Hbr8 : (b + req) mod 8 = 0) by by apply mod8_add.
  destruct (insertFreeBlock_ok lo Hlo h4 fl (b + req)) as (h5 & E5 & Hf5 & Hr5).
  - eapply flist_frame; [exact Hf|by apply Hl4; lia|]. intros c Hc.
    destruct (detached_away _ _ _ _ _ _ _ Hd Hc) as [? Haway]. fold b in Haway.
    unfold next, prev. split; apply Hl4; lia.
  - eapply spaced_perm; [exact Hfr'|]. eapply frees_spaced. apply Ht4.
  - apply Hm4; unfold next; [lia|by apply mod8_add].
  - apply Hm4; unfold prev; [lia|by apply mod8_add].
  - pose proof (relinked_only _ _ _ _ Hr5) as Ho5. destruct Hr5 as (Hb5 & _).
    assert (Ho5' : only (link_word lo (frees base bs')) h4 h5).
    { eapply only_mono; [|exact Ho5]. intros x. apply link_word_mono. intros c. by rewrite Hfr'. }
    assert (Hnl : ~ link_word lo (frees base bs') (b + B)).
    { intros [?|(c & Hc & Hl)]; [lia|]. rewrite Hfr' in Hc. unfold next, prev in Hl.
      apply elem_of_cons in Hc as [->|Hc]; [lia|].
      destruct (detached_away _ _ _ _ _ _ _ Hd Hc) as [? Haway]. fold b in Haway.
      rewrite Hfr in Hc. apply elem_of_app in Hc as [Hc|Hc]; apply frees_within in Hc as (s & Hc).
      - destruct Ht as [Hrow _]. apply row_app in Hrow as [Hrow _].
        pose proof (placed_bounds _ _ _ _ _ _ _ Hrow Hc). unfold b in *. lia.
      - destruct Ht as [Hrow _]. apply row_app in Hrow as [_ (_ & _ & _ & _ & Hrow)].
        pose proof (placed_bounds _ _ _ _ _ _ _ Hrow Hc). unfold b in *. lia. }
    exists h5. split; [exact E5|]. split; [rewrite (proj2 Ho5') by done; apply Hl4; lia|]. split.
    + split; cbn [words mem_brk].
      * intros x Hx Hx8. apply lookup_insert_is_Some'. right. apply Ho5'. auto.
      * rewrite Hb5. cbn. unfold bs'. rewrite Hbrk, Htot, total_app. cbn. lia.
      * rewrite Hb5. done.
      * change (<[b + B := n]> (words h5)) with (words (mk_heap (<[b + B := n]> (words h5)) 0)).
        eapply (tiled_only lo (mk_heap (<[b + B := n]> (words h4)) 0)
          (mk_heap (<[b + B := n]> (words h5)) 0)); [exact Ht4|apply frees_within|].
        split; cbn [words]; intros x.
        -- intros [->|[_ Hx]]%lookup_insert_is_Some; apply lookup_insert_is_Some'; [by left|].
           right. by apply Ho5'.
        -- intros Hx. destruct (decide (x = b + B)) as [->|]; [by rewrite !lookup_insert_eq|].
           rewrite !lookup_insert_ne by done. by apply Ho5'.
      * eapply flist_frame; [exact Hf5|cbn; by look|]. intros c Hc.
        unfold next, prev. split; (rewrite lookup_insert_ne; [done|]); intros Hx; apply Hnl; right;
          exists c; (split; [by rewrite Hfr'|]); unfold next, prev; lia.
      * by symmetry.
    + eapply only_trans.
      * instantiate (1 := h4). split; [intros; cbn; by repeat (apply lookup_insert_is_Some'; right)|].
        intros x Hx. cbn. rewrite !lookup_insert_ne; [done|..]; intros <-; apply Hx; lia.
      * eapply only_mono; [|exact Ho5']. cbn. tauto.
Qed.

(** A free block is cut: its first part is given, the rest goes to the list. *)
Lemma allocate_split h xs B ys fl req : let b := base + total xs in
  let bs' := xs ++ (req, true) :: (B - req, false) :: ys in
  detached xs ys B false h fl -> 32 <= req -> req mod 8 = 0 -> 32 <= B - req ->
  exists h', split_block lo b B req (2 * b2z (last_used true xs)) h = Ok (tt, h') /\
    heap_ok h' bs' (b + req :: fl) /\
    only (fun x => link_word lo (frees base (xs ++ (B, false) :: ys)) x \/ b <= x <= b + B) h h'.
Proof.
  intros b bs' Hd Hreq Hreq8 Hrest.
  destruct (detached_facts _ _ _ _ _ _ Hd) as (_ & _ & _ & _ & _ & _ & _ & Hnx & _).
  destruct (split_block_ok h xs B false ys fl req Hd Hreq Hreq8 Hrest) as (h5 & E5 & Hn & Hok5 & Ho5).
  fold b in Hnx, Hn, E5, Hok5, Ho5. exists h5. split; [exact E5|]. split.
  - rewrite insert_id in Hok5 by congruence. by destruct h5.
  - eapply only_mono; [|exact Ho5]. intros x [[->|(c & Hc & Hx)]|Hx]; [left; by left| |right; lia].
    rewrite frees_app in Hc. cbn in Hc. fold b in Hc.
    replace (b + req + (B - req)) with (b + B) in Hc by lia.
    apply elem_of_app in Hc as [Hc|[->|Hc]%elem_of_cons]; [left; right; exists c| |left; right; exists c].
    + rewrite frees_app. split; [set_solver|done].
    + right. unfold next, prev in Hx. cbn [fst] in Hx. lia.
    + rewrite frees_app. cbn. fold b. split; [set_solver|done].
Qed.

Lemma allocate_block_ok h bs fl b B req : heap_ok h bs fl -> (b, B, false) ∈ placed base bs ->
  32 <= req <= B -> req mod 8 = 0 ->
  exists h' bs' fl' s, allocate_block lo b req h = Ok (tt, h') /\ heap_ok h' bs' fl' /\
    used base bs' ≡ₚ (b, s) :: used base bs /\ req <= s /\ (forall skip, kept skip bs h h') /\
    (length bs' <= S (length bs))%nat.
Proof.
  intros Hok Hb Hreq Hreq8. pose proof (ok_tiled _ _ _ Hok) as Ht.
  destruct (placed_split _ _ _ _ _ Hb) as (xs & ys & -> & ->). set (b := base + total xs).
  pose proof (tiled_header _ _ _ xs ((B, false) :: ys) Ht) as Hh. cbn in Hh. fold b in Hh.
  unfold allocate_block, sizeAndTags. step (word_run _ _ _ Hh).
  destruct (detach_ok h xs B ys fl Hok) as (h1 & fl1 & E1 & Hd & Ho1). fold b in E1.
  destruct (detached_facts _ _ _ _ _ _ Hd) as (HB & HB8 & _ & Hn1 & Hn2 & Htot & _).
  destruct (tagged_ops B false (last_used true xs) HB8) as (-> & _ & _ & -> & _).
  step E1. pose proof (ok_brk _ _ _ Hok) as Hbrk. pose proof (ok_max _ _ _ Hok) as Hmax.
  rewrite Htot in Hbrk. rewrite wrapu_small by bound_lia. unfold MIN_BLOCK_SIZE.
  assert (Hkept : forall h2, only (fun x => link_word lo (frees base (xs ++ (B, false) :: ys)) x \/
    b <= x <= b + B) h1 h2 -> forall skip, kept skip (xs ++ (B, false) :: ys) h h2).
  { intros h2 Ho2 skip. eapply (block_kept xs ys B false); [apply Ht| |done].
    eapply only_trans; [|exact Ho2]. eapply only_mono; [|exact Ho1]. cbn. tauto. }
  destruct (Z.leb_spec 32 (B - req)).
  - destruct (allocate_split h1 xs B ys fl1 req Hd) as (h2 & E2 & Hok2 & Ho2); [lia|done|lia|].
    exists h2, (xs ++ (req, true) :: (B - req, false) :: ys), (b + req :: fl1), req.
    split; [exact E2|]. split; [done|]. split; [|split; [lia|split; [by apply Hkept|]]].
    + rewrite !used_app. cbn. fold b. replace (b + req + (B - req)) with (b + B) by lia. solve_Permutation.
    + rewrite !length_app. cbn. lia.
  - destruct (allocate_whole h1 xs B ys fl1 Hd) as (h2 & E2 & Hok2 & Ho2).
    exists h2, (xs ++ (B, true) :: ys), fl1, B.
    split; [exact E2|]. split; [done|]. split; [|split; [lia|split; [|]]].
    + rewrite !used_app. cbn. fold b. solve_Permutation.
    + apply Hkept. eapply only_mono; [|exact Ho2]. cbn. tauto.
    + rewrite !length_app. cbn. lia.
Qed.

(** ** The interface *)

Lemma request_size_ok size : 0 < size < 2 ^ 61 ->
  32 <= request_size size /\ request_size size mod 8 = 0 /\
  size + 8 <= request_size size < size + 40.
Proof.
  intros Hs. unfold request_size, WORD_SIZE, MIN_BLOCK_SIZE, ALIGNMENT.
  rewrite (wrapu_small 64 (size + 8)) by bound_lia.
  destruct (Z.leb_spec (size + 8) 32); [split; [lia|split; [done|lia]]|].
  rewrite (wrapu_small 64 (size + 8 + 8 - 1)) by bound_lia.
  pose proof (Z.div_mod (size + 8 + 8 - 1) 8 ltac:(lia)) as Hd.
  pose proof (Z.mod_pos_bound (size + 8 + 8 - 1) 8 ltac:(lia)).
  set (q := (size + 8 + 8 - 1) / 8) in *. rewrite wrapu_small by bound_lia.
  split; [lia|]. split; [|lia]. rewrite Z.mul_comm. by apply Z_mod_mult.
Qed.

Lemma mm_malloc_ok fuel h bs fl size : heap_ok h bs fl -> 0 < size < 2 ^ 61 ->
  (S (length bs) < fuel)%nat ->
  (exists h' bs' fl' p s, mm_malloc lo pagesize fuel size h = Ok (p, h') /\ heap_ok h' bs' fl' /\
     used base bs' ≡ₚ (p - 8, s) :: used base bs /\ size + 8 <= s /\
     (forall skip, kept skip bs h h') /\ (length bs' <= S (S (length bs)))%nat) \/
  (mm_malloc lo pagesize fuel size h = Err (Exit 0) /\
     lo + MAX_HEAP < mem_brk h + page_bytes (request_size size) /\
     forall b s, (b, s, false) ∈ placed base bs -> s < request_size size).
Proof.
  intros Hok Hsize Hfuel. destruct (request_size_ok size Hsize) as (Hr1 & Hr2 & Hr3).
  unfold mm_malloc. destruct (Z.eqb_spec size 0); [lia|]. set (req := request_size size) in *.
  destruct (searchFreeList_ok h bs fl fuel req Hok) as (r & E1 & Hr); [lia|]. step E1.
  destruct Hr as [[-> Hnone]|(Hr0 & B & HB & HBreq & _)].
  - change (0 =? 0) with true. cbn iota. rewrite bind_assoc.
    pose proof (requestMoreSpace_ok fuel h bs fl req Hok ltac:(bound_lia) Hfuel) as HM.
    destruct (Z.ltb_spec (lo + MAX_HEAP) (mem_brk h + page_bytes req)).
    { right. split; [by rewrite (bind_err _ _ _ _ HM)|done]. }
    left. destruct HM as (h1 & bs1 & fl1 & E2 & Hok1 & Hu1 & Hk1 & Hl1 & p & s & Hp & Hs). step E2.
    destruct (searchFreeList_ok h1 bs1 fl1 fuel req Hok1) as (r & E3 & Hr'); [lia|]. step E3.
    destruct Hr' as [[_ Hnone']|(_ & B & HB & HBreq & _)].
    { specialize (Hnone' p s Hp). lia. }
    destruct (allocate_block_ok h1 bs1 fl1 r B req Hok1 HB) as (h2 & bs2 & fl2 & s2 & E4 & Hok2 & Hu2 & Hs2 & Hk2 & Hl2);
      [lia|done|].
    step E4. exists h2, bs2, fl2, (r + WORD_SIZE), s2. split; [done|]. split; [done|].
    unfold WORD_SIZE. replace (r + 8 - 8) with r by lia. split; [by rewrite Hu2, Hu1|].
    split; [lia|]. split; [|lia]. intros skip. eapply kept_trans; [exact Hu1|apply Hk1|apply Hk2].
  - left. destruct (Z.eqb_spec r 0); [done|]. rewrite bind_ret.
    destruct (allocate_block_ok h bs fl r B req Hok HB) as (h2 & bs2 & fl2 & s2 & E4 & Hok2 & Hu2 & Hs2 & Hk2 & Hl2);
      [lia|done|].
    step E4. exists h2, bs2, fl2, (r + WORD_SIZE), s2. split; [done|]. split; [done|].
    unfold WORD_SIZE. replace (r + 8 - 8) with r by lia. split; [done|].
    split; [lia|]. split; [done|lia].
Qed.

Lemma mm_free_ok fuel h bs fl p s : heap_ok h bs fl -> (p - 8, s) ∈ used base bs ->
  (length bs < fuel)%nat ->
  exists h' bs' fl', mm_free lo fuel p h = Ok (tt, h') /\ heap_ok h' bs' fl' /\
    used base bs ≡ₚ (p - 8, s) :: used base bs' /\ kept (p - 8) bs h h' /\
    (length bs' <= length bs)%nat.
Proof.
  intros Hok Hb%elem_of_used Hfuel. destruct (placed_split _ _ _ _ _ Hb) as (xs & ys & -> & Hp).
  set (b := base + total xs) in *. set (pu := last_used true xs).
  assert (Hd : detached xs ys s true h fl).
  { destruct Hok. split; try done. by rewrite ok_frees0, frees_app. }
  destruct (detached_facts _ _ _ _ _ _ Hd) as (Hs & Hs8 & Hb8 & Hn1 & Hn2 & Htot & Hhd & Hnx & Hh8).
  pose proof Hd as [Ha Hbrk Hmax Ht Hf Hfr]. fold b pu in Hhd, Hnx, Hb8.
  assert (Hbb : base <= b) by (unfold b; lia). assert (Hroom : b + s < lo + MAX_HEAP) by (unfold b; lia).
  unfold mm_free, sizeAndTags, WORD_SIZE. rewrite Hp. step (word_run _ _ _ Hhd).
  destruct (tagged_ops s true pu Hs8) as (-> & _ & _ & _ & _ & _ & Hfree & _).
  step (word_run _ _ _ Hnx). destruct (tagged_ops (hsize ys) (hused ys) true Hh8) as (_&_&_&_&_&_&_&->).
  run_set Ha ltac:(by apply mod8_add).
  erewrite bind_ok by (apply word_run; cbn; rewrite lookup_insert_ne by lia; exact Hhd).
  rewrite Hfree. run_set Ha ltac:(done).
  erewrite bind_ok by (apply word_run; cbn; by rewrite lookup_insert_eq).
  run_set Ha ltac:(by apply mod8_add; [|apply mod8_sub]).
  set (v := tagged s false pu). set (h3 := mk_heap _ (mem_brk h)).
  set (bs1 := xs ++ (s, false) :: ys) in *.
  assert (Hl3 : forall x, x < b \/ b + s < x -> words h3 !! x = words h !! x) by (intros; cbn; by look).
  assert (Ht3 : tiled (words h3) base true bs1).
  { apply (tiled_replace (words h) _ _ _ xs [(s, true)] [(s, false)] ys); fold b pu; cbn [total fst last_used].
    - exact Ht.
    - intros x Hx. apply Hl3. lia.
    - cbn. split; [done|]. split; [done|]. look. split; [done|]. split; [|done].
      intros _. exists v. replace (b + s - 8) with (b + (s - 8)) by lia. look.
      split; [done|]. by apply tagged_ops.
    - lia.
    - rewrite Z.add_0_r. cbn. by look. }
  assert (Hu : used base (xs ++ (s, true) :: ys) ≡ₚ (b, s) :: used base bs1).
  { unfold bs1. rewrite !used_app. cbn. fold b. solve_Permutation. }
  destruct (insert_completes h3 bs1 fl b s) as (h4 & E4 & Hok4 & Hb4 & Ho4).
  - intros x Hx Hx8. cbn. repeat (apply lookup_insert_is_Some'; right). auto.
  - cbn. unfold bs1. rewrite Hbrk, Htot, total_app. cbn. lia.
  - done.
  - done.
  - eapply flist_frame; [exact Hf|by apply Hl3; lia|]. intros c Hc.
    destruct (detached_away _ _ _ _ _ _ _ Hd Hc) as [? Haway]. fold b in Haway.
    unfold next, prev. split; apply Hl3; lia.
  - unfold bs1. rewrite placed_app. apply elem_of_app. right. by left.
  - unfold bs1. rewrite frees_app, Hfr. cbn. fold b. solve_Permutation.
  - step E4. destruct (coalesceFreeBlock_ok fuel h4 bs1 _ b s Hok4)
      as (h5 & bs5 & fl5 & E5 & Hok5 & Hu5 & Hk5 & _ & Hl5 & _).
    { unfold bs1. rewrite placed_app. apply elem_of_app. right. by left. }
    { unfold bs1. rewrite length_app in *. cbn in *. lia. }
    exists h5, bs5, fl5. split; [done|]. split; [done|]. split; [by rewrite Hu, Hu5|]. split.
    + intros p' s' x Hp' Hne Hx.
      assert (Hp1 : (p', s') ∈ used base bs1).
      { rewrite Hu in Hp'. apply elem_of_cons in Hp' as [[= -> ->]|]; done. }
      rewrite (Hk5 b p' s' x Hp1 Hne Hx).
      refine (block_kept xs ys s true _ h h4 (proj1 Ht) _ b (fun _ => eq_refl) p' s' x Hp' Hne Hx).
      eapply only_trans.
      * instantiate (1 := h3). split; [intros; cbn; by repeat (apply lookup_insert_is_Some'; right)|].
        intros y Hy. apply Hl3. fold b in Hy. lia.
      * eapply only_mono; [|exact Ho4]. intros y [->|(c & Hc & Hy)]; [left; by left|].
        unfold bs1 in Hc. rewrite frees_app in Hc. cbn in Hc. fold b in Hc. fold b.
        apply elem_of_app in Hc as [Hc|[->|Hc]%elem_of_cons]; [left; right; exists c| |left; right; exists c].
        -- rewrite frees_app. split; [set_solver|done].
        -- right. unfold next, prev in Hy. cbn [fst] in Hy. lia.
        -- rewrite frees_app. cbn. fold b. split; [set_solver|done].
    + unfold bs1 in Hl5. rewrite length_app in *. cbn in *. lia.
Qed.

Lemma mm_init_ok area :
  (forall x, lo <= x < lo + MAX_HEAP -> x mod 8 = 0 -> is_Some (area !! x)) ->
  exists h, mm_init lo (mem_init lo area) = Ok (0, h) /\ heap_ok h [(32, false)] [base].
Proof.
  intros Harea. unfold mm_init, WORD_SIZE, MIN_BLOCK_SIZE, FREE_LIST_HEAD, mem_heap_lo, sizeAndTags.
  assert (Hbase : base mod 8 = 0) by by apply mod8_add.
  assert (HM : MAX_HEAP = 20971520) by done. rewrite HM in *.
  pose proof (mem_sbrk_run (mem_init lo area) 48 ltac:(cbn; bound_lia)) as E0.
  change (8 + 32 + 8) with 48. cbn [mem_brk mem_init] in E0.
  destruct (Z.ltb_spec (lo + MAX_HEAP) (lo + 48)) as [H|_]; [lia|].
  step E0. change (u64 (-1)) with (2 ^ 64 - 1). destruct (Z.eqb_spec lo (2 ^ 64 - 1)); [bound_lia|].
  change (48 - 8 - 8) with 32. unfold mem_init. cbn [words].
  assert (Ha : forall x, lo <= x < lo + 48 -> x mod 8 = 0 -> is_Some (area !! x)).
  { intros x Hx. apply Harea. lia. }
  change (Z.lor 32 TAG_PRECEDING_USED) with (tagged 32 false true). unfold next, prev.
  run_set Ha ltac:(done). run_set Ha ltac:(by apply mod8_add). run_set Ha ltac:(by apply mod8_add).
  run_set Ha ltac:(by apply mod8_add).
  unfold mem_heap_hi, gets. rewrite (bind_ok _ _ _ _ _ eq_refl). cbn [mem_brk].
  replace (lo + 48 - 1 - (8 - 1)) with (base + 32) by lia.
  run_set Ha ltac:(by apply mod8_add). run_set Ha ltac:(done).
  eexists; split; [done|]. split; cbn [words mem_brk total fst].
  - intros x Hx Hx8. do 6 (apply lookup_insert_is_Some'; right). auto.
  - lia.
  - lia.
  - split; cbn.
    + split; [lia|]. split; [done|]. look. split; [done|]. split; [|done]. intros _.
      exists (tagged 32 false true). replace (base + 32 - 8) with (base + (32 - 8)) by lia. by look.
    + rewrite Z.add_0_r. by look.
  - split; [by look|]. cbn. unfold next, prev. look. split; [done|]. split; [by eexists|done].
  - done.
Qed.

(** Blocks in use do not overlap. *)
Lemma used_apart h bs fl p s p' s' : heap_ok h bs fl -> (p, s) ∈ used base bs ->
  (p', s') ∈ used base bs -> (p = p' /\ s = s') \/ p + s <= p' \/ p' + s' <= p.
Proof.
  intros Hok Hp%elem_of_used Hp'%elem_of_used. destruct (ok_tiled _ _ _ Hok) as [Hr _].
  destruct (placed_apart _ _ _ _ _ _ _ _ _ _ Hr Hp Hp') as [(? & ? & _)|?]; auto.
Qed.

Lemma used_bounds h bs fl p s : heap_ok h bs fl -> (p, s) ∈ used base bs ->
  base <= p /\ 32 <= s /\ p + s <= mem_brk h - 8 /\ p mod 8 = 0.
Proof.
  intros Hok Hp%elem_of_used. destruct (ok_tiled _ _ _ Hok) as [Hr _].
  pose proof (placed_bounds _ _ _ _ _ _ _ Hr Hp) as (? & ? & ? & Hm & _).
  rewrite (ok_brk _ _ _ Hok). split; [done|]. split; [done|]. split; [lia|].
  replace p with ((p - base) + base) by lia. apply mod8_add; [done|]. by apply mod8_add.
Qed.

Lemma used_nodup w a pu bs : row w a pu bs -> NoDup (used a bs).
Proof.
  revert a pu. induction bs as [|[s u] bs IH]; intros a pu; [constructor|].
  intros (H1 & _ & _ & _ & Hr). change ((s, u) :: bs) with ([(s, u)] ++ bs). rewrite used_app, used_single.
  cbn [total fst]. rewrite Z.add_0_r. apply NoDup_app. split; [destruct u; [apply NoDup_singleton|constructor]|].
  split; [|by eapply IH]. intros [p t] Hin Hin'. destruct u; [|by apply elem_of_nil in Hin].
  apply list_elem_of_singleton in Hin as [= -> ->]. apply elem_of_used in Hin'.
  pose proof (placed_bounds _ _ _ _ _ _ _ Hr Hin'). lia.
Qed.

(** A freshly allocated block is apart from those in use before. *)
Lemma fresh_apart h bs bs' fl p s : heap_ok h bs' fl ->
  used base bs' ≡ₚ (p, s) :: used base bs ->
  forall q t, (q, t) ∈ used base bs -> q + t <= p \/ p + s <= q.
Proof.
  intros Hok Hp q t Hq. pose proof (used_nodup _ _ _ _ (proj1 (ok_tiled _ _ _ Hok))) as Hnd.
  rewrite Hp in Hnd. apply NoDup_cons in Hnd as [Hnd _].
  destruct (used_apart h bs' fl p s q t Hok) as [[-> ->]|?]; [rewrite Hp; by left|rewrite Hp; by right|done|lia].
Qed.
End coalesce.

(** ** The contract *)

(** The simulated memory starts at [lo], the machine has pages of [pagesize] bytes. *)
Record platform (lo pagesize : Z) : Prop := {
  platform_lo : 0 < lo;
  platform_align : lo mod 8 = 0;
  platform_page : 32 <= pagesize <= 2 ^ 32;
  platform_page_align : pagesize mod 8 = 0;
  platform_space : lo + MAX_HEAP < 2 ^ 62
}.

(** What a heap promises: the blocks in use, as addresses and sizes of their
    payloads, are inside the heap, aligned and disjoint. *)
Definition payloads (lo : Z) (bs : list blk) : list (Z * Z) :=
  (fun b => (b.1 + 8, b.2 - 8)) <$> used (lo + 8) bs.

(** [mm_init], on the area [mem_init] got, succeeds and makes a well-formed
    heap with one free block and nothing in use. *)
Theorem mm_init_spec lo pagesize area (Hplat : platform lo pagesize)
    (Harea : forall x, lo <= x < lo + MAX_HEAP -> x mod 8 = 0 -> is_Some (area !! x)) :
  exists h, mm_init lo (mem_init lo area) = Ok (0, h) /\
    heap_ok lo h [(32, false)] [lo + 8] /\ payloads lo [(32, false)] = [].
Proof.
  destruct Hplat. destruct (mm_init_ok lo platform_lo0 platform_align0 platform_space0 area Harea)
    as (h & E & Hok). by exists h.
Qed.

(** C9: a request for [size] bytes on a well-formed heap returns a payload of at
    least [size] bytes, at a multiple of 8, apart from every payload in use, and
    leaves a well-formed heap where those in use are the old ones and the new one
    and what the old ones hold is unchanged; or the program exits, and then no
    free block was large enough and the limit leaves no room for the pages
    asked for. *)
Theorem mm_malloc_spec lo pagesize fuel h bs fl size (Hplat : platform lo pagesize)
    (Hok : heap_ok lo h bs fl) (Hsize : 0 < size < 2 ^ 61) (Hfuel : (S (length bs) < fuel)%nat) :
  (exists h' bs' fl' p s,
     mm_malloc lo pagesize fuel size h = Ok (p, h') /\ heap_ok lo h' bs' fl' /\
     payloads lo bs' ≡ₚ (p, s) :: payloads lo bs /\ size <= s /\ p mod 8 = 0 /\
     (forall q t, (q, t) ∈ payloads lo bs -> q + t <= p \/ p + s <= q) /\
     (forall q t x, (q, t) ∈ payloads lo bs -> q <= x < q + t -> words h' !! x = words h !! x)) \/
  (mm_malloc lo pagesize fuel size h = Err (Exit 0) /\
     lo + MAX_HEAP < mem_brk h + page_bytes pagesize (request_size size) /\
     forall b s, (b, s, false) ∈ placed (lo + 8) bs -> s < request_size size).
Proof.
  destruct Hplat. destruct (mm_malloc_ok lo platform_lo0 platform_align0 pagesize platform_page0
    platform_page_align0 platform_space0 fuel h bs fl size Hok Hsize Hfuel)
    as [(h' & bs' & fl' & p & s & E & Hok' & Hu & Hs & Hk & _)|?]; [left|by right].
  exists h', bs', fl', p, (s - 8). split; [done|]. split; [done|]. split; [|split; [lia|split; [|split]]].
  - unfold payloads. rewrite Hu. cbn. by replace (p - 8 + 8) with p by lia.
  - destruct (used_bounds lo platform_align0 h' bs' fl' (p - 8) s Hok') as (_ & _ & _ & H).
    { rewrite Hu. by left. }
    replace p with (p - 8 + 8) by lia. by apply mod8_add.
  - intros q t ([q' t'] & [= -> ->] & Hq)%list_elem_of_fmap. cbn.
    pose proof (fresh_apart lo h' bs bs' fl' _ _ Hok' Hu q' t' Hq). lia.
  - intros q t x ([q' t'] & [= -> ->] & Hq)%list_elem_of_fmap Hx. cbn in Hx.
    apply (Hk (q' - 1) q' t'); [done|lia|lia].
Qed.

(** C10: freeing a payload in use gives it back: the heap stays well formed, the
    payloads in use are the others, and what they hold is unchanged; the freed
    space is merged with the free blocks around it. *)
Theorem mm_free_spec lo pagesize fuel h bs fl p s (Hplat : platform lo pagesize)
    (Hok : heap_ok lo h bs fl) (Hp : (p, s) ∈ payloads lo bs) (Hfuel : (length bs < fuel)%nat) :
  exists h' bs' fl', mm_free lo fuel p h = Ok (tt, h') /\ heap_ok lo h' bs' fl' /\
    payloads lo bs ≡ₚ (p, s) :: payloads lo bs' /\ (length bs' <= length bs)%nat /\
    (forall q t x, (q, t) ∈ payloads lo bs' -> q <= x < q + t -> words h' !! x = words h !! x).
Proof.
  destruct Hplat. apply list_elem_of_fmap in Hp as ([b s0] & [= -> ->] & Hb). cbn [fst snd].
  destruct (mm_free_ok lo platform_lo0 platform_align0 pagesize platform_page0
    platform_page_align0 platform_space0 fuel h bs fl (b + 8) s0 Hok)
    as (h' & bs' & fl' & E & Hok' & Hu & Hk & Hl).
  { by replace (b + 8 - 8) with b by lia. } { done. }
  replace (b + 8 - 8) with b in * by lia.
  exists h', bs', fl'. split; [done|]. split; [done|]. split; [|split; [done|]].
  - unfold payloads. by rewrite Hu.
  - intros q t x ([q' t'] & [= -> ->] & Hq)%list_elem_of_fmap Hx. cbn in Hx.
    apply (Hk q' t' x); [rewrite Hu; by right| |lia].
    intros ->. pose proof (used_nodup _ _ _ _ (proj1 (ok_tiled _ _ _ _ Hok))) as Hnd.
    assert (Hin : (b, t') ∈ used (lo + 8) bs) by (rewrite Hu; by right).
    destruct (used_apart lo h bs fl b s0 b t' Hok Hb Hin) as [[_ ->]|Hbad].
    + rewrite Hu in Hnd. by apply NoDup_cons in Hnd as [? _].
    + pose proof (used_bounds lo platform_align0 h bs fl b s0 Hok Hb).
      pose proof (used_bounds lo platform_align0 h bs fl b t' Hok Hin). lia.
Qed.

(** A request near the top of [size_t] wraps around to the smallest block. *)
Lemma request_size_wraps size : 2 ^ 64 - 8 <= size < 2 ^ 64 -> request_size size = 32.
Proof.
  intros Hs. unfold request_size, WORD_SIZE, MIN_BLOCK_SIZE.
  assert (u64 (size + 8) = size + 8 - 2 ^ 64) as ->.
  { unfold wrapu. rewrite <- (Z.mod_small (size + 8 - 2 ^ 64) (2 ^ 64)) by bound_lia.
    symmetry. rewrite Zminus_mod, Z_mod_same_full, Z.sub_0_r. apply Zmod_mod. }
  destruct (Z.leb_spec (size + 8 - 2 ^ 64) 32); [done|bound_lia].
Qed.

(** [mm_realloc] reads the header of the block before it asks whether there is one. *)
Lemma mm_realloc_null lo pagesize fuel size h : words h !! (-8) = None ->
  mm_realloc lo pagesize fuel 0 size h = Err BadAccess.
Proof.
  intros H. unfold mm_realloc. change (sizeAndTags (0 - WORD_SIZE)) with (-8).
  apply bind_err. unfold word. by rewrite H.
Qed.
