(* ===== verification/MallocRealloc.v ===== *)
(** Resizing a block with [mm_realloc] of [Malloc]: in place, into the free block
    after it, or by moving it; the block keeps the bytes that fit. *)
From Stdlib Require Import ZArith Lia.
From S2P Require Import Prelude Malloc MallocList MallocSpec.
Open Scope Z_scope.

(** ** Bytes *)

(** The byte at [x] of a memory of words. *)
Definition byte_at (w : gmap Z Z) (x : Z) : option Z :=
  (fun v => v / 2 ^ (8 * (x mod 8)) mod 2 ^ 8) <$> w !! (x - x mod 8).

Lemma byte_at_word w x i : x mod 8 = 0 -> 0 <= i < 8 ->
  byte_at w (x + i) = (fun v => v / 2 ^ (8 * i) mod 2 ^ 8) <$> w !! x.
Proof.
  intros Hx Hi. unfold byte_at. assert ((x + i) mod 8 = i) as ->.
  { rewrite Zplus_mod, Hx, Z.add_0_l, Zmod_mod. by apply Z.mod_small. }
  by replace (x + i - i) with x by lia.
Qed.

(** The low bytes of a word replaced by those of another. *)
Lemma low_bytes v o r i : 0 <= i < r ->
  (v mod 2 ^ (8 * r) + (o - o mod 2 ^ (8 * r))) / 2 ^ (8 * i) mod 2 ^ 8 = v / 2 ^ (8 * i) mod 2 ^ 8.
Proof.
  intros Hi.
  assert (E : 2 ^ (8 * r) = 2 ^ 8 * 2 ^ (8 * (r - i - 1)) * 2 ^ (8 * i))
    by (rewrite <- !Z.pow_add_r by lia; f_equal; lia).
  set (K := 2 ^ (8 * (r - i - 1))) in *. set (P := 2 ^ (8 * i)) in *.
  assert (HP : 0 < P) by (apply Z.pow_pos_nonneg; lia).
  assert (HM : 0 < 2 ^ (8 * r)) by (apply Z.pow_pos_nonneg; lia).
  pose proof (Z.div_mod v (2 ^ (8 * r)) ltac:(lia)) as Hv.
  pose proof (Z.div_mod o (2 ^ (8 * r)) ltac:(lia)) as Ho.
  set (d := o / 2 ^ (8 * r) - v / 2 ^ (8 * r)).
  replace (v mod 2 ^ (8 * r) + (o - o mod 2 ^ (8 * r))) with (v + (2 ^ 8 * K * d) * P)
    by (unfold d; rewrite E in *; nia).
  rewrite Z.div_add by lia. rewrite <- Z.mul_assoc, (Z.mul_comm (2 ^ 8)). apply Z_mod_plus_full.
Qed.

(** ** [memcpy] *)

Lemma copy_words_run n h dst src :
  (forall i, 0 <= i < Z.of_nat n -> is_Some (words h !! (src + 8 * i)) /\ is_Some (words h !! (dst + 8 * i))) ->
  src + 8 * Z.of_nat n <= dst \/ dst + 8 * Z.of_nat n <= src ->
  exists h', copy_words n dst src h = Ok (tt, h') /\ mem_brk h' = mem_brk h /\
    only (fun x => exists i, 0 <= i < Z.of_nat n /\ x = dst + 8 * i) h h' /\
    forall i, 0 <= i < Z.of_nat n -> words h' !! (dst + 8 * i) = words h !! (src + 8 * i).
Proof.
  revert h dst src. induction n as [|n IH]; intros h dst src Hm Ha; cbn [copy_words].
  - exists h. split; [done|]. split; [done|]. split; [apply only_refl|lia].
  - destruct (Hm 0) as [[v Hv] Hd]; [lia|]. rewrite Z.mul_0_r, !Z.add_0_r in *.
    step (word_run _ _ _ Hv). step (set_word_run _ _ v Hd).
    set (h1 := mk_heap (<[dst := v]> (words h)) (mem_brk h)). unfold WORD_SIZE.
    destruct (IH h1 (dst + 8) (src + 8)) as (h' & E & Hb & Ho & Hc).
    + intros i Hi. cbn. destruct (Hm (i + 1)) as [H1 H2]; [lia|].
      replace (src + 8 + 8 * i) with (src + 8 * (i + 1)) by lia.
      replace (dst + 8 + 8 * i) with (dst + 8 * (i + 1)) by lia.
      by split; apply lookup_insert_is_Some'; right.
    + lia.
    + exists h'. split; [done|]. split; [done|]. split.
      * eapply (only_trans _ _ h1).
        -- apply only_set. exists 0. lia.
        -- eapply only_mono; [|exact Ho]. intros x (i & Hi & ->). exists (i + 1). lia.
      * intros i Hi. destruct (decide (i = 0)) as [->|].
        -- rewrite (proj2 Ho) by (intros (j & Hj & ?); lia). cbn.
           rewrite Z.mul_0_r, !Z.add_0_r. rewrite lookup_insert_eq. by symmetry.
        -- replace (dst + 8 * i) with (dst + 8 + 8 * (i - 1)) by lia. rewrite Hc by lia. cbn.
           rewrite lookup_insert_ne by lia. f_equal. lia.
Qed.

(** Copying between aligned blocks apart copies the bytes and changes only words
    of the destination. *)
Lemma memcpy_ok h dst src n : dst mod 8 = 0 -> src mod 8 = 0 -> 0 <= n ->
  (forall x, x mod 8 = 0 -> src <= x < src + n -> is_Some (words h !! x)) ->
  (forall x, x mod 8 = 0 -> dst <= x < dst + n -> is_Some (words h !! x)) ->
  src + (n + 7) / 8 * 8 <= dst \/ dst + (n + 7) / 8 * 8 <= src ->
  exists h', memcpy dst src n h = Ok (tt, h') /\ mem_brk h' = mem_brk h /\
    only (fun x => dst <= x < dst + n) h h' /\
    forall i, 0 <= i < n -> byte_at (words h') (dst + i) = byte_at (words h) (src + i).
Proof.
  intros Hd8 Hs8 Hn Hsm Hdm Hap. unfold memcpy, WORD_SIZE. cbn zeta.
  pose proof (Z.div_mod n 8 ltac:(lia)) as Hdiv. pose proof (Z.mod_pos_bound n 8 ltac:(lia)) as Hr.
  set (q := n / 8) in *. set (r := n mod 8) in *.
  assert (Hq : Z.of_nat (Z.to_nat q) = q) by lia.
  assert (Hround : (n + 7) / 8 * 8 = if r =? 0 then 8 * q else 8 * q + 8).
  { destruct (Z.eqb_spec r 0).
    - replace (n + 7) with (7 + q * 8) by lia. rewrite Z.div_add by lia. change (7 / 8) with 0. lia.
    - replace (n + 7) with ((r - 1) + (q + 1) * 8) by lia. rewrite Z.div_add by lia.
      rewrite (Z.div_small (r - 1)) by lia. lia. }
  assert (Hmul : forall x i, x mod 8 = 0 -> (x + 8 * i) mod 8 = 0)
    by (intros x i Hx; apply mod8_add; [done|]; rewrite Z.mul_comm; apply Z_mod_mult).
  destruct (copy_words_run (Z.to_nat q) h dst src) as (h1 & E1 & Hb1 & Ho1 & Hc1).
  { intros i Hi. split; [apply Hsm|apply Hdm]; auto; lia. }
  { destruct (r =? 0); lia. }
  rewrite Hq in *. step E1.
  assert (Hwhole : forall h', (forall i, 0 <= i < q -> words h' !! (dst + 8 * i) = words h1 !! (dst + 8 * i)) ->
    forall i, 0 <= i < 8 * q -> byte_at (words h') (dst + i) = byte_at (words h) (src + i)).
  { intros h' Hh' i Hi. pose proof (Z.div_mod i 8 ltac:(lia)) as Hdi.
    pose proof (Z.mod_pos_bound i 8 ltac:(lia)).
    replace (dst + i) with (dst + 8 * (i / 8) + i mod 8) by lia.
    replace (src + i) with (src + 8 * (i / 8) + i mod 8) by lia.
    rewrite !byte_at_word by (auto; lia). rewrite Hh', Hc1 by lia. done. }
  assert (Hon : only (fun x => dst <= x < dst + n) h h1).
  { eapply only_mono; [|exact Ho1]. intros x (i & Hi & ->). lia. }
  destruct (Z.eqb_spec r 0) as [Hr0|Hr0].
  - exists h1. split; [done|]. split; [done|]. split; [done|]. intros i Hi. apply Hwhole; [done|lia].
  - replace (n - r) with (8 * q) by lia.
    destruct (Hsm (src + 8 * q)) as [v Hv]; [auto|lia|]. destruct (Hdm (dst + 8 * q)) as [o Ho]; [auto|lia|].
    assert (Hno : forall x, x = src + 8 * q \/ x = dst + 8 * q -> words h1 !! x = words h !! x).
    { intros x Hx. apply Ho1. intros (j & Hj & ?). lia. }
    erewrite bind_ok by (apply word_run; rewrite Hno by auto; exact Hv).
    erewrite bind_ok by (apply word_run; rewrite Hno by auto; exact Ho).
    rewrite set_word_run by (rewrite Hno by auto; by eexists).
    eexists; split; [done|]. split; [done|]. split.
    + eapply only_trans; [exact Hon|]. apply only_set. lia.
    + intros i Hi. destruct (Z.lt_ge_cases i (8 * q)).
      * apply Hwhole; [|lia]. intros j Hj. cbn. rewrite lookup_insert_ne by lia. done.
      * replace (dst + i) with (dst + 8 * q + (i - 8 * q)) by lia.
        replace (src + i) with (src + 8 * q + (i - 8 * q)) by lia.
        rewrite !byte_at_word by (auto; lia). cbn. rewrite lookup_insert_eq, Hv. cbn. f_equal.
        apply low_bytes. lia.
Qed.

(** ** Blocks in use *)

Section realloc.
Context (lo : Z) (Hlo : 0 < lo) (Halign : lo mod 8 = 0) (pagesize : Z) (Hpage : 32 <= pagesize <= 2 ^ 32)
  (Hpage8 : pagesize mod 8 = 0) (Hspace : lo + MAX_HEAP < 2 ^ 62).
Abbreviation base := (lo + 8).

(** The words of a payload are neither links nor tags. *)
Lemma payload_private w bs p t x : row w base true bs -> (p, t) ∈ used base bs -> p + 8 <= x < p + t ->
  ~ link_word lo (frees base bs) x /\ ~ tag_word base bs x /\ lo < x < base + total bs.
Proof.
  intros Hr Hp%elem_of_used Hx. pose proof (placed_bounds _ _ _ _ _ _ _ Hr Hp) as Hb. split; [|split].
  - intros [->|(b & (s & Hs)%frees_within & Hl)]; [lia|].
    pose proof (placed_bounds _ _ _ _ _ _ _ Hr Hs).
    destruct (placed_apart _ _ _ _ _ _ _ _ _ _ Hr Hp Hs) as [(_ & _ & [=])|?].
    unfold next, prev in Hl. lia.
  - intros (q & s & u & Hq & Hl). pose proof (placed_bounds _ _ _ _ _ _ _ Hr Hq).
    destruct (placed_apart _ _ _ _ _ _ _ _ _ _ Hr Hp Hq) as [(-> & -> & <-)|?]; [|lia].
    destruct Hl as [->|[[=] _]]. lia.
  - lia.
Qed.

(** What is written inside a payload leaves the heap well formed. *)
Lemma write_payload h h' bs fl p t : heap_ok lo h bs fl -> (p, t) ∈ used base bs ->
  only (fun x => p + 8 <= x < p + t) h h' -> mem_brk h' = mem_brk h -> heap_ok lo h' bs fl.
Proof.
  intros [Ha Hbrk Hmax [Hr He] Hf Hfr] Hp [Hs Ho] Hb.
  assert (Hpriv : forall x, p + 8 <= x < p + t -> _) by (intros x; by apply (payload_private _ _ _ _ x Hr Hp)).
  split; [auto|congruence|congruence| |  |done].
  - split.
    + eapply row_ext; [|exact Hr]. intros x Hx. apply Ho. intros Hin. by apply Hpriv in Hin as (_ & ? & _).
    + rewrite Ho; [done|]. intros Hin%Hpriv. lia.
  - eapply flist_frame; [exact Hf|..].
    + apply Ho. intros Hin%Hpriv. lia.
    + intros b Hb'. split; apply Ho; intros Hin; apply Hpriv in Hin as (Hl & _); apply Hl; right; exists b;
        (split; [by rewrite <- Hfr|auto]).
Qed.

(** The other blocks in use are apart from one of them. *)
Lemma rest_apart h bs fl b s rest q t : heap_ok lo h bs fl -> used base bs ≡ₚ (b, s) :: rest ->
  (q, t) ∈ rest -> q + t <= b \/ b + s <= q.
Proof.
  intros Hok Hp Hq. pose proof (used_nodup _ _ _ _ (proj1 (ok_tiled _ _ _ _ Hok))) as Hnd.
  rewrite Hp in Hnd. apply NoDup_cons in Hnd as [Hnd _].
  destruct (used_apart lo h bs fl b s q t Hok) as [[-> ->]|?]; [rewrite Hp; by left|rewrite Hp; by right|done|lia].
Qed.

Lemma used_detached h xs s ys fl : heap_ok lo h (xs ++ (s, true) :: ys) fl <-> detached lo xs ys s true h fl.
Proof.
  split; intros []; split; try done; [by rewrite ok_frees, frees_app|by rewrite frees_app].
Qed.

(** Words that are neither links nor tags keep what the blocks in use hold. *)
Lemma kept_private h h' w bs : row w base true bs ->
  only (fun x => link_word lo (frees base bs) x \/ tag_word base bs x \/ base + total bs <= x) h h' ->
  forall skip, kept lo skip bs h h'.
Proof.
  intros Hr [_ Ho] skip p s x Hp _ Hx. apply Ho.
  destruct (payload_private _ _ _ _ x Hr Hp Hx) as (? & ? & ?). intros [?|[?|?]]; [done|done|lia].
Qed.

(** The bytes of a payload are those of its words. *)
Lemma same_bytes h h' p i n : p mod 8 = 0 -> 0 <= i < n ->
  (forall x, p <= x < p + n -> words h' !! x = words h !! x) ->
  byte_at (words h') (p + i) = byte_at (words h) (p + i).
Proof.
  intros Hp Hi Hw. unfold byte_at. f_equal. apply Hw.
  assert ((p + i) mod 8 = i mod 8) as -> by (by rewrite Zplus_mod, Hp, Z.add_0_l, Zmod_mod).
  pose proof (Z.div_mod i 8 ltac:(lia)). pose proof (Z.mod_pos_bound i 8 ltac:(lia)).
  assert (0 <= i / 8) by (apply Z.div_pos; lia). lia.
Qed.

(** The word between two blocks, or after the last one. *)
Lemma edge_word pre post : tag_word base (pre ++ post) (base + total pre) \/
  base + total (pre ++ post) <= base + total pre.
Proof.
  destruct post as [|[s u] post]; [right; rewrite app_nil_r; lia|left].
  exists (base + total pre), s, u. split; [|by left]. rewrite placed_app. apply elem_of_app. right. by left.
Qed.

(** ** Resizing in place *)

(** A block in use takes the free block after it when that is enough. *)
Lemma realloc_grow_ok h xs s ys fl req : let b := base + total xs in let bs := xs ++ (s, true) :: ys in
  heap_ok lo h bs fl ->
  exists h' s' ys' fl', realloc_grow lo b s req (2 * b2z (last_used true xs)) h = Ok (s', h') /\
    heap_ok lo h' (xs ++ (s', true) :: ys') fl' /\ s <= s' /\ used (b + s') ys' = used (b + s) ys /\
    (length ys' <= length ys)%nat /\ mem_brk h' = mem_brk h /\ forall skip, kept lo skip bs h h'.
Proof.
  intros b bs Hok. pose proof Hok as Hd%used_detached. unfold realloc_grow, sizeAndTags.
  destruct (detached_facts lo Halign _ _ _ _ _ _ Hd) as (Hs & Hs8 & Hb8 & Hn1 & Hn2 & Htot & Hhd & Hnx & Hh8).
  fold b in Hb8, Hhd, Hnx. step (word_run _ _ _ Hnx).
  destruct (tagged_ops (hsize ys) (hused ys) true Hh8) as (HSZ & -> & _).
  assert (Hsame : exists h' s' ys' fl', ret s h = Ok (s', h') /\ heap_ok lo h' (xs ++ (s', true) :: ys') fl' /\
    s <= s' /\ used (b + s') ys' = used (b + s) ys /\ (length ys' <= length ys)%nat /\
    mem_brk h' = mem_brk h /\ forall skip, kept lo skip bs h h').
  { by exists h, s, ys, fl. }
  destruct (hused ys) eqn:Hhu; [exact Hsame|]. destruct ys as [|[a []] ys]; [done|done|].
  cbn [hsize hused fst snd] in *. rewrite HSZ. destruct (Z.leb_spec req (s + a)); [|exact Hsame]. clear Hsame.
  assert (Ebs : bs = (xs ++ [(s, true)]) ++ (a, false) :: ys) by (unfold bs; by rewrite <- (assoc_L (++))).
  assert (Htb : total bs = total xs + s + a + total ys) by (unfold bs; rewrite total_app; cbn; lia).
  assert (Etot : base + total (xs ++ [(s, true)]) = b + s) by (rewrite total_app; cbn; unfold b; lia).
  rewrite Ebs in Hok. destruct (detach_ok lo Hlo Halign pagesize Hpage Hpage8 Hspace h _ a ys fl Hok) as (h1 & fl1 & E1 & Hd1 & Ho1).
  rewrite Etot, <- Ebs in *. step E1.
  destruct (detached_facts lo Halign _ _ _ _ _ _ Hd1) as (Ha & Ha8 & _ & _ & Hn3 & _ & Hhd1 & Hnx1 & Hh8').
  pose proof Hd1 as [Hm1 Hbrk1 Hmax1 Ht1 Hf1 Hfr1]. rewrite <- Ebs in Ht1, Hbrk1.
  rewrite !Etot in *.
  assert (Hb1 : words h1 !! b = Some (tagged s true (last_used true xs))).
  { by apply (tiled_header _ _ _ xs ((s, true) :: (a, false) :: ys)). }
  assert (Hbb : base <= b) by (unfold b; lia).
  assert (Hroom : b + s + a < lo + MAX_HEAP) by (rewrite Htb in Hbrk1; unfold b; lia).
  assert (Hsa8 : (s + a) mod 8 = 0) by by apply mod8_add. set (pu := last_used true xs) in *.
  destruct (tagged_new (s + a) pu Hsa8) as [-> _]. run_set Hm1 ltac:(done).
  erewrite bind_ok by (apply word_run; cbn; by rewrite lookup_insert_eq).
  destruct (tagged_ops (s + a) false pu Hsa8) as (_&_&_&_&->&_).
  run_set Hm1 ltac:(done). run_set Hm1 ltac:(by apply mod8_add).
  replace (b + (s + a)) with (b + s + a) by lia.
  erewrite bind_ok by (apply word_run; cbn; look; exact Hnx1).
  destruct (tagged_ops (hsize ys) (hused ys) false Hh8') as (_&_&_&_&_&->&_).
  run_set Hm1 ltac:(by apply mod8_add; [apply mod8_add|]).
  set (n := tagged (hsize ys) (hused ys) true). set (h5 := mk_heap _ (mem_brk h1)).
  assert (Hl5 : forall x, x <> b -> x <> b + s -> x <> b + s + a -> words h5 !! x = words h1 !! x)
    by (intros; cbn; by look).
  exists h5, (s + a), ys, fl1. split; [done|]. split; [split|].
  - intros x Hx Hx8. cbn. repeat (apply lookup_insert_is_Some'; right). auto.
  - cbn [h5 mem_brk]. rewrite Hbrk1. unfold bs. rewrite !total_app. cbn. lia.
  - done.
  - apply (tiled_replace (words h1) _ _ _ xs [(s, true); (a, false)] [(s + a, true)] ys);
      fold b pu; cbn [total fst last_used].
    + exact Ht1.
    + intros x Hx. apply Hl5; lia.
    + cbn. look. split; [lia|]. by split.
    + lia.
    + rewrite Z.add_0_r, Z.add_assoc. cbn. by look.
  - eapply flist_frame; [exact Hf1|apply Hl5; lia|]. intros c Hc.
    destruct (detached_away lo Halign _ _ _ _ _ _ _ Hd1 Hc) as [? Haway]. rewrite Etot in Haway.
    rewrite Hfr1 in Hc.
    assert (Hca : c + 32 <= b \/ b + s + a <= c).
    { destruct Ht1 as [Hrow _]. apply row_app in Hrow as [Hrow1 (_ & _ & _ & _ & Hrow2)].
      rewrite frees_app in Hc. apply elem_of_app in Hc as [Hc|Hc].
      - apply elem_of_app in Hc as [(t & Hc)%frees_within|Hc]; [|by apply elem_of_nil in Hc].
        pose proof (placed_bounds _ _ _ _ _ _ _ Hrow1 Hc). unfold b. lia.
      - destruct Hrow2 as (_ & _ & _ & _ & Hrow3). apply frees_within in Hc as (t & Hc).
        pose proof (placed_bounds _ _ _ _ _ _ _ Hrow3 Hc). unfold b in *. lia. }
    unfold next, prev. split; apply Hl5; lia.
  - rewrite Hfr1, !frees_app. cbn. fold b. rewrite app_nil_r. by replace (b + s + a) with (b + (s + a)) by lia.
  - split; [lia|]. split; [cbn; by replace (b + s + a) with (b + (s + a)) by lia|]. split; [cbn; lia|].
    split; [cbn; rewrite Hbrk1; by rewrite (ok_brk _ _ _ _ Hok)|].
    eapply kept_private; [apply (ok_tiled _ _ _ _ Hok)|]. apply (only_trans _ _ h1).
    + eapply only_mono; [|exact Ho1]. cbn. tauto.
    + split; [intros x Hx; cbn; by repeat (apply lookup_insert_is_Some'; right)|].
      intros x Hx. apply Hl5; intros ->; apply Hx; right.
      * apply (edge_word xs).
      * rewrite <- Etot, Ebs. apply edge_word.
      * replace (b + s + a) with (base + total (xs ++ [(s, true); (a, false)]))
          by (rewrite total_app; cbn; unfold b; lia).
        change ((s, true) :: (a, false) :: ys) with ([(s, true); (a, false)] ++ ys) in bs.
        unfold bs. rewrite (assoc_L (++)). apply edge_word.
Qed.

(** What is left over is cut off when it makes a block. *)
Lemma realloc_shrink_ok h xs s ys fl req : let b := base + total xs in let bs := xs ++ (s, true) :: ys in
  heap_ok lo h bs fl -> 32 <= req <= s -> req mod 8 = 0 ->
  exists h' s' ys' fl',
    (if MIN_BLOCK_SIZE <=? s - req then
       do* split_block lo b s req (2 * b2z (last_used true xs));
       let* t := word (sizeAndTags (b + s)) in
       set_word (sizeAndTags (b + s)) (Z.land t (Z.lnot TAG_PRECEDING_USED))
     else ret tt) h = Ok (tt, h') /\
    heap_ok lo h' (xs ++ (s', true) :: ys') fl' /\ req <= s' <= s /\ used (b + s') ys' = used (b + s) ys /\
    (length ys' <= S (length ys))%nat /\ forall skip, kept lo skip (xs ++ (s', true) :: ys') h h'.
Proof.
  intros b bs Hok Hreq Hreq8. unfold MIN_BLOCK_SIZE. destruct (Z.leb_spec 32 (s - req)).
  2:{ exists h, s, ys, fl. split; [done|]. split; [done|]. split; [lia|]. split; [done|]. split; [lia|done]. }
  pose proof Hok as Hd%used_detached.
  destruct (detached_facts lo Halign _ _ _ _ _ _ Hd) as (_ & _ & _ & _ & _ & _ & _ & Hnx & Hh8).
  destruct (split_block_ok lo Hlo Halign pagesize Hpage h xs s true ys fl req Hd)
    as (h5 & E5 & Hn & Hok5 & Ho5); [lia|done|lia|]. fold b in Hnx, E5, Hn, Hok5, Ho5.
  set (bs' := xs ++ (req, true) :: (s - req, false) :: ys) in *.
  step E5. unfold sizeAndTags. rewrite Hnx in Hn. step (word_run _ _ _ Hn).
  destruct (tagged_ops (hsize ys) (hused ys) true Hh8) as (_&_&_&_&_&_&_&->).
  rewrite set_word_run by by eexists.
  assert (Hused : used (b + req) ((s - req, false) :: ys) = used (b + s) ys).
  { cbn. by replace (b + req + (s - req)) with (b + s) by lia. }
  eexists _, req, ((s - req, false) :: ys), _. split; [done|]. split; [exact Hok5|].
  split; [lia|]. split; [done|]. split; [done|].
  assert (Hcut : base + total (xs ++ [(req, true)]) = b + req) by (rewrite total_app; cbn; unfold b; lia).
  assert (Hend : base + total (xs ++ [(req, true); (s - req, false)]) = b + s)
    by (rewrite total_app; cbn; unfold b; lia).
  pose proof (proj1 (ok_tiled _ _ _ _ Hok5)) as Hr5.
  intros skip p t x Hp _ Hx. destruct (payload_private _ _ _ _ x Hr5 Hp Hx) as (Hl & Htag & Hlt). cbn.
  rewrite lookup_insert_ne.
  - apply Ho5. intros [?|[->|Hin]]; [done| |].
    + destruct (edge_word xs ((req, true) :: (s - req, false) :: ys)) as [?|He]; [done|].
      fold bs' b in He. lia.
    + apply elem_of_used in Hp.
      assert (Hf : (b + req, s - req, false) ∈ placed base bs').
      { unfold bs'. rewrite placed_app. cbn. fold b. set_solver. }
      destruct (placed_apart _ _ _ _ _ _ _ _ _ _ Hr5 Hp Hf) as [(_ & _ & [=])|?]. lia.
  - intros <-. rewrite <- Hend in Htag, Hlt.
    destruct (edge_word (xs ++ [(req, true); (s - req, false)]) ys) as [He|He];
      rewrite <- (assoc_L (++)) in He; [done|]. change (xs ++ _ ++ ys) with bs' in He. lia.
Qed.

(** ** Moving *)

Lemma used_cons a s bs : used a ((s, true) :: bs) = (a, s) :: used (a + s) bs.
Proof. done. Qed.

Lemma used_align h bs fl p s : heap_ok lo h bs fl -> (p - 8, s) ∈ used base bs ->
  p mod 8 = 0 /\ base + 8 <= p /\ 32 <= s /\ p - 8 + s <= base + total bs.
Proof.
  intros Hok Hp. destruct (used_bounds lo Halign h bs fl _ _ Hok Hp) as (? & ? & Hb & ?).
  rewrite (ok_brk _ _ _ _ Hok) in Hb. split; [|lia]. replace p with (p - 8 + 8) by lia. by apply mod8_add.
Qed.

(** The block is copied to a fresh one and given back. *)
Lemma realloc_move_ok fuel h bs fl p s rest n size : heap_ok lo h bs fl -> used base bs ≡ₚ (p - 8, s) :: rest ->
  0 < size < 2 ^ 61 -> 0 <= n <= size -> n <= s - 8 -> (S (S (length bs)) < fuel)%nat ->
  let run := (let* new_ptr := mm_malloc lo pagesize fuel size in
     if new_ptr =? 0 then ret 0
     else do* memcpy new_ptr p n; do* mm_free lo fuel p; ret new_ptr) in
  (exists h' bs' fl' p' s', run h = Ok (p', h') /\ heap_ok lo h' bs' fl' /\
     used base bs' ≡ₚ (p' - 8, s') :: rest /\ size + 8 <= s' /\
     (forall q t x, (q, t) ∈ rest -> q + 8 <= x < q + t -> words h' !! x = words h !! x) /\
     (forall i, 0 <= i < n -> byte_at (words h') (p' + i) = byte_at (words h) (p + i))) \/
  (run h = Err (Exit 0) /\ lo + MAX_HEAP < mem_brk h + page_bytes pagesize (request_size size)).
Proof.
  intros Hok Hu Hsize Hn Hns Hfuel run. unfold run.
  assert (Hp : (p - 8, s) ∈ used base bs) by (rewrite Hu; by left).
  destruct (mm_malloc_ok lo Hlo Halign pagesize Hpage Hpage8 Hspace fuel h bs fl size Hok Hsize ltac:(lia))
    as [(h2 & bs2 & fl2 & p' & s2 & E2 & Hok2 & Hu2 & Hs2 & Hk2 & Hl2)|(E2 & Hfull & _)].
  2:{ right. split; [|done]. by rewrite (bind_err _ _ _ _ E2). }
  left. step E2. assert (Hp2 : (p - 8, s) ∈ used base bs2) by (rewrite Hu2; by right).
  assert (Hp' : (p' - 8, s2) ∈ used base bs2) by (rewrite Hu2; by left).
  destruct (used_align _ _ _ _ _ Hok2 Hp2) as (Hp8 & Hpb & Hps & Hpe).
  destruct (used_align _ _ _ _ _ Hok2 Hp') as (Hp8' & Hpb' & Hps' & Hpe').
  destruct (Z.eqb_spec p' 0); [lia|].
  pose proof (fresh_apart lo h2 bs bs2 fl2 _ _ Hok2 Hu2) as Hap. pose proof (Hap _ _ Hp) as Happ.
  pose proof (Z.div_mod (n + 7) 8 ltac:(lia)) as Hd. pose proof (Z.mod_pos_bound (n + 7) 8 ltac:(lia)).
  destruct (memcpy_ok h2 p' p n) as (h3 & E3 & Hb3 & Ho3 & Hc3).
  1-3: lia.
  1-2: intros x Hx8 Hx; apply (heap_mapped lo _ _ _ _ Hok2); [lia|done].
  { lia. }
  step E3. assert (Hok3 : heap_ok lo h3 bs2 fl2).
  { eapply write_payload; [exact Hok2|exact Hp'| |done]. eapply only_mono; [|exact Ho3]. cbn. lia. }
  destruct (mm_free_ok lo Hlo Halign pagesize Hpage Hpage8 Hspace fuel h3 bs2 fl2 p s Hok3 Hp2 ltac:(lia))
    as (h4 & bs4 & fl4 & E4 & Hok4 & Hu4 & Hk4 & _).
  step E4. exists h4, bs4, fl4, p', s2. split; [done|]. split; [done|]. split.
  { rewrite Hu in Hu2. rewrite Hu2 in Hu4. apply (Permutation_cons_inv (a := (p - 8, s))).
    rewrite <- Hu4. apply perm_swap. }
  split; [done|]. split.
  - intros q t x Hq Hx. assert (Hqu : (q, t) ∈ used base bs) by (rewrite Hu; by right).
    assert (Hqu2 : (q, t) ∈ used base bs2) by (rewrite Hu2; by right).
    pose proof (rest_apart _ _ _ _ _ _ _ _ Hok Hu Hq). pose proof (Hap _ _ Hqu).
    rewrite (Hk4 q t x Hqu2) by lia. rewrite (proj2 Ho3) by lia. by apply (Hk2 (q - 1) q t); [|lia|].
  - intros i Hi. rewrite (same_bytes h3 h4 p' i n Hp8' Hi).
    + rewrite Hc3 by done. apply (same_bytes h h2 p i n); [done|done|]. intros x Hx.
      apply (Hk2 p (p - 8) s x); [done|lia|lia].
    + intros x Hx. apply (Hk4 (p' - 8) s2 x); [done|lia|lia].
Qed.

Lemma mm_realloc_ok fuel h bs fl p s rest size : heap_ok lo h bs fl -> used base bs ≡ₚ (p - 8, s) :: rest ->
  0 < size < 2 ^ 61 -> (S (S (length bs)) < fuel)%nat ->
  (exists h' bs' fl' p' s', mm_realloc lo pagesize fuel p size h = Ok (p', h') /\ heap_ok lo h' bs' fl' /\
     used base bs' ≡ₚ (p' - 8, s') :: rest /\ size + 8 <= s' /\
     (forall q t x, (q, t) ∈ rest -> q + 8 <= x < q + t -> words h' !! x = words h !! x) /\
     (forall i, 0 <= i < size -> i < s - 8 -> byte_at (words h') (p' + i) = byte_at (words h) (p + i)) /\
     (request_size size <= s -> p' = p)) \/
  (mm_realloc lo pagesize fuel p size h = Err (Exit 0) /\ s < request_size size /\
     lo + MAX_HEAP < mem_brk h + page_bytes pagesize (request_size size)).
Proof.
  intros Hok Hu Hsize Hfuel. assert (Hin : (p - 8, s) ∈ used base bs) by (rewrite Hu; by left).
  destruct (used_align _ _ _ _ _ Hok Hin) as (Hp8 & Hpb & Hps & _).
  destruct (request_size_ok size Hsize) as (Hr1 & Hr2 & Hr3).
  pose proof Hin as Hpl%elem_of_used.
  destruct (placed_split _ _ _ _ _ Hpl) as (xs & ys & -> & Hb). set (b := base + total xs) in *.
  pose proof (tiled_header _ _ _ xs ((s, true) :: ys) (ok_tiled _ _ _ _ Hok)) as Hhd. fold b in Hhd.
  pose proof (proj1 (used_detached _ _ _ _ _) Hok) as Hd.
  destruct (detached_facts lo Halign _ _ _ _ _ _ Hd) as (_ & Hs8 & _).
  set (pu := last_used true xs) in *. cbn [hsize hused fst snd] in Hhd.
  assert (Hrest : rest ≡ₚ used base xs ++ used (b + s) ys).
  { rewrite used_app, used_cons in Hu. fold b in Hu. rewrite Hb in Hu.
    apply (Permutation_cons_inv (a := (b, s))). rewrite <- Hu. solve_Permutation. }
  assert (Hresized : forall s' ys', used (b + s') ys' = used (b + s) ys ->
    used base (xs ++ (s', true) :: ys') ≡ₚ (p - 8, s') :: rest).
  { intros s' ys' E. rewrite used_app, used_cons. fold b. rewrite E, Hrest, Hb. solve_Permutation. }
  unfold mm_realloc, sizeAndTags, WORD_SIZE. rewrite Hb. step (word_run _ _ _ Hhd).
  destruct (tagged_ops s true pu Hs8) as (-> & _ & _ & -> & _).
  destruct (Z.eqb_spec p 0) as [|_]; [lia|]. destruct (Z.eqb_spec size 0) as [|_]; [lia|].
  set (req := request_size size) in *. destruct (Z.eqb_spec req s) as [Hrs|Hrs].
  { left. exists h, (xs ++ (s, true) :: ys), fl, p, s. split; [done|].
    split; [done|]. split; [done|]. split; [lia|done]. }
  assert (Hgrow : exists h' s' ys' fl',
    (if s <? req then realloc_grow lo b s req (2 * b2z pu) else ret s) h = Ok (s', h') /\
    heap_ok lo h' (xs ++ (s', true) :: ys') fl' /\ s <= s' /\ used (b + s') ys' = used (b + s) ys /\
    (length ys' <= length ys)%nat /\ mem_brk h' = mem_brk h /\
    forall skip, kept lo skip (xs ++ (s, true) :: ys) h h').
  { destruct (s <? req); [by apply (realloc_grow_ok h xs s ys fl req)|]. by exists h, s, ys, fl. }
  destruct Hgrow as (h1 & s1 & ys1 & fl1 & E1 & Hok1 & Hs1 & Hu1 & Hl1 & Hb1 & Hk1). step E1.
  assert (Hkr : forall q t x, (q, t) ∈ rest -> q + 8 <= x < q + t -> words h1 !! x = words h !! x).
  { intros q t x Hq Hx. apply (Hk1 (q - 1) q t); [rewrite Hu; by right|lia|done]. }
  assert (Hkp : forall x, p <= x < p + (s - 8) -> words h1 !! x = words h !! x).
  { intros x Hx. apply (Hk1 p (p - 8) s); [done|lia|lia]. }
  destruct (Z.leb_spec req s1) as [Hle|Hgt].
  - left. destruct (realloc_shrink_ok h1 xs s1 ys1 fl1 req Hok1 ltac:(lia) Hr2)
      as (h2 & s2 & ys2 & fl2 & E2 & Hok2 & Hs2 & Hu2 & _ & Hk2). step E2.
    fold b in Hu2. rewrite Hu1 in Hu2.
    pose proof (Hresized s2 ys2 Hu2) as Hused2. exists h2, (xs ++ (s2, true) :: ys2), fl2, p, s2.
    split; [done|]. split; [done|]. split; [done|]. split; [lia|]. split; [|split; [|done]].
    + intros q t x Hq Hx. rewrite (Hk2 (q - 1) q t); [by eapply Hkr|rewrite Hused2; by right|lia|done].
    + intros i Hi His. apply (same_bytes h h2 p i (Z.min size (s - 8)) Hp8); [lia|]. intros x Hx.
      rewrite (Hk2 p (p - 8) s2); [apply Hkp; lia|rewrite Hused2; by left|lia|lia].
  - set (n := if size <? s - 8 then size else s - 8).
    assert (Hn : n = Z.min size (s - 8)) by (unfold n; destruct (Z.ltb_spec size (s - 8)); lia).
    destruct (realloc_move_ok fuel h1 _ fl1 p s1 rest n size Hok1 (Hresized s1 ys1 Hu1) Hsize)
      as [(h' & bs' & fl' & p' & s' & E' & Hok' & Hu' & Hs' & Hk' & Hc')|[E' Hfull]]; [lia|lia| | |].
    + rewrite length_app in *. cbn in *. lia.
    + left. exists h', bs', fl', p', s'. split; [exact E'|]. split; [done|]. split; [done|]. split; [done|].
      split; [|split; [|lia]].
      * intros q t x Hq Hx. rewrite (Hk' q t x Hq Hx). by eapply Hkr.
      * intros i Hi His. rewrite Hc' by lia. apply (same_bytes h h1 p i (s - 8) Hp8); [lia|done].
    + right. rewrite <- Hb1. split; [exact E'|]. by split; [lia|].
Qed.

Lemma used_header h bs fl p s : heap_ok lo h bs fl -> (p - 8, s) ∈ used base bs ->
  exists t, words h !! (p - 8) = Some t /\ 0 < p.
Proof.
  intros Hok Hp. destruct (used_align _ _ _ _ _ Hok Hp) as (Hp8 & ? & ? & ?).
  destruct (heap_mapped lo h bs fl (p - 8) Hok) as [t Ht]; [lia|by apply mod8_sub|]. exists t. split; [done|lia].
Qed.
End realloc.

(** The block of a payload. *)
Definition block_of (b : Z * Z) : Z * Z := (b.1 - 8, b.2 + 8).

Lemma used_payloads lo bs : used (lo + 8) bs = block_of <$> payloads lo bs.
Proof.
  unfold payloads. rewrite <- list_fmap_compose. rewrite <- (list_fmap_id (used _ _)) at 1.
  apply list_fmap_ext. intros i [q t] _. unfold block_of. cbn. f_equal; lia.
Qed.

Lemma payload_block (rest : list (Z * Z)) : (fun b => (b.1 + 8, b.2 - 8)) <$> (block_of <$> rest) = rest.
Proof.
  rewrite <- list_fmap_compose. rewrite <- (list_fmap_id rest) at 2.
  apply list_fmap_ext. intros i [q t] _. unfold block_of. cbn. f_equal; lia.
Qed.

Lemma payloads_of lo bs p s rest : used (lo + 8) bs ≡ₚ (p - 8, s) :: (block_of <$> rest) ->
  payloads lo bs ≡ₚ (p, s - 8) :: rest.
Proof.
  intros H. unfold payloads. rewrite H. cbn. rewrite payload_block. by replace (p - 8 + 8) with p by lia.
Qed.

(** C11: resizing a payload in use to [size] bytes returns a payload of at least
    [size] bytes, in place when the block is large enough, that holds the bytes of the
    old one as far as both reach; the heap stays well formed, the other payloads in
    use are the same and what they hold is unchanged; or the program exits, and then
    the block was too small and the limit leaves no room for the pages asked for.  A
    [size] of 0 frees the payload and returns [NULL]. *)
Theorem mm_realloc_spec lo pagesize fuel h bs fl p s rest size (Hplat : platform lo pagesize)
    (Hok : heap_ok lo h bs fl) (Hp : payloads lo bs ≡ₚ (p, s) :: rest) (Hsize : 0 <= size < 2 ^ 61)
    (Hfuel : (S (S (length bs)) < fuel)%nat) :
  (0 < size ->
   (exists h' bs' fl' p' s',
     mm_realloc lo pagesize fuel p size h = Ok (p', h') /\ heap_ok lo h' bs' fl' /\
     payloads lo bs' ≡ₚ (p', s') :: rest /\ size <= s' /\ (request_size size <= s + 8 -> p' = p) /\
     (forall q t x, (q, t) ∈ rest -> q <= x < q + t -> words h' !! x = words h !! x) /\
     (forall i, 0 <= i < size -> i < s -> byte_at (words h') (p' + i) = byte_at (words h) (p + i))) \/
   (mm_realloc lo pagesize fuel p size h = Err (Exit 0) /\ s + 8 < request_size size /\
     lo + MAX_HEAP < mem_brk h + page_bytes pagesize (request_size size))) /\
  (size = 0 -> exists h' bs' fl', mm_realloc lo pagesize fuel p size h = Ok (0, h') /\
     heap_ok lo h' bs' fl' /\ payloads lo bs' ≡ₚ rest /\
     (forall q t x, (q, t) ∈ rest -> q <= x < q + t -> words h' !! x = words h !! x)).
Proof.
  destruct Hplat. assert (Hu : used (lo + 8) bs ≡ₚ (p - 8, s + 8) :: (block_of <$> rest)).
  { rewrite used_payloads. by rewrite Hp. }
  assert (Hin : forall q t, (q, t) ∈ rest -> (q - 8, t + 8) ∈ block_of <$> rest).
  { intros q t Hq. apply list_elem_of_fmap. by exists (q, t). }
  split; intros Hs.
  - destruct (mm_realloc_ok lo platform_lo platform_align pagesize platform_page platform_page_align
      platform_space fuel h bs fl p (s + 8) _ size Hok Hu ltac:(lia) Hfuel)
      as [(h' & bs' & fl' & p' & s' & E & Hok' & Hu' & Hs' & Hk & Hc & Hpp)|?]; [left|by right].
    exists h', bs', fl', p', (s' - 8). split; [exact E|]. split; [exact Hok'|].
    split; [by apply (payloads_of lo bs' p' s')|].
    split; [lia|]. split; [exact Hpp|]. split; [|intros; apply Hc; lia].
    intros q t x Hq Hx. apply (Hk _ _ x (Hin _ _ Hq)). lia.
  - subst size. assert (Hb : (p - 8, s + 8) ∈ used (lo + 8) bs) by (rewrite Hu; by left).
    destruct (mm_free_ok lo platform_lo platform_align pagesize platform_page platform_page_align
      platform_space fuel h bs fl p (s + 8) Hok Hb ltac:(lia)) as (h' & bs' & fl' & E & Hok' & Hu' & Hk & _).
    exists h', bs', fl'. split; [|split; [exact Hok'|split]].
    + destruct (used_header lo platform_lo platform_align h bs fl p (s + 8) Hok Hb) as (w & Hw & Hp0).
      unfold mm_realloc, sizeAndTags, WORD_SIZE. step (word_run _ _ _ Hw).
      destruct (Z.eqb_spec p 0); [lia|]. change (0 =? 0) with true. cbn iota. by step E.
    + rewrite Hu' in Hu. apply Permutation_cons_inv in Hu. unfold payloads. rewrite Hu.
      rewrite <- (payload_block rest) at 2. done.
    + intros q t x Hq Hx. pose proof (rest_apart _ _ _ _ _ _ _ _ _ Hok Hu (Hin _ _ Hq)).
      assert (Hqu : (q - 8, t + 8) ∈ used (lo + 8) bs) by (rewrite Hu; right; by apply Hin).
      destruct (used_align lo platform_align _ _ _ _ _ Hok Hqu) as (_ & _ & ? & _).
      destruct (used_align lo platform_align _ _ _ _ _ Hok Hb) as (_ & _ & ? & _).
      apply (Hk (q - 8) (t + 8)); [done|lia|lia].
Qed.

(** * The allocator's contract at a concrete heap. *)
Open Scope Z_scope.

Lemma example_platform : platform 4096 4096.
Proof. split; try done; unfold MAX_HEAP; lia. Qed.

(** An area [mem_init] may get: all zeros. *)
Lemma example_area : exists area : gmap Z Z,
  forall x, 4096 <= x < 4096 + MAX_HEAP -> x mod 8 = 0 -> is_Some (area !! x).
Proof.
  exists (list_to_map ((fun i => (4096 + 8 * i, 0)) <$> seqZ 0 (MAX_HEAP / 8))).
  intros x Hx Hx8. exists 0. apply elem_of_list_to_map.
  - rewrite <- list_fmap_compose. apply NoDup_fmap_2; [|apply NoDup_seqZ].
    intros i j H. cbn in H. lia.
  - apply list_elem_of_fmap. exists ((x - 4096) / 8).
    pose proof (Z.div_mod (x - 4096) 8 ltac:(lia)) as Hd.
    assert (H8 : (x - 4096) mod 8 = 0) by (rewrite Zminus_mod, Hx8; done). split; [f_equal; lia|].
    apply elem_of_seqZ. split; [apply Z.div_pos; lia|]. apply Z.div_lt_upper_bound; [lia|].
    change (8 * (0 + MAX_HEAP / 8)) with MAX_HEAP. lia.
Qed.

Lemma mm_init_spec_witness : exists area h, mm_init 4096 (mem_init 4096 area) = Ok (0, h) /\
  heap_ok 4096 h [(32, false)] [4104] /\ payloads 4096 [(32, false)] = [].
Proof.
  destruct example_area as [area Harea]. exists area.
  exact (mm_init_spec 4096 4096 area example_platform Harea).
Defined.

Lemma example_heap : exists h, heap_ok 4096 h [(32, false)] [4104].
Proof.
  destruct example_area as [area Harea].
  destruct (mm_init_ok 4096 ltac:(lia) eq_refl ltac:(unfold MAX_HEAP; lia) area Harea) as (h & _ & H).
  by exists h.
Qed.

(** The first request, for 100 bytes, makes the heap grow by a page. *)
Lemma mm_malloc_spec_witness : exists h, heap_ok 4096 h [(32, false)] [4104] /\
  exists h' bs' p s, mm_malloc 4096 4096 3 100 h = Ok (p, h') /\
    payloads 4096 bs' ≡ₚ [(p, s)] /\ 100 <= s.
Proof.
  destruct example_heap as (h & Hok). exists h. split; [exact Hok|].
  destruct (mm_malloc_spec 4096 4096 3 h [(32, false)] [4104] 100 example_platform Hok ltac:(lia)
    ltac:(cbn; lia)) as [(h' & bs' & fl' & p & s & E' & Hok' & Hp & Hs & _)|(_ & Hfull & _)].
  - exists h', bs', p, s. split; [exact E'|]. split; [exact Hp|exact Hs].
  - exfalso. rewrite (ok_brk _ _ _ _ Hok) in Hfull.
    change (page_bytes 4096 (request_size 100)) with 4096 in Hfull.
    unfold MAX_HEAP in Hfull. cbn in Hfull. lia.
Defined.

(** A heap with one payload of at least 100 bytes in use. *)
Lemma example_allocated : exists h bs fl p s, heap_ok 4096 h bs fl /\
  payloads 4096 bs ≡ₚ [(p, s)] /\ 100 <= s /\ (length bs <= 3)%nat.
Proof.
  destruct example_heap as (h & Hok).
  destruct (mm_malloc_ok 4096 ltac:(done) ltac:(done) 4096 ltac:(lia) ltac:(done)
    ltac:(unfold MAX_HEAP; lia) 3 h [(32, false)] [4104] 100 Hok ltac:(lia) ltac:(cbn; lia))
    as [(h1 & bs1 & fl1 & p & s & E1 & Hok1 & Hu1 & Hs & _ & Hl1)|(_ & Hfull & _)].
  - exists h1, bs1, fl1, p, (s - 8). split; [done|]. split; [|split; [lia|done]].
    unfold payloads. rewrite Hu1. cbn. by replace (p - 8 + 8) with p by lia.
  - exfalso. rewrite (ok_brk _ _ _ _ Hok) in Hfull.
    change (page_bytes 4096 (request_size 100)) with 4096 in Hfull.
    unfold MAX_HEAP in Hfull. cbn in Hfull. lia.
Qed.

(** A block allocated and given back. *)
Lemma mm_free_spec_witness : exists h bs fl p, heap_ok 4096 h bs fl /\
  exists h' bs' fl', mm_free 4096 5 p h = Ok (tt, h') /\ heap_ok 4096 h' bs' fl' /\
    payloads 4096 bs' = [].
Proof.
  destruct example_allocated as (h & bs & fl & p & s & Hok & Hp & _ & Hl).
  exists h, bs, fl, p. split; [exact Hok|].
  destruct (mm_free_spec 4096 4096 5 h bs fl p s example_platform Hok)
    as (h' & bs' & fl' & E & Hok' & Hq & _).
  - rewrite Hp. by left.
  - lia.
  - exists h', bs', fl'. split; [exact E|]. split; [exact Hok'|].
    rewrite Hp in Hq. by apply Permutation_cons_inv, Permutation_nil_l in Hq.
Defined.

(** A payload of 100 bytes cut to 40 stays where it is, with its first 40 bytes. *)
Lemma mm_realloc_spec_witness : exists h bs fl p s, heap_ok 4096 h bs fl /\ payloads 4096 bs ≡ₚ [(p, s)] /\
  exists h' bs' fl' s', mm_realloc 4096 4096 6 p 40 h = Ok (p, h') /\ heap_ok 4096 h' bs' fl' /\
    payloads 4096 bs' ≡ₚ [(p, s')] /\ 40 <= s' /\
    byte_at (words h') (p + 39) = byte_at (words h) (p + 39).
Proof.
  destruct example_allocated as (h & bs & fl & p & s & Hok & Hp & Hs & Hl).
  exists h, bs, fl, p, s. split; [exact Hok|]. split; [exact Hp|].
  destruct (mm_realloc_spec 4096 4096 6 h bs fl p s [] 40 example_platform Hok Hp ltac:(lia) ltac:(lia)) as [H _].
  destruct (H ltac:(lia)) as [(h' & bs' & fl' & p' & s' & E & Hok' & Hp' & Hs' & Hpp & _ & Hc)|(_ & Hbad & _)];
    change (request_size 40) with 48 in *; [|lia].
  rewrite Hpp in * by lia. exists h', bs', fl', s'. split; [exact E|]. split; [exact Hok'|].
  split; [exact Hp'|]. split; [exact Hs'|]. apply Hc; lia.
Defined.
