(* ===== verification/MallocBrk.v ===== *)
(** How far the operations of [Malloc] move the break: only a request for more
    space moves it, by the pages asked for; and the fuel that is always enough. *)
From Stdlib Require Import ZArith Lia.
From S2P Require Import Prelude Malloc MallocList MallocSpec.
Open Scope Z_scope.

Definition keeps_brk {A} (m : M heap A) : Prop :=
  forall h a h', m h = Ok (a, h') -> mem_brk h' = mem_brk h.
(** The break moves by at most [k]. *)
Definition grows {A} (k : Z) (m : M heap A) : Prop :=
  forall h a h', 0 <= mem_brk h -> m h = Ok (a, h') -> 0 <= mem_brk h' <= mem_brk h + k.

Create HintDb brk.

Lemma keeps_bind {A B} (m : M heap A) (k : A -> M heap B) :
  keeps_brk m -> (forall a, keeps_brk (k a)) -> keeps_brk (bind m k).
Proof.
  intros Hm Hk h b h' (a & h1 & E1 & E2)%bind_inv. rewrite (Hk _ _ _ _ E2). by eapply Hm.
Qed.
Lemma keeps_ret {A} (a : A) : keeps_brk (ret a).
Proof. intros h b h' [= _ <-]. done. Qed.
Lemma keeps_fail {A} e : keeps_brk (fail (A := A) e).
Proof. by intros h b h'. Qed.
Lemma keeps_word a : keeps_brk (word a).
Proof. intros h v h'. unfold word. destruct (_ !! _); [|done]. by intros [= _ <-]. Qed.
Lemma keeps_set_word a v : keeps_brk (set_word a v).
Proof. intros h u h'. unfold set_word. destruct (_ !! _); [|done]. by intros [= _ <-]. Qed.
#[export] Hint Resolve keeps_ret keeps_fail keeps_word keeps_set_word : brk.

(** Runs through a body that never calls [mem_sbrk]. *)
Ltac brk_step :=
  first [ solve [auto with brk] | apply keeps_bind; [|intros] | case_match ].
Ltac brk := intros; cbn zeta; repeat brk_step.

Lemma keeps_search fuel b req : keeps_brk (searchFreeList_loop fuel b req).
Proof. revert b. induction fuel as [|fuel IH]; intros b; cbn [searchFreeList_loop]; brk. Qed.
#[export] Hint Resolve keeps_search : brk.
Lemma keeps_searchFreeList lo fuel req : keeps_brk (searchFreeList lo fuel req).
Proof. unfold searchFreeList. brk. Qed.
Lemma keeps_insert lo b : keeps_brk (insertFreeBlock lo b).
Proof. unfold insertFreeBlock. brk. Qed.
Lemma keeps_remove lo b : keeps_brk (removeFreeBlock lo b).
Proof. unfold removeFreeBlock. brk. Qed.
#[export] Hint Resolve keeps_searchFreeList keeps_insert keeps_remove : brk.
Lemma keeps_preceding lo fuel b n : keeps_brk (coalesce_preceding lo fuel b n).
Proof. revert b n. induction fuel as [|fuel IH]; intros b n; cbn [coalesce_preceding]; brk. Qed.
Lemma keeps_following lo fuel b n : keeps_brk (coalesce_following lo fuel b n).
Proof. revert b n. induction fuel as [|fuel IH]; intros b n; cbn [coalesce_following]; brk. Qed.
#[export] Hint Resolve keeps_preceding keeps_following : brk.
Lemma keeps_coalesce lo fuel b : keeps_brk (coalesceFreeBlock lo fuel b).
Proof. unfold coalesceFreeBlock. brk. Qed.
Lemma keeps_split lo b s r t : keeps_brk (split_block lo b s r t).
Proof. unfold split_block. brk. Qed.
#[export] Hint Resolve keeps_coalesce keeps_split : brk.
Lemma keeps_allocate lo b r : keeps_brk (allocate_block lo b r).
Proof. unfold allocate_block. brk. Qed.
Lemma keeps_free lo fuel p : keeps_brk (mm_free lo fuel p).
Proof. unfold mm_free. brk. Qed.
Lemma keeps_copy n d s : keeps_brk (copy_words n d s).
Proof. revert d s. induction n as [|n IH]; intros d s; cbn [copy_words]; brk. Qed.
#[export] Hint Resolve keeps_allocate keeps_free keeps_copy : brk.
Lemma keeps_memcpy d s n : keeps_brk (memcpy d s n).
Proof. unfold memcpy. brk. Qed.
Lemma keeps_grow lo b s r t : keeps_brk (realloc_grow lo b s r t).
Proof. unfold realloc_grow. brk. Qed.
#[export] Hint Resolve keeps_memcpy keeps_grow : brk.

Lemma grows_keeps {A} k (m : M heap A) : 0 <= k -> keeps_brk m -> grows k m.
Proof. intros Hk Hm h a h' Hh E. rewrite (Hm _ _ _ E). lia. Qed.

Lemma grows_bind {A B} k1 k2 (m : M heap A) (f : A -> M heap B) :
  grows k1 m -> (forall a, grows k2 (f a)) -> grows (k1 + k2) (bind m f).
Proof.
  intros Hm Hf h b h' Hh (a & h1 & E1 & E2)%bind_inv.
  destruct (Hm _ _ _ Hh E1) as [H1 H2]. destruct (Hf _ _ _ _ H1 E2). lia.
Qed.
Lemma grows_before {A B} k (m : M heap A) (f : A -> M heap B) :
  keeps_brk m -> (forall a, grows k (f a)) -> grows k (bind m f).
Proof.
  intros Hm Hf h b h' Hh (a & h1 & E1 & E2)%bind_inv.
  specialize (Hf a h1 b h'). rewrite (Hm _ _ _ E1) in Hf. auto.
Qed.
Lemma grows_after {A B} k (m : M heap A) (f : A -> M heap B) :
  grows k m -> (forall a, keeps_brk (f a)) -> grows k (bind m f).
Proof.
  intros Hm Hf h b h' Hh (a & h1 & E1 & E2)%bind_inv. rewrite (Hf _ _ _ _ E2). by eapply Hm.
Qed.

Section platform.
Context (lo pagesize : Z) (Hpage : 32 <= pagesize).

Lemma page_bytes_nonneg req : 0 <= req -> 0 <= page_bytes pagesize req.
Proof. intros Hr. unfold page_bytes. apply Z.mul_nonneg_nonneg; [apply Z.div_pos|]; lia. Qed.

Lemma mem_sbrk_grows n : 0 <= n -> grows n (mem_sbrk lo n).
Proof.
  intros Hn h a h' Hh. unfold mem_sbrk. destruct (_ <? _); intros [= _ <-]; cbn; [lia|].
  unfold wrapu. split; [by apply Z.mod_pos_bound|]. apply Z.mod_le; [lia|done].
Qed.

Lemma requestMoreSpace_grows fuel req : 0 <= req -> grows (page_bytes pagesize req) (requestMoreSpace lo pagesize fuel req).
Proof.
  intros Hr. unfold requestMoreSpace. set (n := u64 (u64 (req + pagesize - 1) / pagesize * pagesize)).
  assert (Hle : u64 (req + pagesize - 1) / pagesize <= (req + pagesize - 1) / pagesize).
  { apply Z.div_le_mono; [lia|]. apply Z.mod_le; [lia|done]. }
  assert (Hdiv : 0 <= u64 (req + pagesize - 1) / pagesize).
  { apply Z.div_pos; [|lia]. by apply Z.mod_pos_bound. }
  assert (Hn : 0 <= n <= page_bytes pagesize req).
  { unfold n, wrapu at 1 3. split; [by apply Z.mod_pos_bound|].
    etransitivity; [apply Z.mod_le; [by apply Z.mul_nonneg_nonneg; [|lia]|done]|].
    unfold page_bytes. apply Z.mul_le_mono_nonneg_r; [lia|exact Hle]. }
  apply grows_after; [|brk]. intros h a h' Hh E.
  destruct (mem_sbrk_grows n ltac:(lia) _ _ _ Hh E). lia.
Qed.

Lemma request_size_nonneg size : 0 <= request_size size.
Proof.
  unfold request_size. destruct (_ <=? _); [done|]. by apply Z.mod_pos_bound.
Qed.

Lemma mm_malloc_grows fuel size : grows (page_bytes pagesize (request_size size)) (mm_malloc lo pagesize fuel size).
Proof.
  pose proof (request_size_nonneg size) as Hr. pose proof (page_bytes_nonneg _ Hr).
  unfold mm_malloc. destruct (size =? 0); [apply grows_keeps; [lia|brk]|]. cbn zeta.
  apply grows_before; [brk|]. intros p. apply grows_after; [|brk].
  destruct (p =? 0); [|apply grows_keeps; [lia|brk]].
  apply grows_after; [by apply requestMoreSpace_grows|brk].
Qed.

Lemma mm_realloc_grows fuel p size : grows (page_bytes pagesize (request_size size)) (mm_realloc lo pagesize fuel p size).
Proof.
  pose proof (request_size_nonneg size) as Hr. pose proof (page_bytes_nonneg _ Hr).
  unfold mm_realloc. apply grows_before; [brk|]. intros tags.
  destruct (p =? 0); [apply mm_malloc_grows|]. destruct (size =? 0); [apply grows_keeps; [lia|brk]|]. cbn zeta.
  destruct (_ =? _); [apply grows_keeps; [lia|brk]|]. apply grows_before; [brk|]. intros s.
  destruct (_ <=? s); [apply grows_keeps; [lia|brk]|]. apply grows_after; [apply mm_malloc_grows|brk].
Qed.
End platform.

(** A heap has at most one block for each 32 bytes of the area. *)
Lemma heap_blocks lo h bs fl : heap_ok lo h bs fl -> 32 * Z.of_nat (length bs) <= MAX_HEAP.
Proof.
  intros [_ Hbrk Hmax [Hr _] _ _].
  assert (32 * Z.of_nat (length bs) <= total bs).
  { clear -Hr. revert Hr. generalize (lo + 8) true. induction bs as [|[s u] bs IH]; intros a pu; cbn [row length total fst]; [lia|].
    intros (H1 & _ & _ & _ & Hr). specialize (IH _ _ Hr). lia. }
  lia.
Qed.
