(* ===== verification/Allocator.v ===== *)
(** The interface of [uw_cse351/lab5/mm.h]: the four operations an allocator gives
    its clients, as a class, and what it promises them, as a class of laws; and the
    instance of [mm.c].  The memory is that of [Malloc]; a payload is an address and
    a number of bytes. *)
From Stdlib Require Import ZArith Lia.
From S2P Require Import Prelude Malloc MallocList MallocSpec MallocRealloc MallocBrk.
Open Scope Z_scope.

Class Allocator := {
  al_init : M heap Z;
  al_malloc : Z -> M heap Z;
  al_free : Z -> M heap unit;
  al_realloc : Z -> Z -> M heap Z
}.

(** The words of the payloads [ps] are the same. *)
Definition same_payloads (ps : list (Z * Z)) (h h' : heap) : Prop :=
  forall q t x, (q, t) ∈ ps -> q <= x < q + t -> words h' !! x = words h !! x.

(** [al_holds h ps]: the heap is well formed and the payloads in use are [ps];
    [al_cost n]: how far a request for [n] bytes may move the break.  A request is served,
    or ends the program because the break cannot be moved so far. *)
Class AllocatorLaws (start : Z) (A : Allocator) := {
  al_holds : heap -> list (Z * Z) -> Prop;
  al_cost : Z -> Z;
  al_holds_perm : forall h ps ps', ps ≡ₚ ps' -> al_holds h ps -> al_holds h ps';
  al_holds_area : forall h ps x, al_holds h ps -> start <= x < start + MAX_HEAP -> x mod 8 = 0 ->
    is_Some (words h !! x);
  al_holds_in : forall h ps p s, al_holds h ps -> (p, s) ∈ ps ->
    0 < start /\ start <= p /\ p mod 8 = 0 /\ p + s < mem_brk h <= start + MAX_HEAP;
  al_holds_apart : forall h p s rest q t, al_holds h ((p, s) :: rest) -> (q, t) ∈ rest ->
    q + t <= p \/ p + s <= q;
  al_holds_write : forall h h' ps p s, al_holds h ps -> (p, s) ∈ ps ->
    only (fun x => p <= x < p + s) h h' -> mem_brk h' = mem_brk h -> al_holds h' ps;
  al_init_ok : forall h, (forall x, start <= x < start + MAX_HEAP -> x mod 8 = 0 -> is_Some (words h !! x)) ->
    exists h', al_init (mk_heap (words h) start) = Ok (0, h') /\ al_holds h' [];
  al_malloc_ok : forall h ps n, al_holds h ps -> 0 < n < 2 ^ 61 ->
    (exists p s h', al_malloc n h = Ok (p, h') /\ al_holds h' ((p, s) :: ps) /\ n <= s /\
      same_payloads ps h h') \/
    (al_malloc n h = Err (Exit 0) /\ start + MAX_HEAP < mem_brk h + al_cost n);
  al_free_ok : forall h p s rest, al_holds h ((p, s) :: rest) ->
    exists h', al_free p h = Ok (tt, h') /\ al_holds h' rest /\ same_payloads rest h h' /\
      mem_brk h' = mem_brk h;
  al_realloc_ok : forall h p s rest n, al_holds h ((p, s) :: rest) -> 0 < n < 2 ^ 61 ->
    (exists p' s' h', al_realloc p n h = Ok (p', h') /\ al_holds h' ((p', s') :: rest) /\ n <= s' /\
      same_payloads rest h h' /\
      forall i, 0 <= i < n -> i < s -> byte_at (words h') (p' + i) = byte_at (words h) (p + i)) \/
    (al_realloc p n h = Err (Exit 0) /\ start + MAX_HEAP < mem_brk h + al_cost n)
}.

(** ** The instance of [mm.c] *)

(** Rounds enough for every loop over the blocks of a heap. *)
Definition mm_fuel : nat := Z.to_nat (MAX_HEAP / 32 + 3).

Lemma mm_fuel_enough lo h bs fl : heap_ok lo h bs fl -> (S (S (length bs)) < mm_fuel)%nat.
Proof.
  intros Hb%heap_blocks. unfold mm_fuel. change (MAX_HEAP / 32) with 655360.
  change MAX_HEAP with 20971520 in Hb. lia.
Qed.

#[export] Instance mm_allocator (start pagesize : Z) : Allocator := {|
  al_init := mm_init start;
  al_malloc := mm_malloc start pagesize mm_fuel;
  al_free := mm_free start mm_fuel;
  al_realloc := mm_realloc start pagesize mm_fuel
|}.

Section instance.
Context (start pagesize : Z) (Hplat : platform start pagesize).

Definition mm_holds (h : heap) (ps : list (Z * Z)) : Prop :=
  exists bs fl, heap_ok start h bs fl /\ payloads start bs ≡ₚ ps.

Lemma mm_holds_used h ps : mm_holds h ps ->
  exists bs fl, heap_ok start h bs fl /\ used (start + 8) bs ≡ₚ block_of <$> ps.
Proof.
  intros (bs & fl & Hok & Hp). exists bs, fl. split; [done|]. rewrite used_payloads. by rewrite Hp.
Qed.

Lemma mm_holds_of h bs fl ps : heap_ok start h bs fl -> used (start + 8) bs ≡ₚ block_of <$> ps -> mm_holds h ps.
Proof.
  intros Hok Hu. exists bs, fl. split; [done|]. unfold payloads. rewrite Hu. by rewrite payload_block.
Qed.

Lemma block_of_in (ps : list (Z * Z)) q t : (q, t) ∈ ps -> (q - 8, t + 8) ∈ block_of <$> ps.
Proof. intros Hq. apply list_elem_of_fmap. by exists (q, t). Qed.

Lemma block_of_cons p s (rest : list (Z * Z)) : block_of <$> (p, s) :: rest = (p - 8, s + 8) :: (block_of <$> rest).
Proof. done. Qed.

#[export] Program Instance mm_laws : AllocatorLaws start (mm_allocator start pagesize) := {|
  al_holds := mm_holds;
  al_cost n := page_bytes pagesize (request_size n)
|}.
Next Obligation. intros h ps ps' E (bs & fl & Hok & Hp). exists bs, fl. by rewrite Hp. Qed.
Next Obligation. intros h ps x (bs & fl & Hok & _). apply (ok_area _ _ _ _ Hok). Qed.
Next Obligation.
  intros h ps p s (bs & fl & Hok & Hu)%mm_holds_used Hp. destruct Hplat as [Hlo Hal _ _ _].
  assert (Hin : (p - 8, s + 8) ∈ used (start + 8) bs) by (rewrite Hu; by apply block_of_in).
  destruct (used_align start Hal _ _ _ _ _ Hok Hin) as (? & ? & ? & ?).
  pose proof (ok_brk _ _ _ _ Hok). pose proof (ok_max _ _ _ _ Hok). split; [done|]. split; [lia|]. split; [done|lia].
Qed.
Next Obligation.
  intros h p s rest q t (bs & fl & Hok & Hu)%mm_holds_used Hq.
  pose proof (rest_apart start h bs fl (p - 8) (s + 8) _ (q - 8) (t + 8) Hok Hu (block_of_in _ _ _ Hq)). lia.
Qed.
Next Obligation.
  intros h h' ps p s (bs & fl & Hok & Hu)%mm_holds_used Hp Ho Hb. eapply mm_holds_of; [|exact Hu].
  eapply (write_payload start h h' bs fl (p - 8) (s + 8)); [exact Hok|rewrite Hu; by apply block_of_in| |done].
  eapply only_mono; [|exact Ho]. cbn. lia.
Qed.
Next Obligation.
  intros h Ha. destruct Hplat as [Hlo Hal _ _ Hsp].
  destruct (mm_init_ok start Hlo Hal Hsp (words h) Ha) as (h' & E & Hok). exists h'.
  split; [exact E|]. by exists [(32, false)], [start + 8].
Qed.
Next Obligation.
  intros h ps n (bs & fl & Hok & Hu)%mm_holds_used Hn. destruct Hplat as [Hlo Hal Hpg Hpg8 Hsp].
  cbn [al_malloc mm_allocator]. pose proof (mm_fuel_enough _ _ _ _ Hok) as Hfuel.
  destruct (mm_malloc_ok start Hlo Hal pagesize Hpg Hpg8 Hsp mm_fuel h bs fl n Hok Hn ltac:(lia))
    as [(h' & bs' & fl' & p & s & E & Hok' & Hu' & Hs & Hk & _)|(E & Hfull & _)]; [left|by right].
  exists p, (s - 8), h'. split; [exact E|]. split; [|split; [lia|]].
  - eapply mm_holds_of; [exact Hok'|]. rewrite Hu', Hu, block_of_cons. by replace (s - 8 + 8) with s by lia.
  - intros q t x Hq Hx. apply (Hk (q - 9) (q - 8) (t + 8)); [rewrite Hu; by apply block_of_in|lia|lia].
Qed.
Next Obligation.
  intros h p s rest (bs & fl & Hok & Hu)%mm_holds_used. destruct Hplat as [Hlo Hal Hpg Hpg8 Hsp].
  cbn [al_free mm_allocator]. pose proof (mm_fuel_enough _ _ _ _ Hok) as Hfuel. rewrite block_of_cons in Hu.
  assert (Hin : (p - 8, s + 8) ∈ used (start + 8) bs) by (rewrite Hu; by left).
  destruct (mm_free_ok start Hlo Hal pagesize Hpg Hpg8 Hsp mm_fuel h bs fl p (s + 8) Hok Hin ltac:(lia))
    as (h' & bs' & fl' & E & Hok' & Hu' & Hk & _).
  exists h'. split; [exact E|]. split; [|split].
  - eapply mm_holds_of; [exact Hok'|]. rewrite Hu' in Hu. by apply Permutation_cons_inv in Hu.
  - intros q t x Hq Hx. pose proof (rest_apart _ _ _ _ _ _ _ _ _ Hok Hu (block_of_in _ _ _ Hq)).
    assert (Hqu : (q - 8, t + 8) ∈ used (start + 8) bs) by (rewrite Hu; right; by apply block_of_in).
    destruct (used_align start Hal _ _ _ _ _ Hok Hqu) as (_ & _ & ? & _).
    destruct (used_align start Hal _ _ _ _ _ Hok Hin) as (_ & _ & ? & _).
    apply (Hk (q - 8) (t + 8)); [done|lia|lia].
  - by apply (keeps_free start mm_fuel p h tt).
Qed.
Next Obligation.
  intros h p s rest n (bs & fl & Hok & Hu)%mm_holds_used Hn. destruct Hplat as [Hlo Hal Hpg Hpg8 Hsp].
  cbn [al_realloc mm_allocator]. pose proof (mm_fuel_enough _ _ _ _ Hok) as Hfuel. rewrite block_of_cons in Hu.
  destruct (mm_realloc_ok start Hlo Hal pagesize Hpg Hpg8 Hsp mm_fuel h bs fl p (s + 8) _ n Hok Hu Hn Hfuel)
    as [(h' & bs' & fl' & p' & s' & E & Hok' & Hu' & Hs' & Hk & Hc & _)|(E & _ & Hfull)]; [left|by right].
  exists p', (s' - 8), h'. split; [exact E|]. split; [|split; [lia|split]].
  - eapply mm_holds_of; [exact Hok'|]. rewrite Hu', block_of_cons. by replace (s' - 8 + 8) with s' by lia.
  - intros q t x Hq Hx. apply (Hk _ _ x (block_of_in _ _ _ Hq)). lia.
  - intros i Hi His. apply Hc; lia.
Qed.
End instance.
