(* ===== verification/Mdriver.v ===== *)
(** The trace driver of [uw_cse351/lab5], [mdriver-realloc.c]: it reads a trace of
    requests, plays it on an allocator and checks what it gets.  The allocator is the
    interface of [Allocator], its memory that of [memlib.c], which the driver's
    [char] accesses share.
    The driver's own [malloc] does not fail and its fresh arrays hold [junk];
    messages are counted, not kept.  How often the timing package runs a trace is an
    argument; what it measures, and the report made of it, are left out. *)
From Stdlib Require Import ZArith Lia.
From S2P Require Import Prelude Malloc Allocator.
Open Scope Z_scope.

Definition MAXLINE : Z := 1024.

(** ** Data *)

Record range_t : Type := mk_range { lo : Z; hi : Z }.

Inductive op_type : Type := ALLOC | FREE | REALLOC.
Record traceop_t : Type := mk_op { type : op_type; index : Z; size : Z }.

Record trace_t : Type := mk_trace {
  sugg_heapsize : Z;
  num_ids : Z;
  num_ops : Z;
  weight : Z;
  ops : list traceop_t;
  blocks : list Z;
  block_sizes : list Z
}.

(** ** read_trace *)

(** [scanf]: blanks are skipped, then a conversion takes what fits. *)
Fixpoint skip_space (s : list Z) : list Z :=
  match s with
  | [] => []
  | c :: s' => if isspace c then skip_space s' else s
  end.
Fixpoint span (p : Z -> bool) (s : list Z) : list Z * list Z :=
  match s with
  | [] => ([], [])
  | c :: s' => if p c then let '(a, b) := span p s' in (c :: a, b) else ([], s)
  end.

(** [%s]: the next word, none at the end of the file. *)
Definition scan_word (s : list Z) : option (list Z * list Z) :=
  match skip_space s with
  | [] => None
  | s => Some (span (fun c => negb (isspace c)) s)
  end.

(** The number at the front, before it is stored. *)
Definition isdigit (c : Z) : bool := (48 <=? c) && (c <=? 57).
Definition scan_sign (s : list Z) : bool * list Z :=
  match s with 45 :: s => (true, s) | 43 :: s => (false, s) | s => (false, s) end.
Definition scan_number (s : list Z) : option (Z * list Z) :=
  let '(neg, s) := scan_sign (skip_space s) in
  match span isdigit s with
  | ([], _) => None
  | (ds, s) =>
      let v := digits_value 10 ((fun c => c - 48) <$> ds) in
      Some (if neg then - v else v, s)
  end.
(** [%d] and [%u]; the value is clamped to 64 bits and then stored in 32. *)
Definition scan_d (s : list Z) : option (Z * list Z) :=
  '(v, s) ← scan_number s; Some (s32 (Z.max (- 2 ^ 63) (Z.min v (2 ^ 63 - 1))), s).
Definition scan_u (s : list Z) : option (Z * list Z) :=
  '(v, s) ← scan_number s; Some (u32 (Z.max (- (2 ^ 64 - 1)) (Z.min v (2 ^ 64 - 1))), s).
(** [%ud]: a number and the letter d, which need not be there. *)
Definition scan_ud (s : list Z) : option (Z * list Z) :=
  '(v, s) ← scan_u s; Some (v, match s with 100 :: s => s | s => s end).

(** [assert(fscanf(...) == n)] *)
Definition scanned {A} (o : option A) : res A :=
  match o with Some a => Ok a | None => Err AssertFailed end.

Section read.
(** What a fresh array of the driver holds at an index, and the [size] left unset. *)
Context (junk_block junk_size : nat -> Z).

(** [trace->ops[op_index] = ...] in an array of [num_ops]. *)
Definition add_op (n : Z) (ops : list traceop_t) (op : traceop_t) : res (list traceop_t) :=
  if Z.of_nat (length ops) <? n then Ok (ops ++ [op]) else Err BadAccess.

(** [while (fscanf(tracefile, "%s", type) != EOF)] *)
Fixpoint read_ops (fuel : nat) (n : Z) (s : list Z) (max_index : Z) (ops : list traceop_t)
    : res (Z * list traceop_t) :=
  match fuel with
  | O => Err OutOfFuel
  | S fuel' =>
      match scan_word s with
      | None => Ok (max_index, ops)
      | Some (word, s) =>
          if MAXLINE <=? Z.of_nat (length word) then Err BadAccess
          else
            let c := hd 0 word in
            if (c =? 97) || (c =? 114) then
              let? (index, s) := scanned (scan_u s) in
              let? (size, s) := scanned (scan_u s) in
              let? ops := add_op n ops (mk_op (if c =? 97 then ALLOC else REALLOC) index (s32 size)) in
              read_ops fuel' n s (if max_index <? index then index else max_index) ops
            else if c =? 102 then
              let? (index, s) := scanned (scan_ud s) in
              let? ops := add_op n ops (mk_op FREE index (junk_size (length ops))) in
              read_ops fuel' n s max_index ops
            else Err (Exit 1)
      end
  end.

(** The trace in a file, which may fail to open; arrays of negative length are not given. *)
Definition read_trace (file : option (list Z)) : res trace_t :=
  match file with
  | None => Err (Exit 1)
  | Some s =>
      let? (sugg_heapsize, s) := scanned (scan_d s) in
      let? (num_ids, s) := scanned (scan_d s) in
      let? (num_ops, s) := scanned (scan_d s) in
      let? (weight, s) := scanned (scan_d s) in
      if (num_ops <? 0) || (num_ids <? 0) then Err (Exit 1)
      else
        let? (max_index, ops) := read_ops (S (length s)) num_ops s 0 [] in
        if negb (max_index =? u32 (num_ids - 1)) then Err AssertFailed
        else if negb (u32 num_ops =? Z.of_nat (length ops)) then Err AssertFailed
        else
          Ok (mk_trace sugg_heapsize num_ids num_ops weight ops
               (junk_block <$> seq 0 (Z.to_nat num_ids)) (junk_size <$> seq 0 (Z.to_nat num_ids)))
  end.
End read.

(** ** The driver's state *)

Record driver : Type := mk_driver {
  memory : heap;
  ranges : list range_t;
  trace : trace_t;
  errors : Z
}.

Definition on_heap {A} (m : M heap A) : M driver A := fun d =>
  match m (memory d) with
  | Ok (a, h) => Ok (a, mk_driver h (ranges d) (trace d) (errors d))
  | Err e => Err e
  end.
Definition set_ranges (rs : list range_t) : M driver unit :=
  modify (fun d => mk_driver (memory d) rs (trace d) (errors d)).
Definition malloc_error : M driver unit :=
  modify (fun d => mk_driver (memory d) (ranges d) (trace d) (s32 (errors d + 1))).
Definition app_error {A} : M driver A := fail (Exit 1).

(** Arrays. *)
Definition array_get {A} (xs : list A) (i : Z) : M driver A :=
  get_or BadAccess (if 0 <=? i then xs !! Z.to_nat i else None).
Definition array_set {A} (xs : list A) (i : Z) (x : A) : M driver (list A) :=
  do* ensure BadAccess ((0 <=? i) && (i <? Z.of_nat (length xs)));
  ret (<[Z.to_nat i := x]> xs).
Definition remember (i p n : Z) : M driver unit :=
  let* t := gets trace in
  let* bs := array_set (blocks t) i p in
  let* ss := array_set (block_sizes t) i n in
  modify (fun d => mk_driver (memory d) (ranges d)
    (mk_trace (sugg_heapsize t) (num_ids t) (num_ops t) (weight t) (ops t) bs ss) (errors d)).

(** Bytes: [*(char * )a] as an unsigned value, and its update. *)
Definition load_byte (a : Z) : M heap Z :=
  let r := a mod 8 in
  let* w := word (a - r) in ret (w / 2 ^ (8 * r) mod 2 ^ 8).
Definition store_byte (a v : Z) : M heap unit :=
  let r := a mod 8 in
  let* w := word (a - r) in
  set_word (a - r) (w + (v mod 2 ^ 8 - w / 2 ^ (8 * r) mod 2 ^ 8) * 2 ^ (8 * r)).
(** The C library's [memset]. *)
Fixpoint memset (n : nat) (p c : Z) : M heap unit :=
  match n with
  | O => ret tt
  | S n' => do* store_byte p c; memset n' (p + 1) c
  end.

Section driver.
(** [mem_start_brk] of the simulated memory, and the allocator. *)
Context (start : Z) {A : Allocator}.

(** ** The range list *)

Fixpoint overlapping (rs : list range_t) (l h : Z) : bool :=
  match rs with
  | [] => false
  | p :: rs' =>
      ((lo p <=? l) && (l <=? hi p)) || ((lo p <=? h) && (h <=? hi p)) || overlapping rs' l h
  end.

Definition add_range (l size : Z) : M driver Z :=
  let h := l + size - 1 in
  do* ensure AssertFailed (0 <? size);
  if negb (l mod ALIGNMENT =? 0) then do* malloc_error; ret 0
  else
    let* heap_hi := on_heap mem_heap_hi in
    if (l <? mem_heap_lo start) || (heap_hi <? l) || (h <? mem_heap_lo start) || (heap_hi <? h)
    then do* malloc_error; ret 0
    else
      let* rs := gets ranges in
      if overlapping rs l h then do* malloc_error; ret 0
      else do* set_ranges (mk_range l h :: rs); ret 1.

Fixpoint remove_first (rs : list range_t) (l : Z) : list range_t :=
  match rs with
  | [] => []
  | p :: rs' => if lo p =? l then rs' else p :: remove_first rs' l
  end.
Definition remove_range (l : Z) : M driver unit :=
  let* rs := gets ranges in set_ranges (remove_first rs l).

Definition clear_ranges : M driver unit := set_ranges [].

(** ** eval_mm_valid *)

(** [for (j = 0; j < oldsize; j++)] over the bytes kept, [n] of them left; a [char]
    is signed. *)
Fixpoint same_data (n : nat) (newp c : Z) : M heap bool :=
  match n with
  | O => ret true
  | S n' =>
      let* b := load_byte newp in
      if s8 b =? c then same_data n' (newp + 1) c else ret false
  end.

(** One request: whether to go on. *)
Definition valid_op (op : traceop_t) : M driver bool :=
  let i := index op in
  let size := size op in
  match type op with
  | ALLOC =>
      let* p := on_heap (al_malloc (u64 size)) in
      if p =? 0 then do* malloc_error; ret false
      else
        let* r := add_range p size in
        if r =? 0 then ret false
        else
          do* on_heap (memset (Z.to_nat size) p (Z.land i 0xFF));
          do* remember i p (u64 size);
          ret true
  | REALLOC =>
      let* t := gets trace in
      let* oldp := array_get (blocks t) i in
      let* newp := on_heap (al_realloc oldp (u64 size)) in
      if newp =? 0 then do* malloc_error; ret false
      else
        do* remove_range oldp;
        let* r := add_range newp size in
        if r =? 0 then ret false
        else
          let* oldsize := array_get (block_sizes t) i in
          let oldsize := s32 oldsize in
          let oldsize := if size <? oldsize then size else oldsize in
          let* same := on_heap (same_data (Z.to_nat oldsize) newp (Z.land i 0xFF)) in
          if negb same then do* malloc_error; ret false
          else
            do* on_heap (memset (Z.to_nat size) newp (Z.land i 0xFF));
            do* remember i newp (u64 size);
            ret true
  | FREE =>
      let* t := gets trace in
      let* p := array_get (blocks t) i in
      do* remove_range p;
      do* on_heap (al_free p);
      ret true
  end.

(** [for (i = 0; i < trace->num_ops; i++)], [n] requests left. *)
Fixpoint valid_loop (n : nat) (i : Z) : M driver Z :=
  match n with
  | O => ret 1
  | S n' =>
      let* t := gets trace in
      let* op := array_get (ops t) i in
      let* go_on := valid_op op in
      if go_on then valid_loop n' (i + 1) else ret 0
  end.

Definition eval_mm_valid : M driver Z :=
  do* on_heap (mem_reset_brk start);
  do* clear_ranges;
  let* r := on_heap (al_init) in
  if r <? 0 then do* malloc_error; ret 0
  else
    let* t := gets trace in
    valid_loop (Z.to_nat (num_ops t)) 0.

(** ** eval_mm_util *)

(** One request; the sizes in use so far and their peak are [int]s. *)
Definition util_op (op : traceop_t) (total_size max_total_size : Z) : M driver (Z * Z) :=
  let i := index op in
  let size := size op in
  let peak total := if max_total_size <? total then total else max_total_size in
  match type op with
  | ALLOC =>
      let* p := on_heap (al_malloc (u64 size)) in
      if p =? 0 then app_error
      else
        do* remember i p (u64 size);
        let total_size := s32 (total_size + size) in
        ret (total_size, peak total_size)
  | REALLOC =>
      let* t := gets trace in
      let* oldsize := array_get (block_sizes t) i in
      let* oldp := array_get (blocks t) i in
      let* newp := on_heap (al_realloc oldp (u64 size)) in
      if newp =? 0 then app_error
      else
        do* remember i newp (u64 size);
        let total_size := s32 (total_size + s32 (size - s32 oldsize)) in
        ret (total_size, peak total_size)
  | FREE =>
      let* t := gets trace in
      let* oldsize := array_get (block_sizes t) i in
      let* p := array_get (blocks t) i in
      do* on_heap (al_free p);
      ret (s32 (total_size - s32 oldsize), max_total_size)
  end.

Fixpoint util_loop (n : nat) (i total_size max_total_size : Z) : M driver Z :=
  match n with
  | O => ret max_total_size
  | S n' =>
      let* t := gets trace in
      let* op := array_get (ops t) i in
      let* (total_size, max_total_size) := util_op op total_size max_total_size in
      util_loop n' (i + 1) total_size max_total_size
  end.

(** The numerator and the denominator of the result. *)
Definition eval_mm_util : M driver (Z * Z) :=
  do* on_heap (mem_reset_brk start);
  let* r := on_heap (al_init) in
  if r <? 0 then app_error
  else
    let* t := gets trace in
    let* max_total_size := util_loop (Z.to_nat (num_ops t)) 0 0 0 in
    let* heapsize := on_heap (mem_heapsize start) in
    ret (max_total_size, heapsize).

(** ** eval_mm_speed *)

(** [trace->blocks[i] = p] *)
Definition set_block (i p : Z) : M driver unit :=
  let* t := gets trace in
  let* bs := array_set (blocks t) i p in
  modify (fun d => mk_driver (memory d) (ranges d)
    (mk_trace (sugg_heapsize t) (num_ids t) (num_ops t) (weight t) (ops t) bs (block_sizes t)) (errors d)).

Definition speed_op (op : traceop_t) : M driver unit :=
  let i := index op in
  let size := size op in
  match type op with
  | ALLOC =>
      let* p := on_heap (al_malloc (u64 size)) in
      if p =? 0 then app_error else set_block i p
  | REALLOC =>
      let* t := gets trace in
      let* oldp := array_get (blocks t) i in
      let* newp := on_heap (al_realloc oldp (u64 size)) in
      if newp =? 0 then app_error else set_block i newp
  | FREE =>
      let* t := gets trace in
      let* block := array_get (blocks t) i in
      on_heap (al_free block)
  end.

Fixpoint speed_loop (n : nat) (i : Z) : M driver unit :=
  match n with
  | O => ret tt
  | S n' =>
      let* t := gets trace in
      let* op := array_get (ops t) i in
      do* speed_op op;
      speed_loop n' (i + 1)
  end.

Definition eval_mm_speed : M driver unit :=
  do* on_heap (mem_reset_brk start);
  let* r := on_heap (al_init) in
  if r <? 0 then app_error
  else
    let* t := gets trace in
    speed_loop (Z.to_nat (num_ops t)) 0.

(** What the timing package does with a function: it runs it [n] times. *)
Fixpoint run_times {S} (n : nat) (f : M S unit) : M S unit :=
  match n with O => ret tt | S n' => do* f; run_times n' f end.
End driver.

(** ** The runs on the C library's allocator *)

Section libc.
(** The library's state and its allocator. *)
Context {L : Type} (libc_malloc : Z -> M L Z) (libc_realloc : Z -> Z -> M L Z) (libc_free : Z -> M L unit).

Definition block_at (bs : list Z) (i : Z) : M L Z := get_or BadAccess (if 0 <=? i then bs !! Z.to_nat i else None).
Definition put_block (bs : list Z) (i p : Z) : M L (list Z) :=
  do* ensure BadAccess ((0 <=? i) && (i <? Z.of_nat (length bs)));
  ret (<[Z.to_nat i := p]> bs).

(** A failed call ends the driver, in both functions. *)
Definition libc_op (op : traceop_t) (bs : list Z) : M L (list Z) :=
  match type op with
  | ALLOC =>
      let* p := libc_malloc (u64 (size op)) in
      if p =? 0 then fail (Exit 1) else put_block bs (index op) p
  | REALLOC =>
      let* oldp := block_at bs (index op) in
      let* newp := libc_realloc oldp (u64 (size op)) in
      if newp =? 0 then fail (Exit 1) else put_block bs (index op) newp
  | FREE =>
      let* block := block_at bs (index op) in
      do* libc_free block;
      ret bs
  end.

(** [for (i = 0; i < trace->num_ops; i++)] over the requests left *)
Fixpoint libc_loop (n : nat) (i : Z) (t : trace_t) (bs : list Z) : M L (list Z) :=
  match n with
  | O => ret bs
  | S n' =>
      let* op := get_or BadAccess (if 0 <=? i then ops t !! Z.to_nat i else None) in
      let* bs := libc_op op bs in
      libc_loop n' (i + 1) t bs
  end.

Definition with_blocks (t : trace_t) (bs : list Z) : trace_t :=
  mk_trace (sugg_heapsize t) (num_ids t) (num_ops t) (weight t) (ops t) bs (block_sizes t).

Definition eval_libc_valid (t : trace_t) : M L (Z * trace_t) :=
  let* bs := libc_loop (Z.to_nat (num_ops t)) 0 t (blocks t) in ret (1, with_blocks t bs).
Definition eval_libc_speed (t : trace_t) : M L trace_t :=
  let* bs := libc_loop (Z.to_nat (num_ops t)) 0 t (blocks t) in ret (with_blocks t bs).
End libc.

(** ** main *)

(** [secs] is left out; [util] is its numerator and denominator, and 0 where it is not
    computed. *)
Record stats_t : Type := mk_stats { st_ops : Z; st_valid : Z; st_util : Z * Z }.

(** The sums of the statistics as far as [main] needs them: how many traces are valid, and
    whether the throughput is positive, as the final assertion demands.  The throughput is
    the requests over the time they took; it is not set when a trace is not valid, and
    [unset] tells whether what is then compared happens to be positive. *)
Definition count_valid (stats : list stats_t) : Z :=
  foldr (fun s n => (if st_valid s =? 0 then 0 else 1) + n) 0 stats.
Definition sumresults (unset : bool) (num_correct : bool) (stats : list stats_t) : res Z :=
  let correct := count_valid stats in
  let positive :=
    if negb num_correct || (correct =? Z.of_nat (length stats)) then 0 <? foldr (fun s n => st_ops s + n) 0 stats
    else unset in
  if positive then Ok correct else Err AssertFailed.

Section main.
Context (start : Z) {A : Allocator}.
(** What the arrays of the [i]-th trace hold when they are fresh, how often its runs are
    timed, and what is in [avg_mm_throughput]. *)
Context (junk_block junk_size : nat -> nat -> Z) (times : nat -> nat) (unset : bool).

(** One round of the loop over the traces. *)
Definition eval_mm (i : nat) (file : option (list Z)) (h : heap) (rs : list range_t) (e : Z) : res (stats_t * (heap * list range_t * Z)) :=
  let? t := read_trace (junk_block i) (junk_size i) file in
  let run :=
    let* valid := eval_mm_valid start in
    if valid =? 0 then ret (mk_stats (num_ops t) valid (0, 1))
    else
      let* util := eval_mm_util start in
      do* run_times (times i) (eval_mm_speed start);
      ret (mk_stats (num_ops t) valid util) in
  let? (st, d) := run (mk_driver h rs t e) in
  Ok (st, (memory d, ranges d, errors d)).

Fixpoint eval_loop (i : nat) (files : list (option (list Z))) (h : heap) (rs : list range_t) (e : Z) : res (list stats_t * Z) :=
  match files with
  | [] => Ok ([], e)
  | file :: files' =>
      let? (st, s) := eval_mm i file h rs e in
      let '(h, rs, e) := s in
      let? (sts, e) := eval_loop (S i) files' h rs e in
      Ok (st :: sts, e)
  end.

Section libc.
Context {L : Type} (libc_malloc : Z -> M L Z) (libc_realloc : Z -> Z -> M L Z) (libc_free : Z -> M L unit).
(** The same of the runs on the library. *)
Context (libc_block libc_size : nat -> nat -> Z) (libc_times : nat -> nat).

(** The timed runs, each on the trace as the last one left it. *)
Fixpoint libc_speeds (n : nat) (t : trace_t) : M L trace_t :=
  match n with
  | O => ret t
  | S n' => let* t := eval_libc_speed libc_malloc libc_realloc libc_free t in libc_speeds n' t
  end.

Definition eval_libc (i : nat) (file : option (list Z)) : M L stats_t := fun l =>
  let? t := read_trace (libc_block i) (libc_size i) file in
  let run :=
    let* (valid, t) := eval_libc_valid libc_malloc libc_realloc libc_free t in
    let* t := if valid =? 0 then ret t else libc_speeds (libc_times i) t in
    ret (mk_stats (num_ops t) valid (0, 1)) in
  run l.

Fixpoint libc_traces (i : nat) (files : list (option (list Z))) : M L (list stats_t) :=
  match files with
  | [] => ret []
  | file :: files' =>
      let* st := eval_libc i file in
      let* sts := libc_traces (S i) files' in
      ret (st :: sts)
  end.

(** The program on the trace files: the statistics of the traces, how many are valid, and
    the errors counted; [area] is what [mem_init] gets. *)
Definition mdriver_main (run_libc : bool) (files : list (option (list Z))) (area : gmap Z Z) (l : L) : res (list stats_t * Z * Z) :=
  let? _ :=
    if run_libc then
      let? (libc_stats, _) := libc_traces 0 files l in sumresults unset false libc_stats
    else Ok 0 in
  let? (mm_stats, e) := eval_loop 0 files (mem_init start area) [] 0 in
  let? numcorrect := sumresults unset true mm_stats in
  Ok (mm_stats, numcorrect, e).
End libc.
End main.
