(* ===== verification/MdriverSpec.v ===== *)
(** What the trace driver of [Mdriver] finds out: on any allocator that keeps the
    promises of [Allocator], and so on [mm.c], what it finds of a trace of proper
    requests, up to the request for which the memory has no room. *)
From Stdlib Require Import ZArith Lia.
From S2P Require Import Prelude Malloc MallocList MallocSpec MallocRealloc MallocBrk Allocator Mdriver.
Open Scope Z_scope.

(** ** Bytes *)

(** Replacing one byte of a word leaves the others. *)
Lemma replace_byte w v r i : 0 <= r < 8 -> 0 <= i < 8 ->
  (w + (v mod 2 ^ 8 - w / 2 ^ (8 * r) mod 2 ^ 8) * 2 ^ (8 * r)) / 2 ^ (8 * i) mod 2 ^ 8 =
  if i =? r then v mod 2 ^ 8 else w / 2 ^ (8 * i) mod 2 ^ 8.
Proof.
  intros Hr Hi. set (M := 2 ^ 8). assert (HM : M = 256) by reflexivity.
  pose proof (Z.mod_pos_bound v M ltac:(lia)) as Hv.
  assert (Hpow : forall a b, 0 <= a < b -> exists K, 0 < K /\ 2 ^ (8 * b) = K * M * 2 ^ (8 * a)).
  { intros a b Hab. exists (2 ^ (8 * (b - a - 1))). split; [apply Z.pow_pos_nonneg; lia|].
    unfold M. rewrite <- !Z.pow_add_r by lia. f_equal. lia. }
  assert (Hpos : forall a, 0 <= a -> 0 < 2 ^ (8 * a)) by (intros; apply Z.pow_pos_nonneg; lia).
  destruct (Z.eqb_spec i r) as [->|Hne].
  - rewrite Z.div_add by (specialize (Hpos r); lia).
    pose proof (Z.div_mod (w / 2 ^ (8 * r)) M ltac:(lia)) as Hq.
    replace (w / 2 ^ (8 * r) + (v mod M - w / 2 ^ (8 * r) mod M)) with
      (v mod M + (w / 2 ^ (8 * r) / M) * M) by lia.
    rewrite Z_mod_plus_full. apply Z.mod_small. lia.
  - destruct (Z.lt_ge_cases i r) as [Hlt|Hge].
    + destruct (Hpow i r) as (K & HK & ->); [lia|]. set (c := v mod M - _).
      replace (w + c * (K * M * 2 ^ (8 * i))) with (w + (c * K * M) * 2 ^ (8 * i)) by lia.
      rewrite Z.div_add by (specialize (Hpos i); lia). apply Z_mod_plus_full.
    + destruct (Hpow r i) as (K & HK & E); [lia|]. set (P := 2 ^ (8 * r)) in *.
      assert (HP : 0 < P) by (apply Hpos; lia).
      rewrite E. replace (K * M * P) with (P * M * K) by lia.
      rewrite <- !(Z.div_div _ (P * M) K) by nia. rewrite <- !(Z.div_div _ P M) by lia.
      rewrite Z.div_add by lia. do 2 f_equal.
      pose proof (Z.div_mod (w / P) M ltac:(lia)) as Hq. set (q := w / P / M) in *.
      replace (w / P + (v mod M - (w / P) mod M)) with (v mod M + q * M) by lia.
      rewrite Z.div_add by lia. rewrite Z.div_small by lia. lia.
Qed.

(** The word that holds a byte. *)
Definition word_of (a : Z) : Z := a - a mod 8.

Lemma word_of_bounds a : word_of a mod 8 = 0 /\ word_of a <= a < word_of a + 8.
Proof.
  unfold word_of. pose proof (Z.mod_pos_bound a 8 ltac:(lia)). split; [|lia].
  by rewrite Zminus_mod, Zmod_mod, Z.sub_diag.
Qed.

Lemma store_byte_run a v h : is_Some (words h !! word_of a) ->
  exists h', store_byte a v h = Ok (tt, h') /\ mem_brk h' = mem_brk h /\
    only (fun x => x = word_of a) h h' /\
    forall b, byte_at (words h') b = if b =? a then Some (v mod 2 ^ 8) else byte_at (words h) b.
Proof.
  intros [w Hw]. unfold store_byte. fold (word_of a). step (word_run _ _ _ Hw).
  rewrite set_word_run by by eexists. eexists. split; [done|]. split; [done|]. split.
  - by apply only_set.
  - intros b. unfold byte_at. fold (word_of b). cbn [words].
    pose proof (Z.mod_pos_bound a 8 ltac:(lia)). pose proof (Z.mod_pos_bound b 8 ltac:(lia)).
    destruct (decide (word_of a = word_of b)) as [E|Hne].
    + rewrite <- E, lookup_insert_eq, Hw. cbn. rewrite replace_byte by lia.
      unfold word_of in E. destruct (Z.eqb_spec b a) as [->|]; [by rewrite Z.eqb_refl|].
      by rewrite (proj2 (Z.eqb_neq _ _)) by lia.
    + rewrite lookup_insert_ne by done. rewrite (proj2 (Z.eqb_neq b a)); [done|]. by intros ->.
Qed.

Lemma memset_run n : forall p c h, (forall i, 0 <= i < Z.of_nat n -> is_Some (words h !! word_of (p + i))) ->
  exists h', memset n p c h = Ok (tt, h') /\ mem_brk h' = mem_brk h /\
    only (fun x => exists i, 0 <= i < Z.of_nat n /\ x = word_of (p + i)) h h' /\
    forall b, byte_at (words h') b =
      if (p <=? b) && (b <? p + Z.of_nat n) then Some (c mod 2 ^ 8) else byte_at (words h) b.
Proof.
  induction n as [|n IH]; intros p c h Hm; cbn [memset].
  - exists h. split; [done|]. split; [done|]. split; [apply only_refl|]. intros b.
    destruct (Z.leb_spec p b), (Z.ltb_spec b (p + Z.of_nat 0)); cbn; try done; lia.
  - destruct (store_byte_run p c h) as (h1 & E1 & B1 & O1 & V1).
    { specialize (Hm 0). rewrite Z.add_0_r in Hm. apply Hm. lia. }
    step E1. destruct (IH (p + 1) c h1) as (h2 & E2 & B2 & O2 & V2).
    { intros i Hi. apply O1. replace (p + 1 + i) with (p + (i + 1)) by lia. apply Hm. lia. }
    exists h2. split; [done|]. split; [congruence|]. split.
    + eapply (only_trans _ _ h1).
      * eapply only_mono; [|exact O1]. intros x ->. exists 0. rewrite Z.add_0_r. split; [lia|done].
      * eapply only_mono; [|exact O2]. intros x (i & Hi & ->). exists (i + 1). split; [lia|]. f_equal. lia.
    + intros b. rewrite V2, V1.
      destruct (Z.leb_spec (p + 1) b), (Z.ltb_spec b (p + 1 + Z.of_nat n)), (Z.leb_spec p b),
        (Z.ltb_spec b (p + Z.of_nat (S n))), (Z.eqb_spec b p); cbn; try done; lia.
Qed.

(** Filling the front of an aligned payload changes only its words. *)
Lemma memset_payload n p s c h : p mod 8 = 0 -> 0 <= n <= s ->
  (forall x, p <= x < p + s -> x mod 8 = 0 -> is_Some (words h !! x)) ->
  exists h', memset (Z.to_nat n) p c h = Ok (tt, h') /\ mem_brk h' = mem_brk h /\
    only (fun x => p <= x < p + s) h h' /\
    forall i, 0 <= i < n -> byte_at (words h') (p + i) = Some (c mod 2 ^ 8).
Proof.
  intros Hp Hn Hm. assert (Hw : forall i, 0 <= i < n -> p <= word_of (p + i) < p + s).
  { intros i Hi. destruct (word_of_bounds (p + i)) as [H8 Hb]. split; [|lia].
    pose proof (Z.div_mod p 8 ltac:(lia)). pose proof (Z.div_mod (word_of (p + i)) 8 ltac:(lia)). lia. }
  destruct (memset_run (Z.to_nat n) p c h) as (h' & E & Hb & Ho & Hv).
  { intros i Hi. apply Hm; [apply Hw; lia|apply word_of_bounds]. }
  exists h'. split; [done|]. split; [done|]. split.
  - eapply only_mono; [|exact Ho]. intros x (i & Hi & ->). apply Hw. lia.
  - intros i Hi. rewrite Hv. rewrite (proj2 (Z.leb_le p _)), (proj2 (Z.ltb_lt _ _)) by lia. done.
Qed.

Lemma load_byte_run a b h : byte_at (words h) a = Some b -> load_byte a h = Ok (b, h).
Proof.
  unfold byte_at, load_byte. intros (w & Hw & ->)%fmap_Some. by step (word_run _ _ _ Hw).
Qed.

Lemma same_data_run n : forall p c h, 0 <= c < 128 ->
  (forall i, 0 <= i < Z.of_nat n -> byte_at (words h) (p + i) = Some c) ->
  same_data n p c h = Ok (true, h).
Proof.
  induction n as [|n IH]; intros p c h Hc Hb; cbn [same_data]; [done|].
  step (load_byte_run p c h ltac:(specialize (Hb 0); rewrite Z.add_0_r in Hb; apply Hb; lia)).
  rewrite (wraps_small 8 c) by bound_lia. rewrite Z.eqb_refl. apply IH; [done|].
  intros i Hi. replace (p + 1 + i) with (p + (i + 1)) by lia. apply Hb. lia.
Qed.

(** A byte of 128 or more is not the [char] it is compared with. *)
Lemma same_data_negative n p c h : 128 <= c < 256 -> byte_at (words h) p = Some c -> same_data (S n) p c h = Ok (false, h).
Proof.
  intros Hc Hb. cbn [same_data]. step (load_byte_run p c h Hb).
  destruct (Z.eqb_spec (s8 c) c) as [E|]; [|done]. pose proof (wraps_range 8 c ltac:(lia)). bound_lia.
Qed.

(** ** Traces *)

(** A block the trace has in use: its id, its payload, the bytes asked for and the
    bytes the payload has. *)
Record live : Type := mk_live { l_id : Z; l_ptr : Z; l_size : Z; l_room : Z }.
Definition payload (l : live) : Z * Z := (l_ptr l, l_room l).
Definition range_of (l : live) : range_t := mk_range (l_ptr l) (l_ptr l + l_size l - 1).

(** The sizes of the ids in use, from one request to the next. *)
Definition sizes_after (sizes : gmap Z Z) (op : traceop_t) : gmap Z Z :=
  match type op with
  | ALLOC | REALLOC => <[index op := size op]> sizes
  | FREE => delete (index op) sizes
  end.

(** A proper request allocates an id that is not in use and frees or resizes one
    that is. *)
Definition request_ok (n_ids : Z) (sizes : gmap Z Z) (op : traceop_t) : Prop :=
  match type op with
  | ALLOC => 0 <= index op < n_ids /\ sizes !! index op = None /\ 0 < size op < 2 ^ 31
  | REALLOC => is_Some (sizes !! index op) /\ 0 < size op < 2 ^ 31
  | FREE => is_Some (sizes !! index op)
  end.
Fixpoint requests_ok (n_ids : Z) (sizes : gmap Z Z) (ops : list traceop_t) : Prop :=
  match ops with
  | [] => True
  | op :: ops => request_ok n_ids sizes op /\ requests_ok n_ids (sizes_after sizes op) ops
  end.

(** The low byte of a resized id is a [char] that is not negative. *)
Definition plain_id (op : traceop_t) : Prop :=
  match type op with REALLOC => Z.land (index op) 0xFF < 128 | _ => True end.

(** The sum of the sizes, and its peak over the requests. *)
Definition total_of (sizes : gmap Z Z) : Z := map_fold (fun _ n s => n + s) 0 sizes.
Fixpoint peak (sizes : gmap Z Z) (ops : list traceop_t) : Z :=
  match ops with
  | [] => total_of sizes
  | op :: ops => Z.max (total_of sizes) (peak (sizes_after sizes op) ops)
  end.

Lemma total_insert sizes i n : sizes !! i = None -> total_of (<[i := n]> sizes) = n + total_of sizes.
Proof. intros Hi. unfold total_of. apply map_fold_insert_L; [|done]. intros. lia. Qed.

Lemma total_delete sizes i n : sizes !! i = Some n -> total_of (delete i sizes) = total_of sizes - n.
Proof.
  intros Hi. rewrite <- (insert_delete_id sizes i n Hi) at 2.
  rewrite total_insert by apply lookup_delete_eq. lia.
Qed.

Lemma total_update sizes i n n' : sizes !! i = Some n -> total_of (<[i := n']> sizes) = total_of sizes + (n' - n).
Proof.
  intros Hi. rewrite <- insert_delete_eq, total_insert by apply lookup_delete_eq.
  rewrite (total_delete _ _ n Hi). lia.
Qed.

Lemma land_byte i : 0 <= Z.land i 0xFF < 256.
Proof. change 0xFF with (Z.ones 8). rewrite Z.land_ones by lia. by apply Z.mod_pos_bound. Qed.

(** ** Serving requests *)

Section serving.
Context (start : Z) {A : Allocator}.

(** An allocator has served the requests, in their order, and its client wrote in its own
    payloads only: the heap, and the payload and the size of every id in use. *)
Inductive serving : list traceop_t -> heap -> gmap Z (Z * Z) -> Prop :=
  | serving_start w h :
      (forall x, start <= x < start + MAX_HEAP -> x mod 8 = 0 -> is_Some (w !! x)) ->
      al_init (mk_heap w start) = Ok (0, h) -> serving [] h ∅
  | serving_alloc os h m i n p h' : serving os h m -> m !! i = None -> al_malloc n h = Ok (p, h') ->
      serving (os ++ [mk_op ALLOC i n]) h' (<[i := (p, n)]> m)
  | serving_free os h m i n p s h' : serving os h m -> m !! i = Some (p, s) -> al_free p h = Ok (tt, h') ->
      serving (os ++ [mk_op FREE i n]) h' (delete i m)
  | serving_realloc os h m i n p s p' h' : serving os h m -> m !! i = Some (p, s) -> al_realloc p n h = Ok (p', h') ->
      serving (os ++ [mk_op REALLOC i n]) h' (<[i := (p', n)]> m)
  | serving_write os h m i p n h' : serving os h m -> m !! i = Some (p, n) ->
      only (fun x => p <= x < p + n) h h' -> mem_brk h' = mem_brk h -> serving os h' m.

(** The allocator ends the program on a request, and could only have served it by moving
    the break beyond the simulated memory. *)
Definition refused (cost : Z -> Z) (op : traceop_t) (h : heap) (m : gmap Z (Z * Z)) : Prop :=
  match type op with
  | ALLOC => al_malloc (size op) h = Err (Exit 0)
  | REALLOC => exists p s, m !! index op = Some (p, s) /\ al_realloc p (size op) h = Err (Exit 0)
  | FREE => False
  end /\ start + MAX_HEAP < mem_brk h + cost (size op).
Definition runs_out (cost : Z -> Z) (os : list traceop_t) : Prop :=
  exists os1 op os2 h m, os = os1 ++ op :: os2 /\ serving os1 h m /\ refused cost op h m.

(** The size of a request that frees does not matter. *)
Definition same_op (op op' : traceop_t) : Prop := op = op' \/ (type op = FREE /\ type op' = FREE /\ index op = index op').

Lemma serving_same os h m : serving os h m -> forall os', Forall2 same_op os os' -> serving os' h m.
Proof.
  induction 1 as [w h Ha E|os h m i n p h' _ IH Hm E|os h m i n p s h' _ IH Hm E|os h m i n p s p' h' _ IH Hm E|os h m i p n h' _ IH Hm Ho Hb];
    intros os' H2.
  - apply Forall2_nil_inv_l in H2 as ->. by eapply serving_start.
  - apply Forall2_app_inv_l in H2 as (os1 & os2 & H1 & (op & os3 & Hop & ->%Forall2_nil_inv_l & ->)%Forall2_cons_inv_l & ->).
    destruct Hop as [<-|[? _]]; [|done]. by eapply serving_alloc; [apply IH|..].
  - apply Forall2_app_inv_l in H2 as (os1 & os2 & H1 & (op & os3 & Hop & ->%Forall2_nil_inv_l & ->)%Forall2_cons_inv_l & ->).
    destruct op as [ty j k]. assert (ty = FREE /\ j = i) as [-> ->] by (destruct Hop as [[= <- <- _]|(_ & H & H')]; cbn in *; auto).
    by eapply serving_free; [apply IH|..].
  - apply Forall2_app_inv_l in H2 as (os1 & os2 & H1 & (op & os3 & Hop & ->%Forall2_nil_inv_l & ->)%Forall2_cons_inv_l & ->).
    destruct Hop as [<-|[? _]]; [|done]. by eapply serving_realloc; [apply IH|..].
  - by eapply serving_write; [apply IH|..].
Qed.

Lemma runs_out_same cost os os' : Forall2 same_op os os' -> runs_out cost os -> runs_out cost os'.
Proof.
  intros H2 (os1 & op & os2 & h & m & -> & Hs & Hr).
  apply Forall2_app_inv_l in H2 as (os1' & os2' & H1 & (op' & os3 & Hop & _ & ->)%Forall2_cons_inv_l & ->).
  exists os1', op', os3, h, m. split; [done|]. split; [by eapply serving_same|].
  destruct Hop as [<-|(E & _ & _)]; [done|]. unfold refused in Hr. rewrite E in Hr. by destruct Hr.
Qed.
End serving.

(** ** The driver on a lawful allocator *)

(** ** The statistics *)

#[export] Instance plain_id_dec op : Decision (plain_id op).
Proof. unfold plain_id. destruct (type op); apply _. Defined.

(** The statistics of a trace of requests [os], and the errors counted: the trace is valid,
    with the peak of the sizes in use as the numerator of its utilization, unless an id is
    resized whose bytes are taken for negative numbers. *)
Definition judged (os : list traceop_t) (st : stats_t) : Prop :=
  st = if decide (Forall plain_id os) then mk_stats (Z.of_nat (length os)) 1 (peak ∅ os, (st_util st).2)
       else mk_stats (Z.of_nat (length os)) 0 (0, 1).
Definition errors_after (os : list traceop_t) (e : Z) : Z := if decide (Forall plain_id os) then e else s32 (e + 1).

Definition plain_traces (oss : list (list traceop_t)) : list (list traceop_t) := filter (Forall plain_id) oss.

Lemma sums_judged oss sts : Forall2 judged oss sts ->
  count_valid sts = Z.of_nat (length (plain_traces oss)) /\ length sts = length oss /\
  foldr (fun s n => st_ops s + n) 0 sts = Z.of_nat (length (concat oss)).
Proof.
  induction 1 as [|os st oss sts Hst _ (IH1 & IH2 & IH3)]; [done|]. unfold count_valid, plain_traces in *. cbn [foldr length concat].
  rewrite filter_cons. unfold judged in Hst. destruct (decide (Forall plain_id os)); rewrite Hst, length_app; cbn [st_valid st_ops length].
  - change (1 =? 0) with false. cbn iota. lia.
  - change (0 =? 0) with true. cbn iota. lia.
Qed.

(** The requests of the traces are counted when all are valid, and otherwise the number that
    is not set decides. *)
Lemma sumresults_judged unset oss sts : Forall2 judged oss sts -> 0 < Z.of_nat (length (concat oss)) ->
  sumresults unset true sts =
    if decide (Forall (Forall plain_id) oss) then Ok (Z.of_nat (length oss))
    else if unset then Ok (Z.of_nat (length (plain_traces oss))) else Err AssertFailed.
Proof.
  intros Hj Hpos. destruct (sums_judged _ _ Hj) as (Hc & Hl & Hs). unfold sumresults. rewrite Hc, Hl, Hs. cbn [negb orb].
  destruct (decide (Forall (Forall plain_id) oss)) as [Hall|Hnot].
  - assert (E : plain_traces oss = oss).
    { clear -Hall. unfold plain_traces. induction Hall as [|os oss Hos _ IH]; [done|]. by rewrite filter_cons, decide_True, IH by done. }
    by rewrite E, Z.eqb_refl, (proj2 (Z.ltb_lt _ _) Hpos).
  - rewrite (proj2 (Z.eqb_neq _ _)); [by destruct unset|]. intros E. apply Hnot.
    assert (E' : plain_traces oss = oss).
    { clear -E. unfold plain_traces in *. induction oss as [|os oss IH]; [done|]. rewrite filter_cons in E |- *.
      pose proof (length_filter (Forall plain_id) oss). destruct (decide (Forall plain_id os)); cbn [length] in E; [f_equal; apply IH|]; lia. }
    rewrite <- E'. apply Forall_forall. intros os Hos. unfold plain_traces in Hos.
    by apply list_elem_of_filter in Hos as [? _].
Qed.

(** ** The runs on the C library *)

Section libc.
Context {L : Type} (libc_malloc : Z -> M L Z) (libc_realloc : Z -> Z -> M L Z) (libc_free : Z -> M L unit).

(** The library has memory left for whatever it is asked. *)
Definition libc_answers : Prop :=
  (forall n l, exists p l', libc_malloc n l = Ok (p, l') /\ p <> 0) /\
  (forall q n l, exists p l', libc_realloc q n l = Ok (p, l') /\ p <> 0) /\
  (forall q l, exists l', libc_free q l = Ok (tt, l')).

Context (Hlibc : libc_answers).

Lemma block_at_run bs i l : 0 <= i < Z.of_nat (length bs) -> exists p, block_at (L := L) bs i l = Ok (p, l).
Proof.
  intros Hi. destruct (lookup_lt_is_Some_2 bs (Z.to_nat i) ltac:(lia)) as [p Hp]. exists p.
  unfold block_at. by rewrite (proj2 (Z.leb_le 0 i)), Hp by lia.
Qed.
Lemma put_block_run bs i p (l : L) : 0 <= i < Z.of_nat (length bs) -> put_block (L := L) bs i p l = Ok (<[Z.to_nat i := p]> bs, l).
Proof. intros Hi. unfold put_block. by rewrite (proj2 (Z.leb_le 0 i)), (proj2 (Z.ltb_lt i _)) by lia. Qed.

Lemma libc_op_ok op bs sizes l : (forall i, is_Some (sizes !! i) -> 0 <= i < Z.of_nat (length bs)) ->
  request_ok (Z.of_nat (length bs)) sizes op ->
  exists bs' l', libc_op libc_malloc libc_realloc libc_free op bs l = Ok (bs', l') /\ length bs' = length bs /\ 0 <= index op < Z.of_nat (length bs).
Proof.
  intros Hk Hop. destruct Hlibc as (Hm & Hr & Hf). destruct op as [ty i n]. unfold libc_op, request_ok in *. cbn [type index size] in *. destruct ty.
  - destruct Hop as (Hi & _). destruct (Hm (u64 n) l) as (p & l' & E & Hp). step E. rewrite (proj2 (Z.eqb_neq _ _) Hp).
    exists (<[Z.to_nat i := p]> bs), l'. by rewrite put_block_run, length_insert by done.
  - pose proof (Hk _ Hop) as Hi. destruct (block_at_run bs i l Hi) as [q E]. step E. destruct (Hf q l) as [l' E']. step E'. by exists bs, l'.
  - destruct Hop as [Hs _]. pose proof (Hk _ Hs) as Hi. destruct (block_at_run bs i l Hi) as [q E]. step E.
    destruct (Hr q (u64 n) l) as (p & l' & E' & Hp). step E'. rewrite (proj2 (Z.eqb_neq _ _) Hp).
    exists (<[Z.to_nat i := p]> bs), l'. by rewrite put_block_run, length_insert by done.
Qed.

Lemma libc_loop_ok t todo : forall done bs sizes l, ops t = done ++ todo ->
  (forall i, is_Some (sizes !! i) -> 0 <= i < Z.of_nat (length bs)) -> requests_ok (Z.of_nat (length bs)) sizes todo ->
  exists bs' l', libc_loop libc_malloc libc_realloc libc_free (length todo) (Z.of_nat (length done)) t bs l = Ok (bs', l') /\ length bs' = length bs.
Proof.
  induction todo as [|op todo IH]; intros done bs sizes l Hops Hk Hreq; cbn [length libc_loop]; [by exists bs, l|].
  destruct Hreq as [Hop Hreq]. rewrite (proj2 (Z.leb_le 0 _)) by lia.
  assert (Hget : ops t !! Z.to_nat (Z.of_nat (length done)) = Some op).
  { rewrite Hops, Nat2Z.id. by rewrite list_lookup_middle. }
  rewrite Hget. change (get_or BadAccess (Some op)) with (ret (S := L) op). step (eq_refl (ret op l)).
  destruct (libc_op_ok op bs sizes l Hk Hop) as (bs1 & l1 & E1 & Hl1 & Hi). step E1.
  replace (Z.of_nat (length done) + 1) with (Z.of_nat (length (done ++ [op]))) by (by rewrite length_app, Nat2Z.inj_add).
  destruct (IH (done ++ [op]) bs1 (sizes_after sizes op) l1) as (bs2 & l2 & E2 & Hl2).
  - by rewrite Hops, <- (assoc_L (++)).
  - intros i Hs. rewrite Hl1. unfold sizes_after in Hs. destruct (decide (i = index op)) as [->|Hne]; [done|]. apply Hk.
    destruct (type op); by rewrite ?lookup_insert_ne, ?lookup_delete_ne in Hs.
  - by rewrite Hl1.
  - exists bs2, l2. split; [done|congruence].
Qed.
End libc.

Section laws.
Context (start : Z) {A : Allocator} {LA : AllocatorLaws start A}.

(** The arrays of the trace have room for its ids and say where the blocks are. *)
Definition arrays_ok (t : trace_t) (L : list live) : Prop :=
  length (blocks t) = Z.to_nat (num_ids t) /\ length (block_sizes t) = Z.to_nat (num_ids t) /\
  Forall (fun l => 0 <= l_id l /\ blocks t !! Z.to_nat (l_id l) = Some (l_ptr l) /\
    block_sizes t !! Z.to_nat (l_id l) = Some (l_size l)) L.

Definition entry (l : live) : Z * Z := (l_id l, l_size l).

Record played (h : heap) (t : trace_t) (L : list live) (sizes : gmap Z Z) : Prop := {
  pl_holds : al_holds h (payload <$> L);
  pl_ids : NoDup (l_id <$> L);
  pl_sizes : list_to_map (entry <$> L) = sizes;
  pl_live : Forall (fun l => 0 < l_size l < 2 ^ 31 /\ l_size l <= l_room l) L;
  pl_arrays : arrays_ok t L
}.

(** The checks' own records: the ranges, and the bytes every block is filled with. *)
Record checked (h : heap) (rs : list range_t) (L : list live) : Prop := {
  ck_ranges : rs = range_of <$> L;
  ck_data : Forall (fun l => forall i, 0 <= i < l_size l ->
    byte_at (words h) (l_ptr l + i) = Some (Z.land (l_id l) 0xFF)) L
}.

Lemma entry_ids (L : list live) : (entry <$> L).*1 = l_id <$> L.
Proof. by rewrite <- list_fmap_compose. Qed.

Lemma played_lookup h t L sizes i n : played h t L sizes -> sizes !! i = Some n ->
  exists L1 l L2, L = L1 ++ l :: L2 /\ l_id l = i /\ l_size l = n.
Proof.
  intros [_ Hids Hs _ _] Hi. rewrite <- Hs in Hi. apply elem_of_list_to_map_2 in Hi.
  apply list_elem_of_fmap in Hi as (l & [= -> ->] & Hl).
  apply list_elem_of_split in Hl as (L1 & L2 & ->). by exists L1, l, L2.
Qed.

Lemma played_fresh h t L sizes i : played h t L sizes -> sizes !! i = None -> i ∉ l_id <$> L.
Proof. intros [_ _ Hs _ _] Hi. rewrite <- entry_ids. rewrite <- Hs in Hi. by apply not_elem_of_list_to_map_2. Qed.

(** One of the blocks and the others. *)
Lemma pick {B} (f : live -> B) (L1 : list live) l L2 : f <$> L1 ++ l :: L2 ≡ₚ f l :: (f <$> L1 ++ L2).
Proof. rewrite !fmap_app. cbn. solve_Permutation. Qed.

Lemma played_pick h t L1 l L2 sizes : played h t (L1 ++ l :: L2) sizes ->
  al_holds h (payload l :: (payload <$> L1 ++ L2)) /\ NoDup (l_id l :: (l_id <$> L1 ++ L2)) /\
  (0 < l_size l < 2 ^ 31 /\ l_size l <= l_room l) /\
  Forall (fun l => 0 < l_size l < 2 ^ 31 /\ l_size l <= l_room l) (L1 ++ L2) /\
  0 <= l_id l /\ blocks t !! Z.to_nat (l_id l) = Some (l_ptr l) /\
  block_sizes t !! Z.to_nat (l_id l) = Some (l_size l) /\ arrays_ok t (L1 ++ L2) /\
  sizes = <[l_id l := l_size l]> (list_to_map (entry <$> L1 ++ L2)).
Proof.
  intros [Hh Hids Hs Hl (Hb & Hz & Ha)]. rewrite Forall_app, Forall_cons in Hl, Ha.
  destruct Hl as (Hl1 & Hl & Hl2), Ha as (Ha1 & (Hi & Hp & Hn) & Ha2).
  split; [by eapply al_holds_perm; [|exact Hh]; rewrite pick|].
  split; [by rewrite <- (pick l_id)|]. split; [done|]. split; [by apply Forall_app|].
  do 3 (split; [done|]). split; [split; [done|]; split; [done|]; by apply Forall_app|].
  rewrite <- Hs. change (<[l_id l := l_size l]> (list_to_map (entry <$> L1 ++ L2)))
    with (list_to_map (entry l :: (entry <$> L1 ++ L2)) : gmap Z Z).
  apply list_to_map_proper; [by rewrite entry_ids|by rewrite pick].
Qed.

(** *** Arrays *)

Lemma array_get_run {B} (xs : list B) i x (d : driver) : 0 <= i -> xs !! Z.to_nat i = Some x ->
  array_get xs i d = Ok (x, d).
Proof. intros Hi Hx. unfold array_get. by rewrite (proj2 (Z.leb_le 0 i) Hi), Hx. Qed.

(** The trace with a block remembered. *)
Definition with_block (t : trace_t) (i p n : Z) : trace_t :=
  mk_trace (sugg_heapsize t) (num_ids t) (num_ops t) (weight t) (ops t)
    (<[Z.to_nat i := p]> (blocks t)) (<[Z.to_nat i := n]> (block_sizes t)).

Lemma remember_run h rs t e i p n L : arrays_ok t L -> 0 <= i < num_ids t ->
  remember i p n (mk_driver h rs t e) = Ok (tt, mk_driver h rs (with_block t i p n) e).
Proof.
  intros (Hb & Hs & _) Hi. unfold remember, array_set, gets, modify, bind, ensure, ret. cbn [trace].
  rewrite Hb, Hs. rewrite (proj2 (Z.leb_le 0 i)), (proj2 (Z.ltb_lt i _)) by lia. done.
Qed.

Lemma arrays_remember t i p n m L : arrays_ok t L -> 0 <= i < num_ids t -> i ∉ l_id <$> L ->
  arrays_ok (with_block t i p n) (mk_live i p n m :: L).
Proof.
  intros (Hb & Hs & Ha) Hi Hni. split; [by cbn; rewrite length_insert|]. split; [by cbn; rewrite length_insert|].
  apply Forall_cons. split; cbn.
  - rewrite !list_lookup_insert_eq by lia. split; [lia|done].
  - apply Forall_forall. intros l Hl. rewrite Forall_forall in Ha. destruct (Ha l Hl) as (? & ? & ?).
    assert (l_id l <> i) by (intros <-; apply Hni, list_elem_of_fmap; by exists l).
    split; [done|]. by rewrite !list_lookup_insert_ne by lia.
Qed.

Lemma arrays_bound t L l : arrays_ok t L -> l ∈ L -> 0 <= l_id l < num_ids t.
Proof.
  intros (Hb & _ & Ha) Hl. rewrite Forall_forall in Ha. destruct (Ha l Hl) as (? & Hx%lookup_lt_Some & _). lia.
Qed.

(** *** The allocator's operations *)

Definition sized (L : list live) : Prop := Forall (fun l => 0 < l_size l < 2 ^ 31 /\ l_size l <= l_room l) L.

Lemma played_cons h t R sizes i p n m : al_holds h ((p, m) :: (payload <$> R)) -> i ∉ l_id <$> R ->
  NoDup (l_id <$> R) -> list_to_map (entry <$> R) = sizes -> sized R -> arrays_ok t R ->
  0 <= i < num_ids t -> 0 < n < 2 ^ 31 -> n <= m ->
  played h (with_block t i p n) (mk_live i p n m :: R) (<[i := n]> sizes).
Proof.
  intros Hh Hi Hnd Hs Hl Ha Hib Hn Hm. split.
  - exact Hh.
  - cbn. by apply NoDup_cons.
  - cbn. by rewrite Hs.
  - apply Forall_cons. by split.
  - by apply arrays_remember.
Qed.

(** Whose the payloads are. *)
Definition owner (l : live) : Z * (Z * Z) := (l_id l, (l_ptr l, l_size l)).
Definition owners (L : list live) : gmap Z (Z * Z) := list_to_map (owner <$> L).

Lemma owner_ids (L : list live) : (owner <$> L).*1 = l_id <$> L.
Proof. by rewrite <- list_fmap_compose. Qed.
Lemma owners_fresh i L : i ∉ l_id <$> L -> owners L !! i = None.
Proof. intros Hi. apply not_elem_of_list_to_map_1. by rewrite owner_ids. Qed.
Lemma owners_pick L1 l L2 : NoDup (l_id <$> L1 ++ l :: L2) ->
  owners (L1 ++ l :: L2) = <[l_id l := (l_ptr l, l_size l)]> (owners (L1 ++ L2)).
Proof.
  intros Hnd. unfold owners. change (<[l_id l := (l_ptr l, l_size l)]> (list_to_map (owner <$> L1 ++ L2)))
    with (list_to_map (owner l :: (owner <$> L1 ++ L2)) : gmap Z (Z * Z)).
  apply list_to_map_proper; [by rewrite owner_ids|by rewrite pick].
Qed.

Local Abbreviation serving := (serving start).
Local Abbreviation refused := (refused start al_cost).
Local Abbreviation runs_out := (runs_out start al_cost).

(** One more request is served. *)
Definition serves (op : traceop_t) (h : heap) (L : list live) (h' : heap) (L' : list live) : Prop :=
  forall os, serving os h (owners L) -> serving (os ++ [op]) h' (owners L').

Lemma serves_write op h L h' l R h'' : serves op h L h' (l :: R) -> only (fun x => l_ptr l <= x < l_ptr l + l_size l) h' h'' ->
  mem_brk h'' = mem_brk h' -> serves op h L h'' (l :: R).
Proof. intros Hs Ho Hb os Hos. eapply (serving_write start _ _ _ (l_id l)); [by apply Hs|apply lookup_insert_eq|exact Ho|exact Hb]. Qed.

Lemma malloc_played h t L sizes i n : played h t L sizes -> sizes !! i = None -> 0 <= i < num_ids t ->
  0 < n < 2 ^ 31 ->
  (exists p m h', al_malloc n h = Ok (p, h') /\ p <> 0 /\ same_payloads (payload <$> L) h h' /\
    played h' (with_block t i p n) (mk_live i p n m :: L) (<[i := n]> sizes) /\
    serves (mk_op ALLOC i n) h L h' (mk_live i p n m :: L)) \/
  (al_malloc n h = Err (Exit 0) /\ refused (mk_op ALLOC i n) h (owners L)).
Proof.
  intros Hpl Hi Hib Hn.
  destruct (al_malloc_ok h _ n (pl_holds _ _ _ _ Hpl)) as [(p & m & h' & E & Hh & Hm & Hk)|[E Hfull]];
    [bound_lia|left|right; by split_and!]. exists p, m, h'.
  destruct (al_holds_in h' _ p m Hh ltac:(by left)) as (H1 & H2 & _). pose proof (played_fresh _ _ _ _ _ Hpl Hi) as Hf.
  split; [done|]. split; [lia|]. split; [done|]. split; [apply played_cons; try done; apply Hpl|].
  intros os Hos. eapply serving_alloc; [exact Hos|by apply owners_fresh|done].
Qed.

Lemma realloc_played h t L1 l L2 sizes n : played h t (L1 ++ l :: L2) sizes ->
  0 < n < 2 ^ 31 ->
  (exists p m h', al_realloc (l_ptr l) n h = Ok (p, h') /\ p <> 0 /\
    same_payloads (payload <$> L1 ++ L2) h h' /\
    (forall i, 0 <= i < n -> i < l_size l -> byte_at (words h') (p + i) = byte_at (words h) (l_ptr l + i)) /\
    played h' (with_block t (l_id l) p n) (mk_live (l_id l) p n m :: L1 ++ L2) (<[l_id l := n]> sizes) /\
    serves (mk_op REALLOC (l_id l) n) h (L1 ++ l :: L2) h' (mk_live (l_id l) p n m :: L1 ++ L2)) \/
  (al_realloc (l_ptr l) n h = Err (Exit 0) /\ refused (mk_op REALLOC (l_id l) n) h (owners (L1 ++ l :: L2))).
Proof.
  intros Hpl Hn. pose proof (arrays_bound t _ l (pl_arrays _ _ _ _ Hpl) ltac:(set_solver)) as Hib.
  destruct (played_pick _ _ _ _ _ _ Hpl) as (Hh & [Hid Hnd]%NoDup_cons & Hl & Hls & _ & _ & _ & Ha & Hs).
  pose proof (owners_pick L1 l L2 (pl_ids _ _ _ _ Hpl)) as Ho.
  destruct (al_realloc_ok h _ _ _ n Hh) as [(p & m & h' & E & Hh' & Hm & Hk & Hc)|[E Hfull]]; [bound_lia|left|right].
  - exists p, m, h'. destruct (al_holds_in h' _ p m Hh' ltac:(by left)) as (H1 & H2 & _).
    split; [done|]. split; [lia|]. split; [done|]. split; [intros; apply Hc; lia|].
    split; [rewrite Hs, insert_insert_eq; by apply played_cons|].
    intros os Hos. rewrite Ho in Hos. change (owners (mk_live (l_id l) p n m :: L1 ++ L2)) with (<[l_id l := (p, n)]> (owners (L1 ++ L2))).
    rewrite <- (insert_insert_eq (owners (L1 ++ L2)) (l_id l) (p, n) (l_ptr l, l_size l)).
    eapply serving_realloc; [exact Hos|apply lookup_insert_eq|done].
  - split; [done|]. split; [|done]. exists (l_ptr l), (l_size l). rewrite Ho. split; [apply lookup_insert_eq|done].
Qed.

Lemma free_played h t L1 l L2 sizes : played h t (L1 ++ l :: L2) sizes ->
  exists h', al_free (l_ptr l) h = Ok (tt, h') /\ same_payloads (payload <$> L1 ++ L2) h h' /\
    played h' t (L1 ++ L2) (delete (l_id l) sizes) /\ forall n, serves (mk_op FREE (l_id l) n) h (L1 ++ l :: L2) h' (L1 ++ L2).
Proof.
  intros Hpl.
  destruct (played_pick _ _ _ _ _ _ Hpl) as (Hh & [Hid Hnd]%NoDup_cons & Hl & Hls & _ & _ & _ & Ha & Hs).
  destruct (al_free_ok h _ _ _ Hh) as (h' & E & Hh' & Hk & Hb). exists h'. split; [done|]. split; [done|]. split.
  - split; try done. rewrite Hs, delete_insert_eq. symmetry. apply delete_id.
    apply not_elem_of_list_to_map_1. by rewrite entry_ids.
  - intros n os Hos. rewrite (owners_pick L1 l L2 (pl_ids _ _ _ _ Hpl)) in Hos.
    rewrite <- (delete_id (owners (L1 ++ L2)) (l_id l) (owners_fresh _ _ Hid)), <- (delete_insert_eq _ (l_id l) (l_ptr l, l_size l)).
    eapply serving_free; [exact Hos|apply lookup_insert_eq|done].
Qed.

(** *** The checks *)

Lemma overlapping_apart p n (R : list live) : 0 < n ->
  Forall (fun l => 0 < l_size l /\ (l_ptr l + l_size l <= p \/ p + n <= l_ptr l)) R ->
  overlapping (range_of <$> R) p (p + n - 1) = false.
Proof.
  intros Hn. induction 1 as [|l R [Hl Ha] _ IH]; cbn; [done|]. rewrite IH.
  destruct (Z.leb_spec (l_ptr l) p), (Z.leb_spec p (l_ptr l + l_size l - 1)),
    (Z.leb_spec (l_ptr l) (p + n - 1)), (Z.leb_spec (p + n - 1) (l_ptr l + l_size l - 1)); cbn; try done; lia.
Qed.

Lemma holds_apart h l (R : list live) : al_holds h (payload l :: (payload <$> R)) -> sized R ->
  0 < l_size l <= l_room l ->
  Forall (fun l' => 0 < l_size l' /\ (l_ptr l' + l_size l' <= l_ptr l \/ l_ptr l + l_size l <= l_ptr l')) R.
Proof.
  intros Hh Hl Hn. apply Forall_forall. intros l' Hin. unfold sized in Hl. rewrite Forall_forall in Hl.
  destruct (Hl l' Hin) as [? ?]. split; [lia|].
  destruct (al_holds_apart h (l_ptr l) (l_room l) (payload <$> R) (l_ptr l') (l_room l')) as [?|?]; [done| |lia|lia].
  apply list_elem_of_fmap. by exists l'.
Qed.

Lemma add_range_run h t e l (R : list live) : al_holds h (payload l :: (payload <$> R)) -> sized R ->
  0 < l_size l <= l_room l ->
  add_range start (l_ptr l) (l_size l) (mk_driver h (range_of <$> R) t e) =
    Ok (1, mk_driver h (range_of <$> l :: R) t e).
Proof.
  intros Hh Hl Hn. destruct (al_holds_in h _ (l_ptr l) (l_room l) Hh ltac:(by left)) as (H1 & H2 & H3 & H4).
  unfold add_range. rewrite (proj2 (Z.ltb_lt 0 _)) by lia. cbn [ensure]. rewrite bind_ret.
  unfold ALIGNMENT. rewrite H3, Z.eqb_refl. cbn [negb].
  erewrite bind_ok by (unfold on_heap, mem_heap_hi, gets; cbn [memory]; reflexivity).
  unfold mem_heap_lo. cbn [ranges Mdriver.trace errors].
  destruct (Z.ltb_spec (l_ptr l) start); [lia|]. destruct (Z.ltb_spec (mem_brk h - 1) (l_ptr l)); [lia|].
  destruct (Z.ltb_spec (l_ptr l + l_size l - 1) start); [lia|].
  destruct (Z.ltb_spec (mem_brk h - 1) (l_ptr l + l_size l - 1)); [lia|]. cbn [orb].
  rewrite (bind_ok _ _ (mk_driver h (range_of <$> R) t e) _ _ eq_refl). cbn [ranges].
  rewrite overlapping_apart; [done|lia|by eapply holds_apart].
Qed.

Lemma remove_first_run l (L2 : list live) : forall L1 : list live, Forall (fun l' => l_ptr l' <> l_ptr l) L1 ->
  remove_first (range_of <$> L1 ++ l :: L2) (l_ptr l) = range_of <$> L1 ++ L2.
Proof.
  induction L1 as [|l' L1 IH]; intros Hd; cbn.
  - by rewrite Z.eqb_refl.
  - apply Forall_cons in Hd as [Hne Hd]. rewrite (proj2 (Z.eqb_neq _ _) Hne). f_equal. by apply IH.
Qed.

Lemma remove_range_run h h0 t0 sizes t e L1 l L2 : played h0 t0 (L1 ++ l :: L2) sizes ->
  remove_range (l_ptr l) (mk_driver h (range_of <$> L1 ++ l :: L2) t e) =
    Ok (tt, mk_driver h (range_of <$> L1 ++ L2) t e).
Proof.
  intros Hpl. destruct (played_pick _ _ _ _ _ _ Hpl) as (Hh & _ & Hl & Hls & _).
  unfold remove_range. rewrite (bind_ok _ _ (mk_driver h (range_of <$> L1 ++ l :: L2) t e) _ _ eq_refl).
  cbn [ranges]. rewrite remove_first_run; [done|].
  pose proof (holds_apart h0 l (L1 ++ L2) Hh Hls ltac:(lia)) as Hap. apply Forall_app in Hap as [Hap _].
  eapply Forall_impl; [exact Hap|]. cbn. intros l'. lia.
Qed.

(** The bytes of blocks whose words are kept. *)
Definition filled (h : heap) (l : live) : Prop :=
  forall i, 0 <= i < l_size l -> byte_at (words h) (l_ptr l + i) = Some (Z.land (l_id l) 0xFF).

Lemma filled_same h h' ps (R : list live) : al_holds h ps -> (payload <$> R) ⊆ ps -> sized R ->
  same_payloads (payload <$> R) h h' -> Forall (filled h) R -> Forall (filled h') R.
Proof.
  intros Hh Hps Hl Hk HF. unfold sized in Hl. rewrite Forall_forall in Hl, HF |- *. intros l Hin i Hi.
  assert (Hp : payload l ∈ payload <$> R) by (apply list_elem_of_fmap; by exists l).
  destruct (al_holds_in h _ _ _ Hh (Hps _ Hp)) as (_ & _ & H8 & _). destruct (Hl l Hin).
  rewrite (same_bytes h h' (l_ptr l) i (l_room l)); [by apply HF|done|lia|].
  intros x Hx. by apply (Hk (l_ptr l) (l_room l)).
Qed.

Lemma fill_run h l (R : list live) : al_holds h (payload l :: (payload <$> R)) -> sized R ->
  0 < l_size l <= l_room l -> Forall (filled h) R ->
  exists h', memset (Z.to_nat (l_size l)) (l_ptr l) (Z.land (l_id l) 0xFF) h = Ok (tt, h') /\
    al_holds h' (payload l :: (payload <$> R)) /\ Forall (filled h') (l :: R) /\
    only (fun x => l_ptr l <= x < l_ptr l + l_size l) h h' /\ mem_brk h' = mem_brk h.
Proof.
  intros Hh Hl Hn HF. destruct (al_holds_in h _ _ _ Hh ltac:(by left)) as (H1 & H2 & H3 & H4).
  destruct (memset_payload (l_size l) (l_ptr l) (l_size l) (Z.land (l_id l) 0xFF) h H3) as (h' & E & Hb & Ho' & Hv);
    [lia|intros x Hx; apply (al_holds_area h _ x Hh); lia|].
  assert (Ho : only (fun x => l_ptr l <= x < l_ptr l + l_room l) h h') by (eapply only_mono; [|exact Ho']; cbn; lia).
  assert (Hh' : al_holds h' (payload l :: (payload <$> R))).
  { eapply al_holds_write; [exact Hh|by left|exact Ho|done]. }
  exists h'. split; [done|]. split; [done|]. split; [|done]. apply Forall_cons. split.
  - intros i Hi. rewrite Hv by done. rewrite Z.mod_small by apply land_byte. done.
  - eapply filled_same; [exact Hh|by intros p Hp; right|done| |done]. intros q u x Hq Hx. apply Ho.
    pose proof (al_holds_apart h _ _ _ _ _ Hh Hq). lia.
Qed.

(** *** Playing requests *)

Definition same_requests (t t' : trace_t) : Prop :=
  ops t' = ops t /\ num_ids t' = num_ids t /\ num_ops t' = num_ops t.

Lemma on_heap_run {B} (m : M heap B) h rs t e a h' : m h = Ok (a, h') ->
  on_heap m (mk_driver h rs t e) = Ok (a, mk_driver h' rs t e).
Proof. intros E. unfold on_heap. cbn [memory]. by rewrite E. Qed.

Lemma gets_trace h rs t e : gets trace (mk_driver h rs t e) = Ok (t, mk_driver h rs t e).
Proof. done. Qed.

Lemma played_heap h h' t L sizes : played h t L sizes -> al_holds h' (payload <$> L) -> played h' t L sizes.
Proof. intros [] Hh. by split. Qed.

Lemma u64_size n : 0 < n < 2 ^ 31 -> u64 n = n.
Proof. intros Hn. apply wrapu_small. bound_lia. Qed.

(** The heap's area is there. *)
Definition area_ok (h : heap) : Prop := forall x, start <= x < start + MAX_HEAP -> x mod 8 = 0 -> is_Some (words h !! x).

Lemma played_area h t L sizes : played h t L sizes -> area_ok h.
Proof. intros Hpl x Hx. by apply (al_holds_area h _ x (pl_holds _ _ _ _ Hpl)). Qed.

(** A request is served and checked, or the allocator refuses it, or the driver blames the
    allocator for a block that was resized. *)
Definition valid_step (h : heap) (t : trace_t) (e : Z) (L : list live) (sizes : gmap Z Z) (op : traceop_t) (r : res (bool * driver)) : Prop :=
  (plain_id op /\ exists h' t' L', r = Ok (true, mk_driver h' (range_of <$> L') t' e) /\
    played h' t' L' (sizes_after sizes op) /\ Forall (filled h') L' /\ same_requests t t' /\ serves op h L h' L') \/
  (r = Err (Exit 0) /\ refused op h (owners L)) \/
  (~ plain_id op /\ exists h' rs', r = Ok (false, mk_driver h' rs' t (s32 (e + 1))) /\ area_ok h').

Lemma valid_alloc h t e L sizes op : type op = ALLOC -> played h t L sizes -> Forall (filled h) L ->
  request_ok (num_ids t) sizes op ->
  valid_step h t e L sizes op (valid_op start op (mk_driver h (range_of <$> L) t e)).
Proof.
  destruct op as [ty i n]. unfold valid_op, request_ok. cbn [type index size].
  intros -> Hpl HF (Hi & Hni & Hn). rewrite u64_size by done.
  destruct (malloc_played h t L sizes i n Hpl Hni Hi Hn) as [(p & m & h1 & E1 & Hp & Hk & Hpl1 & Hs1)|[E1 Hr]].
  2: { right; left. split; [|done]. apply bind_err. unfold on_heap. cbn [memory]. by rewrite E1. }
  step (on_heap_run _ h (range_of <$> L) t e _ _ E1). rewrite (proj2 (Z.eqb_neq _ _) Hp).
  set (l := mk_live i p n m) in *.
  pose proof (pl_holds _ _ _ _ Hpl1) as Hh1. rewrite fmap_cons in Hh1.
  pose proof (pl_live _ _ _ _ Hpl) as Hls. pose proof (pl_live _ _ _ _ Hpl1) as [Hl _]%Forall_cons.
  change p with (l_ptr l). change n with (l_size l) at 1 2.
  step (add_range_run h1 t e l L Hh1 Hls ltac:(lia)). change (1 =? 0) with false. cbn iota.
  destruct (fill_run h1 l L Hh1 Hls ltac:(lia)) as (h2 & E2 & Hh2 & HF2 & Ho2 & Hb2).
  { eapply filled_same; [apply Hpl|done|done|exact Hk|done]. }
  change i with (l_id l) at 1. step (on_heap_run _ h1 (range_of <$> l :: L) t e _ _ E2).
  step (remember_run h2 (range_of <$> l :: L) t e i p n L (pl_arrays _ _ _ _ Hpl) Hi).
  left. split; [done|]. exists h2, (with_block t i p n), (l :: L). split; [done|].
  split; [by eapply played_heap|]. split; [done|]. split; [done|]. by eapply serves_write.
Qed.

Lemma valid_realloc h t e L sizes op : type op = REALLOC -> played h t L sizes -> Forall (filled h) L ->
  request_ok (num_ids t) sizes op ->
  valid_step h t e L sizes op (valid_op start op (mk_driver h (range_of <$> L) t e)).
Proof.
  destruct op as [ty i n]. unfold valid_op, request_ok. cbn [type index size].
  intros -> Hpl HF ([old Hi] & Hn). rewrite u64_size by done.
  destruct (played_lookup _ _ _ _ _ _ Hpl Hi) as (L1 & l0 & L2 & -> & <- & <-).
  destruct (played_pick _ _ _ _ _ _ Hpl) as (Hh & [Hni _]%NoDup_cons & Hl0 & Hls & Hi0 & Hbl & Hbs & Ha & _).
  pose proof (arrays_bound t _ l0 (pl_arrays _ _ _ _ Hpl) ltac:(set_solver)) as Hib.
  assert (HF0 : filled h l0 /\ Forall (filled h) (L1 ++ L2)).
  { rewrite Forall_app, Forall_cons in HF. rewrite Forall_app. tauto. }
  destruct HF0 as [HF0 HFr]. set (R := L1 ++ L2) in *. set (L := L1 ++ l0 :: L2) in *.
  step (gets_trace h (range_of <$> L) t e). step (array_get_run _ _ _ (mk_driver h (range_of <$> L) t e) Hi0 Hbl).
  destruct (realloc_played h t L1 l0 L2 sizes n Hpl Hn) as [(p & m & h1 & E1 & Hp & Hk & Hc & Hpl1 & Hs1)|[E1 Hr]].
  2: { right; left. split; [|done]. apply bind_err. unfold on_heap. cbn [memory]. by rewrite E1. }
  fold R L in Hpl1, Hs1. set (l := mk_live (l_id l0) p n m) in *.
  step (on_heap_run _ h (range_of <$> L) t e _ _ E1). rewrite (proj2 (Z.eqb_neq _ _) Hp).
  step (remove_range_run h1 h t sizes t e L1 l0 L2 Hpl). fold R.
  pose proof (pl_holds _ _ _ _ Hpl1) as Hh1. rewrite fmap_cons in Hh1.
  pose proof (pl_live _ _ _ _ Hpl1) as [Hl _]%Forall_cons.
  change p with (l_ptr l). change n with (l_size l) at 1.
  step (add_range_run h1 t e l R Hh1 Hls ltac:(lia)). change (1 =? 0) with false. cbn iota.
  step (array_get_run _ _ _ (mk_driver h1 (range_of <$> l :: R) t e) Hi0 Hbs).
  rewrite (wraps_small 32 (l_size l0)) by bound_lia.
  set (k := if n <? l_size l0 then n else l_size l0).
  assert (Hmin : 0 < k <= n /\ k <= l_size l0) by (unfold k; destruct (Z.ltb_spec n (l_size l0)); lia).
  pose proof (land_byte (l_id l0)) as Hbyte.
  assert (Hdata : forall i, 0 <= i < k -> byte_at (words h1) (l_ptr l + i) = Some (Z.land (l_id l0) 255)).
  { intros i Hik. cbn [l_ptr l]. rewrite Hc by lia. apply HF0. lia. }
  destruct (Z.lt_ge_cases (Z.land (l_id l0) 255) 128) as [Hplain|Hhigh].
  - assert (E2 : same_data (Z.to_nat k) (l_ptr l) (Z.land (l_id l0) 255) h1 = Ok (true, h1)).
    { apply same_data_run; [lia|]. intros i Hik. apply Hdata. lia. }
    step (on_heap_run _ h1 (range_of <$> l :: R) t e _ _ E2). cbn [negb].
    destruct (fill_run h1 l R Hh1 Hls ltac:(lia)) as (h2 & E3 & Hh2 & HF2 & Ho2 & Hb2).
    { eapply filled_same; [exact Hh|by intros q Hq; right|done|exact Hk|done]. }
    change (l_id l0) with (l_id l) at 1. change n with (l_size l) at 1.
    step (on_heap_run _ h1 (range_of <$> l :: R) t e _ _ E3).
    step (remember_run h2 (range_of <$> l :: R) t e (l_id l0) p n R Ha Hib).
    left. split; [done|]. exists h2, (with_block t (l_id l0) p n), (l :: R). split; [done|].
    split; [by eapply played_heap|]. split; [done|]. split; [done|]. by eapply serves_write.
  - assert (E2 : same_data (Z.to_nat k) (l_ptr l) (Z.land (l_id l0) 255) h1 = Ok (false, h1)).
    { destruct (Z.to_nat k) as [|k'] eqn:Ek; [lia|]. apply same_data_negative; [lia|].
      rewrite <- (Hdata 0) by lia. f_equal. lia. }
    step (on_heap_run _ h1 (range_of <$> l :: R) t e _ _ E2). cbn [negb].
    right; right. split; [unfold plain_id; cbn; lia|]. exists h1, (range_of <$> l :: R). split; [done|by eapply played_area].
Qed.

Lemma valid_free h t e L sizes op : type op = FREE -> played h t L sizes -> Forall (filled h) L ->
  request_ok (num_ids t) sizes op ->
  valid_step h t e L sizes op (valid_op start op (mk_driver h (range_of <$> L) t e)).
Proof.
  destruct op as [ty i n]. unfold valid_op, request_ok. cbn [type index size].
  intros -> Hpl HF [old Hi].
  destruct (played_lookup _ _ _ _ _ _ Hpl Hi) as (L1 & l & L2 & -> & <- & <-).
  destruct (played_pick _ _ _ _ _ _ Hpl) as (Hh & _ & _ & Hls & Hi0 & Hbl & _).
  destruct (free_played h t L1 l L2 sizes Hpl) as (h1 & E1 & Hk & Hpl1 & Hs1). set (R := L1 ++ L2) in *.
  step (gets_trace h (range_of <$> L1 ++ l :: L2) t e).
  step (array_get_run _ _ _ (mk_driver h (range_of <$> L1 ++ l :: L2) t e) Hi0 Hbl).
  step (remove_range_run h h t sizes t e L1 l L2 Hpl). fold R.
  step (on_heap_run _ h (range_of <$> R) t e _ _ E1).
  left. split; [done|]. exists h1, t, R. split; [done|]. split; [done|]. split; [|done].
  eapply filled_same; [exact Hh|by intros q Hq; right|done|exact Hk|].
  rewrite Forall_app, Forall_cons in HF. apply Forall_app. tauto.
Qed.

Lemma valid_op_ok h t e L sizes op : played h t L sizes -> Forall (filled h) L ->
  request_ok (num_ids t) sizes op ->
  valid_step h t e L sizes op (valid_op start op (mk_driver h (range_of <$> L) t e)).
Proof.
  intros. destruct (type op) eqn:Hty; [by apply valid_alloc|by apply valid_free|by apply valid_realloc].
Qed.

(** What a run of all requests comes to. *)
Definition valid_run (todo : list traceop_t) (t : trace_t) (e : Z) (r : res (Z * driver)) : Prop :=
  (Forall plain_id todo /\ exists h' t' L' sizes', r = Ok (1, mk_driver h' (range_of <$> L') t' e) /\
    played h' t' L' sizes' /\ same_requests t t') \/
  (r = Err (Exit 0) /\ runs_out (ops t)) \/
  (~ Forall plain_id todo /\ exists h' rs' t', r = Ok (0, mk_driver h' rs' t' (s32 (e + 1))) /\ area_ok h' /\ same_requests t t').

Lemma next_op t done op todo (d : driver) : ops t = done ++ op :: todo ->
  array_get (ops t) (Z.of_nat (length done)) d = Ok (op, d).
Proof. intros Hops. apply array_get_run; [lia|]. rewrite Hops, Nat2Z.id. by rewrite list_lookup_middle. Qed.

Lemma valid_loop_ok todo : forall done h t e L sizes, ops t = done ++ todo -> serving done h (owners L) ->
  played h t L sizes -> Forall (filled h) L -> requests_ok (num_ids t) sizes todo ->
  valid_run todo t e (valid_loop start (length todo) (Z.of_nat (length done)) (mk_driver h (range_of <$> L) t e)).
Proof.
  induction todo as [|op todo IH]; intros done h t e L sizes Hops Hsv Hpl HF Hreq; cbn [length valid_loop].
  { left. split; [done|]. by exists h, t, L, sizes. }
  cbn [requests_ok] in Hreq. destruct Hreq as [Hop Hreq].
  step (gets_trace h (range_of <$> L) t e). step (next_op t done op todo (mk_driver h (range_of <$> L) t e) Hops).
  destruct (valid_op_ok h t e L sizes op Hpl HF Hop)
    as [(Hpo & h1 & t1 & L1 & E1 & Hpl1 & HF1 & (Ho1 & Hi1 & Hn1) & Hs1)|[[E1 Hr]|(Hpo & h1 & rs1 & E1 & Ha1)]].
  - step E1. replace (Z.of_nat (length done) + 1) with (Z.of_nat (length (done ++ [op])))
      by (by rewrite length_app, Nat2Z.inj_add).
    destruct (IH (done ++ [op]) h1 t1 e L1 (sizes_after sizes op)) as [(Hpi & h2 & t2 & L2 & s2 & E2 & Hpl2 & Ho2 & Hi2 & Hn2)|[[E2 Hr]|(Hpi & h2 & rs2 & t2 & E2 & Ha2 & Ho2 & Hi2 & Hn2)]].
    + by rewrite Ho1, Hops, <- (assoc_L (++)).
    + by apply Hs1.
    + done.
    + done.
    + by rewrite Hi1.
    + left. split; [by constructor|]. exists h2, t2, L2, s2. split; [done|]. split; [done|]. split; [congruence|split; congruence].
    + right; left. by rewrite <- Ho1.
    + right; right. split; [by intros [_ ?]%Forall_cons|]. exists h2, rs2, t2. split; [done|]. split; [done|]. split; [congruence|split; congruence].
  - right; left. split; [by apply bind_err|]. rewrite Hops. by exists done, op, todo, h, (owners L).
  - right; right. split; [by intros [? _]%Forall_cons|]. step E1. by exists h1, rs1, t.
Qed.

(** The trace's own data: as many requests as it says, arrays with room. *)
Definition trace_ok (t : trace_t) : Prop :=
  num_ops t = Z.of_nat (length (ops t)) /\ 0 <= num_ids t /\
  length (blocks t) = Z.to_nat (num_ids t) /\ length (block_sizes t) = Z.to_nat (num_ids t) /\
  requests_ok (num_ids t) ∅ (ops t).

Lemma reset_init h rs t e (Harea : area_ok h) :
  trace_ok t -> exists h', al_init (mk_heap (words h) start) = Ok (0, h') /\ played h' t [] ∅ /\ serving [] h' (owners []) /\
    on_heap (mem_reset_brk start) (mk_driver h rs t e) = Ok (tt, mk_driver (mk_heap (words h) start) rs t e).
Proof.
  intros (_ & _ & Hb & Hs & _). destruct (al_init_ok h Harea) as (h' & E & Hh).
  exists h'. split; [done|]. split; [|split; [by eapply serving_start|done]].
  split; [exact Hh|constructor|done|by apply Forall_nil|]. split; [done|]. split; [done|by apply Forall_nil].
Qed.

Lemma eval_mm_valid_ok h rs t e : area_ok h -> trace_ok t ->
  valid_run (ops t) t e (eval_mm_valid start (mk_driver h rs t e)).
Proof.
  intros Harea Ht. destruct (reset_init h rs t e Harea Ht) as (h1 & E1 & Hpl & Hsv & E0).
  destruct Ht as (Hn & _ & _ & _ & Hreq). unfold eval_mm_valid. step E0.
  rewrite (bind_ok clear_ranges _ (mk_driver (mk_heap (words h) start) rs t e) _ _ eq_refl).
  step (on_heap_run _ (mk_heap (words h) start) [] t e _ _ E1). change (0 <? 0) with false. cbn iota.
  step (gets_trace h1 [] t e). rewrite Hn, Nat2Z.id. by apply (valid_loop_ok (ops t) [] h1 t e [] ∅).
Qed.

(** *** Utilization *)

Lemma total_nonneg sizes : map_Forall (fun _ n => 0 < n) sizes -> 0 <= total_of sizes.
Proof.
  induction sizes as [|i n sizes Hi IH] using map_ind; intros HF; [done|].
  rewrite total_insert by done. apply map_Forall_insert in HF as [Hn HF]; [|done]. specialize (IH HF). lia.
Qed.

Lemma played_sizes h t L sizes : played h t L sizes -> map_Forall (fun _ n => 0 < n < 2 ^ 31) sizes.
Proof.
  intros Hpl i n Hi. destruct (played_lookup _ _ _ _ _ _ Hpl Hi) as (L1 & l & L2 & -> & _ & <-).
  pose proof (pl_live _ _ _ _ Hpl) as Hl. rewrite Forall_app, Forall_cons in Hl. tauto.
Qed.

Lemma peak_ge sizes os : total_of sizes <= peak sizes os.
Proof. destruct os; cbn; lia. Qed.

Lemma max_if a b : (if a <? b then b else a) = Z.max a b.
Proof. destruct (Z.ltb_spec a b); lia. Qed.

(** The bytes in use are apart, and so fit the simulated memory. *)
Definition cover (L : list live) : gset Z := ⋃ ((fun l => list_to_set (seqZ (l_ptr l) (l_size l))) <$> L).

Lemma elem_of_cover L x : x ∈ cover L <-> exists l, l ∈ L /\ l_ptr l <= x < l_ptr l + l_size l.
Proof.
  unfold cover. rewrite elem_of_union_list. split.
  - intros (X & (l & -> & Hl)%list_elem_of_fmap & Hx%elem_of_list_to_set%elem_of_seqZ). by exists l.
  - intros (l & Hl & Hx). eexists. split; [apply list_elem_of_fmap; by exists l|]. by apply elem_of_list_to_set, elem_of_seqZ.
Qed.

Lemma size_bytes p n : 0 <= n -> Z.of_nat (base.size (list_to_set (seqZ p n) : gset Z)) = n.
Proof. intros Hn. rewrite size_list_to_set by apply NoDup_seqZ. rewrite length_seqZ. lia. Qed.

Lemma total_cover h t L sizes : played h t L sizes -> total_of sizes = Z.of_nat (base.size (cover L)).
Proof.
  intros Hpl. rewrite <- (pl_sizes _ _ _ _ Hpl). pose proof (pl_ids _ _ _ _ Hpl) as Hnd. pose proof (pl_live _ _ _ _ Hpl) as Hl.
  assert (Hap : forall L1 l L2, L = L1 ++ l :: L2 -> Forall (fun l' => l_ptr l' + l_size l' <= l_ptr l \/ l_ptr l + l_size l <= l_ptr l') L2).
  { intros L1 l L2 ->. destruct (played_pick _ _ _ _ _ _ Hpl) as (Hh & _ & Hn & Hls & _).
    pose proof (holds_apart h l (L1 ++ L2) Hh Hls ltac:(lia)) as HF. apply Forall_app in HF as [_ HF].
    eapply Forall_impl; [exact HF|]. cbn. tauto. }
  clear Hpl. induction L as [|l L IH]; [done|]. apply NoDup_cons in Hnd as [Hni Hnd]. apply Forall_cons in Hl as [Hl HL].
  change (list_to_map (entry <$> l :: L)) with (<[l_id l := l_size l]> (list_to_map (entry <$> L)) : gmap Z Z).
  rewrite total_insert by (apply not_elem_of_list_to_map_1; by rewrite entry_ids).
  rewrite (IH Hnd HL) by (intros L1 l' L2 ->; by apply (Hap (l :: L1))).
  change (cover (l :: L)) with (list_to_set (seqZ (l_ptr l) (l_size l)) ∪ cover L).
  rewrite size_union; [by rewrite Nat2Z.inj_add, size_bytes by lia|].
  intros x Hx%elem_of_list_to_set%elem_of_seqZ (l' & Hl' & Hx')%elem_of_cover.
  specialize (Hap [] l L eq_refl). rewrite Forall_forall in Hap. specialize (Hap l' Hl'). lia.
Qed.

Lemma total_bound h t L sizes : played h t L sizes -> 0 <= total_of sizes <= MAX_HEAP.
Proof.
  intros Hpl. split; [apply total_nonneg; eapply map_Forall_impl; [by eapply played_sizes|cbn; lia]|].
  rewrite (total_cover _ _ _ _ Hpl), <- (size_bytes start MAX_HEAP ltac:(done)). apply inj_le, subseteq_size.
  intros x (l & Hl & Hx)%elem_of_cover. apply elem_of_list_to_set, elem_of_seqZ.
  destruct (al_holds_in h _ (l_ptr l) (l_room l) (pl_holds _ _ _ _ Hpl)) as (H1 & H2 & _ & H4).
  { apply list_elem_of_fmap. by exists l. }
  pose proof (pl_live _ _ _ _ Hpl) as HL. rewrite Forall_forall in HL. destruct (HL l Hl). lia.
Qed.

(** The total and its peak are kept. *)
Lemma util_op_ok h rs t e L sizes op mx : played h t L sizes -> request_ok (num_ids t) sizes op -> total_of sizes <= mx ->
  (exists h' t' L', util_op op (total_of sizes) mx (mk_driver h rs t e) =
      Ok ((total_of (sizes_after sizes op), Z.max mx (total_of (sizes_after sizes op))), mk_driver h' rs t' e) /\
    played h' t' L' (sizes_after sizes op) /\ same_requests t t' /\ serves op h L h' L') \/
  (util_op op (total_of sizes) mx (mk_driver h rs t e) = Err (Exit 0) /\ refused op h (owners L)).
Proof.
  intros Hpl Hop Hmx. pose proof (total_bound _ _ _ _ Hpl) as Hnn.
  assert (HM : MAX_HEAP = 20971520) by reflexivity.
  destruct op as [ty i n]. unfold util_op, request_ok, sizes_after in *. cbn [type index size] in *.
  destruct ty.
  - destruct Hop as (Hi & Hni & Hn). rewrite u64_size by done.
    destruct (malloc_played h t L sizes i n Hpl Hni Hi Hn) as [(p & m & h1 & E1 & Hp & _ & Hpl1 & Hs1)|[E1 Hr]].
    2: { right. split; [|done]. apply bind_err. unfold on_heap. cbn [memory]. by rewrite E1. }
    left. step (on_heap_run _ h rs t e _ _ E1). rewrite (proj2 (Z.eqb_neq _ _) Hp).
    step (remember_run h1 rs t e i p n L (pl_arrays _ _ _ _ Hpl) Hi).
    pose proof (total_bound _ _ _ _ Hpl1) as Hnn1. rewrite total_insert in * by done.
    rewrite wraps_small, max_if by bound_lia.
    exists h1, (with_block t i p n), (mk_live i p n m :: L). rewrite (Z.add_comm n).
    split; [done|]. split; [done|]. by split.
  - destruct Hop as [old Hi]. left.
    destruct (played_lookup _ _ _ _ _ _ Hpl Hi) as (L1 & l & L2 & -> & <- & <-).
    destruct (played_pick _ _ _ _ _ _ Hpl) as (_ & _ & Hl & _ & Hi0 & Hbl & Hbs & _).
    destruct (free_played h t L1 l L2 sizes Hpl) as (h1 & E1 & _ & Hpl1 & Hs1).
    step (gets_trace h rs t e). step (array_get_run _ _ _ (mk_driver h rs t e) Hi0 Hbs).
    step (array_get_run _ _ _ (mk_driver h rs t e) Hi0 Hbl). step (on_heap_run _ h rs t e _ _ E1).
    pose proof (total_bound _ _ _ _ Hpl1) as Hnn1.
    rewrite (total_delete _ _ _ Hi) in *. rewrite (wraps_small 32 (l_size l)) by bound_lia.
    rewrite wraps_small by bound_lia. rewrite Z.max_l by lia.
    exists h1, t, (L1 ++ L2). split; [done|]. split; [done|]. by split.
  - destruct Hop as ([old Hi] & Hn). rewrite u64_size by done.
    destruct (played_lookup _ _ _ _ _ _ Hpl Hi) as (L1 & l & L2 & -> & <- & <-).
    destruct (played_pick _ _ _ _ _ _ Hpl) as (_ & _ & Hl & _ & Hi0 & Hbl & Hbs & Ha & _).
    pose proof (arrays_bound t _ l (pl_arrays _ _ _ _ Hpl) ltac:(set_solver)) as Hib.
    step (gets_trace h rs t e). step (array_get_run _ _ _ (mk_driver h rs t e) Hi0 Hbs).
    step (array_get_run _ _ _ (mk_driver h rs t e) Hi0 Hbl).
    destruct (realloc_played h t L1 l L2 sizes n Hpl Hn) as [(p & m & h1 & E1 & Hp & _ & _ & Hpl1 & Hs1)|[E1 Hr]].
    2: { right. split; [|done]. apply bind_err. unfold on_heap. cbn [memory]. by rewrite E1. }
    left. step (on_heap_run _ h rs t e _ _ E1).
    rewrite (proj2 (Z.eqb_neq _ _) Hp). step (remember_run h1 rs t e _ p n _ Ha Hib).
    pose proof (total_bound _ _ _ _ Hpl1) as Hnn1.
    rewrite (total_update _ _ _ _ Hi) in *. rewrite (wraps_small 32 (l_size l)) by bound_lia.
    rewrite (wraps_small 32 (n - l_size l)) by bound_lia. rewrite wraps_small, max_if by bound_lia.
    eexists h1, _, _. split; [done|]. split; [exact Hpl1|]. by split.
Qed.

Lemma util_loop_ok todo : forall done h rs t e L sizes mx, ops t = done ++ todo -> serving done h (owners L) ->
  played h t L sizes -> requests_ok (num_ids t) sizes todo -> total_of sizes <= mx ->
  (exists h' t' L' sizes', util_loop (length todo) (Z.of_nat (length done)) (total_of sizes) mx (mk_driver h rs t e) =
      Ok (Z.max mx (peak sizes todo), mk_driver h' rs t' e) /\ played h' t' L' sizes' /\ same_requests t t') \/
  (util_loop (length todo) (Z.of_nat (length done)) (total_of sizes) mx (mk_driver h rs t e) = Err (Exit 0) /\ runs_out (ops t)).
Proof.
  induction todo as [|op todo IH]; intros done h rs t e L sizes mx Hops Hsv Hpl Hreq Hmx; cbn [length util_loop].
  { left. exists h, t, L, sizes. cbn. by rewrite Z.max_l. }
  cbn [requests_ok] in Hreq. destruct Hreq as [Hop Hreq]. step (gets_trace h rs t e).
  step (next_op t done op todo (mk_driver h rs t e) Hops).
  destruct (util_op_ok h rs t e L sizes op mx Hpl Hop Hmx) as [(h1 & t1 & L1 & E1 & Hpl1 & (Ho1 & Hi1 & Hn1) & Hs1)|[E1 Hr]].
  2: { right. split; [by apply bind_err|]. rewrite Hops. by exists done, op, todo, h, (owners L). }
  step E1. replace (Z.of_nat (length done) + 1) with (Z.of_nat (length (done ++ [op])))
    by (by rewrite length_app, Nat2Z.inj_add).
  destruct (IH (done ++ [op]) h1 rs t1 e L1 (sizes_after sizes op) (Z.max mx (total_of (sizes_after sizes op))))
    as [(h2 & t2 & L2 & s2 & E2 & Hpl2 & Ho2 & Hi2 & Hn2)|[E2 Hr]].
  - rewrite Ho1, Hops, <- (assoc_L (++)). done.
  - by apply Hs1.
  - done.
  - by rewrite Hi1.
  - lia.
  - left. exists h2, t2, L2, s2. split; [|split; [done|split; [congruence|split; congruence]]].
    rewrite E2. do 2 f_equal. cbn [peak]. pose proof (peak_ge (sizes_after sizes op) todo). lia.
  - right. by rewrite <- Ho1.
Qed.

Lemma eval_mm_util_ok h rs t e : area_ok h -> trace_ok t ->
  (exists h' t' L' sizes', eval_mm_util start (mk_driver h rs t e) =
    Ok ((peak ∅ (ops t), mem_brk h' - start), mk_driver h' rs t' e) /\ played h' t' L' sizes' /\ same_requests t t') \/
  (eval_mm_util start (mk_driver h rs t e) = Err (Exit 0) /\ runs_out (ops t)).
Proof.
  intros Harea Ht. destruct (reset_init h rs t e Harea Ht) as (h1 & E1 & Hpl & Hsv & E0).
  destruct Ht as (Hn & _ & _ & _ & Hreq). unfold eval_mm_util. step E0.
  step (on_heap_run _ (mk_heap (words h) start) rs t e _ _ E1). change (0 <? 0) with false. cbn iota.
  step (gets_trace h1 rs t e). rewrite Hn, Nat2Z.id.
  destruct (util_loop_ok (ops t) [] h1 rs t e [] ∅ 0) as [(h2 & t2 & L2 & s2 & E2 & Hpl2 & Hsr)|[E2 Hr]]; try done.
  - left. change (total_of ∅) with 0 in E2. step E2.
    erewrite bind_ok by (apply on_heap_run; unfold mem_heapsize, gets; reflexivity).
    exists h2, t2, L2, s2. split; [|done]. unfold ret. do 3 f_equal. pose proof (peak_ge ∅ (ops t)) as Hpk.
    change (total_of ∅) with 0 in Hpk. lia.
  - right. split; [by apply bind_err|done].
Qed.

(** *** Speed *)

(** A run that does not keep the sizes: its trace has the blocks of one that does. *)
Definition shadow (t ts : trace_t) : Prop :=
  blocks t = blocks ts /\ ops t = ops ts /\ num_ids t = num_ids ts /\ num_ops t = num_ops ts /\ length (block_sizes t) = length (block_sizes ts).

Lemma set_block_run h rs t ts e i p n L : shadow t ts -> arrays_ok ts L -> 0 <= i < num_ids ts ->
  exists t', set_block i p (mk_driver h rs t e) = Ok (tt, mk_driver h rs t' e) /\ shadow t' (with_block ts i p n).
Proof.
  intros (Eb & Eo & Ei & En & El) (Hb & Hs & _) Hi. unfold set_block, array_set, gets, modify, bind, ensure, ret. cbn [trace].
  rewrite Eb, Hb. rewrite (proj2 (Z.leb_le 0 i)), (proj2 (Z.ltb_lt i _)) by lia. cbn [andb]. eexists. split; [reflexivity|].
  unfold shadow, with_block. cbn. by rewrite length_insert.
Qed.

Lemma speed_op_ok h rs t ts e L sizes op : played h ts L sizes -> shadow t ts -> request_ok (num_ids ts) sizes op ->
  (exists h' t' ts' L', speed_op op (mk_driver h rs t e) = Ok (tt, mk_driver h' rs t' e) /\ shadow t' ts' /\
    played h' ts' L' (sizes_after sizes op) /\ same_requests ts ts' /\ serves op h L h' L') \/
  (speed_op op (mk_driver h rs t e) = Err (Exit 0) /\ refused op h (owners L)).
Proof.
  intros Hpl Hsh Hop. destruct op as [ty i n]. unfold speed_op, request_ok, sizes_after in *. cbn [type index size] in *.
  pose proof Hsh as (Eb & _). destruct ty.
  - destruct Hop as (Hi & Hni & Hn). rewrite u64_size by done.
    destruct (malloc_played h ts L sizes i n Hpl Hni Hi Hn) as [(p & m & h1 & E1 & Hp & _ & Hpl1 & Hs1)|[E1 Hr]].
    2: { right. split; [|done]. apply bind_err. unfold on_heap. cbn [memory]. by rewrite E1. }
    left. step (on_heap_run _ h rs t e _ _ E1). rewrite (proj2 (Z.eqb_neq _ _) Hp).
    destruct (set_block_run h1 rs t ts e i p n L Hsh (pl_arrays _ _ _ _ Hpl) Hi) as (t' & R & Hsh').
    exists h1, t', (with_block ts i p n), (mk_live i p n m :: L). by split_and!.
  - destruct Hop as [old Hi]. left. destruct (played_lookup _ _ _ _ _ _ Hpl Hi) as (L1 & l & L2 & -> & <- & <-).
    destruct (played_pick _ _ _ _ _ _ Hpl) as (_ & _ & Hl & _ & Hi0 & Hbl & _). rewrite <- Eb in Hbl.
    destruct (free_played h ts L1 l L2 sizes Hpl) as (h1 & E1 & _ & Hpl1 & Hs1).
    step (gets_trace h rs t e). step (array_get_run _ _ _ (mk_driver h rs t e) Hi0 Hbl).
    exists h1, t, ts, (L1 ++ L2). split; [by apply on_heap_run|]. by split_and!.
  - destruct Hop as ([old Hi] & Hn). rewrite u64_size by done.
    destruct (played_lookup _ _ _ _ _ _ Hpl Hi) as (L1 & l & L2 & -> & <- & <-).
    destruct (played_pick _ _ _ _ _ _ Hpl) as (_ & _ & Hl & _ & Hi0 & Hbl & _ & Ha & _). rewrite <- Eb in Hbl.
    pose proof (arrays_bound ts _ l (pl_arrays _ _ _ _ Hpl) ltac:(set_solver)) as Hib.
    step (gets_trace h rs t e). step (array_get_run _ _ _ (mk_driver h rs t e) Hi0 Hbl).
    destruct (realloc_played h ts L1 l L2 sizes n Hpl Hn) as [(p & m & h1 & E1 & Hp & _ & _ & Hpl1 & Hs1)|[E1 Hr]].
    2: { right. split; [|done]. apply bind_err. unfold on_heap. cbn [memory]. by rewrite E1. }
    left. step (on_heap_run _ h rs t e _ _ E1).
    rewrite (proj2 (Z.eqb_neq _ _) Hp). destruct (set_block_run h1 rs t ts e _ p n _ Hsh Ha Hib) as (t' & R & Hsh').
    eexists h1, t', _, _. split; [exact R|]. split; [exact Hsh'|]. split; [exact Hpl1|]. by split.
Qed.

Lemma speed_loop_ok todo : forall done h rs t ts e L sizes, ops ts = done ++ todo -> serving done h (owners L) ->
  played h ts L sizes -> shadow t ts -> requests_ok (num_ids ts) sizes todo ->
  (exists h' t' ts' L' sizes', speed_loop (length todo) (Z.of_nat (length done)) (mk_driver h rs t e) = Ok (tt, mk_driver h' rs t' e) /\
    shadow t' ts' /\ played h' ts' L' sizes' /\ same_requests ts ts') \/
  (speed_loop (length todo) (Z.of_nat (length done)) (mk_driver h rs t e) = Err (Exit 0) /\ runs_out (ops ts)).
Proof.
  induction todo as [|op todo IH]; intros done h rs t ts e L sizes Hops Hsv Hpl Hsh Hreq; cbn [length speed_loop].
  { left. by exists h, t, ts, L, sizes. }
  cbn [requests_ok] in Hreq. destruct Hreq as [Hop Hreq]. step (gets_trace h rs t e).
  assert (Hopt : ops t = done ++ op :: todo) by (destruct Hsh as (_ & -> & _); done).
  step (next_op t done op todo (mk_driver h rs t e) Hopt).
  destruct (speed_op_ok h rs t ts e L sizes op Hpl Hsh Hop) as [(h1 & t1 & ts1 & L1 & E1 & Hsh1 & Hpl1 & (Ho1 & Hi1 & Hn1) & Hs1)|[E1 Hr]].
  2: { right. split; [by apply bind_err|]. rewrite Hops. by exists done, op, todo, h, (owners L). }
  step E1. replace (Z.of_nat (length done) + 1) with (Z.of_nat (length (done ++ [op]))) by (by rewrite length_app, Nat2Z.inj_add).
  destruct (IH (done ++ [op]) h1 rs t1 ts1 e L1 (sizes_after sizes op)) as [(h2 & t2 & ts2 & L2 & s2 & E2 & Hsh2 & Hpl2 & Ho2 & Hi2 & Hn2)|[E2 Hr]].
  - rewrite Ho1, Hops, <- (assoc_L (++)). done.
  - by apply Hs1.
  - done.
  - done.
  - by rewrite Hi1.
  - left. exists h2, t2, ts2, L2, s2. split; [done|]. split; [done|]. split; [done|]. split; [congruence|split; congruence].
  - right. by rewrite <- Ho1.
Qed.

(** What a run leaves of a trace that is played again. *)
Lemma played_again t t' h L sizes : trace_ok t -> played h t' L sizes -> same_requests t t' -> trace_ok t'.
Proof.
  intros (H1 & H2 & _ & _ & H3) Hpl (Ho & Hi & Hn). destruct (pl_arrays _ _ _ _ Hpl) as (Hb & Hs & _).
  split_and!; [by rewrite Hn, Ho|by rewrite Hi|done|done|by rewrite Hi, Ho].
Qed.

Lemma eval_mm_speed_ok h rs t e : area_ok h -> trace_ok t ->
  (exists h' t', eval_mm_speed start (mk_driver h rs t e) = Ok (tt, mk_driver h' rs t' e) /\ area_ok h' /\ trace_ok t' /\ ops t' = ops t) \/
  (eval_mm_speed start (mk_driver h rs t e) = Err (Exit 0) /\ runs_out (ops t)).
Proof.
  intros Harea Ht. destruct (reset_init h rs t e Harea Ht) as (h1 & E1 & Hpl & Hsv & E0).
  pose proof Ht as (Hn & Hids & Hlb & Hls & Hreq). unfold eval_mm_speed. step E0.
  step (on_heap_run _ (mk_heap (words h) start) rs t e _ _ E1). change (0 <? 0) with false. cbn iota.
  step (gets_trace h1 rs t e). rewrite Hn, Nat2Z.id.
  destruct (speed_loop_ok (ops t) [] h1 rs t t e [] ∅) as [(h2 & t2 & ts & L2 & s2 & E2 & (Sb & So & Si & Sn & Sl) & Hpl2 & Ho & Hi & Hnn)|[E2 Hr]]; try done;
    [left|by right].
  exists h2, t2. split; [done|]. split; [by eapply played_area|]. destruct (pl_arrays _ _ _ _ Hpl2) as (Hb2 & Hs2 & _).
  split; [|by rewrite So, Ho]. split_and!.
  - by rewrite Sn, So, Hnn, Ho.
  - by rewrite Si, Hi.
  - by rewrite Sb, Si.
  - by rewrite Sl, Si.
  - by rewrite Si, So, Hi, Ho.
Qed.

Lemma run_times_ok n : forall h rs t e, area_ok h -> trace_ok t ->
  (run_times n (eval_mm_speed start) (mk_driver h rs t e) = Err (Exit 0) /\ runs_out (ops t)) \/
  (exists h' t', run_times n (eval_mm_speed start) (mk_driver h rs t e) = Ok (tt, mk_driver h' rs t' e) /\ area_ok h').
Proof.
  induction n as [|n IH]; intros h rs t e Harea Ht; [right; by exists h, t|]. cbn [run_times].
  destruct (eval_mm_speed_ok h rs t e Harea Ht) as [(h1 & t1 & E1 & Ha1 & Ht1 & Ho1)|[E1 Hr]].
  - step E1. rewrite <- Ho1. by apply IH.
  - left. split; [by apply bind_err|done].
Qed.

(** Judged by its resized ids, then measured and timed, unless the memory runs out. *)
Lemma driver_ok h rs t e : area_ok h -> trace_ok t ->
  (eval_mm_valid start (mk_driver h rs t e) = Err (Exit 0) /\ runs_out (ops t)) \/
  (~ Forall plain_id (ops t) /\ exists d, eval_mm_valid start (mk_driver h rs t e) = Ok (0, d) /\ errors d = s32 (e + 1) /\ area_ok (memory d)) \/
  (Forall plain_id (ops t) /\ exists d, eval_mm_valid start (mk_driver h rs t e) = Ok (1, d) /\ errors d = e /\
    ((eval_mm_util start d = Err (Exit 0) /\ runs_out (ops t)) \/
     exists d', eval_mm_util start d = Ok ((peak ∅ (ops t), mem_brk (memory d') - start), d') /\ errors d' = e /\
       forall n, (run_times n (eval_mm_speed start) d' = Err (Exit 0) /\ runs_out (ops t)) \/
         exists d'', run_times n (eval_mm_speed start) d' = Ok (tt, d'') /\ errors d'' = e /\ area_ok (memory d''))).
Proof.
  intros Harea Ht.
  destruct (eval_mm_valid_ok h rs t e Harea Ht) as [(Hpi & h1 & t1 & L1 & s1 & E1 & Hpl & Hsr)|[[E1 Hr]|(Hpi & h1 & rs1 & t1 & E1 & Ha1 & _)]].
  - right; right. split; [done|]. pose proof (played_again t t1 h1 L1 s1 Ht Hpl Hsr) as Ht1. destruct Hsr as (Ho & _).
    exists (mk_driver h1 (range_of <$> L1) t1 e). split; [done|]. split; [done|]. rewrite <- Ho.
    destruct (eval_mm_util_ok h1 (range_of <$> L1) t1 e) as [(h2 & t2 & L2 & s2 & E2 & Hpl2 & Hsr2)|?]; [by eapply played_area|done| |by left].
    right. pose proof (played_again t1 t2 h2 L2 s2 Ht1 Hpl2 Hsr2) as Ht2.
    exists (mk_driver h2 (range_of <$> L1) t2 e). split; [done|]. split; [done|]. intros n. rewrite <- (proj1 Hsr2).
    destruct (run_times_ok n h2 (range_of <$> L1) t2 e) as [?|(h3 & t3 & E3 & Ha3)]; [by eapply played_area|done|by left|right].
    by exists (mk_driver h3 (range_of <$> L1) t3 e).
  - by left.
  - right; left. split; [done|]. by exists (mk_driver h1 rs1 t1 (s32 (e + 1))).
Qed.

(** *** The rounds of [main] *)

(** A file of requests [os] that the driver can read and play, whatever its fresh arrays
    hold. *)
Definition good_file (file : option (list Z)) (os : list traceop_t) : Prop :=
  forall junk_block junk_size, exists t, read_trace junk_block junk_size file = Ok t /\ trace_ok t /\
    Forall2 same_op (ops t) os /\ num_ops t = Z.of_nat (length os) /\ peak ∅ (ops t) = peak ∅ os.

Lemma same_plain os os' : Forall2 same_op os os' -> Forall plain_id os <-> Forall plain_id os'.
Proof.
  induction 1 as [|op op' os os' Hop _ IH]; [done|]. rewrite !Forall_cons, IH.
  assert (plain_id op <-> plain_id op') as ->; [|done].
  destruct Hop as [->|(E1 & E2 & _)]; [done|]. unfold plain_id. by rewrite E1, E2.
Qed.

Lemma eval_mm_ok junk_block junk_size times i file os h rs e : area_ok h -> good_file file os ->
  (eval_mm start junk_block junk_size times i file h rs e = Err (Exit 0) /\ runs_out os) \/
  (exists st h' rs', eval_mm start junk_block junk_size times i file h rs e = Ok (st, (h', rs', errors_after os e)) /\ area_ok h' /\ judged os st).
Proof.
  intros Harea Hg. destruct (Hg (junk_block i) (junk_size i)) as (t & Et & Ht & Hso & Hn & Hpk).
  pose proof (same_plain _ _ Hso) as Hsp. pose proof (runs_out_same start al_cost _ _ Hso) as Hro.
  unfold eval_mm. rewrite Et. cbn [rbind]. unfold errors_after, judged.
  destruct (driver_ok h rs t e Harea Ht) as [[Ev Hr]|[(Hpi & d & Ev & <- & Ha)|(Hpi & d & Ev & _ & [[Eu Hr]|(d' & Eu & _ & Es)])]].
  - left. rewrite (bind_err _ _ _ _ Ev). auto.
  - right. rewrite Hsp in Hpi. step Ev. change (0 =? 0) with true. cbn iota. cbn [rbind ret].
    exists (mk_stats (num_ops t) 0 (0, 1)), (memory d), (ranges d). rewrite !decide_False by done. by rewrite <- Hn.
  - left. rewrite (bind_ok _ _ _ _ _ Ev). change (1 =? 0) with false. cbn iota. rewrite (bind_err _ _ _ _ Eu). auto.
  - rewrite Hsp in Hpi. step Ev. change (1 =? 0) with false. cbn iota. step Eu.
    destruct (Es (times i)) as [[Er Hr]|(d'' & Er & <- & Ha)].
    + left. rewrite (bind_err _ _ _ _ Er). auto.
    + right. step Er. cbn [rbind ret]. exists (mk_stats (num_ops t) 1 (peak ∅ (ops t), mem_brk (memory d') - start)), (memory d''), (ranges d'').
      rewrite !decide_True by done. split; [done|]. split; [done|]. by rewrite Hn, Hpk.
Qed.

Lemma eval_loop_ok junk_block junk_size times files oss : Forall2 good_file files oss -> forall i h rs e, area_ok h ->
  (eval_loop start junk_block junk_size times i files h rs e = Err (Exit 0) /\ Exists runs_out oss) \/
  (exists sts, eval_loop start junk_block junk_size times i files h rs e = Ok (sts, foldl (fun e os => errors_after os e) e oss) /\ Forall2 judged oss sts).
Proof.
  induction 1 as [|file os files oss Hg _ IH]; intros i h rs e Harea; cbn [eval_loop]; [right; by exists []|].
  destruct (eval_mm_ok junk_block junk_size times i file os h rs e Harea Hg) as [[E1 Hr]|(st & h1 & rs1 & E1 & Ha1 & Hst)]; rewrite E1; cbn [rbind].
  { left. split; [done|by left]. }
  destruct (IH (S i) h1 rs1 (errors_after os e) Ha1) as [[E2 Hr]|(sts & E2 & Hsts)]; rewrite E2; cbn [rbind].
  - left. split; [done|by right].
  - right. exists (st :: sts). by split; [|constructor].
Qed.
End laws.

Section libc_main.
Context {L : Type} (libc_malloc : Z -> M L Z) (libc_realloc : Z -> Z -> M L Z) (libc_free : Z -> M L unit)
  (Hlibc : libc_answers libc_malloc libc_realloc libc_free).

Lemma libc_run t l : trace_ok t ->
  exists bs l', libc_loop libc_malloc libc_realloc libc_free (Z.to_nat (num_ops t)) 0 t (blocks t) l = Ok (bs, l') /\ trace_ok (with_blocks t bs).
Proof.
  intros (Hn & Hids & Hlb & Hls & Hreq). rewrite Hn, Nat2Z.id.
  destruct (libc_loop_ok _ _ _ Hlibc t (ops t) [] (blocks t) ∅ l) as (bs & l' & E & Hl); [done| | |].
  - intros i [? Hi]. by rewrite lookup_empty in Hi.
  - by rewrite Hlb, Z2Nat.id.
  - exists bs, l'. split; [exact E|]. unfold trace_ok, with_blocks. cbn. by rewrite Hl.
Qed.

Lemma libc_speeds_ok n : forall t l, trace_ok t ->
  exists t' l', libc_speeds libc_malloc libc_realloc libc_free n t l = Ok (t', l') /\ num_ops t' = num_ops t.
Proof.
  induction n as [|n IH]; intros t l Ht; [by exists t, l|]. cbn [libc_speeds]. unfold eval_libc_speed.
  destruct (libc_run t l Ht) as (bs & l1 & E1 & Ht1). destruct (IH (with_blocks t bs) l1 Ht1) as (t2 & l2 & E2 & Hn2).
  exists t2, l2. split; [|done]. rewrite <- E2. apply bind_ok. by step E1.
Qed.

(** Every trace is valid, and its requests are counted. *)
Definition libc_passed (os : list traceop_t) (st : stats_t) : Prop := st = mk_stats (Z.of_nat (length os)) 1 (0, 1).

Lemma libc_traces_ok junk_block junk_size times files oss :
  Forall2 (fun file os => forall jb js, exists t, read_trace jb js file = Ok t /\ trace_ok t /\ num_ops t = Z.of_nat (length os)) files oss ->
  forall i l, exists sts l', libc_traces libc_malloc libc_realloc libc_free junk_block junk_size times i files l = Ok (sts, l') /\
    Forall2 libc_passed oss sts.
Proof.
  induction 1 as [|file os files oss Hg _ IH]; intros i l; cbn [libc_traces]; [by exists [], l|].
  destruct (Hg (junk_block i) (junk_size i)) as (t & Et & Ht & Hn). destruct (libc_run t l Ht) as (bs & l1 & E1 & Ht1).
  destruct (libc_speeds_ok (times i) (with_blocks t bs) l1 Ht1) as (t2 & l2 & E2 & Hn2).
  destruct (IH (S i) l2) as (sts & l3 & E3 & Hsts).
  exists (mk_stats (num_ops t2) 1 (0, 1) :: sts), l3. split.
  - assert (Ei : eval_libc libc_malloc libc_realloc libc_free junk_block junk_size times i file l = Ok (mk_stats (num_ops t2) 1 (0, 1), l2)).
    { unfold eval_libc. rewrite Et. cbn [rbind]. unfold eval_libc_valid.
      erewrite bind_ok by (step E1; reflexivity). cbn beta iota. change (1 =? 0) with false. cbn iota. by step E2. }
    step Ei. by step E3.
  - constructor; [|done]. unfold libc_passed. by rewrite Hn2, <- Hn.
Qed.

Lemma libc_sums oss sts : Forall2 libc_passed oss sts ->
  foldr (fun s n => st_ops s + n) 0 sts = Z.of_nat (length (concat oss)).
Proof. induction 1 as [|os st oss sts -> _ IH]; [done|]. cbn [foldr concat]. rewrite length_app, IH. cbn [st_ops]. lia. Qed.
End libc_main.

(** ** The verdict on [mm.c] *)

(** The bytes the requests of a trace may ask of the simulated memory if nothing that is
    freed could be used again. *)
Definition mm_cost (pagesize n : Z) : Z := page_bytes pagesize (request_size n).
Definition mm_demand (pagesize : Z) (os : list traceop_t) : Z :=
  foldr (fun op n => (match type op with FREE => 0 | _ => mm_cost pagesize (size op) end) + n) 0 os.

(** [mm.c], serving the requests, comes to one on which it ends the program, since the pages
    it would need for it are beyond the simulated memory. *)
Definition mm_runs_out (start pagesize : Z) (os : list traceop_t) : Prop :=
  runs_out start (A := mm_allocator start pagesize) (mm_cost pagesize) os.

Section demand.
Context (start pagesize : Z) (Hplat : platform start pagesize).

Lemma mm_cost_nonneg n : 0 <= mm_cost pagesize n.
Proof. destruct Hplat. apply page_bytes_nonneg; [lia|]. apply request_size_nonneg. Qed.
Lemma mm_demand_nonneg os : 0 <= mm_demand pagesize os.
Proof.
  induction os as [|op os IH]; [done|]. cbn. fold (mm_demand pagesize os). pose proof (mm_cost_nonneg (size op)). destruct (type op); lia.
Qed.
Lemma mm_demand_app os os' : mm_demand pagesize (os ++ os') = mm_demand pagesize os + mm_demand pagesize os'.
Proof. induction os as [|op os IH]; [done|]. unfold mm_demand in *. cbn [app foldr]. rewrite IH. lia. Qed.

Lemma mm_demand_one op : mm_demand pagesize [op] = match type op with FREE => 0 | _ => mm_cost pagesize (size op) end.
Proof. cbn. lia. Qed.

Lemma serving_brk os h m : serving start (A := mm_allocator start pagesize) os h m ->
  0 <= mem_brk h <= start + 48 + mm_demand pagesize os.
Proof.
  destruct Hplat as [Hlo Hal Hpg Hpg8 Hsp].
  induction 1 as [w h Ha E|os h m i n p h' _ IH Hm E|os h m i n p s h' _ IH Hm E|os h m i n p s p' h' _ IH Hm E|os h m i p n h' _ IH Hm Ho Hb];
    rewrite ?mm_demand_app, ?mm_demand_one; cbn [type size].
  - destruct (mm_init_ok start Hlo Hal Hsp w Ha) as (h' & E' & Hok). unfold mem_init in E'. cbn [al_init mm_allocator] in E.
    rewrite E' in E. injection E as <-. pose proof (ok_brk _ _ _ _ Hok) as Hbrk. cbn in Hbrk |- *. lia.
  - pose proof (mm_malloc_grows start pagesize ltac:(lia) mm_fuel n h p h' ltac:(lia) E). unfold mm_cost. lia.
  - pose proof (keeps_free start mm_fuel p h tt h' E) as Hb. rewrite Hb. lia.
  - pose proof (mm_realloc_grows start pagesize ltac:(lia) mm_fuel p n h p' h' ltac:(lia) E). unfold mm_cost. lia.
  - lia.
Qed.

Lemma mm_room os : 48 + mm_demand pagesize os <= MAX_HEAP -> ~ mm_runs_out start pagesize os.
Proof.
  intros Hroom (os1 & op & os2 & h & m & -> & Hs%serving_brk & Hr & Hfull).
  rewrite mm_demand_app in Hroom. pose proof (mm_demand_nonneg os2).
  change (mm_demand pagesize (op :: os2)) with ((match type op with FREE => 0 | _ => mm_cost pagesize (size op) end) + mm_demand pagesize os2) in Hroom.
  destruct (type op); [lia|done|lia].
Qed.
End demand.

(** C7: whatever proper requests a trace has, and whatever they ask of the memory, the
    verdict of the driver on [mm.c] is as follows.  [eval_mm_valid] returns 1 without an
    error when no id is resized that has a low byte of 128 or more; of such an id the
    driver compares the byte with a negative [char], so it returns 0 and counts one error
    although [mm.c] kept every byte.  After a 1, [eval_mm_util] returns the peak of the
    sizes in use over the size of the heap, and the timed runs go through, however many
    there are, with no error counted.  The one way for each of the three to fail is that
    [mm.c] itself ends the program: having served the requests of the trace up to one,
    it would have to move the break beyond the simulated memory to serve that one.  This
    cannot happen when the pages of all the requests together fit; a trace that uses again
    what it frees may ask for much more. *)
Theorem driver_accepts start pagesize h rs t e (Hplat : platform start pagesize)
    (Harea : forall x, start <= x < start + MAX_HEAP -> x mod 8 = 0 -> is_Some (words h !! x)) (Ht : trace_ok t) :
  let valid := eval_mm_valid start (A := mm_allocator start pagesize) in
  let util := eval_mm_util start (A := mm_allocator start pagesize) in
  let speed := eval_mm_speed start (A := mm_allocator start pagesize) in
  let out := mm_runs_out start pagesize (ops t) in
  ((valid (mk_driver h rs t e) = Err (Exit 0) /\ out) \/
   (~ Forall plain_id (ops t) /\ exists d, valid (mk_driver h rs t e) = Ok (0, d) /\ errors d = s32 (e + 1)) \/
   (Forall plain_id (ops t) /\ exists d, valid (mk_driver h rs t e) = Ok (1, d) /\ errors d = e /\
     ((util d = Err (Exit 0) /\ out) \/
      exists d', util d = Ok ((peak ∅ (ops t), mem_brk (memory d') - start), d') /\ errors d' = e /\
        forall n, (run_times n speed d' = Err (Exit 0) /\ out) \/
          exists d'', run_times n speed d' = Ok (tt, d'') /\ errors d'' = e))) /\
  (48 + mm_demand pagesize (ops t) <= MAX_HEAP -> ~ out).
Proof.
  intros valid util speed out. split; [|by apply mm_room].
  destruct (driver_ok start (A := mm_allocator start pagesize) (LA := mm_laws start pagesize Hplat) h rs t e Harea Ht)
    as [?|[(Hp & d & E & He & _)|(Hp & d & E & He & Hu)]]; [by left|right; left|right; right].
  - split; [done|]. by exists d.
  - split; [done|]. exists d. split; [done|]. split; [done|]. destruct Hu as [?|(d' & E' & He' & Ht')]; [by left|right].
    exists d'. split; [done|]. split; [done|]. intros n. destruct (Ht' n) as [?|(d'' & E'' & He'' & _)]; [by left|right]. by exists d''.
Qed.
