(* ===== verification/MdriverTrace.v ===== *)
(** Trace files: [read_trace] of [Mdriver] reads back what is written out line by line,
    so the verdict of the whole driver on files of proper traces is known; and what it gets
    wrong. *)
From Stdlib Require Import ZArith Lia.
From S2P Require Import Prelude Malloc Allocator Mdriver.
Open Scope Z_scope.

(** ** Writing *)

Definition show_number (n : Z) : list Z := (fun d => d + 48) <$> digits 64 10 n.

Definition show_op (op : traceop_t) : list Z :=
  match type op with
  | ALLOC => 97 :: 32 :: show_number (index op) ++ 32 :: show_number (size op) ++ [10]
  | REALLOC => 114 :: 32 :: show_number (index op) ++ 32 :: show_number (size op) ++ [10]
  | FREE => 102 :: 32 :: show_number (index op) ++ [10]
  end.

Definition show_trace (sugg ids weight : Z) (os : list traceop_t) : list Z :=
  show_number sugg ++ 10 :: show_number ids ++ 10 :: show_number (Z.of_nat (length os)) ++ 10 ::
  show_number weight ++ 10 :: concat (show_op <$> os).

(** ** Reading numbers *)

Lemma span_all p xs rest : Forall (fun c => p c = true) xs -> (forall c cs, rest = c :: cs -> p c = false) ->
  span p (xs ++ rest) = (xs, rest).
Proof.
  intros Hx Hr. induction Hx as [|c xs Hc _ IH]; cbn.
  - destruct rest as [|c rest]; cbn; [done|]. by rewrite (Hr c rest eq_refl).
  - by rewrite Hc, IH.
Qed.

Lemma show_number_chars n : 0 <= n < 2 ^ 64 ->
  exists c cs, show_number n = c :: cs /\ Forall (fun c => isdigit c = true) (c :: cs) /\
    digits_value 10 ((fun c => c - 48) <$> show_number n) = n.
Proof.
  intros Hn. destruct (digits_bound 64 10 n) as [Hd Hv]; [lia|lia|cbn; bound_lia|].
  assert (Hc : Forall (fun c => isdigit c = true) (show_number n)).
  { apply Forall_fmap. eapply Forall_impl; [exact Hd|]. intros d H. cbn in *. unfold isdigit.
    rewrite (proj2 (Z.leb_le 48 _)), (proj2 (Z.leb_le _ 57)) by lia. done. }
  assert (Hval : (fun c => c - 48) <$> show_number n = digits 64 10 n).
  { unfold show_number. rewrite <- list_fmap_compose. rewrite <- (list_fmap_id (digits 64 10 n)) at 2.
    apply list_fmap_ext. intros i d _. cbn. lia. }
  rewrite Hval. destruct (show_number n) as [|c cs] eqn:E; [|by exists c, cs].
  apply (f_equal length) in E. unfold show_number in E. rewrite length_fmap in E.
  destruct (digits_not_nil 10 n). by apply nil_length_inv.
Qed.

Lemma scan_sign_digit c s : 48 <= c -> scan_sign (c :: s) = (false, c :: s).
Proof.
  intros Hc. destruct c as [|p|p]; [lia| |lia].
  do 6 (destruct p as [p|p|]; try (done || (exfalso; lia))).
Qed.

(** Blanks before, something else after. *)
Definition ended (rest : list Z) : Prop := forall c cs, rest = c :: cs -> isdigit c = false.

Lemma scan_number_show sp n rest : Forall (fun c => isspace c = true) sp -> 0 <= n < 2 ^ 64 -> ended rest ->
  scan_number (sp ++ show_number n ++ rest) = Some (n, rest).
Proof.
  intros Hsp Hn Hr. destruct (show_number_chars n Hn) as (c & cs & E & Hc & Hv). unfold scan_number.
  assert (Hc0 : 48 <= c <= 57).
  { apply Forall_cons in Hc as [H _]. unfold isdigit in H. apply andb_prop in H as [?%Z.leb_le ?%Z.leb_le]. lia. }
  assert (Hskip : skip_space (sp ++ show_number n ++ rest) = show_number n ++ rest).
  { induction Hsp as [|x sp Hx _ IH]; cbn [app skip_space]; [|by rewrite Hx].
    rewrite E. cbn. unfold isspace. rewrite (proj2 (Z.eqb_neq c 32)), (proj2 (Z.leb_gt c 13)) by lia.
    by rewrite andb_false_r. }
  rewrite Hskip. assert (Hsp' : span isdigit (show_number n ++ rest) = (show_number n, rest)).
  { apply span_all; [by rewrite E|done]. }
  rewrite E in *. cbn [app] in *. rewrite scan_sign_digit by lia. by rewrite Hsp', Hv.
Qed.

Lemma scan_u_show sp n rest : Forall (fun c => isspace c = true) sp -> 0 <= n < 2 ^ 32 -> ended rest ->
  scan_u (sp ++ show_number n ++ rest) = Some (n, rest).
Proof.
  intros Hsp Hn Hr. unfold scan_u. rewrite scan_number_show by (done || bound_lia). cbn [mbind option_bind].
  rewrite Z.min_l, Z.max_r by bound_lia. by rewrite wrapu_small.
Qed.

Lemma scan_d_show sp n rest : Forall (fun c => isspace c = true) sp -> 0 <= n < 2 ^ 31 -> ended rest ->
  scan_d (sp ++ show_number n ++ rest) = Some (n, rest).
Proof.
  intros Hsp Hn Hr. unfold scan_d. rewrite scan_number_show by (done || bound_lia). cbn [mbind option_bind].
  rewrite Z.min_l, Z.max_r by bound_lia. by rewrite wraps_small by bound_lia.
Qed.

Lemma ended_blank c rest : isspace c = true -> ended (c :: rest).
Proof.
  intros Hc c' cs [= <- <-]. unfold isspace in Hc. unfold isdigit.
  destruct (Z.leb_spec 48 c), (Z.leb_spec c 57); cbn; try done.
  destruct (Z.eqb_spec c 32), (Z.leb_spec 9 c), (Z.leb_spec c 13); cbn in Hc; try done; lia.
Qed.

Lemma scan_word_letter sp c rest : Forall (fun c => isspace c = true) sp -> isspace c = false ->
  scan_word (sp ++ c :: 32 :: rest) = Some ([c], 32 :: rest).
Proof.
  intros Hsp Hc. unfold scan_word.
  assert (skip_space (sp ++ c :: 32 :: rest) = c :: 32 :: rest) as ->.
  { induction Hsp as [|x sp Hx _ IH]; cbn [app skip_space]; [by rewrite Hc|by rewrite Hx]. }
  cbn. by rewrite Hc.
Qed.

Lemma scan_word_end sp : Forall (fun c => isspace c = true) sp -> scan_word sp = None.
Proof.
  intros Hsp. unfold scan_word. assert (skip_space sp = []) as ->; [|done].
  induction Hsp as [|x sp Hx _ IH]; cbn [skip_space]; [done|by rewrite Hx].
Qed.

(** ** Reading requests *)

Section read.
Context (junk_block junk_size : nat -> Z).

(** The size of a request that frees is not in the file. *)
Definition with_junk (k : nat) (op : traceop_t) : traceop_t :=
  match type op with FREE => mk_op FREE (index op) (junk_size k) | _ => op end.

Definition op_fits (op : traceop_t) : Prop := 0 <= index op < 2 ^ 32 /\ 0 <= size op < 2 ^ 31.

(** The largest id that is allocated or resized. *)
Definition max_id (mx : Z) (op : traceop_t) : Z :=
  match type op with FREE => mx | _ => Z.max mx (index op) end.

Lemma read_ops_show n os : forall fuel sp mx acc, Forall (fun c => isspace c = true) sp ->
  Z.of_nat (length acc + length os) <= n -> (length os < fuel)%nat -> Forall op_fits os ->
  read_ops junk_size fuel n (sp ++ concat (show_op <$> os)) mx acc =
    Ok (foldl max_id mx os, acc ++ imap (fun k => with_junk (length acc + k)) os).
Proof.
  induction os as [|op os IH]; intros fuel sp mx acc Hsp Hn Hfuel Hfit; (destruct fuel as [|fuel]; [cbn in Hfuel; lia|]).
  { cbn [read_ops fmap list_fmap concat foldl imap]. rewrite !app_nil_r. by rewrite scan_word_end. }
  cbn [length] in Hfuel. apply Forall_cons in Hfit as [[Hi Hz] Hfit]. cbn [length] in Hn.
  assert (Hadd : forall op', add_op n acc op' = Ok (acc ++ [op'])).
  { intros op'. unfold add_op. by rewrite (proj2 (Z.ltb_lt _ _)) by lia. }
  assert (Hnext : forall mx' op', op' = with_junk (length acc) op -> mx' = max_id mx op ->
    read_ops junk_size fuel n ([10] ++ concat (show_op <$> os)) mx' (acc ++ [op']) =
      Ok (foldl max_id mx (op :: os), acc ++ imap (fun k => with_junk (length acc + k)) (op :: os))).
  { intros mx' op' -> ->. rewrite IH; [|by repeat constructor|rewrite length_app; cbn; lia|lia|done].
    assert (E : imap (fun k => with_junk (length (acc ++ [with_junk (length acc) op]) + k)) os =
      imap ((fun k => with_junk (length acc + k)) ∘ S) os).
    { apply imap_ext. intros k x _. cbn. f_equal. rewrite length_app. cbn. lia. }
    rewrite E. cbn [foldl imap]. rewrite Nat.add_0_r, <- (assoc_L (++)). done. }
  assert (Hmax : forall i, (if mx <? i then i else mx) = Z.max mx i).
  { intros i. destruct (Z.ltb_spec mx i); lia. }
  cbn [fmap list_fmap concat read_ops]. destruct op as [ty i z]. unfold show_op. cbn [type index size] in *.
  assert (H32 : forall xs, 32 :: xs = [32] ++ xs) by done.
  assert (Hblank : Forall (fun c => isspace c = true) [32]) by by repeat constructor.
  destruct ty; rewrite <- ?app_comm_cons, <- ?(assoc_L (++)); rewrite scan_word_letter by done; cbn [length hd].
  - rewrite (H32 (_ ++ _)), scan_u_show by (done || by apply ended_blank). cbn [scanned rbind].
    rewrite <- app_comm_cons, <- ?(assoc_L (++)), (H32 (_ ++ _)), scan_u_show by (done || bound_lia || by apply ended_blank).
    cbn [scanned rbind]. rewrite wraps_small, Hadd by bound_lia. cbn [rbind Z.eqb Pos.eqb orb]. by apply Hnext.
  - rewrite (H32 (_ ++ _)). unfold scan_ud. rewrite scan_u_show by (done || by apply ended_blank).
    cbn [mbind option_bind scanned rbind]. rewrite Hadd. cbn [rbind]. by apply Hnext.
  - rewrite (H32 (_ ++ _)), scan_u_show by (done || by apply ended_blank). cbn [scanned rbind].
    rewrite <- app_comm_cons, <- ?(assoc_L (++)), (H32 (_ ++ _)), scan_u_show by (done || bound_lia || by apply ended_blank).
    cbn [scanned rbind]. rewrite wraps_small, Hadd by bound_lia. cbn [rbind Z.eqb Pos.eqb orb]. by apply Hnext.
Qed.
End read.

(** A trace written out line by line is read back: the header, the requests in
    their order with their ids and sizes, and arrays of the length the header says;
    what is not in the file, the size of a request that frees and the arrays'
    contents, is what the fresh memory holds. *)
Lemma read_trace_roundtrip junk_block junk_size sugg ids weight os
    (Hsugg : 0 <= sugg < 2 ^ 31) (Hids : 0 <= ids < 2 ^ 31) (Hweight : 0 <= weight < 2 ^ 31)
    (Hlen : Z.of_nat (length os) < 2 ^ 31) (Hfit : Forall op_fits os) (Hmax : foldl max_id 0 os = ids - 1) :
  read_trace junk_block junk_size (Some (show_trace sugg ids weight os)) =
    Ok (mk_trace sugg ids (Z.of_nat (length os)) weight (imap (with_junk junk_size) os)
         (junk_block <$> seq 0 (Z.to_nat ids)) (junk_size <$> seq 0 (Z.to_nat ids))).
Proof.
  assert (Hlf : Forall (fun c => isspace c = true) [10]) by by repeat constructor.
  assert (H10 : forall xs, 10 :: xs = [10] ++ xs) by done.
  unfold read_trace, show_trace. change (show_number sugg) with ([] ++ show_number sugg).
  rewrite <- (assoc_L (++)), scan_d_show by (done || by apply ended_blank). cbn [scanned rbind].
  rewrite (H10 (show_number ids ++ _)), scan_d_show by (done || by apply ended_blank). cbn [scanned rbind].
  rewrite (H10 (show_number (Z.of_nat _) ++ _)), scan_d_show by (lia || done || by apply ended_blank). cbn [scanned rbind].
  rewrite (H10 (show_number weight ++ _)), scan_d_show by (done || by apply ended_blank). cbn [scanned rbind].
  rewrite (proj2 (Z.ltb_ge _ 0)) by lia. rewrite (proj2 (Z.ltb_ge ids 0)) by lia. cbn [orb].
  rewrite (H10 (concat _)), (read_ops_show junk_size _ os); [|done|cbn; lia| |done].
  - cbn [rbind length app]. rewrite Hmax.
    assert (0 <= ids - 1).
    { rewrite <- Hmax. clear. assert (H : forall mx, 0 <= mx -> 0 <= foldl max_id mx os); [|by apply H].
      induction os as [|op os' IH]; intros mx Hmx; cbn; [done|]. apply IH. unfold max_id. destruct (type op); lia. }
    rewrite (wrapu_small 32 (ids - 1)), Z.eqb_refl by bound_lia. cbn [negb].
    rewrite length_imap, (wrapu_small 32), Z.eqb_refl by bound_lia. done.
  - cbn [app length]. clear. induction os as [|op os IH]; cbn; [lia|]. rewrite length_app.
    assert (0 < length (show_op op))%nat by (unfold show_op; destruct (type op); cbn; lia). cbn in IH. lia.
Qed.


From S2P Require Import MallocList MallocSpec MallocRealloc MdriverSpec.
Open Scope Z_scope.

(** ** The whole program *)

(** What is read back asks for the same as what was written. *)
Section again.
Context (junk : nat -> Z).

Lemma with_junk_cases k op : with_junk junk k op = op \/ type op = FREE /\ with_junk junk k op = mk_op FREE (index op) (junk k).
Proof. unfold with_junk. destruct (type op) eqn:E; auto. Qed.

Lemma with_junk_sizes k op sizes : sizes_after sizes (with_junk junk k op) = sizes_after sizes op.
Proof. destruct (with_junk_cases k op) as [->|[E ->]]; unfold sizes_after; [done|by rewrite E]. Qed.

Lemma with_junk_requests n os : forall f sizes, requests_ok n sizes os ->
  requests_ok n sizes (imap (fun k => with_junk junk (f k)) os).
Proof.
  induction os as [|op os IH]; intros f sizes; [done|]. cbn [imap requests_ok]. intros [Hop Hreq]. rewrite with_junk_sizes.
  split; [|by apply (IH (f ∘ S))]. destruct (with_junk_cases (f 0%nat) op) as [->|[E ->]]; [done|]. unfold request_ok in *. by rewrite E in Hop.
Qed.

Lemma with_junk_peak os : forall f sizes, peak sizes (imap (fun k => with_junk junk (f k)) os) = peak sizes os.
Proof.
  induction os as [|op os IH]; intros f sizes; [done|]. cbn [imap peak]. rewrite with_junk_sizes. f_equal. apply (IH (f ∘ S)).
Qed.

Lemma with_junk_same os : forall f, Forall2 same_op (imap (fun k => with_junk junk (f k)) os) os.
Proof.
  induction os as [|op os IH]; intros f; [constructor|]. cbn [imap]. constructor; [|by apply (IH (f ∘ S))].
  destruct (with_junk_cases (f 0%nat) op) as [->|[E ->]]; [by left|by right].
Qed.
End again.

(** A trace file as its makers write it: its header and its requests. *)
Record trace_file : Type := mk_file { f_sugg : Z; f_ids : Z; f_weight : Z; f_ops : list traceop_t }.
Definition contents (f : trace_file) : option (list Z) := Some (show_trace (f_sugg f) (f_ids f) (f_weight f) (f_ops f)).

(** The numbers are in range, the largest id is the one the header says, and the requests
    are proper. *)
Definition file_ok (f : trace_file) : Prop :=
  (0 <= f_sugg f < 2 ^ 31 /\ 0 <= f_ids f < 2 ^ 31 /\ 0 <= f_weight f < 2 ^ 31 /\
   Z.of_nat (length (f_ops f)) < 2 ^ 31 /\ Forall op_fits (f_ops f) /\ foldl max_id 0 (f_ops f) = f_ids f - 1) /\
  requests_ok (f_ids f) ∅ (f_ops f).

Lemma file_ok_good f : file_ok f -> good_file (contents f) (f_ops f).
Proof.
  intros ((H1 & H2 & H3 & H4 & H5 & H6) & Hreq) jb js. eexists. split; [by apply read_trace_roundtrip|]. cbn [ops num_ops].
  split; [|split; [by apply (with_junk_same js _ id)|split; [done|by apply (with_junk_peak js _ id)]]].
  unfold trace_ok. cbn [ops num_ops num_ids blocks block_sizes]. rewrite length_imap, !length_fmap, !length_seq.
  split_and!; try done; [lia|by apply (with_junk_requests js _ _ id)].
Qed.

(** The errors counted are the traces that are not valid, in 32 bits. *)
Lemma s32_add a b : s32 (s32 a + b) = s32 (a + b).
Proof.
  unfold wraps. f_equal.
  replace ((a + 2 ^ (32 - 1)) mod 2 ^ 32 - 2 ^ (32 - 1) + b + 2 ^ (32 - 1)) with ((a + 2 ^ (32 - 1)) mod 2 ^ 32 + b) by lia.
  rewrite Zplus_mod_idemp_l. f_equal. lia.
Qed.
Lemma errors_counted oss : forall e, s32 e = e ->
  foldl (fun e os => errors_after os e) e oss = s32 (e + (Z.of_nat (length oss) - Z.of_nat (length (plain_traces oss)))).
Proof.
  induction oss as [|os oss IH]; intros e He; cbn [foldl length]; [by rewrite Z.add_0_r|].
  unfold errors_after at 2, plain_traces. rewrite filter_cons. destruct (decide (Forall plain_id os)).
  - rewrite IH by done. unfold plain_traces. cbn [length]. f_equal. lia.
  - rewrite IH by (rewrite <- (Z.add_0_r (s32 (e + 1))) at 1; by rewrite s32_add, Z.add_0_r).
    rewrite s32_add. unfold plain_traces. f_equal. lia.
Qed.

(** C8: on trace files whose requests are proper, the whole program does the following, with
    [mm.c] and a C library that has memory, however often the runs are timed.  A trace is
    valid, with the peak of the sizes in use as the numerator of its utilisation, unless an
    id is resized whose low byte is 128 or more: then the driver blames [mm.c] and counts
    an error.  When all traces are valid the program counts them all correct, and no error.
    When one is not, the final assertion reads a throughput that was never set: with a
    positive value there the program ends with the number of valid traces and of errors, and
    otherwise by the failed assertion.  The only other end is that [mm.c] exits in
    serving one of the traces, since the simulated memory has no room for its next
    request; the pages that this trace asks for, were none of what it frees used
    again, are then more than the memory has. *)
Theorem mdriver_passes start pagesize {L} libc_malloc libc_realloc libc_free
    junk_block junk_size times unset libc_block libc_size libc_times run_libc fs area (l : L)
    (Hplat : platform start pagesize)
    (Harea : forall x, start <= x < start + MAX_HEAP -> x mod 8 = 0 -> is_Some (area !! x))
    (Hlibc : run_libc = true -> libc_answers libc_malloc libc_realloc libc_free)
    (Hfs : Forall file_ok fs) (Hops : concat (f_ops <$> fs) <> []) :
  let run := mdriver_main start (A := mm_allocator start pagesize) junk_block junk_size times unset
      libc_malloc libc_realloc libc_free libc_block libc_size libc_times run_libc (contents <$> fs) area l in
  let valid := Z.of_nat (length (plain_traces (f_ops <$> fs))) in
  (run = Err (Exit 0) /\ exists f, f ∈ fs /\ mm_runs_out start pagesize (f_ops f) /\ MAX_HEAP < 48 + mm_demand pagesize (f_ops f)) \/
  (exists stats, Forall2 judged (f_ops <$> fs) stats /\
     run = if decide (Forall (Forall plain_id) (f_ops <$> fs)) then Ok (stats, Z.of_nat (length fs), 0)
           else if unset then Ok (stats, valid, s32 (Z.of_nat (length fs) - valid)) else Err AssertFailed).
Proof.
  intros run valid.
  assert (Hgood : Forall2 good_file (contents <$> fs) (f_ops <$> fs)).
  { apply Forall2_fmap, Forall_Forall2_diag. eapply Forall_impl; [exact Hfs|]. intros f. apply file_ok_good. }
  assert (Hpos : 0 < Z.of_nat (length (concat (f_ops <$> fs)))) by (destruct (concat (f_ops <$> fs)); [done|cbn; lia]).
  assert (El : exists n, (if run_libc
      then let? (libc_stats, _) := libc_traces libc_malloc libc_realloc libc_free libc_block libc_size libc_times 0 (contents <$> fs) l in
        sumresults unset false libc_stats else Ok 0) = Ok n).
  { destruct run_libc; [|by exists 0].
    destruct (libc_traces_ok _ _ _ (Hlibc eq_refl) libc_block libc_size libc_times (contents <$> fs) (f_ops <$> fs)) with (i := 0%nat) (l := l)
      as (sts & l' & E & Hs).
    - eapply Forall2_impl; [exact Hgood|]. intros file os Hg jb js. destruct (Hg jb js) as (t & ? & ? & _ & ? & _). by exists t.
    - rewrite E. cbn [rbind]. unfold sumresults. rewrite (libc_sums _ _ Hs), (proj2 (Z.ltb_lt _ _) Hpos). by eexists. }
  destruct El as [n En]. unfold run, mdriver_main. rewrite En. cbn [rbind].
  destruct (eval_loop_ok start (A := mm_allocator start pagesize) (LA := mm_laws start pagesize Hplat) junk_block junk_size times
    _ _ Hgood 0%nat (mem_init start area) [] 0 Harea) as [[E Hr]|(sts & E & Hs)]; rewrite E; cbn [rbind].
  - left. split; [done|]. apply Exists_exists in Hr as (os & (f & -> & Hf)%list_elem_of_fmap & Hr). exists f. split; [done|]. split; [exact Hr|].
    destruct (Z.lt_ge_cases MAX_HEAP (48 + mm_demand pagesize (f_ops f))) as [|Hle]; [done|]. by destruct (mm_room start pagesize Hplat _ Hle).
  - right. exists sts. split; [done|]. rewrite (sumresults_judged unset _ _ Hs Hpos). rewrite errors_counted by done. rewrite length_fmap.
    fold valid. rewrite Z.add_0_l. destruct (decide _) as [Hall|Hnot]; [|by destruct unset]. cbn [rbind]. do 2 f_equal.
    assert (E' : valid = Z.of_nat (length fs)); [|by rewrite E', Z.sub_diag].
    unfold valid, plain_traces. rewrite <- (length_fmap f_ops fs). do 2 f_equal.
    clear -Hall. induction Hall as [|os oss Hos _ IH]; [done|]. by rewrite filter_cons, decide_True, IH by done.
Qed.

(** * The trace driver on concrete traces, and two things it gets wrong. *)

(** ** Witnesses *)

Definition two_blocks : list traceop_t :=
  [mk_op ALLOC 0 100; mk_op ALLOC 1 50; mk_op REALLOC 0 200; mk_op FREE 1 0; mk_op FREE 0 0].
Definition sample_trace (os : list traceop_t) (ids : Z) : trace_t :=
  mk_trace 0 ids (Z.of_nat (length os)) 1 os (replicate (Z.to_nat ids) 0) (replicate (Z.to_nat ids) 0).

Lemma two_blocks_ok : trace_ok (sample_trace two_blocks 2).
Proof.
  split; [done|]. split; [done|]. split; [done|]. split; [done|].
  cbn. unfold request_ok. cbn. repeat split; first [done | by eexists | lia].
Qed.

Lemma driver_accepts_witness : exists h,
  (exists d, eval_mm_valid 4096 (A := mm_allocator 4096 4096) (mk_driver h [] (sample_trace two_blocks 2) 0) = Ok (1, d) /\
    exists d', eval_mm_util 4096 (A := mm_allocator 4096 4096) d = Ok ((250, mem_brk (memory d') - 4096), d')) /\
  ~ mm_runs_out 4096 4096 two_blocks.
Proof.
  destruct example_area as [area Harea]. exists (mk_heap area 0).
  destruct (driver_accepts 4096 4096 (mk_heap area 0) [] (sample_trace two_blocks 2) 0 example_platform Harea two_blocks_ok) as [H Hroom].
  assert (Hno : ~ mm_runs_out 4096 4096 two_blocks) by (apply Hroom; vm_compute; discriminate). split; [|exact Hno].
  destruct H as [[_ Hr]|[[Hp _]|(_ & d & E & _ & [[_ Hr]|(d' & E' & _)])]].
  - destruct (Hno Hr).
  - destruct Hp. repeat constructor.
  - destruct (Hno Hr).
  - exists d. split; [exact E|]. exists d'. change (peak ∅ (ops (sample_trace two_blocks 2))) with 250 in E'. exact E'.
Defined.

(** A library that has memory: its state counts the blocks. *)
Definition bump_malloc (n : Z) : M Z Z := fun l => Ok (Z.abs l + 1, Z.abs l + 1).

Definition sample_files : list trace_file := [mk_file 2048 2 1 two_blocks; mk_file 0 1 1 [mk_op ALLOC 0 8]].

Lemma mdriver_passes_witness : exists area stats,
  mdriver_main 4096 (A := mm_allocator 4096 4096) (fun _ _ => 7) (fun _ _ => 8) (fun _ => 3%nat) false
    bump_malloc (fun _ => bump_malloc) (fun _ => ret tt) (fun _ _ => 5) (fun _ _ => 6) (fun _ => 2%nat) true
    (contents <$> sample_files) area 0 = Ok (stats, 2, 0) /\
  Forall2 judged [two_blocks; [mk_op ALLOC 0 8]] stats.
Proof.
  destruct example_area as [area Harea]. exists area.
  destruct (mdriver_passes 4096 4096 bump_malloc (fun _ => bump_malloc) (fun _ => ret tt) (fun _ _ => 7) (fun _ _ => 8) (fun _ => 3%nat) false
    (fun _ _ => 5) (fun _ _ => 6) (fun _ => 2%nat) true sample_files area 0 example_platform Harea)
    as [(_ & f & Hf & _ & Hbig)|(stats & Hs & E)]; [| | |exfalso|].
  - intros _. split; [|split]; intros; repeat eexists; lia.
  - repeat constructor; cbn; try lia; try (vm_compute; discriminate); try done; by eexists.
  - done.
  - apply list_elem_of_In in Hf. destruct Hf as [<-|[<-|[]]]; vm_compute in Hbig; discriminate Hbig.
  - exists stats. split; [|exact Hs]. rewrite decide_True in E by (repeat constructor). exact E.
Defined.

Lemma read_trace_roundtrip_witness :
  read_trace (fun _ => 7) (fun _ => 8) (Some (show_trace 2048 2 1 two_blocks)) =
    Ok (mk_trace 2048 2 5 1
      [mk_op ALLOC 0 100; mk_op ALLOC 1 50; mk_op REALLOC 0 200; mk_op FREE 1 8; mk_op FREE 0 8] [7; 7] [8; 8]).
Proof.
  refine (read_trace_roundtrip (fun _ => 7) (fun _ => 8) 2048 2 1 two_blocks _ _ _ _ _ _); try lia; try reflexivity.
  repeat constructor; cbn; lia.
Defined.

(** ** What the checks miss and what they refuse *)

(** A block that swallows another one whole is not noticed. *)
Example swallowed_range : overlapping [mk_range 4136 4143] 4096 4195 = false.
Proof. reflexivity. Qed.

(** An area for the first pages. *)
Definition small_area : gmap Z Z := list_to_map ((fun i => (4096 + 8 * i, 0)) <$> seqZ 0 2048).

(** A block of id 128 is filled with the byte 128, a negative [char]; once it is
    resized the driver blames the allocator. *)
Definition verdict (os : list traceop_t) (ids : Z) : option Z :=
  match eval_mm_valid 4096 (A := mm_allocator 4096 4096)
    (mk_driver (mk_heap small_area 0) [] (sample_trace os ids) 0) with
  | Ok (v, _) => Some v
  | Err _ => None
  end.

Example resized_127 : verdict [mk_op ALLOC 127 8; mk_op REALLOC 127 16] 129 = Some 1.
Proof. vm_compute. reflexivity. Qed.
Example resized_128 : verdict [mk_op ALLOC 128 8; mk_op REALLOC 128 16] 129 = Some 0.
Proof. vm_compute. reflexivity. Qed.

(** Seven times a block, with pages of 4 MB: the requests ask for more than the memory, but
    each is served from the one page that the first has got. *)
Definition reusing : list traceop_t := concat (replicate 7 [mk_op ALLOC 0 100; mk_op FREE 0 0]).
Definition wide_area : gmap Z Z := list_to_map ((fun i => (4096 + 2 ^ 22 + 8 * i, 0)) <$> seqZ 0 16) ∪ small_area.
Example reused_memory : (MAX_HEAP <? 48 + mm_demand (2 ^ 22) reusing) = true /\
  match eval_mm_valid 4096 (A := mm_allocator 4096 (2 ^ 22)) (mk_driver (mk_heap wide_area 0) [] (sample_trace reusing 1) 0) with
  | Ok (v, d) => v = 1 /\ mem_brk (memory d) = 4096 + 48 + 2 ^ 22
  | Err _ => False
  end.
Proof. vm_compute. by split_and!. Qed.

(** An invalid trace leaves the throughput unset, and the assertion looks at it. *)
Definition with_invalid (unset : bool) : res (Z * Z) :=
  let? (rest, e) := mdriver_main 4096 (A := mm_allocator 4096 4096) (fun _ _ => 0) (fun _ _ => 0) (fun _ => 1%nat) unset
    bump_malloc (fun _ => bump_malloc) (fun _ => ret tt) (fun _ _ => 0) (fun _ _ => 0) (fun _ => 1%nat) false
    [contents (mk_file 0 129 1 [mk_op ALLOC 128 8; mk_op REALLOC 128 16])] small_area 0 in
  Ok (rest.2, e).

Example invalid_then_asserts : with_invalid false = Err AssertFailed /\ with_invalid true = Ok (0, 1).
Proof. vm_compute. by split. Qed.
