(* ===== verification/Console.v ===== *)
(** The console driver of the JOS kernel, [mit6.828/lab/kern/console.c]: serial
    line, parallel port, CGA screen, keyboard and the circular input buffer.  The
    devices behind [inb] and [outb] are a parameter; an [int] that only carries
    a character is an integer. *)
From Stdlib Require Import ZArith Lia.
From S2P Require Import Prelude.
Open Scope Z_scope.

(** ** Constants *)

Definition COM1 : Z := 0x3F8.
Definition COM_LSR_DATA : Z := 0x01.
Definition COM_LSR_TXRDY : Z := 0x20.
Definition CRT_COLS : Z := 80.
Definition CRT_SIZE : Z := 25 * CRT_COLS.
Definition CONSBUFSIZE : Z := 512.
Definition MONO_BASE : Z := 0x3B4.
Definition CGA_BASE : Z := 0x3D4.
Definition KEY_DEL : Z := 0xE9.

(** Bits of [shift]. *)
Definition SHIFT : Z := 1.
Definition CTL : Z := 2.
Definition ALT : Z := 4.
Definition CAPSLOCK : Z := 8.
Definition NUMLOCK : Z := 16.
Definition SCROLLLOCK : Z := 32.
Definition E0ESC : Z := 64.

(** ** Key maps: the first entries in order, then the others by index *)

Definition lookup_map (first : list Z) (others : list (Z * Z)) (i : Z) : Z :=
  match first !! Z.to_nat i with
  | Some c => c
  | None => match list_find (fun p => p.1 = i) others with Some (_, p) => p.2 | None => 0 end
  end.

Definition shiftcode (d : Z) : Z :=
  lookup_map [] [(0x1D, CTL); (0x2A, SHIFT); (0x36, SHIFT); (0x38, ALT); (0x9D, CTL); (0xB8, ALT)] d.
Definition togglecode (d : Z) : Z :=
  lookup_map [] [(0x3A, CAPSLOCK); (0x45, NUMLOCK); (0x46, SCROLLLOCK)] d.

(** [KEY_HOME] ... [KEY_DEL], [KP_Enter], [KP_Div] *)
Definition keypad : list (Z * Z) :=
  [(0xC7, 0xE0); (0x9C, 10); (0xB5, 47); (0xC8, 0xE2); (0xC9, 0xE6); (0xCB, 0xE4); (0xCD, 0xE5);
   (0xCF, 0xE1); (0xD0, 0xE3); (0xD1, 0xE7); (0xD2, 0xE8); (0xD3, 0xE9)].

Definition normalmap (d : Z) : Z :=
  lookup_map
    [0; 0x1B; 49; 50; 51; 52; 53; 54;          55; 56; 57; 48; 45; 61; 8; 9;
     113; 119; 101; 114; 116; 121; 117; 105;   111; 112; 91; 93; 10; 0; 97; 115;
     100; 102; 103; 104; 106; 107; 108; 59;    39; 96; 0; 92; 122; 120; 99; 118;
     98; 110; 109; 44; 46; 47; 0; 42;          0; 32; 0; 0; 0; 0; 0; 0;
     0; 0; 0; 0; 0; 0; 0; 55;                  56; 57; 45; 52; 53; 54; 43; 49;
     50; 51; 48; 46; 0; 0; 0; 0] keypad d.

Definition shiftmap (d : Z) : Z :=
  lookup_map
    [0; 27; 33; 64; 35; 36; 37; 94;            38; 42; 40; 41; 95; 43; 8; 9;
     81; 87; 69; 82; 84; 89; 85; 73;           79; 80; 123; 125; 10; 0; 65; 83;
     68; 70; 71; 72; 74; 75; 76; 58;           34; 126; 0; 124; 90; 88; 67; 86;
     66; 78; 77; 60; 62; 63; 0; 42;            0; 32; 0; 0; 0; 0; 0; 0;
     0; 0; 0; 0; 0; 0; 0; 55;                  56; 57; 45; 52; 53; 54; 43; 49;
     50; 51; 48; 46; 0; 0; 0; 0] keypad d.

(** [C(x)]; the entries are [uint8_t]. *)
Definition C (x : Z) : Z := u8 (x - 64).
Definition ctlmap (d : Z) : Z :=
  lookup_map
    [0; 0; 0; 0; 0; 0; 0; 0;                   0; 0; 0; 0; 0; 0; 0; 0;
     C 81; C 87; C 69; C 82; C 84; C 89; C 85; C 73;
     C 79; C 80; 0; 0; 13; 0; C 65; C 83;
     C 68; C 70; C 71; C 72; C 74; C 75; C 76; 0;
     0; 0; 0; C 92; C 90; C 88; C 67; C 86;
     C 66; C 78; C 77; 0; 0; C 47; 0; 0]
    [(0x97, 0xE0); (0xB5, C 47); (0xC8, 0xE2); (0xC9, 0xE6); (0xCB, 0xE4); (0xCD, 0xE5); (0xCF, 0xE1);
     (0xD0, 0xE3); (0xD1, 0xE7); (0xD2, 0xE8); (0xD3, 0xE9)] d.

Definition charcode (i : Z) : Z -> Z :=
  if i =? 0 then normalmap else if i =? 1 then shiftmap else ctlmap.

(** ** The driver *)

Section console.
(** The devices: what a port read returns and how reads and writes change them. *)
Context {D : Type} (port_in : Z -> D -> Z * D) (port_out : Z -> Z -> D -> D).

Record console : Type := mk_console {
  devices : D;
  serial_exists : bool;
  addr_6845 : Z;
  crt_buf : gmap Z Z;
  crt_pos : Z;
  shift : Z;
  cons_buf : list Z;
  rpos : Z;
  wpos : Z
}.

Definition set_devices (f : D -> D) (s : console) : console :=
  mk_console (f (devices s)) (serial_exists s) (addr_6845 s) (crt_buf s) (crt_pos s) (shift s)
    (cons_buf s) (rpos s) (wpos s).
Definition set_screen (buf : gmap Z Z) (pos : Z) (s : console) : console :=
  mk_console (devices s) (serial_exists s) (addr_6845 s) buf pos (shift s) (cons_buf s) (rpos s) (wpos s).
Definition set_shift (sh : Z) (s : console) : console :=
  mk_console (devices s) (serial_exists s) (addr_6845 s) (crt_buf s) (crt_pos s) sh
    (cons_buf s) (rpos s) (wpos s).
Definition set_input (buf : list Z) (r w : Z) (s : console) : console :=
  mk_console (devices s) (serial_exists s) (addr_6845 s) (crt_buf s) (crt_pos s) (shift s) buf r w.

(** A port holds a byte. *)
Definition inb (port : Z) : M console Z := fun s =>
  let '(v, d) := port_in port (devices s) in Ok (u8 v, set_devices (fun _ => d) s).
Definition outb (port v : Z) : M console unit :=
  modify (set_devices (port_out port (u8 v))).

Definition delay : M console unit :=
  let* _ := inb 0x84 in let* _ := inb 0x84 in let* _ := inb 0x84 in let* _ := inb 0x84 in ret tt.

(** *** Serial port *)

Definition serial_proc_data : M console Z :=
  let* lsr := inb (COM1 + 5) in
  if Z.land lsr COM_LSR_DATA =? 0 then ret (-1)
  else inb (COM1 + 0).

(** [for (i = 0; !(inb(port) & mask) && i < 12800; i++) delay();] *)
Fixpoint wait_ready (n : nat) (port mask : Z) : M console unit :=
  let* v := inb port in
  if negb (Z.land v mask =? 0) then ret tt
  else match n with
       | O => ret tt
       | S n' => do* delay; wait_ready n' port mask
       end.

Definition serial_putc (c : Z) : M console unit :=
  do* wait_ready (Z.to_nat 12800) (COM1 + 5) COM_LSR_TXRDY;
  outb (COM1 + 0) c.

Definition serial_init : M console unit :=
  do* outb (COM1 + 2) 0;
  do* outb (COM1 + 3) 0x80;
  do* outb (COM1 + 0) (115200 / 9600);
  do* outb (COM1 + 1) 0;
  do* outb (COM1 + 3) (Z.land 0x03 (Z.lnot 0x80));
  do* outb (COM1 + 4) 0;
  do* outb (COM1 + 1) 0x01;
  let* lsr := inb (COM1 + 5) in
  do* modify (fun s => mk_console (devices s) (negb (lsr =? 0xFF)) (addr_6845 s) (crt_buf s)
    (crt_pos s) (shift s) (cons_buf s) (rpos s) (wpos s));
  let* _ := inb (COM1 + 2) in
  let* _ := inb (COM1 + 0) in
  ret tt.

(** *** Parallel port *)

Definition lpt_putc (c : Z) : M console unit :=
  do* wait_ready (Z.to_nat 12800) (0x378 + 1) 0x80;
  do* outb (0x378 + 0) c;
  do* outb (0x378 + 2) (Z.lor (Z.lor 0x08 0x04) 0x01);
  outb (0x378 + 2) 0x08.

(** *** Screen: 16-bit cells; a cell that is not there is a [BadAccess] *)

Definition crt_get (i : Z) : M console Z := fun s =>
  match crt_buf s !! i with Some v => Ok (v, s) | None => Err BadAccess end.
Definition crt_put (i v : Z) : M console unit := fun s =>
  match crt_buf s !! i with
  | Some _ => Ok (tt, set_screen (<[i := u16 v]> (crt_buf s)) (crt_pos s) s)
  | None => Err BadAccess
  end.
Definition set_pos (p : Z) : M console unit := modify (fun s => set_screen (crt_buf s) (u16 p) s).

(** [cp] is the color buffer or, when that holds nothing, the monochrome one. *)
Definition cga_init (color mono : gmap Z Z) (color_present : bool) : M console unit :=
  let '(base, cp) := if color_present then (CGA_BASE, color) else (MONO_BASE, mono) in
  do* modify (fun s => mk_console (devices s) (serial_exists s) base cp (crt_pos s) (shift s)
    (cons_buf s) (rpos s) (wpos s));
  do* outb base 14;
  let* hi := inb (base + 1) in
  do* outb base 15;
  let* lo := inb (base + 1) in
  set_pos (Z.lor (Z.shiftl hi 8) lo).

(** [memmove(crt_buf, crt_buf + CRT_COLS, ...)], upwards one cell at a time *)
Fixpoint scroll_cells (n : nat) (i : Z) : M console unit :=
  match n with
  | O => ret tt
  | S n' =>
      let* v := crt_get (i + CRT_COLS) in
      do* crt_put i v;
      scroll_cells n' (i + 1)
  end.
Fixpoint blank_cells (n : nat) (i : Z) : M console unit :=
  match n with
  | O => ret tt
  | S n' => do* crt_put i (Z.lor 0x0700 32); blank_cells n' (i + 1)
  end.

Definition scroll : M console unit :=
  let* pos := gets crt_pos in
  if CRT_SIZE <=? pos then
    do* scroll_cells (Z.to_nat (CRT_SIZE - CRT_COLS)) 0;
    do* blank_cells (Z.to_nat CRT_COLS) (CRT_SIZE - CRT_COLS);
    set_pos (pos - CRT_COLS)
  else ret tt.

Definition move_cursor : M console unit :=
  let* a := gets addr_6845 in
  let* pos := gets crt_pos in
  do* outb a 14;
  do* outb (a + 1) (Z.shiftr pos 8);
  do* outb a 15;
  outb (a + 1) pos.

(** [if (!(c & ~0xFF)) c |= 0x0700] *)
Definition attribute (c : Z) : Z :=
  if Z.land c (Z.lnot 0xFF) =? 0 then Z.lor c 0x0700 else c.

(** The switch; [putc] is [cons_putc]. *)
Definition cga_char (putc : Z -> M console unit) (c : Z) : M console unit :=
  let* pos := gets crt_pos in
  match Z.land c 0xFF with
  | 8 =>
      if 0 <? pos then
        do* set_pos (pos - 1);
        crt_put (pos - 1) (Z.lor (Z.land c (Z.lnot 0xFF)) 32)
      else ret tt
  | 10 => let pos := u16 (pos + CRT_COLS) in set_pos (pos - pos mod CRT_COLS)
  | 13 => set_pos (pos - pos mod CRT_COLS)
  | 9 => do* putc 32; do* putc 32; do* putc 32; do* putc 32; putc 32
  | _ => do* set_pos (pos + 1); crt_put pos c
  end.

Definition cga_putc (putc : Z -> M console unit) (c : Z) : M console unit :=
  do* cga_char putc (attribute c);
  do* scroll;
  move_cursor.

(** A tab writes five spaces, and a space calls [cons_putc] no more. *)
Fixpoint cons_putc_depth (depth : nat) (c : Z) : M console unit :=
  match depth with
  | O => fail OutOfFuel
  | S depth' =>
      do* serial_putc c;
      do* lpt_putc c;
      cga_putc (cons_putc_depth depth') c
  end.
Definition cons_putc (c : Z) : M console unit := cons_putc_depth 2 c.

(** *** Keyboard *)

Definition KBSTATP : Z := 0x64.
Definition KBDATAP : Z := 0x60.

(** The scan code [data] that is no escape and no release: the new [shift] and the character. *)
Definition key_pressed (sh data : Z) : Z * Z :=
  let '(data, sh) := if Z.land sh E0ESC =? 0 then (data, sh)
                     else (Z.lor data 0x80, Z.land sh (Z.lnot E0ESC)) in
  let sh := Z.lor sh (shiftcode data) in
  let sh := Z.lxor sh (togglecode data) in
  let c := charcode (Z.land sh (Z.lor CTL SHIFT)) data in
  let c := if Z.land sh CAPSLOCK =? 0 then c
           else if (97 <=? c) && (c <=? 122) then c + (65 - 97)
           else if (65 <=? c) && (c <=? 90) then c + (97 - 65)
           else c in
  (sh, c).

Definition key_released (sh data : Z) : Z :=
  let data := if Z.land sh E0ESC =? 0 then Z.land data 0x7F else data in
  Z.land sh (Z.lnot (Z.lor (shiftcode data) E0ESC)).

(** [reboot_message] is [cprintf("Rebooting!\n")]. *)
Definition kbd_proc_data (reboot_message : M console unit) : M console Z :=
  let* st := inb KBSTATP in
  if Z.land st 0x01 =? 0 then ret (-1)
  else
    let* data := inb KBDATAP in
    let* sh := gets shift in
    if data =? 0xE0 then do* modify (set_shift (Z.lor sh E0ESC)); ret 0
    else if negb (Z.land data 0x80 =? 0) then do* modify (set_shift (key_released sh data)); ret 0
    else
      let '(sh, c) := key_pressed sh data in
      do* modify (set_shift sh);
      do* (if (Z.land (Z.lnot sh) (Z.lor CTL ALT) =? 0) && (c =? KEY_DEL) then
             do* reboot_message; outb 0x92 0x3
           else ret tt);
      ret c.

(** *** Input buffer *)

(** One character into the circular buffer. *)
Definition cons_store (c : Z) : M console unit := fun s =>
  if (0 <=? wpos s) && (wpos s <? Z.of_nat (length (cons_buf s))) then
    let buf := <[Z.to_nat (wpos s) := u8 c]> (cons_buf s) in
    let w := wpos s + 1 in
    Ok (tt, set_input buf (rpos s) (if w =? CONSBUFSIZE then 0 else w) s)
  else Err BadAccess.

Fixpoint cons_intr (fuel : nat) (proc : M console Z) : M console unit :=
  match fuel with
  | O => fail OutOfFuel
  | S fuel' =>
      let* c := proc in
      if c =? -1 then ret tt
      else if c =? 0 then cons_intr fuel' proc
      else do* cons_store c; cons_intr fuel' proc
  end.

Definition serial_intr (fuel : nat) : M console unit :=
  let* e := gets serial_exists in
  if (e : bool) then cons_intr fuel serial_proc_data else ret tt.

Definition kbd_intr (fuel : nat) (reboot_message : M console unit) : M console unit :=
  cons_intr fuel (kbd_proc_data reboot_message).

(** The character at [rpos], 0 when the buffer is empty. *)
Definition cons_take : M console Z := fun s =>
  if negb (rpos s =? wpos s) then
    match cons_buf s !! Z.to_nat (rpos s) with
    | Some c =>
        let r := rpos s + 1 in
        Ok (c, set_input (cons_buf s) (if r =? CONSBUFSIZE then 0 else r) (wpos s) s)
    | None => Err BadAccess
    end
  else Ok (0, s).

Definition cons_getc (fuel : nat) (reboot_message : M console unit) : M console Z :=
  do* serial_intr fuel;
  do* kbd_intr fuel reboot_message;
  cons_take.

(** [missing_message] is [cprintf("Serial port does not exist!\n")]. *)
Definition cons_init (color mono : gmap Z Z) (color_present : bool)
    (missing_message : M console unit) : M console unit :=
  do* cga_init color mono color_present;
  do* serial_init;
  let* e := gets serial_exists in
  if (e : bool) then ret tt else missing_message.

Definition cputchar (c : Z) : M console unit := cons_putc c.

Fixpoint getchar (tries fuel : nat) (reboot_message : M console unit) : M console Z :=
  match tries with
  | O => fail OutOfFuel
  | S tries' =>
      let* c := cons_getc fuel reboot_message in
      if c =? 0 then getchar tries' fuel reboot_message else ret c
  end.

Definition iscons (fdnum : Z) : Z := 1.
End console.
