(* ===== verification/ConsoleSpec.v ===== *)
(** What the console driver of [Console] does: its input buffer is a queue of at
    most 511 characters that a 512th empties, its screen shows the characters
    written, with the cursor always on it, and its keyboard types what is engraved on
    the keys. *)
From Stdlib Require Import ZArith Lia Ascii String.
From stdpp Require Import strings.
From S2P Require Import Prelude Console.
Open Scope Z_scope.

(** ** The input queue *)

(** What a character does to the pending ones. *)
Definition enqueue (q : list Z) (c : Z) : list Z :=
  if Z.of_nat (length q) <? CONSBUFSIZE - 1 then q ++ [c] else [].

(** The characters in the buffer [buf] from index [r] up to [w], around its end. *)
Definition between (buf : list Z) (r w : Z) : list Z :=
  if r <=? w then take (Z.to_nat (w - r)) (drop (Z.to_nat r) buf)
  else drop (Z.to_nat r) buf ++ take (Z.to_nat w) buf.

Lemma between_length buf r w :
  0 <= r -> 0 <= w -> r <= Z.of_nat (length buf) -> w <= Z.of_nat (length buf) ->
  Z.of_nat (length (between buf r w)) = if r <=? w then w - r else Z.of_nat (length buf) - r + w.
Proof.
  intros. unfold between. destruct (Z.leb_spec r w);
    rewrite ?length_app, ?length_take, ?length_drop; lia.
Qed.

Lemma between_cons buf r w c :
  0 <= r < Z.of_nat (length buf) -> 0 <= w < Z.of_nat (length buf) -> r <> w ->
  buf !! Z.to_nat r = Some c ->
  between buf r w = c :: between buf (if r + 1 =? Z.of_nat (length buf) then 0 else r + 1) w.
Proof.
  intros Hr Hw Hne Hc. unfold between.
  rewrite (drop_S _ _ _ Hc).
  replace (S (Z.to_nat r)) with (Z.to_nat (r + 1)) by lia.
  destruct (Z.eqb_spec (r + 1) (Z.of_nat (length buf))) as [He|He].
  - rewrite (drop_ge _ (Z.to_nat (r + 1))) by lia.
    destruct (Z.leb_spec r w), (Z.leb_spec 0 w); try lia; cbn. by rewrite Z.sub_0_r.
  - destruct (Z.leb_spec r w), (Z.leb_spec (r + 1) w); try lia; cbn; [|done].
    replace (Z.to_nat (w - r)) with (S (Z.to_nat (w - (r + 1)))) by lia. done.
Qed.

(** Storing at [w] appends, unless the buffer then looks empty. *)
Lemma between_store buf r w c :
  Z.of_nat (length buf) = CONSBUFSIZE -> 0 <= r < CONSBUFSIZE -> 0 <= w < CONSBUFSIZE ->
  between (<[Z.to_nat w := c]> buf) r (if w + 1 =? CONSBUFSIZE then 0 else w + 1) =
  enqueue (between buf r w) c.
Proof.
  intros Hl Hr Hw. unfold enqueue. rewrite between_length by lia. rewrite Hl.
  unfold between. set (i := Z.to_nat w). unfold CONSBUFSIZE in *.
  assert (Hi : forall n, (n <= i)%nat -> take n (<[i := c]> buf) = take n buf)
    by (intros; apply take_insert_ge; lia).
  assert (Hs : take (S i) (<[i := c]> buf) = take i buf ++ [c]).
  { rewrite (take_S_r _ _ c) by (apply list_lookup_insert_eq; lia). by rewrite Hi. }
  assert (Hd : (Z.to_nat r <= i)%nat -> forall n, n = (i - Z.to_nat r)%nat ->
    take (S n) (drop (Z.to_nat r) (<[i := c]> buf)) = take n (drop (Z.to_nat r) buf) ++ [c]).
  { intros Hri n ->. rewrite !take_drop_commute. replace (Z.to_nat r + S (i - Z.to_nat r))%nat with (S i) by lia.
    replace (Z.to_nat r + (i - Z.to_nat r))%nat with i by lia.
    rewrite Hs, drop_app_le by (rewrite length_take; lia). done. }
  destruct (Z.eqb_spec (w + 1) 512), (Z.leb_spec r w).
  - destruct (Z.leb_spec r 0), (Z.ltb_spec (w - r) (512 - 1)); try lia.
    + replace (Z.to_nat (0 - r)) with O by lia. done.
    + cbn [Z.to_nat take]. rewrite app_nil_r, <- Hd by lia.
      rewrite take_ge; [done|]. rewrite length_drop, length_insert. lia.
  - lia.
  - destruct (Z.leb_spec r (w + 1)), (Z.ltb_spec (w - r) (512 - 1)); try lia.
    rewrite <- Hd by lia. f_equal. lia.
  - replace (Z.to_nat (w + 1)) with (S i) by lia. rewrite Hs.
    rewrite drop_insert_lt by lia.
    destruct (Z.leb_spec r (w + 1)), (Z.ltb_spec (512 - r + w) (512 - 1)); try lia.
    + replace (Z.to_nat (w + 1 - r)) with O by lia. done.
    + by rewrite app_assoc.
Qed.

Section console.
Context {D : Type} (port_in : Z -> D -> Z * D) (port_out : Z -> Z -> D -> D).

Local Abbreviation state := (@console D).

Definition pending (s : state) : list Z := between (cons_buf s) (rpos s) (wpos s).
Definition input_ok (s : state) : Prop :=
  Z.of_nat (length (cons_buf s)) = CONSBUFSIZE /\ 0 <= rpos s < CONSBUFSIZE /\ 0 <= wpos s < CONSBUFSIZE.
(** [s'] is [s] with other contents of the input buffer. *)
Definition same_but_input (s s' : state) : Prop :=
  set_input (cons_buf s) (rpos s) (wpos s) s' = s.

Lemma cons_store_ok c s : input_ok s ->
  exists s', cons_store c s = Ok (tt, s') /\ input_ok s' /\ same_but_input s s' /\
    pending s' = enqueue (pending s) (u8 c).
Proof.
  intros (Hl & Hr & Hw). unfold cons_store.
  rewrite (proj2 (Z.leb_le 0 (wpos s))), (proj2 (Z.ltb_lt (wpos s) _)) by lia. cbn [andb].
  eexists; split; [done|]. unfold input_ok, pending, same_but_input. cbn.
  rewrite length_insert. split; [|split; [by destruct s|by apply between_store]].
  destruct (Z.eqb_spec (wpos s + 1) CONSBUFSIZE); lia.
Qed.

Lemma cons_take_ok s : input_ok s ->
  exists s', cons_take s = Ok (hd 0 (pending s), s') /\ input_ok s' /\ same_but_input s s' /\
    pending s' = tl (pending s).
Proof.
  intros (Hl & Hr & Hw). unfold cons_take, pending.
  destruct (Z.eqb_spec (rpos s) (wpos s)) as [He|He]; cbn [negb].
  - exists s. unfold between. rewrite (proj2 (Z.leb_le _ _)) by lia.
    replace (Z.to_nat (wpos s - rpos s)) with O by lia. cbn.
    split; [done|]. split; [by unfold input_ok|]. split; [by destruct s|done].
  - destruct (cons_buf s !! Z.to_nat (rpos s)) as [c|] eqn:Hc;
      [|apply lookup_ge_None in Hc; lia].
    rewrite (between_cons _ _ _ c) by (done || lia). rewrite Hl. cbn [hd tl].
    eexists; split; [done|]. split; [|split; [by destruct s|done]].
    unfold input_ok; cbn. destruct (Z.eqb_spec (rpos s + 1) CONSBUFSIZE); lia.
Qed.

(** *** Runs that do not touch the input buffer *)

Definition frames_input {A} (m : M state A) : Prop :=
  forall s b r w, m (set_input b r w s) =
    match m s with Ok (a, s') => Ok (a, set_input b r w s') | Err e => Err e end.

Lemma frames_bind {A B} (m : M state A) (k : A -> M state B) :
  frames_input m -> (forall a, frames_input (k a)) -> frames_input (bind m k).
Proof.
  intros Hm Hk s b r w. unfold bind. rewrite Hm. destruct (m s) as [[a s']|e]; [apply Hk|done].
Qed.
Lemma frames_ret {A} (a : A) : frames_input (ret a).
Proof. done. Qed.
Lemma frames_fail {A} e : frames_input (@fail state A e).
Proof. done. Qed.
Lemma frames_gets {A} (f : state -> A) :
  (forall s b r w, f (set_input b r w s) = f s) -> frames_input (gets f).
Proof. intros H s b r w. unfold gets. by rewrite H. Qed.
Lemma frames_modify (f : state -> state) :
  (forall s b r w, f (set_input b r w s) = set_input b r w (f s)) -> frames_input (modify f).
Proof. intros H s b r w. unfold modify. by rewrite H. Qed.
Lemma frames_inb port : frames_input (inb port_in port).
Proof. intros s b r w. unfold inb. cbn. by destruct (port_in _ _). Qed.
Lemma frames_crt_get i : frames_input (@crt_get D i).
Proof. intros s b r w. unfold crt_get. cbn. by destruct (crt_buf s !! i). Qed.
Lemma frames_crt_put i v : frames_input (@crt_put D i v).
Proof. intros s b r w. unfold crt_put. cbn. by destruct (crt_buf s !! i). Qed.
End console.

Create HintDb frames.
#[export] Hint Resolve frames_ret frames_fail frames_inb frames_crt_get frames_crt_put : frames.
#[export] Hint Extern 1 (frames_input (gets _)) => apply frames_gets; reflexivity : frames.
#[export] Hint Extern 1 (frames_input (modify _)) => apply frames_modify; reflexivity : frames.
#[export] Hint Extern 1 (frames_input (outb _ _ _)) => apply frames_modify; reflexivity : frames.
#[export] Hint Extern 1 (frames_input (set_pos _)) => apply frames_modify; reflexivity : frames.
(** Frames a run, case by case. *)
Ltac frames :=
  lazymatch goal with
  | |- forall _, _ => intro; frames
  | |- frames_input (bind _ _) => apply frames_bind; frames
  | |- frames_input (match ?x with _ => _ end) => destruct x; frames
  | |- _ => auto with frames
  end.

Section driver.
Context {D : Type} (port_in : Z -> D -> Z * D) (port_out : Z -> Z -> D -> D).

Local Abbreviation state := (@console D).
Local Abbreviation serial_proc_data := (serial_proc_data port_in).
Local Abbreviation kbd_proc_data := (kbd_proc_data port_in port_out).

Lemma frames_serial_proc_data : frames_input serial_proc_data.
Proof. unfold Console.serial_proc_data. frames. Qed.

Lemma frames_wait_ready n port mask : frames_input (wait_ready port_in n port mask).
Proof. induction n; cbn [wait_ready]; unfold delay; frames. Qed.

Lemma frames_scroll_cells n i : frames_input (@scroll_cells D n i).
Proof. revert i. induction n; cbn [scroll_cells]; frames. Qed.
Lemma frames_blank_cells n i : frames_input (@blank_cells D n i).
Proof. revert i. induction n; cbn [blank_cells]; frames. Qed.
Hint Resolve frames_wait_ready frames_scroll_cells frames_blank_cells : frames.

Lemma frames_putc depth c : frames_input (cons_putc_depth port_in port_out depth c).
Proof.
  revert c. induction depth as [|depth IH]; intros c; cbn [cons_putc_depth]; [frames|].
  unfold serial_putc, lpt_putc, cga_putc, cga_char, scroll, move_cursor. frames.
Qed.

Lemma frames_kbd_proc_data reboot_message :
  frames_input reboot_message -> frames_input (kbd_proc_data reboot_message).
Proof. unfold Console.kbd_proc_data. frames. Qed.

(** *** What the keyboard and the serial line return *)

Definition shift_ok (s : state) : Prop := 0 <= shift s < 128.

Lemma lookup_map_range first others i b :
  0 < b -> forallb (fun c => (0 <=? c) && (c <? b)) (first ++ others.*2) = true ->
  0 <= lookup_map first others i < b.
Proof.
  intros Hb Hall. rewrite forallb_app in Hall. apply andb_true_iff in Hall as [Hf Ho].
  rewrite forallb_forall in Hf, Ho. unfold lookup_map.
  assert (Hrange : forall c, (0 <=? c) && (c <? b) = true -> 0 <= c < b).
  { intros c [??]%andb_true_iff. lia. }
  destruct (first !! Z.to_nat i) as [c|] eqn:Hc.
  - apply Hrange, Hf, list_elem_of_In, (list_elem_of_lookup_2 _ _ _ Hc).
  - destruct (list_find _ others) as [[j p]|] eqn:Hp; [|lia].
    apply list_find_Some in Hp as (Hp & _ & _). apply Hrange, Ho, list_elem_of_In.
    apply list_elem_of_fmap. exists p. split; [done|by apply list_elem_of_lookup_2 in Hp].
Qed.

Lemma charcode_range i d : 0 <= charcode i d < 256.
Proof.
  unfold charcode, normalmap, shiftmap, ctlmap.
  destruct (i =? 0); [|destruct (i =? 1)]; by apply lookup_map_range.
Qed.

(** Bitwise operations stay below a power of two. *)
Lemma bits_below n x : 0 <= n -> 0 <= x -> (forall i, n <= i -> Z.testbit x i = false) -> x < 2 ^ n.
Proof.
  intros Hn Hx Hb. destruct (Z.lt_ge_cases x (2 ^ n)) as [|Hge]; [done|].
  assert (Hlog : n <= Z.log2 x) by (apply Z.log2_le_pow2; [pose proof (Z.pow_pos_nonneg 2 n); lia|done]).
  pose proof (Z.bit_log2 x). rewrite Hb in * by done.
  pose proof (Z.pow_pos_nonneg 2 n). lia.
Qed.
Lemma below_bits n x i : 0 <= x < 2 ^ n -> n <= i -> Z.testbit x i = false.
Proof.
  intros Hx Hi. destruct (Z.eq_dec x 0) as [->|]; [apply Z.bits_0|].
  apply Z.bits_above_log2; [lia|]. apply Z.log2_lt_pow2; [lia|].
  assert (2 ^ n <= 2 ^ i) by (apply Z.pow_le_mono_r; lia). lia.
Qed.
Lemma lor_below n x y : 0 <= n -> 0 <= x < 2 ^ n -> 0 <= y < 2 ^ n -> 0 <= Z.lor x y < 2 ^ n.
Proof.
  intros ? Hx Hy. assert (0 <= Z.lor x y) by (apply Z.lor_nonneg; lia). split; [done|].
  apply bits_below; [done..|]. intros i Hi. rewrite Z.lor_spec.
  by rewrite (below_bits n x), (below_bits n y).
Qed.
Lemma lxor_below n x y : 0 <= n -> 0 <= x < 2 ^ n -> 0 <= y < 2 ^ n -> 0 <= Z.lxor x y < 2 ^ n.
Proof.
  intros ? Hx Hy. assert (0 <= Z.lxor x y) by (apply Z.lxor_nonneg; lia). split; [done|].
  apply bits_below; [done..|]. intros i Hi. rewrite Z.lxor_spec.
  by rewrite (below_bits n x), (below_bits n y).
Qed.
Lemma land_below n x y : 0 <= n -> 0 <= x < 2 ^ n -> 0 <= Z.land x y < 2 ^ n.
Proof.
  intros ? Hx. assert (0 <= Z.land x y) by (apply Z.land_nonneg; lia). split; [done|].
  apply bits_below; [done..|]. intros i Hi. rewrite Z.land_spec.
  by rewrite (below_bits n x).
Qed.

Lemma shiftcode_range d : 0 <= shiftcode d < 2 ^ 7.
Proof. by apply lookup_map_range. Qed.
Lemma togglecode_range d : 0 <= togglecode d < 2 ^ 7.
Proof. by apply lookup_map_range. Qed.

Lemma key_pressed_range sh data : 0 <= sh < 2 ^ 7 ->
  0 <= (key_pressed sh data).1 < 2 ^ 7 /\ 0 <= (key_pressed sh data).2 < 256.
Proof.
  intros Hsh. unfold key_pressed.
  destruct (if Z.land sh E0ESC =? 0 then (data, sh) else _) as [d sh'] eqn:He.
  assert (Hsh' : 0 <= sh' < 2 ^ 7).
  { destruct (Z.land sh E0ESC =? 0); injection He as <- <-; [done|by apply land_below]. }
  cbn [fst snd]. split.
  - apply lxor_below; [done| |apply togglecode_range].
    apply lor_below; [done..|apply shiftcode_range].
  - set (c := charcode _ _). pose proof (charcode_range (Z.land (Z.lxor (Z.lor sh' (shiftcode d)) (togglecode d)) (Z.lor CTL SHIFT)) d) as Hc.
    fold c in Hc. destruct (Z.land _ CAPSLOCK =? 0); [done|].
    destruct (Z.leb_spec 97 c), (Z.leb_spec c 122), (Z.leb_spec 65 c), (Z.leb_spec c 90); cbn; lia.
Qed.

Lemma key_released_range sh data : 0 <= sh < 2 ^ 7 -> 0 <= key_released sh data < 2 ^ 7.
Proof. intros. unfold key_released. by apply land_below. Qed.

(** A message leaves [shift] as it is. *)
Definition keeps_shift (m : M state unit) : Prop := forall s s', m s = Ok (tt, s') -> shift s' = shift s.

Lemma inb_inv port s v s' : inb port_in port s = Ok (v, s') ->
  0 <= v < 256 /\ shift s' = shift s.
Proof.
  unfold inb. destruct (port_in _ _) as [x d]. intros [= <- <-].
  split; [|done]. pose proof (wrapu_range 8 x). bound_lia.
Qed.

Lemma serial_proc_data_range s c s' :
  shift_ok s -> serial_proc_data s = Ok (c, s') -> -1 <= c < 256 /\ shift_ok s'.
Proof.
  unfold shift_ok. intros Hs (v & s1 & [_ H1]%inb_inv & H)%bind_inv. destruct (_ =? 0).
  - injection H as <- <-. lia.
  - apply inb_inv in H. lia.
Qed.

Lemma kbd_proc_data_range reboot_message s c s' :
  keeps_shift reboot_message -> shift_ok s -> kbd_proc_data reboot_message s = Ok (c, s') ->
  -1 <= c < 256 /\ shift_ok s'.
Proof.
  intros Hrb Hs (st & s1 & [_ Hs1]%inb_inv & H)%bind_inv. unfold shift_ok in *.
  destruct (_ =? 0); [injection H as <- <-; lia|].
  apply bind_inv in H as (data & s2 & [Hd Hs2]%inb_inv & H). cbn [bind gets] in H.
  assert (Hr : 0 <= shift s2 < 2 ^ 7) by bound_lia.
  destruct (data =? 0xE0); [|destruct (negb _)].
  - injection H as <- <-. cbn [shift set_shift].
    split; [lia|]. by apply (lor_below 7).
  - injection H as <- <-. split; [lia|]. by apply (key_released_range _ data).
  - pose proof (key_pressed_range _ data Hr) as Hk.
    destruct (key_pressed (shift s2) data) as [sh k]. cbn [fst snd] in Hk.
    cbn [bind modify] in H. apply bind_inv in H as ([] & s3 & H3 & [= <- <-]).
    split; [lia|]. assert (shift s3 = sh) as ->; [|bound_lia].
    destruct (_ && _); [|by injection H3 as <-].
    apply bind_inv in H3 as ([] & s4 & H4 & H5). apply Hrb in H4.
    injection H5 as <-. exact H4.
Qed.

(** *** A device that delivers characters and then has none *)

Inductive delivers (proc : M state Z) : state -> list Z -> state -> Prop :=
  | delivers_end s s' : proc s = Ok (-1, s') -> delivers proc s [] s'
  | delivers_none s s1 cs s' : proc s = Ok (0, s1) -> delivers proc s1 cs s' -> delivers proc s cs s'
  | delivers_char s s1 c cs s' :
      proc s = Ok (c, s1) -> c <> -1 -> c <> 0 -> delivers proc s1 cs s' -> delivers proc s (c :: cs) s'.

(** A source of characters: bytes, or -1. *)
Definition source (proc : M state Z) : Prop :=
  frames_input proc /\
  forall s c s', shift_ok s -> proc s = Ok (c, s') -> -1 <= c < 256 /\ shift_ok s'.

Lemma cons_store_frame c (s : state) b r w : 0 <= c < 256 -> input_ok (set_input b r w s) ->
  exists b' r' w', cons_store c (set_input b r w s) = Ok (tt, set_input b' r' w' s) /\
    input_ok (set_input b' r' w' s) /\
    between b' r' w' = enqueue (between b r w) c.
Proof.
  intros Hc H. destruct (cons_store_ok c _ H) as (s' & Hrun & Hok & _ & Hp). unfold pending in Hp.
  rewrite Hrun. unfold cons_store in Hrun. destruct (_ && _); [|done]. injection Hrun as <-.
  rewrite (wrapu_small 8 c) in * by bound_lia.
  cbn in Hp. do 3 eexists. split; [done|]. by split.
Qed.

(** The interrupt queues what the device delivers. *)
Lemma cons_intr_ok proc s cs s' : source proc -> delivers proc s cs s' -> shift_ok s ->
  forall b r w, input_ok (set_input b r w s) ->
  shift_ok s' /\
  exists b' r' w' n, (forall fuel, (n <= fuel)%nat ->
      cons_intr fuel proc (set_input b r w s) = Ok (tt, set_input b' r' w' s')) /\
    input_ok (set_input b' r' w' s') /\
    between b' r' w' = fold_left enqueue cs (between b r w).
Proof.
  intros [Hfr Hrange]. induction 1 as [s s' Hrun|s s1 cs s' Hrun _ IH|s s1 c cs s' Hrun H1 H0 _ IH];
    intros Hs b r w Hok; destruct (Hrange _ _ _ Hs Hrun) as [Hc Hs1];
    pose proof (Hfr s b r w) as Hf; rewrite Hrun in Hf.
  - split; [done|]. exists b, r, w, 1%nat. split; [|done]. intros [|fuel] ?; [lia|].
    cbn [cons_intr]. by step Hf.
  - destruct (IH Hs1 b r w Hok) as (Hs' & b' & r' & w' & n & Hn & ? & ?).
    split; [done|]. exists b', r', w', (S n). split; [|done]. intros [|fuel] ?; [lia|].
    cbn [cons_intr]. step Hf. apply Hn. lia.
  - destruct (cons_store_frame c s1 b r w) as (b1 & r1 & w1 & Hst & Hok1 & Hb1); [lia|done|].
    destruct (IH Hs1 b1 r1 w1 Hok1) as (Hs' & b' & r' & w' & n & Hn & ? & Hb).
    split; [done|]. exists b', r', w', (S n). split; [|by rewrite Hb, Hb1].
    intros [|fuel] ?; [lia|]. cbn [cons_intr]. step Hf.
    rewrite (proj2 (Z.eqb_neq c (-1))), (proj2 (Z.eqb_neq c 0)) by done.
    step Hst. apply Hn. lia.
Qed.

Lemma set_input_self (s : state) : set_input (cons_buf s) (rpos s) (wpos s) s = s.
Proof. by destruct s. Qed.

(** Characters the serial line delivers; none when there is no line. *)
Definition serial_delivers (s : state) (cs : list Z) (s' : state) : Prop :=
  if serial_exists s then delivers serial_proc_data s cs s' else cs = [] /\ s' = s.

Lemma cons_getc_ok reboot_message s cs s1 ks s2 :
  frames_input reboot_message -> keeps_shift reboot_message -> shift_ok s -> input_ok s ->
  serial_delivers s cs s1 -> delivers (kbd_proc_data reboot_message) s1 ks s2 ->
  let q := fold_left enqueue (cs ++ ks) (pending s) in
  exists n, forall fuel, (n <= fuel)%nat -> exists s',
    cons_getc port_in port_out fuel reboot_message s = Ok (hd 0 q, s') /\
    input_ok s' /\ pending s' = tl q /\ same_but_input s' s2 /\ shift_ok s'.
Proof.
  intros Hfr Hks Hs Hok Hser Hkbd q.
  assert (Sser : source serial_proc_data)
    by (split; [apply frames_serial_proc_data|apply serial_proc_data_range]).
  assert (Skbd : source (kbd_proc_data reboot_message)).
  { split; [by apply frames_kbd_proc_data|]. intros. by eapply kbd_proc_data_range. }
  assert (H1 : shift_ok s1 /\ exists b r w n, (forall fuel, (n <= fuel)%nat ->
      serial_intr port_in fuel s = Ok (tt, set_input b r w s1)) /\
    input_ok (set_input b r w s1) /\ between b r w = fold_left enqueue cs (pending s)).
  { unfold serial_delivers, serial_intr in *. cbn [bind gets]. destruct (serial_exists s).
    - rewrite <- (set_input_self s) in Hok.
      destruct (cons_intr_ok _ _ _ _ Sser Hser Hs _ _ _ Hok) as (? & b & r & w & n & Hn & ? & ?).
      rewrite set_input_self in Hn. split; [done|]. by exists b, r, w, n.
    - destruct Hser as [-> ->]. split; [done|]. exists (cons_buf s), (rpos s), (wpos s), O.
      rewrite set_input_self. done. }
  destruct H1 as (Hs1 & b & r & w & n1 & Hn1 & Hok1 & Hb1).
  destruct (cons_intr_ok _ _ _ _ Skbd Hkbd Hs1 _ _ _ Hok1)
    as (Hs2 & b2 & r2 & w2 & n2 & Hn2 & Hok2 & Hb2).
  exists (n1 + n2)%nat. intros fuel Hfuel.
  destruct (cons_take_ok _ Hok2) as (s' & Hrun & Hok' & Hsame & Hp).
  assert (Hq : pending (set_input b2 r2 w2 s2) = q)
    by (unfold pending; cbn; by rewrite Hb2, Hb1, <- fold_left_app).
  rewrite Hq in Hrun, Hp.
  assert (s' = set_input (cons_buf s') (rpos s') (wpos s') s2) as Hsame'.
  { unfold same_but_input in Hsame. destruct s', s2. injection Hsame as -> -> -> -> -> ->. done. }
  exists s'. split; [|split_and!; [done|done|by symmetry|rewrite Hsame'; done]].
  unfold cons_getc, kbd_intr. step (Hn1 fuel ltac:(lia)). by step (Hn2 fuel ltac:(lia)).
Qed.

(** ** The screen *)

(** The cells of the screen and the cursor. *)
Definition screen : Type := (Z -> Z) * Z.
Definition blank : Z := 0x0720.
Definition update (f : Z -> Z) (i v : Z) : Z -> Z := fun j => if j =? i then v else f j.

(** Past the last row, every row moves up and the last one is blank. *)
Definition scrolled (sc : screen) : screen :=
  let '(f, p) := sc in
  if CRT_SIZE <=? p then
    (fun i => if i <? CRT_SIZE - CRT_COLS then f (i + CRT_COLS) else blank, p - CRT_COLS)
  else sc.

(** A character with its attribute, other than a tab. *)
Definition typed (c : Z) (sc : screen) : screen :=
  let '(f, p) := sc in
  let ch := Z.land c 0xFF in
  scrolled
    (if ch =? 8 then
       if 0 <? p then (update f (p - 1) (u16 (Z.lor (Z.land c (Z.lnot 0xFF)) 32)), p - 1) else (f, p)
     else if ch =? 10 then (f, (p / CRT_COLS + 1) * CRT_COLS)
     else if ch =? 13 then (f, p / CRT_COLS * CRT_COLS)
     else (update f p (u16 c), p + 1)).

(** A tab is five blanks. *)
Definition typed_char (c : Z) (sc : screen) : screen :=
  if Z.land c 0xFF =? 9 then Nat.iter 5 (typed blank) sc else typed (attribute c) sc.

(** [s] shows [sc]: its cells hold 16 bits and the cursor is on one. *)
Definition shows (s : state) (sc : screen) : Prop :=
  crt_pos s = sc.2 /\ 0 <= sc.2 < CRT_SIZE /\
  forall i, 0 <= i < CRT_SIZE -> crt_buf s !! i = Some (sc.1 i) /\ is_u 16 (sc.1 i).

(** [s'] differs from [s] in the devices, the cells of the screen and the cursor. *)
Definition screen_only (s s' : state) : Prop :=
  serial_exists s' = serial_exists s /\ addr_6845 s' = addr_6845 s /\ shift s' = shift s /\
  cons_buf s' = cons_buf s /\ rpos s' = rpos s /\ wpos s' = wpos s /\
  forall i, ~ 0 <= i < CRT_SIZE -> crt_buf s' !! i = crt_buf s !! i.

#[local] Instance screen_only_preorder : PreOrder screen_only.
Proof.
  split; [done|]. intros s1 s2 s3 (?&?&?&?&?&?&Ha) (?&?&?&?&?&?&Hb).
  unfold screen_only. split_and!; try congruence. intros i Hi. by rewrite Hb, Ha.
Qed.

(** *** Runs that change the devices only *)

Definition devices_only {A} (m : M state A) : Prop :=
  forall s, exists a d, m s = Ok (a, set_devices (fun _ => d) s).

Lemma devices_bind {A B} (m : M state A) (k : A -> M state B) :
  devices_only m -> (forall a, devices_only (k a)) -> devices_only (bind m k).
Proof.
  intros Hm Hk s. destruct (Hm s) as (a & d & H). destruct (Hk a (set_devices (fun _ => d) s)) as (b & d' & H').
  exists b, d'. by rewrite (bind_ok _ _ _ _ _ H).
Qed.
Lemma devices_ret {A} (a : A) : devices_only (ret a).
Proof. intros s. exists a, (devices s). by destruct s. Qed.
Lemma devices_inb port : devices_only (inb port_in port).
Proof. intros s. unfold inb. destruct (port_in _ _) as [v d]. eauto. Qed.
Lemma devices_outb port v : devices_only (outb port_out port v).
Proof. intros s. unfold outb, modify. eauto. Qed.

Lemma devices_wait_ready n port mask : devices_only (wait_ready port_in n port mask).
Proof.
  induction n; cbn [wait_ready]; apply devices_bind; auto using devices_inb; intros v;
    destruct (negb _); auto using devices_ret.
  apply devices_bind; [|done]. unfold delay. repeat (apply devices_bind; [apply devices_inb|intros _]).
  apply devices_ret.
Qed.

Lemma devices_serial_putc c : devices_only (serial_putc port_in port_out c).
Proof. apply devices_bind; auto using devices_wait_ready, devices_outb. Qed.
Lemma devices_lpt_putc c : devices_only (lpt_putc port_in port_out c).
Proof.
  apply devices_bind; [apply devices_wait_ready|]. intros _.
  repeat (apply devices_bind; [apply devices_outb|intros _]). apply devices_outb.
Qed.

Lemma move_cursor_ok s : exists d, move_cursor port_out s = Ok (tt, set_devices (fun _ => d) s).
Proof. by eexists. Qed.

Lemma shows_devices s sc d : shows s sc -> shows (set_devices (fun _ => d) s) sc.
Proof. done. Qed.

(** *** The cells *)

Definition with_cells (buf : gmap Z Z) (s : state) : state := set_screen buf (crt_pos s) s.

Lemma crt_get_ok (s : state) i v : crt_buf s !! i = Some v -> crt_get i s = Ok (v, s).
Proof. intros H. unfold crt_get. by rewrite H. Qed.
Lemma crt_put_ok (s : state) i v : is_Some (crt_buf s !! i) ->
  crt_put i v s = Ok (tt, with_cells (<[i := u16 v]> (crt_buf s)) s).
Proof. intros [x H]. unfold crt_put. by rewrite H. Qed.

Definition cells_ok (s : state) : Prop :=
  forall i, 0 <= i < CRT_SIZE -> exists v, crt_buf s !! i = Some v /\ is_u 16 v.

Lemma shows_cells_ok s sc : shows s sc -> cells_ok s.
Proof. intros (_ & _ & H) i Hi. exists (sc.1 i). by apply H. Qed.

Lemma scroll_cells_ok n : forall s i, cells_ok s -> 0 <= i -> i + Z.of_nat n + CRT_COLS <= CRT_SIZE ->
  exists buf, scroll_cells n i s = Ok (tt, with_cells buf s) /\
    forall j, buf !! j = if (i <=? j) && (j <? i + Z.of_nat n) then crt_buf s !! (j + CRT_COLS)
                         else crt_buf s !! j.
Proof.
  unfold CRT_SIZE, CRT_COLS. induction n as [|n IH]; intros s i Hs Hi Hn; cbn [scroll_cells].
  - exists (crt_buf s). split; [by destruct s|]. intros j.
    destruct (Z.leb_spec i j), (Z.ltb_spec j (i + Z.of_nat 0)); cbn; done || lia.
  - destruct (Hs (i + 80)) as (v & Hv & Hr); [unfold CRT_SIZE, CRT_COLS; lia|].
    destruct (Hs i) as (x & Hx & _); [unfold CRT_SIZE, CRT_COLS; lia|].
    step (crt_get_ok s (i + CRT_COLS) v Hv). step (crt_put_ok s i v (mk_is_Some _ _ Hx)).
    rewrite (wrapu_small 16 v) by done.
    destruct (IH (with_cells (<[i:=v]> (crt_buf s)) s) (i + 1)) as (buf & Hrun & Hb); [|lia..|].
    { intros k Hk. cbn. destruct (decide (k = i)) as [->|].
      - exists v. by rewrite lookup_insert_eq.
      - rewrite lookup_insert_ne by done. by apply Hs. }
    exists buf. split; [exact Hrun|]. intros j. rewrite Hb. cbn.
    destruct (Z.leb_spec (i + 1) j), (Z.ltb_spec j (i + 1 + Z.of_nat n)), (Z.leb_spec i j),
      (Z.ltb_spec j (i + Z.of_nat (S n))); cbn; try lia.
    all: try (rewrite lookup_insert_ne by lia; done).
    replace j with i by lia. by rewrite lookup_insert_eq.
Qed.

Lemma blank_cells_ok n : forall s i, cells_ok s -> 0 <= i -> i + Z.of_nat n <= CRT_SIZE ->
  exists buf, blank_cells n i s = Ok (tt, with_cells buf s) /\
    forall j, buf !! j = if (i <=? j) && (j <? i + Z.of_nat n) then Some blank else crt_buf s !! j.
Proof.
  unfold CRT_SIZE, CRT_COLS. induction n as [|n IH]; intros s i Hs Hi Hn; cbn [blank_cells].
  - exists (crt_buf s). split; [by destruct s|]. intros j.
    destruct (Z.leb_spec i j), (Z.ltb_spec j (i + Z.of_nat 0)); cbn; done || lia.
  - destruct (Hs i) as (x & Hx & _); [unfold CRT_SIZE, CRT_COLS; lia|].
    step (crt_put_ok s i (Z.lor 0x0700 32) (mk_is_Some _ _ Hx)).
    change (u16 (Z.lor 0x0700 32)) with blank.
    destruct (IH (with_cells (<[i:=blank]> (crt_buf s)) s) (i + 1)) as (buf & Hrun & Hb); [|lia..|].
    { intros k Hk. cbn. destruct (decide (k = i)) as [->|].
      - exists blank. rewrite lookup_insert_eq. split; [done|]. unfold blank. bound_lia.
      - rewrite lookup_insert_ne by done. by apply Hs. }
    exists buf. split; [exact Hrun|]. intros j. rewrite Hb. cbn.
    destruct (Z.leb_spec (i + 1) j), (Z.ltb_spec j (i + 1 + Z.of_nat n)), (Z.leb_spec i j),
      (Z.ltb_spec j (i + Z.of_nat (S n))); cbn; try lia.
    all: try (rewrite lookup_insert_ne by lia; done). all: try done.
    replace j with i by lia. by rewrite lookup_insert_eq.
Qed.

(** *** Putting a character *)

(** [s] shows [sc], the cursor perhaps just past the last cell. *)
Definition shows_past (s : state) (sc : screen) : Prop :=
  crt_pos s = sc.2 /\ 0 <= sc.2 <= CRT_SIZE /\
  forall i, 0 <= i < CRT_SIZE -> crt_buf s !! i = Some (sc.1 i) /\ is_u 16 (sc.1 i).

Lemma scroll_ok s sc : shows_past s sc ->
  exists s', scroll s = Ok (tt, s') /\ shows s' (scrolled sc) /\ screen_only s s'.
Proof.
  destruct sc as [f p]. intros (Hp & Hr & Hf). cbn [fst snd] in *. unfold scroll, scrolled.
  cbn [bind gets]. rewrite Hp. destruct (Z.leb_spec CRT_SIZE p) as [Hge|Hlt].
  2: { exists s. split; [done|]. split; [|done]. split; [done|]. split; [cbn; lia|done]. }
  assert (Hc : cells_ok s) by (intros i Hi; exists (f i); by apply Hf).
  destruct (scroll_cells_ok (Z.to_nat (CRT_SIZE - CRT_COLS)) s 0) as (b1 & H1 & Hb1);
    [done|lia|unfold CRT_SIZE, CRT_COLS; lia|].
  assert (Hc1 : cells_ok (with_cells b1 s)).
  { intros i Hi. change (crt_buf (with_cells b1 s)) with b1. rewrite Hb1.
    destruct (_ && _) eqn:He; apply Hc; [|done].
    apply andb_true_iff in He as [_ He%Z.ltb_lt]. unfold CRT_SIZE, CRT_COLS in *. lia. }
  destruct (blank_cells_ok (Z.to_nat CRT_COLS) (with_cells b1 s) (CRT_SIZE - CRT_COLS))
    as (b2 & H2 & Hb2); [done|unfold CRT_SIZE, CRT_COLS; lia..|].
  step H1. step H2. eexists. split; [done|]. cbn in Hb2. clear H1 H2 Hc1.
  unfold CRT_SIZE, CRT_COLS in *. split; [split; [|split]|].
  - cbn. apply wrapu_small. unfold CRT_SIZE, CRT_COLS in *. bound_lia.
  - cbn. unfold CRT_SIZE, CRT_COLS. lia.
  - intros i Hi. unfold CRT_SIZE, CRT_COLS in Hi. cbn. rewrite Hb2, Hb1.
    destruct (Z.leb_spec (25 * 80 - 80) i), (Z.ltb_spec i (25 * 80 - 80 + Z.of_nat (Z.to_nat 80))),
      (Z.leb_spec 0 i), (Z.ltb_spec i (0 + Z.of_nat (Z.to_nat (25 * 80 - 80)))),
      (Z.ltb_spec i (25 * 80 - 80)); cbn; try lia.
    + split; [done|]. unfold blank. bound_lia.
    + apply Hf. lia.
  - repeat split; try done. intros i Hi. unfold CRT_SIZE, CRT_COLS in Hi. cbn. rewrite Hb2, Hb1.
    destruct (Z.leb_spec (25 * 80 - 80) i), (Z.ltb_spec i (25 * 80 - 80 + Z.of_nat (Z.to_nat 80))),
      (Z.leb_spec 0 i), (Z.ltb_spec i (0 + Z.of_nat (Z.to_nat (25 * 80 - 80)))); cbn; done || lia.
Qed.

(** The switch as a chain of comparisons. *)
Lemma cga_char_cases (putc : Z -> M state unit) c :
  cga_char putc c =
  let* pos := gets crt_pos in
  let ch := Z.land c 0xFF in
  if ch =? 8 then
    if 0 <? pos then do* set_pos (pos - 1); crt_put (pos - 1) (Z.lor (Z.land c (Z.lnot 0xFF)) 32)
    else ret tt
  else if ch =? 10 then let pos := u16 (pos + CRT_COLS) in set_pos (pos - pos mod CRT_COLS)
  else if ch =? 13 then set_pos (pos - pos mod CRT_COLS)
  else if ch =? 9 then do* putc 32; do* putc 32; do* putc 32; do* putc 32; putc 32
  else do* set_pos (pos + 1); crt_put pos c.
Proof.
  unfold cga_char, bind at 1 4, gets. cbn zeta.
  destruct (Z.land c 0xFF) as [|p|p]; [done| |done].
  do 4 (destruct p as [p|p|]; try done).
Qed.

Lemma put_cell_ok s f p i v p' : shows_past s (f, p) -> 0 <= i < CRT_SIZE -> 0 <= p' <= CRT_SIZE ->
  exists s', (do* set_pos p'; crt_put i v) s = Ok (tt, s') /\
    shows_past s' (update f i (u16 v), p') /\ screen_only s s'.
Proof.
  intros (Hp & Hr & Hf) Hi Hp'. cbn [fst snd] in *. unfold set_pos. cbn [bind modify].
  rewrite crt_put_ok by (exists (f i); by apply Hf). eexists. split; [done|].
  unfold CRT_SIZE, CRT_COLS in *. split; [split; [|split]|].
  - cbn. apply wrapu_small. unfold CRT_SIZE, CRT_COLS in *. bound_lia.
  - done.
  - intros j Hj. cbn. unfold update. destruct (Z.eqb_spec j i) as [->|].
    + rewrite lookup_insert_eq. split; [done|]. pose proof (wrapu_range 16 v). bound_lia.
    + rewrite lookup_insert_ne by done. by apply Hf.
  - repeat split; try done. intros j Hj. cbn. unfold CRT_SIZE, CRT_COLS in Hj.
    by rewrite lookup_insert_ne by lia.
Qed.

Lemma set_pos_ok s f p p' : shows_past s (f, p) -> 0 <= p' <= CRT_SIZE ->
  exists s', set_pos p' s = Ok (tt, s') /\ shows_past s' (f, p') /\ screen_only s s'.
Proof.
  intros (Hp & Hr & Hf) Hp'. eexists. split; [done|]. unfold CRT_SIZE, CRT_COLS in *.
  split; [split; [|done]|done]. cbn. apply wrapu_small. bound_lia.
Qed.

Lemma line_start p : p - p mod CRT_COLS = p / CRT_COLS * CRT_COLS.
Proof. unfold CRT_COLS. pose proof (Z.div_mod p 80). lia. Qed.

(** The cells and the cursor, before scrolling. *)
Lemma cga_char_ok putc c s sc : shows s sc -> Z.land c 0xFF <> 9 ->
  exists s' sc', cga_char putc c s = Ok (tt, s') /\ shows_past s' sc' /\ typed c sc = scrolled sc' /\
    screen_only s s'.
Proof.
  destruct sc as [f p]. intros (Hp & Hr & Hf) H9. cbn [fst snd] in *.
  assert (Hs : shows_past s (f, p)) by (split_and!; cbn; done || lia).
  rewrite cga_char_cases. cbn [bind gets]. cbn zeta. rewrite Hp. unfold typed.
  destruct (Z.eqb_spec (Z.land c 0xFF) 8); [|destruct (Z.eqb_spec (Z.land c 0xFF) 10);
    [|destruct (Z.eqb_spec (Z.land c 0xFF) 13); [|destruct (Z.eqb_spec (Z.land c 0xFF) 9); [done|]]]].
  - destruct (Z.ltb_spec 0 p).
    + destruct (put_cell_ok s f p (p - 1) (Z.lor (Z.land c (Z.lnot 0xFF)) 32) (p - 1))
        as (s' & ? & ? & ?); [done|lia..|]. eauto 10.
    + exists s, (f, p). done.
  - destruct (set_pos_ok s f p ((p / CRT_COLS + 1) * CRT_COLS)) as (s' & Hrun & ? & ?); [done| |].
    { unfold CRT_SIZE, CRT_COLS in *. pose proof (Z.div_mod p 80). pose proof (Z.mod_pos_bound p 80).
      assert (p / 80 < 25) by (apply Z.div_lt_upper_bound; lia). lia. }
    exists s', (f, (p / CRT_COLS + 1) * CRT_COLS). split; [|done].
    rewrite <- Hrun. f_equal. rewrite (wrapu_small 16) by (unfold CRT_SIZE, CRT_COLS in *; bound_lia).
    rewrite line_start. unfold CRT_COLS. replace (p + 80) with (p + 1 * 80) by lia.
    by rewrite Z.div_add by lia.
  - rewrite line_start. destruct (set_pos_ok s f p (p / CRT_COLS * CRT_COLS)) as (s' & Hrun & ? & ?); [done| |].
    { unfold CRT_SIZE, CRT_COLS in *. pose proof (Z.div_mod p 80). pose proof (Z.mod_pos_bound p 80).
      lia. }
    exists s', (f, p / CRT_COLS * CRT_COLS). done.
  - destruct (put_cell_ok s f p p c (p + 1)) as (s' & ? & ? & ?); [done|lia..|]. eauto 10.
Qed.

Lemma shows_scrolled s sc : shows s sc -> scrolled sc = sc.
Proof.
  destruct sc as [f p]. intros (_ & Hr & _). cbn in Hr. unfold scrolled.
  by rewrite (proj2 (Z.leb_gt _ _)) by lia.
Qed.

Lemma attribute_char c : Z.land (attribute c) 0xFF = Z.land c 0xFF.
Proof.
  unfold attribute. destruct (_ =? 0); [|done]. rewrite Z.land_lor_distr_l.
  change (Z.land 0x0700 0xFF) with 0. apply Z.lor_0_r.
Qed.

Lemma putc_before depth c s : exists d,
  cons_putc_depth port_in port_out (S depth) c s =
  cga_putc port_out (cons_putc_depth port_in port_out depth) c (set_devices (fun _ => d) s).
Proof.
  cbn [cons_putc_depth]. destruct (devices_serial_putc c s) as ([] & d1 & H1). step H1.
  destruct (devices_lpt_putc c (set_devices (fun _ => d1) s)) as ([] & d2 & H2). step H2. by exists d2.
Qed.

Lemma putc_after s sc : shows_past s sc ->
  exists s', (do* scroll; move_cursor port_out) s = Ok (tt, s') /\ shows s' (scrolled sc) /\
    screen_only s s'.
Proof.
  intros Hs. destruct (scroll_ok s sc Hs) as (s1 & H1 & Hs1 & Hsc). step H1.
  destruct (move_cursor_ok s1) as (d & H2). rewrite H2. by eexists.
Qed.

Lemma putc_plain depth c s sc : shows s sc -> Z.land c 0xFF <> 9 ->
  exists s', cons_putc_depth port_in port_out (S depth) c s = Ok (tt, s') /\
    shows s' (typed (attribute c) sc) /\ screen_only s s'.
Proof.
  intros Hs H9. rewrite <- attribute_char in H9. destruct (putc_before depth c s) as [d ->].
  destruct (cga_char_ok (cons_putc_depth port_in port_out depth) (attribute c) _ sc
    (shows_devices s sc d Hs) H9) as (s1 & sc1 & H1 & Hs1 & -> & Hsc1).
  unfold cga_putc. step H1. destruct (putc_after s1 sc1 Hs1) as (s2 & H2 & Hs2 & Hsc2).
  exists s2. split; [done|]. split; [done|]. etransitivity; [exact Hsc1|done].
Qed.

Lemma putc_blank depth s sc : shows s sc ->
  exists s', cons_putc_depth port_in port_out (S depth) 32 s = Ok (tt, s') /\
    shows s' (typed blank sc) /\ screen_only s s'.
Proof. intros Hs. by apply (putc_plain depth 32). Qed.

Lemma cons_putc_ok c s sc : shows s sc ->
  exists s', cons_putc port_in port_out c s = Ok (tt, s') /\
    shows s' (typed_char c sc) /\ screen_only s s'.
Proof.
  intros Hs. unfold typed_char. destruct (Z.eqb_spec (Z.land c 0xFF) 9) as [H9|H9];
    [|by apply putc_plain].
  unfold cons_putc. destruct (putc_before 1 c s) as [d ->]. unfold cga_putc.
  rewrite cga_char_cases. rewrite bind_assoc. cbn [bind gets]. rewrite attribute_char, H9. cbn -[cons_putc_depth].
  apply (shows_devices _ _ d) in Hs. revert Hs.
  assert (H0 : screen_only s (set_devices (fun _ => d) s)) by done. revert H0.
  generalize (set_devices (fun _ => d) s). intros s0 H0 Hs. cbn [Nat.iter].
  destruct (putc_blank 0 _ _ Hs) as (s1 & R1 & Hs1 & H1).
  destruct (putc_blank 0 _ _ Hs1) as (s2 & R2 & Hs2 & H2).
  destruct (putc_blank 0 _ _ Hs2) as (s3 & R3 & Hs3 & H3).
  destruct (putc_blank 0 _ _ Hs3) as (s4 & R4 & Hs4 & H4).
  destruct (putc_blank 0 _ _ Hs4) as (s5 & R5 & Hs5 & H5).
  rewrite bind_assoc; step R1. rewrite bind_assoc; step R2. rewrite bind_assoc; step R3. rewrite bind_assoc; step R4. step R5.
  destruct (putc_after s5 (typed blank (typed blank (typed blank (typed blank (typed blank sc))))))
    as (s6 & R6 & Hs6 & H6).
  { destruct Hs5 as (? & ? & ?). split_and!; [done|lia..|done]. }
  rewrite (shows_scrolled _ _ Hs5) in Hs6. exists s6. split; [done|]. split; [done|].
  do 6 (etransitivity; [eassumption|]). done.
Qed.

Lemma put_all_ok cs : forall s sc, shows s sc ->
  exists s', foldr (fun c k => do* cputchar port_in port_out c; k) (ret tt) cs s = Ok (tt, s') /\
    shows s' (fold_left (fun sc c => typed_char c sc) cs sc) /\ screen_only s s'.
Proof.
  induction cs as [|c cs IH]; intros s sc Hs; cbn [foldr fold_left]; [by exists s|].
  destruct (cons_putc_ok c s sc Hs) as (s1 & H1 & Hs1 & Hsc1).
  unfold cputchar at 1. step H1. destruct (IH s1 _ Hs1) as (s2 & H2 & Hs2 & Hsc2).
  exists s2. split; [done|]. split; [done|]. by transitivity s1.
Qed.

(** ** What is typed *)

(** The keys held down, the locks that are on, and whether an escape byte came last. *)
Record modifiers : Type := mk_modifiers {
  shift_down : bool; control_down : bool; alt_down : bool;
  caps_lock : bool; num_lock : bool; scroll_lock : bool; escaped : bool
}.
(** The word they are kept in. *)
Definition word (m : modifiers) : Z :=
  Z.b2z (shift_down m) + 2 * Z.b2z (control_down m) + 4 * Z.b2z (alt_down m) + 8 * Z.b2z (caps_lock m) +
  16 * Z.b2z (num_lock m) + 32 * Z.b2z (scroll_lock m) + 64 * Z.b2z (escaped m).

Definition shift_key (k : Z) : bool := (k =? 0x2A) || (k =? 0x36).
Definition control_key (k : Z) : bool := (k =? 0x1D) || (k =? 0x9D).
Definition alt_key (k : Z) : bool := (k =? 0x38) || (k =? 0xB8).

Definition press (m : modifiers) (k : Z) : modifiers :=
  mk_modifiers (shift_down m || shift_key k) (control_down m || control_key k) (alt_down m || alt_key k)
    (xorb (caps_lock m) (k =? 0x3A)) (xorb (num_lock m) (k =? 0x45)) (xorb (scroll_lock m) (k =? 0x46)) false.
Definition release (m : modifiers) (k : Z) : modifiers :=
  mk_modifiers (shift_down m && negb (shift_key k)) (control_down m && negb (control_key k))
    (alt_down m && negb (alt_key k)) (caps_lock m) (num_lock m) (scroll_lock m) false.

(** The rows of an American keyboard, each from its first key, plain and with Shift; 34 and
    39 are the quotation marks. *)
Definition codes (s : string) : list Z := map (fun a => Z.of_N (Ascii.N_of_ascii a)) (String.list_ascii_of_string s).
Definition rows : list (Z * list Z * list Z) :=
  [(2, codes "1234567890-=", codes "!@#$%^&*()_+");
   (16, codes "qwertyuiop[]", codes "QWERTYUIOP{}");
   (30, codes "asdfghjkl;" ++ [39] ++ codes "`", codes "ASDFGHJKL:" ++ [34] ++ codes "~");
   (43, codes "\zxcvbnm,./", codes "|ZXCVBNM<>?")].
Definition engraved (k : Z) : option (Z * Z) :=
  foldr (fun row e =>
    let '(first, plain, shifted) := row in
    if first <=? k then
      match plain !! Z.to_nat (k - first), shifted !! Z.to_nat (k - first) with Some a, Some b => Some (a, b) | _, _ => e end
    else e) None rows.

Definition lower (c : Z) : bool := (97 <=? c) && (c <=? 122).
Definition upper (c : Z) : bool := (65 <=? c) && (c <=? 90).
Definition swap_case (c : Z) : Z := if lower c then c - 32 else if upper c then c + 32 else c.

(** The character of a key: what is engraved on it, and what the tables of the driver say
    of the other keys. *)
Definition character (m : modifiers) (k : Z) : Z :=
  let c :=
    match engraved k with
    | Some (a, b) =>
        if control_down m then if lower a then a - 96 else ctlmap k
        else if shift_down m then b else a
    | None => if control_down m then ctlmap k else if shift_down m then shiftmap k else normalmap k
    end in
  if caps_lock m then swap_case c else c.

(** The key that the byte [d] speaks of: 128 more after an escape byte. *)
Definition key_of (m : modifiers) (d : Z) : Z := if escaped m then 128 + d mod 128 else d mod 128.
Definition scan (m : modifiers) (d : Z) : modifiers * Z :=
  if d =? 0xE0 then
    (mk_modifiers (shift_down m) (control_down m) (alt_down m) (caps_lock m) (num_lock m) (scroll_lock m) true, 0)
  else if 128 <=? d then (release m (key_of m d), 0)
  else let m' := press m (key_of m d) in (m', character m' (key_of m d)).

Definition all_modifiers : list modifiers :=
  s ← [false; true]; c ← [false; true]; a ← [false; true]; l ← [false; true]; n ← [false; true]; r ← [false; true];
  e ← [false; true]; [mk_modifiers s c a l n r e].
Lemma in_all_modifiers m : m ∈ all_modifiers.
Proof.
  assert (Hb : forall b, b ∈ [false; true]) by (intros []; rewrite !elem_of_cons; auto).
  destruct m as [s c a l n r e]. unfold all_modifiers.
  apply list_elem_of_bind; exists s; split; [|apply Hb]. apply list_elem_of_bind; exists c; split; [|apply Hb].
  apply list_elem_of_bind; exists a; split; [|apply Hb]. apply list_elem_of_bind; exists l; split; [|apply Hb].
  apply list_elem_of_bind; exists n; split; [|apply Hb]. apply list_elem_of_bind; exists r; split; [|apply Hb].
  apply list_elem_of_bind; exists e; split; [|apply Hb]. by left.
Qed.

(** The code's words agree with the modifiers on every byte. *)
Definition scan_agrees (m : modifiers) (d : Z) : bool :=
  let '(m', c) := scan m d in
  if d =? 0xE0 then Z.lor (word m) E0ESC =? word m'
  else if 128 <=? d then key_released (word m) d =? word m'
  else let '(sh, k) := key_pressed (word m) d in (sh =? word m') && (k =? c).
Lemma scan_ok m d : 0 <= d < 256 -> scan_agrees m d = true.
Proof.
  intros Hd.
  assert (Hall : forallb (fun m => forallb (scan_agrees m) (seqZ 0 256)) all_modifiers = true)
    by (vm_compute; reflexivity).
  rewrite forallb_forall in Hall. specialize (Hall m). rewrite forallb_forall in Hall.
  apply Hall; apply list_elem_of_In; [apply in_all_modifiers|apply elem_of_seqZ; lia].
Qed.

Lemma modifiers_range m : 0 <= word m < 128.
Proof. destruct m as [[] [] [] [] [] [] []]; by vm_compute. Qed.

Lemma no_reboot_bits m : (Z.land (Z.lnot (word m)) (Z.lor CTL ALT) =? 0) = control_down m && alt_down m.
Proof. by destruct m as [[] [] [] [] [] [] []]. Qed.

Lemma low_bit x : (Z.land x 1 =? 0) = negb (Z.odd x).
Proof. change 1 with (Z.ones 1) at 1. rewrite Z.land_ones by done. change (2 ^ 1) with 2. rewrite Zmod_odd. by destruct (Z.odd x). Qed.

Lemma bit7 d : 0 <= d < 256 -> negb (Z.land d 0x80 =? 0) = (128 <=? d).
Proof.
  intros Hd. assert (Hall : forallb (fun d => eqb (negb (Z.land d 0x80 =? 0)) (128 <=? d)) (seqZ 0 256) = true)
    by (vm_compute; reflexivity).
  rewrite forallb_forall in Hall. apply eqb_prop, Hall, list_elem_of_In, elem_of_seqZ. lia.
Qed.

Lemma kbd_proc_data_ok reboot_message s m : shift s = word m ->
  let '(status, d1) := port_in KBSTATP (devices s) in
  let '(data, d2) := port_in KBDATAP d1 in
  let '(m', c) := scan m (u8 data) in
  0 <= c < 256 /\ 0 <= word m' < 128 /\
  kbd_proc_data reboot_message s =
    if Z.odd (u8 status) then
      (do* (if control_down m' && alt_down m' && (c =? KEY_DEL)
            then do* reboot_message; outb port_out 0x92 0x3 else ret tt);
       ret c) (set_shift (word m') (set_devices (fun _ => d2) s))
    else Ok (-1, set_devices (fun _ => d1) s).
Proof.
  intros Hs. destruct (port_in KBSTATP (devices s)) as [status d1] eqn:E1.
  destruct (port_in KBDATAP d1) as [data d2] eqn:E2.
  assert (Hd : 0 <= u8 data < 256) by (pose proof (wrapu_range 8 data); bound_lia).
  pose proof (scan_ok m _ Hd) as Hscan. unfold scan_agrees in Hscan. set (d := u8 data) in *.
  assert (Hc : 0 <= (scan m d).2 < 256).
  { unfold scan in Hscan |- *. destruct (d =? 0xE0); [cbn; lia|]. destruct (128 <=? d); [cbn; lia|].
    destruct (key_pressed (word m) d) as [sh k] eqn:Ek. apply andb_true_iff in Hscan as [_ Hk%Z.eqb_eq].
    pose proof (proj2 (key_pressed_range (word m) d (modifiers_range m))) as Hr. rewrite Ek in Hr. cbn [snd] in *. lia. }
  unfold Console.kbd_proc_data. unfold inb at 1, bind at 1. rewrite E1. rewrite low_bit.
  destruct (scan m d) as [m' c] eqn:Esc. cbn [snd] in Hc. split; [done|]. split; [apply modifiers_range|].
  destruct (Z.odd (u8 status)); cbn [negb]; [|done].
  unfold inb, bind at 1. cbn [devices set_devices]. rewrite E2. fold d. cbn [bind gets shift set_devices]. rewrite Hs.
  rewrite bit7 by done. unfold scan in Esc.
  destruct (d =? 0xE0) eqn:E0; [|destruct (128 <=? d)].
  - apply Z.eqb_eq in Hscan. injection Esc as <- <-. cbn [modify bind ret]. rewrite andb_false_r. by rewrite Hscan.
  - apply Z.eqb_eq in Hscan. injection Esc as <- <-. cbn [modify bind ret]. rewrite andb_false_r. by rewrite Hscan.
  - destruct (key_pressed (word m) d) as [sh k]. apply andb_true_iff in Hscan as [->%Z.eqb_eq ->%Z.eqb_eq].
    cbn [modify bind]. rewrite no_reboot_bits. done.
Qed.

(** ** Properties *)

(** C32: the interrupts put the characters the serial line and then the keyboard
    deliver at the end of the queue, and [cons_getc] returns the first of the
    queue, or 0; a queue of 511 characters is emptied by one more.  The
    rest of the state is as reading the devices leaves it. *)
Theorem console_queue reboot_message s cs s1 ks s2 :
  frames_input reboot_message -> keeps_shift reboot_message -> shift_ok s -> input_ok s ->
  serial_delivers s cs s1 -> delivers (kbd_proc_data reboot_message) s1 ks s2 ->
  let q := fold_left enqueue (cs ++ ks) (pending s) in
  exists n, forall fuel, (n <= fuel)%nat -> exists s',
    cons_getc port_in port_out fuel reboot_message s = Ok (hd 0 q, s') /\
    input_ok s' /\ pending s' = tl q /\ same_but_input s' s2.
Proof.
  intros Hf Hk Hs Hi Hc Hd q. destruct (cons_getc_ok _ _ _ _ _ _ Hf Hk Hs Hi Hc Hd) as [n Hn].
  exists n. intros fuel Hfuel. destruct (Hn fuel Hfuel) as (s' & ? & ? & ? & ? & _). by exists s'.
Qed.

(** C37: written characters appear on the screen: each at the cursor, a backspace
    blanks the cell before it, a newline and a carriage return move to the start
    of a line, a tab writes five blanks, and a full screen scrolls up one line.
    The cursor stays on the screen and no other cell is written. *)
Theorem console_screen cs s sc : shows s sc ->
  exists s', foldr (fun c k => do* cputchar port_in port_out c; k) (ret tt) cs s = Ok (tt, s') /\
    shows s' (fold_left (fun sc c => typed_char c sc) cs sc) /\ screen_only s s'.
Proof. intros Hs. by apply put_all_ok. Qed.

(** C38: the keyboard types what is engraved on it.  With no byte waiting
    [kbd_proc_data] returns -1.  Otherwise it reads one byte and returns the character of
    the key that the byte presses under the modifiers then in force, 0 for a release and
    for an escape byte; it keeps [shift] the word of the modifiers: Shift, Control and Alt
    as long as they are held, the locks switched at each press, and whether an escape byte
    came last; Delete under Control and Alt resets the machine, and nothing else is
    changed.  The character of a key of the four rows is the one engraved on it, the
    upper one with Shift, the control code of a letter with Control; with Caps Lock letters
    change their case. *)
Theorem keyboard_typed reboot_message s m : shift s = word m ->
  let '(status, d1) := port_in KBSTATP (devices s) in
  let '(data, d2) := port_in KBDATAP d1 in
  let '(m', c) := scan m (u8 data) in
  0 <= c < 256 /\ 0 <= word m' < 128 /\
  kbd_proc_data reboot_message s =
    if Z.odd (u8 status) then
      (do* (if control_down m' && alt_down m' && (c =? KEY_DEL)
            then do* reboot_message; outb port_out 0x92 0x3 else ret tt);
       ret c) (set_shift (word m') (set_devices (fun _ => d2) s))
    else Ok (-1, set_devices (fun _ => d1) s).
Proof. intros Hs. by apply kbd_proc_data_ok. Qed.
End driver.

(** * The console driver on a concrete serial line, keyboard and screen. *)
Open Scope Z_scope.

(** Bytes waiting on the serial line and scan codes waiting in the keyboard. *)
Definition lines : Type := list Z * list Z.
Definition lines_in (port : Z) (d : lines) : Z * lines :=
  let '(ser, kbd) := d in
  if port =? 0x3FD then (match ser with [] => 0x20 | _ => 0x21 end, d)
  else if port =? 0x3F8 then (hd 0 ser, (tl ser, kbd))
  else if port =? 0x379 then (0x80, d)
  else if port =? 0x64 then (match kbd with [] => 0 | _ => 1 end, d)
  else if port =? 0x60 then (hd 0 kbd, (ser, tl kbd))
  else (0, d).
Definition lines_out (port v : Z) (d : lines) : lines := d.

(** A screen with the cursor at [pos], an empty input buffer at its last index. *)
Definition start_with (cells : gmap Z Z) (d : lines) (pos : Z) : console :=
  mk_console d true CGA_BASE cells pos 0 (replicate 512 0) 511 511.
Definition start : lines -> Z -> console := start_with (map_seqZ 0 (replicate 2000 blank)).

Lemma start_input_ok cells d pos : input_ok (start_with cells d pos).
Proof. split; [vm_compute; reflexivity|]. vm_compute. repeat split; discriminate. Qed.

Lemma start_shows d pos : 0 <= pos < CRT_SIZE -> shows (start d pos) (fun _ => blank, pos).
Proof.
  intros Hp. split; [done|]. split; [done|]. intros i Hi. split; [|by vm_compute].
  unfold start, start_with. cbn [crt_buf fst]. apply lookup_map_seqZ_Some. split; [lia|].
  apply lookup_replicate. split; [done|]. unfold CRT_SIZE, CRT_COLS in Hi. lia.
Qed.

(** What a source delivers, by running it. *)
Fixpoint deliver {D} (fuel : nat) (proc : M (@console D) Z) (s : console) : option (list Z * console) :=
  match fuel with
  | O => None
  | S fuel' =>
      match proc s with
      | Ok (c, s1) =>
          if c =? -1 then Some ([], s1)
          else match deliver fuel' proc s1 with
               | Some (cs, s') => Some (if c =? 0 then cs else c :: cs, s')
               | None => None
               end
      | Err _ => None
      end
  end.

Lemma deliver_ok {D} fuel (proc : M (@console D) Z) : forall s cs s',
  deliver fuel proc s = Some (cs, s') -> delivers proc s cs s'.
Proof.
  induction fuel as [|fuel IH]; intros s cs s' H; cbn in H; [done|].
  destruct (proc s) as [[c s1]|] eqn:Hr; [|done].
  destruct (Z.eqb_spec c (-1)) as [->|Hm]; [injection H as <- <-; by constructor|].
  destruct (deliver fuel proc s1) as [[cs' s2]|] eqn:Hd; [|done]. injection H as <- <-.
  destruct (Z.eqb_spec c 0) as [->|H0]; [eapply delivers_none|eapply delivers_char]; eauto.
Qed.

(** "o" on the serial line; then Shift, "k" and their releases on the keyboard. *)
Definition typing : console := start_with empty ([111], [0x2A; 0x25; 0xA5; 0xAA]) 0.
Definition proc_serial := serial_proc_data lines_in.
Definition proc_kbd := kbd_proc_data lines_in lines_out (ret tt).
Definition typing_served : console :=
  match deliver 9 proc_serial typing with Some (_, s) => s | None => typing end.
Definition typing_done : console :=
  match deliver 9 proc_kbd typing_served with Some (_, s) => s | None => typing end.

Lemma typing_serial : deliver 9 proc_serial typing = Some ([111], typing_served).
Proof. vm_compute. reflexivity. Qed.
Lemma typing_kbd : deliver 9 proc_kbd typing_served = Some ([75], typing_done).
Proof. vm_compute. reflexivity. Qed.

Lemma console_queue_witness : exists n, forall fuel, (n <= fuel)%nat -> exists s',
  cons_getc lines_in lines_out fuel (ret tt) typing = Ok (111, s') /\
  input_ok s' /\ pending s' = [75] /\ same_but_input s' typing_done.
Proof.
  apply (console_queue lines_in lines_out (ret tt) typing [111] typing_served [75] typing_done).
  - done.
  - by intros s s' [= <-].
  - vm_compute. split; [discriminate|reflexivity].
  - apply start_input_ok.
  - exact (deliver_ok _ _ _ _ _ typing_serial).
  - exact (deliver_ok _ _ _ _ _ typing_kbd).
Defined.

(** The 512th pending character empties the buffer. *)
Example full_buffer : fold_left enqueue (replicate 511 97) [] = replicate 511 97 /\
  fold_left enqueue (replicate 512 97) [] = [].
Proof. vm_compute. split; reflexivity. Qed.

(** "Hi", a tab and a newline on the first line. *)
Lemma console_screen_witness : exists s',
  foldr (fun c k => do* cputchar lines_in lines_out c; k) (ret tt) [72; 105; 9; 10] (start ([], []) 0) =
    Ok (tt, s') /\
  shows s' (fold_left (fun sc c => typed_char c sc) [72; 105; 9; 10] (fun _ => blank, 0)) /\
  screen_only (start ([], []) 0) s'.
Proof. apply (console_screen lines_in lines_out). apply start_shows. vm_compute. split; [discriminate|done]. Defined.

Example screen_cells :
  let sc := fold_left (fun sc c => typed_char c sc) [72; 105; 9; 10] (fun _ => blank, 0) in
  map sc.1 [0; 1; 2] = [0x748; 0x769; blank] /\ sc.2 = 80.
Proof. vm_compute. split; reflexivity. Qed.

(** A character in the last cell scrolls. *)
Example screen_scrolls :
  let sc := typed_char 33 (fun _ => blank, 1999) in
  map sc.1 [1919; 1999] = [0x721; blank] /\ sc.2 = 1920.
Proof. vm_compute. split; reflexivity. Qed.

(** With Caps Lock (0x3A) on, "k" (0x25). *)
Definition caps_on : modifiers := mk_modifiers false false false true false false false.
Definition caps : console := set_shift CAPSLOCK (start_with empty ([], [0x25]) 0).
Lemma keyboard_typed_witness : exists s', proc_kbd caps = Ok (75, s') /\ shift s' = word caps_on.
Proof.
  destruct (keyboard_typed lines_in lines_out (ret tt) caps caps_on eq_refl) as (_ & _ & H).
  eexists. split; [exact H|reflexivity].
Defined.

(** Control, Alt and Delete (0x53 after an escape byte), their releases, and "?" with the
    right Shift. *)
Example keyboard_session :
  match deliver 20 proc_kbd (start_with empty ([], [0x1D; 0x38; 0xE0; 0x53; 0xE0; 0xD3; 0xB8; 0x9D; 0x36; 0x35; 0xB5; 0xB6]) 0) with
  | Some (cs, s) => cs = [0xE9; 63] /\ shift s = 0
  | None => False
  end.
Proof. vm_compute. split; reflexivity. Qed.
