(* ===== verification/Kdebug.v ===== *)
(** The kernel debugger's symbol lookup, [mit6.828/lab/kern/kdebug.c]: the binary
    search over the stabs table and the information it gives about an address.
    The stabs and string tables the linker builds are parameters. *)
From Stdlib Require Import ZArith Lia.
From S2P Require Import Prelude JosString.
Open Scope Z_scope.

Record Stab : Type := mk_stab {
  n_strx : Z;
  n_type : Z;
  n_other : Z;
  n_desc : Z;
  n_value : Z
}.

Definition N_FUN : Z := 0x24.
Definition N_SO : Z := 0x64.
Definition N_SOL : Z := 0x84.
Definition N_PSYM : Z := 0xa0.

(** [stabs[i]]; the table is the part of memory that is known. *)
Definition stab_at (stabs : list Stab) (i : Z) : res Stab :=
  if i <? 0 then Err BadAccess
  else match stabs !! Z.to_nat i with Some e => Ok e | None => Err BadAccess end.

(** [while (m >= l && stabs[m].n_type != type) m--;] with [n] entries left down to [l] *)
Fixpoint earlier (stabs : list Stab) (type : Z) (n : nat) (m : Z) : res Z :=
  match n with
  | O => Ok m
  | S n' =>
      let? e := stab_at stabs m in
      if n_type e =? type then Ok m else earlier stabs type n' (m - 1)
  end.

(** The variables of the search. *)
Record search : Type := mk_search {
  sl : Z;
  sr : Z;
  any_matches : bool;
  region_left : Z;
  region_right : Z;
  saddr : Z
}.

(** One turn of the loop. *)
Definition search_step (stabs : list Stab) (type : Z) (s : search) : res search :=
  let true_m := Z.quot (s32 (sl s + sr s)) 2 in
  let? m := earlier stabs type (Z.to_nat (true_m - sl s + 1)) true_m in
  if m <? sl s then
    Ok (mk_search (true_m + 1) (sr s) (any_matches s) (region_left s) (region_right s) (saddr s))
  else
    let? e := stab_at stabs m in
    if n_value e <? saddr s then
      Ok (mk_search (true_m + 1) (sr s) true m (region_right s) (saddr s))
    else if saddr s <? n_value e then
      Ok (mk_search (sl s) (m - 1) true (region_left s) (m - 1) (saddr s))
    else Ok (mk_search m (sr s) true m (region_right s) (u32 (saddr s + 1))).

Fixpoint search_loop (fuel : nat) (stabs : list Stab) (type : Z) (s : search) : res search :=
  if sl s <=? sr s then
    match fuel with
    | O => Err OutOfFuel
    | S fuel' => let? s' := search_step stabs type s in search_loop fuel' stabs type s'
    end
  else Ok s.

(** [*region_left] and [*region_right], before and after. *)
Definition stab_binsearch (fuel : nat) (stabs : list Stab) (left right type addr : Z) : res (Z * Z) :=
  let? s := search_loop fuel stabs type (mk_search left right false left right addr) in
  if any_matches s then
    let? l := earlier stabs type (Z.to_nat (region_right s - region_left s)) (region_right s) in
    Ok (l, region_right s)
  else Ok (region_left s, region_left s - 1).

(** ** Information about an instruction address *)

Definition ULIM : Z := 0xef800000.

Record Eipdebuginfo : Type := mk_eip {
  eip_file : Z;
  eip_line : Z;
  eip_fn_name : Z;
  eip_fn_namelen : Z;
  eip_fn_addr : Z;
  eip_fn_narg : Z
}.

(** The filename stab at or before [lline], from [lfile] on. *)
Fixpoint filename_stab (stabs : list Stab) (n : nat) (lline : Z) : res Z :=
  match n with
  | O => Ok lline
  | S n' =>
      let? e := stab_at stabs lline in
      if negb (n_type e =? N_SOL) && (negb (n_type e =? N_SO) || (n_value e =? 0))
      then filename_stab stabs n' (lline - 1) else Ok lline
  end.

(** The parameter stabs from [lline] on. *)
Fixpoint count_args (stabs : list Stab) (n : nat) (lline : Z) : res Z :=
  match n with
  | O => Ok 0
  | S n' =>
      let? e := stab_at stabs lline in
      if n_type e =? N_PSYM then let? k := count_args stabs n' (lline + 1) in Ok (k + 1) else Ok 0
  end.

Section kdebug.
(** [__STAB_BEGIN__] up to [__STAB_END__], the bounds of the string table, the
    literal ["<unknown>"], and [panic]. *)
Context (stabs : list Stab) (stabstr stabstr_end unknown : Z) (panic : fault).

(** [info] after the call and what it returns; the memory is read only. *)
Definition debuginfo_eip (fuel : nat) (mem : memory) (addr : Z) : res (Z * Eipdebuginfo) :=
  let info := mk_eip unknown 0 unknown 9 addr 0 in
  if addr <? ULIM then Err panic
  else if stabstr_end <=? stabstr then Ok (-1, info)
  else match load_char (stabstr_end - 1) mem with
  | Err e => Err e
  | Ok (last, _) =>
    if negb (last =? 0) then Ok (-1, info)
    else
      let? (lfile, rfile) :=
        stab_binsearch fuel stabs 0 (Z.of_nat (length stabs) - 1) N_SO addr in
      if lfile =? 0 then Ok (-1, info)
      else
        let? (lfun, rfun) := stab_binsearch fuel stabs lfile rfile N_FUN addr in
        let? (name, fn_addr, lline) :=
          (if lfun <=? rfun then
             let? e := stab_at stabs lfun in
             Ok (if n_strx e <? u32 (stabstr_end - stabstr) then stabstr + n_strx e else unknown,
                 n_value e, lfun)
           else Ok (unknown, addr, lfile)) in
        match strfind fuel name 58 mem with
        | Err e => Err e
        | Ok (colon, _) =>
          let? lline := filename_stab stabs (Z.to_nat (lline - lfile + 1)) lline in
          let? file :=
            (if lfile <=? lline then
               let? e := stab_at stabs lline in
               Ok (if n_strx e <? u32 (stabstr_end - stabstr) then stabstr + n_strx e else unknown)
             else Ok unknown) in
          let? narg :=
            (if lfun <? rfun then count_args stabs (Z.to_nat (rfun - lfun - 1)) (lfun + 1) else Ok 0) in
          Ok (0, mk_eip file 0 name (colon - name) fn_addr narg)
        end
  end.
End kdebug.
