(* ===== verification/KdebugSpec.v ===== *)
(** The stabs search of [Kdebug]: it brackets the address among the stabs of the
    type asked for, when their addresses increase. *)
From Stdlib Require Import ZArith Lia.
From S2P Require Import Prelude JosString JosStringSpec Kdebug.
Open Scope Z_scope.

Section search.
Context (stabs : list Stab) (type : Z).

(** Entry [i] is a stab of the type, with value [v]. *)
Definition stab_of (i v : Z) : Prop :=
  exists e, stab_at stabs i = Ok e /\ n_type e = type /\ n_value e = v.

Lemma stab_at_ok i : 0 <= i < Z.of_nat (length stabs) -> exists e, stab_at stabs i = Ok e.
Proof.
  intros Hi. unfold stab_at. rewrite (proj2 (Z.ltb_ge i 0)) by lia.
  destruct (lookup_lt_is_Some_2 stabs (Z.to_nat i)) as [e He]; [lia|]. rewrite He. by exists e.
Qed.

Lemma stab_of_fun i v v' : stab_of i v -> stab_of i v' -> v = v'.
Proof. intros (e & He & _ & <-) (e' & He' & _ & <-). congruence. Qed.

(** Going back stops at the last stab of the type, or after [n] entries. *)
Lemma earlier_ok n : forall m, Z.of_nat n <= m + 1 -> m < Z.of_nat (length stabs) ->
  exists k, earlier stabs type n m = Ok k /\ m - Z.of_nat n <= k <= m /\
    (forall i v, k < i <= m -> ~ stab_of i v) /\
    (m - Z.of_nat n < k -> exists v, stab_of k v).
Proof.
  induction n as [|n IH]; intros m Hn Hm; cbn [earlier].
  - exists m. split; [done|]. split; [lia|]. split; [intros; lia|lia].
  - destruct (stab_at_ok m) as [e He]; [lia|]. rewrite He. cbn [rbind].
    destruct (Z.eqb_spec (n_type e) type) as [Ht|Ht].
    + exists m. split; [done|]. split; [lia|]. split; [intros; lia|]. intros _. by exists (n_value e), e.
    + destruct (IH (m - 1)) as (k & Hk & Hr & Hno & Hyes); [lia..|].
      exists k. split; [done|]. split; [lia|]. split; [|intros; apply Hyes; lia].
      intros i v Hi. destruct (Z.eq_dec i m) as [->|]; [|apply Hno; lia].
      intros (e' & He' & Ht' & _). congruence.
Qed.

(** ** The loop *)

(** The region searched, the address, and what is known of the stabs in it. *)
Context (L R addr : Z).
Context (Hregion : 0 <= L /\ L <= R + 1 /\ R < Z.of_nat (length stabs) /\ Z.of_nat (length stabs) <= 2 ^ 30).
Context (Haddr : 0 <= addr < 2 ^ 32 - 1).
Context (Hsorted : forall i j v w, L <= i -> i < j -> j <= R -> stab_of i v -> stab_of j w -> v < w).
(** No stab of the type directly after one at the address itself. *)
Context (Hgap : forall i j, L <= i <= R -> L <= j <= R -> stab_of i addr -> ~ stab_of j (addr + 1)).

Definition below_l (s : search) : Prop := forall i v, L <= i < sl s -> stab_of i v -> v <= addr.
Definition above_r (s : search) : Prop := forall i v, sr s < i <= R -> stab_of i v -> addr < v.

Record searching (s : search) : Prop := mk_searching {
  in_region : L <= sl s /\ sl s <= sr s + 1 /\ sr s <= R;
  below : below_l s;
  above : above_r s;
  right_is_r : region_right s = sr s;
  right_edge : sr s = R \/ exists v, stab_of (sr s + 1) v;
  left_matches : region_left s = L \/
    (L <= region_left s <= sr s /\ exists v, stab_of (region_left s) v /\ v <= addr);
  addr_now : saddr s = addr \/
    (saddr s = addr + 1 /\ exists i, L <= i <= R /\ stab_of i addr);
  none_yet : any_matches s = false ->
    region_left s = L /\ sr s = R /\ forall i v, L <= i < sl s -> ~ stab_of i v;
  some_yet : any_matches s = true -> exists i v, L <= i <= R /\ stab_of i v
}.

Definition measure (s : search) : Z :=
  2 * (sr s + 1 - sl s) + (if saddr s =? addr then 1 else 0).

Lemma addr_value s v i : searching s -> L <= i <= R -> stab_of i v ->
  (v < saddr s -> v <= addr) /\ (saddr s < v -> addr < v) /\ (v = saddr s -> saddr s = addr).
Proof.
  intros Hs Hi Hv. destruct (addr_now s Hs) as [->|(-> & k & Hk & Hv')]; [lia|].
  split; [lia|]. split; [lia|]. intros ->. by destruct (Hgap k i Hk Hi Hv').
Qed.

Lemma search_step_ok s : searching s -> sl s <= sr s ->
  exists s', search_step stabs type s = Ok s' /\ searching s' /\ measure s' < measure s.
Proof.
  intros Hs Hlr. destruct Hregion as (HL & _ & HR & Hlen).
  destruct (in_region s Hs) as (Hl & _ & Hr). unfold search_step.
  rewrite (wraps_small 32 (sl s + sr s)) by bound_lia.
  rewrite Z.quot_div_nonneg by lia. set (tm := (sl s + sr s) / 2).
  assert (Htm : sl s <= tm <= sr s).
  { unfold tm. split; [apply Z.div_le_lower_bound|apply Z.div_le_upper_bound]; lia. }
  destruct (earlier_ok (Z.to_nat (tm - sl s + 1)) tm) as (m & -> & Hm & Hno & Hyes); [lia..|].
  cbn [rbind]. replace (tm - Z.of_nat (Z.to_nat (tm - sl s + 1))) with (sl s - 1) in * by lia.
  destruct (Z.ltb_spec m (sl s)) as [Hlt|Hge].
  - eexists. split; [done|]. split; [|unfold measure; cbn; lia].
    destruct Hs as [_ Hb Ha H3 Hedge H4 H5 H6 H7]. constructor; cbn; try done; [lia| |].
    + intros i v Hi Hv. cbn in Hi. destruct (Z.lt_ge_cases i (sl s)); [apply (Hb i v); [lia|done]|].
      destruct (Hno i v); [lia|done].
    + intros Hany. destruct (H6 Hany) as (? & ? & Hn). split; [done|]; split; [done|].
      intros i v Hi. destruct (Z.lt_ge_cases i (sl s)); [apply Hn|apply Hno]; lia.
  - destruct (Hyes ltac:(lia)) as (v & Hv). destruct Hv as (e & He & Ht & <-).
    assert (Hv : stab_of m (n_value e)) by (by exists e).
    rewrite He. cbn [rbind].
    destruct (addr_value s (n_value e) m Hs ltac:(lia) Hv) as (Hlt & Hgt & Heq).
    assert (Hbelow : n_value e <= addr -> forall i v, L <= i <= tm -> stab_of i v -> v <= addr).
    { intros Hle i v Hi Hvi. destruct (Z.lt_trichotomy i m) as [?|[->|?]].
      - assert (v < n_value e) by (apply (Hsorted i m); auto; lia). lia.
      - by rewrite (stab_of_fun m v (n_value e)).
      - destruct (Hno i v); [lia|done]. }
    destruct Hs as [_ Hb Ha H3 Hedge H4 H5 H6 H7].
    destruct (Z.ltb_spec (n_value e) (saddr s)); [|destruct (Z.ltb_spec (saddr s) (n_value e))];
      (eexists; split; [done|]).
    + split; [|unfold measure; cbn; lia]. constructor; cbn; try done; [lia| |right; split; [lia|exists (n_value e); auto]|by intros _; exists m, (n_value e); split; [lia|]].
      intros i v Hi. cbn in Hi. apply Hbelow; lia.
    + split; [|unfold measure; cbn; lia]. constructor; cbn; try done; [lia| |right; exists (n_value e); by replace (m - 1 + 1) with m by lia|destruct H4 as [?|(? & v & ? & ?)]|by intros _; exists m, (n_value e); split; [lia|]].
      * intros i v Hi Hvi. cbn in Hi. destruct (Z.lt_trichotomy i m) as [?|[->|?]]; [lia| |].
        -- rewrite (stab_of_fun m v (n_value e)); auto.
        -- assert (n_value e < v) by (apply (Hsorted m i); auto; lia). lia.
      * by left.
      * right. split; [|eauto]. assert (region_left s < m); [|lia].
        destruct (Z.lt_ge_cases (region_left s) m) as [|Hge']; [done|].
        destruct (Z.eq_dec (region_left s) m) as [Hem|].
        -- rewrite Hem in *. rewrite (stab_of_fun m v (n_value e)) in * by done. lia.
        -- assert (n_value e < v) by (apply (Hsorted m (region_left s)); auto; lia). lia.
    + assert (Hv0 : n_value e = saddr s) by lia. specialize (Heq Hv0). rewrite Heq in *.
      rewrite (wrapu_small 32) by bound_lia.
      split; [|unfold measure; cbn; rewrite Heq, Z.eqb_refl; destruct (Z.eqb_spec (addr + 1) addr); lia].
      constructor; cbn; try done; [lia| |right|right|by intros _; exists m, (n_value e); split; [lia|]].
      * intros i v Hi. cbn in Hi. apply Hbelow; lia.
      * split; [lia|]. exists (n_value e). split; [done|lia].
      * split; [done|]. exists m. split; [lia|]. by rewrite <- Hv0.
Qed.

Lemma stab_loop_ok fuel : forall s, searching s -> measure s <= Z.of_nat fuel ->
  exists s', search_loop fuel stabs type s = Ok s' /\ searching s' /\ sl s' = sr s' + 1.
Proof.
  induction fuel as [|fuel IH]; intros s Hs Hm; cbn [search_loop];
    destruct (in_region s Hs) as (? & ? & ?);
    destruct (Z.leb_spec (sl s) (sr s)) as [Hlr|Hlr].
  - unfold measure in Hm. destruct (_ =? _); lia.
  - exists s. split; [done|]. split; [done|lia].
  - destruct (search_step_ok s Hs Hlr) as (s1 & Hrun & Hs1 & Hlt). rewrite Hrun. cbn [rbind].
    apply IH; [done|lia].
  - exists s. split; [done|]. split; [done|lia].
Qed.

Lemma search_start : searching (mk_search L R false L R addr).
Proof.
  constructor; cbn; try done; [lia| | |by left..|].
  - intros i v Hi. cbn in Hi. lia.
  - intros i v Hi. cbn in Hi. lia.
  - intros _. split; [done|]. split; [done|]. intros; lia.
Qed.

(** The region after the search. *)
Inductive bracket : Z * Z -> Prop :=
  | bracket_none : (forall i v, L <= i <= R -> ~ stab_of i v) -> bracket (L, L - 1)
  | bracket_found m v r : L <= m -> m <= r -> r <= R -> stab_of m v -> v <= addr ->
      (forall i w, m < i <= r -> ~ stab_of i w) ->
      (r = R \/ exists w, stab_of (r + 1) w /\ addr < w) -> bracket (m, r)
  | bracket_before r w : L - 1 <= r -> r < R -> stab_of (r + 1) w -> addr < w ->
      (forall i v, L <= i <= r -> ~ stab_of i v) -> bracket (Z.min L r, r).

Lemma stab_binsearch_ok fuel : 2 * (R + 1 - L) + 1 <= Z.of_nat fuel ->
  exists left right, stab_binsearch fuel stabs L R type addr = Ok (left, right) /\ bracket (left, right).
Proof.
  intros Hfuel. destruct (stab_loop_ok fuel _ search_start) as (s & Hrun & Hs & Hend).
  { unfold measure. cbn. rewrite Z.eqb_refl. lia. }
  unfold stab_binsearch. rewrite Hrun. cbn [rbind].
  destruct Hs as [Hin Hb Ha -> Hedge H4 _ H6 H7]. unfold below_l, above_r in *.
  destruct (any_matches s).
  2: { destruct (H6 eq_refl) as (-> & Hr & Hn). eexists _, _. split; [done|].
       apply bracket_none. intros i v Hi. apply Hn. lia. }
  destruct (H7 eq_refl) as (i0 & v0 & Hi0 & Hv0). clear H6 H7.
  assert (Hr1 : sr s = R \/ exists w, stab_of (sr s + 1) w /\ addr < w).
  { destruct (Z.eq_dec (sr s) R); [by left|]. destruct Hedge as [?|(w & Hw)]; [lia|].
    right. exists w. split; [done|]. apply (Ha (sr s + 1)); [lia|done]. }
  destruct (Z.le_gt_cases (region_left s) (sr s)) as [Hle|Hgt].
  - destruct (earlier_ok (Z.to_nat (sr s - region_left s)) (sr s)) as (k & Hk & Hkr & Hno & Hyes);
      [destruct H4; lia|lia|].
    rewrite Hk. cbn [rbind]. eexists _, _. split; [done|].
    replace (sr s - Z.of_nat (Z.to_nat (sr s - region_left s))) with (region_left s) in * by lia.
    assert (Hkv : (exists v, stab_of k v) \/ (k = L /\ forall i v, L <= i <= sr s -> ~ stab_of i v)).
    { destruct (Z.eq_dec k (region_left s)) as [->|]; [|left; apply Hyes; lia].
      destruct H4 as [Hl|(? & v & ? & ?)]; [rewrite Hl in *|by left; exists v].
      destruct (earlier_ok 1 L) as (k' & _ & Hk' & Hn' & Hy'); [lia..|].
      destruct (Z.eq_dec k' L) as [->|]; [left; apply Hy'; lia|].
      right. split; [done|]. intros i v Hi. destruct (Z.eq_dec i L) as [->|];
        [apply Hn'; lia|apply Hno; lia]. }
    destruct Hkv as [(v & Hv)|[-> Hnone]].
    + apply (bracket_found k v); [destruct H4; lia|lia..|done|apply (Hb k); [|done]|done|done].
      destruct H4; lia.
    + destruct Hr1 as [Hr1|(w & Hw & Hlt)]; [destruct (Hnone i0 v0); [lia|done]|].
      rewrite <- (Z.min_l L (sr s)) at 1 by (destruct H4; lia).
      assert (sr s < R); [|by apply (bracket_before _ w); [lia|..]].
      destruct (Z.eq_dec (sr s) R); [|lia]. destruct (Hnone i0 v0); [lia|done].
  - (* every stab of the type is past [addr]: the region begins with one *)
    destruct H4 as [Hl|]; [|lia]. assert (sr s = L - 1) as Hsr by lia.
    replace (Z.to_nat (sr s - region_left s)) with O by lia. cbn [earlier rbind].
    eexists _, _. split; [done|].
    destruct Hr1 as [Hr1|(w & Hw & Hlt)]; [lia|].
    rewrite <- (Z.min_r L (sr s)) at 1 by lia.
    apply (bracket_before _ w); [lia| |done|done|intros; lia].
    destruct (Z.eq_dec (sr s) R); lia.
Qed.
End search.

(** ** Properties *)

(** The stabs of the type in [L, R] have increasing addresses, and none is at
    [addr + 1] when one is at [addr]. *)
Record increasing (stabs : list Stab) (type L R addr : Z) : Prop := mk_increasing {
  region_ok : 0 <= L /\ L <= R + 1 /\ R < Z.of_nat (length stabs) /\ Z.of_nat (length stabs) <= 2 ^ 30;
  address_ok : 0 <= addr < 2 ^ 32 - 1;
  values_increase : forall i j v w, L <= i -> i < j -> j <= R ->
    stab_of stabs type i v -> stab_of stabs type j w -> v < w;
  no_neighbour : forall i j, L <= i <= R -> L <= j <= R ->
    stab_of stabs type i addr -> ~ stab_of stabs type j (addr + 1)
}.

Lemma increasing_sub stabs type L R addr L' R' : increasing stabs type L R addr ->
  L <= L' -> L' <= R' + 1 -> R' <= R -> increasing stabs type L' R' addr.
Proof.
  intros [H1 H2 H3 H4] ???. constructor; [lia|done| |].
  - intros i j v w ???. apply H3; lia.
  - intros i j ??. apply H4; lia.
Qed.

Lemma binsearch_ok stabs type L R addr fuel : increasing stabs type L R addr ->
  2 * (R + 1 - L) + 1 <= Z.of_nat fuel ->
  exists left right, stab_binsearch fuel stabs L R type addr = Ok (left, right) /\
    bracket stabs type L R addr (left, right).
Proof. intros [H1 H2 H3 H4] Hf. by apply stab_binsearch_ok. Qed.

(** [m] is the last stab of the type in [L, R] that is not past [addr]. *)
Definition last_stab (stabs : list Stab) (type L R addr m v : Z) : Prop :=
  L <= m <= R /\ stab_of stabs type m v /\ v <= addr /\
  forall i w, m < i <= R -> stab_of stabs type i w -> addr < w.
(** The stabs after [m] up to [r] are those before the next stab of the type. *)
Definition up_to_next (stabs : list Stab) (type R m r : Z) : Prop :=
  m <= r <= R /\ (forall i w, m < i <= r -> ~ stab_of stabs type i w) /\
  (r = R \/ exists w, stab_of stabs type (r + 1) w).

Lemma bracket_last stabs type L R addr left right m v : increasing stabs type L R addr ->
  bracket stabs type L R addr (left, right) -> last_stab stabs type L R addr m v ->
  left = m /\ up_to_next stabs type R m right.
Proof.
  intros [_ _ Hs _] Hb (Hm & Hv & Hle & Hlast).
  assert (Hpast : forall r w, L - 1 <= r -> stab_of stabs type (r + 1) w -> addr < w -> r < m -> False).
  { intros r w Hr Hw Hlt Hrm. destruct (Z.eq_dec (r + 1) m) as [<-|].
    - rewrite (stab_of_fun _ _ _ _ _ Hw Hv) in Hlt. lia.
    - assert (w < v) by (apply (Hs (r + 1) m); auto; lia). lia. }
  inversion Hb as [Hn|m' v' r Hm' Hr HR Hv' Hle' Hno Hend|r w Hr HR Hw Hlt Hno]; subst.
  - by destruct (Hn m v Hm).
  - assert (left = m) as ->.
    { destruct (Z.lt_trichotomy left m) as [Hlt|[?|Hlt]]; [|done|].
      - exfalso. destruct (Z.le_gt_cases m right); [by apply (Hno m v); [lia|]|].
        destruct Hend as [->|(w & Hw & Hgt)]; [lia|]. apply (Hpast right w); auto; lia.
      - assert (addr < v') by (apply (Hlast left); [lia|done]). lia. }
    split; [done|]. split; [lia|]. split; [done|]. destruct Hend as [?|(w & ? & _)]; eauto.
  - exfalso. destruct (Z.le_gt_cases m right); [by apply (Hno m v); [lia|]|].
    apply (Hpast right w); auto; lia.
Qed.

(** *** What [debuginfo_eip] finds *)

Definition is_filename (e : Stab) : Prop :=
  n_type e = N_SOL \/ (n_type e = N_SO /\ n_value e <> 0).

Lemma filename_stab_ok stabs n : forall l k e, k <= l < Z.of_nat (length stabs) -> 0 <= k ->
  stab_at stabs k = Ok e -> is_filename e -> l - k < Z.of_nat n ->
  (forall i e', k < i <= l -> stab_at stabs i = Ok e' -> ~ is_filename e') ->
  filename_stab stabs n l = Ok k.
Proof.
  induction n as [|n IH]; intros l k e Hl Hk He Hfn Hn Hno; [lia|]. cbn [filename_stab].
  destruct (Z.eq_dec l k) as [->|].
  - rewrite He. cbn [rbind]. destruct Hfn as [->|[-> Hv]]; [done|].
    change (N_SO =? N_SOL) with false. change (N_SO =? N_SO) with true.
    by rewrite (proj2 (Z.eqb_neq _ _) Hv).
  - destruct (stab_at_ok stabs l) as [e' He']; [lia|]. rewrite He'. cbn [rbind].
    assert (Hnf : ~ is_filename e') by (apply (Hno l); [lia|done]).
    destruct (_ && _) eqn:Hc; [apply (IH _ _ e); auto; [lia..|intros i ??; apply Hno; lia]|].
    destruct Hnf. unfold is_filename. apply andb_false_iff in Hc as [Hc%negb_false_iff%Z.eqb_eq|Hc]; [by left|].
    apply orb_false_iff in Hc as [Hc%negb_false_iff%Z.eqb_eq Hv%Z.eqb_neq]. by right.
Qed.

(** [k] parameters follow, [n] at most. *)
Definition params_after (stabs : list Stab) (l n k : Z) : Prop :=
  0 <= k <= Z.max 0 n /\ (forall i, l <= i < l + k -> exists e, stab_at stabs i = Ok e /\ n_type e = N_PSYM) /\
  (k < n -> exists e, stab_at stabs (l + k) = Ok e /\ n_type e <> N_PSYM).

Lemma count_args_ok stabs n : forall l, 0 <= l -> l + Z.of_nat n <= Z.of_nat (length stabs) ->
  exists k, count_args stabs n l = Ok k /\ params_after stabs l (Z.of_nat n) k.
Proof.
  induction n as [|n IH]; intros l Hl Hn; cbn [count_args].
  - exists 0. split; [done|]. split; [lia|]. split; [intros; lia|lia].
  - destruct (stab_at_ok stabs l) as [e He]; [lia|]. rewrite He. cbn [rbind].
    destruct (Z.eqb_spec (n_type e) N_PSYM) as [Ht|Ht].
    + destruct (IH (l + 1)) as (k & -> & Hk & Hall & Hend); [lia..|]. exists (k + 1).
      split; [done|]. split; [lia|]. split.
      * intros i Hi. destruct (Z.eq_dec i l) as [->|]; [by exists e|apply Hall; lia].
      * intros Hlt. replace (l + (k + 1)) with (l + 1 + k) by lia. apply Hend. lia.
    + exists 0. split; [done|]. split; [lia|]. split; [intros; lia|]. intros _. rewrite Z.add_0_r. by exists e.
Qed.

Lemma up_to_next_unique stabs type R m r r' :
  up_to_next stabs type R m r -> up_to_next stabs type R m r' -> r = r'.
Proof.
  intros (? & Hn & Hr) (? & Hn' & Hr'). destruct (Z.lt_trichotomy r r') as [?|[?|?]]; [|done|].
  - destruct Hr as [?|(w & Hw)]; [lia|]. destruct (Hn' (r + 1) w); [lia|done].
  - destruct Hr' as [?|(w & Hw)]; [lia|]. destruct (Hn (r' + 1) w); [lia|done].
Qed.

Lemma binsearch_last stabs type L R addr fuel m v r : increasing stabs type L R addr ->
  2 * (R + 1 - L) + 1 <= Z.of_nat fuel -> last_stab stabs type L R addr m v ->
  up_to_next stabs type R m r -> stab_binsearch fuel stabs L R type addr = Ok (m, r).
Proof.
  intros Hi Hf Hm Hr. destruct (binsearch_ok _ _ _ _ _ _ Hi Hf) as (l & r' & -> & Hb).
  destruct (bracket_last _ _ _ _ _ _ _ _ _ Hi Hb Hm) as [-> Hr'].
  by rewrite (up_to_next_unique _ _ _ _ _ _ Hr Hr').
Qed.

Section debuginfo.
Context (stabs : list Stab) (stabstr stabstr_end unknown : Z) (panic : fault).
Context (mem : memory) (addr : Z).
(** The string table is not empty and ends in a NUL. *)
Context (Htable : stabstr < stabstr_end < 2 ^ 32) (H0 : 0 <= stabstr) (Hnul : mem !! (stabstr_end - 1) = Some 0).

Local Abbreviation last := (Z.of_nat (length stabs) - 1).

Lemma debuginfo_ok f vf r g vg s e k ek name fuel :
  ULIM <= addr ->
  increasing stabs N_SO 0 last addr -> increasing stabs N_FUN 0 last addr ->
  last_stab stabs N_SO 0 last addr f vf -> 0 < f -> up_to_next stabs N_SO last f r ->
  last_stab stabs N_FUN f r addr g vg -> up_to_next stabs N_FUN r g s ->
  stab_at stabs g = Ok e -> n_strx e < stabstr_end - stabstr -> cstr mem (stabstr + n_strx e) name ->
  f <= k <= g -> stab_at stabs k = Ok ek -> is_filename ek -> n_strx ek < stabstr_end - stabstr ->
  (forall i e', k < i <= g -> stab_at stabs i = Ok e' -> ~ is_filename e') ->
  (2 * length stabs + length name + 2 <= fuel)%nat ->
  exists narg, params_after stabs (g + 1) (s - g - 1) narg /\
  debuginfo_eip stabs stabstr stabstr_end unknown panic fuel mem addr =
    Ok (0, mk_eip (stabstr + n_strx ek) 0 (stabstr + n_strx e)
             (default (zlength name) (char_index 58 name)) vg narg).
Proof.
  intros Hu Hso Hfun Hf Hf0 Hr Hg Hs He Hstrx Hname Hk Hek Hfn Hstrx' Hno Hfuel.
  pose proof (region_ok _ _ _ _ _ Hso) as Hlen. pose proof Hf as (Hfr & _). pose proof Hg as (Hgr & Hvg & _).
  pose proof Hr as (Hrr & _). pose proof Hs as (Hsr & _).
  assert (Hsub : increasing stabs N_FUN f r addr) by (eapply increasing_sub; [done|lia..]).
  assert (Hnarg : exists narg, params_after stabs (g + 1) (s - g - 1) narg /\
    (if g <? s then count_args stabs (Z.to_nat (s - g - 1)) (g + 1) else Ok 0) = Ok narg).
  { destruct (Z.ltb_spec g s).
    - destruct (count_args_ok stabs (Z.to_nat (s - g - 1)) (g + 1)) as (n & ? & Hp); [lia..|].
      exists n. rewrite Z2Nat.id in Hp by lia. done.
    - exists 0. split; [|done]. split; [lia|]. split; intros; lia. }
  destruct Hnarg as (narg & Hp & Hnarg). exists narg. split; [done|]. unfold debuginfo_eip.
  rewrite (proj2 (Z.ltb_ge addr ULIM)), (proj2 (Z.leb_gt stabstr_end stabstr)) by lia.
  unfold load_char. rewrite (bind_ok _ _ _ _ _ (load_run _ _ _ Hnul)). cbn [ret].
  change (negb (s8 0 =? 0)) with false. cbn iota.
  rewrite (binsearch_last _ _ _ _ _ _ f vf r Hso) by (done || lia). cbn [rbind].
  rewrite (proj2 (Z.eqb_neq f 0)) by lia.
  rewrite (binsearch_last _ _ _ _ _ _ g vg s Hsub) by (done || lia). cbn [rbind].
  rewrite (proj2 (Z.leb_le g s)) by lia. rewrite He. cbn [rbind].
  rewrite (wrapu_small 32 (stabstr_end - stabstr)) by bound_lia.
  rewrite (proj2 (Z.ltb_lt _ _) Hstrx).
  destruct (strchr_ok mem _ name fuel 58 Hname) as [_ ->]; [lia|].
  rewrite (filename_stab_ok _ _ _ k ek) by (done || lia). cbn [rbind].
  rewrite (proj2 (Z.leb_le f k)), Hek by lia. cbn [rbind].
  rewrite (proj2 (Z.ltb_lt _ _) Hstrx'). rewrite Hnarg. cbn [rbind].
  destruct Hvg as (e2 & He2 & _ & <-). replace e2 with e by congruence.
  do 3 f_equal. destruct (char_index 58 name); cbn [default from_option id]; lia.
Qed.
End debuginfo.

(** the search ends and brackets the address: without a stab of the type it
    returns an empty region, otherwise the region starts at the last stab that is
    not past the address and ends before the next stab of the type.  When every
    stab of the type is past the address the region ends before the first. *)
Theorem stab_binsearch_brackets stabs type left right addr fuel :
  increasing stabs type left right addr -> 2 * (right + 1 - left) + 1 <= Z.of_nat fuel ->
  exists l r, stab_binsearch fuel stabs left right type addr = Ok (l, r) /\
    bracket stabs type left right addr (l, r) /\
    (forall m v, last_stab stabs type left right addr m v ->
       l = m /\ up_to_next stabs type right m r).
Proof.
  intros Hi Hf. destruct (binsearch_ok _ _ _ _ _ _ Hi Hf) as (l & r & Hrun & Hb).
  exists l, r. split; [done|]. split; [done|]. intros m v. by apply bracket_last.
Qed.

(** C33: for an address in a function, [debuginfo_eip] returns 0 with the name of the
    last function stab not past the address in its source file, up to a colon, the
    value of that stab, the file of the last file name stab before it, and the
    number of parameter stabs that follow it up to the last stab of the function,
    which is not looked at.  The stabs of a type are to have increasing addresses,
    and no two of them neighbouring ones of which the address is the first
    ([increasing]), where the search goes wrong.  The line number is 0 and the result is
    0 whatever line stabs there are: the search for the line, which the comments of
    [kdebug.c] call for with -1 as its failure, is not written. *)
Theorem debuginfo_eip_function stabs stabstr stabstr_end unknown panic mem addr
    f vf r g vg s e k ek name fuel :
  stabstr < stabstr_end < 2 ^ 32 -> 0 <= stabstr -> mem !! (stabstr_end - 1) = Some 0 ->
  ULIM <= addr ->
  increasing stabs N_SO 0 (Z.of_nat (length stabs) - 1) addr ->
  increasing stabs N_FUN 0 (Z.of_nat (length stabs) - 1) addr ->
  last_stab stabs N_SO 0 (Z.of_nat (length stabs) - 1) addr f vf -> 0 < f ->
  up_to_next stabs N_SO (Z.of_nat (length stabs) - 1) f r ->
  last_stab stabs N_FUN f r addr g vg -> up_to_next stabs N_FUN r g s ->
  stab_at stabs g = Ok e -> n_strx e < stabstr_end - stabstr -> cstr mem (stabstr + n_strx e) name ->
  f <= k <= g -> stab_at stabs k = Ok ek -> is_filename ek -> n_strx ek < stabstr_end - stabstr ->
  (forall i e', k < i <= g -> stab_at stabs i = Ok e' -> ~ is_filename e') ->
  (2 * length stabs + length name + 2 <= fuel)%nat ->
  exists narg, params_after stabs (g + 1) (s - g - 1) narg /\
  debuginfo_eip stabs stabstr stabstr_end unknown panic fuel mem addr =
    Ok (0, mk_eip (stabstr + n_strx ek) 0 (stabstr + n_strx e)
             (default (zlength name) (char_index 58 name)) vg narg).
Proof. intros. by eapply debuginfo_ok. Qed.

(** * The stabs search and [debuginfo_eip] on concrete tables. *)
Open Scope Z_scope.

(** The table of the comment in [kdebug.c]: N_SO stabs among line stabs. *)
Definition comment_stabs : list Stab :=
  map (fun i =>
    match list_find (fun p => p.1 = i)
      [(0, 0xf0100000); (13, 0xf0100040); (117, 0xf0100176); (118, 0xf0100178);
       (555, 0xf0100652); (556, 0xf0100654); (657, 0xf0100849)] with
    | Some (_, (_, v)) => mk_stab 0 N_SO 0 0 v
    | None => mk_stab 0 0x44 0 0 0
    end) (seqZ 0 658).

Example comment_search : stab_binsearch 2000 comment_stabs 0 657 N_SO 0xf0100184 = Ok (118, 554).
Proof. vm_compute. reflexivity. Qed.

(** Stabs of the type at an address and directly after it: searching the first finds
    the second, because the search goes on with the next address. *)
Example neighbour_search :
  stab_binsearch 20 [mk_stab 0 N_FUN 0 0 10; mk_stab 0 N_FUN 0 0 11] 0 1 N_FUN 10 = Ok (1, 1).
Proof. reflexivity. Qed.

(** Every stab past the address: the region is not empty. *)
Example past_search :
  stab_binsearch 20 [mk_stab 0 N_SO 0 0 5; mk_stab 0 0x44 0 0 0; mk_stab 0 N_FUN 0 0 20] 0 2 N_FUN 10
  = Ok (0, 1).
Proof. reflexivity. Qed.

(** A file with two functions, the first with two parameters, and the next file. *)
Definition table : list Stab :=
  [mk_stab 0 0 0 0 0; mk_stab 1 N_SO 0 0 0xf0100000; mk_stab 5 N_FUN 0 0 0xf0100000;
   mk_stab 0 N_PSYM 0 0 8; mk_stab 0 N_PSYM 0 0 12; mk_stab 0 0x44 0 3 4;
   mk_stab 12 N_FUN 0 0 0xf0100040; mk_stab 0 0x44 0 9 0; mk_stab 1 N_SO 0 0 0xf0100100].
(** The string table at 100: "", "a.c", "mn:F12", "f". *)
Definition strings : memory :=
  map_seqZ 100 [0; 97; 46; 99; 0; 109; 110; 58; 70; 49; 50; 0; 102; 0].
Definition eip : Z := 0xf0100010.

(** A parameter stab that ends its function is not counted: one of two is, and the line
    stab of the function gives no line. *)
Definition two_parameters : list Stab :=
  [mk_stab 0 0 0 0 0; mk_stab 1 N_SO 0 0 0xf0100000; mk_stab 5 N_FUN 0 0 0xf0100000;
   mk_stab 0 0x44 0 3 4; mk_stab 12 N_FUN 0 0 0xf0100040; mk_stab 0 N_PSYM 0 0 8; mk_stab 0 N_PSYM 0 0 12;
   mk_stab 1 N_SO 0 0 0xf0100100].
Example last_parameter_uncounted :
  debuginfo_eip two_parameters 100 114 0 AssertFailed 60 strings 0xf0100048 =
    Ok (0, mk_eip 101 0 112 1 0xf0100040 1).
Proof. vm_compute. reflexivity. Qed.
Example line_not_found :
  debuginfo_eip two_parameters 100 114 0 AssertFailed 60 strings eip =
    Ok (0, mk_eip 101 0 105 2 0xf0100000 0).
Proof. vm_compute. reflexivity. Qed.

Definition entries (stabs : list Stab) (type : Z) : list (Z * Z) :=
  omap (fun i => match stab_at stabs i with
                 | Ok e => if n_type e =? type then Some (i, n_value e) else None
                 | Err _ => None end) (seqZ 0 (Z.of_nat (length stabs))).

Lemma stab_of_entries stabs type i v : stab_of stabs type i v -> In (i, v) (entries stabs type).
Proof.
  intros (e & He & Ht & <-). apply list_elem_of_In, list_elem_of_omap. exists i. split.
  - apply elem_of_seqZ. unfold stab_at in He. destruct (Z.ltb_spec i 0); [done|].
    destruct (stabs !! Z.to_nat i) eqn:Hl; [|done]. apply lookup_lt_Some in Hl. lia.
  - by rewrite He, Ht, Z.eqb_refl.
Qed.

(** The entries of [table] of a type, one case each. *)
Ltac table_cases H :=
  apply stab_of_entries in H; vm_compute in H;
  repeat (destruct H as [[= <- <-]|H]); [..|destruct H].

Lemma table_increasing type : type = N_SO \/ type = N_FUN -> increasing table type 0 8 eip.
Proof.
  intros Ht. constructor; [vm_compute; repeat split; congruence|by vm_compute| |].
  - intros i j v w _ Hij _ Hi Hj. destruct Ht as [-> | ->]; table_cases Hi; table_cases Hj; lia.
  - intros i j _ _ Hi Hj. destruct Ht as [-> | ->]; apply stab_of_entries in Hi; vm_compute in Hi;
      intuition congruence.
Qed.

Ltac stab_here := eexists; split; [reflexivity|]; split; reflexivity.

Lemma stab_binsearch_brackets_witness : exists l r,
  stab_binsearch 30 table 0 8 N_FUN eip = Ok (l, r) /\ bracket table N_FUN 0 8 eip (l, r) /\
  (forall m v, last_stab table N_FUN 0 8 eip m v -> l = m /\ up_to_next table N_FUN 8 m r).
Proof. apply (stab_binsearch_brackets table N_FUN 0 8 eip 30); [apply table_increasing; by right|lia]. Defined.

Lemma debuginfo_eip_function_witness : exists narg, params_after table 3 2 narg /\
  debuginfo_eip table 100 114 0 AssertFailed 60 strings eip =
    Ok (0, mk_eip 101 0 105 2 0xf0100000 narg).
Proof.
  apply (debuginfo_eip_function table 100 114 0 AssertFailed strings eip 1 0xf0100000 7 2 0xf0100000 5
    (mk_stab 5 N_FUN 0 0 0xf0100000) 1 (mk_stab 1 N_SO 0 0 0xf0100000) [109; 110; 58; 70; 49; 50]);
    try lia; try reflexivity; try (apply table_increasing; auto; fail).
  - by vm_compute.
  - split; [cbn; lia|]. split; [stab_here|]. split; [by vm_compute|].
    intros i w Hi Hw. table_cases Hw; unfold eip; lia.
  - split; [by vm_compute|]. split; [|right; eexists; stab_here].
    intros i w Hi Hw. table_cases Hw; lia.
  - split; [lia|]. split; [stab_here|]. split; [by vm_compute|].
    intros i w Hi Hw. table_cases Hw; unfold eip; lia.
  - split; [lia|]. split; [|right; eexists; stab_here].
    intros i w Hi Hw. table_cases Hw; lia.
  - vm_compute. repeat split; reflexivity || discriminate.
  - right. by vm_compute.
  - intros i e' Hi He'. assert (i = 2) as -> by lia. injection He' as <-.
    intros [?|[? _]]; discriminate.
  - vm_compute. lia.
Defined.
