(* ===== verification/Trie.v ===== *)
(** The T9 trie and program, [uw_cse374/hw4]: [lib.c], [trie.c] and [t9.c].  Nodes
    live in a heap; a word is its string of octets, in a block of its own.  What
    the program prints is a list of replies, prompts and error messages left out. *)
From Stdlib Require Import ZArith Lia.
From S2P Require Import Prelude Alloc.
Open Scope Z_scope.

(** ** lib.c *)

Record trie_node : Type := mk_node {
  isEnd : bool;
  word : option (list Z);
  child : list (option positive)
}.

Record heap : Type := mk_heap {
  al : mem;
  nodes : gmap positive trie_node
}.

Definition lift {A} (f : M mem A) : M heap A := fun s =>
  match f (al s) with
  | Ok (a, m') => Ok (a, mk_heap m' (nodes s))
  | Err e => Err e
  end.

Definition EXIT_FAILURE : Z := 1.
Definition EXIT_SUCCESS : Z := 0.

Definition guarded_malloc : M heap positive :=
  let* p := lift alloc in
  match p with Some p => ret p | None => fail (Exit EXIT_FAILURE) end.

(** [free] of a block that holds no node. *)
Definition guarded_free (present : bool) : M heap unit :=
  if present then lift (release 1) else fail (Exit EXIT_FAILURE).

Definition load_node (p : positive) : M heap trie_node :=
  let* h := gets nodes in get_or BadAccess (h !! p).
Definition store_node (p : positive) (n : trie_node) : M heap unit :=
  modify (fun s => mk_heap (al s) (<[p := n]> (nodes s))).
Definition free_node (p : positive) : M heap unit :=
  do* load_node p;
  do* guarded_free true;
  modify (fun s => mk_heap (al s) (delete p (nodes s))).

(** ** trie.c *)

Definition create_trie_node (end_ : bool) (w : list Z) : M heap positive :=
  let* node := guarded_malloc in
  let* wd := (if end_ then do* guarded_malloc; ret (Some w) else ret None) in
  do* store_node node (mk_node end_ wd (replicate 9 None));
  ret node.

Definition create_empty_trie : M heap positive := create_trie_node false [].

(** [n->child[i]]; outside the array the access is undefined. *)
Definition get_child (n : trie_node) (i : Z) : M heap (option positive) :=
  if (0 <=? i) && (i <? 9) then get_or BadAccess (child n !! Z.to_nat i) else fail BadAccess.
Definition set_child (n : trie_node) (i : Z) (c : option positive) : trie_node :=
  mk_node (isEnd n) (word n) (<[Z.to_nat i := c]> (child n)).

(** The loop over [nums]: the node it ends at, or [None] when a number is invalid. *)
Fixpoint insert_path (cur : positive) (nums : list Z) : M heap (option positive) :=
  match nums with
  | [] => ret (Some cur)
  | c :: nums' =>
      let num := s8 c - 50 in
      if (num <? 0) || (7 <? num) then ret None
      else
        let* n := load_node cur in
        let* q := get_child n num in
        match q with
        | Some q => insert_path q nums'
        | None =>
            let* q := create_trie_node false [] in
            let* n := load_node cur in
            do* store_node cur (set_child n num (Some q));
            insert_path q nums'
        end
  end.

(** [while (cur->child[8] != NULL) cur = cur->child[8];] *)
Fixpoint last_same (fuel : nat) (cur : positive) : M heap positive :=
  match fuel with
  | O => fail OutOfFuel
  | S fuel' =>
      let* n := load_node cur in
      let* q := get_child n 8 in
      match q with Some q => last_same fuel' q | None => ret cur end
  end.

Definition insert_word (fuel : nat) (root : option positive) (nums w : list Z) : M heap unit :=
  match root with
  | None => ret tt
  | Some root =>
      let* cur := insert_path root nums in
      match cur with
      | None => ret tt
      | Some cur =>
          let* n := load_node cur in
          if negb (isEnd n) then
            do* guarded_malloc;
            store_node cur (mk_node true (Some w) (child n))
          else
            let* cur := last_same fuel cur in
            let* q := create_trie_node true w in
            let* n := load_node cur in
            store_node cur (set_child n 8 (Some q))
      end
  end.

Fixpoint search_trie (cur : option positive) (nums : list Z) : M heap (option positive) :=
  match cur, nums with
  | None, _ => ret None
  | Some p, [] => ret (Some p)
  | Some p, c :: nums' =>
      let ind := if s8 c =? 35 then 8 else s8 c - 50 in
      let* n := load_node p in
      let* q := get_child n ind in
      search_trie q nums'
  end.

(** A line of [print_trie]: the indentation and the node. *)
Inductive printed : Type := PrintWord (cnt : nat) (w : option (list Z)) | PrintInner (cnt : nat)
  | PrintSame (cnt : nat) (w : option (list Z)).

Fixpoint print_same (fuel cnt : nat) (same : option positive) : M heap (list printed) :=
  match fuel, same with
  | _, None => ret []
  | O, Some _ => fail OutOfFuel
  | S fuel', Some p =>
      let* n := load_node p in
      let* next := get_child n 8 in
      let* rest := print_same fuel' cnt next in
      ret (PrintSame cnt (word n) :: rest)
  end.

(** [print] of each child that is there. *)
Fixpoint over_children {A} (print : positive -> M heap (list A)) (cs : list (option positive)) : M heap (list A) :=
  match cs with
  | [] => ret []
  | None :: cs' => over_children print cs'
  | Some p :: cs' =>
      let* out := print p in
      let* outs := over_children print cs' in
      ret (out ++ outs)
  end.

Fixpoint print_trie_helper (fuel cnt : nat) (root : option positive) : M heap (list printed) :=
  match root with
  | None => ret []
  | Some root =>
    match fuel with
    | O => fail OutOfFuel
    | S fuel' =>
        let* n := load_node root in
        let line := if isEnd n then PrintWord cnt (word n) else PrintInner cnt in
        let* same := get_child n 8 in
        let* sames := print_same fuel' cnt same in
        let* below := over_children (fun p => print_trie_helper fuel' (S cnt) (Some p)) (take 8 (child n)) in
        ret (line :: sames ++ below)
    end
  end.

Definition print_trie (fuel : nat) (root : option positive) : M heap (list printed) :=
  print_trie_helper fuel 0 root.

(** The loop over [trie->child], with [k] children left from [i]. *)
Fixpoint delete_children (delete_child : option positive -> M heap unit) (p : positive) (k : nat) (i : Z)
    : M heap unit :=
  match k with
  | O => ret tt
  | S k' =>
      let* n := load_node p in
      let* q := get_child n i in
      do* (match q with Some _ => delete_child q | None => ret tt end);
      delete_children delete_child p k' (i + 1)
  end.

Fixpoint delete_trie (fuel : nat) (trie : option positive) : M heap unit :=
  match trie with
  | None => ret tt
  | Some p =>
    match fuel with
    | O => fail OutOfFuel
    | S fuel' =>
        let* n := load_node p in
        do* (match word n with Some _ => guarded_free true | None => ret tt end);
        do* delete_children (delete_trie fuel') p 9 0;
        free_node p
    end
  end.

(** ** t9.c *)

Definition MAX_LINELEN : Z := 500.

Definition convert (c : Z) : Z :=
  let dist := s8 c - 97 in
  if dist <=? 2 then 50
  else if dist <=? 5 then 51
  else if dist <=? 8 then 52
  else if dist <=? 11 then 53
  else if dist <=? 14 then 54
  else if dist <=? 18 then 55
  else if dist <=? 21 then 56
  else 57.

(** The string in the buffer: up to a NUL, or to the newline that is overwritten. *)
Fixpoint line_word (chunk : list Z) : list Z :=
  match chunk with
  | [] => []
  | c :: chunk' => if (c =? 0) || (c =? 10) then [] else c :: line_word chunk'
  end.

Fixpoint read_lines (fuel : nat) (bytes : list Z) (trie : positive) : M heap unit :=
  match bytes with
  | [] => ret tt
  | _ =>
    match fuel with
    | O => fail OutOfFuel
    | S fuel' =>
        let '(chunk, rest) := fgets_chunk (Z.to_nat (MAX_LINELEN - 1)) bytes in
        let buffer := line_word chunk in
        do* guarded_malloc;
        do* insert_word fuel (Some trie) (map convert buffer) buffer;
        do* guarded_free true;
        read_lines fuel' rest trie
    end
  end.

(** [file]: [None] when it does not open, else its octets and whether reading
    ends in an error. *)
Definition read_data (fuel : nat) (file : option (list Z * bool)) (trie : positive) : M heap bool :=
  match file with
  | None => ret false
  | Some (bytes, error) =>
      do* read_lines fuel bytes trie;
      ret (negb error)
  end.

(** What a round of [main] prints. *)
Inductive reply : Type := NoMore | Found (w : option (list Z)).

(** [strncmp(buf, p, strlen(p)) == 0] *)
Fixpoint starts_with (p buf : list Z) : bool :=
  match p, buf with
  | [], _ => true
  | _, [] => false
  | c :: p', b :: buf' => (b =? c) && starts_with p' buf'
  end.

(** A round with the word [buf] read: the reply and the new [cur]. *)
Definition t9_round (trie : positive) (cur : option positive) (buf : list Z)
    : M heap (reply * option positive) :=
  do* ensure BadAccess (Z.of_nat (length buf) <? MAX_LINELEN);
  if starts_with [35] buf then
    match cur with
    | None => ret (NoMore, None)
    | Some _ =>
        let* cur := search_trie cur [35] in
        match cur with
        | None => ret (NoMore, None)
        | Some p => let* n := load_node p in ret (Found (word n), cur)
        end
    end
  else
    let* cur := search_trie (Some trie) buf in
    match cur with
    | None => ret (NoMore, None)
    | Some p => let* n := load_node p in ret (if isEnd n then Found (word n) else NoMore, cur)
    end.

(** The words typed; the loop never ends when none is "exit". *)
Fixpoint t9_loop (trie : positive) (cur : option positive) (input : list (list Z)) : M heap (list reply) :=
  match input with
  | [] => fail OutOfFuel
  | buf :: input' =>
      if starts_with [101; 120; 105; 116] buf then
        do* ensure BadAccess (Z.of_nat (length buf) <? MAX_LINELEN); ret []
      else
        let* (r, cur) := t9_round trie cur buf in
        let* rs := t9_loop trie cur input' in
        ret (r :: rs)
  end.

(** The exit status and the replies; [file] is what [argv[1]] names. *)
Definition t9_main (fuel : nat) (argc : Z) (file : option (list Z * bool)) (input : list (list Z))
    : M heap (Z * list reply) :=
  if negb (argc =? 2) then ret (EXIT_FAILURE, [])
  else
    let* trie := create_empty_trie in
    let* ok := read_data fuel file trie in
    let* rs := (if (ok : bool) then t9_loop trie None input else ret []) in
    do* delete_trie fuel (Some trie);
    ret (EXIT_SUCCESS, rs).
