(* ===== verification/TrieSpec.v ===== *)
(** The trie of [Trie] as a map from paths to words: inserting a word puts it last
    among the words of its number, and a session of the T9 program answers every
    number with the words of the dictionary that it spells, in their order. *)
From Stdlib Require Import ZArith Lia.
From S2P Require Import Prelude Alloc Trie.
Open Scope Z_scope.

Abbreviation path := (list nat) (only parsing).

(** ** Walking *)

Definition step_to (h : gmap positive trie_node) (p : positive) (d : nat) : option positive :=
  n ← h !! p; mjoin (child n !! d).

Fixpoint walk (h : gmap positive trie_node) (p : positive) (ds : list nat) : option positive :=
  match ds with
  | [] => Some p
  | d :: ds' => q ← step_to h p d; walk h q ds'
  end.

(** What the node at a path holds. *)
Definition view (h : gmap positive trie_node) (root : positive) (ds : list nat)
    : option (bool * option (list Z)) :=
  p ← walk h root ds; n ← h !! p; Some (isEnd n, word n).

Lemma walk_snoc h p ds d : walk h p (ds ++ [d]) = (q ← walk h p ds; step_to h q d).
Proof.
  revert p. induction ds as [|x ds IH]; intros p; cbn; [by destruct (step_to h p d)|].
  destruct (step_to h p x); cbn; [apply IH|done].
Qed.

Lemma walk_app h p ds ds' : walk h p (ds ++ ds') = (q ← walk h p ds; walk h q ds').
Proof.
  revert p. induction ds as [|x ds IH]; intros p; cbn; [done|].
  destruct (step_to h p x); cbn; [apply IH|done].
Qed.

(** The blocks of the heap: one for a node, one for its word. *)
Definition weight (n : trie_node) : Z := 1 + (match word n with Some _ => 1 | None => 0 end).
Definition blocks (h : gmap positive trie_node) : Z := map_fold (fun _ n a => weight n + a) 0 h.

Lemma blocks_insert h p n : h !! p = None -> blocks (<[p := n]> h) = weight n + blocks h.
Proof. intros H. unfold blocks. rewrite map_fold_insert_L; [done|intros; lia|done]. Qed.

Lemma blocks_delete h p n : h !! p = Some n -> blocks h = weight n + blocks (delete p h).
Proof.
  intros H. rewrite <- (blocks_insert _ p) by apply lookup_delete_eq. by rewrite insert_delete_id.
Qed.

Lemma blocks_update h p n n' : h !! p = Some n -> blocks (<[p := n']> h) = blocks h + weight n' - weight n.
Proof.
  intros H. rewrite (blocks_delete h p n H), <- insert_delete_eq, blocks_insert by apply lookup_delete_eq. lia.
Qed.

(** ** Well-formed tries *)

(** [base] blocks are not the trie's. *)
Record trie_ok (base : Z) (s : heap) (root : positive) : Prop := mk_trie_ok {
  plenty : plentiful (al s);
  ids : forall p, is_Some (nodes s !! p) -> (p < next_id (al s))%positive;
  nine : forall p n, nodes s !! p = Some n -> length (child n) = 9%nat;
  closed : forall p d q, step_to (nodes s) p d = Some q -> is_Some (nodes s !! q);
  no_parent : forall p d, step_to (nodes s) p d <> Some root;
  one_parent : forall p d p' d' q, step_to (nodes s) p d = Some q -> step_to (nodes s) p' d' = Some q ->
    p = p' /\ d = d';
  has_root : is_Some (nodes s !! root);
  reached : forall p, is_Some (nodes s !! p) -> exists ds, walk (nodes s) root ds = Some p;
  balanced : live (al s) = base + blocks (nodes s)
}.

Section trie.
Context (base : Z) (root : positive).

Lemma walk_in s ds p : trie_ok base s root -> walk (nodes s) root ds = Some p -> is_Some (nodes s !! p).
Proof.
  intros Hs. destruct ds as [|d ds _] using rev_ind; [intros [= <-]; apply (has_root _ _ _ Hs)|].
  rewrite walk_snoc. intros (q & _ & Hq)%bind_Some. by apply (closed _ _ _ Hs) in Hq.
Qed.

(** A node has one path. *)
Lemma walk_inj s : trie_ok base s root -> forall ds ds' p, walk (nodes s) root ds = Some p ->
  walk (nodes s) root ds' = Some p -> ds = ds'.
Proof.
  intros Hs ds. induction ds as [|d ds IH] using rev_ind; intros ds' p;
    destruct ds' as [|d' ds' _] using rev_ind; rewrite ?walk_snoc; [done| | |].
  - intros [= <-] (q & _ & Hq)%bind_Some. by destruct (no_parent _ _ _ Hs q d').
  - intros (q & _ & Hq)%bind_Some [= <-]. by destruct (no_parent _ _ _ Hs q d).
  - intros (q & Hw & Hq)%bind_Some (q' & Hw' & Hq')%bind_Some.
    destruct (one_parent _ _ _ Hs _ _ _ _ _ Hq Hq') as [<- <-]. by rewrite (IH ds' q).
Qed.

(** *** Storing at a node *)

Lemma step_to_same h p n n' : h !! p = Some n -> child n' = child n ->
  forall p0 d, step_to (<[p := n']> h) p0 d = step_to h p0 d.
Proof.
  intros Hp Hc p0 d. unfold step_to. destruct (decide (p0 = p)) as [->|];
    [by rewrite lookup_insert_eq, Hp; cbn; rewrite Hc|by rewrite lookup_insert_ne].
Qed.

Lemma walk_ext h h' : (forall p d, step_to h' p d = step_to h p d) ->
  forall ds p, walk h' p ds = walk h p ds.
Proof.
  intros Hst ds. induction ds as [|d ds IH]; intros p; cbn; [done|].
  rewrite Hst. by destruct (step_to h p d); cbn.
Qed.

Lemma store_word_ok s m' dp p n n' : trie_ok base s root -> walk (nodes s) root dp = Some p ->
  nodes s !! p = Some n -> child n' = child n -> later (al s) m' (weight n' - weight n) ->
  let s' := mk_heap m' (<[p := n']> (nodes s)) in
  trie_ok base s' root /\ forall ds, view (nodes s') root ds =
    if decide (ds = dp) then Some (isEnd n', word n') else view (nodes s) root ds.
Proof.
  intros Hs Hw Hp Hc Hl s'. pose proof (later_plentiful _ _ _ Hl (plenty _ _ _ Hs)) as Hm.
  destruct Hl as [_ Hid Hlive]. pose proof (step_to_same _ _ _ _ Hp Hc) as Hst.
  split.
  - destruct Hs as [H1 H2 H3 H4 H5 H6 H7 H8 H9]. unfold s'. constructor; cbn; try done.
    + intros q [x Hq]. apply lookup_insert_Some in Hq as [[<- _]|[_ Hq]].
      * assert (p < next_id (al s))%positive by (apply H2; by exists n). lia.
      * assert (q < next_id (al s))%positive by (apply H2; by exists x). lia.
    + intros q x [[_ <-]|[_ Hq]]%lookup_insert_Some; [rewrite Hc|]; eauto.
    + intros q d q' Hq. rewrite Hst in Hq. apply lookup_insert_is_Some'. right. eauto.
    + intros q d. rewrite Hst. apply H5.
    + intros *. rewrite !Hst. apply H6.
    + apply lookup_insert_is_Some'. by right.
    + intros q Hq. setoid_rewrite (walk_ext _ _ Hst). apply H8.
      apply lookup_insert_is_Some' in Hq as [<-|Hq]; [by exists n|done].
    + rewrite (blocks_update _ p n) by done. lia.
  - intros ds. unfold view, s'. cbn. rewrite (walk_ext _ _ Hst).
    destruct (decide (ds = dp)) as [->|Hne]; [by rewrite Hw; cbn; rewrite lookup_insert_eq|].
    destruct (walk (nodes s) root ds) as [q|] eqn:Hq; [|done]. cbn.
    rewrite lookup_insert_ne; [done|]. intros <-. by destruct Hne; apply (walk_inj s Hs _ _ p).
Qed.

(** *** Attaching a leaf *)

Definition leaf (e : bool) (w : option (list Z)) : trie_node := mk_node e w (replicate 9 None).

Lemma leaf_child e w d : mjoin (child (leaf e w) !! d) = None.
Proof.
  cbn [leaf child]. destruct (replicate 9 None !! d) as [x|] eqn:Hx; [|done].
  apply lookup_replicate in Hx as [-> _]. done.
Qed.

Definition attached (s : heap) (m' : mem) (p : positive) (n : trie_node) (d : nat) (q : positive)
    (lf : trie_node) : heap :=
  mk_heap m' (<[p := mk_node (isEnd n) (word n) (<[d := Some q]> (child n))]> (<[q := lf]> (nodes s))).

Lemma step_to_attached s m' p n d q e w p0 d0 : nodes s !! p = Some n -> (d < length (child n))%nat ->
  nodes s !! q = None ->
  step_to (nodes (attached s m' p n d q (leaf e w))) p0 d0 =
    if decide (p0 = p /\ d0 = d) then Some q else step_to (nodes s) p0 d0.
Proof.
  intros Hp Hd Hq. unfold step_to, attached. cbn [nodes].
  assert (Hpq : p <> q) by congruence.
  destruct (decide (p0 = p)) as [->|Hp0].
  - rewrite lookup_insert_eq, Hp. cbn. destruct (decide (d0 = d)) as [->|].
    + rewrite decide_True by done. by rewrite list_lookup_insert_eq.
    + rewrite decide_False by tauto. by rewrite list_lookup_insert_ne.
  - rewrite decide_False by tauto. rewrite lookup_insert_ne by done.
    destruct (decide (p0 = q)) as [->|]; [|by rewrite lookup_insert_ne].
    rewrite lookup_insert_eq, Hq. cbn -[leaf]. apply leaf_child.
Qed.

Lemma attach_walk s m' dp p n d q e w : trie_ok base s root -> walk (nodes s) root dp = Some p ->
  nodes s !! p = Some n -> (d < length (child n))%nat -> step_to (nodes s) p d = None ->
  nodes s !! q = None ->
  forall ds, walk (nodes (attached s m' p n d q (leaf e w))) root ds =
    if decide (ds = dp ++ [d]) then Some q else walk (nodes s) root ds.
Proof.
  intros Hs Hw Hp Hd Hnone Hq ds. induction ds as [|x ds IH] using rev_ind.
  - rewrite decide_False; [done|]. by destruct dp.
  - rewrite !walk_snoc, IH. destruct (decide (ds = dp ++ [d])) as [->|Hne].
    + cbn [mbind option_bind]. rewrite (step_to_attached s m' p n d q) by done. rewrite decide_False by (intros [-> _]; congruence).
      rewrite decide_False by (intros H%(f_equal length); rewrite !length_app in H; cbn in H; lia).
      rewrite walk_snoc, Hw. cbn. rewrite Hnone. cbn. unfold step_to. by rewrite Hq.
    + destruct (walk (nodes s) root ds) as [p0|] eqn:Hw0; cbn [mbind option_bind].
      * rewrite (step_to_attached s m' p n d q) by done.
        destruct (decide (p0 = p /\ x = d)) as [[-> ->]|Hno].
        -- rewrite decide_True; [done|]. f_equal. by apply (walk_inj s Hs _ _ p).
        -- rewrite decide_False; [done|]. intros [-> ->]%app_inj_tail. destruct Hno. split; congruence.
      * rewrite decide_False; [done|]. intros [-> ->]%app_inj_tail. congruence.
Qed.

Lemma attach_ok s m' dp p n d q e w : trie_ok base s root -> walk (nodes s) root dp = Some p ->
  nodes s !! p = Some n -> (d < 9)%nat -> step_to (nodes s) p d = None -> nodes s !! q = None ->
  later (al s) m' (weight (leaf e w)) -> (q < next_id m')%positive ->
  let s' := attached s m' p n d q (leaf e w) in
  trie_ok base s' root /\ walk (nodes s') root (dp ++ [d]) = Some q /\
  forall ds, view (nodes s') root ds =
    if decide (ds = dp ++ [d]) then Some (e, w) else view (nodes s) root ds.
Proof.
  intros Hs Hw Hp Hd Hnone Hq Hl Hqm s'. pose proof (later_plentiful _ _ _ Hl (plenty _ _ _ Hs)) as Hm.
  destruct Hl as [_ Hid Hlive].
  assert (Hd9 : (d < length (child n))%nat) by (by rewrite (nine _ _ _ Hs _ _ Hp)).
  pose proof (step_to_attached s m' p n d q e w) as Hst. fold s' in Hst.
  pose proof (attach_walk s m' dp p n d q e w Hs Hw Hp Hd9 Hnone Hq) as Hwalk. fold s' in Hwalk.
  assert (Hpq : p <> q) by congruence.
  assert (Hnq : forall p0 d0, step_to (nodes s) p0 d0 <> Some q).
  { intros p0 d0 Hx%(closed _ _ _ Hs). rewrite Hq in Hx. by destruct Hx. }
  assert (Hin : forall x, is_Some (nodes s !! x) -> is_Some (nodes s' !! x)).
  { intros x Hx. cbn. by apply lookup_insert_is_Some'; right; apply lookup_insert_is_Some'; right. }
  split; [|split].
  - destruct Hs as [H1 H2 H3 H4 H5 H6 H7 H8 H9]. constructor.
    + done.
    + intros x [y Hx]. cbn in *. apply lookup_insert_Some in Hx as [[<- _]|[_ Hx]].
      * assert (p < next_id (al s))%positive by (apply H2; by exists n). lia.
      * apply lookup_insert_Some in Hx as [[<- _]|[_ Hx]]; [done|].
        assert (x < next_id (al s))%positive by (apply H2; by exists y). lia.
    + intros x y Hx. cbn in Hx.
      apply lookup_insert_Some in Hx as [[_ <-]|[_ [[_ <-]|[_ Hx]]%lookup_insert_Some]]; cbn.
      * rewrite length_insert. eauto.
      * done.
      * eauto.
    + intros x y z. rewrite Hst by done. destruct (decide _); [intros [= <-]|eauto].
      cbn. apply lookup_insert_is_Some'. right. apply lookup_insert_is_Some'. by left.
    + intros x y. rewrite Hst by done. destruct (decide _); [|apply H5].
      intros [= ->]. rewrite Hq in H7. by destruct H7.
    + intros x y x' y' z. rewrite !Hst by done.
      destruct (decide (x = p /\ y = d)) as [[-> ->]|], (decide (x' = p /\ y' = d)) as [[-> ->]|]; [done| | |eauto].
      * intros [= <-] Hx. by destruct (Hnq x' y').
      * intros Hx [= <-]. by destruct (Hnq x y).
    + by apply Hin.
    + intros x Hx. destruct (decide (x = q)) as [->|Hxq].
      * exists (dp ++ [d]). rewrite Hwalk. by rewrite decide_True.
      * assert (Hx0 : is_Some (nodes s !! x)).
        { cbn in Hx. apply lookup_insert_is_Some' in Hx as [<-|Hx]; [by exists n|].
          apply lookup_insert_is_Some' in Hx as [->|Hx]; done. }
        destruct (H8 x Hx0) as [ds Hds]. exists ds. rewrite Hwalk. rewrite decide_False; [done|].
        intros ->. rewrite walk_snoc, Hw in Hds. cbn in Hds. congruence.
    + cbn [al nodes s' attached]. rewrite (blocks_update _ p n), blocks_insert by
        (done || by rewrite lookup_insert_ne). unfold weight at 2 3. cbn [word]. lia.
  - rewrite Hwalk. by rewrite decide_True.
  - intros ds. unfold view. rewrite Hwalk. destruct (decide (ds = dp ++ [d])) as [->|].
    + cbn. rewrite lookup_insert_ne by done. by rewrite lookup_insert_eq.
    + destruct (walk (nodes s) root ds) as [x|] eqn:Hx; [|done]. cbn.
      pose proof (walk_in s ds x Hs Hx) as [y Hy]. assert (x <> q) by congruence.
      destruct (decide (x = p)) as [->|].
      * rewrite lookup_insert_eq, Hp. done.
      * by rewrite !lookup_insert_ne.
Qed.

(** ** The operations *)

Lemma guarded_malloc_ok s : plentiful (al s) ->
  exists m', guarded_malloc s = Ok (next_id (al s), mk_heap m' (nodes s)) /\
    later (al s) m' 1 /\ (next_id (al s) < next_id m')%positive.
Proof.
  intros Hp. destruct (alloc_ok _ Hp) as (m' & Hrun & Hl & Hid). exists m'.
  unfold guarded_malloc, lift, bind. by rewrite Hrun.
Qed.

Lemma create_trie_node_ok s e w : trie_ok base s root ->
  exists q m' (lf := leaf e (if e then Some w else None)),
    create_trie_node e w s = Ok (q, mk_heap m' (<[q := lf]> (nodes s))) /\
    nodes s !! q = None /\ later (al s) m' (weight lf) /\ (q < next_id m')%positive.
Proof.
  intros Hs. destruct (guarded_malloc_ok s (plenty _ _ _ Hs)) as (m1 & H1 & Hl1 & Hid1).
  exists (next_id (al s)). unfold create_trie_node. step H1.
  assert (Hfree : nodes s !! next_id (al s) = None).
  { apply eq_None_not_Some. intros Hi%(ids _ _ _ Hs). lia. }
  destruct e.
  - destruct (guarded_malloc_ok (mk_heap m1 (nodes s))) as (m2 & H2 & Hl2 & Hid2).
    { by eapply later_plentiful; [|apply (plenty _ _ _ Hs)]. }
    exists m2. rewrite bind_assoc. step H2. split; [done|]. split; [done|].
    split; [by eapply later_trans|]. cbn in *. lia.
  - exists m1. done.
Qed.

Lemma node_loads s p n : nodes s !! p = Some n -> load_node p s = Ok (n, s).
Proof. intros H. unfold load_node, bind, gets. by rewrite H. Qed.

(** [child[i]] as a step. *)
Lemma get_child_ok s p n i : trie_ok base s root -> nodes s !! p = Some n -> 0 <= i < 9 ->
  get_child n i s = Ok (step_to (nodes s) p (Z.to_nat i), s).
Proof.
  intros Hs Hp Hi. unfold get_child, step_to. rewrite Hp. cbn [mbind option_bind].
  rewrite (proj2 (Z.leb_le 0 i)), (proj2 (Z.ltb_lt i 9)) by lia. cbn [andb].
  destruct (lookup_lt_is_Some_2 (child n) (Z.to_nat i)) as [c Hc].
  { rewrite (nine _ _ _ Hs _ _ Hp). lia. }
  rewrite Hc. by destruct c.
Qed.

(** A number of the keypad and its path. *)
Definition digit (c : Z) : Prop := 50 <= s8 c <= 57.
Definition index (c : Z) : nat := Z.to_nat (s8 c - 50).
Definition small (ds : list nat) : Prop := Forall (fun d => (d < 8)%nat) ds.

Lemma index_small c : digit c -> (index c < 8)%nat.
Proof. unfold digit, index. lia. Qed.
Lemma small_path nums : Forall digit nums -> small (map index nums).
Proof. induction 1; constructor; auto using index_small. Qed.

(** Going along a number adds the inner nodes that are missing, and no other. *)
Definition grown (V V' : list nat -> option (bool * option (list Z))) : Prop :=
  forall ds, V' ds = V ds \/ (small ds /\ V ds = None /\ V' ds = Some (false, None)).

Lemma grown_trans V1 V2 V3 : grown V1 V2 -> grown V2 V3 -> grown V1 V3.
Proof.
  intros H1 H2 ds. destruct (H1 ds) as [<-|(? & ? & H)], (H2 ds) as [->|(? & H' & ->)]; auto.
Qed.

Lemma view_walk s ds x : trie_ok base s root -> view (nodes s) root ds = Some x <->
  exists p n, walk (nodes s) root ds = Some p /\ nodes s !! p = Some n /\ x = (isEnd n, word n).
Proof.
  intros Hs. unfold view. destruct (walk (nodes s) root ds) as [p|] eqn:Hw; cbn.
  - destruct (walk_in s ds p Hs Hw) as [n Hn]. rewrite Hn. cbn. split; [intros [= <-]; by exists p, n|].
    intros (p' & n' & [= <-] & Hn' & ->). congruence.
  - split; [done|]. by intros (? & ? & ? & _).
Qed.

Lemma insert_path_ok nums : forall s cur pre, trie_ok base s root -> small pre ->
  walk (nodes s) root pre = Some cur -> Forall digit nums ->
  exists q s', insert_path cur nums s = Ok (Some q, s') /\ trie_ok base s' root /\
    walk (nodes s') root (pre ++ map index nums) = Some q /\
    grown (view (nodes s) root) (view (nodes s') root).
Proof.
  induction nums as [|c nums IH]; intros s cur pre Hs Hpre Hw Hd; cbn [insert_path map].
  - exists cur, s. rewrite app_nil_r. split; [done|]. split; [done|]. split; [done|]. by left.
  - inversion Hd as [|? ? Hc Hd']; subst. pose proof (index_small c Hc) as Hi.
    assert (Hpre' : small (pre ++ [index c])) by (apply Forall_app; split; [done|by constructor]).
    replace (pre ++ index c :: map index nums) with ((pre ++ [index c]) ++ map index nums)
      by by rewrite <- app_assoc.
    unfold digit in Hc. rewrite (proj2 (Z.ltb_ge (s8 c - 50) 0)), (proj2 (Z.ltb_ge 7 (s8 c - 50))) by lia.
    cbn [orb]. destruct (walk_in s pre cur Hs Hw) as [n Hn].
    step (node_loads s cur n Hn). step (get_child_ok s cur n (s8 c - 50) Hs Hn ltac:(lia)).
    fold (index c). destruct (step_to (nodes s) cur (index c)) as [q|] eqn:Hq.
    + apply IH; [done..| |done]. by rewrite walk_snoc, Hw.
    + destruct (create_trie_node_ok s false [] Hs) as (q & m' & Hrun & Hfree & Hl & Hid).
      step Hrun. set (s1 := mk_heap m' _). assert (Hcur : nodes s1 !! cur = Some n).
      { unfold s1. cbn. rewrite lookup_insert_ne; [done|congruence]. }
      step (node_loads s1 cur n Hcur). cbn [bind store_node modify].
      destruct (attach_ok s m' pre cur n (index c) q false None Hs Hw Hn ltac:(lia) Hq Hfree Hl Hid)
        as (Hs2 & Hw2 & Hv2).
      destruct (IH (attached s m' cur n (index c) q (leaf false None)) q (pre ++ [index c]))
        as (q' & s' & Hrun' & Hs' & Hw' & Hg'); [done..|].
      exists q', s'. split; [exact Hrun'|]. split; [done|]. split; [done|].
      refine (grown_trans _ _ _ _ Hg'). intros ds. rewrite Hv2.
      destruct (decide (ds = pre ++ [index c])) as [->|]; [|by left]. right.
      split; [done|]. split; [|done]. unfold view. rewrite walk_snoc, Hw. cbn. by rewrite Hq.
Qed.

(** ** The words of a number *)

(** A dictionary pairs paths and words, in the order of insertion. *)
Definition words_for (ws : list (list nat * list Z)) (ds : list nat) : list (list Z) :=
  omap (fun e => if decide (e.1 = ds) then Some e.2 else None) ws.

(** The view of a trie that holds the dictionary: the words of a path are along
    its [#] children. *)
Definition holds (V : list nat -> option (bool * option (list Z))) (ws : list (list nat * list Z)) : Prop :=
  forall ds k, small ds ->
    match words_for ws ds !! k with
    | Some w => V (ds ++ replicate k 8%nat) = Some (true, Some w)
    | None => V (ds ++ replicate k 8%nat) = None \/ (k = 0%nat /\ V ds = Some (false, None))
    end.

Lemma words_for_snoc ws key w ds :
  words_for (ws ++ [(key, w)]) ds = words_for ws ds ++ (if decide (key = ds) then [w] else []).
Proof. unfold words_for. rewrite omap_app. cbn. by destruct (decide (key = ds)). Qed.

(** A path splits into a number and [#]s in one way. *)
Lemma small_same_split ds ds' k k' : small ds -> small ds' ->
  ds ++ replicate k 8%nat = ds' ++ replicate k' 8%nat -> ds = ds' /\ k = k'.
Proof.
  revert ds'. induction ds as [|d ds IH]; intros [|d' ds'] Hs Hs' H; cbn in H.
  - split; [done|]. apply (f_equal length) in H. by rewrite !length_replicate in H.
  - destruct k; [done|]. injection H as <- _. inversion Hs'; lia.
  - destruct k'; [done|]. injection H as -> _. inversion Hs; lia.
  - injection H as <- H. inversion Hs; inversion Hs'; subst.
    by destruct (IH ds') as [<- <-].
Qed.

Lemma holds_grown V V' ws : holds V ws -> grown V V' -> holds V' ws.
Proof.
  intros H Hg ds k Hds. specialize (H ds k Hds). destruct (Hg (ds ++ replicate k 8%nat)) as [Heq|(Hsm & HN & HS)].
  - destruct (words_for ws ds !! k); [by rewrite Heq|]. rewrite Heq. destruct H as [?|[-> H]]; [by left|].
    right. split; [done|]. cbn in Heq. rewrite app_nil_r in Heq. congruence.
  - assert (k = 0%nat) as ->.
    { apply Forall_app in Hsm as [_ Hk]. destruct k; [done|]. inversion Hk; lia. }
    cbn in *. rewrite app_nil_r in *. destruct (words_for ws ds !! 0%nat); [congruence|]. by right.
Qed.

(** Setting the path of one more word. *)
Lemma holds_insert V V' ws key w : holds V ws -> small key ->
  (forall ds, V' ds = if decide (ds = key ++ replicate (length (words_for ws key)) 8%nat)
                      then Some (true, Some w) else V ds) ->
  holds V' (ws ++ [(key, w)]).
Proof.
  intros H Hkey HV ds k Hds. specialize (H ds k Hds). rewrite words_for_snoc, HV.
  destruct (decide (ds ++ replicate k 8%nat = _)) as [He|Hne].
  - apply small_same_split in He as [-> ->]; [|done..]. rewrite decide_True by done.
    by rewrite lookup_app_r, Nat.sub_diag by lia.
  - destruct (decide (key = ds)) as [->|Hk].
    + assert (k <> length (words_for ws ds)) by congruence.
      destruct (decide (k < length (words_for ws ds))%nat) as [Hlt|].
      * rewrite lookup_app_l by done. destruct (lookup_lt_is_Some_2 _ _ Hlt) as [x Hx]. by rewrite Hx in *.
      * rewrite lookup_app_r, lookup_ge_None_2 by (cbn; lia).
        rewrite lookup_ge_None_2 in H by lia. destruct H as [?|[-> _]]; [by left|lia].
    + rewrite app_nil_r. destruct (words_for ws ds !! k); [done|]. destruct H as [?|[-> H]]; [by left|].
      right. split; [done|]. rewrite HV. rewrite decide_False; [done|].
      by cbn in Hne; rewrite app_nil_r in Hne.
Qed.

(** *** Inserting *)

Lemma replicate_snoc {A} k (x : A) : replicate (S k) x = replicate k x ++ [x].
Proof. by rewrite <- Nat.add_1_r, replicate_add. Qed.

(** Following [#] reaches the last word. *)
Lemma last_same_ok s ws key : trie_ok base s root -> small key -> holds (view (nodes s) root) ws ->
  forall fuel k p, walk (nodes s) root (key ++ replicate k 8%nat) = Some p ->
  (k < length (words_for ws key))%nat -> (length (words_for ws key) <= fuel + k)%nat ->
  exists q, last_same fuel p s = Ok (q, s) /\
    walk (nodes s) root (key ++ replicate (length (words_for ws key) - 1) 8%nat) = Some q /\
    step_to (nodes s) q 8 = None.
Proof.
  intros Hs Hkey Hh. induction fuel as [|fuel IH]; intros k p Hw Hk Hf; [lia|]. cbn [last_same].
  destruct (walk_in s _ p Hs Hw) as [n Hn]. step (node_loads s p n Hn).
  step (get_child_ok s p n 8 Hs Hn ltac:(lia)). change (Z.to_nat 8) with 8%nat.
  assert (Hnext : walk (nodes s) root (key ++ replicate (S k) 8%nat) = step_to (nodes s) p 8).
  { rewrite replicate_snoc, app_assoc, walk_snoc, Hw. done. }
  pose proof (Hh key (S k) Hkey) as Hv.
  destruct (step_to (nodes s) p 8) as [q|] eqn:Hq.
  - destruct (walk_in s _ q Hs Hnext) as [n' Hn'].
    destruct (words_for ws key !! S k) as [w|] eqn:Hwd.
    + apply lookup_lt_Some in Hwd. apply (IH (S k)); [done|lia|lia].
    + destruct Hv as [Hv|[? _]]; [|done]. unfold view in Hv. rewrite Hnext in Hv. cbn in Hv.
      by rewrite Hn' in Hv.
  - exists p. split; [done|]. assert (length (words_for ws key) = S k) as ->.
    { destruct (words_for ws key !! S k) as [w|] eqn:Hwd.
      - unfold view in Hv. by rewrite Hnext in Hv.
      - apply lookup_ge_None in Hwd. lia. }
    by rewrite Nat.sub_1_r.
Qed.

Lemma insert_word_ok s ws nums w fuel : trie_ok base s root -> holds (view (nodes s) root) ws ->
  Forall digit nums -> (length ws <= fuel)%nat ->
  exists s', insert_word fuel (Some root) nums w s = Ok (tt, s') /\ trie_ok base s' root /\
    holds (view (nodes s') root) (ws ++ [(map index nums, w)]).
Proof.
  intros Hs Hh Hd Hf. set (key := map index nums). assert (Hkey : small key) by by apply small_path.
  destruct (insert_path_ok nums s root [] Hs ltac:(constructor) eq_refl Hd)
    as (p & s1 & H1 & Hs1 & Hw1 & Hg1). fold key in Hw1. cbn in Hw1.
  pose proof (holds_grown _ _ _ Hh Hg1) as Hh1. cbn [insert_word]. step H1.
  destruct (walk_in s1 key p Hs1 Hw1) as [n Hn]. step (node_loads s1 p n Hn).
  assert (Hv : view (nodes s1) root key = Some (isEnd n, word n)).
  { apply view_walk; [done|]. by exists p, n. }
  pose proof (Hh1 key 0%nat Hkey) as H0. cbn in H0. rewrite app_nil_r in H0.
  destruct (isEnd n) eqn:He; cbn [negb].
  - assert (Hlen : (0 < length (words_for ws key))%nat).
    { destruct (words_for ws key); [|cbn; lia]. cbn in H0. destruct H0 as [?|[_ ?]]; congruence. }
    assert (Hle : (length (words_for ws key) <= length ws)%nat).
    { unfold words_for. clear. induction ws as [|e ws IH]; cbn; [lia|]. destruct (decide _); cbn; lia. }
    destruct (last_same_ok s1 ws key Hs1 Hkey Hh1 fuel 0 p) as (q & H2 & Hw2 & Hq8);
      [by cbn; rewrite app_nil_r|lia|lia|].
    step H2. destruct (create_trie_node_ok s1 true w Hs1) as (f & m' & H3 & Hfree & Hl & Hid). step H3.
    destruct (walk_in s1 _ q Hs1 Hw2) as [nq Hnq].
    assert (Hq : nodes (mk_heap m' (<[f:=leaf true (Some w)]> (nodes s1))) !! q = Some nq)
      by (cbn; rewrite lookup_insert_ne; [done|congruence]).
    step (node_loads _ _ _ Hq).
    destruct (attach_ok s1 m' _ q nq 8 f true (Some w) Hs1 Hw2 Hnq ltac:(lia) Hq8 Hfree Hl Hid)
      as (Hs3 & _ & Hv3).
    eexists. split; [reflexivity|]. split; [exact Hs3|].
    apply (holds_insert _ _ _ _ _ Hh1 Hkey). intros ds. rewrite Hv3.
    rewrite <- app_assoc, <- replicate_snoc. by replace (S (length (words_for ws key) - 1)) with
      (length (words_for ws key)) by lia.
  - destruct (guarded_malloc_ok s1 (plenty _ _ _ Hs1)) as (m' & H2 & Hl & _). step H2.
    assert (Hwd : word n = None).
    { destruct (words_for ws key); cbn in H0; [destruct H0 as [?|[_ ?]]|]; congruence. }
    assert (Hl' : later (al s1) m' (weight (mk_node true (Some w) (child n)) - weight n))
      by (unfold weight; rewrite Hwd; exact Hl).
    destruct (store_word_ok s1 m' key p n (mk_node true (Some w) (child n)) Hs1 Hw1 Hn eq_refl Hl')
      as [Hs3 Hv3].
    eexists. split; [reflexivity|]. split; [exact Hs3|].
    apply (holds_insert _ _ _ _ _ Hh1 Hkey). intros ds. rewrite Hv3.
    assert (words_for ws key = []) as ->.
    { destruct (words_for ws key); [done|]. cbn in H0. congruence. }
    cbn. by rewrite app_nil_r.
Qed.

(** *** Searching *)

Definition key_char (c : Z) : Prop := digit c \/ s8 c = 35.
Definition key_index (c : Z) : nat := if s8 c =? 35 then 8%nat else index c.

Lemma search_trie_ok nums : forall s p, trie_ok base s root -> is_Some (nodes s !! p) ->
  Forall key_char nums ->
  search_trie (Some p) nums s = Ok (walk (nodes s) p (map key_index nums), s).
Proof.
  induction nums as [|c nums IH]; intros s p Hs [n Hn] Hd; cbn [search_trie map walk]; [done|].
  inversion Hd as [|? ? Hc Hd']; subst. step (node_loads s p n Hn).
  assert (Hi : 0 <= (if s8 c =? 35 then 8 else s8 c - 50) < 9).
  { destruct Hc as [[? ?]| ->]; [|cbn; lia]. destruct (s8 c =? 35); lia. }
  step (get_child_ok s p n _ Hs Hn Hi).
  replace (Z.to_nat (if s8 c =? 35 then 8 else s8 c - 50)) with (key_index c)
    by (unfold key_index, index; by destruct (s8 c =? 35)).
  destruct (step_to (nodes s) p (key_index c)) as [q|] eqn:Hq; cbn [mbind option_bind].
  - apply IH; [done| |done]. by eapply (closed _ _ _ Hs).
  - by destruct nums.
Qed.

(** *** Deleting *)

(** [q] is in the tree below [p]. *)
Definition under (h : gmap positive trie_node) (p q : positive) : Prop := exists ds, walk h p ds = Some q.

Lemma under_refl h p : under h p p.
Proof. by exists []. Qed.
Lemma under_step h p d q x : step_to h p d = Some q -> under h q x -> under h p x.
Proof. intros Hq [ds Hds]. exists (d :: ds). cbn. by rewrite Hq. Qed.

(** [s'] is [s] without the nodes of [gone]; the blocks that go are theirs. *)
Record deleted (gone : positive -> Prop) (s s' : heap) : Prop := mk_deleted {
  all_gone : forall x, gone x -> nodes s' !! x = None;
  others_stay : forall x, ~ gone x -> nodes s' !! x = nodes s !! x;
  only_gone : forall x, nodes s' !! x = None \/ nodes s' !! x = nodes s !! x;
  blocks_gone : live (al s') - blocks (nodes s') = live (al s) - blocks (nodes s)
}.

Lemma deleted_trans A B s s1 s2 : deleted A s s1 -> deleted B s1 s2 ->
  deleted (fun x => A x \/ B x) s s2.
Proof.
  intros [H1 H2 H3 H4] [H1' H2' H3' H4']. constructor.
  - intros x [Hx|Hx]; [|by apply H1']. destruct (H3' x) as [?|Hs]; [done|]. rewrite Hs. by apply H1.
  - intros x Hx. rewrite H2', H2; tauto.
  - intros x. destruct (H3' x) as [?|Hs]; [by left|]. rewrite Hs. apply H3.
  - lia.
Qed.

Lemma deleted_weaken A B s s' : (forall x, A x <-> B x) -> deleted A s s' -> deleted B s s'.
Proof.
  intros HAB [H1 H2 H3 H4]. constructor; [|intros x Hx; apply H2; by rewrite HAB|done..].
  intros x Hx. apply H1. by apply HAB.
Qed.

Lemma deleted_none A s : (forall x, ~ A x) -> deleted A s s.
Proof. intros HA. constructor; [intros x Hx; by apply HA in Hx|done|by right|done]. Qed.

Section delete.
(** The trie before anything was deleted. *)
Context (s0 : heap) (Hs0 : trie_ok base s0 root).
Local Abbreviation h0 := (nodes s0).

(** Below the children of [p] from [i] on. *)
Definition under_children (p : positive) (i : nat) (x : positive) : Prop :=
  exists d q, (i <= d)%nat /\ step_to h0 p d = Some q /\ under h0 q x.

Lemma under_path p dp q d x ds : walk h0 root dp = Some p -> step_to h0 p d = Some q ->
  walk h0 q ds = Some x -> walk h0 root (dp ++ d :: ds) = Some x.
Proof. intros Hp Hq Hx. rewrite walk_app, Hp. cbn. by rewrite Hq. Qed.

Lemma not_under_child p dp q d : walk h0 root dp = Some p -> step_to h0 p d = Some q -> ~ under h0 q p.
Proof.
  intros Hp Hq [ds Hds]. pose proof (under_path _ _ _ _ _ _ Hp Hq Hds) as Hw.
  pose proof (walk_inj s0 Hs0 _ _ _ Hp Hw) as He. apply (f_equal length) in He.
  rewrite length_app in He. cbn in He. lia.
Qed.

Lemma children_apart p dp d q d' q' x : walk h0 root dp = Some p -> step_to h0 p d = Some q ->
  step_to h0 p d' = Some q' -> under h0 q x -> under h0 q' x -> d = d'.
Proof.
  intros Hp Hq Hq' [ds Hds] [ds' Hds'].
  pose proof (walk_inj s0 Hs0 _ _ _ (under_path _ _ _ _ _ _ Hp Hq Hds) (under_path _ _ _ _ _ _ Hp Hq' Hds')) as He.
  apply app_inv_head in He. by injection He.
Qed.

Lemma delete_children_ok del p dp n (Hw : walk h0 root dp = Some p) (Hn : h0 !! p = Some n) :
  (forall q d s, step_to h0 p d = Some q -> (forall x, under h0 q x -> nodes s !! x = h0 !! x) ->
     exists s', del (Some q) s = Ok (tt, s') /\ deleted (under h0 q) s s') ->
  forall k i s, (k + i = 9)%nat -> nodes s !! p = Some n ->
    (forall x, under_children p i x -> nodes s !! x = h0 !! x) ->
    exists s', delete_children del p k (Z.of_nat i) s = Ok (tt, s') /\ deleted (under_children p i) s s'.
Proof.
  intros Hdel k. induction k as [|k IH]; intros i s Hk Hp Hbelow; cbn [delete_children].
  - exists s. split; [done|]. apply deleted_none. intros x (d & q & Hd & Hq & _).
    assert (Hlt : (d < 9)%nat); [|lia]. rewrite <- (nine _ _ _ Hs0 _ _ Hn).
    unfold step_to in Hq. rewrite Hn in Hq. cbn in Hq. destruct (child n !! d) eqn:Hc; [|done].
    by apply lookup_lt_Some in Hc.
  - step (node_loads s p n Hp).
    assert (Hget : get_child n (Z.of_nat i) s = Ok (step_to h0 p i, s)).
    { pose proof (get_child_ok s0 p n (Z.of_nat i) Hs0 Hn ltac:(lia)) as Hg.
      rewrite Nat2Z.id in Hg. unfold get_child in *. destruct (_ && _); [|done].
      destruct (child n !! _); [|done]. cbn in *. by injection Hg as ->. }
    step Hget. replace (Z.of_nat i + 1) with (Z.of_nat (S i)) by lia.
    destruct (step_to h0 p i) as [q|] eqn:Hq.
    + destruct (Hdel q i s Hq) as (s1 & H1 & Hd1); [intros x Hx; apply Hbelow; by exists i, q|].
      step H1. destruct (IH (S i) s1) as (s2 & H2 & Hd2); [lia| | |].
      * rewrite (others_stay _ _ _ Hd1); [done|]. by eapply not_under_child.
      * intros x (d & q' & Hd & Hq' & Hx). rewrite (others_stay _ _ _ Hd1).
        -- apply Hbelow. exists d, q'. split; [lia|done].
        -- intros Hx'. assert (i = d); [|lia]. by eapply children_apart.
      * exists s2. split; [done|]. eapply deleted_weaken, deleted_trans; [|exact Hd1|exact Hd2].
        intros x. split.
        -- intros [Hx|(d & q' & ? & ? & ?)]; [by exists i, q|exists d, q'; split; [lia|done]].
        -- intros (d & q' & ? & Hq' & ?). destruct (decide (d = i)) as [->|]; [left; congruence|].
           right. exists d, q'. split; [lia|done].
    + destruct (IH (S i) s) as (s2 & H2 & Hd2); [lia|done| |].
      * intros x (d & q' & ? & ?). apply Hbelow. exists d, q'. split; [lia|done].
      * exists s2. split; [done|]. eapply deleted_weaken, Hd2. intros x.
        split; intros (d & q' & ? & Hq' & ?); exists d, q'; (split; [|done]); [lia|].
        destruct (decide (d = i)) as [->|]; [congruence|lia].
Qed.

Lemma guarded_free_ok s : exists m', guarded_free true s = Ok (tt, mk_heap m' (nodes s)) /\ live m' = live (al s) - 1.
Proof.
  unfold guarded_free, lift. destruct (release_ok 1 (al s)) as (m' & Hrun & [_ _ Hl]). rewrite Hrun.
  exists m'. split; [done|]. lia.
Qed.

Lemma free_node_ok s p n : nodes s !! p = Some n ->
  exists m', free_node p s = Ok (tt, mk_heap m' (delete p (nodes s))) /\ live m' = live (al s) - 1.
Proof.
  intros Hn. unfold free_node. step (node_loads s p n Hn).
  destruct (guarded_free_ok s) as (m' & Hrun & Hl). step Hrun. by exists m'.
Qed.

Lemma under_cases p x : under h0 p x -> x = p \/ under_children p 0 x.
Proof.
  intros [[|d ds] Hds]; [left; by injection Hds|]. cbn in Hds.
  destruct (step_to h0 p d) as [q|] eqn:Hq; [|done]. right. exists d, q. split; [lia|]. split; [done|].
  by exists ds.
Qed.

Lemma under_children_under p x : under_children p 0 x -> under h0 p x.
Proof. intros (d & q & _ & Hq & Hx). by eapply under_step. Qed.

Lemma delete_trie_ok fuel : forall p dp s, walk h0 root dp = Some p ->
  (forall x, under h0 p x -> nodes s !! x = h0 !! x) ->
  (forall ds x, walk h0 p ds = Some x -> (length ds < fuel)%nat) ->
  exists s', delete_trie fuel (Some p) s = Ok (tt, s') /\ deleted (under h0 p) s s'.
Proof.
  induction fuel as [|fuel IH]; intros p dp s Hw Hsame Hdepth.
  { specialize (Hdepth [] p eq_refl). lia. }
  destruct (walk_in s0 dp p Hs0 Hw) as [n Hn].
  assert (Hp : nodes s !! p = Some n) by (rewrite Hsame; [done|apply under_refl]).
  cbn [delete_trie]. step (node_loads s p n Hp).
  assert (Hword : exists m1, (match word n with Some _ => guarded_free true | None => ret tt end) s =
      Ok (tt, mk_heap m1 (nodes s)) /\ live m1 = live (al s) - (weight n - 1)).
  { unfold weight. destruct (word n).
    - destruct (guarded_free_ok s) as (m1 & Hrun & Hl). exists m1. split; [done|lia].
    - exists (al s). split; [by destruct s|lia]. }
  destruct Hword as (m1 & H1 & Hl1). step H1. set (s1 := mk_heap m1 (nodes s)).
  destruct (delete_children_ok (delete_trie fuel) p dp n Hw Hn) with (k := 9%nat) (i := 0%nat) (s := s1)
    as (s2 & H2 & Hd2); [|done|done| |].
  { intros q d s' Hq Hs'. apply (IH q (dp ++ [d])); [by rewrite walk_snoc, Hw|done|].
    intros ds x Hx. specialize (Hdepth (d :: ds) x). cbn in Hdepth. rewrite Hq in Hdepth.
    specialize (Hdepth Hx). lia. }
  { intros x Hx. cbn. apply Hsame. by apply under_children_under. }
  change (Z.of_nat 0) with 0 in H2. step H2.
  assert (Hp2 : nodes s2 !! p = Some n).
  { rewrite (others_stay _ _ _ Hd2); [done|]. intros (d & q & _ & Hq & Hx).
    by eapply not_under_child. }
  destruct (free_node_ok s2 p n Hp2) as (m3 & H3 & Hl3). rewrite H3. eexists. split; [done|].
  pose proof (blocks_gone _ _ _ Hd2) as Hb. pose proof (blocks_delete _ _ _ Hp2) as Hb2. cbn in Hb.
  constructor; cbn.
  - intros x Hx. destruct (decide (x = p)) as [->|]; [by apply lookup_delete_eq|].
    rewrite lookup_delete_ne by done. apply (all_gone _ _ _ Hd2).
    by destruct (under_cases p x Hx).
  - intros x Hx. rewrite lookup_delete_ne; [|intros <-; by apply Hx, under_refl].
    rewrite (others_stay _ _ _ Hd2); [done|]. intros Hc. by apply Hx, under_children_under.
  - intros x. destruct (decide (x = p)) as [->|]; [left; by apply lookup_delete_eq|].
    rewrite lookup_delete_ne by done. apply (only_gone _ _ _ Hd2).
  - lia.
Qed.
End delete.

(** The paths of a trie are bounded. *)
Lemma paths_bounded s : trie_ok base s root ->
  exists n, forall ds x, walk (nodes s) root ds = Some x -> (length ds < n)%nat.
Proof.
  intros Hs. assert (Hall : forall l : list positive, exists n, forall ds x, x ∈ l -> walk (nodes s) root ds = Some x ->
    (length ds < n)%nat).
  { induction l as [|y l [n Hn]]; [exists 0%nat; intros ds x Hx; by apply not_elem_of_nil in Hx|].
    destruct (nodes s !! y) as [b|] eqn:Hy.
    - destruct (reached _ _ _ Hs y) as [dy Hdy]; [by exists b|]. exists (S (length dy) + n)%nat.
      intros ds x Hx Hw. apply elem_of_cons in Hx as [->|Hx]; [|specialize (Hn ds x Hx Hw); lia].
      rewrite (walk_inj s Hs ds dy y Hw Hdy). lia.
    - exists n. intros ds x Hx Hw. apply elem_of_cons in Hx as [->|Hx]; [|by apply (Hn ds x)].
      apply (walk_in s _ _ Hs) in Hw as [? ?]. congruence. }
  destruct (Hall (map_to_list (nodes s)).*1) as [n Hn]. exists n. intros ds x Hw. apply (Hn ds x); [|done].
  destruct (walk_in s ds x Hs Hw) as [b Hb]. apply list_elem_of_fmap. exists (x, b).
  split; [done|]. by apply elem_of_map_to_list.
Qed.

(** Deleting the whole trie gives every block back. *)
Lemma delete_root_ok s : trie_ok base s root ->
  exists n, forall fuel, (n <= fuel)%nat -> exists s', delete_trie fuel (Some root) s = Ok (tt, s') /\
    nodes s' = ∅ /\ live (al s') = base.
Proof.
  intros Hs. destruct (paths_bounded s Hs) as [n Hn]. exists n. intros fuel Hf.
  destruct (delete_trie_ok s Hs fuel root [] s eq_refl) as (s' & Hrun & Hd); [done| |].
  { intros ds x Hx. specialize (Hn ds x Hx). lia. }
  exists s'. split; [done|]. assert (nodes s' = ∅) as He.
  { apply map_empty. intros x. destruct (nodes s !! x) as [b|] eqn:Hx.
    - apply (all_gone _ _ _ Hd). apply (reached _ _ _ Hs). by exists b.
    - destruct (only_gone _ _ _ Hd x) as [?|Hsame]; [done|]. by rewrite Hsame. }
  split; [done|]. pose proof (blocks_gone _ _ _ Hd) as Hb. rewrite He in Hb.
  pose proof (balanced _ _ _ Hs). change (blocks ∅) with 0 in Hb. lia.
Qed.
End trie.

Lemma create_empty_trie_ok s : plentiful (al s) -> nodes s = ∅ ->
  exists root s', create_empty_trie s = Ok (root, s') /\ trie_ok (live (al s)) s' root /\
    holds (view (nodes s') root) [].
Proof.
  intros Hp He. destruct (guarded_malloc_ok s Hp) as (m1 & H1 & Hl1 & Hid1).
  set (root := next_id (al s)) in *. exists root.
  unfold create_empty_trie, create_trie_node. step H1. cbn [bind ret]. unfold store_node, modify.
  rewrite He. eexists. split; [reflexivity|]. cbn [nodes al]. fold (leaf false None).
  assert (Hst : forall p d, step_to (<[root := leaf false None]> ∅) p d = None).
  { intros p d. unfold step_to. destruct (decide (p = root)) as [->|].
    - rewrite lookup_insert_eq. apply leaf_child.
    - by rewrite lookup_insert_ne. }
  split.
  - constructor; cbn [nodes al].
    + by eapply later_plentiful.
    + intros p Hp'. apply lookup_insert_is_Some' in Hp' as [<-|[? ?]]; done.
    + intros p n Hn. by apply lookup_insert_Some in Hn as [[_ <-]|[_ ?]].
    + intros p d q. by rewrite Hst.
    + intros p d. by rewrite Hst.
    + intros p d p' d' q. by rewrite Hst.
    + rewrite lookup_insert_eq. by eexists.
    + intros p Hp'. apply lookup_insert_is_Some' in Hp' as [<-|[? ?]]; [|done]. by exists [].
    + rewrite blocks_insert by done. change (blocks ∅) with 0. destruct Hl1 as [_ _ Hl]. unfold weight. cbn [leaf word]. lia.
  - intros ds k _. cbn [words_for omap list_omap lookup list_lookup].
    assert (Hw : forall ds, view (<[root := leaf false None]> ∅) root ds =
      if decide (ds = []) then Some (false, None) else None).
    { intros [|d ds']; unfold view; cbn [walk mbind option_bind].
      - by rewrite lookup_insert_eq.
      - by rewrite Hst. }
    rewrite !Hw. destruct (decide (ds ++ replicate k 8%nat = [])) as [[-> Hk]%app_nil|]; [|by left].
    right. by destruct k.
Qed.

(** ** The T9 program *)

Lemma convert_digit c : digit (convert c).
Proof.
  unfold digit, convert. repeat match goal with |- context [if ?b then _ else _] => destruct b end;
    vm_compute; split; discriminate.
Qed.

(** A word of the dictionary: no NUL and no newline, and room for it in the buffer. *)
Definition dictionary_word (w : list Z) : Prop :=
  Forall (fun c => c <> 0 /\ c <> 10) w /\ Z.of_nat (length w) < MAX_LINELEN - 1.
(** The file with one word a line, and the paths of the words. *)
Definition dictionary_file (ws : list (list Z)) : list Z := concat (map (fun w => w ++ [10]) ws).
Definition spelled (w : list Z) : list nat := map index (map convert w).
Definition dictionary (ws : list (list Z)) : list (list nat * list Z) := map (fun w => (spelled w, w)) ws.

Lemma line_word_line w : Forall (fun c => c <> 0 /\ c <> 10) w -> line_word (w ++ [10]) = w.
Proof.
  induction 1 as [|c w [H0 H10] _ IH]; cbn; [done|].
  by rewrite (proj2 (Z.eqb_neq c 0)), (proj2 (Z.eqb_neq c 10)), IH.
Qed.

Lemma read_lines_ok base root ws : forall before s fuel, trie_ok base s root ->
  holds (view (nodes s) root) (dictionary before) -> Forall dictionary_word ws ->
  (length before + 2 * length ws <= fuel)%nat ->
  exists s', read_lines fuel (dictionary_file ws) root s = Ok (tt, s') /\ trie_ok base s' root /\
    holds (view (nodes s') root) (dictionary (before ++ ws)).
Proof.
  induction ws as [|w ws IH]; intros before s fuel Hs Hh Hws Hf.
  - exists s. rewrite app_nil_r. by destruct fuel.
  - inversion Hws as [|? ? [Hchars Hlen] Hws']; subst. destruct fuel as [|fuel]; [cbn in Hf; lia|].
    change (dictionary_file (w :: ws)) with ((w ++ [10]) ++ dictionary_file ws).
    rewrite <- app_assoc. cbn [app].
    assert (Hchunk : fgets_chunk (Z.to_nat (MAX_LINELEN - 1)) (w ++ 10 :: dictionary_file ws) =
      (w ++ [10], dictionary_file ws)) by (apply fgets_chunk_line; [done|lia]).
    unfold read_lines; fold read_lines. rewrite Hchunk.
    assert (Hne : exists c l, w ++ 10 :: dictionary_file ws = c :: l) by (destruct w; eauto).
    destruct Hne as (c & l & ->). rewrite line_word_line by done.
    destruct (guarded_malloc_ok s (plenty _ _ _ Hs)) as (m1 & H1 & Hl1 & Hid1). step H1.
    set (s1 := mk_heap m1 (nodes s)).
    assert (Hs1 : trie_ok (base + 1) s1 root).
    { destruct Hs as [? Hids ? ? ? ? ? ? Hb]. pose proof Hl1 as [_ _ Hl].
      constructor; cbn; try done; [by eapply later_plentiful|intros p Hp; apply Hids in Hp; lia|lia]. }
    destruct (insert_word_ok (base + 1) root s1 (dictionary before) (map convert w) w (S fuel))
      as (s2 & H2 & Hs2 & Hh2); [done|done| | |].
    { apply Forall_map, Forall_true. intros x. apply convert_digit. }
    { unfold dictionary. rewrite length_map. cbn in Hf. lia. }
    step H2. destruct (release_ok 1 (al s2)) as (m3 & H3 & Hl3).
    assert (H3' : guarded_free true s2 = Ok (tt, mk_heap m3 (nodes s2)))
      by (unfold guarded_free, lift; by rewrite H3).
    step H3'. destruct (IH (before ++ [w]) (mk_heap m3 (nodes s2)) fuel) as (s' & Hrun & Hs' & Hh').
    + destruct Hs2 as [? Hids ? ? ? ? ? ? Hb]. pose proof Hl3 as [_ Hid Hl].
      constructor; cbn; try done; [by eapply later_plentiful|intros p Hp; apply Hids in Hp; lia|lia].
    + unfold dictionary. rewrite map_app. exact Hh2.
    + done.
    + rewrite length_app. cbn in *. lia.
    + exists s'. split; [exact Hrun|]. split; [done|]. by rewrite <- app_assoc in Hh'.
Qed.

(** *** A session *)

(** What is typed: a number with some [#]s after it, or [#] and anything. *)
Inductive typed : Type := Key (nums : list Z) (k : nat) | Next (rest : list Z).
Definition typed_text (t : typed) : list Z :=
  match t with Key nums k => nums ++ replicate k 35 | Next rest => 35 :: rest end.
Definition typed_ok (t : typed) : Prop :=
  Z.of_nat (length (typed_text t)) < MAX_LINELEN /\
  match t with Key nums _ => nums <> [] /\ Forall (fun c => 50 <= c <= 57) nums | Next _ => True end.

(** The reply and the word the session is at. *)
Definition respond (ws : list (list Z)) (at_word : option (list nat * nat)) (t : typed)
    : reply * option (list nat * nat) :=
  match (match t with
         | Key nums k => Some (map index nums, k)
         | Next _ => (fun p => (p.1, S p.2)) <$> at_word
         end) with
  | None => (NoMore, None)
  | Some (ds, k) =>
      match words_for (dictionary ws) ds !! k with
      | Some w => (Found (Some w), Some (ds, k))
      | None => (NoMore, None)
      end
  end.

Fixpoint replies (ws : list (list Z)) (at_word : option (list nat * nat)) (ts : list typed) : list reply :=
  match ts with
  | [] => []
  | t :: ts' => let '(r, at_word) := respond ws at_word t in r :: replies ws at_word ts'
  end.

(** The pointer [cur] and the word: where no word was found, [#] leads nowhere. *)
Definition points (s : heap) (root : positive) (ws : list (list Z)) (cur : option positive)
    (at_word : option (list nat * nat)) : Prop :=
  match at_word with
  | Some (ds, k) => small ds /\ is_Some (words_for (dictionary ws) ds !! k) /\
      cur = walk (nodes s) root (ds ++ replicate k 8%nat)
  | None => match cur with Some p => is_Some (nodes s !! p) /\ step_to (nodes s) p 8 = None | None => True end
  end.

Section session.
Context (base : Z) (s : heap) (root : positive) (Hs : trie_ok base s root).
Context (ws : list (list Z)) (Hh : holds (view (nodes s) root) (dictionary ws)).

Lemma word_found ds k w : small ds -> words_for (dictionary ws) ds !! k = Some w ->
  exists p n, walk (nodes s) root (ds ++ replicate k 8%nat) = Some p /\ nodes s !! p = Some n /\
    isEnd n = true /\ word n = Some w.
Proof.
  intros Hds Hw. pose proof (Hh ds k Hds) as H. rewrite Hw in H.
  apply (view_walk base) in H as (p & n & Hp & Hn & [= He Hwd]); [|done]. by exists p, n.
Qed.

Lemma word_missing ds k : small ds -> words_for (dictionary ws) ds !! k = None ->
  walk (nodes s) root (ds ++ replicate k 8%nat) = None \/
  exists p n, walk (nodes s) root (ds ++ replicate k 8%nat) = Some p /\ nodes s !! p = Some n /\
    isEnd n = false /\ step_to (nodes s) p 8 = None.
Proof.
  intros Hds Hw. pose proof (Hh ds k Hds) as H. rewrite Hw in H.
  assert (Hnone : forall j, view (nodes s) root (ds ++ replicate j 8%nat) = None ->
    walk (nodes s) root (ds ++ replicate j 8%nat) = None).
  { intros j Hv. destruct (walk _ _ _) as [p|] eqn:Hp; [|done].
    destruct (walk_in base root s _ p Hs Hp) as [n Hn]. unfold view in Hv. rewrite Hp in Hv.
    cbn in Hv. by rewrite Hn in Hv. }
  destruct H as [H|[-> H]]; [left; by apply Hnone|right].
  apply (view_walk base) in H as (p & n & Hp & Hn & [= He Hwd]); [|done].
  exists p, n. cbn. rewrite app_nil_r. split_and!; [done..|].
  pose proof (Hh ds 1%nat Hds) as H1.
  apply lookup_ge_None in Hw. rewrite lookup_ge_None_2 in H1 by lia.
  destruct H1 as [H1|[? _]]; [|done]. apply Hnone in H1. cbn in H1. by rewrite walk_snoc, Hp in H1.
Qed.

Lemma s8_digit c : 50 <= c <= 57 -> s8 c = c.
Proof. intros. apply wraps_small; bound_lia. Qed.

Lemma typed_path nums k : Forall (fun c => 50 <= c <= 57) nums ->
  small (map index nums) /\ Forall key_char (nums ++ replicate k 35) /\
  map key_index (nums ++ replicate k 35) = map index nums ++ replicate k 8%nat.
Proof.
  intros Hn. assert (Hd : Forall digit nums).
  { eapply Forall_impl; [done|]. intros c Hc. unfold digit. by rewrite s8_digit. }
  split; [by apply small_path|]. split.
  - apply Forall_app. split; [eapply Forall_impl; [done|]; by left|]. apply Forall_replicate. by right.
  - rewrite map_app. f_equal.
    + apply map_ext_in. intros c Hc%list_elem_of_In. rewrite Forall_forall in Hd. specialize (Hd c Hc).
      unfold key_index, digit in *. by rewrite (proj2 (Z.eqb_neq _ _)) by lia.
    + clear. induction k; cbn; [done|]. by rewrite IHk.
Qed.

Lemma t9_round_ok cur at_word t : points s root ws cur at_word -> typed_ok t ->
  exists cur', t9_round root cur (typed_text t) s = Ok (((respond ws at_word t).1, cur'), s) /\
    points s root ws cur' (respond ws at_word t).2.
Proof.
  intros Hcur [Hlen Ht]. unfold t9_round. rewrite (proj2 (Z.ltb_lt _ _) Hlen). cbn [ensure bind ret].
  destruct t as [nums k|rest]; cbn [typed_text respond].
  - destruct Ht as [Hne Hn]. destruct (typed_path nums k Hn) as (Hsm & Hkc & Hmap).
    assert (Hst : starts_with [35] (nums ++ replicate k 35) = false).
    { destruct nums as [|c nums]; [done|]. inversion Hn; subst. cbn. by rewrite (proj2 (Z.eqb_neq c 35)) by lia. }
    rewrite Hst. pose proof (search_trie_ok base root _ s root Hs (has_root _ _ _ Hs) Hkc) as Hrun.
    rewrite Hmap in Hrun. rewrite (bind_ok _ _ _ _ _ Hrun).
    destruct (words_for (dictionary ws) (map index nums) !! k) as [w|] eqn:Hw.
    + destruct (word_found _ _ _ Hsm Hw) as (p & n & Hp & Hnp & He & Hwd). rewrite Hp.
      step (node_loads s p n Hnp). rewrite He, Hwd. exists (Some p). split; [done|]. cbn.
      split; [done|]. rewrite Hw. split; [by eexists|by rewrite Hp].
    + destruct (word_missing _ _ Hsm Hw) as [Hp|(p & n & Hp & Hnp & He & H8)]; rewrite Hp.
      * by exists None.
      * step (node_loads s p n Hnp). rewrite He. exists (Some p). split; [done|]. cbn.
        split; [by eexists|done].
  - cbn [starts_with Z.eqb Pos.eqb andb].
    assert (H35 : Forall key_char [35]) by (constructor; [by right|constructor]).
    destruct at_word as [[ds k]|]; unfold respond; cbn [points fmap option_fmap option_map fst snd] in *.
    + destruct Hcur as (Hsm & [w Hw] & ->). destruct (word_found _ _ _ Hsm Hw) as (p & n & Hp & Hnp & _ & _).
      rewrite Hp. pose proof (search_trie_ok base root [35] s p Hs ltac:(by eexists) H35) as Hrun. step Hrun.
      assert (Hnext : walk (nodes s) p (map key_index [35]) = walk (nodes s) root (ds ++ replicate (S k) 8%nat)).
      { rewrite replicate_snoc, app_assoc, walk_app, Hp. done. }
      rewrite Hnext. destruct (words_for (dictionary ws) ds !! S k) as [w'|] eqn:Hw'.
      * destruct (word_found _ _ _ Hsm Hw') as (p' & n' & Hp' & Hnp' & _ & Hwd'). rewrite Hp'.
        step (node_loads s p' n' Hnp'). rewrite Hwd'. exists (Some p'). split; [done|].
        cbn [snd]. split; [done|]. rewrite Hw'. split; [by eexists|by rewrite Hp'].
      * destruct (word_missing _ _ Hsm Hw') as [Hp'|(p' & n' & Hp' & Hnp' & He' & _)].
        -- rewrite Hp'. by exists None.
        -- (* a node along [#] ends a word *)
           exfalso. pose proof (Hh ds (S k) Hsm) as Hv. rewrite Hw' in Hv.
           destruct Hv as [Hv|[? _]]; [|done]. unfold view in Hv. rewrite Hp' in Hv. cbn in Hv.
           by rewrite Hnp' in Hv.
    + destruct cur as [p|]; [|by exists None]. destruct Hcur as [Hp H8].
      pose proof (search_trie_ok base root [35] s p Hs Hp H35) as Hrun. step Hrun.
      change (map key_index [35]) with [8%nat]. cbn [walk mbind option_bind]. rewrite H8. by exists None.
Qed.

Lemma typed_not_exit t : typed_ok t -> starts_with [101; 120; 105; 116] (typed_text t) = false.
Proof.
  intros [_ Ht]. destruct t as [[|c nums] k|rest]; cbn in *; [by destruct Ht| |done].
  destruct Ht as [_ Hn]. inversion Hn; subst. by rewrite (proj2 (Z.eqb_neq c 101)) by lia.
Qed.

Lemma t9_loop_ok ts bye after : Forall typed_ok ts -> starts_with [101; 120; 105; 116] bye = true ->
  Z.of_nat (length bye) < MAX_LINELEN -> forall cur at_word, points s root ws cur at_word ->
  t9_loop root cur (map typed_text ts ++ bye :: after) s = Ok (replies ws at_word ts, s).
Proof.
  intros Hts Hbye Hlen. induction Hts as [|t ts Ht _ IH]; intros cur at_word Hcur; cbn [map app t9_loop].
  - rewrite Hbye, (proj2 (Z.ltb_lt _ _) Hlen). done.
  - rewrite (typed_not_exit t Ht). destruct (t9_round_ok cur at_word t Hcur Ht) as (cur' & Hrun & Hcur').
    step Hrun. cbn [replies]. destruct (respond ws at_word t) as [r at']. cbn [fst snd] in *.
    step (IH cur' at' Hcur'). done.
Qed.
End session.

(** More fuel gives the same run. *)
Lemma last_same_mono fuel fuel' p s r : (fuel <= fuel')%nat ->
  last_same fuel p s = Ok r -> last_same fuel' p s = Ok r.
Proof.
  revert fuel' p s. induction fuel as [|fuel IH]; intros [|fuel'] p s Hf H; [done|done|lia|].
  cbn [last_same] in *. unfold bind in *. destruct (load_node p s) as [[n s1]|]; [|done].
  destruct (get_child n 8 s1) as [[[q|] s2]|]; [|done|done]. apply IH; [lia|done].
Qed.

Lemma insert_word_mono fuel fuel' root nums w s r : (fuel <= fuel')%nat ->
  insert_word fuel root nums w s = Ok r -> insert_word fuel' root nums w s = Ok r.
Proof.
  intros Hf H. destruct r as [a s']. unfold insert_word in *. destruct root as [root|]; [|done].
  apply bind_inv in H as ([cur|] & s1 & H1 & H); rewrite (bind_ok _ _ _ _ _ H1); [|done].
  apply bind_inv in H as (n & s2 & H2 & H). rewrite (bind_ok _ _ _ _ _ H2).
  destruct (negb (isEnd n)); [done|]. apply bind_inv in H as (q & s3 & H3 & H).
  by rewrite (bind_ok _ _ _ _ _ (last_same_mono _ _ _ _ _ Hf H3)).
Qed.

Lemma read_lines_mono fuel : forall fuel' bytes trie s r, (fuel <= fuel')%nat ->
  read_lines fuel bytes trie s = Ok r -> read_lines fuel' bytes trie s = Ok r.
Proof.
  induction fuel as [|fuel IH]; intros fuel' bytes trie s r Hf H;
    (destruct bytes as [|c bytes]; [by destruct fuel'|]); [done|].
  destruct r as [a s'].
  destruct fuel' as [|fuel']; [lia|]. unfold read_lines in *; fold read_lines in *.
  destruct (fgets_chunk _ _) as [chunk rest].
  apply bind_inv in H as (b & s1 & H1 & H). rewrite (bind_ok _ _ _ _ _ H1).
  apply bind_inv in H as ([] & s2 & H2 & H).
  rewrite (bind_ok _ _ _ _ _ (insert_word_mono _ (S fuel') _ _ _ _ _ Hf H2)).
  apply bind_inv in H as ([] & s3 & H3 & H). rewrite (bind_ok _ _ _ _ _ H3).
  apply IH; [lia|done].
Qed.

Lemma t9_main_ok s ws ts bye after : plentiful (al s) -> nodes s = ∅ -> Forall dictionary_word ws ->
  Forall typed_ok ts -> starts_with [101; 120; 105; 116] bye = true ->
  Z.of_nat (length bye) < MAX_LINELEN ->
  exists n, forall fuel, (n <= fuel)%nat -> exists s',
    t9_main fuel 2 (Some (dictionary_file ws, false)) (map typed_text ts ++ bye :: after) s =
      Ok ((EXIT_SUCCESS, replies ws None ts), s') /\ nodes s' = ∅ /\ live (al s') = live (al s).
Proof.
  intros Hp He Hws Hts Hbye Hlen. destruct (create_empty_trie_ok s Hp He) as (root & s1 & H1 & Hs1 & Hh1).
  destruct (read_lines_ok _ root ws [] s1 (2 * length ws)%nat Hs1 Hh1 Hws) as (s2 & H2 & Hs2 & Hh2); [cbn; lia|].
  destruct (delete_root_ok _ root s2 Hs2) as [n Hn]. exists (n + 2 * length ws)%nat. intros fuel Hf.
  destruct (Hn fuel ltac:(lia)) as (s' & H3 & Hnodes & Hlive). exists s'. split; [|done].
  unfold t9_main. cbn [negb Z.eqb Pos.eqb]. step H1.
  assert (H2' : read_data fuel (Some (dictionary_file ws, false)) root s1 = Ok (true, s2)).
  { unfold read_data. by rewrite (bind_ok _ _ _ _ _ (read_lines_mono (2 * length ws) fuel _ _ _ _ ltac:(lia) H2)). }
  step H2'. pose proof (t9_loop_ok _ s2 root Hs2 ws Hh2 ts bye after Hts Hbye Hlen None None I) as Hl.
  step Hl. by step H3.
Qed.

(** ** Properties *)

(** C23: with a dictionary of one word a line, whatever the letters, a session answers
    a number followed by [k] [#]s with the [k]-th word that it spells, in the order
    of the dictionary, and a [#] with the word after the last one found; when there
    is no such word it says so.  It ends at "exit" with status 0 and gives every
    block of the trie back. *)
Theorem t9_session s ws ts bye after : plentiful (al s) -> nodes s = ∅ -> Forall dictionary_word ws ->
  Forall typed_ok ts -> starts_with [101; 120; 105; 116] bye = true ->
  Z.of_nat (length bye) < MAX_LINELEN ->
  exists n, forall fuel, (n <= fuel)%nat -> exists s',
    t9_main fuel 2 (Some (dictionary_file ws, false)) (map typed_text ts ++ bye :: after) s =
      Ok ((EXIT_SUCCESS, replies ws None ts), s') /\ nodes s' = ∅ /\ live (al s') = live (al s).
Proof. intros Hp He Hws Hts Hbye Hlen. by apply t9_main_ok. Qed.

(** *** A dictionary *)

Definition acres : list Z := [97; 99; 114; 101; 115].
Definition bards : list Z := [98; 97; 114; 100; 115].
Definition pax : list Z := [112; 97; 120].
Definition no_nodes : heap := mk_heap (mkMem 1 (fun _ => false) 0 0) ∅.
(** "22737", "#", "#", "729", "22737#", "exit" *)
Definition keys : list typed :=
  [Key [50; 50; 55; 51; 55] 0; Next []; Next []; Key [55; 50; 57] 0; Key [50; 50; 55; 51; 55] 1].

Lemma t9_session_witness : exists n, forall fuel, (n <= fuel)%nat -> exists s',
  t9_main fuel 2 (Some (dictionary_file [acres; pax; bards], false))
      (map typed_text keys ++ [[101; 120; 105; 116]]) no_nodes =
    Ok ((0, [Found (Some acres); Found (Some bards); NoMore; Found (Some pax); Found (Some bards)]), s') /\
  nodes s' = ∅ /\ live (al s') = 0.
Proof.
  apply (t9_session no_nodes [acres; pax; bards] keys [101; 120; 105; 116] []); try done.
  - repeat constructor; discriminate.
  - repeat constructor; discriminate.
Defined.

(** A key that is neither a number nor [#] reads outside the children. *)
Example bad_key : match t9_main 20 2 (Some (dictionary_file [pax], false)) [[104]; [101; 120; 105; 116]] no_nodes with
  | Err BadAccess => True | _ => False end.
Proof. vm_compute. exact I. Qed.
