(* ===== verification/Monitor.v ===== *)
(** The kernel monitor: [mit6.828/lab/lib/readline.c], [kern/monitor.c] and
    [kern/init.c], over the console's interface.  A call of [cprintf] is its format
    and its arguments. *)
From Stdlib Require Import ZArith Lia String.
From stdpp Require Import strings.
From S2P Require Import Prelude.
Open Scope Z_scope.

(** An argument of [cprintf]: an integer or a string. *)
Inductive arg : Type := ArgInt (n : Z) | ArgStr (s : list Z).

(** A format that ends in a newline. *)
Definition ln (fmt : string) : string := (fmt ++ String (Ascii.ascii_of_nat 10) EmptyString)%string.

(** What the monitor uses of the console. *)
Class Terminal (St : Type) : Type := {
  getchar : M St Z;
  cputchar : Z -> M St unit;
  cprintf : string -> list arg -> M St unit;
  iscons : Z -> Z
}.

(** ** readline.c *)

Definition BUFLEN : Z := 1024.

Section monitor.
Context {St : Type} `{Terminal St}.

(** The static buffer beside the console. *)
Definition lift {A} (m : M St A) : M (list Z * St) A := fun s =>
  match m s.2 with Ok (a, s') => Ok (a, (s.1, s')) | Err e => Err e end.
Definition store_char (i c : Z) : M (list Z * St) unit := fun s =>
  if (0 <=? i) && (i <? Z.of_nat (length s.1))
  then Ok (tt, (<[Z.to_nat i := u8 c]> s.1, s.2)) else Err BadAccess.

(** The loop, with [i] characters in the buffer; is there a line at the end? *)
Fixpoint readline_loop (fuel : nat) (echoing i : Z) : M (list Z * St) bool :=
  match fuel with
  | O => fail OutOfFuel
  | S fuel' =>
      let* c := lift getchar in
      if c <? 0 then do* lift (cprintf (ln "read error: %e") [ArgInt c]); ret false
      else if ((c =? 8) || (c =? 127)) && (0 <? i) then
        do* (if echoing =? 0 then ret tt else lift (cputchar 8));
        readline_loop fuel' echoing (i - 1)
      else if (32 <=? c) && (i <? BUFLEN - 1) then
        do* (if echoing =? 0 then ret tt else lift (cputchar c));
        do* store_char i c;
        readline_loop fuel' echoing (i + 1)
      else if (c =? 10) || (c =? 13) then
        do* (if echoing =? 0 then ret tt else lift (cputchar 10));
        do* store_char i 0;
        ret true
      else readline_loop fuel' echoing i
  end.

Definition readline (fuel : nat) (prompt : option (list Z)) : M (list Z * St) bool :=
  do* (match prompt with Some p => lift (cprintf "%s" [ArgStr p]) | None => ret tt end);
  readline_loop fuel (iscons 0) 0.

(** ** monitor.c *)

(** Kernel symbols the linker defines. *)
Record symbols : Type := mk_symbols {
  start_ : Z; entry : Z; etext : Z; edata : Z; end_ : Z
}.
Definition KERNBASE : Z := 0xF0000000.
Definition ROUNDDOWN (a n : Z) : Z := u32 a - u32 a mod n.
Definition ROUNDUP (a n : Z) : Z := ROUNDDOWN (u32 (u32 a + u32 n - 1)) (u32 n).

(** The characters of a literal. *)
Definition literal (s : string) : list Z :=
  map (fun a => Z.of_N (Ascii.N_of_ascii a)) (list_ascii_of_string s).

Inductive mon_func : Type := MonHelp | MonKerninfo.
Record Command : Type := mk_command { name : list Z; desc : list Z; func : mon_func }.
Definition commands : list Command :=
  [mk_command (literal "help") (literal "Display this list of commands") MonHelp;
   mk_command (literal "kerninfo") (literal "Display information about the kernel") MonKerninfo].

Fixpoint help_lines (cs : list Command) : M St unit :=
  match cs with
  | [] => ret tt
  | c :: cs' => do* cprintf (ln "%s - %s") [ArgStr (name c); ArgStr (desc c)]; help_lines cs'
  end.
Definition mon_help : M St Z := do* help_lines commands; ret 0.

Definition mon_kerninfo (k : symbols) : M St Z :=
  do* cprintf (ln "Special kernel symbols:") [];
  do* cprintf (ln "  _start                  %08x (phys)") [ArgInt (start_ k)];
  do* cprintf (ln "  entry  %08x (virt)  %08x (phys)") [ArgInt (entry k); ArgInt (u32 (entry k - KERNBASE))];
  do* cprintf (ln "  etext  %08x (virt)  %08x (phys)") [ArgInt (etext k); ArgInt (u32 (etext k - KERNBASE))];
  do* cprintf (ln "  edata  %08x (virt)  %08x (phys)") [ArgInt (edata k); ArgInt (u32 (edata k - KERNBASE))];
  do* cprintf (ln "  end    %08x (virt)  %08x (phys)") [ArgInt (end_ k); ArgInt (u32 (end_ k - KERNBASE))];
  do* cprintf (ln "Kernel executable memory footprint: %dKB")
    [ArgInt (Z.quot (s32 (ROUNDUP (end_ k - entry k) 1024)) 1024)];
  ret 0.

Definition mon_backtrace : M St Z := ret 0.

(** The commands do not look at their arguments. *)
Definition run_func (f : mon_func) (k : symbols) : M St Z :=
  match f with MonHelp => mon_help | MonKerninfo => mon_kerninfo k end.

Definition MAXARGS : Z := 16.
(** [strchr(WHITESPACE, c)] for a [c] that is not NUL *)
Definition whitespace (c : Z) : bool := (c =? 9) || (c =? 13) || (c =? 10) || (c =? 32).

Definition load_char (i : Z) : M (list Z * St) Z := fun s =>
  if i <? 0 then Err BadAccess
  else match s.1 !! Z.to_nat i with Some c => Ok (c, s) | None => Err BadAccess end.

(** [while ( *buf && strchr(WHITESPACE, *buf)) *buf++ = 0;] from index [i] *)
Fixpoint gobble (fuel : nat) (i : Z) : M (list Z * St) Z :=
  match fuel with
  | O => fail OutOfFuel
  | S fuel' =>
      let* c := load_char i in
      if negb (c =? 0) && whitespace c then do* store_char i 0; gobble fuel' (i + 1) else ret i
  end.

Fixpoint scan_arg (fuel : nat) (i : Z) : M (list Z * St) Z :=
  match fuel with
  | O => fail OutOfFuel
  | S fuel' =>
      let* c := load_char i in
      if negb (c =? 0) && negb (whitespace c) then scan_arg fuel' (i + 1) else ret i
  end.

(** The loop; [argv] holds the indices of the arguments so far. *)
Fixpoint parse_args (fuel : nat) (argv : list Z) (i : Z) : M (list Z * St) (option (list Z)) :=
  match fuel with
  | O => fail OutOfFuel
  | S fuel' =>
      let* i := gobble fuel i in
      let* c := load_char i in
      if c =? 0 then ret (Some argv)
      else if Z.of_nat (length argv) =? MAXARGS - 1 then
        do* lift (cprintf (ln "Too many arguments (max %d)") [ArgInt MAXARGS]); ret None
      else
        let* j := scan_arg fuel i in
        parse_args fuel' (argv ++ [i]) j
  end.

(** The string at an index. *)
Fixpoint string_from (bytes : list Z) : option (list Z) :=
  match bytes with
  | [] => None
  | c :: bytes' => if c =? 0 then Some [] else option_map (cons c) (string_from bytes')
  end.
Definition string_at (i : Z) : M (list Z * St) (list Z) := fun s =>
  match string_from (drop (Z.to_nat i) s.1) with Some w => Ok (w, s) | None => Err BadAccess end.

Fixpoint lookup_command (cs : list Command) (argv0 : list Z) : option Command :=
  match cs with
  | [] => None
  | c :: cs' => if decide (argv0 = name c) then Some c else lookup_command cs' argv0
  end.

Definition runcmd (fuel : nat) (k : symbols) : M (list Z * St) Z :=
  let* argv := parse_args fuel [] 0 in
  match argv with
  | None | Some [] => ret 0
  | Some (argv0 :: _) =>
      let* w := string_at argv0 in
      match lookup_command commands w with
      | Some c => lift (run_func (func c) k)
      | None => do* lift (cprintf (ln "Unknown command '%s'") [ArgStr w]); ret 0
      end
  end.

(** [n] rounds of the loop; true when a command asked to leave it. *)
Fixpoint monitor_loop (n fuel : nat) (k : symbols) : M (list Z * St) bool :=
  match n with
  | O => ret false
  | S n' =>
      let* line := readline fuel (Some (literal "K> ")) in
      let* r := (if (line : bool) then runcmd fuel k else ret 0) in
      if r <? 0 then ret true else monitor_loop n' fuel k
  end.

Definition monitor (n fuel : nat) (k : symbols) : M (list Z * St) bool :=
  do* lift (cprintf (ln "Welcome to the JOS kernel monitor!") []);
  do* lift (cprintf (ln "Type 'help' for a list of commands.") []);
  monitor_loop n fuel k.

(** ** init.c *)

Fixpoint test_backtrace (x : nat) : M St unit :=
  do* cprintf (ln "entering test_backtrace %d") [ArgInt (Z.of_nat x)];
  do* (match x with
       | S x' => test_backtrace x'
       | O => let* _ := mon_backtrace in ret tt
       end);
  cprintf (ln "leaving test_backtrace %d") [ArgInt (Z.of_nat x)].

(** [clear_bss] is the [memset] and [init] is [cons_init]; [n] rounds of the monitor. *)
Definition i386_init (clear_bss init : M St unit) (n fuel : nat) (k : symbols) : M (list Z * St) bool :=
  do* lift clear_bss;
  do* lift init;
  do* lift (cprintf (ln "6828 decimal is %o octal!") [ArgInt 6828]);
  do* lift (test_backtrace 5);
  monitor n fuel k.

(** [panicstr] before and after; [message] is the format and its arguments. *)
Definition panic_ (panicstr : option string) (file : list Z) (line : Z) (fmt : string) (args : list arg)
    (n fuel : nat) (k : symbols) : M (list Z * St) (option string * bool) :=
  match panicstr with
  | Some _ => let* r := monitor n fuel k in ret (panicstr, r)
  | None =>
      do* lift (cprintf "kernel panic at %s:%d: " [ArgStr file; ArgInt line]);
      do* lift (cprintf fmt args);
      do* lift (cprintf (ln "") []);
      let* r := monitor n fuel k in
      ret (Some fmt, r)
  end.

Definition warn_ (file : list Z) (line : Z) (fmt : string) (args : list arg) : M St unit :=
  do* cprintf "kernel warning at %s:%d: " [ArgStr file; ArgInt line];
  do* cprintf fmt args;
  cprintf (ln "") [].
End monitor.
