(* ===== verification/MonitorSpec.v ===== *)
(** What the kernel monitor of [Monitor] shows and does: a line is the keys typed
    with the erased ones left out, it is split at blanks inside the buffer, and each
    line is answered by its command. *)
From Stdlib Require Import ZArith Lia String.
From stdpp Require Import strings.
From S2P Require Import Prelude Monitor.
Open Scope Z_scope.

(** ** What a terminal promises *)

Inductive shown : Type := Chr (c : Z) | Printed (fmt : string) (args : list arg).

(** The keys to come and what was shown, and how the operations change them. *)
Class TerminalSpec (St : Type) `{Terminal St} : Type := {
  keys : St -> list Z;
  screen : St -> list shown;
  getchar_spec s c cs : keys s = c :: cs ->
    exists s', getchar s = Ok (c, s') /\ keys s' = cs /\ screen s' = screen s;
  cputchar_spec c s :
    exists s', cputchar c s = Ok (tt, s') /\ keys s' = keys s /\ screen s' = screen s ++ [Chr c];
  cprintf_spec fmt args s :
    exists s', cprintf fmt args s = Ok (tt, s') /\ keys s' = keys s /\
      screen s' = screen s ++ [Printed fmt args]
}.

Section monitor.
Context {St : Type} `{TerminalSpec St}.
Local Abbreviation state := (list Z * St)%type.

(** [m] returns [a], uses the keys up to [cs] and shows [out]. *)
Definition runs {S A} (view : S -> St) (m : M S A) (s : S) (a : A) (s' : S) (out : list shown) : Prop :=
  m s = Ok (a, s') /\ keys (view s') = keys (view s) /\ screen (view s') = screen (view s) ++ out.

Lemma runs_bind {S A B} (view : S -> St) (m : M S A) (k : A -> M S B) s a s1 out1 b s2 out2 :
  runs view m s a s1 out1 -> runs view (k a) s1 b s2 out2 -> runs view (bind m k) s b s2 (out1 ++ out2).
Proof.
  intros (H1 & Hk1 & Hs1) (H2 & Hk2 & Hs2). split; [by rewrite (bind_ok _ _ _ _ _ H1)|].
  split; [congruence|]. by rewrite Hs2, Hs1, app_assoc.
Qed.

Lemma runs_ret {S A} (view : S -> St) (a : A) s : runs view (ret a) s a s [].
Proof. split; [done|]. by rewrite app_nil_r. Qed.

Lemma runs_cprintf fmt args s : exists s', runs id (cprintf fmt args) s tt s' [Printed fmt args].
Proof. destruct (cprintf_spec fmt args s) as (s' & ? & ? & ?). by exists s'. Qed.

Lemma runs_lift {A} (m : M St A) buf s a s' out :
  runs id m s a s' out -> runs snd (lift m) (buf, s) a (buf, s') out.
Proof. intros (Hm & Hk & Hs). split; [|done]. unfold lift. cbn. by rewrite Hm. Qed.

(** ** Reading a line *)

(** The line after a key that does not end it. *)
Definition edit (line : list Z) (c : Z) : list Z :=
  if ((c =? 8) || (c =? 127)) && negb (bool_decide (line = [])) then take (length line - 1) line
  else if (32 <=? c) && (Z.of_nat (length line) <? BUFLEN - 1) then line ++ [c]
  else line.
(** What it shows. *)
Definition edit_echo (line : list Z) (c : Z) : list shown :=
  if iscons 0 =? 0 then []
  else if ((c =? 8) || (c =? 127)) && negb (bool_decide (line = [])) then [Chr 8]
  else if (32 <=? c) && (Z.of_nat (length line) <? BUFLEN - 1) then [Chr c]
  else [].
Fixpoint echoes (line ks : list Z) : list shown :=
  match ks with [] => [] | c :: ks' => edit_echo line c ++ echoes (edit line c) ks' end.
Definition echo_end : list shown := if iscons 0 =? 0 then [] else [Chr 10].

Definition edit_key (c : Z) : Prop := 0 <= c < 256 /\ c <> 10 /\ c <> 13.

(** The buffer begins with the line. *)
Definition starts (buf line : list Z) : Prop :=
  Z.of_nat (length buf) = BUFLEN /\ exists tail, buf = line ++ tail.

Lemma edit_length line c : Z.of_nat (length line) <= BUFLEN - 1 -> Z.of_nat (length (edit line c)) <= BUFLEN - 1.
Proof.
  intros Hl. unfold edit. destruct (_ && _); [rewrite length_take; lia|].
  destruct (32 <=? c), (Z.ltb_spec (Z.of_nat (length line)) (BUFLEN - 1)); cbn [andb]; try done.
  rewrite length_app. cbn. lia.
Qed.

Lemma starts_take buf line n : starts buf line -> starts buf (take n line).
Proof.
  intros [Hl [tail ->]]. split; [done|]. exists (drop n line ++ tail).
  by rewrite app_assoc, take_drop.
Qed.

Lemma store_char_ok buf line c (s : St) : starts buf line -> Z.of_nat (length line) < BUFLEN ->
  0 <= c < 256 ->
  exists buf', store_char (Z.of_nat (length line)) c (buf, s) = Ok (tt, (buf', s)) /\
    starts buf' (line ++ [c]).
Proof.
  intros [Hl [tail ->]] Hlt Hc. unfold store_char. cbn [fst snd].
  rewrite (proj2 (Z.leb_le 0 _)), (proj2 (Z.ltb_lt _ _)) by lia. cbn [andb].
  eexists. split; [done|]. rewrite Nat2Z.id, (wrapu_small 8 c) by bound_lia.
  destruct tail as [|x tail]; [rewrite app_nil_r in Hl; lia|].
  rewrite insert_app_r_alt, Nat.sub_diag by lia. split; [|by exists tail; rewrite <- app_assoc].
  rewrite length_app in *. cbn in *. lia.
Qed.

(** One key that does not end the line: the turn of the loop. *)
Lemma readline_key fuel c cs buf s line :
  keys s = c :: cs -> edit_key c -> starts buf line -> Z.of_nat (length line) <= BUFLEN - 1 ->
  exists buf' s', keys s' = cs /\ screen s' = screen s ++ edit_echo line c /\ starts buf' (edit line c) /\
    readline_loop (S fuel) (iscons 0) (Z.of_nat (length line)) (buf, s) =
    readline_loop fuel (iscons 0) (Z.of_nat (length (edit line c))) (buf', s').
Proof.
  intros Hk (Hc & H10 & H13) Hb Hlen. destruct (getchar_spec s c cs Hk) as (s1 & H1 & Hk1 & Hs1).
  assert (Hget : lift getchar (buf, s) = Ok (c, (buf, s1))) by (unfold lift; cbn; by rewrite H1).
  cbn [readline_loop]. rewrite (bind_ok _ _ _ _ _ Hget).
  rewrite (proj2 (Z.ltb_ge c 0)), (proj2 (Z.eqb_neq c 10)), (proj2 (Z.eqb_neq c 13)) by lia.
  assert (Hpos : (0 <? Z.of_nat (length line)) = negb (bool_decide (line = []))).
  { destruct line; [done|]. by rewrite bool_decide_eq_false_2. }
  assert (Hecho : forall x, exists s', (if iscons 0 =? 0 then ret tt else lift (cputchar x)) (buf, s1) =
      Ok (tt, (buf, s')) /\ keys s' = cs /\
      screen s' = screen s ++ (if iscons 0 =? 0 then [] else [Chr x])).
  { intros x. destruct (iscons 0 =? 0).
    - exists s1. by rewrite app_nil_r, Hs1.
    - destruct (cputchar_spec x s1) as (s' & Hr & ? & Hs'). exists s'. unfold lift. cbn. rewrite Hr.
      split; [done|]. split; [congruence|]. by rewrite Hs', Hs1. }
  rewrite Hpos. unfold edit, edit_echo.
  destruct (((c =? 8) || (c =? 127)) && _) eqn:Herase; [|destruct ((32 <=? c) && _) eqn:Hadd].
  - destruct (Hecho 8) as (s2 & H2 & Hk2 & Hs2). rewrite (bind_ok _ _ _ _ _ H2).
    exists buf, s2. split; [done|]. split; [by destruct (iscons 0 =? 0)|].
    split; [by apply starts_take|]. f_equal. rewrite length_take.
    apply andb_true_iff in Herase as [_ Hne]. destruct line; [done|]. cbn [length]. lia.
  - destruct (Hecho c) as (s2 & H2 & Hk2 & Hs2). rewrite (bind_ok _ _ _ _ _ H2).
    apply andb_true_iff in Hadd as [_ Hlt]. apply Z.ltb_lt in Hlt.
    destruct (store_char_ok buf line c s2 Hb) as (buf' & H3 & Hb'); [lia|done|].
    rewrite (bind_ok _ _ _ _ _ H3). exists buf', s2. split; [done|].
    split; [by destruct (iscons 0 =? 0)|]. split; [done|]. rewrite length_app. cbn [length].
    f_equal. lia.
  - exists buf, s1. split; [done|]. split; [|done]. rewrite Hs1. by destruct (iscons 0 =? 0); rewrite app_nil_r.
Qed.

Lemma readline_loop_ok ks : forall fuel c cs buf s line,
  keys s = ks ++ c :: cs -> Forall edit_key ks -> c = 10 \/ c = 13 -> starts buf line ->
  Z.of_nat (length line) <= BUFLEN - 1 -> (length ks < fuel)%nat ->
  exists buf' s', readline_loop fuel (iscons 0) (Z.of_nat (length line)) (buf, s) = Ok (true, (buf', s')) /\
    keys s' = cs /\ screen s' = screen s ++ echoes line ks ++ echo_end /\
    starts buf' (fold_left edit ks line ++ [0]).
Proof.
  induction ks as [|k ks IH]; intros [|fuel] c cs buf s line Hk Hks Hc Hb Hlen Hf; cbn in Hf; try lia.
  - destruct (getchar_spec s c cs Hk) as (s1 & H1 & Hk1 & Hs1). cbn [readline_loop].
    assert (Hget : lift getchar (buf, s) = Ok (c, (buf, s1))) by (unfold lift; cbn; by rewrite H1).
    rewrite (bind_ok _ _ _ _ _ Hget).
    assert (Hend : exists s2, (if iscons 0 =? 0 then ret tt else lift (cputchar 10)) (buf, s1) =
      Ok (tt, (buf, s2)) /\ keys s2 = cs /\ screen s2 = screen s ++ echo_end).
    { unfold echo_end. destruct (iscons 0 =? 0).
      - exists s1. by rewrite app_nil_r, Hs1.
      - destruct (cputchar_spec 10 s1) as (s' & Hr & ? & Hs'). exists s'. unfold lift. cbn. rewrite Hr.
        split; [done|]. split; [congruence|]. by rewrite Hs', Hs1. }
    destruct Hend as (s2 & H2 & Hk2 & Hs2).
    destruct (store_char_ok buf line 0 s2 Hb) as (buf' & H3 & Hb'); [lia|lia|].
    exists buf', s2. cbn [echoes fold_left app].
    destruct Hc as [-> | ->]; cbn -[readline_loop store_char lift]; rewrite (bind_ok _ _ _ _ _ H2);
      by rewrite (bind_ok _ _ _ _ _ H3).
  - inversion Hks as [|? ? Hkey Hks']; subst.
    destruct (readline_key fuel k (ks ++ c :: cs) buf s line Hk Hkey Hb Hlen) as (b1 & s1 & Hk1 & Hs1 & Hb1 & ->).
    destruct (IH fuel c cs b1 s1 (edit line k)) as (b2 & s2 & Hrun & Hk2 & Hs2 & Hb2); auto.
    { by apply edit_length. } { lia. }
    exists b2, s2. split; [done|]. split; [done|]. split; [|done]. cbn [echoes].
    by rewrite Hs2, Hs1, <- !app_assoc.
Qed.

(** ** Splitting a line in place *)

Definition clean (c : Z) : Prop := 0 < c < 256.
Definition blank (c : Z) : Z := if whitespace c then 0 else c.
(** The words of a line, after the characters [w] of one. *)
Fixpoint words (line w : list Z) : list (list Z) :=
  match line with
  | [] => match w with [] => [] | _ => [w] end
  | c :: line' =>
      if whitespace c then (match w with [] => [] | _ => [w] end) ++ words line' []
      else words line' (w ++ [c])
  end.

(** What may follow a word. *)
Definition word_end (rest : list Z) : Prop :=
  match rest with [] => True | c :: _ => whitespace c = true end.

Lemma words_blanks bl rest : Forall (fun c => whitespace c = true) bl -> words (bl ++ rest) [] = words rest [].
Proof. induction 1 as [|c bl Hc _ IH]; cbn; [done|]. by rewrite Hc. Qed.

Lemma words_word w rest : forall acc, Forall (fun c => whitespace c = false) w -> acc ++ w <> [] ->
  word_end rest -> words (w ++ rest) acc = (acc ++ w) :: words rest [].
Proof.
  induction w as [|c w IH]; intros acc Hw Hne Hrest; cbn [app words].
  - rewrite app_nil_r in *. destruct rest as [|c rest]; cbn in *; [by destruct acc|].
    rewrite Hrest. by destruct acc.
  - inversion Hw as [|? ? Hc Hw']; subst. rewrite Hc, IH; [by rewrite <- app_assoc|done| |done].
    by destruct acc.
Qed.

(** A line is blanks, a word, and what follows. *)
Lemma line_parts line : exists bl w rest, line = bl ++ w ++ rest /\
  Forall (fun c => whitespace c = true) bl /\ Forall (fun c => whitespace c = false) w /\
  word_end rest /\ (w = [] -> rest = []).
Proof.
  induction line as [|c line (bl & w & rest & -> & Hbl & Hw & Hr & He)]; [by exists [], [], []|].
  destruct (whitespace c) eqn:Hc.
  - exists (c :: bl), w, rest. split; [done|]. by split; [constructor|].
  - destruct bl as [|b bl].
    + exists [], (c :: w), rest. split; [done|]. split; [done|]. split; [by constructor|]. by split.
    + exists [], [c], (b :: bl ++ w ++ rest). inversion Hbl; subst. split; [done|]. split; [done|].
      split; [by repeat constructor|]. by split.
Qed.

Lemma load_char_ok pre c rest (s : St) : load_char (Z.of_nat (length pre)) (pre ++ c :: rest, s) =
  Ok (c, (pre ++ c :: rest, s)).
Proof.
  unfold load_char. rewrite (proj2 (Z.ltb_ge _ 0)) by lia. cbn [fst]. rewrite Nat2Z.id.
  by rewrite list_lookup_middle.
Qed.

Lemma gobble_ok bl : forall pre c rest fuel (s : St),
  Forall (fun c => clean c /\ whitespace c = true) bl -> c = 0 \/ whitespace c = false ->
  (length bl < fuel)%nat ->
  gobble fuel (Z.of_nat (length pre)) (pre ++ bl ++ c :: rest, s) =
    Ok (Z.of_nat (length (pre ++ bl)), (pre ++ map blank bl ++ c :: rest, s)).
Proof.
  induction bl as [|b bl IH]; intros pre c rest [|fuel] s Hbl Hc Hf; cbn in Hf; try lia; cbn [gobble app map].
  - rewrite (bind_ok _ _ _ _ _ (load_char_ok pre c rest s)), app_nil_r.
    destruct Hc as [->|Hc]; [done|]. by rewrite Hc, andb_false_r.
  - inversion Hbl as [|? ? [Hcl Hws] Hbl']; subst.
    rewrite (bind_ok _ _ _ _ _ (load_char_ok pre b _ s)), Hws.
    unfold clean in Hcl. rewrite (proj2 (Z.eqb_neq b 0)) by lia. cbn [negb andb].
    assert (Hst : store_char (Z.of_nat (length pre)) 0 (pre ++ b :: bl ++ c :: rest, s) =
      Ok (tt, ((pre ++ [0]) ++ bl ++ c :: rest, s))).
    { unfold store_char. cbn [fst snd]. rewrite length_app. cbn [length].
      rewrite (proj2 (Z.leb_le 0 _)), (proj2 (Z.ltb_lt _ _)) by lia. cbn [andb].
      rewrite Nat2Z.id, insert_app_r_alt, Nat.sub_diag by lia. by rewrite <- app_assoc. }
    rewrite (bind_ok _ _ _ _ _ Hst).
    replace (Z.of_nat (length pre) + 1) with (Z.of_nat (length (pre ++ [0])))
      by (rewrite length_app; cbn; lia).
    rewrite IH by (done || lia). unfold blank at 2. rewrite Hws, <- !app_assoc. cbn [app].
    do 2 f_equal. rewrite !length_app. cbn. lia.
Qed.

Lemma scan_arg_ok w : forall pre c rest fuel (s : St),
  Forall (fun c => clean c /\ whitespace c = false) w -> c = 0 \/ whitespace c = true ->
  (length w < fuel)%nat ->
  scan_arg fuel (Z.of_nat (length pre)) (pre ++ w ++ c :: rest, s) =
    Ok (Z.of_nat (length (pre ++ w)), (pre ++ w ++ c :: rest, s)).
Proof.
  induction w as [|b w IH]; intros pre c rest [|fuel] s Hw Hc Hf; cbn in Hf; try lia; cbn [scan_arg app].
  - rewrite (bind_ok _ _ _ _ _ (load_char_ok pre c rest s)), app_nil_r.
    destruct Hc as [->|Hc]; [done|]. by rewrite Hc, andb_false_r.
  - inversion Hw as [|? ? [Hcl Hws] Hw']; subst.
    rewrite (bind_ok _ _ _ _ _ (load_char_ok pre b _ s)), Hws.
    unfold clean in Hcl. rewrite (proj2 (Z.eqb_neq b 0)) by lia. cbn [negb andb].
    replace (Z.of_nat (length pre) + 1) with (Z.of_nat (length (pre ++ [b])))
      by (rewrite length_app; cbn; lia).
    pose proof (IH (pre ++ [b]) c rest fuel s Hw' Hc ltac:(lia)) as Hr.
    rewrite <- !app_assoc in Hr. cbn [app] in Hr. exact Hr.
Qed.

Lemma map_blank_word w : Forall (fun c => whitespace c = false) w -> map blank w = w.
Proof. induction 1 as [|c w Hc _ IH]; cbn; [done|]. unfold blank at 1. by rewrite Hc, IH. Qed.

Lemma string_from_word w rest tail : Forall clean w -> word_end rest ->
  string_from (w ++ map blank rest ++ 0 :: tail) = Some w.
Proof.
  intros Hw Hr. induction Hw as [|c w Hc _ IH]; cbn.
  - destruct rest as [|c rest]; [done|]. cbn in *. unfold blank. by rewrite Hr.
  - unfold clean in Hc. by rewrite (proj2 (Z.eqb_neq c 0)), IH by lia.
Qed.

Definition string_here (buf : list Z) (i : Z) (w : list Z) : Prop :=
  string_from (drop (Z.to_nat i) buf) = Some w.
Definition too_many : shown := Printed (ln "Too many arguments (max %d)") [ArgInt MAXARGS].

Lemma runs_then {S A B} (view : S -> St) (m : M S A) (k : A -> M S B) s a s1 out b :
  runs view m s a s1 out -> k a = ret b -> runs view (bind m k) s b s1 out.
Proof.
  intros Hm Hk. rewrite <- (app_nil_r out). eapply runs_bind; [exact Hm|]. rewrite Hk. apply runs_ret.
Qed.

(** After the blanks. *)
Lemma parse_args_blanks pre bl c rest argv fuel (s : St) :
  Forall (fun c => clean c /\ whitespace c = true) bl -> c = 0 \/ whitespace c = false ->
  (length bl < S fuel)%nat ->
  parse_args (S fuel) argv (Z.of_nat (length pre)) (pre ++ bl ++ c :: rest, s) =
  (if c =? 0 then ret (Some argv)
   else if Z.of_nat (length argv) =? MAXARGS - 1 then
     do* lift (cprintf (ln "Too many arguments (max %d)") [ArgInt MAXARGS]); ret None
   else
     let* j := scan_arg (S fuel) (Z.of_nat (length (pre ++ bl))) in
     parse_args fuel (argv ++ [Z.of_nat (length (pre ++ bl))]) j)
    ((pre ++ map blank bl) ++ c :: rest, s).
Proof.
  intros Hbl Hc Hf. cbn [parse_args]. rewrite (bind_ok _ _ _ _ _ (gobble_ok bl pre c rest _ s Hbl Hc Hf)).
  rewrite app_assoc. replace (Z.of_nat (length (pre ++ bl))) with (Z.of_nat (length (pre ++ map blank bl)))
    by (by rewrite !length_app, length_map).
  by rewrite (bind_ok _ _ _ _ _ (load_char_ok _ c rest s)).
Qed.

Lemma parse_args_ok n : forall line pre tail argv s fuel,
  (length line < n)%nat -> Forall clean line -> (length argv <= 15)%nat -> (length line + 2 <= fuel)%nat ->
  if decide (length argv + length (words line []) <= 15)%nat then
    let buf' := pre ++ map blank line ++ 0 :: tail in
    exists idxs, parse_args fuel argv (Z.of_nat (length pre)) (pre ++ line ++ 0 :: tail, s) =
        Ok (Some (argv ++ idxs), (buf', s)) /\
      Forall2 (string_here buf') idxs (words line [])
  else
    exists buf' s', runs snd (parse_args fuel argv (Z.of_nat (length pre))) (pre ++ line ++ 0 :: tail, s)
        None (buf', s') [too_many] /\
      length buf' = length (pre ++ line ++ 0 :: tail).
Proof.
  induction n as [|n IH]; intros line pre tail argv s fuel Hn Hcl Hargv Hf; [lia|].
  destruct fuel as [|fuel]; [lia|].
  destruct (line_parts line) as (bl & w & rest & -> & Hbl & Hw & Hrest & Hnil).
  rewrite words_blanks by done. rewrite !Forall_app in Hcl. destruct Hcl as (Hclb & Hclw & Hclr).
  rewrite !length_app in Hn, Hf.
  assert (Hgb : Forall (fun c => clean c /\ whitespace c = true) bl) by by apply Forall_and.
  rewrite <- !app_assoc. destruct w as [|c w].
  - rewrite (Hnil eq_refl). cbn [app words length]. rewrite decide_True by lia.
    rewrite (parse_args_blanks pre bl 0 tail argv fuel s Hgb); [|by left|lia].
    exists []. rewrite !app_nil_r, <- app_assoc. split; [done|constructor].
  - inversion Hw as [|? ? Hc _]; subst. pose proof Hclw as Hclw'. inversion Hclw' as [|? ? Hcc _]; subst.
    unfold clean in Hcc. rewrite (words_word (c :: w) rest [] Hw) by done. cbn [app length].
    unfold runs. rewrite (parse_args_blanks pre bl c _ argv fuel s Hgb); [|by right|lia].
    rewrite (proj2 (Z.eqb_neq c 0)) by lia.
    destruct (Z.eqb_spec (Z.of_nat (length argv)) (MAXARGS - 1)) as [He|He]; unfold MAXARGS in He.
    + rewrite decide_False by lia.
      destruct (runs_cprintf (ln "Too many arguments (max %d)") [ArgInt MAXARGS] s) as (s' & Hr).
      exists ((pre ++ map blank bl) ++ c :: w ++ rest ++ 0 :: tail), s'. split.
      * change (runs snd (do* lift (cprintf (ln "Too many arguments (max %d)") [ArgInt MAXARGS]); ret None)
          ((pre ++ map blank bl) ++ c :: w ++ rest ++ 0 :: tail, s) (@None (list Z))
          ((pre ++ map blank bl) ++ c :: w ++ rest ++ 0 :: tail, s') [too_many]).
        eapply runs_then; [by apply runs_lift|done].
      * by rewrite !length_app, length_map; cbn; rewrite !length_app; lia.
    + assert (Hscan : exists e more, rest ++ 0 :: tail = e :: more /\ (e = 0 \/ whitespace e = true)).
      { destruct rest as [|e rest]; cbn in *; eauto 6. }
      destruct Hscan as (e & more & Hmore & Hend).
      assert (Hgw : Forall (fun c => clean c /\ whitespace c = false) (c :: w)) by by apply Forall_and.
      pose proof (scan_arg_ok (c :: w) (pre ++ map blank bl) e more (S fuel) s Hgw Hend) as Hs.
      rewrite <- Hmore in Hs. cbn [app] in Hs. cbn [length] in *.
      replace (Z.of_nat (length (pre ++ bl))) with (Z.of_nat (length (pre ++ map blank bl)))
        by (by rewrite !length_app, length_map).
      rewrite (bind_ok _ _ _ _ _ (Hs ltac:(lia))). set (i := Z.of_nat (length (pre ++ map blank bl))).
      replace ((pre ++ map blank bl) ++ c :: w ++ rest ++ 0 :: tail) with
        (((pre ++ map blank bl) ++ c :: w) ++ rest ++ 0 :: tail) by by rewrite <- !app_assoc.
      pose proof (IH rest ((pre ++ map blank bl) ++ c :: w) tail (argv ++ [i]) s fuel ltac:(lia) Hclr
        ltac:(rewrite length_app; cbn; lia) ltac:(lia)) as HIH.
      rewrite length_app in HIH. cbn [length] in HIH.
      destruct (decide (length argv + 1 + length (words rest []) <= 15)%nat);
        [rewrite decide_True by lia|rewrite decide_False by lia].
      * destruct HIH as (idxs & Hrun & Hidx). exists (i :: idxs).
        assert (Hbuf : pre ++ map blank (bl ++ c :: w ++ rest) ++ 0 :: tail =
          ((pre ++ map blank bl) ++ c :: w) ++ map blank rest ++ 0 :: tail).
        { change (bl ++ c :: w ++ rest) with (bl ++ (c :: w) ++ rest).
          by rewrite !map_app, (map_blank_word (c :: w) Hw), <- !app_assoc. }
        rewrite Hbuf. split; [by rewrite Hrun, <- app_assoc|]. constructor; [|exact Hidx].
        rewrite <- (app_assoc (pre ++ map blank bl)).
        unfold string_here, i. rewrite Nat2Z.id, drop_app_length.
        by apply (string_from_word (c :: w)).
      * destruct HIH as (buf' & s' & Hrun & Hlen). exists buf', s'. split; [exact Hrun|].
        rewrite Hlen. rewrite !length_app, length_map. cbn. rewrite !length_app. cbn. lia.
Qed.

(** ** Answering a line *)

Definition help_shown : list shown :=
  map (fun c => Printed (ln "%s - %s") [ArgStr (name c); ArgStr (desc c)]) commands.
Definition kerninfo_shown (k : symbols) : list shown :=
  [Printed (ln "Special kernel symbols:") [];
   Printed (ln "  _start                  %08x (phys)") [ArgInt (start_ k)];
   Printed (ln "  entry  %08x (virt)  %08x (phys)") [ArgInt (entry k); ArgInt (u32 (entry k - KERNBASE))];
   Printed (ln "  etext  %08x (virt)  %08x (phys)") [ArgInt (etext k); ArgInt (u32 (etext k - KERNBASE))];
   Printed (ln "  edata  %08x (virt)  %08x (phys)") [ArgInt (edata k); ArgInt (u32 (edata k - KERNBASE))];
   Printed (ln "  end    %08x (virt)  %08x (phys)") [ArgInt (end_ k); ArgInt (u32 (end_ k - KERNBASE))];
   Printed (ln "Kernel executable memory footprint: %dKB")
     [ArgInt (Z.quot (s32 (ROUNDUP (end_ k - entry k) 1024)) 1024)]].

(** What the monitor shows for a line. *)
Definition answer (k : symbols) (line : list Z) : list shown :=
  let ws := words line [] in
  if decide (length ws <= 15)%nat then
    match ws with
    | [] => []
    | w :: _ =>
        if decide (w = literal "help") then help_shown
        else if decide (w = literal "kerninfo") then kerninfo_shown k
        else [Printed (ln "Unknown command '%s'") [ArgStr w]]
    end
  else [too_many].

Lemma runs_prints (calls : list (string * list arg)) (a : Z) s :
  exists s', runs id (foldr (fun c m => do* cprintf c.1 c.2; m) (ret a) calls) s a s'
    (map (fun c => Printed c.1 c.2) calls).
Proof.
  revert s. induction calls as [|[f args] calls IH]; intros s; cbn [foldr map fst snd].
  - exists s. apply (runs_ret id).
  - destruct (runs_cprintf f args s) as (s1 & H1). destruct (IH s1) as (s2 & H2).
    exists s2. exact (runs_bind id _ _ _ _ _ _ _ _ _ H1 H2).
Qed.

Lemma help_lines_ok cs s : exists s', runs id (help_lines cs) s tt s'
  (map (fun c => Printed (ln "%s - %s") [ArgStr (name c); ArgStr (desc c)]) cs).
Proof.
  revert s. induction cs as [|c cs IH]; intros s; cbn [help_lines map].
  - exists s. apply (runs_ret id).
  - destruct (runs_cprintf (ln "%s - %s") [ArgStr (name c); ArgStr (desc c)] s) as (s1 & H1).
    destruct (IH s1) as (s2 & H2). exists s2. exact (runs_bind id _ _ _ _ _ _ _ _ _ H1 H2).
Qed.

Lemma run_func_ok f k s : exists s', runs id (run_func f k) s 0 s'
  (match f with MonHelp => help_shown | MonKerninfo => kerninfo_shown k end).
Proof.
  destruct f.
  - destruct (help_lines_ok commands s) as (s' & Hr). exists s'. by eapply runs_then.
  - destruct (runs_prints
      [(ln "Special kernel symbols:", []);
       (ln "  _start                  %08x (phys)", [ArgInt (start_ k)]);
       (ln "  entry  %08x (virt)  %08x (phys)", [ArgInt (entry k); ArgInt (u32 (entry k - KERNBASE))]);
       (ln "  etext  %08x (virt)  %08x (phys)", [ArgInt (etext k); ArgInt (u32 (etext k - KERNBASE))]);
       (ln "  edata  %08x (virt)  %08x (phys)", [ArgInt (edata k); ArgInt (u32 (edata k - KERNBASE))]);
       (ln "  end    %08x (virt)  %08x (phys)", [ArgInt (end_ k); ArgInt (u32 (end_ k - KERNBASE))]);
       (ln "Kernel executable memory footprint: %dKB",
        [ArgInt (Z.quot (s32 (ROUNDUP (end_ k - entry k) 1024)) 1024)])] 0 s) as (s' & Hr).
    exists s'. exact Hr.
Qed.

Lemma runcmd_ok k line buf s fuel : starts buf (line ++ [0]) -> Forall clean line -> (length line + 2 <= fuel)%nat ->
  exists buf' s', runs snd (runcmd fuel k) (buf, s) 0 (buf', s') (answer k line) /\
    Z.of_nat (length buf') = BUFLEN.
Proof.
  intros [Hlen [tail ->]] Hcl Hf. rewrite <- app_assoc in *. cbn [app] in *.
  pose proof (parse_args_ok (S (length line)) line [] tail [] s fuel ltac:(lia) Hcl ltac:(cbn; lia) Hf) as Hp.
  cbn [length Nat.add app] in Hp. change (Z.of_nat 0) with 0 in Hp. unfold runcmd, answer.
  destruct (decide (length (words line []) <= 15)%nat).
  - destruct Hp as (idxs & Hrun & Hidx). 
    assert (Hlen' : Z.of_nat (length (map blank line ++ 0 :: tail)) = BUFLEN)
      by (rewrite length_app, length_map in *; lia).
    destruct Hidx as [|i w idxs ws Hw _].
    + exists (map blank line ++ 0 :: tail), s. split; [|done].
      unfold runs. rewrite (bind_ok _ _ _ _ _ Hrun). split; [done|]. by rewrite app_nil_r.
    + assert (Hstr : string_at i (map blank line ++ 0 :: tail, s) = Ok (w, (map blank line ++ 0 :: tail, s)))
        by (unfold string_at; cbn [fst]; by rewrite Hw).
      assert (Hrest : exists s', runs snd
        (match lookup_command commands w with
         | Some c => lift (run_func (func c) k)
         | None => do* lift (cprintf (ln "Unknown command '%s'") [ArgStr w]); ret 0 end)
        (map blank line ++ 0 :: tail, s) 0 (map blank line ++ 0 :: tail, s')
        (if decide (w = literal "help") then help_shown
         else if decide (w = literal "kerninfo") then kerninfo_shown k
         else [Printed (ln "Unknown command '%s'") [ArgStr w]])).
      { unfold commands at 1. cbn [lookup_command name func].
        destruct (decide (w = literal "help")); [|destruct (decide (w = literal "kerninfo"))].
        - destruct (run_func_ok MonHelp k s) as (s' & Hr). exists s'. by apply runs_lift.
        - destruct (run_func_ok MonKerninfo k s) as (s' & Hr). exists s'. by apply runs_lift.
        - destruct (runs_cprintf (ln "Unknown command '%s'") [ArgStr w] s) as (s' & Hr). exists s'.
          eapply runs_then; [by apply runs_lift|done]. }
      destruct Hrest as (s' & Hr & Hk & Hs). exists (map blank line ++ 0 :: tail), s'. split; [|done].
      split; [|done]. rewrite (bind_ok _ _ _ _ _ Hrun). cbn [app]. by rewrite (bind_ok _ _ _ _ _ Hstr).
  - destruct Hp as (buf' & s' & Hrun & Hl). exists buf', s'. split; [|by rewrite Hl].
    eapply runs_then; [exact Hrun|done].
Qed.

(** ** A session *)

(** Keys and the newline or carriage return that ends them. *)
Definition typed_line (l : list Z * Z) : Prop := Forall edit_key l.1 /\ (l.2 = 10 \/ l.2 = 13).
Definition line_keys (l : list Z * Z) : list Z := l.1 ++ [l.2].
Definition edited (ks : list Z) : list Z := fold_left edit ks [].
Definition prompt_shown (p : list Z) : shown := Printed "%s" [ArgStr p].
Definition line_shown (k : symbols) (l : list Z * Z) : list shown :=
  prompt_shown (literal "K> ") :: echoes [] l.1 ++ echo_end ++ answer k (edited l.1).

Lemma edited_ok ks : Forall edit_key ks -> forall line, Forall clean line ->
  Z.of_nat (length line) <= BUFLEN - 1 ->
  Forall clean (fold_left edit ks line) /\ (length (fold_left edit ks line) <= length line + length ks)%nat /\
  Z.of_nat (length (fold_left edit ks line)) <= BUFLEN - 1.
Proof.
  induction 1 as [|c ks [Hc _] _ IH]; intros line Hl Hlen; cbn [fold_left length].
  - split; [done|]. split; [lia|done].
  - assert (He : Forall clean (edit line c) /\ (length (edit line c) <= length line + 1)%nat).
    { unfold edit. destruct (_ && negb _).
      - split; [by apply Forall_take|]. rewrite length_take. lia.
      - destruct (Z.leb_spec 32 c), (Z.of_nat (length line) <? BUFLEN - 1); cbn [andb];
          [|split; [done|lia]..].
        split; [|rewrite length_app; cbn; lia]. apply Forall_app. split; [done|].
        constructor; [unfold clean; lia|done]. }
    destruct He as [He1 He2]. destruct (IH (edit line c) He1 (edit_length line c Hlen)) as (? & ? & ?).
    split; [done|]. split; [lia|done].
Qed.

Lemma readline_ok fuel p ks c cs buf s :
  keys s = ks ++ c :: cs -> Forall edit_key ks -> c = 10 \/ c = 13 -> Z.of_nat (length buf) = BUFLEN ->
  (length ks < fuel)%nat ->
  exists buf' s', readline fuel p (buf, s) = Ok (true, (buf', s')) /\ keys s' = cs /\
    screen s' = screen s ++ (match p with Some p => [prompt_shown p] | None => [] end) ++
      echoes [] ks ++ echo_end /\
    starts buf' (edited ks ++ [0]).
Proof.
  intros Hk Hks Hc Hb Hf. unfold readline.
  assert (Hp : exists s1, (match p with Some p => lift (cprintf "%s" [ArgStr p]) | None => ret tt end) (buf, s)
      = Ok (tt, (buf, s1)) /\ keys s1 = keys s /\
      screen s1 = screen s ++ (match p with Some p => [prompt_shown p] | None => [] end)).
  { destruct p as [p|].
    - destruct (runs_cprintf "%s" [ArgStr p] s) as (s1 & Hr). exists s1. by apply (runs_lift _ buf).
    - exists s. by rewrite app_nil_r. }
  destruct Hp as (s1 & H1 & Hk1 & Hs1). rewrite (bind_ok _ _ _ _ _ H1).
  destruct (readline_loop_ok ks fuel c cs buf s1 []) as (buf' & s' & Hrun & Hk' & Hs' & Hb');
    [congruence|done|done|split; [done|by exists buf]|cbn; unfold BUFLEN; lia|done|].
  exists buf', s'. split; [exact Hrun|]. split; [done|]. split; [|done].
  by rewrite Hs', Hs1, <- app_assoc.
Qed.

Lemma monitor_loop_ok k fuel lines : forall buf s cs, Forall typed_line lines ->
  Forall (fun l => (length l.1 + 2 <= fuel)%nat) lines -> Z.of_nat (length buf) = BUFLEN ->
  keys s = concat (map line_keys lines) ++ cs ->
  exists buf' s', monitor_loop (length lines) fuel k (buf, s) = Ok (false, (buf', s')) /\
    keys s' = cs /\ screen s' = screen s ++ concat (map (line_shown k) lines).
Proof.
  induction lines as [|[ks c] lines IH]; intros buf s cs Hl Hf Hb Hk; cbn [length monitor_loop map concat].
  - exists buf, s. by rewrite app_nil_r.
  - inversion Hl as [|? ? [Hks Hc] Hl']; inversion Hf as [|? ? Hfk Hf']; subst. cbn [fst snd] in *.
    cbn [map concat] in Hk. rewrite <- !app_assoc in Hk. unfold line_keys at 1 in Hk. cbn [fst snd] in Hk.
    rewrite <- app_assoc in Hk. cbn [app] in Hk.
    destruct (readline_ok fuel (Some (literal "K> ")) ks c _ buf s Hk Hks Hc Hb) as (b1 & s1 & H1 & Hk1 & Hs1 & Hb1); [lia|].
    rewrite (bind_ok _ _ _ _ _ H1).
    destruct (edited_ok ks Hks [] ltac:(constructor) ltac:(cbn; unfold BUFLEN; lia)) as (Hclean & Hlen & _).
    cbn [length Nat.add] in Hlen.
    destruct (runcmd_ok k (edited ks) b1 s1 fuel Hb1 Hclean) as (b2 & s2 & (H2 & Hk2 & Hs2) & Hb2).
    { unfold edited. lia. }
    rewrite (bind_ok _ _ _ _ _ H2). cbn [Z.ltb Z.compare].
    destruct (IH b2 s2 cs Hl' Hf' Hb2) as (b3 & s3 & H3 & Hk3 & Hs3); [cbn in Hk2; congruence|].
    exists b3, s3. split; [exact H3|]. split; [done|]. cbn [snd] in Hs2.
    rewrite Hs3, Hs2, Hs1. unfold line_shown. cbn [fst]. rewrite <- !app_assoc. cbn [app]. by rewrite <- !app_assoc.
Qed.

Lemma monitor_ok k fuel lines buf s cs : Forall typed_line lines ->
  Forall (fun l => (length l.1 + 2 <= fuel)%nat) lines -> Z.of_nat (length buf) = BUFLEN ->
  keys s = concat (map line_keys lines) ++ cs ->
  exists buf' s', monitor (length lines) fuel k (buf, s) = Ok (false, (buf', s')) /\
    keys s' = cs /\ screen s' = screen s ++
      [Printed (ln "Welcome to the JOS kernel monitor!") [];
       Printed (ln "Type 'help' for a list of commands.") []] ++ concat (map (line_shown k) lines).
Proof.
  intros Hl Hf Hb Hk. unfold monitor.
  destruct (runs_cprintf (ln "Welcome to the JOS kernel monitor!") [] s) as (s1 & Hr1).
  destruct (runs_cprintf (ln "Type 'help' for a list of commands.") [] s1) as (s2 & Hr2).
  destruct (runs_lift _ buf _ _ _ _ Hr1) as (H1 & Hk1 & Hs1). destruct (runs_lift _ buf _ _ _ _ Hr2) as (H2 & Hk2 & Hs2).
  cbn [snd] in *. rewrite (bind_ok _ _ _ _ _ H1), (bind_ok _ _ _ _ _ H2).
  destruct (monitor_loop_ok k fuel lines buf s2 cs Hl Hf Hb) as (b3 & s3 & H3 & Hk3 & Hs3); [congruence|].
  exists b3, s3. split; [done|]. split; [done|]. by rewrite Hs3, Hs2, Hs1, <- !app_assoc.
Qed.

(** ** Properties *)

(** C26: the monitor greets, and for each line typed it shows the prompt, echoes the
    keys, and answers the edited line - backspace and delete take the last character
    away, a line holds 1023 characters at most - with the lines of the command that
    is its first word, a message for an unknown one, nothing for a blank line, and a
    message when there are more than 15 words. *)
Theorem monitor_answers k fuel lines buf s cs : Forall typed_line lines ->
  Forall (fun l => (length l.1 + 2 <= fuel)%nat) lines -> Z.of_nat (length buf) = BUFLEN ->
  keys s = concat (map line_keys lines) ++ cs ->
  exists buf' s', monitor (length lines) fuel k (buf, s) = Ok (false, (buf', s')) /\
    keys s' = cs /\ screen s' = screen s ++
      [Printed (ln "Welcome to the JOS kernel monitor!") [];
       Printed (ln "Type 'help' for a list of commands.") []] ++ concat (map (line_shown k) lines).
Proof. intros Hl Hf Hb Hk. by apply monitor_ok. Qed.
End monitor.

(** ** A terminal of lists *)

Definition script : Type := list Z * list shown.

#[export] Instance script_terminal : Terminal script := {
  getchar := fun s => match s.1 with c :: cs => Ok (c, (cs, s.2)) | [] => Err OutOfFuel end;
  cputchar := fun c s => Ok (tt, (s.1, s.2 ++ [Chr c]));
  cprintf := fun fmt args s => Ok (tt, (s.1, s.2 ++ [Printed fmt args]));
  iscons := fun _ => 1
}.

#[export] Program Instance script_terminal_spec : TerminalSpec script := {
  keys := fst;
  screen := snd
}.
Next Obligation. intros [ks out] c cs H. cbn in *. subst. by eexists. Qed.
Next Obligation. intros c [ks out]. by eexists. Qed.
Next Obligation. intros fmt args [ks out]. by eexists. Qed.

(** "hx", backspace, "elp" and a newline; then a blank line. *)
Definition session : list (list Z * Z) := [([104; 120; 8; 101; 108; 112], 10); ([32], 13)].

Lemma monitor_answers_witness : exists buf' s',
  monitor 2 20 (mk_symbols 0 0 0 0 0) (replicate 1024 0, (concat (map line_keys session), []))
    = Ok (false, (buf', s')) /\ s'.1 = [] /\
  s'.2 = [Printed (ln "Welcome to the JOS kernel monitor!") [];
          Printed (ln "Type 'help' for a list of commands.") [];
          prompt_shown (literal "K> "); Chr 104; Chr 120; Chr 8; Chr 101; Chr 108; Chr 112; Chr 10] ++
         help_shown ++ [prompt_shown (literal "K> "); Chr 32; Chr 10].
Proof.
  destruct (monitor_answers (St := script) (mk_symbols 0 0 0 0 0) 20 session (replicate 1024 0)
    (concat (map line_keys session), []) []) as (buf' & s' & Hrun & Hk & Hs).
  - repeat constructor; cbn; lia.
  - repeat constructor; cbn; lia.
  - vm_compute. reflexivity.
  - by rewrite app_nil_r.
  - exists buf', s'. split; [exact Hrun|]. split; [exact Hk|exact Hs].
Defined.

(** Delete at the start of a line is stored as a character. *)
Example delete_key_stored : edited [127; 97] = [127; 97].
Proof. reflexivity. Qed.

(** [test_backtrace]: down to 0 and back. *)
Example backtrace_shown : test_backtrace 1 ([], []) =
  Ok (tt, ([], [Printed (ln "entering test_backtrace %d") [ArgInt 1];
                Printed (ln "entering test_backtrace %d") [ArgInt 0];
                Printed (ln "leaving test_backtrace %d") [ArgInt 0];
                Printed (ln "leaving test_backtrace %d") [ArgInt 1]])).
Proof. reflexivity. Qed.
