(* ===== verification/Shell.v ===== *)
(** The simplified xv6 shell, [mit6.828/homework/shell/sh.c]: the parser, which
    builds commands in memory, and the system calls that run them.  The text a
    pointer scans is what is left of it up to [es]; a string is its octets. *)
From Stdlib Require Import ZArith Lia.
From S2P Require Import Prelude.
Open Scope Z_scope.

Definition MAXARGS : Z := 10.

(** ** Commands *)

(** The variants of [struct cmd]; [argv] has its [MAXARGS] slots. *)
Inductive cmd : Type :=
  | ExecCmd (argv : list (option (list Z)))
  | RedirCmd (type : Z) (sub : positive) (file : list Z) (mode fd : Z)
  | PipeCmd (lcmd rcmd : positive)
  | CommandCmd (lcmd rcmd : positive).

(** Commands never go away: every [malloc] is fresh, and succeeds. *)
Record memory : Type := mk_memory {
  cmds : gmap positive cmd;
  next : positive
}.

Definition new_cmd (c : cmd) : M memory positive := fun s =>
  Ok (next s, mk_memory (<[next s := c]> (cmds s)) (Pos.succ (next s))).
Definition get_cmd (p : positive) : M memory cmd := fun s =>
  match cmds s !! p with Some c => Ok (c, s) | None => Err BadAccess end.

(** [cmd->argv[i] = a] *)
Definition set_arg (p : positive) (i : Z) (a : option (list Z)) : M memory unit := fun s =>
  match cmds s !! p with
  | Some (ExecCmd argv) =>
      if (0 <=? i) && (i <? Z.of_nat (length argv))
      then Ok (tt, mk_memory (<[p := ExecCmd (<[Z.to_nat i := a]> argv)]> (cmds s)) (next s))
      else Err BadAccess
  | _ => Err BadAccess
  end.

Definition O_RDONLY : Z := 0.
Definition O_WRONLY : Z := 1.
Definition O_CREAT : Z := 0x40.
Definition O_TRUNC : Z := 0x200.

Definition execcmd : M memory positive := new_cmd (ExecCmd (replicate (Z.to_nat MAXARGS) None)).
Definition redircmd (subcmd : positive) (file : list Z) (type : Z) : M memory positive :=
  new_cmd (RedirCmd type subcmd file
    (if type =? 60 then O_RDONLY else Z.lor (Z.lor O_WRONLY O_CREAT) O_TRUNC)
    (if type =? 60 then 0 else 1)).
Definition pipecmd (lcmd rcmd : positive) : M memory positive := new_cmd (PipeCmd lcmd rcmd).
Definition commandcmd (lcmd rcmd : positive) : M memory positive := new_cmd (CommandCmd lcmd rcmd).

(** ** Scanning *)

(** [strchr(whitespace, c)] and [strchr(symbols, c)] for a [c] that is not NUL *)
Definition whitespace (c : Z) : bool := bool_decide (c ∈ [32; 9; 13; 10; 11]).
Definition symbols (c : Z) : bool := bool_decide (c ∈ [60; 124; 62; 59]).

(** [while(s < es && strchr(whitespace, *s)) s++;] *)
Fixpoint skip_whitespace (s : list Z) : list Z :=
  match s with
  | c :: s' => if whitespace c then skip_whitespace s' else s
  | [] => []
  end.

Fixpoint scan_word (s : list Z) : list Z * list Z :=
  match s with
  | c :: s' => if whitespace c || symbols c then ([], s)
               else let '(w, rest) := scan_word s' in (c :: w, rest)
  | [] => ([], [])
  end.

(** The token, the text from [q] to [eq], and what is left. *)
Definition gettoken (s : list Z) : Z * list Z * list Z :=
  let s := skip_whitespace s in
  let '(ret, text, rest) :=
    match s with
    | [] => (0, [], [])
    | c :: s' =>
        if symbols c then (c, [c], s')
        else let '(w, rest) := scan_word s in (97, w, rest)
    end in
  (ret, text, skip_whitespace rest).

Definition peek (s : list Z) (toks : list Z) : bool * list Z :=
  let s := skip_whitespace s in
  (match s with c :: _ => bool_decide (c ∈ toks) | [] => false end, s).

(** ** Parsing; a parser returns its command and what is left *)

Fixpoint parseredirs (fuel : nat) (cmd : positive) (s : list Z) : M memory (positive * list Z) :=
  match fuel with
  | O => fail OutOfFuel
  | S fuel' =>
      let '(found, s) := peek s [60; 62] in
      if found : bool then
        let '(tok, _, s) := gettoken s in
        let '(tok2, file, s) := gettoken s in
        if negb (tok2 =? 97) then fail (Exit (-1))
        else
          let* cmd := redircmd cmd file tok in
          parseredirs fuel' cmd s
      else ret (cmd, s)
  end.

(** The loop of [parseexec]: [cmd] is the command with the arguments, [ret_] what is
    returned, the redirections around it. *)
Fixpoint parseexec_loop (fuel : nat) (cmd ret_ : positive) (argc : Z) (s : list Z) : M memory (positive * list Z * Z) :=
  match fuel with
  | O => fail OutOfFuel
  | S fuel' =>
      let '(found, s) := peek s [124; 59] in
      if found : bool then ret (ret_, s, argc)
      else
        let '(tok, w, s) := gettoken s in
        if tok =? 0 then ret (ret_, s, argc)
        else if negb (tok =? 97) then fail (Exit (-1))
        else
          do* set_arg cmd argc (Some w);
          let argc := argc + 1 in
          if MAXARGS <=? argc then fail (Exit (-1))
          else
            let* (ret_, s) := parseredirs fuel ret_ s in
            parseexec_loop fuel' cmd ret_ argc s
  end.

Definition parseexec (fuel : nat) (s : list Z) : M memory (positive * list Z) :=
  let* cmd := execcmd in
  let* (ret_, s) := parseredirs fuel cmd s in
  let* (ret_, s, argc) := parseexec_loop fuel cmd ret_ 0 s in
  do* set_arg cmd argc None;
  ret (ret_, s).

Fixpoint parsepipe (fuel : nat) (s : list Z) : M memory (positive * list Z) :=
  match fuel with
  | O => fail OutOfFuel
  | S fuel' =>
      let* (cmd, s) := parseexec fuel s in
      let '(found, s) := peek s [124] in
      if found : bool then
        let '(_, _, s) := gettoken s in
        let* (rcmd, s) := parsepipe fuel' s in
        let* cmd := pipecmd cmd rcmd in
        ret (cmd, s)
      else ret (cmd, s)
  end.

Fixpoint parsecomd (fuel : nat) (s : list Z) : M memory (positive * list Z) :=
  match fuel with
  | O => fail OutOfFuel
  | S fuel' =>
      let* (cmd, s) := parsepipe fuel s in
      let '(found, s) := peek s [59] in
      if found : bool then
        let '(_, _, s) := gettoken s in
        let* (rcmd, s) := parsecomd fuel' s in
        let* cmd := commandcmd cmd rcmd in
        ret (cmd, s)
      else ret (cmd, s)
  end.

Definition parseline (fuel : nat) (s : list Z) : M memory (positive * list Z) := parsecomd fuel s.

Definition parsecmd (fuel : nat) (s : list Z) : M memory positive :=
  let* (cmd, s) := parseline fuel s in
  let '(_, s) := peek s [] in
  match s with [] => ret cmd | _ => fail (Exit (-1)) end.

(** ** Running: the system calls of a process *)

(** [environ] is the [PATH] in the environment at the time of an [execv]. *)
Inductive proc : Type :=
  | PExit (status : Z)
  | PExecv (path : list Z) (argv : list (list Z)) (environ : list Z) (failed : proc)
  | POpen (file : list Z) (mode : Z) (k : Z -> proc)
  | PDup2 (oldfd newfd : Z) (k : Z -> proc)
  | PClose (fd : Z) (k : proc)
  | PPipe (k : Z -> Z -> Z -> proc)
  | PFork (k : Z -> proc)
  | PWait (k : proc)
  | PCrash.

Section run.
(** [PATH], the entries of the directories that can be opened, and the string that a
    fresh block of memory happens to hold. *)
Context (PATH : list Z) (entries : list Z -> option (list (list Z))) (junk : list Z).

(** [strtok] with one delimiter *)
Fixpoint strtok_all (delim : Z) (s w : list Z) : list (list Z) :=
  match s with
  | [] => match w with [] => [] | _ => [w] end
  | c :: s' =>
      if c =? delim then (match w with [] => [] | _ => [w] end) ++ strtok_all delim s' []
      else strtok_all delim s' (w ++ [c])
  end.

(** What is left of the string at its address: [strtok] has ended it after its first word. *)
Fixpoint strtok_left (delim : Z) (s : list Z) (word : bool) : list Z :=
  match s with
  | [] => []
  | c :: s' =>
      if c =? delim then if word then [] else c :: strtok_left delim s' false
      else c :: strtok_left delim s' true
  end.

Fixpoint find_in (dirs : list (list Z)) (command : list Z) : option (list Z) :=
  match dirs with
  | [] => None
  | path_dir :: dirs' =>
      match entries path_dir with
      | Some names =>
          if bool_decide (command ∈ names) then Some (junk ++ path_dir ++ 47 :: command)
          else find_in dirs' command
      | None => find_in dirs' command
      end
  end.
Definition find_command_path (command : list Z) : option (list Z) :=
  find_in (strtok_all 58 PATH []) command.

(** The arguments up to the [NULL]. *)
Fixpoint arguments (argv : list (option (list Z))) : list (list Z) :=
  match argv with Some a :: argv' => a :: arguments argv' | _ => [] end.

(** [runcmd] never returns; a null command is [None]. *)
Fixpoint runcmd (fuel : nat) (s : memory) (cmd : option positive) : proc :=
  match fuel, cmd with
  | _, None => PExit 0
  | O, Some _ => PCrash
  | S fuel', Some p =>
      match cmds s !! p with
      | None => PCrash
      | Some (ExecCmd argv) =>
          match argv with
          | Some argv0 :: _ =>
              match find_command_path argv0 with
              | Some path => PExecv path (arguments argv) (strtok_left 58 PATH false) (PExit 0)
              | None => PExit 0
              end
          | _ => PExit 0
          end
      | Some (RedirCmd type sub file mode fd) =>
          POpen file mode (fun nfd => PDup2 nfd fd (fun _ => PClose nfd (runcmd fuel' s (Some sub))))
      | Some (CommandCmd lcmd rcmd) =>
          PFork (fun pid =>
            if pid =? 0 then runcmd fuel' s (Some lcmd)
            else PWait (runcmd fuel' s (Some rcmd)))
      | Some (PipeCmd lcmd rcmd) =>
          PPipe (fun _ p0 p1 =>
            PFork (fun pid =>
              if pid =? 0 then PDup2 p1 1 (fun _ => PClose p1 (runcmd fuel' s (Some lcmd)))
              else PFork (fun pid =>
                if pid =? 0 then PClose p1 (PDup2 p0 0 (fun _ => PClose p0 (runcmd fuel' s (Some rcmd))))
                else PClose p1 (PClose p0 (PWait (PWait (PExit 0)))))))
      end
  end.
End run.

(** ** The main loop *)

(** What [fgets] reads with room for [n] octets, and what is left. *)
Fixpoint fgets (n : nat) (bytes : list Z) : list Z * list Z :=
  match n, bytes with
  | S n', c :: bytes' =>
      if c =? 10 then ([c], bytes')
      else let '(chunk, rest) := fgets n' bytes' in (c :: chunk, rest)
  | _, _ => ([], bytes)
  end.

(** The string in the buffer of [n] octets, or none at the end of the input. *)
Definition getcmd (n : Z) (input : list Z) : option (list Z * list Z) :=
  let '(chunk, rest) := fgets (Z.to_nat (n - 1)) input in
  let fix upto_nul (s : list Z) := match s with [] => [] | c :: s' => if c =? 0 then [] else c :: upto_nul s' end in
  match upto_nul chunk with [] => None | buf => Some (buf, rest) end.

(** What the shell does itself: change directory, or fork a child that runs a line. *)
Inductive main_action : Type := Chdir (dir : list Z) | ForkRun (buf : list Z).

Fixpoint shell_main (fuel : nat) (input : list Z) : option (list main_action) :=
  match fuel with
  | O => None
  | S fuel' =>
      match getcmd 100 input with
      | None => Some []
      | Some (buf, rest) =>
          let action :=
            match buf with
            | 99 :: 100 :: 32 :: dir => Chdir (take (length dir - 1) dir)
            | _ => ForkRun buf
            end in
          option_map (cons action) (shell_main fuel' rest)
      end
  end.
