(* ===== verification/ShellSpec.v ===== *)
(** The grammar of the shell of [Shell]: however a command line is laid out with
    blanks, the parser builds exactly its tree, with [;] looser than [|] and both
    grouping to the right. *)
From Stdlib Require Import ZArith Lia.
From S2P Require Import Prelude Shell.
Open Scope Z_scope.

(** ** Tokens and their layout *)

Inductive token : Type := TWord (w : list Z) | TSym (c : Z).

Definition word_ok (w : list Z) : Prop :=
  w <> [] /\ Forall (fun c => whitespace c = false /\ symbols c = false) w.
Definition blanks (bl : list Z) : Prop := Forall (fun c => whitespace c = true) bl.
Definition starts_word (ts : list token) : Prop := match ts with TWord _ :: _ => True | _ => False end.
(** What separates a word from a word after it. *)
Definition starts_blank (s : list Z) : Prop := match s with c :: _ => whitespace c = true | [] => False end.

Inductive laid_out : list token -> list Z -> Prop :=
  | laid_end bl : blanks bl -> laid_out [] bl
  | laid_sym bl c ts s : blanks bl -> symbols c = true -> laid_out ts s ->
      laid_out (TSym c :: ts) (bl ++ c :: s)
  | laid_word bl w ts s : blanks bl -> word_ok w -> laid_out ts s ->
      (starts_word ts -> starts_blank s) -> laid_out (TWord w :: ts) (bl ++ w ++ s).

Lemma symbol_not_blank c : symbols c = true -> whitespace c = false.
Proof.
  unfold symbols, whitespace. intros H%bool_decide_eq_true. apply bool_decide_eq_false.
  rewrite !elem_of_cons, elem_of_nil in *. lia.
Qed.

Lemma skip_blanks bl s : blanks bl -> skip_whitespace (bl ++ s) = skip_whitespace s.
Proof. induction 1 as [|c bl Hc _ IH]; cbn; [done|]. by rewrite Hc. Qed.

Lemma laid_out_skip ts s : laid_out ts s -> laid_out ts (skip_whitespace s) /\
  match ts with
  | [] => skip_whitespace s = []
  | TSym c :: _ => exists s', skip_whitespace s = c :: s'
  | TWord w :: _ => exists s', skip_whitespace s = w ++ s'
  end.
Proof.
  destruct 1 as [bl Hbl|bl c ts s Hbl Hc Hs|bl w ts s Hbl [Hne Hw] Hs Hsep].
  - pose proof (skip_blanks bl [] Hbl) as He. rewrite app_nil_r in He. rewrite He.
    split; [apply laid_end; constructor|done].
  - rewrite skip_blanks by done. cbn. rewrite (symbol_not_blank c Hc).
    split; [apply (laid_sym []); [constructor|done|done]|by exists s].
  - rewrite skip_blanks by done. destruct w as [|c w]; [done|]. inversion Hw as [|? ? [Hc _] _]; subst.
    cbn. rewrite Hc. split; [apply (laid_word [] (c :: w)); [constructor|by split|done|done]|by exists s].
Qed.

Lemma peek_ok ts s toks : laid_out ts s -> Forall (fun c => symbols c = true) toks ->
  exists s', peek s toks = (match ts with TSym c :: _ => bool_decide (c ∈ toks) | _ => false end, s') /\
    laid_out ts s'.
Proof.
  intros Hl Htoks. destruct (laid_out_skip ts s Hl) as [Hs Hts]. exists (skip_whitespace s).
  split; [|done]. unfold peek. destruct ts as [|[w|c] ts].
  - by rewrite Hts.
  - inversion Hl as [| |? ? ? ? _ [Hne Hw] _ _]; subst. destruct Hts as [s' ->].
    destruct w as [|c w]; [done|]. inversion Hw as [|? ? [_ Hc] _]; subst. cbn. f_equal.
    apply bool_decide_eq_false. intros Hin. rewrite Forall_forall in Htoks.
    apply Htoks in Hin. congruence.
  - by destruct Hts as [s' ->].
Qed.

Lemma scan_word_ok w s : Forall (fun c => whitespace c = false /\ symbols c = false) w ->
  match s with c :: _ => whitespace c || symbols c = true | [] => True end ->
  scan_word (w ++ s) = (w, s).
Proof.
  intros Hw Hs. induction Hw as [|c w [H1 H2] _ IH]; cbn.
  - destruct s as [|c s]; cbn; [done|]. by rewrite Hs.
  - by rewrite H1, H2, IH.
Qed.

Lemma laid_out_end ts s : laid_out ts s -> (starts_word ts -> starts_blank s) ->
  match s with c :: _ => whitespace c || symbols c = true | [] => True end.
Proof.
  destruct 1 as [bl Hbl|bl c ts s Hbl Hc Hs|bl w ts s Hbl [Hne Hw] Hs Hsep]; intros Hb.
  - destruct Hbl as [|c bl Hc]; [done|]. by rewrite Hc.
  - destruct Hbl as [|b bl Hb']; cbn; [by rewrite Hc, orb_true_r|by rewrite Hb'].
  - destruct (bl ++ w ++ s) eqn:He; [done|]. specialize (Hb I). cbn in Hb. by rewrite Hb.
Qed.

(** The first token, and the rest. *)
Lemma gettoken_ok t ts s : laid_out (t :: ts) s ->
  exists s', gettoken s = (match t with TWord w => (97, w) | TSym c => (c, [c]) end, s') /\ laid_out ts s'.
Proof.
  intros Hl. inversion Hl as [|bl c ts' s' Hbl Hc Hs|bl w ts' s' Hbl [Hne Hw] Hs Hsep]; subst;
    unfold gettoken; rewrite skip_blanks by done; exists (skip_whitespace s').
  - cbn. rewrite (symbol_not_blank c Hc), Hc. split; [done|by apply laid_out_skip].
  - destruct w as [|c w]; [done|]. inversion Hw as [|? ? [Hc Hc'] _]; subst.
    cbn [app skip_whitespace]. rewrite Hc, Hc'.
    pose proof (scan_word_ok (c :: w) s' Hw (laid_out_end ts s' Hs Hsep)) as Hscan. cbn [app] in Hscan.
    rewrite Hscan. split; [done|by apply laid_out_skip].
Qed.

Lemma gettoken_end s : laid_out [] s -> gettoken s = (0, [], []).
Proof.
  intros Hl. destruct (laid_out_skip [] s Hl) as [_ Hs]. unfold gettoken. by rewrite Hs.
Qed.

(** ** The grammar *)

(** A redirection: [<] or [>] and the file. *)
Definition redir : Type := Z * list Z.
(** A simple command: redirections, then words with redirections after each. *)
Record simple : Type := mk_simple { pre : list redir; args : list (list Z * list redir) }.
(** Simple commands joined by [|], and pipelines joined by [;]. *)
Inductive pipeline : Type := Last (c : simple) | Piped (c : simple) (rest : pipeline).
Inductive line : Type := Only (p : pipeline) | Then (p : pipeline) (rest : line).

Definition redir_tokens (rs : list redir) : list token :=
  concat (map (fun r => [TSym r.1; TWord r.2]) rs).
Definition args_tokens (xs : list (list Z * list redir)) : list token :=
  concat (map (fun a => TWord a.1 :: redir_tokens a.2) xs).
Definition simple_tokens (c : simple) : list token := redir_tokens (pre c) ++ args_tokens (args c).
Fixpoint pipeline_tokens (p : pipeline) : list token :=
  match p with Last c => simple_tokens c | Piped c rest => simple_tokens c ++ TSym 124 :: pipeline_tokens rest end.
Fixpoint line_tokens (l : line) : list token :=
  match l with Only p => pipeline_tokens p | Then p rest => pipeline_tokens p ++ TSym 59 :: line_tokens rest end.

Definition redir_ok (r : redir) : Prop := (r.1 = 60 \/ r.1 = 62) /\ word_ok r.2.
Definition simple_ok (c : simple) : Prop :=
  Forall redir_ok (pre c) /\ Forall (fun a => word_ok a.1 /\ Forall redir_ok a.2) (args c) /\
  Z.of_nat (length (args c)) < MAXARGS.
Fixpoint pipeline_ok (p : pipeline) : Prop :=
  match p with Last c => simple_ok c | Piped c rest => simple_ok c /\ pipeline_ok rest end.
Fixpoint line_ok (l : line) : Prop :=
  match l with Only p => pipeline_ok p | Then p rest => pipeline_ok p /\ line_ok rest end.

(** ** Trees and their representation *)

Inductive tree : Type :=
  | TExec (argv : list (list Z))
  | TRedir (r : redir) (sub : tree)
  | TPipe (lhs rhs : tree)
  | TList (lhs rhs : tree).

Definition simple_tree (c : simple) : tree :=
  fold_left (fun t r => TRedir r t) (pre c ++ concat (map snd (args c))) (TExec (map fst (args c))).
Fixpoint pipeline_tree (p : pipeline) : tree :=
  match p with Last c => simple_tree c | Piped c rest => TPipe (simple_tree c) (pipeline_tree rest) end.
Fixpoint line_tree (l : line) : tree :=
  match l with Only p => pipeline_tree p | Then p rest => TList (pipeline_tree p) (line_tree rest) end.

(** The command that redirects. *)
Definition redir_cmd (r : redir) (sub : positive) : cmd :=
  if r.1 =? 60 then RedirCmd r.1 sub r.2 O_RDONLY 0
  else RedirCmd r.1 sub r.2 (Z.lor (Z.lor O_WRONLY O_CREAT) O_TRUNC) 1.

Inductive rep (m : memory) : positive -> tree -> Prop :=
  | rep_exec p slots ws : cmds m !! p = Some (ExecCmd slots) -> arguments slots = ws ->
      Z.of_nat (length slots) = MAXARGS -> rep m p (TExec ws)
  | rep_redir p r sub t : cmds m !! p = Some (redir_cmd r sub) -> rep m sub t -> rep m p (TRedir r t)
  | rep_pipe p l r tl tr : cmds m !! p = Some (PipeCmd l r) -> rep m l tl -> rep m r tr -> rep m p (TPipe tl tr)
  | rep_list p l r tl tr : cmds m !! p = Some (CommandCmd l r) -> rep m l tl -> rep m r tr -> rep m p (TList tl tr).

Definition extends (m m' : memory) : Prop := forall p c, cmds m !! p = Some c -> cmds m' !! p = Some c.
Definition fresh_ok (m : memory) : Prop := forall p, is_Some (cmds m !! p) -> (p < next m)%positive.

#[local] Instance extends_preorder : PreOrder extends.
Proof. split; [by intros m p c|]. intros m1 m2 m3 H1 H2 p c Hp. by apply H2, H1. Qed.

Lemma rep_extends m m' p t : extends m m' -> rep m p t -> rep m' p t.
Proof. intros He. induction 1; econstructor; eauto. Qed.

Lemma new_cmd_ok c m : fresh_ok m ->
  exists p m', new_cmd c m = Ok (p, m') /\ cmds m' !! p = Some c /\ cmds m !! p = None /\
    extends m m' /\ fresh_ok m'.
Proof.
  intros Hf. assert (Hn : cmds m !! next m = None).
  { apply eq_None_not_Some. intros Hs%Hf. lia. }
  eexists _, _. split; [reflexivity|]. cbn. split; [by rewrite lookup_insert_eq|]. split; [done|]. split.
  - intros p x Hp. cbn. rewrite lookup_insert_ne; [done|congruence].
  - intros p Hp. cbn in *. apply lookup_insert_is_Some' in Hp as [<-|Hp]; [lia|]. apply Hf in Hp. lia.
Qed.

(** ** Parsing *)

(** Command [q] is [p] inside the redirections, the first innermost. *)
Fixpoint wrapped (m : memory) (p : positive) (rs : list redir) (q : positive) : Prop :=
  match rs with
  | [] => q = p
  | r :: rs' => exists p1, cmds m !! p1 = Some (redir_cmd r p) /\ wrapped m p1 rs' q
  end.

Lemma wrapped_app m p rs rs' q q' : wrapped m p rs q -> wrapped m q rs' q' -> wrapped m p (rs ++ rs') q'.
Proof.
  revert p. induction rs as [|r rs IH]; intros p Hq Hq'; cbn in *; [by subst|].
  destruct Hq as (p1 & Hp1 & Hq). exists p1. split; [done|]. by apply IH.
Qed.

(** Memories that agree on redirections. *)
Lemma wrapped_mono m m' p rs q :
  (forall x r y, cmds m !! x = Some (redir_cmd r y) -> cmds m' !! x = Some (redir_cmd r y)) ->
  wrapped m p rs q -> wrapped m' p rs q.
Proof.
  intros He. revert p. induction rs as [|r rs IH]; intros p Hq; cbn in *; [done|].
  destruct Hq as (p1 & Hp1 & Hq). exists p1. split; [by apply He|]. by apply IH.
Qed.

Lemma wrapped_rep m p rs q t : wrapped m p rs q -> rep m p t ->
  rep m q (fold_left (fun t r => TRedir r t) rs t).
Proof.
  revert p t. induction rs as [|r rs IH]; intros p t Hq Ht; cbn in *; [by subst|].
  destruct Hq as (p1 & Hp1 & Hq). apply (IH p1); [done|]. by eapply rep_redir.
Qed.

(** The next token is not a redirection. *)
Definition no_redir (ts : list token) : Prop :=
  match ts with TSym c :: _ => c <> 60 /\ c <> 62 | _ => True end.

Lemma symbols_redir : Forall (fun c => symbols c = true) [60; 62].
Proof. repeat constructor. Qed.
Lemma symbols_stop : Forall (fun c => symbols c = true) [124; 59].
Proof. repeat constructor. Qed.

Lemma redir_tokens_length rs : (length rs <= length (redir_tokens rs))%nat.
Proof. unfold redir_tokens. induction rs as [|r rs IH]; cbn; lia. Qed.

Lemma parseredirs_ok rs : forall fuel p ts s m, Forall redir_ok rs -> no_redir ts -> fresh_ok m ->
  laid_out (redir_tokens rs ++ ts) s -> (length rs < fuel)%nat ->
  exists q s' m', parseredirs fuel p s m = Ok ((q, s'), m') /\ laid_out ts s' /\
    extends m m' /\ fresh_ok m' /\ wrapped m' p rs q.
Proof.
  induction rs as [|[c f] rs IH]; intros [|fuel] p ts s m Hrs Hts Hm Hl Hf; cbn in Hf; try lia;
    cbn [parseredirs].
  - destruct (peek_ok _ s [60; 62] Hl symbols_redir) as (s' & -> & Hs').
    assert (Hno : match ts with TSym c :: _ => bool_decide (c ∈ [60; 62]) | _ => false end = false).
    { destruct ts as [|[w|c] ts]; [done..|]. destruct Hts. apply bool_decide_eq_false.
      rewrite !elem_of_cons, elem_of_nil. naive_solver. }
    cbn [redir_tokens map concat app]. rewrite Hno. exists p, s', m. done.
  - inversion Hrs as [|? ? [Hc Hw] Hrs']; subst. cbn [fst snd] in *.
    change (redir_tokens ((c, f) :: rs) ++ ts) with (TSym c :: TWord f :: redir_tokens rs ++ ts) in Hl.
    destruct (peek_ok _ s [60; 62] Hl symbols_redir) as (s1 & -> & Hs1).
    rewrite bool_decide_eq_true_2 by (rewrite !elem_of_cons; naive_solver).
    destruct (gettoken_ok _ _ s1 Hs1) as (s2 & -> & Hs2). destruct (gettoken_ok _ _ s2 Hs2) as (s3 & -> & Hs3).
    change (negb (97 =? 97)) with false. cbn iota.
    assert (Hnew : exists p1 m1, redircmd p f c m = Ok (p1, m1) /\ cmds m1 !! p1 = Some (redir_cmd (c, f) p) /\
      cmds m !! p1 = None /\ extends m m1 /\ fresh_ok m1).
    { unfold redircmd, redir_cmd. cbn [fst snd].
      destruct (c =? 60); by apply new_cmd_ok. }
    destruct Hnew as (p1 & m1 & H1 & Hp1 & _ & He1 & Hf1). step H1.
    destruct (IH fuel p1 ts s3 m1) as (q & s' & m' & Hrun & Hs' & He' & Hf' & Hq); [done..|lia|].
    exists q, s', m'. split; [done|]. split; [done|]. split; [by transitivity m1|]. split; [done|].
    exists p1. split; [by apply He'|done].
Qed.

(** The slots of a command with the arguments [ws]. *)
Definition slots (ws : list (list Z)) : list (option (list Z)) :=
  map Some ws ++ replicate (Z.to_nat MAXARGS - length ws) None.

Lemma slots_length ws : Z.of_nat (length ws) < MAXARGS -> Z.of_nat (length (slots ws)) = MAXARGS.
Proof. intros. unfold slots, MAXARGS in *. rewrite length_app, length_map, length_replicate. lia. Qed.

Lemma slots_arguments ws : arguments (slots ws) = ws.
Proof.
  unfold slots. generalize (Z.to_nat MAXARGS - length ws)%nat. intros n.
  induction ws as [|w ws IH]; cbn; [by destruct n|by rewrite IH].
Qed.

Lemma set_arg_ok m p ws a : cmds m !! p = Some (ExecCmd (slots ws)) -> Z.of_nat (length ws) < MAXARGS ->
  exists m', set_arg p (Z.of_nat (length ws)) a m = Ok (tt, m') /\ next m' = next m /\
    cmds m' = <[p := ExecCmd (match a with Some w => slots (ws ++ [w]) | None => slots ws end)]> (cmds m).
Proof.
  intros Hp Hlt. unfold set_arg. rewrite Hp, slots_length by done.
  rewrite (proj2 (Z.leb_le 0 _)), (proj2 (Z.ltb_lt _ _)) by lia. cbn [andb].
  eexists. split; [reflexivity|]. split; [done|]. cbn. do 3 f_equal. unfold slots, MAXARGS in *.
  rewrite Nat2Z.id, insert_app_r_alt by (rewrite length_map; lia).
  rewrite length_map, Nat.sub_diag.
  destruct (Z.to_nat 10 - length ws)%nat as [|k] eqn:Hk; [lia|]. cbn [replicate insert list_insert].
  destruct a as [w|]; [|done].
  rewrite map_app, length_app, <- app_assoc. cbn. do 3 f_equal. lia.
Qed.

(** [m'] keeps everything of [m] but command [p]. *)
Definition extends_but (p : positive) (m m' : memory) : Prop :=
  forall x c, x <> p -> cmds m !! x = Some c -> cmds m' !! x = Some c.

(** The next token ends a simple command. *)
Definition stops (ts : list token) : Prop :=
  match ts with [] => True | TSym c :: _ => c = 124 \/ c = 59 | TWord _ :: _ => False end.

Lemma stops_no_redir ts : stops ts -> no_redir ts.
Proof. destruct ts as [|[w|c] ts]; cbn; [done|done|lia]. Qed.

Lemma args_no_redir xs ts : stops ts -> no_redir (args_tokens xs ++ ts).
Proof. destruct xs; cbn; [apply stops_no_redir|done]. Qed.

Lemma parseexec_loop_ok xs : forall fuel p0 ret0 ws ts s m,
  Forall (fun a => word_ok a.1 /\ Forall redir_ok a.2) xs -> stops ts -> fresh_ok m ->
  laid_out (args_tokens xs ++ ts) s -> cmds m !! p0 = Some (ExecCmd (slots ws)) ->
  Z.of_nat (length ws) + Z.of_nat (length xs) < MAXARGS -> (length (args_tokens xs) < fuel)%nat ->
  exists ret1 s' m', parseexec_loop fuel p0 ret0 (Z.of_nat (length ws)) s m =
      Ok ((ret1, s', Z.of_nat (length (ws ++ map fst xs))), m') /\ laid_out ts s' /\
    extends_but p0 m m' /\ fresh_ok m' /\
    cmds m' !! p0 = Some (ExecCmd (slots (ws ++ map fst xs))) /\
    wrapped m' ret0 (concat (map snd xs)) ret1.
Proof.
  induction xs as [|[w rs] xs IH]; intros [|fuel] p0 ret0 ws ts s m Hxs Hts Hm Hl Hp0 Hlen Hf;
    try (cbn in Hf; lia); cbn [parseexec_loop].
  - cbn [args_tokens map concat app] in Hl. destruct (peek_ok _ s [124; 59] Hl symbols_stop) as (s' & -> & Hs').
    cbn [map concat]. rewrite app_nil_r. destruct ts as [|[w|c] ts]; [|done|].
    + rewrite (gettoken_end s' Hs'). exists ret0, [], m. split; [done|]. split; [apply laid_end; constructor|].
      by split; [intros x c|].
    + rewrite bool_decide_eq_true_2 by (rewrite !elem_of_cons; cbn in Hts; naive_solver).
      exists ret0, s', m. split; [done|]. split; [done|]. by split; [intros x d|].
  - inversion Hxs as [|? ? [Hw Hrs] Hxs']; subst. cbn [fst snd] in *.
    change (args_tokens ((w, rs) :: xs)) with (TWord w :: redir_tokens rs ++ args_tokens xs) in *.
    cbn [app] in Hl. rewrite <- app_assoc in Hl. cbn [length] in *. rewrite length_app in Hf.
    destruct (peek_ok _ s [124; 59] Hl symbols_stop) as (s1 & -> & Hs1).
    destruct (gettoken_ok _ _ s1 Hs1) as (s2 & -> & Hs2).
    change (97 =? 0) with false. change (negb (97 =? 97)) with false. cbn iota.
    destruct (set_arg_ok m p0 ws (Some w) Hp0) as (m1 & H1 & Hn1 & Hc1); [lia|]. step H1.
    rewrite (proj2 (Z.leb_gt MAXARGS _)) by lia.
    assert (Hm1 : fresh_ok m1).
    { intros x Hx. rewrite Hc1 in Hx. rewrite Hn1. apply lookup_insert_is_Some' in Hx as [<-|Hx];
        [apply Hm; by eexists|by apply Hm]. }
    assert (Hrl : (length rs < S fuel)%nat).
    { pose proof (redir_tokens_length rs). lia. }
    destruct (parseredirs_ok rs (S fuel) ret0 (args_tokens xs ++ ts) s2 m1 Hrs (args_no_redir xs ts Hts) Hm1 Hs2 Hrl)
      as (r1 & s3 & m2 & H2 & Hs3 & He2 & Hf2 & Hwr).
    step H2. replace (Z.of_nat (length ws) + 1) with (Z.of_nat (length (ws ++ [w]))) by (rewrite length_app; cbn; lia).
    destruct (IH fuel p0 r1 (ws ++ [w]) ts s3 m2) as (r2 & s4 & m3 & H3 & Hs4 & He3 & Hf3 & Hp3 & Hw3);
      [done..|apply He2; by rewrite Hc1, lookup_insert_eq|rewrite length_app; cbn; lia|lia|].
    exists r2, s4, m3. cbn [map fst concat snd]. rewrite <- app_assoc in H3, Hp3. cbn [app] in H3, Hp3.
    split; [done|]. split; [done|]. split; [|split; [done|split; [done|]]].
    + intros x c Hx Hxc. apply He3, He2; [done|]. rewrite Hc1. by rewrite lookup_insert_ne.
    + eapply wrapped_app; [|exact Hw3]. eapply wrapped_mono; [|exact Hwr].
      intros x r y Hx. apply He3; [|done]. intros ->.
      assert (cmds m2 !! p0 = Some (ExecCmd (slots (ws ++ [w])))) by (apply He2; by rewrite Hc1, lookup_insert_eq).
      unfold redir_cmd in Hx. destruct (r.1 =? 60); congruence.
Qed.

Lemma parseexec_ok c fuel ts s m : simple_ok c -> stops ts -> fresh_ok m ->
  laid_out (simple_tokens c ++ ts) s -> (length (simple_tokens c) < fuel)%nat ->
  exists q s' m', parseexec fuel s m = Ok ((q, s'), m') /\ laid_out ts s' /\
    extends m m' /\ fresh_ok m' /\ rep m' q (simple_tree c).
Proof.
  intros (Hpre & Hargs & Hn) Hts Hm Hl Hf. unfold parseexec, execcmd. unfold simple_tokens in *.
  rewrite <- app_assoc in Hl. rewrite length_app in Hf.
  destruct (new_cmd_ok (ExecCmd (replicate (Z.to_nat MAXARGS) None)) m Hm) as (p0 & m1 & H1 & Hp1 & Hfree & He1 & Hf1).
  step H1. assert (Hrl : (length (pre c) < fuel)%nat).
  { pose proof (redir_tokens_length (pre c)). lia. }
  destruct (parseredirs_ok (pre c) fuel p0 (args_tokens (args c) ++ ts) s m1 Hpre (args_no_redir _ _ Hts) Hf1 Hl Hrl)
    as (r1 & s1 & m2 & H2 & Hs1 & He2 & Hf2 & Hw2).
  step H2.
  destruct (parseexec_loop_ok (args c) fuel p0 r1 [] ts s1 m2 Hargs Hts Hf2 Hs1)
    as (r2 & s2 & m3 & H3 & Hs2 & He3 & Hf3 & Hp3 & Hw3); [by apply He2|cbn; lia|lia|].
  change (Z.of_nat (length [])) with 0 in H3. step H3. cbn [app] in *.
  destruct (set_arg_ok m3 p0 (map fst (args c)) None Hp3) as (m4 & H4 & Hn4 & Hc4); [by rewrite length_map|].
  rewrite insert_id in Hc4 by done. assert (m4 = m3) as -> by (destruct m3, m4; cbn in *; by subst).
  step H4. exists r2, s2, m3. split; [done|]. split; [done|]. split; [|split; [done|]].
  - intros x y Hx. apply He3; [congruence|]. by apply He2, He1.
  - unfold simple_tree. eapply wrapped_rep.
    + eapply wrapped_app; [|exact Hw3]. eapply wrapped_mono; [|exact Hw2].
      intros x r y Hx. apply He3; [|done]. intros ->.
      assert (cmds m2 !! p0 = Some (ExecCmd (replicate (Z.to_nat MAXARGS) None))) by by apply He2.
      unfold redir_cmd in Hx. destruct (r.1 =? 60); congruence.
    + eapply rep_exec; [exact Hp3|apply slots_arguments|apply slots_length; by rewrite length_map].
Qed.

(** The next token ends a pipeline. *)
Definition stops_pipe (ts : list token) : Prop :=
  match ts with [] => True | TSym c :: _ => c = 59 | TWord _ :: _ => False end.

Lemma symbols_one c : c = 124 \/ c = 59 -> Forall (fun c => symbols c = true) [c].
Proof. intros [-> | ->]; by repeat constructor. Qed.

Lemma parsepipe_ok p : forall fuel ts s m, pipeline_ok p -> stops_pipe ts -> fresh_ok m ->
  laid_out (pipeline_tokens p ++ ts) s -> (length (pipeline_tokens p) < fuel)%nat ->
  exists q s' m', parsepipe fuel s m = Ok ((q, s'), m') /\ laid_out ts s' /\
    extends m m' /\ fresh_ok m' /\ rep m' q (pipeline_tree p).
Proof.
  induction p as [c|c p IH]; intros [|fuel] ts s m Hp Hts Hm Hl Hf; try lia;
    cbn [parsepipe pipeline_tokens pipeline_ok pipeline_tree] in *.
  - destruct (parseexec_ok c (S fuel) ts s m Hp) as (q & s1 & m1 & H1 & Hs1 & He1 & Hf1 & Hr1);
      [destruct ts as [|[]]; cbn in *; auto|done..|].
    step H1. destruct (peek_ok _ s1 [124] Hs1 (symbols_one _ (or_introl eq_refl))) as (s2 & -> & Hs2).
    assert (Hno : match ts with TSym c :: _ => bool_decide (c ∈ [124]) | _ => false end = false).
    { destruct ts as [|[w|x] ts]; [done..|]. cbn in Hts. subst. by apply bool_decide_eq_false_2; rewrite elem_of_cons, elem_of_nil; lia. }
    rewrite Hno. exists q, s2, m1. done.
  - destruct Hp as [Hc Hp]. rewrite <- app_assoc in Hl. cbn [app] in Hl. rewrite length_app in Hf. cbn [length] in Hf.
    destruct (parseexec_ok c (S fuel) (TSym 124 :: pipeline_tokens p ++ ts) s m Hc)
      as (q & s1 & m1 & H1 & Hs1 & He1 & Hf1 & Hr1); [by left|done|done|lia|].
    step H1. destruct (peek_ok _ s1 [124] Hs1 (symbols_one _ (or_introl eq_refl))) as (s2 & -> & Hs2).
    rewrite bool_decide_eq_true_2 by (by rewrite elem_of_cons; left).
    destruct (gettoken_ok _ _ s2 Hs2) as (s3 & -> & Hs3).
    destruct (IH fuel ts s3 m1 Hp Hts Hf1 Hs3) as (r & s4 & m2 & H2 & Hs4 & He2 & Hf2 & Hr2); [lia|].
    step H2. destruct (new_cmd_ok (PipeCmd q r) m2 Hf2) as (x & m3 & H3 & Hx & _ & He3 & Hf3).
    unfold pipecmd. step H3. exists x, s4, m3. split; [done|]. split; [done|].
    split; [by transitivity m1; [|transitivity m2]|]. split; [done|].
    eapply rep_pipe; [exact Hx| |]; (eapply rep_extends; [|eassumption]); [by transitivity m2|done].
Qed.

Lemma parsecomd_ok l : forall fuel s m, line_ok l -> fresh_ok m ->
  laid_out (line_tokens l) s -> (length (line_tokens l) < fuel)%nat ->
  exists q s' m', parsecomd fuel s m = Ok ((q, s'), m') /\ laid_out [] s' /\
    extends m m' /\ fresh_ok m' /\ rep m' q (line_tree l).
Proof.
  induction l as [p|p l IH]; intros [|fuel] s m Hp Hm Hl Hf; try lia;
    cbn [parsecomd line_tokens line_ok line_tree] in *.
  - rewrite <- (app_nil_r (pipeline_tokens p)) in Hl.
    destruct (parsepipe_ok p (S fuel) [] s m Hp) as (q & s1 & m1 & H1 & Hs1 & He1 & Hf1 & Hr1); [done..|].
    step H1. destruct (peek_ok _ s1 [59] Hs1 (symbols_one _ (or_intror eq_refl))) as (s2 & -> & Hs2).
    exists q, s2, m1. done.
  - destruct Hp as [Hc Hp]. rewrite length_app in Hf. cbn [length] in Hf.
    destruct (parsepipe_ok p (S fuel) (TSym 59 :: line_tokens l) s m Hc)
      as (q & s1 & m1 & H1 & Hs1 & He1 & Hf1 & Hr1); [done|done|done|lia|].
    step H1. destruct (peek_ok _ s1 [59] Hs1 (symbols_one _ (or_intror eq_refl))) as (s2 & -> & Hs2).
    rewrite bool_decide_eq_true_2 by (by rewrite elem_of_cons; left).
    destruct (gettoken_ok _ _ s2 Hs2) as (s3 & -> & Hs3).
    destruct (IH fuel s3 m1 Hp Hf1 Hs3) as (r & s4 & m2 & H2 & Hs4 & He2 & Hf2 & Hr2); [lia|].
    step H2. destruct (new_cmd_ok (CommandCmd q r) m2 Hf2) as (x & m3 & H3 & Hx & _ & He3 & Hf3).
    unfold commandcmd. step H3. exists x, s4, m3. split; [done|]. split; [done|].
    split; [by transitivity m1; [|transitivity m2]|]. split; [done|].
    eapply rep_list; [exact Hx| |]; (eapply rep_extends; [|eassumption]); [by transitivity m2|done].
Qed.

Lemma parsecmd_ok l s m fuel : line_ok l -> fresh_ok m -> laid_out (line_tokens l) s ->
  (length (line_tokens l) < fuel)%nat ->
  exists q m', parsecmd fuel s m = Ok (q, m') /\ rep m' q (line_tree l) /\ extends m m' /\ fresh_ok m'.
Proof.
  intros Hl Hm Hs Hf. destruct (parsecomd_ok l fuel s m Hl Hm Hs Hf) as (q & s' & m' & H1 & Hs' & He & Hf' & Hr).
  exists q, m'. split; [|done]. unfold parsecmd, parseline. step H1.
  destruct (laid_out_skip [] s' Hs') as [_ Hend]. unfold peek. by rewrite Hend.
Qed.

(** ** What a command line runs *)

(** What a descriptor leads to: where it led before, an end of a pipe, or a file. *)
Inductive chan : Type := Inherited (fd : Z) | PipeRead (id : nat) | PipeWrite (id : nat)
  | File (name : list Z) (mode : Z).

(** An [exec]: the path, the arguments, the [PATH] of the environment and the descriptors
    that are open. *)
Record event : Type := mk_event { ev_path : list Z; ev_argv : list (list Z); ev_environ : list Z; ev_fds : gmap Z chan }.

(** *** Where a program is *)

Fixpoint split_at (delim : Z) (s : list Z) : list (list Z) :=
  match s with
  | [] => [[]]
  | c :: s' =>
      if c =? delim then [] :: split_at delim s'
      else match split_at delim s' with w :: ws => (c :: w) :: ws | [] => [[c]] end
  end.
(** The directories of [PATH], between the colons. *)
Definition directories (PATH : list Z) : list (list Z) := filter (fun d => d <> []) (split_at 58 PATH).

(** A directory that can be opened and has an entry of that name. *)
Definition offers (entries : list Z -> option (list (list Z))) (command d : list Z) : Prop :=
  match entries d with Some names => command ∈ names | None => False end.
#[export] Instance offers_dec entries command d : Decision (offers entries command d).
Proof. unfold offers. destruct (entries d); apply _. Defined.

(** The entry of that name in the first directory that offers one. *)
Definition program_path (PATH : list Z) (entries : list Z -> option (list (list Z))) (command : list Z) : option (list Z) :=
  (fun x => x.2 ++ 47 :: command) <$> list_find (offers entries command) (directories PATH).

(** [PATH] up to the end of its first directory. *)
Fixpoint while (p : Z -> bool) (s : list Z) : list Z :=
  match s with c :: s' => if p c then c :: while p s' else [] | [] => [] end.
Definition first_directory (PATH : list Z) : list Z :=
  let colons := while (fun c => c =? 58) PATH in colons ++ while (fun c => negb (c =? 58)) (drop (length colons) PATH).

Lemma strtok_all_split delim s : forall w, strtok_all delim s w =
  filter (fun d => d <> []) (match split_at delim s with v :: vs => (w ++ v) :: vs | [] => [w] end).
Proof.
  induction s as [|c s IH]; intros w; cbn [strtok_all split_at].
  - rewrite app_nil_r. destruct w; [done|]. by rewrite filter_cons_True.
  - destruct (c =? delim); rewrite IH.
    + rewrite app_nil_r. destruct (split_at delim s) as [|v vs]; destruct w; cbn [app]; try done; by rewrite (filter_cons_True (fun d => d <> [])).
    + destruct (split_at delim s) as [|v vs]; [done|]. by rewrite <- (assoc_L (++)).
Qed.

Lemma split_at_cons delim s : exists w ws, split_at delim s = w :: ws.
Proof. destruct s as [|c s]; cbn; [by eexists _, _|]. destruct (c =? delim); [by eexists _, _|]. destruct (split_at delim s); by eexists _, _. Qed.

Lemma directories_strtok PATH : strtok_all 58 PATH [] = directories PATH.
Proof. rewrite strtok_all_split. unfold directories. by destruct (split_at_cons 58 PATH) as (w & ws & ->). Qed.

Lemma find_in_offers entries junk command dirs :
  find_in entries junk dirs command = (fun x => junk ++ x.2 ++ 47 :: command) <$> list_find (offers entries command) dirs.
Proof.
  induction dirs as [|d dirs IH]; cbn [find_in list_find]; [done|]. destruct (decide (offers entries command d)) as [H|H]; unfold offers in H.
  - destruct (entries d); [|done]. by rewrite bool_decide_true.
  - rewrite <- option_fmap_compose. destruct (entries d); [rewrite bool_decide_false by done|]; rewrite IH; apply option_fmap_ext; by intros [].
Qed.

Lemma find_command_program PATH entries junk command :
  find_command_path PATH entries junk command = (fun path => junk ++ path) <$> program_path PATH entries command.
Proof.
  unfold find_command_path, program_path. rewrite find_in_offers, directories_strtok, <- option_fmap_compose.
  apply option_fmap_ext. by intros [].
Qed.

Lemma strtok_left_first PATH : strtok_left 58 PATH false = first_directory PATH.
Proof.
  unfold first_directory. assert (Hin : forall s, strtok_left 58 s true = while (fun c => negb (c =? 58)) s).
  { induction s as [|c s IH]; cbn; [done|]. destruct (c =? 58); cbn; [done|by rewrite IH]. }
  induction PATH as [|c s IH]; cbn; [done|]. destruct (c =? 58) eqn:E; cbn [app length drop].
  - by rewrite IH.
  - cbn. rewrite E. cbn. by rewrite Hin.
Qed.

Section run.
Context (PATH : list Z) (entries : list Z -> option (list (list Z))) (junk : list Z).
(** The descriptor [open] and [pipe] take next, which is not in use, and which files
    can be opened. *)
Context (free_fd : gmap Z chan -> Z) (free_fd_free : forall fds, fds !! free_fd fds = None).
Context (free_fd_nonneg : forall fds, 0 <= free_fd fds).
Context (can_open : list Z -> Z -> bool).

(** The documented effect of the calls on the descriptors of a process; the processes
    it forks come first.  [id] numbers the pipes. *)
Fixpoint perform (p : proc) (fds : gmap Z chan) (id : nat) : list event * nat :=
  match p with
  | PExit _ | PCrash => ([], id)
  | PExecv path argv environ _ => ([mk_event path argv environ fds], id)
  | POpen file mode k =>
      if can_open file mode then
        let fd := free_fd fds in perform (k fd) (<[fd := File file mode]> fds) id
      else perform (k (-1)) fds id
  | PDup2 oldfd newfd k =>
      match fds !! oldfd with
      | Some c => perform (k newfd) (<[newfd := c]> fds) id
      | None => perform (k (-1)) fds id
      end
  | PClose fd k => perform k (delete fd fds) id
  | PPipe k =>
      let p0 := free_fd fds in
      let fds := <[p0 := PipeRead id]> fds in
      let p1 := free_fd fds in
      perform (k 0 p0 p1) (<[p1 := PipeWrite id]> fds) (S id)
  | PFork k =>
      let '(child, id) := perform (k 0) fds id in
      let '(parent, id) := perform (k 1) fds id in
      (child ++ parent, id)
  | PWait k => perform k fds id
  end.

(** Each program of a tree, with its arguments and what its standard input and output
    are, when those of the whole are [i] and [o]; the path it is run by has [junk] in front
    of it. *)
Fixpoint wiring (t : tree) (i o : chan) (id : nat) : list (list Z * list (list Z) * chan * chan) * nat :=
  match t with
  | TExec argv =>
      (match argv with
       | argv0 :: _ =>
           match program_path PATH entries argv0 with
           | Some path => [(junk ++ path, argv, i, o)]
           | None => []
           end
       | [] => []
       end, id)
  | TRedir (c, file) t =>
      if c =? 60 then wiring t (if can_open file O_RDONLY then File file O_RDONLY else i) o id
      else let mode := Z.lor (Z.lor O_WRONLY O_CREAT) O_TRUNC in
           wiring t i (if can_open file mode then File file mode else o) id
  | TPipe l r =>
      let '(ls, id1) := wiring l i (PipeWrite id) (S id) in
      let '(rs, id2) := wiring r (PipeRead id) o id1 in
      (ls ++ rs, id2)
  | TList l r =>
      let '(ls, id1) := wiring l i o id in
      let '(rs, id2) := wiring r i o id1 in
      (ls ++ rs, id2)
  end.

(** An [exec] has the standard streams of a program, and of [PATH] the first directory. *)
Definition plugged (e : event) (x : list Z * list (list Z) * chan * chan) : Prop :=
  x.1.1 = (ev_path e, ev_argv e) /\ ev_environ e = first_directory PATH /\ ev_fds e !! 0 = Some x.1.2 /\ ev_fds e !! 1 = Some x.2.

Fixpoint depth (t : tree) : nat :=
  match t with
  | TExec _ => 1
  | TRedir _ t => S (depth t)
  | TPipe l r | TList l r => S (Nat.max (depth l) (depth r))
  end.

Lemma free_fd_other fds fd : is_Some (fds !! fd) -> free_fd fds <> fd.
Proof. intros [c Hc] He. pose proof (free_fd_free fds). congruence. Qed.

(** Moving an opened file to descriptor [fd]; without it the command runs as it is. *)
Lemma perform_redir file mode fd k fds id i o : fds !! 0 = Some i -> fds !! 1 = Some o -> fds !! (-1) = None ->
  fd = 0 \/ fd = 1 ->
  perform (POpen file mode (fun nfd => PDup2 nfd fd (fun _ => PClose nfd k))) fds id =
  perform k (if can_open file mode then <[fd := File file mode]> fds else fds) id.
Proof.
  intros Hi Ho Hm1 Hfd. cbn [perform]. destruct (can_open file mode).
  - rewrite lookup_insert_eq. f_equal. assert (Hne : free_fd fds <> fd).
    { apply free_fd_other. destruct Hfd as [-> | ->]; by eexists. }
    apply map_eq. intros x. destruct (decide (x = free_fd fds)) as [->|Hx].
    + rewrite lookup_delete_eq, lookup_insert_ne by done. by rewrite free_fd_free.
    + rewrite lookup_delete_ne by done. destruct (decide (x = fd)) as [->|].
      * by rewrite !lookup_insert_eq.
      * by rewrite !lookup_insert_ne.
  - rewrite Hm1. by rewrite delete_id.
Qed.

(** The two new descriptors of a pipe. *)
Lemma pipe_fds fds i o id : fds !! 0 = Some i -> fds !! 1 = Some o ->
  let p0 := free_fd fds in let p1 := free_fd (<[p0 := PipeRead id]> fds) in
  p0 <> 0 /\ p0 <> 1 /\ p1 <> 0 /\ p1 <> 1 /\ p0 <> p1 /\ 0 <= p0 /\ 0 <= p1.
Proof.
  intros Hi Ho p0 p1.
  assert (H0 : p0 <> 0) by (apply free_fd_other; by eexists).
  assert (H1 : p0 <> 1) by (apply free_fd_other; by eexists).
  split; [done|]. split; [done|].
  split; [apply free_fd_other; rewrite lookup_insert_ne by done; by eexists|].
  split; [apply free_fd_other; rewrite lookup_insert_ne by done; by eexists|].
  split; [|split; apply free_fd_nonneg].
  intros He. assert (Hn := free_fd_free (<[p0 := PipeRead id]> fds)). fold p1 in Hn.
  rewrite <- He, lookup_insert_eq in Hn. done.
Qed.

Lemma runcmd_wired m p t : rep m p t -> forall fuel fds id i o, (depth t <= fuel)%nat ->
  fds !! 0 = Some i -> fds !! 1 = Some o -> fds !! (-1) = None ->
  Forall2 plugged (perform (runcmd PATH entries junk fuel m (Some p)) fds id).1 (wiring t i o id).1 /\
  (perform (runcmd PATH entries junk fuel m (Some p)) fds id).2 = (wiring t i o id).2.
Proof.
  induction 1 as [p sl ws Hp Ha Hl|p [c f] sub t Hp Hr IH|p l r tl tr Hp Hrl IHl Hrr IHr
    |p l r tl tr Hp Hrl IHl Hrr IHr]; intros [|fuel] fds id i o Hf Hi Ho Hm1; cbn in Hf; try lia;
    cbn [runcmd]; rewrite Hp.
  - subst ws. destruct sl as [|[a|] sl]; cbn; [by split; constructor| |by split; constructor].
    rewrite find_command_program. destruct (program_path PATH entries a); cbn; [|by split; constructor].
    split; [|done]. constructor; [|constructor]. by split; [|split; [apply strtok_left_first|]].
  - unfold redir_cmd. cbn [fst snd wiring]. destruct (c =? 60).
    + rewrite (perform_redir f O_RDONLY 0 _ fds id i o) by (done || by left).
      apply IH; [lia| | |]; destruct (can_open f O_RDONLY);
        rewrite ?lookup_insert_eq, ?lookup_insert_ne by done; done.
    + rewrite (perform_redir f _ 1 _ fds id i o) by (done || by right).
      apply IH; [lia| | |]; destruct (can_open f _);
        rewrite ?lookup_insert_eq, ?lookup_insert_ne by done; done.
  - pose proof (pipe_fds fds i o id Hi Ho) as Hfds. cbn zeta in Hfds. cbn [perform].
    set (p0 := free_fd fds) in *. set (p1 := free_fd (<[p0:=PipeRead id]> fds)) in *.
    destruct Hfds as (H00 & H01 & H10 & H11 & Hne & Hp0 & Hp1). change (0 =? 0) with true. change (1 =? 0) with false.
    cbn iota. cbn [perform wiring]. rewrite lookup_insert_eq.
    destruct (IHl fuel (delete p1 (<[1:=PipeWrite id]> (<[p1:=PipeWrite id]> (<[p0:=PipeRead id]> fds)))) (S id) i (PipeWrite id))
      as [Hevl Hidl]; [lia|by rewrite lookup_delete_ne, !lookup_insert_ne|
        by rewrite lookup_delete_ne, lookup_insert_eq|rewrite lookup_delete_ne, !lookup_insert_ne by lia; done|].
    destruct (perform (runcmd PATH entries junk fuel m (Some l)) _ (S id)) as [evl id1].
    destruct (wiring tl i (PipeWrite id) (S id)) as [wl id1']. cbn [fst snd] in *. subst id1'.
    assert (Hread : delete p1 (<[p1:=PipeWrite id]> (<[p0:=PipeRead id]> fds)) !! p0 = Some (PipeRead id))
      by (by rewrite lookup_delete_ne, lookup_insert_ne, lookup_insert_eq by done).
    change (0 =? 0) with true. change (1 =? 0) with false. cbn iota. cbn [perform]. rewrite Hread.
    destruct (IHr fuel (delete p0 (<[0:=PipeRead id]> (delete p1 (<[p1:=PipeWrite id]> (<[p0:=PipeRead id]> fds))))) id1 (PipeRead id) o)
      as [Hevr Hidr]; [lia|by rewrite lookup_delete_ne, lookup_insert_eq|
        by rewrite lookup_delete_ne, lookup_insert_ne, lookup_delete_ne, !lookup_insert_ne|
        rewrite lookup_delete_ne, lookup_insert_ne, lookup_delete_ne, !lookup_insert_ne by lia; done|].
    destruct (perform (runcmd PATH entries junk fuel m (Some r)) _ id1) as [evr id2].
    destruct (wiring tr (PipeRead id) o id1) as [wr id2']. cbn [fst snd] in *. subst id2'.
    cbn [perform fst snd]. rewrite app_nil_r. split; [by apply Forall2_app|done].
  - cbn [perform]. change (0 =? 0) with true. change (1 =? 0) with false. cbn iota. cbn [perform wiring].
    destruct (IHl fuel fds id i o) as [Hevl Hidl]; [lia|done..|].
    destruct (perform (runcmd PATH entries junk fuel m (Some l)) fds id) as [evl id1].
    destruct (wiring tl i o id) as [wl id1']. cbn [fst snd] in *. subst id1'.
    destruct (IHr fuel fds id1 i o) as [Hevr Hidr]; [lia|done..|].
    destruct (perform (runcmd PATH entries junk fuel m (Some r)) fds id1) as [evr id2].
    destruct (wiring tr i o id1) as [wr id2']. cbn [fst snd] in *. split; [by apply Forall2_app|done].
Qed.
End run.

(** ** Properties *)

(** C16: a command line, however it is laid out, is parsed into its tree, and the
    shell then executes the programs of the tree and nothing else, in its order, whatever
    descriptors the system hands out: each by the entry of its name in the first directory
    of [PATH] that can be opened and has one, with its arguments and with its standard input
    and output where the pipes and the redirections around it say.
    Two flaws of the program show in this: the path is what [strcat] makes of a block
    fresh from [malloc], so that the string [junk] which the block happens to hold stands in
    front of it, and only where that is empty the program itself is run; and its [PATH] is
    cut after the first directory. *)
Theorem shell_runs PATH entries junk (free_fd : gmap Z chan -> Z) can_open l s m fds i o fuel id :
  (forall fds, fds !! free_fd fds = None) -> (forall fds, 0 <= free_fd fds) ->
  line_ok l -> laid_out (line_tokens l) s -> fresh_ok m -> (length (line_tokens l) < fuel)%nat ->
  fds !! 0 = Some i -> fds !! 1 = Some o -> fds !! (-1) = None ->
  exists q m', parsecmd fuel s m = Ok (q, m') /\ rep m' q (line_tree l) /\
    forall fuel', (depth (line_tree l) <= fuel')%nat ->
      Forall2 (plugged PATH) (perform free_fd can_open (runcmd PATH entries junk fuel' m' (Some q)) fds id).1
        (wiring PATH entries junk can_open (line_tree l) i o id).1.
Proof.
  intros Hfree Hnn Hl Hs Hm Hf Hi Ho Hm1.
  destruct (parsecmd_ok l s m fuel Hl Hm Hs Hf) as (q & m' & Hrun & Hr & _ & _).
  exists q, m'. split; [done|]. split; [done|]. intros fuel' Hd.
  by apply (runcmd_wired PATH entries junk free_fd Hfree Hnn can_open m' q _ Hr).
Qed.

(** *** "ls -l | wc>o ; ls" *)

Definition ls : list Z := [108; 115].
Definition wc : list Z := [119; 99].
Definition example_text : list Z :=
  [108; 115; 32; 45; 108; 32; 124; 32; 119; 99; 62; 111; 32; 59; 32; 108; 115; 10].
Definition example_line : line :=
  Then (Piped (mk_simple [] [(ls, []); ([45; 108], [])])
          (Last (mk_simple [] [(wc, [(62, [111])])])))
    (Only (Last (mk_simple [] [(ls, [])]))).
(** "/b" holds both programs. *)
Definition bin (dir : list Z) : option (list (list Z)) :=
  if bool_decide (dir = [47; 98]) then Some [ls; wc] else None.
(** One more than the largest descriptor in use. *)
Definition next_fd (fds : gmap Z chan) : Z := map_fold (fun fd _ n => Z.max n (fd + 1)) 0 fds.

Lemma next_fd_above fds : 0 <= next_fd fds /\ forall fd c, fds !! fd = Some c -> fd < next_fd fds.
Proof.
  unfold next_fd. apply (map_fold_weak_ind (fun n fds => 0 <= n /\ forall fd c, fds !! fd = Some c -> fd < n)).
  - split; [lia|]. intros fd c H. by rewrite lookup_empty in H.
  - intros fd c fds' n _ [Hn IH]. split; [lia|]. intros fd' c' [[<- _]|[_ Hx]]%lookup_insert_Some; [lia|].
    apply IH in Hx. lia.
Qed.

Lemma next_fd_free fds : fds !! next_fd fds = None.
Proof.
  destruct (fds !! next_fd fds) as [c|] eqn:Hc; [|done]. apply (next_fd_above fds) in Hc. lia.
Qed.

Lemma example_laid_out : laid_out (line_tokens example_line) example_text.
Proof.
  assert (Hls : word_ok ls) by (split; [done|repeat constructor]).
  assert (Hwc : word_ok wc) by (split; [done|repeat constructor]).
  assert (Hl : word_ok [45; 108]) by (split; [done|repeat constructor]).
  assert (Ho : word_ok [111]) by (split; [done|repeat constructor]).
  assert (H32 : blanks [32]) by repeat constructor. assert (H0 : blanks []) by constructor.
  apply (laid_word [] ls); [done|done| |done].
  apply (laid_word [32] [45; 108]); [done|done| |done].
  apply (laid_sym [32]); [done|done|].
  apply (laid_word [32] wc); [done|done| |done].
  apply (laid_sym []); [done|done|].
  apply (laid_word [] [111]); [done|done| |done].
  apply (laid_sym [32]); [done|done|].
  apply (laid_word [32] ls); [done|done| |done].
  apply laid_end. repeat constructor.
Qed.

Lemma shell_runs_witness :
  let streams : gmap Z chan := {[0 := Inherited 0; 1 := Inherited 1; 2 := Inherited 2]} in
  exists q m', parsecmd 20 example_text (mk_memory ∅ 1) = Ok (q, m') /\ rep m' q (line_tree example_line) /\
    forall fuel', (4 <= fuel')%nat ->
      Forall2 (plugged [47; 98])
        (perform next_fd (fun _ _ => true) (runcmd [47; 98] bin [] fuel' m' (Some q)) streams 0).1
        [([47; 98; 47; 108; 115], [ls; [45; 108]], Inherited 0, PipeWrite 0);
         ([47; 98; 47; 119; 99], [wc], PipeRead 0, File [111] 577);
         ([47; 98; 47; 108; 115], [ls], Inherited 0, Inherited 1)].
Proof.
  apply (shell_runs [47; 98] bin [] next_fd (fun _ _ => true) example_line example_text (mk_memory ∅ 1)
    {[0 := Inherited 0; 1 := Inherited 1; 2 := Inherited 2]} (Inherited 0) (Inherited 1) 20 0).
  - apply next_fd_free.
  - intros fds. apply next_fd_above.
  - vm_compute. repeat split; repeat constructor; done.
  - apply example_laid_out.
  - intros p [c Hc]. discriminate Hc.
  - cbn. lia.
  - reflexivity.
  - reflexivity.
  - reflexivity.
Defined.

(** The left side of a pipe keeps its read end open. *)
Example left_keeps_read_end :
  let streams : gmap Z chan := {[0 := Inherited 0; 1 := Inherited 1; 2 := Inherited 2]} in
  match parsecmd 20 [108; 115; 124; 119; 99] (mk_memory ∅ 1) with
  | Ok (q, m') =>
      match (perform next_fd (fun _ _ => true) (runcmd [47; 98] bin [] 9 m' (Some q)) streams 0).1 with
      | [left_; right_] => ev_fds left_ !! 3 = Some (PipeRead 0) /\ ev_fds right_ !! 3 = None
      | _ => False
      end
  | Err _ => False
  end.
Proof. vm_compute. split; reflexivity. Qed.

(** Of "/b:/c" a program that is run sees "/b" only: the shell has cut [PATH] where it
    looked. *)
Example path_cut :
  match parsecmd 20 [108; 115] (mk_memory ∅ 1) with
  | Ok (q, m') => ev_environ <$> (perform next_fd (fun _ _ => true) (runcmd [47; 98; 58; 47; 99] bin [] 9 m' (Some q)) ∅ 0).1 = [[47; 98]]
  | Err _ => False
  end.
Proof. vm_compute. reflexivity. Qed.
