(* ===== verification/EasyShell.v ===== *)
(** The shell in C++, [mit6.828/homework/shell/{parse,command,easysh}.cc].  A command is a
    value: the pointers to it are shared by nothing else, and [set_args], the only change,
    goes down the redirections to the one command with arguments.  The calls of a process
    and the C library are those of [Shell]; [malloc] and [new] succeed, and what is printed
    is left out. *)
From Stdlib Require Import ZArith Lia.
From S2P Require Import Prelude Shell.
Open Scope Z_scope.

(** ** Commands *)

Inductive Command : Type :=
  | Coloncommand (first second : Command)
  | Pipecommand (first second : Command)
  | Execommand (args : list (list Z))
  | Redircommand (type : Z) (cmd : Command) (file : list Z) (mode fd : Z).

Definition new_Redircommand (c : Command) (f : list Z) (t : Z) : Command :=
  Redircommand t c f (if t =? 60 then O_RDONLY else Z.lor (Z.lor O_WRONLY O_CREAT) O_TRUNC) (if t =? 60 then 0 else 1).

Fixpoint set_args (c : Command) (paras : list (list Z)) : Command :=
  match c with
  | Coloncommand _ _ | Pipecommand _ _ => c
  | Execommand _ => Execommand paras
  | Redircommand type cmd file mode fd => Redircommand type (set_args cmd paras) file mode fd
  end.

(** ** Scanning *)

(** [whitespace.find(c) != string::npos], and the symbols *)
Definition whitespace (c : Z) : bool := bool_decide (c ∈ [32; 13; 10; 9; 11]).
Definition symbols (c : Z) : bool := bool_decide (c ∈ [60; 62; 124; 59]).

(** [while (s < es && whitespace.find( *s) != string::npos) s++;] *)
Fixpoint skip_spaces (s : list Z) : list Z :=
  match s with
  | c :: s' => if whitespace c then skip_spaces s' else s
  | [] => []
  end.

Fixpoint scan_name (s : list Z) : list Z * list Z :=
  match s with
  | c :: s' => if negb (whitespace c) && negb (symbols c) then let '(w, rest) := scan_name s' in (c :: w, rest) else ([], s)
  | [] => ([], [])
  end.

(** The token, the text from [q] to [eq], and what is left; the text ends with its NUL. *)
Definition get_token (s : list Z) : Z * list Z * list Z :=
  let s := skip_spaces s in
  let '(ret, text, s) :=
    match s with
    | [] => (0, [], [])
    | c :: s' => if symbols c then (c, [c], s') else let '(w, rest) := scan_name s in (97, w, rest)
    end in
  (ret, text, skip_spaces s).

Definition peek_token (s : list Z) (tokens : list Z) : bool * list Z :=
  let s := skip_spaces s in
  (match s with c :: _ => bool_decide (c ∈ tokens) | [] => false end, s).

(** ** Parsing; [exit(EXIT_FAILURE)] in a parser ends the child that parses *)

Fixpoint parse_redir (fuel : nat) (cmd : Command) (s : list Z) : res (Command * list Z) :=
  match fuel with
  | O => Err OutOfFuel
  | S fuel' =>
      let '(found, s) := peek_token s [60; 62] in
      if found : bool then
        let '(token, _, s) := get_token s in
        let '(token2, file, s) := get_token s in
        if negb (token2 =? 97) then Err (Exit 1)
        else parse_redir fuel' (if token =? 60 then new_Redircommand cmd file 60 else new_Redircommand cmd file 62) s
      else Ok (cmd, s)
  end.

(** The loop of [parse_exec]: the redirections around the command, and the arguments. *)
Fixpoint parse_exec_loop (fuel : nat) (redir : Command) (args : list (list Z)) (s : list Z) : res (Command * list (list Z) * list Z) :=
  match fuel with
  | O => Err OutOfFuel
  | S fuel' =>
      let '(found, s) := peek_token s [59; 124] in
      if found : bool then Ok (redir, args, s)
      else
        let '(status, arg, s) := get_token s in
        if status =? 0 then Ok (redir, args, s)
        else if negb (status =? 97) then Err (Exit 1)
        else
          let args := args ++ [arg] in
          let? (redir, s) := parse_redir fuel redir s in
          parse_exec_loop fuel' redir args s
  end.

Definition parse_exec (fuel : nat) (s : list Z) : res (Command * list Z) :=
  let cmd := Execommand [] in
  let? (redir, s) := parse_redir fuel cmd s in
  let? (redir, args, s) := parse_exec_loop fuel redir [] s in
  Ok (set_args redir args, s).

Fixpoint parse_pipe (fuel : nat) (s : list Z) : res (Command * list Z) :=
  match fuel with
  | O => Err OutOfFuel
  | S fuel' =>
      let? (cmd, s) := parse_exec fuel s in
      let '(found, s) := peek_token s [124] in
      if found : bool then
        let '(_, _, s) := get_token s in
        let? (second, s) := parse_pipe fuel' s in
        Ok (Pipecommand cmd second, s)
      else Ok (cmd, s)
  end.

Fixpoint parse_colon (fuel : nat) (s : list Z) : res (Command * list Z) :=
  match fuel with
  | O => Err OutOfFuel
  | S fuel' =>
      let? (cmd, s) := parse_pipe fuel s in
      let '(found, s) := peek_token s [59] in
      if found : bool then
        let '(_, _, s) := get_token s in
        let? (second, s) := parse_colon fuel' s in
        Ok (Coloncommand cmd second, s)
      else Ok (cmd, s)
  end.

Definition parse_command (fuel : nat) (buf : list Z) : res Command :=
  let? (cmd, s) := parse_colon fuel buf in
  let '(_, s) := peek_token s [] in
  match s with [] => Ok cmd | _ => Err (Exit 1) end.

(** ** Running *)

Section run.
(** [PATH], and the entries of the directories that can be opened. *)
Context (PATH : list Z) (entries : list Z -> option (list (list Z))).

Fixpoint find_in_dirs (path_dirs : list (list Z)) (command : list Z) : list Z :=
  match path_dirs with
  | [] => []
  | path_dir :: path_dirs' =>
      match entries path_dir with
      | Some names => if bool_decide (command ∈ names) then path_dir ++ [47] ++ command else find_in_dirs path_dirs' command
      | None => find_in_dirs path_dirs' command
      end
  end.
(** The empty string if there is none. *)
Definition find_command (command : list Z) : list Z := find_in_dirs (strtok_all 58 PATH []) command.

(** [run_command] never returns. *)
Fixpoint run_command (c : Command) : proc :=
  match c with
  | Coloncommand first second =>
      PFork (fun pid => if pid =? 0 then run_command first else PWait (run_command second))
  | Pipecommand first second =>
      PPipe (fun status p0 p1 =>
        if negb (status =? 0) then PExit 1
        else PFork (fun pid =>
          if pid =? 0 then
            PDup2 p1 1 (fun r => if r =? -1 then PExit 1 else PClose p1 (run_command first))
          else PFork (fun pid =>
            if pid =? 0 then
              PClose p1 (PDup2 p0 0 (fun r => if r =? -1 then PExit 1 else PClose p0 (run_command second)))
            else PClose p1 (PClose p0 (PWait (PWait (PExit 0)))))))
  | Execommand args =>
      match args with
      | [] => PExit 1
      | arg0 :: _ =>
          match find_command arg0 with
          | [] => PExit 0
          | cmdpath => PExecv cmdpath args (strtok_left 58 PATH false) (PExit 0)
          end
      end
  | Redircommand type cmd file mode fd =>
      POpen file mode (fun openfd =>
        if openfd =? -1 then PExit 1 else PDup2 openfd fd (fun _ => PClose openfd (run_command cmd)))
  end.
End run.

(** ** The main loop *)

(** The string at the front of a buffer that holds a NUL. *)
Fixpoint c_str (buf : list Z) : list Z :=
  match buf with c :: buf' => if c =? 0 then [] else c :: c_str buf' | [] => [] end.

(** The buffer of [size] octets: what [fgets] read, and zeros. *)
Definition read_command (size : Z) (input : list Z) : option (list Z * list Z) :=
  let '(chunk, rest) := fgets (Z.to_nat (size - 1)) input in
  let buf := chunk ++ replicate (Z.to_nat size - length chunk) 0 in
  if nth 0 buf 0 =? 0 then None else Some (buf, rest).

(** What the shell does itself: the directory is [None] for an unset [HOME]. *)
Inductive shell_action : Type := ChangeDir (path : option (list Z)) | PrintDir | RunChild (buf : list Z).

Section main.
Context (HOME : option (list Z)).

Definition handle_cd (path : list Z) : shell_action :=
  ChangeDir (match path with [] => HOME | c :: _ => if c =? 126 then HOME else Some path end).

(** [strncmp(buf, word, n) == 0] for a [word] of [n] characters *)
Definition begins (word buf : list Z) : bool := bool_decide (take (length word) buf = word).

(** [None] to leave the loop. *)
Definition handle_line (buf : list Z) : option shell_action :=
  if begins [101; 120; 105; 116] buf then None
  else if begins [99; 100] buf then
    let buf := <[(length (c_str buf) - 1)%nat := 0]> buf in
    Some (handle_cd (c_str (drop 3 buf)))
  else if begins [112; 119; 100] buf then Some PrintDir
  else Some (RunChild (c_str buf)).

Fixpoint easysh_main (fuel : nat) (input : list Z) : option (list shell_action) :=
  match fuel with
  | O => None
  | S fuel' =>
      match read_command 256 input with
      | None => Some []
      | Some (buf, rest) =>
          match handle_line buf with
          | None => Some []
          | Some action => option_map (cons action) (easysh_main fuel' rest)
          end
      end
  end.
End main.
