(* ===== verification/EasyShellSpec.v ===== *)
(** The C++ shell against the grammar of [ShellSpec]: a session does with each line what its
    first characters say, a line that is run becomes its tree whatever its layout and
    however many words it has, and runs the programs of the tree; where the C shell
    accepts the line and every file opens, both shells run the same programs. *)
From Stdlib Require Import ZArith Lia.
From S2P Require Import Prelude Shell ShellSpec EasyShell.
Open Scope Z_scope.

(** ** Tokens: both scanners agree *)

Lemma whitespace_same c : EasyShell.whitespace c = Shell.whitespace c.
Proof. unfold EasyShell.whitespace, Shell.whitespace. apply bool_decide_ext. rewrite !elem_of_cons, elem_of_nil. lia. Qed.

Lemma symbols_same c : EasyShell.symbols c = Shell.symbols c.
Proof. unfold EasyShell.symbols, Shell.symbols. apply bool_decide_ext. rewrite !elem_of_cons, elem_of_nil. lia. Qed.

Lemma skip_spaces_same s : skip_spaces s = skip_whitespace s.
Proof. induction s as [|c s IH]; cbn; [done|]. by rewrite whitespace_same, IH. Qed.

Lemma scan_name_same s : scan_name s = scan_word s.
Proof.
  induction s as [|c s IH]; cbn; [done|]. rewrite whitespace_same, symbols_same, <- negb_orb, IH.
  by destruct (Shell.whitespace c || Shell.symbols c).
Qed.

Lemma get_token_same s : get_token s = gettoken s.
Proof.
  unfold get_token, gettoken. rewrite skip_spaces_same. destruct (skip_whitespace s) as [|c s']; [done|].
  rewrite symbols_same, scan_name_same. destruct (Shell.symbols c); [by rewrite skip_spaces_same|].
  destruct (scan_word (c :: s')) as [w rest]. by rewrite skip_spaces_same.
Qed.

Lemma peek_same s tokens : peek_token s tokens = peek s tokens.
Proof. unfold peek_token, peek. by rewrite skip_spaces_same. Qed.

(** ** Parsing *)

Fixpoint cmd_of (t : tree) : Command :=
  match t with
  | TExec argv => Execommand argv
  | TRedir r t => new_Redircommand (cmd_of t) r.2 r.1
  | TPipe l r => Pipecommand (cmd_of l) (cmd_of r)
  | TList l r => Coloncommand (cmd_of l) (cmd_of r)
  end.

Definition wrap (c : Command) (r : redir) : Command := new_Redircommand c r.2 r.1.

Lemma cmd_of_wrapped rs t : cmd_of (fold_left (fun t r => TRedir r t) rs t) = fold_left wrap rs (cmd_of t).
Proof. revert t. induction rs as [|r rs IH]; intros t; cbn; [done|]. by rewrite IH. Qed.

Lemma set_args_wrapped rs c ws : set_args (fold_left wrap rs c) ws = fold_left wrap rs (set_args c ws).
Proof. revert c. induction rs as [|r rs IH]; intros c; cbn; [done|]. by rewrite IH. Qed.

(** Lines with any number of words. *)
Definition simple_any (c : simple) : Prop :=
  Forall redir_ok (pre c) /\ Forall (fun a => word_ok a.1 /\ Forall redir_ok a.2) (args c).
Fixpoint pipeline_any (p : pipeline) : Prop :=
  match p with Last c => simple_any c | Piped c rest => simple_any c /\ pipeline_any rest end.
Fixpoint line_any (l : line) : Prop :=
  match l with Only p => pipeline_any p | Then p rest => pipeline_any p /\ line_any rest end.

Lemma pipeline_ok_any p : pipeline_ok p -> pipeline_any p.
Proof. induction p as [c|c p IH]; cbn; [by intros (? & ? & _)|]. intros [(? & ? & _) Hp]. split; [by split|auto]. Qed.
Lemma line_ok_any l : line_ok l -> line_any l.
Proof. induction l as [p|p l IH]; cbn; [apply pipeline_ok_any|]. intros [H1 H2]. split; [by apply pipeline_ok_any|auto]. Qed.

Lemma parse_redir_ok rs : forall fuel c ts s, Forall redir_ok rs -> no_redir ts -> laid_out (redir_tokens rs ++ ts) s ->
  (length rs < fuel)%nat -> exists s', parse_redir fuel c s = Ok (fold_left wrap rs c, s') /\ laid_out ts s'.
Proof.
  induction rs as [|[c f] rs IH]; intros [|fuel] cmd ts s Hrs Hts Hl Hf; cbn in Hf; try lia; cbn [parse_redir]; rewrite peek_same.
  - destruct (peek_ok _ s [60; 62] Hl symbols_redir) as (s' & -> & Hs').
    assert (Hno : match ts with TSym c :: _ => bool_decide (c ∈ [60; 62]) | _ => false end = false).
    { destruct ts as [|[w|c] ts]; [done..|]. destruct Hts. apply bool_decide_eq_false. rewrite !elem_of_cons, elem_of_nil. naive_solver. }
    cbn [redir_tokens map concat app]. rewrite Hno. by exists s'.
  - inversion Hrs as [|? ? [Hc Hw] Hrs']; subst. cbn [fst snd] in *.
    change (redir_tokens ((c, f) :: rs) ++ ts) with (TSym c :: TWord f :: redir_tokens rs ++ ts) in Hl.
    destruct (peek_ok _ s [60; 62] Hl symbols_redir) as (s1 & -> & Hs1).
    rewrite bool_decide_eq_true_2 by (rewrite !elem_of_cons; naive_solver). rewrite !get_token_same.
    destruct (gettoken_ok _ _ s1 Hs1) as (s2 & -> & Hs2). rewrite get_token_same. destruct (gettoken_ok _ _ s2 Hs2) as (s3 & -> & Hs3).
    change (negb (97 =? 97)) with false. cbn iota.
    assert (E : (if c =? 60 then new_Redircommand cmd f 60 else new_Redircommand cmd f 62) = wrap cmd (c, f)) by (by destruct Hc as [-> | ->]).
    rewrite E. destruct (IH fuel (wrap cmd (c, f)) ts s3) as (s' & Hrun & Hs'); [done..|lia|]. by exists s'.
Qed.

Lemma parse_exec_loop_ok xs : forall fuel redir ws ts s, Forall (fun a => word_ok a.1 /\ Forall redir_ok a.2) xs -> stops ts ->
  laid_out (args_tokens xs ++ ts) s -> (length (args_tokens xs) < fuel)%nat ->
  exists s', parse_exec_loop fuel redir ws s = Ok (fold_left wrap (concat (map snd xs)) redir, ws ++ map fst xs, s') /\ laid_out ts s'.
Proof.
  induction xs as [|[w rs] xs IH]; intros [|fuel] redir ws ts s Hxs Hts Hl Hf; cbn [length] in Hf; try lia; cbn [parse_exec_loop]; rewrite peek_same.
  - destruct (peek_ok _ s [59; 124] Hl ltac:(repeat constructor)) as (s' & -> & Hs'). cbn [args_tokens map concat app] in *. rewrite app_nil_r.
    destruct ts as [|[w|c] ts]; [|done|].
    + rewrite get_token_same, (gettoken_end s' Hs'). cbn. exists []. split; [done|]. apply laid_end. constructor.
    + rewrite bool_decide_eq_true_2 by (cbn in Hts; rewrite !elem_of_cons; naive_solver). by exists s'.
  - inversion Hxs as [|? ? [Hw Hrs] Hxs']; subst. cbn [fst snd] in *.
    change (args_tokens ((w, rs) :: xs)) with (TWord w :: redir_tokens rs ++ args_tokens xs) in *. rewrite <- app_comm_cons, <- app_assoc in Hl.
    cbn [length] in Hf. rewrite length_app in Hf. pose proof (redir_tokens_length rs).
    destruct (peek_ok _ s [59; 124] Hl ltac:(repeat constructor)) as (s1 & -> & Hs1). cbn iota. rewrite get_token_same.
    destruct (gettoken_ok _ _ s1 Hs1) as (s2 & -> & Hs2). change (97 =? 0) with false. change (negb (97 =? 97)) with false. cbn iota.
    destruct (parse_redir_ok rs (S fuel) redir (args_tokens xs ++ ts) s2) as (s3 & E & Hs3); [done|by apply args_no_redir|done|lia|].
    rewrite E. cbn [rbind]. destruct (IH fuel (fold_left wrap rs redir) (ws ++ [w]) ts s3) as (s' & Hrun & Hs'); [done|done|done|lia|].
    exists s'. split; [|done]. rewrite Hrun. cbn [map fst snd concat]. by rewrite fold_left_app, <- app_assoc.
Qed.

Lemma parse_exec_ok c fuel ts s : simple_any c -> stops ts -> laid_out (simple_tokens c ++ ts) s ->
  (length (simple_tokens c) < fuel)%nat -> exists s', parse_exec fuel s = Ok (cmd_of (simple_tree c), s') /\ laid_out ts s'.
Proof.
  intros [Hpre Hargs] Hts Hl Hf. unfold simple_tokens in *. rewrite <- app_assoc in Hl. rewrite length_app in Hf.
  pose proof (redir_tokens_length (pre c)). unfold parse_exec.
  destruct (parse_redir_ok (pre c) fuel (Execommand []) (args_tokens (args c) ++ ts) s) as (s1 & -> & Hs1); [done|by apply args_no_redir|done|lia|].
  cbn [rbind]. destruct (parse_exec_loop_ok (args c) fuel (fold_left wrap (pre c) (Execommand [])) [] ts s1) as (s2 & -> & Hs2); [done|done|done|lia|].
  cbn [rbind]. exists s2. split; [|done]. unfold simple_tree. rewrite cmd_of_wrapped, <- fold_left_app, set_args_wrapped. done.
Qed.

(** The next token ends a pipeline. *)
Definition stops_pipe (ts : list token) : Prop := match ts with [] => True | TSym c :: _ => c = 59 | TWord _ :: _ => False end.

Lemma parse_pipe_ok p : forall fuel ts s, pipeline_any p -> stops_pipe ts -> laid_out (pipeline_tokens p ++ ts) s ->
  (length (pipeline_tokens p) < fuel)%nat -> exists s', parse_pipe fuel s = Ok (cmd_of (pipeline_tree p), s') /\ laid_out ts s'.
Proof.
  induction p as [c|c p IH]; intros [|fuel] ts s Hp Hts Hl Hf; cbn [pipeline_tokens] in *; try lia; cbn [parse_pipe].
  - destruct (parse_exec_ok c (S fuel) ts s) as (s1 & -> & Hs1); [done| |done|lia|]; [destruct ts as [|[w|x] ts]; cbn in *; auto|].
    cbn [rbind]. rewrite peek_same. destruct (peek_ok _ s1 [124] Hs1 ltac:(repeat constructor)) as (s2 & -> & Hs2).
    exists s2. split; [|done]. destruct ts as [|[w|x] ts]; [done|done|]. cbn in Hts. by subst x.
  - destruct Hp as [Hc Hp]. rewrite <- app_assoc in Hl. rewrite length_app in Hf. cbn [app length] in *.
    destruct (parse_exec_ok c (S fuel) (TSym 124 :: pipeline_tokens p ++ ts) s) as (s1 & -> & Hs1); [done|by left|done|lia|].
    cbn [rbind]. rewrite peek_same. destruct (peek_ok _ s1 [124] Hs1 ltac:(repeat constructor)) as (s2 & -> & Hs2). cbn [bool_decide].
    rewrite bool_decide_eq_true_2 by (by apply elem_of_cons; left). rewrite get_token_same.
    destruct (gettoken_ok _ _ s2 Hs2) as (s3 & -> & Hs3). destruct (IH fuel ts s3) as (s4 & -> & Hs4); [done|done|done|lia|]. by exists s4.
Qed.

Lemma parse_colon_ok l : forall fuel s, line_any l -> laid_out (line_tokens l) s -> (length (line_tokens l) < fuel)%nat ->
  exists s', parse_colon fuel s = Ok (cmd_of (line_tree l), s') /\ laid_out [] s'.
Proof.
  induction l as [p|p l IH]; intros [|fuel] s Hl Hs Hf; cbn [line_tokens] in *; try lia; cbn [parse_colon].
  - destruct (parse_pipe_ok p (S fuel) [] s) as (s1 & -> & Hs1); [done|done|by rewrite app_nil_r|lia|].
    cbn [rbind]. rewrite peek_same. destruct (peek_ok _ s1 [59] Hs1 ltac:(repeat constructor)) as (s2 & -> & Hs2). by exists s2.
  - destruct Hl as [Hp Hl]. rewrite length_app in Hf. cbn [length] in Hf.
    destruct (parse_pipe_ok p (S fuel) (TSym 59 :: line_tokens l) s) as (s1 & -> & Hs1); [done|done|done|lia|].
    cbn [rbind]. rewrite peek_same. destruct (peek_ok _ s1 [59] Hs1 ltac:(repeat constructor)) as (s2 & -> & Hs2).
    rewrite bool_decide_eq_true_2 by (by apply elem_of_cons; left). rewrite get_token_same.
    destruct (gettoken_ok _ _ s2 Hs2) as (s3 & -> & Hs3). destruct (IH fuel s3) as (s4 & -> & Hs4); [done|done|lia|]. by exists s4.
Qed.

Lemma parse_command_ok l s fuel : line_any l -> laid_out (line_tokens l) s -> (length (line_tokens l) < fuel)%nat ->
  parse_command fuel s = Ok (cmd_of (line_tree l)).
Proof.
  intros Hl Hs Hf. destruct (parse_colon_ok l fuel s Hl Hs Hf) as (s' & R & Hs'). unfold parse_command. rewrite R. cbn [rbind].
  rewrite peek_same. destruct (laid_out_skip [] s' Hs') as [_ Hend]. unfold peek. by rewrite Hend.
Qed.

(** ** Running *)

Section run.
Context (PATH : list Z) (entries : list Z -> option (list (list Z))).
Context (free_fd : gmap Z chan -> Z) (free_fd_free : forall fds, fds !! free_fd fds = None).
Context (free_fd_nonneg : forall fds, 0 <= free_fd fds) (can_open : list Z -> Z -> bool).
#[local] Notation perform := (perform free_fd can_open).

(** As [wiring], but behind a file that does not open nothing runs. *)
Fixpoint wires (t : tree) (i o : chan) (id : nat) : list (list Z * list (list Z) * chan * chan) * nat :=
  match t with
  | TExec argv =>
      (match argv with
       | [] => []
       | argv0 :: _ => match program_path PATH entries argv0 with Some path => [(path, argv, i, o)] | None => [] end
       end, id)
  | TRedir (c, file) t =>
      if c =? 60 then if can_open file O_RDONLY then wires t (File file O_RDONLY) o id else ([], id)
      else let mode := Z.lor (Z.lor O_WRONLY O_CREAT) O_TRUNC in
           if can_open file mode then wires t i (File file mode) id else ([], id)
  | TPipe l r =>
      let '(ls, id1) := wires l i (PipeWrite id) (S id) in
      let '(rs, id2) := wires r (PipeRead id) o id1 in
      (ls ++ rs, id2)
  | TList l r =>
      let '(ls, id1) := wires l i o id in
      let '(rs, id2) := wires r i o id1 in
      (ls ++ rs, id2)
  end.

Lemma perform_open file mode fd k fds id i o : fds !! 0 = Some i -> fds !! 1 = Some o -> fds !! (-1) = None -> fd = 0 \/ fd = 1 ->
  perform (POpen file mode (fun openfd => if openfd =? -1 then PExit 1 else PDup2 openfd fd (fun _ => PClose openfd k))) fds id =
  if can_open file mode then perform k (<[fd := File file mode]> fds) id else ([], id).
Proof.
  intros Hi Ho Hm1 Hfd. pose proof (perform_redir free_fd free_fd_free can_open file mode fd k fds id i o Hi Ho Hm1 Hfd) as E.
  cbn [ShellSpec.perform] in *. destruct (can_open file mode); [|done]. pose proof (free_fd_nonneg fds).
  by rewrite (proj2 (Z.eqb_neq (free_fd fds) (-1))) by lia.
Qed.

(** A process whose standard streams are open, and whose descriptor -1 is none. *)
Definition plain (fds : gmap Z chan) (i o : chan) : Prop := fds !! 0 = Some i /\ fds !! 1 = Some o /\ fds !! (-1) = None.

Lemma find_command_first command : find_command PATH entries command = default [] (program_path PATH entries command).
Proof.
  unfold find_command, program_path. rewrite directories_strtok. induction (directories PATH) as [|d ds IH]; [done|]. cbn [find_in_dirs list_find].
  destruct (decide (offers entries command d)) as [H|H]; unfold offers in H.
  - destruct (entries d); [|done]. by rewrite bool_decide_true.
  - destruct (entries d); [rewrite bool_decide_false by done|]; rewrite IH; by destruct (list_find _ ds) as [[]|].
Qed.

Lemma program_path_not_nil command : program_path PATH entries command <> Some [].
Proof. unfold program_path. destruct (list_find _ _) as [[n d]|]; [|done]. cbn. intros [= E]. by destruct d. Qed.

Lemma run_wired t : forall fds id i o, plain fds i o ->
  Forall2 (plugged PATH) (perform (run_command PATH entries (cmd_of t)) fds id).1 (wires t i o id).1 /\
  (perform (run_command PATH entries (cmd_of t)) fds id).2 = (wires t i o id).2.
Proof.
  induction t as [argv|[c f] t IH|l IHl r IHr|l IHl r IHr]; intros fds id i o (Hi & Ho & Hm1); cbn [cmd_of run_command].
  - destruct argv as [|a argv]; [by split; constructor|]. cbn [wires].
    rewrite find_command_first. pose proof (program_path_not_nil a) as Hn.
    destruct (program_path PATH entries a) as [[|b path]|]; [done| |by split; constructor]. cbn. split; [|done]. constructor; [|constructor].
    by split; [|split; [apply strtok_left_first|]].
  - unfold new_Redircommand. cbn [fst snd wires run_command]. destruct (c =? 60).
    + rewrite (perform_open f O_RDONLY 0 _ fds id i o) by (done || by left).
      destruct (can_open f O_RDONLY); [|by split; constructor]. apply IH. unfold plain. by rewrite lookup_insert_eq, !lookup_insert_ne.
    + rewrite (perform_open f _ 1 _ fds id i o) by (done || by right).
      destruct (can_open f _); [|by split; constructor]. apply IH. unfold plain. by rewrite lookup_insert_eq, !lookup_insert_ne.
  - pose proof (pipe_fds free_fd free_fd_free free_fd_nonneg fds i o id Hi Ho) as Hfds. cbn zeta in Hfds. cbn [ShellSpec.perform].
    set (p0 := free_fd fds) in *. set (p1 := free_fd (<[p0:=PipeRead id]> fds)) in *.
    destruct Hfds as (H00 & H01 & H10 & H11 & Hne & Hp0 & Hp1). change (negb (0 =? 0)) with false. change (0 =? 0) with true. change (1 =? 0) with false.
    cbn iota. cbn [ShellSpec.perform wires]. change (0 =? 0) with true. change (1 =? 0) with false. cbn iota. cbn [ShellSpec.perform].
    rewrite lookup_insert_eq. change (1 =? -1) with false. cbn iota. cbn [ShellSpec.perform].
    destruct (IHl (delete p1 (<[1:=PipeWrite id]> (<[p1:=PipeWrite id]> (<[p0:=PipeRead id]> fds)))) (S id) i (PipeWrite id)) as [Hevl Hidl].
    { unfold plain. rewrite !lookup_delete_ne, lookup_insert_eq, !lookup_insert_ne by lia. done. }
    destruct (perform (run_command PATH entries (cmd_of l)) _ (S id)) as [evl id1].
    destruct (wires l i (PipeWrite id) (S id)) as [wl id1']. cbn [fst snd] in *. subst id1'.
    assert (Hread : delete p1 (<[p1:=PipeWrite id]> (<[p0:=PipeRead id]> fds)) !! p0 = Some (PipeRead id))
      by (by rewrite lookup_delete_ne, lookup_insert_ne, lookup_insert_eq by done).
    change (0 =? 0) with true. change (1 =? 0) with false. cbn iota. cbn [ShellSpec.perform]. rewrite Hread. change (0 =? -1) with false. cbn iota. cbn [ShellSpec.perform].
    destruct (IHr (delete p0 (<[0:=PipeRead id]> (delete p1 (<[p1:=PipeWrite id]> (<[p0:=PipeRead id]> fds))))) id1 (PipeRead id) o) as [Hevr Hidr].
    { unfold plain. rewrite !lookup_delete_ne, lookup_insert_eq, !lookup_insert_ne, !lookup_delete_ne, !lookup_insert_ne by lia. done. }
    destruct (perform (run_command PATH entries (cmd_of r)) _ id1) as [evr id2].
    destruct (wires r (PipeRead id) o id1) as [wr id2']. cbn [fst snd] in *. subst id2'.
    cbn [ShellSpec.perform fst snd]. rewrite app_nil_r. split; [by apply Forall2_app|done].
  - cbn [ShellSpec.perform]. change (0 =? 0) with true. change (1 =? 0) with false. cbn iota. cbn [ShellSpec.perform wires].
    destruct (IHl fds id i o) as [Hevl Hidl]; [done|]. destruct (perform (run_command PATH entries (cmd_of l)) fds id) as [evl id1].
    destruct (wires l i o id) as [wl id1']. cbn [fst snd] in *. subst id1'.
    destruct (IHr fds id1 i o) as [Hevr Hidr]; [done|]. destruct (perform (run_command PATH entries (cmd_of r)) fds id1) as [evr id2].
    destruct (wires r i o id1) as [wr id2']. cbn [fst snd] in *. split; [by apply Forall2_app|done].
Qed.

(** With every file there, both wirings are the same. *)
Lemma wires_wiring t : (forall file mode, can_open file mode = true) -> forall i o id, wires t i o id = wiring PATH entries [] can_open t i o id.
Proof.
  intros Hall. induction t as [argv|[c f] t IH|l IHl r IHr|l IHl r IHr]; intros i o id; cbn [wires wiring].
  - destruct argv as [|a argv]; [done|]. by destruct (program_path PATH entries a).
  - rewrite !Hall. by destruct (c =? 60).
  - rewrite IHl. destruct (wiring _ _ _ _ l _ _ _). by rewrite IHr.
  - rewrite IHl. destruct (wiring _ _ _ _ l _ _ _). by rewrite IHr.
Qed.
End run.

(** ** Sessions *)

(** A line as it is typed, short enough for the buffer. *)
Definition typed (l : list Z) : Prop := Forall (fun c => c <> 10 /\ c <> 0) l /\ (length l < 255)%nat.

Definition word_exit : list Z := [101; 120; 105; 116].
Definition word_cd : list Z := [99; 100].
Definition word_pwd : list Z := [112; 119; 100].

Definition action_of (HOME : option (list Z)) (l : list Z) : shell_action :=
  if bool_decide (word_cd `prefix_of` l) then
    ChangeDir (match drop 3 l with [] => HOME | 126 :: _ => HOME | path => Some path end)
  else if bool_decide (word_pwd `prefix_of` l) then PrintDir
  else RunChild (l ++ [10]).

(** What a session does, up to a line that starts with "exit". *)
Fixpoint acted (HOME : option (list Z)) (ls : list (list Z)) : list shell_action :=
  match ls with
  | [] => []
  | l :: ls' => if bool_decide (word_exit `prefix_of` l) then [] else action_of HOME l :: acted HOME ls'
  end.

Lemma fgets_line l : forall n rest, (length l < n)%nat -> Forall (fun c => c <> 10 /\ c <> 0) l -> fgets n (l ++ 10 :: rest) = (l ++ [10], rest).
Proof.
  induction l as [|c l IH]; intros [|n] rest Hn Hl; cbn [length] in Hn; try lia; [done|]. inversion Hl as [|? ? [Hc _] Hl']; subst.
  cbn [fgets app]. rewrite (proj2 (Z.eqb_neq c 10)) by done. by rewrite IH by (lia || done).
Qed.

Lemma begins_line w l tail : 10 ∉ w -> begins w (l ++ 10 :: tail) = bool_decide (w `prefix_of` l).
Proof.
  intros Hw. unfold begins. apply bool_decide_ext. destruct (decide (length w <= length l)%nat) as [Hle|Hgt].
  - rewrite take_app_le by done. split; [intros <-; by apply prefix_take|]. intros [k ->]. by rewrite take_app_length.
  - split; [|intros H%prefix_length; lia]. intros E. destruct Hw. rewrite <- E. rewrite take_app_ge by lia.
    destruct (length w - length l)%nat eqn:En; [lia|]. apply elem_of_app. right. by left.
Qed.

Lemma c_str_line l tail : Forall (fun c => c <> 10 /\ c <> 0) l -> c_str (l ++ 0 :: tail) = l.
Proof. induction 1 as [|c l [_ Hc] _ IH]; cbn; [done|]. rewrite (proj2 (Z.eqb_neq c 0)) by done. by rewrite IH. Qed.

Lemma handle_line_ok HOME l n : Forall (fun c => c <> 10 /\ c <> 0) l ->
  handle_line HOME (l ++ 10 :: replicate (S n) 0) = if bool_decide (word_exit `prefix_of` l) then None else Some (action_of HOME l).
Proof.
  intros Hl. unfold handle_line. fold word_exit word_cd word_pwd.
  assert (Hn : forall w, w = word_exit \/ w = word_cd \/ w = word_pwd -> 10 ∉ w) by (intros w [-> |[-> | ->]]; by apply (bool_decide_unpack _)).
  rewrite !begins_line by auto. destruct (bool_decide (word_exit `prefix_of` l)); [done|]. unfold action_of.
  assert (Ec : c_str (l ++ 10 :: replicate (S n) 0) = l ++ [10]).
  { change (l ++ 10 :: replicate (S n) 0) with (l ++ [10] ++ 0 :: replicate n 0). rewrite app_assoc. induction Hl as [|c l [_ Hc] _ IH]; [done|].
    cbn [app c_str]. rewrite (proj2 (Z.eqb_neq c 0)) by done. by rewrite IH. }
  rewrite Ec. case_bool_decide as Hcd; [|by destruct (bool_decide _)].
  rewrite length_app. cbn [length]. replace (length l + 1 - 1)%nat with (length l + 0)%nat by lia. rewrite insert_app_r. cbn [insert list_insert].
  f_equal. unfold handle_cd. f_equal. destruct (decide (3 <= length l)%nat) as [H3|H3].
  - rewrite drop_app_le by done. rewrite c_str_line by (by apply Forall_drop). destruct (drop 3 l) as [|c p]; [done|].
    destruct (Z.eqb_spec c 126) as [->|Hc]; [done|]. by repeat (destruct c as [|c|c]; try done).
  - apply prefix_length in Hcd. cbn in Hcd. rewrite drop_app_ge, (drop_ge l) by lia. by replace (3 - length l)%nat with 1%nat by lia.
Qed.

Lemma easysh_main_ok HOME ls : Forall typed ls -> forall fuel, (length ls < fuel)%nat ->
  easysh_main HOME fuel (concat ((fun l => l ++ [10]) <$> ls)) = Some (acted HOME ls).
Proof.
  induction 1 as [|l ls [Hl Hn] _ IH]; intros [|fuel] Hf; cbn [length] in Hf; try lia; [done|].
  rewrite fmap_cons. cbn [easysh_main concat acted]. unfold read_command.
  rewrite <- app_assoc. cbn [app]. rewrite fgets_line by (done || lia).
  assert (Ep : (Z.to_nat 256 - length (l ++ [10%Z]))%nat = S (254 - length l)) by (rewrite length_app; cbn [length]; lia).
  rewrite Ep, <- app_assoc. cbn [app].
  assert (E0 : (nth 0 (l ++ 10 :: replicate (S (254 - length l)) 0) 0 =? 0) = false) by (destruct Hl as [|c l [_ Hc] _]; cbn; [done|lia]).
  rewrite E0, handle_line_ok by done. destruct (bool_decide _); [done|]. by rewrite IH by lia.
Qed.

(** ** Properties *)

(** C17: a session of the C++ shell does with each line what its first characters say, up to
    one that starts with "exit": change the directory, print it, or run the line.  A line
    that is run, however it is laid out and however many words it has, is parsed into its
    tree, and executes exactly the programs of the tree with their standard streams where
    the pipes and redirections say, but nothing behind a file that does not open. *)
Theorem easysh_session HOME PATH entries (free_fd : gmap Z chan -> Z) can_open ls fds i o id :
  (forall fds, fds !! free_fd fds = None) -> (forall fds, 0 <= free_fd fds) -> Forall typed ls -> plain fds i o ->
  easysh_main HOME (S (length ls)) (concat ((fun l => l ++ [10]) <$> ls)) = Some (acted HOME ls) /\
  forall s x fuel, RunChild s ∈ acted HOME ls -> line_any x -> laid_out (line_tokens x) s -> (length (line_tokens x) < fuel)%nat ->
    exists c, parse_command fuel s = Ok c /\
      Forall2 (plugged PATH) (perform free_fd can_open (run_command PATH entries c) fds id).1
        (wires PATH entries can_open (line_tree x) i o id).1.
Proof.
  intros Hfree Hnn Hls Hfds. split; [by apply easysh_main_ok; [|lia]|]. intros s x fuel _ Hx Hs Hf.
  exists (cmd_of (line_tree x)). split; [by apply parse_command_ok|]. by apply run_wired.
Qed.

(** C31: both shells run the same programs with the same streams: on a line that the C shell
    has room for, when every file opens and the block it takes the path in holds an empty
    string. *)
Theorem shells_agree PATH entries (free_fd : gmap Z chan -> Z) can_open x s m fds i o fuel id :
  (forall fds, fds !! free_fd fds = None) -> (forall fds, 0 <= free_fd fds) -> (forall file mode, can_open file mode = true) ->
  line_ok x -> laid_out (line_tokens x) s -> fresh_ok m -> (length (line_tokens x) < fuel)%nat -> plain fds i o ->
  exists c q m', parse_command fuel s = Ok c /\ parsecmd fuel s m = Ok (q, m') /\
    forall fuel', (depth (line_tree x) <= fuel')%nat -> exists programs,
      Forall2 (plugged PATH) (perform free_fd can_open (run_command PATH entries c) fds id).1 programs /\
      Forall2 (plugged PATH) (perform free_fd can_open (runcmd PATH entries [] fuel' m' (Some q)) fds id).1 programs.
Proof.
  intros Hfree Hnn Hall Hx Hs Hm Hf Hfds. pose proof Hfds as (Hi & Ho & Hm1).
  destruct (parsecmd_ok x s m fuel Hx Hm Hs Hf) as (q & m' & R & Hr & _).
  exists (cmd_of (line_tree x)), q, m'. split_and!; [by apply parse_command_ok; [apply line_ok_any|..]|done|]. intros fuel' Hd.
  exists (wires PATH entries can_open (line_tree x) i o id).1. split; [by apply run_wired|].
  rewrite wires_wiring by done. by apply (runcmd_wired PATH entries [] free_fd Hfree Hnn can_open m' q).
Qed.

(** *** "cd /b", "ls -l | wc>o ; ls", "exit now", "ls" *)

Definition streams : gmap Z chan := {[0 := Inherited 0; 1 := Inherited 1; 2 := Inherited 2]}.
Definition example_lines : list (list Z) :=
  [[99; 100; 32; 47; 98]; take 17 example_text; word_exit ++ [32; 110; 111; 119]; ls].
Definition example_programs : list (list Z * list (list Z) * chan * chan) :=
  [([47; 98; 47; 108; 115], [ls; [45; 108]], Inherited 0, PipeWrite 0);
   ([47; 98; 47; 119; 99], [wc], PipeRead 0, File [111] 577);
   ([47; 98; 47; 108; 115], [ls], Inherited 0, Inherited 1)].

Lemma example_any : line_any example_line.
Proof. vm_compute. repeat split; repeat constructor; done. Qed.

Lemma easysh_session_witness :
  easysh_main (Some [104]) 5 (concat ((fun l => l ++ [10]) <$> example_lines)) = Some [ChangeDir (Some [47; 98]); RunChild example_text] /\
  exists c, parse_command 20 example_text = Ok c /\
    Forall2 (plugged [47; 98]) (perform next_fd (fun _ _ => true) (run_command [47; 98] bin c) streams 0).1 example_programs.
Proof.
  assert (Ht : Forall typed example_lines).
  { repeat (constructor; [split; [repeat (constructor; [lia|]); constructor|cbn; lia]|]). constructor. }
  assert (Hs : plain streams (Inherited 0) (Inherited 1)) by (split_and!; reflexivity).
  destruct (easysh_session (Some [104]) [47; 98] bin next_fd (fun _ _ => true) example_lines streams (Inherited 0) (Inherited 1) 0%nat
    next_fd_free (fun fds => proj1 (next_fd_above fds)) Ht Hs) as [Hrun Hchild].
  split; [exact Hrun|]. apply (Hchild example_text example_line 20%nat).
  - vm_compute. right. left.
  - exact example_any.
  - exact example_laid_out.
  - cbn. lia.
Defined.

Lemma shells_agree_witness : exists c q m', parse_command 20 example_text = Ok c /\ parsecmd 20 example_text (mk_memory ∅ 1) = Ok (q, m') /\
  exists programs,
    Forall2 (plugged [47; 98]) (perform next_fd (fun _ _ => true) (run_command [47; 98] bin c) streams 0).1 programs /\
    Forall2 (plugged [47; 98]) (perform next_fd (fun _ _ => true) (runcmd [47; 98] bin [] 9 m' (Some q)) streams 0).1 programs.
Proof.
  assert (Hok : line_ok example_line) by (vm_compute; repeat split; repeat constructor; done).
  assert (Hm : fresh_ok (mk_memory ∅ 1)) by (intros p [c Hc]; discriminate Hc).
  assert (Hs : plain streams (Inherited 0) (Inherited 1)) by (split_and!; reflexivity).
  destruct (shells_agree [47; 98] bin next_fd (fun _ _ => true) example_line example_text (mk_memory ∅ 1) streams (Inherited 0) (Inherited 1) 20%nat 0%nat
    next_fd_free (fun fds => proj1 (next_fd_above fds)) (fun _ _ => eq_refl) Hok example_laid_out Hm ltac:(cbn; lia) Hs)
    as (c & q & m' & R1 & R2 & Hagree).
  exists c, q, m'. split; [exact R1|]. split; [exact R2|]. apply Hagree. vm_compute. repeat constructor.
Defined.

(** A program whose name starts with "cd", "pwd" or "exit" cannot be run: "cdrecord" changes
    the directory, "pwdx 1" prints it and "exitcode" ends the shell.  "~/d" leads home, and
    not to what is below it. *)
Example builtin_prefixes :
  let session l := easysh_main (Some [104]) 9 (l ++ [10]) in
  session [99; 100; 114; 101; 99; 111; 114; 100] = Some [ChangeDir (Some [101; 99; 111; 114; 100])] /\
  session [112; 119; 100; 120; 32; 49] = Some [PrintDir] /\
  session [101; 120; 105; 116; 99; 111; 100; 101] = Some [] /\
  session [99; 100; 32; 126; 47; 100] = Some [ChangeDir (Some [104])].
Proof. vm_compute. done. Qed.

(** Of a line of 300 letters the shell runs the first 255 as one command and the rest as
    another. *)
Example long_line_split : easysh_main None 9 (replicate 300 97 ++ [10]) =
  Some [RunChild (replicate 255 97); RunChild (replicate 45 97 ++ [10])].
Proof. vm_compute. reflexivity. Qed.

(** A command that is not found exits as one that succeeds. *)
Example not_found_succeeds : run_command [47; 98] bin (Execommand [[120]]) = PExit 0.
Proof. vm_compute. reflexivity. Qed.
