(* ===== verification/Cache.v ===== *)
(** The cache experiments of [uw_cse351/lab4], [cache-test-skel.c]: they find the
    block size, the size and the associativity of a cache they can only access.
    The cache behind [mystery-cache.h] is a class. *)
From Stdlib Require Import ZArith Lia.
From S2P Require Import Prelude.
Open Scope Z_scope.

(** [mystery-cache.h], over a state [S] of the cache. *)
Class Cache (S : Type) := {
  cache_init : Z -> Z -> M S unit;
  access_cache : Z -> M S bool;
  flush_cache : M S unit
}.

Section experiments.
Context {St : Type} {C : Cache St}.

(** [while (TRUE)] of [get_block_size] *)
Fixpoint block_loop (fuel : nat) (addr block_size : Z) : M St Z :=
  match fuel with
  | O => fail OutOfFuel
  | S fuel' =>
      let block_size := s32 (block_size + 1) in
      let addr := s32 (addr + 1) in
      let* hit := access_cache (u64 addr) in
      if hit then block_loop fuel' addr block_size else ret block_size
  end.

Definition get_block_size (fuel : nat) : M St Z :=
  do* access_cache (u64 0);
  block_loop fuel 0 0.

(** [while (i <= sz)] *)
Fixpoint touch_blocks (fuel : nat) (block_size sz i : Z) : M St unit :=
  match fuel with
  | O => fail OutOfFuel
  | S fuel' =>
      if i <=? sz then
        do* access_cache (u64 i);
        touch_blocks fuel' block_size sz (s32 (i + block_size))
      else ret tt
  end.

(** [while (access_cache(0))] of [get_cache_size] *)
Fixpoint size_loop (fuel inner : nat) (block_size sz : Z) : M St Z :=
  match fuel with
  | O => fail OutOfFuel
  | S fuel' =>
      let* hit := access_cache (u64 0) in
      if hit then
        let sz := s32 (sz + block_size) in
        do* touch_blocks inner block_size sz block_size;
        size_loop fuel' inner block_size sz
      else ret sz
  end.

Definition get_cache_size (fuel : nat) (block_size : Z) : M St Z :=
  do* flush_cache;
  do* access_cache (u64 0);
  size_loop fuel fuel block_size 0.

(** [while (i <= assoc)] *)
Fixpoint touch_ways (fuel : nat) (cache_size assoc addr i : Z) : M St unit :=
  match fuel with
  | O => fail OutOfFuel
  | S fuel' =>
      if i <=? assoc then
        let addr := s32 (addr + cache_size) in
        do* access_cache (u64 addr);
        touch_ways fuel' cache_size assoc addr (s32 (i + 1))
      else ret tt
  end.

(** [while (access_cache(0))] of [get_cache_assoc] *)
Fixpoint assoc_loop (fuel inner : nat) (cache_size assoc : Z) : M St Z :=
  match fuel with
  | O => fail OutOfFuel
  | S fuel' =>
      let* hit := access_cache (u64 0) in
      if hit then
        let assoc := s32 (assoc + 1) in
        do* touch_ways inner cache_size assoc 0 1;
        assoc_loop fuel' inner cache_size assoc
      else ret assoc
  end.

Definition get_cache_assoc (fuel : nat) (cache_size : Z) : M St Z :=
  do* flush_cache;
  do* access_cache (u64 0);
  assoc_loop fuel fuel cache_size 0.

(** The three numbers [main] prints. *)
Definition cache_test_main (fuel : nat) : M St (Z * Z * Z) :=
  do* cache_init 0 0;
  let* block_size := get_block_size fuel in
  let* size := get_cache_size fuel block_size in
  let* assoc := get_cache_assoc fuel size in
  ret (block_size, size, assoc).
End experiments.
