(* ===== verification/CacheSpec.v ===== *)
(** What the experiments of [Cache] find: run on a set-associative cache that
    replaces the least recently used or the first loaded block of a set, they print
    its geometry. *)
From Stdlib Require Import ZArith Lia.
From S2P Require Import Prelude Cache.
Open Scope Z_scope.

(** ** A set-associative cache *)

Record geometry : Type := mk_geometry { block : Z; sets : Z; ways : nat }.
Definition cache_bytes (g : geometry) : Z := block g * sets g * Z.of_nat (ways g).

Inductive policy : Type := LRU | FIFO.

(** A set is the numbers of its blocks, the next to be replaced first. *)
Definition use_block (p : policy) (w : nat) (b : Z) (row : list Z) : list Z :=
  if decide (b ∈ row) then
    match p with LRU => filter (fun c => c <> b) row ++ [b] | FIFO => row end
  else (if (length row <? w)%nat then row else tail row) ++ [b].

(** [mystery-cache.h] says what the calls do; [g] and [p] are what it keeps secret. *)
Class CacheLaws {St} (C : Cache St) (g : geometry) (p : policy) := {
  row_of : St -> Z -> list Z;
  cache_init_law : forall size bs s, exists s', cache_init size bs s = Ok (tt, s') /\ forall i, row_of s' i = [];
  flush_cache_law : forall s, exists s', flush_cache s = Ok (tt, s') /\ forall i, row_of s' i = [];
  access_cache_law : forall a s, 0 <= a < 2 ^ 64 ->
    let b := a / block g in
    let i := b mod sets g in
    exists s', access_cache a s = Ok (bool_decide (b ∈ row_of s i), s') /\
      forall j, row_of s' j = if j =? i then use_block p (ways g) b (row_of s i) else row_of s j
}.

(** The sets of an experiment: block 0 and multiples of [D], in the order [ts]. *)
Definition scaled (D : Z) (ts : list nat) : list Z := (fun t => Z.of_nat t * D) <$> ts.

Lemma scaled_in D t ts : 0 < D -> Z.of_nat t * D ∈ scaled D ts <-> t ∈ ts.
Proof.
  intros HD. unfold scaled. rewrite list_elem_of_fmap. split.
  - intros (t' & E & Ht). assert (t = t') as -> by nia. done.
  - intros Ht. by exists t.
Qed.

Lemma use_scaled p w D t ts : 0 < D ->
  use_block p w (Z.of_nat t * D) (scaled D ts) =
  scaled D (if decide (t ∈ ts) then match p with LRU => filter (fun u => u <> t) ts ++ [t] | FIFO => ts end
            else (if (length ts <? w)%nat then ts else tail ts) ++ [t]).
Proof.
  intros HD. unfold use_block. pose proof (scaled_in D t ts HD) as Hin.
  destruct (decide (Z.of_nat t * D ∈ scaled D ts)) as [H|H], (decide (t ∈ ts)) as [H'|H']; try tauto.
  - destruct p; [|done]. unfold scaled. rewrite fmap_app. f_equal. clear -HD.
    induction ts as [|u ts IH]; [done|]. rewrite fmap_cons, !filter_cons.
    destruct (decide (u = t)) as [->|Hne].
    + rewrite !decide_False by (intros Hn; by apply Hn). apply IH.
    + rewrite (decide_True (P := u <> t)) by done. rewrite decide_True; [cbn; f_equal; apply IH|]. intros Hu%Z.mul_reg_r; lia.
  - unfold scaled. rewrite length_fmap. destruct (_ <? _)%nat; rewrite fmap_app; [done|].
    by destruct ts.
Qed.

(** The blocks in set 0 while block 0 and then [D], ..., [m * D] are touched again,
    [q] of them so far, and [S m * D] after them. *)
Definition touched (p : policy) (w m q : nat) : list nat :=
  if decide (q <= m)%nat then
    match p with LRU => seq (S q) (m - q) ++ 0%nat :: seq 1 q | FIFO => seq 0 (S m) end
  else if decide (S m < w)%nat then seq 0 (S (S m)) else seq 1 (S m).

Lemma touched_in p w m q t : (q <= m)%nat -> t ∈ touched p w m q <-> (t <= m)%nat.
Proof.
  intros Hq. unfold touched. rewrite decide_True by done. destruct p.
  - rewrite elem_of_app, elem_of_cons, !elem_of_seq. lia.
  - rewrite elem_of_seq. lia.
Qed.

Lemma touched_length p w m q : (q <= m)%nat -> length (touched p w m q) = S m.
Proof.
  intros Hq. unfold touched. rewrite decide_True by done. destruct p; [|apply length_seq].
  rewrite length_app. cbn [length]. rewrite !length_seq. lia.
Qed.

Lemma filter_seq_out (t i n : nat) : (t < i \/ i + n <= t)%nat -> filter (fun u => u <> t) (seq i n) = seq i n.
Proof.
  intros H. revert i H. induction n as [|n IH]; intros i H; [done|].
  cbn [seq]. rewrite filter_cons, decide_True by lia. rewrite IH by lia. done.
Qed.

(** The order after a round of touches. *)
Lemma touched_all p w m : touched p w m m = seq 0 (S m).
Proof. unfold touched. rewrite decide_True by done. destruct p; [|done]. by rewrite Nat.sub_diag. Qed.

Lemma touched_step p D w m q : 0 < D -> (q <= m)%nat -> (S m <= w)%nat ->
  use_block p w (Z.of_nat (S q) * D) (scaled D (touched p w m q)) = scaled D (touched p w m (S q)).
Proof.
  intros HD Hq Hw. rewrite use_scaled by done. f_equal.
  destruct (decide (S q ∈ _)) as [Hin|Hout]; rewrite touched_in in * by done.
  - unfold touched. rewrite !decide_True by lia. destruct p; [|done].
    rewrite (seq_S q 1). destruct (m - q)%nat as [|k] eqn:Ek; [lia|].
    replace (m - S q)%nat with k by lia. cbn [seq]. rewrite <- app_comm_cons, filter_cons, decide_False by (intros H; by apply H).
    rewrite filter_app, filter_seq_out by lia. rewrite filter_cons, decide_True, filter_seq_out by lia.
    rewrite <- app_assoc. done.
  - assert (q = m) as -> by lia. rewrite touched_length, touched_all by done.
    unfold touched. rewrite decide_False by lia.
    destruct (Nat.ltb_spec (S m) w); [rewrite decide_True by done|rewrite decide_False by lia].
    + rewrite (seq_S (S m) 0). done.
    + cbn [seq tail]. rewrite <- seq_S. done.
Qed.

(** Touching block 0 again. *)
Lemma touched_start p D w m : 0 < D -> (S m <= w)%nat ->
  use_block p w 0 (scaled D (seq 0 (S m))) = scaled D (touched p w m 0).
Proof.
  intros HD Hw. change 0 with (Z.of_nat 0 * D). rewrite use_scaled by done. f_equal.
  rewrite decide_True by (apply elem_of_seq; lia). unfold touched. rewrite decide_True by lia.
  destruct p; [|done]. cbn [seq]. rewrite filter_cons, decide_False by (intros H; by apply H).
  rewrite filter_seq_out by lia. by rewrite Nat.sub_0_r.
Qed.

(** ** The experiments *)

Section laws.
Context {St} {C : Cache St} (g : geometry) (p : policy) {L : CacheLaws C g p}.
Context (Hblock : 0 < block g) (Hsets : 0 < sets g) (Hways : (0 < ways g)%nat).

(** One access, as seen from set 0. *)
Lemma access_row0 a s : 0 <= a < 2 ^ 64 -> (a / block g) mod sets g = 0 ->
  exists s', access_cache a s = Ok (bool_decide (a / block g ∈ row_of s 0), s') /\
    row_of s' 0 = use_block p (ways g) (a / block g) (row_of s 0).
Proof.
  intros Ha Hi. destruct (access_cache_law a s Ha) as (s' & E & Hrow). exists s'.
  rewrite Hi in E, Hrow. split; [done|]. by rewrite Hrow.
Qed.

Lemma access_elsewhere a s : 0 <= a < 2 ^ 64 -> (a / block g) mod sets g <> 0 ->
  exists hit s', access_cache a s = Ok (hit, s') /\ row_of s' 0 = row_of s 0.
Proof.
  intros Ha Hi. destruct (access_cache_law a s Ha) as (s' & E & Hrow). eexists _, s'.
  split; [done|]. rewrite Hrow. destruct (Z.eqb_spec 0 ((a / block g) mod sets g)); [by subst|done].
Qed.

(** *** The block size *)

Lemma init_row0 s : (forall i, row_of s i = []) ->
  exists s', access_cache (u64 0) s = Ok (false, s') /\ (forall j, row_of s' j = if j =? 0 then [0] else []).
Proof.
  intros Hs. change (u64 0) with 0. destruct (access_cache_law 0 s ltac:(lia)) as (s' & E & Hrow). exists s'.
  rewrite Z.div_0_l, Z.mod_0_l in * by lia. rewrite Hs in *. rewrite bool_decide_false in E by apply not_elem_of_nil.
  split; [done|]. intros j. rewrite Hrow. destruct (j =? 0); [|done].
  unfold use_block. rewrite decide_False by apply not_elem_of_nil. cbn [length].
  by destruct (Nat.ltb_spec 0 (ways g)).
Qed.

Lemma block_loop_run n : forall fuel a s, (forall j, row_of s j = if j =? 0 then [0] else []) ->
  0 <= a -> a + Z.of_nat (S n) = block g -> block g < 2 ^ 31 -> (n < fuel)%nat ->
  exists s', block_loop fuel a a s = Ok (block g, s').
Proof.
  induction n as [|n IH]; intros [|fuel] a s Hrow Ha Hn Hlt Hf; [lia| |lia|]; cbn [block_loop].
  all: rewrite wraps_small by (cbn; lia); rewrite wrapu_small by (cbn; lia).
  all: destruct (access_cache_law (a + 1) s ltac:(lia)) as (s' & E & Hrow'); rewrite Hrow in E, Hrow'.
  - replace (a + 1) with (block g) in * by lia. rewrite Z.div_same in * by lia.
    step E. rewrite bool_decide_false; [by exists s'|]. destruct (_ =? 0); [|apply not_elem_of_nil].
    by intros ?%list_elem_of_singleton.
  - rewrite Z.div_small, Z.mod_0_l in * by lia. step E. cbn [Z.eqb] in *.
    rewrite bool_decide_true by apply list_elem_of_singleton, eq_refl.
    apply IH; try lia. intros j. rewrite Hrow', !Hrow. destruct (j =? 0); [|done].
    unfold use_block. rewrite decide_True by apply list_elem_of_singleton, eq_refl. by destruct p.
Qed.

(** *** Rounds of touches *)

Section rounds.
(** The distance [D] of the blocks of set 0 that an experiment touches. *)
Context (D : Z) (HD : 0 < D) (HDs : D mod sets g = 0).

Lemma multiple_in_set0 q : (Z.of_nat q * D) mod sets g = 0.
Proof. rewrite Z.mul_mod, HDs, Z.mul_0_r, Z.mod_0_l; lia. Qed.

Lemma touch_run a s m q : 0 <= a < 2 ^ 64 -> a / block g = Z.of_nat (S q) * D -> (q <= m)%nat -> (S m <= ways g)%nat ->
  row_of s 0 = scaled D (touched p (ways g) m q) ->
  exists hit s', access_cache a s = Ok (hit, s') /\ row_of s' 0 = scaled D (touched p (ways g) m (S q)).
Proof.
  intros Ha Hb Hq Hm Hrow. destruct (access_row0 a s Ha) as (s' & E & Hrow').
  { rewrite Hb. apply multiple_in_set0. }
  eexists _, s'. split; [done|]. rewrite Hrow', Hrow, Hb. by apply touched_step.
Qed.

(** Block 0 is still there as long as the set is not full. *)
Lemma probe_hit s m : (S m <= ways g)%nat -> row_of s 0 = scaled D (seq 0 (S m)) ->
  exists s', access_cache (u64 0) s = Ok (true, s') /\ row_of s' 0 = scaled D (touched p (ways g) m 0).
Proof.
  intros Hm Hrow. change (u64 0) with 0. destruct (access_row0 0 s ltac:(lia)) as (s' & E & Hrow').
  { rewrite Z.div_0_l, Z.mod_0_l; lia. }
  rewrite Z.div_0_l in * by lia. exists s'. rewrite Hrow in *. rewrite E, Hrow', touched_start by done. split; [|done].
  rewrite bool_decide_true; [done|]. change 0 with (Z.of_nat 0 * D). apply scaled_in; [done|]. apply elem_of_seq. lia.
Qed.

Lemma probe_miss s m : row_of s 0 = scaled D (seq 1 m) ->
  exists s', access_cache (u64 0) s = Ok (false, s').
Proof.
  intros Hrow. change (u64 0) with 0. destruct (access_row0 0 s ltac:(lia)) as (s' & E & _).
  { rewrite Z.div_0_l, Z.mod_0_l; lia. }
  rewrite Z.div_0_l, Hrow in E by lia. exists s'. rewrite E, bool_decide_false; [done|].
  change 0 with (Z.of_nat 0 * D). rewrite scaled_in, elem_of_seq by done. lia.
Qed.

(** What a whole round leaves, when [m] blocks were there with block 0. *)
Definition round_row (m : nat) : list nat :=
  if decide (S m < ways g)%nat then seq 0 (S (S m)) else seq 1 (S m).
Lemma touched_round m : touched p (ways g) m (S m) = round_row m.
Proof. unfold touched. by rewrite decide_False by lia. Qed.
End rounds.

Lemma flushed_run s : exists s1 s2, flush_cache s = Ok (tt, s1) /\ access_cache (u64 0) s1 = Ok (false, s2) /\
  row_of s2 0 = [0].
Proof.
  destruct (flush_cache_law s) as (s1 & E1 & H1). destruct (init_row0 s1 H1) as (s2 & E2 & H2).
  exists s1, s2. split; [done|]. split; [done|]. apply H2.
Qed.

(** *** The size: blocks 1, 2, ... are touched, every [sets g]-th falls in set 0 *)

(** The state of set 0 after the first [c] blocks of a round. *)
Notation row_at m c s := (row_of s 0 = scaled (sets g) (touched p (ways g) m (Z.to_nat (c / sets g)))).

Lemma touch_block_run m c s : 0 <= c -> (S m <= ways g)%nat -> c / sets g <= Z.of_nat m ->
  (c + 1) * block g < 2 ^ 31 -> row_at m c s ->
  exists hit s', access_cache (u64 ((c + 1) * block g)) s = Ok (hit, s') /\ row_at m (c + 1) s'.
Proof.
  intros Hc Hm Hq Hlt Hrow. assert (0 <= (c + 1) * block g) by nia. rewrite wrapu_small by bound_lia.
  assert (Hb : (c + 1) * block g / block g = c + 1) by (apply Z.div_mul; lia).
  pose proof (Z.div_mod (c + 1) (sets g) ltac:(lia)) as E1. pose proof (Z.mod_pos_bound (c + 1) (sets g) Hsets) as B1.
  pose proof (Z.div_mod c (sets g) ltac:(lia)) as E0. pose proof (Z.mod_pos_bound c (sets g) Hsets) as B0.
  pose proof (Z.div_pos c (sets g) Hc Hsets).
  destruct (Z.eq_dec ((c + 1) mod sets g) 0) as [Hz|Hnz].
  - assert (Eq : (c + 1) / sets g = c / sets g + 1) by nia.
    destruct (touch_run (sets g) Hsets (Z.mod_same (sets g) ltac:(lia)) ((c + 1) * block g) s m (Z.to_nat (c / sets g)))
      as (hit & s' & E & Hrow'); [bound_lia|rewrite Hb; nia|lia|done|done|].
    exists hit, s'. split; [done|]. rewrite Hrow', Eq. do 2 f_equal. lia.
  - assert (Eq : (c + 1) / sets g = c / sets g) by nia.
    destruct (access_elsewhere ((c + 1) * block g) s) as (hit & s' & E & Hrow'); [bound_lia|by rewrite Hb|].
    exists hit, s'. split; [done|]. by rewrite Hrow', Eq.
Qed.

Lemma touch_blocks_run n : forall fuel m c k s, c + Z.of_nat n = k -> 0 <= c -> (S m <= ways g)%nat ->
  (k - 1) / sets g <= Z.of_nat m -> (k + 1) * block g < 2 ^ 31 -> (n < fuel)%nat -> row_at m c s ->
  exists s', touch_blocks fuel (block g) (k * block g) ((c + 1) * block g) s = Ok (tt, s') /\ row_at m k s'.
Proof.
  induction n as [|n IH]; intros [|fuel] m c k s Hn Hc Hm Hk Hlt Hf Hrow; [lia| |lia|]; cbn [touch_blocks].
  - replace c with k in * by lia. destruct (Z.leb_spec ((k + 1) * block g) (k * block g)); [nia|]. by exists s.
  - destruct (Z.leb_spec ((c + 1) * block g) (k * block g)); [|nia].
    destruct (touch_block_run m c s) as (hit & s1 & E & Hrow1); try done; [|nia|].
    { etransitivity; [|exact Hk]. apply Z.div_le_mono; lia. }
    step E. rewrite wraps_small by (try bound_lia; nia).
    replace ((c + 1) * block g + block g) with (((c + 1) + 1) * block g) by lia.
    destruct (IH fuel m (c + 1) k s1) as (s2 & E2 & Hrow2); try done; try lia. by exists s2.
Qed.

(** The rounds left, [k] of them done. *)
Lemma size_loop_run n : forall fuel inner k s,
  let all := sets g * Z.of_nat (ways g) in
  k + Z.of_nat n = all -> 0 <= k -> (all + 1) * block g < 2 ^ 31 -> (n < fuel)%nat -> (Z.to_nat all < inner)%nat ->
  (if decide (k < all) then row_of s 0 = scaled (sets g) (seq 0 (S (Z.to_nat (k / sets g))))
   else row_of s 0 = scaled (sets g) (seq 1 (ways g))) ->
  exists s', size_loop fuel inner (block g) (k * block g) s = Ok (all * block g, s').
Proof.
  induction n as [|n IH]; intros [|fuel] inner k s all Hn Hk Hlt Hf Hi Hrow; [lia| |lia|]; cbn [size_loop].
  - rewrite decide_False in Hrow by lia. destruct (probe_miss (sets g) Hsets s (ways g) Hrow) as (s' & E).
    step E. exists s'. by replace k with all by lia.
  - rewrite decide_True in Hrow by lia. set (m := Z.to_nat (k / sets g)) in *.
    pose proof (Z.div_pos k (sets g) Hk Hsets) as Hkp.
    assert (Hm : (S m <= ways g)%nat).
    { assert (k / sets g < Z.of_nat (ways g)) by (apply Z.div_lt_upper_bound; lia). lia. }
    destruct (probe_hit (sets g) Hsets s m Hm Hrow) as (s1 & E1 & Hrow1). step E1.
    rewrite wraps_small by (try bound_lia; nia). replace (k * block g + block g) with ((k + 1) * block g) by lia.
    destruct (touch_blocks_run (Z.to_nat (k + 1)) inner m 0 (k + 1) s1) as (s2 & E2 & Hrow2); try done; try lia.
    { rewrite Z.add_simpl_r. lia. }
    replace ((0 + 1) * block g) with (block g) in E2 by lia. step E2.
    apply IH; try lia.
    pose proof (Z.div_mod (k + 1) (sets g) ltac:(lia)) as D1. pose proof (Z.mod_pos_bound (k + 1) (sets g) Hsets) as B1.
    pose proof (Z.div_mod k (sets g) ltac:(lia)) as D0. pose proof (Z.mod_pos_bound k (sets g) Hsets) as B0.
    rewrite Hrow2. destruct (Z.eq_dec ((k + 1) mod sets g) 0) as [Hz|Hnz].
    + assert (Eq : Z.to_nat ((k + 1) / sets g) = S m) by (subst m; nia). rewrite Eq, touched_round. unfold round_row.
      destruct (decide (S m < ways g)%nat) as [Hlt'|Hge].
      * rewrite decide_True by (subst m all; nia). done.
      * rewrite decide_False by (subst m all; nia). by replace (S m) with (ways g) by lia.
    + assert (Eq : Z.to_nat ((k + 1) / sets g) = m) by (subst m; nia). rewrite Eq, touched_all.
      rewrite decide_True; [done|]. subst all. assert (k + 1 <> sets g * Z.of_nat (ways g)); [|lia].
      intros E. apply Hnz. by rewrite E, Z.mul_comm, Z.mod_mul by lia.
Qed.

(** *** The associativity: every block touched falls in set 0 *)

Lemma touch_ways_run n : forall fuel m q s, (q + n = S m)%nat -> (S m <= ways g)%nat ->
  Z.of_nat (S m) * cache_bytes g < 2 ^ 31 -> (n < fuel)%nat ->
  row_of s 0 = scaled (sets g * Z.of_nat (ways g)) (touched p (ways g) m q) ->
  exists s', touch_ways fuel (cache_bytes g) (Z.of_nat (S m)) (Z.of_nat q * cache_bytes g) (Z.of_nat (S q)) s = Ok (tt, s') /\
    row_of s' 0 = scaled (sets g * Z.of_nat (ways g)) (touched p (ways g) m (S m)).
Proof.
  set (D := sets g * Z.of_nat (ways g)). assert (HD : 0 < D) by nia.
  assert (HDs : D mod sets g = 0) by (unfold D; rewrite Z.mul_comm; apply Z.mod_mul; lia).
  assert (HC : cache_bytes g = D * block g) by (unfold cache_bytes, D; lia).
  assert (Hpos : 0 < cache_bytes g) by nia.
  induction n as [|n IH]; intros [|fuel] m q s Hn Hm Hlt Hf Hrow; [lia| |lia|]; cbn [touch_ways].
  - destruct (Z.leb_spec (Z.of_nat (S q)) (Z.of_nat (S m))); [lia|]. exists s. by replace (S m) with q by lia.
  - destruct (Z.leb_spec (Z.of_nat (S q)) (Z.of_nat (S m))); [|lia].
    assert (Z.of_nat (S q) <= Z.of_nat (S m) < 2 ^ 31) by nia.
    replace (Z.of_nat q * cache_bytes g + cache_bytes g) with (Z.of_nat (S q) * cache_bytes g) by lia.
    assert (0 <= Z.of_nat (S q) * cache_bytes g < 2 ^ 31) by nia.
    rewrite wraps_small by bound_lia. rewrite wrapu_small by bound_lia.
    destruct (touch_run D HD HDs (Z.of_nat (S q) * cache_bytes g) s m q) as (hit & s1 & E & Hrow1); try done; [bound_lia| |lia|].
    { rewrite HC, Z.mul_assoc. apply Z.div_mul. lia. }
    step E. destruct n as [|n'].
    + replace q with m in * by lia. destruct fuel as [|fuel]; [lia|]. cbn [touch_ways].
      exists s1. split; [|done]. destruct (Z.leb_spec (s32 (Z.of_nat (S m) + 1)) (Z.of_nat (S m))) as [Hle|]; [exfalso|done].
      rewrite wraps_small in Hle by (try lia; nia). lia.
    + rewrite wraps_small by bound_lia.
      replace (Z.of_nat (S q) + 1) with (Z.of_nat (S (S q))) by lia. apply IH; try done; lia.
Qed.

Lemma assoc_loop_run n : forall fuel inner k s,
  (k + n = ways g)%nat -> Z.of_nat (ways g) * cache_bytes g < 2 ^ 31 -> (n < fuel)%nat -> (ways g < inner)%nat ->
  (if decide (k < ways g)%nat then row_of s 0 = scaled (sets g * Z.of_nat (ways g)) (seq 0 (S k))
   else row_of s 0 = scaled (sets g * Z.of_nat (ways g)) (seq 1 (ways g))) ->
  exists s', assoc_loop fuel inner (cache_bytes g) (Z.of_nat k) s = Ok (Z.of_nat (ways g), s').
Proof.
  assert (HD : 0 < sets g * Z.of_nat (ways g)) by nia.
  assert (Hpos : Z.of_nat (ways g) <= cache_bytes g) by (unfold cache_bytes; nia).
  induction n as [|n IH]; intros [|fuel] inner k s Hn Hlt Hf Hi Hrow; [lia| |lia|]; cbn [assoc_loop].
  - rewrite decide_False in Hrow by lia. destruct (probe_miss _ HD s (ways g) Hrow) as (s' & E).
    step E. exists s'. by replace k with (ways g) by lia.
  - rewrite decide_True in Hrow by lia. destruct (probe_hit _ HD s k ltac:(lia) Hrow) as (s1 & E1 & Hrow1). step E1.
    rewrite wraps_small by (try bound_lia; nia). replace (Z.of_nat k + 1) with (Z.of_nat (S k)) by lia.
    destruct (touch_ways_run (S k) inner k 0 s1) as (s2 & E2 & Hrow2); try done; try lia; [nia|].
    change (Z.of_nat 0 * cache_bytes g) with 0 in E2. change (Z.of_nat 1) with 1 in E2. step E2.
    apply IH; try lia. rewrite Hrow2, touched_round. unfold round_row.
    destruct (decide (S k < ways g)%nat); [done|]. by replace (S k) with (ways g) by lia.
Qed.

Lemma get_block_size_run fuel s : (forall i, row_of s i = []) -> block g < 2 ^ 31 -> block g <= Z.of_nat fuel ->
  exists s', get_block_size fuel s = Ok (block g, s').
Proof.
  intros Hs Hlt Hf. unfold get_block_size. destruct (init_row0 s Hs) as (s1 & E1 & H1). step E1.
  apply (block_loop_run (Z.to_nat (block g - 1))); try done; lia.
Qed.

Lemma get_cache_size_run fuel s : cache_bytes g + block g < 2 ^ 31 -> sets g * Z.of_nat (ways g) < Z.of_nat fuel ->
  exists s', get_cache_size fuel (block g) s = Ok (cache_bytes g, s').
Proof.
  intros Hlt Hf. unfold get_cache_size. destruct (flushed_run s) as (s1 & s2 & E1 & E2 & H2). step E1. step E2.
  replace (cache_bytes g) with (sets g * Z.of_nat (ways g) * block g) by (unfold cache_bytes; lia).
  apply (size_loop_run (Z.to_nat (sets g * Z.of_nat (ways g))) fuel fuel 0 s2); try lia.
  - unfold cache_bytes in Hlt. lia.
  - rewrite decide_True by nia. by rewrite Z.div_0_l by lia.
Qed.

Lemma get_cache_assoc_run fuel s : Z.of_nat (ways g) * cache_bytes g < 2 ^ 31 -> (ways g < fuel)%nat ->
  exists s', get_cache_assoc fuel (cache_bytes g) s = Ok (Z.of_nat (ways g), s').
Proof.
  intros Hlt Hf. unfold get_cache_assoc. destruct (flushed_run s) as (s1 & s2 & E1 & E2 & H2). step E1. step E2.
  apply (assoc_loop_run (ways g) fuel fuel 0 s2); try lia. by rewrite decide_True by lia.
Qed.
End laws.

(** C39: on every set-associative cache, whether it replaces the least recently used
    or the first loaded block of a set, the experiments end and print its geometry:
    block size, size and associativity, as long as the addresses they use are
    [int]s. *)
Theorem cache_test_measures {St} (C : Cache St) (g : geometry) (p : policy) (L : CacheLaws C g p) fuel s
    (Hblock : 0 < block g) (Hsets : 0 < sets g) (Hways : (0 < ways g)%nat)
    (Hint : (Z.of_nat (ways g) + 1) * cache_bytes g < 2 ^ 31)
    (Hfuel : block g + sets g * Z.of_nat (ways g) <= Z.of_nat fuel) :
  exists s', cache_test_main fuel s = Ok ((block g, cache_bytes g, Z.of_nat (ways g)), s').
Proof.
  assert (Hb : block g * 1 <= cache_bytes g) by (unfold cache_bytes; nia).
  destruct (cache_init_law 0 0 s) as (s0 & E0 & H0). unfold cache_test_main. step E0.
  destruct (get_block_size_run g p Hblock Hsets Hways fuel s0 H0) as (s1 & E1); [nia|nia|]. step E1.
  destruct (get_cache_size_run g p Hblock Hsets Hways fuel s1) as (s2 & E2); [nia|lia|]. step E2.
  destruct (get_cache_assoc_run g p Hblock Hsets Hways fuel s2) as (s3 & E3); [nia|nia|]. step E3.
  by exists s3.
Qed.

(** ** A cache *)

Section simulated.
Context (g : geometry) (p : policy).

Definition simulated_access (a : Z) : M (gmap Z (list Z)) bool := fun s =>
  let b := a / block g in
  let i := b mod sets g in
  let row := default [] (s !! i) in
  Ok (bool_decide (b ∈ row), <[i := use_block p (ways g) b row]> s).

Definition simulated_cache : Cache (gmap Z (list Z)) := {|
  cache_init _ _ := fun _ => Ok (tt, ∅);
  access_cache := simulated_access;
  flush_cache := fun _ => Ok (tt, ∅)
|}.

Definition simulated_laws : CacheLaws simulated_cache g p.
Proof.
  refine {| row_of s i := default [] (s !! i) |}.
  - intros size bs s. by exists ∅.
  - intros s. by exists ∅.
  - intros a s Ha. eexists. split; [done|]. intros j. cbn. destruct (Z.eqb_spec j ((a / block g) mod sets g)) as [->|Hne].
    + by rewrite lookup_insert_eq.
    + by rewrite lookup_insert_ne by done.
Defined.
End simulated.

Definition small_cache : geometry := mk_geometry 16 4 2.

Lemma cache_test_measures_witness :
  (exists s, cache_test_main (C := simulated_cache small_cache LRU) 24 ∅ = Ok ((16, 128, 2), s)) /\
  (exists s, cache_test_main (C := simulated_cache small_cache FIFO) 24 ∅ = Ok ((16, 128, 2), s)).
Proof.
  split; apply (cache_test_measures _ small_cache _ (simulated_laws small_cache _)); vm_compute; first [done|lia].
Defined.

(** The same by running it. *)
Example cache_test_runs :
  match cache_test_main (C := simulated_cache small_cache LRU) 24 ∅ with Ok (r, _) => Some r | Err _ => None end = Some (16, 128, 2).
Proof. vm_compute. reflexivity. Qed.
