(* ===== verification/Echo.v ===== *)
(** The echo server of [cmu_15-441/liso/echo_server.c]: one loop over [select] that
    accepts connections and sends back what their clients send.  The kernel behind
    the system calls is a class: what a call answers may depend on all calls so far,
    which the state records. *)
From Stdlib Require Import ZArith Lia.
From S2P Require Import Prelude.
Open Scope Z_scope.

Definition BUF_SIZE : Z := 4096.
(** [FD_SETSIZE] of the C library: the bits of an [fd_set]. *)
Definition FD_SETSIZE : Z := 1024.
Definition EXIT_FAILURE : Z := 1.

(** The system calls with their arguments and answers; [recv] answers [None] for -1. *)
Inductive event : Type :=
  | Socket (fd : Z)
  | Bind (fd status : Z)
  | Listen (fd status : Z)
  | Select (nfds : Z) (asked : gset Z) (status : Z) (ready : gset Z)
  | Accept (fd client : Z)
  | Recv (fd : Z) (data : option (list Z))
  | Send (fd : Z) (data : list Z) (sent : Z)
  | Close (fd status : Z).

Class Kernel := {
  socket_answer : list event -> Z;
  bind_answer : list event -> Z -> Z;
  listen_answer : list event -> Z -> Z;
  select_answer : list event -> Z -> gset Z -> Z * gset Z;
  accept_answer : list event -> Z -> Z;
  recv_answer : list event -> Z -> Z -> option (list Z);
  send_answer : list event -> Z -> list Z -> Z;
  close_answer : list event -> Z -> Z
}.

(** The variables of [main] that its loop changes, and the calls so far, in order. *)
Record server : Type := mk_server { calls : list event; master : gset Z; maxfd : Z }.

Section server.
Context {K : Kernel}.

Definition record (e : event) : M server unit :=
  modify (fun s => mk_server (calls s ++ [e]) (master s) (maxfd s)).
Definition sys_socket : M server Z :=
  let* t := gets calls in let fd := socket_answer t in do* record (Socket fd); ret fd.
Definition sys_bind (fd : Z) : M server Z :=
  let* t := gets calls in let r := bind_answer t fd in do* record (Bind fd r); ret r.
Definition sys_listen (fd : Z) : M server Z :=
  let* t := gets calls in let r := listen_answer t fd in do* record (Listen fd r); ret r.
Definition sys_select (nfds : Z) (fds : gset Z) : M server (Z * gset Z) :=
  let* t := gets calls in
  let '(status, ready) := select_answer t nfds fds in
  do* record (Select nfds fds status ready); ret (status, ready).
Definition sys_accept (fd : Z) : M server Z :=
  let* t := gets calls in let c := accept_answer t fd in do* record (Accept fd c); ret c.
(** The number answered, and the buffer. *)
Definition sys_recv (fd n : Z) : M server (Z * list Z) :=
  let* t := gets calls in
  let r := recv_answer t fd n in
  do* record (Recv fd r);
  ret match r with Some data => (Z.of_nat (length data), data) | None => (-1, []) end.
Definition sys_send (fd : Z) (data : list Z) : M server Z :=
  let* t := gets calls in let n := send_answer t fd data in do* record (Send fd data n); ret n.
Definition sys_close (fd : Z) : M server Z :=
  let* t := gets calls in let r := close_answer t fd in do* record (Close fd r); ret r.

(** The macros; a descriptor that an [fd_set] has no bit for is out of bounds. *)
Definition in_fd_set (fd : Z) : bool := (0 <=? fd) && (fd <? FD_SETSIZE).
Definition set_master (f : gset Z -> gset Z) : M server unit :=
  modify (fun s => mk_server (calls s) (f (master s)) (maxfd s)).
Definition FD_SET_master (fd : Z) : M server unit :=
  do* ensure BadAccess (in_fd_set fd); set_master (fun m => {[fd]} ∪ m).
Definition FD_CLR_master (fd : Z) : M server unit :=
  do* ensure BadAccess (in_fd_set fd); set_master (fun m => m ∖ {[fd]}).
Definition FD_ISSET (fd : Z) (fds : gset Z) : M server bool :=
  do* ensure BadAccess (in_fd_set fd); ret (bool_decide (fd ∈ fds)).
Definition set_maxfd (fd : Z) : M server unit :=
  modify (fun s => mk_server (calls s) (master s) fd).

Definition close_socket (sock : Z) : M server Z :=
  let* r := sys_close sock in ret (if r =? 0 then 0 else 1).

(** [if (FD_ISSET(i, &readfds))]: the listener, or a client *)
Definition serve_fd (sock i : Z) : M server unit :=
  if i =? sock then
    let* client_sock := sys_accept sock in
    if client_sock =? -1 then
      do* close_socket sock;
      FD_CLR_master sock
    else
      do* FD_SET_master client_sock;
      let* m := gets maxfd in
      if m <? client_sock then set_maxfd client_sock else ret tt
  else
    let* (readret, buf) := sys_recv i BUF_SIZE in
    if readret =? -1 then do* close_socket i; FD_CLR_master i
    else if readret =? 0 then do* close_socket i; FD_CLR_master i
    else
      let* sendret := sys_send i buf in
      if sendret =? 0 then do* close_socket i; FD_CLR_master i
      else if negb (sendret =? readret) then do* close_socket i; FD_CLR_master i
      else ret tt.

(** [for (int i = 0; i <= maxfd; i++)] *)
Fixpoint serve_ready (fuel : nat) (sock : Z) (readfds : gset Z) (i : Z) : M server unit :=
  match fuel with
  | O => fail OutOfFuel
  | S fuel' =>
      let* m := gets maxfd in
      if i <=? m then
        let* set := FD_ISSET i readfds in
        do* (if set then serve_fd sock i else ret tt);
        serve_ready fuel' sock readfds (i + 1)
      else ret tt
  end.

(** One iteration of [for (;;)]. *)
Definition serve_round (fuel : nat) (sock : Z) : M server unit :=
  let* m := gets maxfd in
  let* fds := gets master in
  let* (status, readfds) := sys_select (m + 1) fds in
  if status =? -1 then fail (Exit EXIT_FAILURE)
  else if status =? 0 then ret tt
  else serve_ready fuel sock readfds 0.

Fixpoint serve_rounds (fuel rounds : nat) (sock : Z) : M server unit :=
  match rounds with
  | O => ret tt
  | S rounds' => do* serve_round fuel sock; serve_rounds fuel rounds' sock
  end.

(** [main], up to [rounds] iterations: its exit status, or [None] when it is still
    serving. *)
Definition echo_main (fuel rounds : nat) : M server (option Z) :=
  let* sock := sys_socket in
  if sock =? -1 then ret (Some EXIT_FAILURE)
  else
    let* b := sys_bind sock in
    if negb (b =? 0) then do* close_socket sock; ret (Some EXIT_FAILURE)
    else
      let* l := sys_listen sock in
      if negb (l =? 0) then do* close_socket sock; ret (Some EXIT_FAILURE)
      else
        do* set_master (fun _ => ∅);
        do* FD_SET_master sock;
        do* set_maxfd sock;
        do* serve_rounds fuel rounds sock;
        ret None.
End server.
