(* ===== verification/EchoSpec.v ===== *)
(** What the echo server of [Echo] does on a kernel that keeps the promises of its
    manual: it never steps outside its descriptor sets, sends every client exactly
    what the client sent, and answers every descriptor reported ready. *)
From Stdlib Require Import ZArith Lia.
From S2P Require Import Prelude Echo.
Open Scope Z_scope.

(** ** Readings of the calls made *)

(** The descriptors open after the calls. *)
Definition open_step (o : gset Z) (e : event) : gset Z :=
  match e with
  | Socket fd => if fd =? -1 then o else {[fd]} ∪ o
  | Accept _ c => if c =? -1 then o else {[c]} ∪ o
  | Close fd _ => o ∖ {[fd]}
  | _ => o
  end.
Definition open_fds (t : list event) : gset Z := foldl open_step ∅ t.

(** The open connections: the bytes received from each and those sent back. *)
Definition conn_step (cs : gmap Z (list Z * list Z)) (e : event) : gmap Z (list Z * list Z) :=
  match e with
  | Accept _ c => if c =? -1 then cs else <[c := ([], [])]> cs
  | Recv fd (Some data) => alter (fun p => (p.1 ++ data, p.2)) fd cs
  | Send fd data n => alter (fun p => (p.1, p.2 ++ take (Z.to_nat n) data)) fd cs
  | Close fd _ => delete fd cs
  | _ => cs
  end.
Definition connections (t : list event) : gmap Z (list Z * list Z) := foldl conn_step ∅ t.

Lemma open_snoc t e : open_fds (t ++ [e]) = open_step (open_fds t) e.
Proof. unfold open_fds. by rewrite foldl_app. Qed.
Lemma conn_snoc t e : connections (t ++ [e]) = conn_step (connections t) e.
Proof. unfold connections. by rewrite foldl_app. Qed.

(** At no time was a client sent anything but what it had sent before. *)
Definition honest (t : list event) : Prop :=
  forall t1 t2 c i o, t = t1 ++ t2 -> connections t1 !! c = Some (i, o) -> o `prefix_of` i.

Lemma honest_snoc t e : honest t ->
  (forall c i o, connections (t ++ [e]) !! c = Some (i, o) -> o `prefix_of` i) -> honest (t ++ [e]).
Proof.
  intros Ht He t1 t2 c i o E Hc. destruct t2 as [|x t2 _] using rev_ind.
  - rewrite app_nil_r in E. subst t1. eauto.
  - rewrite app_assoc in E. apply app_inj_tail in E as [-> ->]. by eapply Ht.
Qed.

(** What is done for one descriptor reported ready. *)
Inductive turn (sock : Z) : Z -> list event -> Prop :=
  | turn_accept c : c <> -1 -> turn sock sock [Accept sock c]
  | turn_refused st : turn sock sock [Accept sock (-1); Close sock st]
  | turn_error i st : i <> sock -> turn sock i [Recv i None; Close i st]
  | turn_end i st : i <> sock -> turn sock i [Recv i (Some []); Close i st]
  | turn_echo i data : i <> sock -> data <> [] ->
      turn sock i [Recv i (Some data); Send i data (Z.of_nat (length data))]
  | turn_cut i data n st : i <> sock -> data <> [] -> n <> Z.of_nat (length data) ->
      turn sock i [Recv i (Some data); Send i data n; Close i st].

(** The descriptors of a set in the order the loop meets them. *)
Definition in_order (fds : gset Z) : list Z := filter (fun i => i ∈ fds) (seqZ 0 FD_SETSIZE).

Definition round_calls (sock : Z) (t : list event) : Prop :=
  exists nfds asked status ready turns,
    t = Select nfds asked status ready :: concat turns /\ Forall2 (turn sock) (in_order ready) turns /\
    forall i, i ∈ ready -> i ∈ in_order ready.

(** ** The kernel's promises *)

Class KernelLaws (K : Kernel) := {
  socket_law : forall t, socket_answer t = -1 \/ 0 <= socket_answer t;
  (** A select that does not fail reports some of the descriptors asked for. *)
  select_law : forall t nfds fds status ready, select_answer t nfds fds = (status, ready) ->
    status = -1 \/ (ready ⊆ fds /\ status = Z.of_nat (size ready));
  (** [accept] gives an unused descriptor. *)
  accept_law : forall t fd, accept_answer t fd = -1 \/ (0 <= accept_answer t fd /\ accept_answer t fd ∉ open_fds t);
  send_law : forall t fd data, -1 <= send_answer t fd data <= Z.of_nat (length data)
}.

Section laws.
Context {K : Kernel} {L : KernelLaws K}.
Context (sock : Z).

(** ** The state between two descriptors of a round *)

Record serving (s : server) : Prop := {
  serving_master : master s = open_fds (calls s);
  serving_fds : forall fd, fd ∈ master s -> 0 <= fd <= maxfd s;
  serving_max : 0 <= maxfd s < FD_SETSIZE;
  serving_open : forall c, is_Some (connections (calls s) !! c) -> c ∈ open_fds (calls s) /\ c <> sock;
  serving_settled : forall c i o, connections (calls s) !! c = Some (i, o) -> i = o;
  serving_honest : honest (calls s)
}.

Lemma in_fd_set_true fd : 0 <= fd < FD_SETSIZE -> in_fd_set fd = true.
Proof. intros H. unfold in_fd_set. destruct (Z.leb_spec 0 fd), (Z.ltb_spec fd FD_SETSIZE); lia || done. Qed.

Lemma FD_CLR_run fd s : 0 <= fd < FD_SETSIZE ->
  FD_CLR_master fd s = Ok (tt, mk_server (calls s) (master s ∖ {[fd]}) (maxfd s)).
Proof. intros H. unfold FD_CLR_master. by rewrite in_fd_set_true. Qed.

(** ** One turn *)

Definition served (i : Z) (s : server) (r : res (unit * server)) : Prop :=
  exists s' evs, r = Ok (tt, s') /\ calls s' = calls s ++ evs /\ turn sock i evs /\ serving s' /\
    maxfd s <= maxfd s' /\ (forall j, j ∈ master s -> j <> i -> j ∈ master s').

Lemma settled_honest t e : honest t -> (forall c i o, connections (t ++ [e]) !! c = Some (i, o) -> i = o) -> honest (t ++ [e]).
Proof. intros Ht He. apply honest_snoc; [done|]. intros c i o Hc%He. by subst. Qed.

(** A turn may end with the descriptor closed, whatever is owed to it. *)
Lemma close_served i t evs m mx : serving (mk_server t m mx) -> i ∈ m -> open_fds (t ++ evs) = open_fds t ->
  (forall c, is_Some (connections (t ++ evs) !! c) -> is_Some (connections t !! c)) -> honest (t ++ evs) ->
  (forall c j o, connections (t ++ evs) !! c = Some (j, o) -> j = o \/ c = i) ->
  (forall st, turn sock i (evs ++ [Close i st])) ->
  served i (mk_server t m mx) (bind (close_socket i) (fun _ => FD_CLR_master i) (mk_server (t ++ evs) m mx)).
Proof.
  intros [H1 H2 H3 H4 H5 H6] Hi Ho Hd Hh Hs Ht. cbn [calls master maxfd] in *. pose proof (H2 i Hi).
  set (st := close_answer (t ++ evs) i). exists (mk_server (t ++ (evs ++ [Close i st])) (m ∖ {[i]}) mx), (evs ++ [Close i st]).
  split; [unfold close_socket, sys_close; cbn; rewrite FD_CLR_run by lia; by rewrite app_assoc|].
  split; [done|]. split; [done|]. split; [|cbn; split; [lia|set_solver]]. rewrite app_assoc.
  assert (Hset : forall c j o, connections ((t ++ evs) ++ [Close i st]) !! c = Some (j, o) -> j = o).
  { intros c j o. rewrite conn_snoc. cbn [conn_step]. intros [Hne Hc]%lookup_delete_Some. by destruct (Hs _ _ _ Hc). }
  split; cbn [calls master maxfd]; [|intros fd Hfd; apply H2; set_solver|done| |done|by apply settled_honest].
  - rewrite open_snoc, Ho. cbn [open_step]. by rewrite H1.
  - intros c. rewrite conn_snoc, open_snoc, Ho. cbn [conn_step open_step]. rewrite lookup_delete_is_Some.
    intros [Hne Hc%Hd%H4]. set_solver.
Qed.

(** The runs of the calls. *)
Lemma accept_run s : sys_accept sock s =
  Ok (accept_answer (calls s) sock, mk_server (calls s ++ [Accept sock (accept_answer (calls s) sock)]) (master s) (maxfd s)).
Proof. done. Qed.
Lemma recv_run i n s : sys_recv i n s =
  Ok (match recv_answer (calls s) i n with Some data => (Z.of_nat (length data), data) | None => (-1, []) end,
      mk_server (calls s ++ [Recv i (recv_answer (calls s) i n)]) (master s) (maxfd s)).
Proof. done. Qed.
Lemma send_run i data s : sys_send i data s =
  Ok (send_answer (calls s) i data, mk_server (calls s ++ [Send i data (send_answer (calls s) i data)]) (master s) (maxfd s)).
Proof. done. Qed.

Lemma FD_SET_run fd s : 0 <= fd < FD_SETSIZE ->
  FD_SET_master fd s = Ok (tt, mk_server (calls s) ({[fd]} ∪ master s) (maxfd s)).
Proof. intros H. unfold FD_SET_master. by rewrite in_fd_set_true. Qed.

(** A new client. *)
Lemma serving_accept t m mx mx' c : serving (mk_server t m mx) -> sock ∈ m -> c <> -1 -> 0 <= c -> c ∉ open_fds t ->
  mx <= mx' -> c <= mx' < FD_SETSIZE -> serving (mk_server (t ++ [Accept sock c]) ({[c]} ∪ m) mx').
Proof.
  intros [H1 H2 H3 H4 H5 H6] Hi Hc Hc0 Hnew Hmx Hmx'. cbn [calls master maxfd] in *.
  assert (Hset : forall d j o, connections (t ++ [Accept sock c]) !! d = Some (j, o) -> j = o).
  { intros d j o. rewrite conn_snoc. cbn [conn_step]. destruct (Z.eqb_spec c (-1)); [done|].
    rewrite lookup_insert_Some. intros [[_ [= <- <-]]|[_ Hd]]; [done|eauto]. }
  split; cbn [calls master maxfd]; [| |lia| |done|by apply settled_honest].
  - rewrite open_snoc. cbn [open_step]. destruct (Z.eqb_spec c (-1)); [done|]. by rewrite H1.
  - intros fd [->%elem_of_singleton|Hfd%H2]%elem_of_union; lia.
  - intros d. rewrite conn_snoc, open_snoc. cbn [conn_step open_step]. destruct (Z.eqb_spec c (-1)); [done|].
    rewrite lookup_insert_is_Some. intros [->|[Hd Hds]].
    + split; [set_solver|]. intros ->. apply Hnew. by rewrite <- H1.
    + destruct (H4 d Hds). set_solver.
Qed.

(** [accept] answers with a descriptor that an [fd_set] has no bit for. *)
Definition too_large (t : list event) : Prop := FD_SETSIZE <= accept_answer t sock.

Lemma FD_SET_fault fd s : FD_SETSIZE <= fd -> FD_SET_master fd s = Err BadAccess.
Proof. intros H. unfold FD_SET_master, in_fd_set. by rewrite (proj2 (Z.ltb_ge fd _) H), andb_false_r. Qed.

Lemma serve_listener s : serving s -> sock ∈ master s ->
  served sock s (serve_fd sock sock s) \/ (serve_fd sock sock s = Err BadAccess /\ too_large (calls s)).
Proof.
  intros Hs Hi. destruct s as [t m mx]. pose proof Hs as [H1 H2 H3 H4 H5 H6]. cbn [calls master maxfd] in *.
  unfold serve_fd. rewrite Z.eqb_refl. step (accept_run (mk_server t m mx)). cbn [calls master maxfd].
  set (c := accept_answer t sock). destruct (Z.eqb_spec c (-1)) as [->|Hc].
  - left. apply close_served; try done.
    + by rewrite open_snoc.
    + intros d. by rewrite conn_snoc.
    + apply settled_honest; [done|]. intros d j o. rewrite conn_snoc. apply H5.
    + intros d j o. rewrite conn_snoc. left. by eapply H5.
    + intros st. constructor.
  - destruct (accept_law t sock) as [?|[Hr0 Hnew]]; [done|]. fold c in Hr0, Hnew.
    destruct (Z.lt_ge_cases c FD_SETSIZE) as [Hlt|Hge]; [left|right; unfold bind; by rewrite FD_SET_fault].
    assert (Hr : 0 <= c < FD_SETSIZE) by done.
    step (FD_SET_run c (mk_server (t ++ [Accept sock c]) m mx) Hr). unfold gets. cbn [bind calls master maxfd].
    destruct (Z.ltb_spec mx c); cbn [set_maxfd modify ret calls master maxfd];
      (eexists _, [Accept sock c]; split; [done|]; split; [done|]; split; [by constructor|];
       split; [apply (serving_accept t m mx); try done; lia|]; split; [cbn [maxfd]; lia|cbn [master]; set_solver]).
Qed.

(** Receiving, and sending back [n] of the bytes received. *)
Lemma honest_recv t i data : honest t -> (forall c j o, connections t !! c = Some (j, o) -> j = o) ->
  honest (t ++ [Recv i (Some data)]) /\
  (forall c j o, connections (t ++ [Recv i (Some data)]) !! c = Some (j, o) ->
    j = o /\ c <> i \/ c = i /\ j = o ++ data).
Proof.
  intros Ht Hs.
  assert (Hc : forall c j o, connections (t ++ [Recv i (Some data)]) !! c = Some (j, o) -> j = o /\ c <> i \/ c = i /\ j = o ++ data).
  { intros c j o. rewrite conn_snoc. cbn [conn_step]. rewrite lookup_alter. case_decide as Hci.
    - subst c. destruct (connections t !! i) as [[j' o']|] eqn:E; cbn; [|done]. intros [= <- <-].
      apply Hs in E as <-. by right.
    - intros Hl. left. split; [by eapply Hs|done]. }
  split; [|done]. apply honest_snoc; [done|]. intros c j o [[-> _]|[_ ->]]%Hc; [done|by exists data].
Qed.

Lemma honest_send t i data n : honest (t ++ [Recv i (Some data)]) ->
  (forall c j o, connections (t ++ [Recv i (Some data)]) !! c = Some (j, o) -> j = o /\ c <> i \/ c = i /\ j = o ++ data) ->
  honest (t ++ [Recv i (Some data)] ++ [Send i data n]) /\
  (forall c j o, connections (t ++ [Recv i (Some data)] ++ [Send i data n]) !! c = Some (j, o) ->
    j = o \/ c = i /\ n <> Z.of_nat (length data)).
Proof.
  intros Ht Hs. rewrite app_assoc. set (u := t ++ [Recv i (Some data)]) in *.
  assert (Hc : forall c j o, connections (u ++ [Send i data n]) !! c = Some (j, o) ->
    j = o \/ c = i /\ exists o', j = o' ++ data /\ o = o' ++ take (Z.to_nat n) data).
  { intros c j o. rewrite conn_snoc. cbn [conn_step]. rewrite lookup_alter. case_decide as Hci.
    - subst c. destruct (connections u !! i) as [[j' o']|] eqn:E; cbn; [|done]. intros [= <- <-].
      destruct (Hs _ _ _ E) as [[_ ?]|[_ ->]]; [done|]. right. by eauto.
    - intros Hl. left. by destruct (Hs _ _ _ Hl) as [[? _]|[? _]]. }
  split.
  - apply honest_snoc; [done|]. intros c j o [->|(_ & o' & -> & ->)]%Hc; [done|].
    apply prefix_app. exists (drop (Z.to_nat n) data). by rewrite take_drop.
  - intros c j o [->|(-> & o' & -> & ->)]%Hc; [by left|].
    destruct (decide (n = Z.of_nat (length data))) as [->|Hn]; [left|by right].
    by rewrite Nat2Z.id, take_ge by done.
Qed.

Lemma domain_recv_send t i data n c : is_Some (connections (t ++ [Recv i (Some data)] ++ [Send i data n]) !! c) ->
  is_Some (connections t !! c).
Proof.
  rewrite app_assoc, !conn_snoc. cbn [conn_step]. by rewrite !lookup_alter_is_Some.
Qed.

(** A client. *)
Lemma serve_client i s : serving s -> i ∈ master s -> i <> sock -> served i s (serve_fd sock i s).
Proof.
  intros Hs Hi Hne. destruct s as [t m mx]. pose proof Hs as [H1 H2 H3 H4 H5 H6]. cbn [calls master maxfd] in *.
  unfold serve_fd. destruct (Z.eqb_spec i sock) as [|_]; [done|]. step (recv_run i BUF_SIZE (mk_server t m mx)). cbn [calls master maxfd].
  destruct (recv_answer t i BUF_SIZE) as [data|]; cbn iota beta.
  2: { cbn [Z.eqb]. apply close_served; try done.
    - by rewrite open_snoc.
    - intros c. by rewrite conn_snoc.
    - apply settled_honest; [done|]. intros c j o. rewrite conn_snoc. apply H5.
    - intros c j o. rewrite conn_snoc. left. by eapply H5.
    - intros st. by constructor. }
  destruct (Z.eqb_spec (Z.of_nat (length data)) (-1)) as [|_]; [lia|]. destruct (honest_recv t i data H6 H5) as [Hh Hc].
  destruct (Z.eqb_spec (Z.of_nat (length data)) 0) as [Hz|Hz].
  - assert (data = []) as -> by (destruct data; [done|cbn in Hz; lia]). apply close_served; try done.
    + by rewrite open_snoc.
    + intros c. rewrite conn_snoc. cbn [conn_step]. by rewrite lookup_alter_is_Some.
    + intros c j o [[-> _]|[-> _]]%Hc; tauto.
    + intros st. by constructor.
  - step (send_run i data (mk_server (t ++ [Recv i (Some data)]) m mx)). cbn [calls master maxfd].
    set (n := send_answer _ i data). destruct (honest_send t i data n Hh Hc) as [Hh2 Hc2].
    assert (Hnd : data <> []) by (intros ->; done). rewrite <- app_assoc.
    assert (Hcut : n <> Z.of_nat (length data) -> served i (mk_server t m mx)
      (bind (close_socket i) (fun _ => FD_CLR_master i) (mk_server (t ++ [Recv i (Some data)] ++ [Send i data n]) m mx))).
    { intros Hn. apply close_served; try done.
      - by rewrite app_assoc, !open_snoc.
      - intros c. apply domain_recv_send.
      - intros c j o [?|[? _]]%Hc2; tauto.
      - intros st. by constructor. }
    destruct (Z.eqb_spec n 0) as [Hn0|Hn0]; [apply Hcut; lia|].
    destruct (Z.eqb_spec n (Z.of_nat (length data))) as [Hn|Hn]; cbn [negb]; [|by apply Hcut].
    eexists _, ([Recv i (Some data)] ++ [Send i data n]). split; [done|]. split; [done|].
    split; [rewrite Hn; by constructor|]. split; [|done].
    split; cbn [calls master maxfd]; try done.
    + by rewrite app_assoc, !open_snoc.
    + intros c Hl%domain_recv_send%H4. by rewrite app_assoc, !open_snoc.
    + intros c j o [->|[_ ?]]%Hc2; done.
Qed.

Lemma serve_fd_run i s : serving s -> i ∈ master s ->
  served i s (serve_fd sock i s) \/ (serve_fd sock i s = Err BadAccess /\ i = sock /\ too_large (calls s)).
Proof.
  intros Hs Hi. destruct (decide (i = sock)) as [->|Hne]; [|left; by apply serve_client].
  destruct (serve_listener s Hs Hi) as [?|[? ?]]; auto.
Qed.

(** ** Rounds *)

Lemma FD_ISSET_run i fds s : 0 <= i < FD_SETSIZE -> FD_ISSET i fds s = Ok (bool_decide (i ∈ fds), s).
Proof. intros H. unfold FD_ISSET. by rewrite in_fd_set_true. Qed.

Lemma in_order_from (ready : gset Z) i n : filter (fun j => j ∈ ready) (seqZ i (Z.of_nat (S n))) =
  (if bool_decide (i ∈ ready) then [i] else []) ++ filter (fun j => j ∈ ready) (seqZ (i + 1) (Z.of_nat n)).
Proof.
  rewrite seqZ_cons by lia. rewrite filter_cons. replace (Z.pred (Z.of_nat (S n))) with (Z.of_nat n) by lia.
  destruct (bool_decide_reflect (i ∈ ready)); [by rewrite decide_True by done|by rewrite decide_False by done].
Qed.

(** The loop over the descriptors [fds] stops at the listener, after the turns of those
    before it. *)
Definition overrun (t : list event) (fds : list Z) : Prop :=
  exists served_before turns, served_before ++ [sock] `prefix_of` fds /\ Forall2 (turn sock) served_before turns /\ too_large (t ++ concat turns).

(** The loop over the descriptors from [i] on. *)
Lemma serve_ready_run n : forall fuel i (ready : gset Z) s, i + Z.of_nat n = FD_SETSIZE -> 0 <= i -> (n < fuel)%nat -> serving s ->
  (forall j, j ∈ ready -> i <= j -> j ∈ master s) ->
  (exists s' turns, serve_ready fuel sock ready i s = Ok (tt, s') /\ calls s' = calls s ++ concat turns /\
    Forall2 (turn sock) (filter (fun j => j ∈ ready) (seqZ i (Z.of_nat n))) turns /\ serving s') \/
  (serve_ready fuel sock ready i s = Err BadAccess /\ overrun (calls s) (filter (fun j => j ∈ ready) (seqZ i (Z.of_nat n)))).
Proof.
  induction n as [|n IH]; intros [|fuel] i ready s Hn Hi Hf Hs Hr; try lia; cbn [serve_ready].
  - unfold gets. cbn [bind]. pose proof (serving_max s Hs). destruct (Z.leb_spec i (maxfd s)); [lia|]. left.
    exists s, []. split; [done|]. split; [by rewrite app_nil_r|]. by split; [constructor|].
  - unfold gets. cbn [bind]. destruct (Z.leb_spec i (maxfd s)) as [Hle|Hgt].
    + step (FD_ISSET_run i ready s ltac:(lia)). rewrite in_order_from. destruct (bool_decide_reflect (i ∈ ready)) as [Hin|Hout].
      * destruct (serve_fd_run i s Hs (Hr i Hin ltac:(lia))) as [(s1 & evs & E1 & Ht1 & Hturn & Hs1 & _ & Hm1)|(E1 & -> & Hbig)].
        2: { right. unfold bind. rewrite E1. split; [done|]. exists [], []. cbn. rewrite app_nil_r.
             split; [by eexists|]. by split; [constructor|]. }
        step E1. destruct (IH fuel (i + 1) ready s1) as [(s2 & turns & E2 & Ht2 & Hturns & Hs2)|(E2 & ds & turns & [w Hw] & Hturns & Hbig)]; [lia|lia|lia|exact Hs1| | |].
        { intros j Hj Hij. apply Hm1; [apply Hr; [done|lia]|lia]. }
        -- left. exists s2, (evs :: turns). split; [done|]. split; [by rewrite Ht2, Ht1, <- app_assoc|]. split; [by constructor|done].
        -- right. split; [done|]. exists (i :: ds), (evs :: turns). split; [exists w; by rewrite Hw|]. split; [by constructor|].
           by rewrite Ht1, <- app_assoc in Hbig.
      * cbn [bind ret app]. apply IH; try done; try lia. intros j Hj Hij. apply Hr; [done|lia].
    + left. exists s, []. split; [done|]. split; [by rewrite app_nil_r|]. split; [|done].
      assert (Hnil : filter (fun j => j ∈ ready) (seqZ i (Z.of_nat (S n))) = []); [|rewrite Hnil; constructor].
      apply elem_of_nil_inv. intros j [Hj Hij%elem_of_seqZ]%list_elem_of_filter.
      pose proof (serving_fds s Hs j (Hr j Hj ltac:(lia))). lia.
Qed.

Lemma select_run nfds fds status ready s : select_answer (calls s) nfds fds = (status, ready) ->
  sys_select nfds fds s = Ok ((status, ready), mk_server (calls s ++ [Select nfds fds status ready]) (master s) (maxfd s)).
Proof. intros E. unfold sys_select, gets, record, modify. cbn [bind]. unfold bind. by rewrite E. Qed.

(** How a round ends the program: [select] fails, or [accept] answers with a descriptor
    too large, after the turns of the descriptors before the listener. *)
Definition stops (s : server) (e : fault) : Prop :=
  exists status ready, select_answer (calls s) (maxfd s + 1) (master s) = (status, ready) /\
    (status = -1 /\ e = Exit EXIT_FAILURE \/
     e = BadAccess /\ overrun (calls s ++ [Select (maxfd s + 1) (master s) status ready]) (in_order ready)).

Lemma serve_round_run fuel s : (1024 < fuel)%nat -> serving s ->
  (exists s' t, serve_round fuel sock s = Ok (tt, s') /\ calls s' = calls s ++ t /\ round_calls sock t /\ serving s') \/
  (exists e, serve_round fuel sock s = Err e /\ stops s e).
Proof.
  intros Hf Hs. unfold serve_round, gets. cbn [bind].
  destruct (select_answer (calls s) (maxfd s + 1) (master s)) as [status ready] eqn:E.
  step (select_run _ _ _ _ _ E).
  set (e := Select (maxfd s + 1) (master s) status ready). set (s1 := mk_server (calls s ++ [e]) (master s) (maxfd s)).
  assert (Hs1 : serving s1).
  { destruct Hs as [H1 H2 H3 H4 H5 H6]. split; cbn [calls master maxfd s1]; try done.
    - by rewrite open_snoc.
    - intros c. rewrite conn_snoc, open_snoc. apply H4.
    - intros c i o. rewrite conn_snoc. apply H5.
    - apply settled_honest; [done|]. intros c i o. rewrite conn_snoc. apply H5. }
  destruct (Z.eqb_spec status (-1)) as [Hm|Hm]; [right; eexists; split; [done|]; exists status, ready; split; [done|by left]|].
  destruct (select_law _ _ _ _ _ E) as [?|[Hsub Hst]]; [done|]. destruct (Z.eqb_spec status 0) as [Hz|_].
  - left. exists s1, [e]. split; [done|]. split; [done|]. split; [|done]. eexists _, _, _, _, []. split; [done|].
    assert (ready = ∅) as -> by (apply leibniz_equiv, size_empty_inv; lia).
    assert (Hnil : in_order ∅ = []); [|rewrite Hnil].
    { apply elem_of_nil_inv. intros j [Hj _]%list_elem_of_filter. set_solver. }
    split; [constructor|set_solver].
  - destruct (serve_ready_run 1024 fuel 0 ready s1) as [(s2 & turns & E2 & Ht2 & Hturns & Hs2)|[E2 Hov]]; try done; try lia.
    { intros j Hj _. by apply Hsub. }
    + left. exists s2, (e :: concat turns). split; [done|]. split; [by rewrite Ht2; cbn [calls s1]; rewrite <- app_assoc|].
      split; [|done]. eexists _, _, _, _, turns. split; [done|]. split; [done|].
      intros j Hj. apply list_elem_of_filter. split; [done|]. apply elem_of_seqZ.
      pose proof (serving_fds s Hs j (Hsub j Hj)). pose proof (serving_max s Hs). lia.
    + right. exists BadAccess. split; [done|]. exists status, ready. split; [done|]. by right.
Qed.

Lemma serve_rounds_run n : forall fuel s, (1024 < fuel)%nat -> serving s ->
  (exists s' ts, serve_rounds fuel n sock s = Ok (tt, s') /\ calls s' = calls s ++ concat ts /\ length ts = n /\
    Forall (round_calls sock) ts /\ serving s') \/
  (exists e, serve_rounds fuel n sock s = Err e /\ exists m s', (m < n)%nat /\ serve_rounds fuel m sock s = Ok (tt, s') /\ stops s' e).
Proof.
  induction n as [|n IH]; intros fuel s Hf Hs; cbn [serve_rounds].
  - left. exists s, []. split; [done|]. split; [by rewrite app_nil_r|]. by split; [|split; [constructor|]].
  - destruct (serve_round_run fuel s Hf Hs) as [(s1 & t & E1 & Ht & Hround & Hs1)|(e & E1 & He)].
    2: { right. exists e. unfold bind. rewrite E1. split; [done|]. exists 0%nat, s. by split; [lia|]. }
    step E1. destruct (IH fuel s1 Hf Hs1) as [(s2 & ts & E2 & Hts & Hlen & Hrounds & Hs2)|(e & E2 & m & s2 & Hm & Em & He)].
    + left. exists s2, (t :: ts). split; [done|]. split; [by rewrite Hts, Ht, <- app_assoc|]. split; [by cbn; rewrite Hlen|].
      split; [by constructor|done].
    + right. exists e. split; [done|]. exists (S m), s2. split; [lia|]. split; [|done]. cbn [serve_rounds]. by step E1.
Qed.
End laws.

(** ** The server *)

(** What [main] does before its loop, and how it fails to get there. *)
Definition set_up (sock : Z) (t : list event) : Prop :=
  t = [Socket sock; Bind sock 0; Listen sock 0] /\ 0 <= sock < FD_SETSIZE.
Definition gave_up (t : list event) : Prop :=
  t = [Socket (-1)] \/
  (exists fd r st, t = [Socket fd; Bind fd r; Close fd st] /\ r <> 0) \/
  (exists fd r st, t = [Socket fd; Bind fd 0; Listen fd r; Close fd st] /\ r <> 0).

(** [main] up to its loop. *)
Lemma echo_main_start {K : Kernel} {L : KernelLaws K} fuel s0 : calls s0 = [] ->
  (exists s, (forall n, echo_main fuel n s0 = Ok (Some EXIT_FAILURE, s)) /\ gave_up (calls s)) \/
  (FD_SETSIZE <= socket_answer [] /\ forall n, echo_main fuel n s0 = Err BadAccess) \/
  (exists sock s1, serving sock s1 /\ set_up sock (calls s1) /\
     forall n, echo_main fuel n s0 = (do* serve_rounds fuel n sock; ret None) s1).
Proof.
  intros H0. unfold echo_main, sys_socket, sys_bind, sys_listen, close_socket, sys_close, gets, record, modify.
  cbn [bind ret calls master maxfd]. rewrite H0. cbn [app]. set (sock := socket_answer []).
  destruct (Z.eqb_spec sock (-1)) as [Hm|Hm].
  - left. eexists. split; [done|]. left. cbn. by rewrite Hm.
  - destruct (socket_law []) as [?|Hr0]; [done|]. fold sock in Hr0. cbn [bind ret calls master maxfd app].
    destruct (Z.eqb_spec (bind_answer [Socket sock] sock) 0) as [Hb|Hb]; cbn [negb bind ret calls].
    2: { left. eexists. split; [done|]. right; left. by eexists _, _, _. }
    rewrite Hb. cbn [app]. destruct (Z.eqb_spec (listen_answer [Socket sock; Bind sock 0] sock) 0) as [Hl|Hl]; cbn [negb bind ret calls].
    2: { left. eexists. split; [done|]. right; right. by eexists _, _, _. }
    rewrite Hl. unfold set_master, modify. cbn [bind ret calls master maxfd app]. right.
    destruct (Z.lt_ge_cases sock FD_SETSIZE) as [Hlt|Hge]; [right|left; split; [done|]; intros n; unfold bind; by rewrite FD_SET_fault].
    set (s1 := mk_server [Socket sock; Bind sock 0; Listen sock 0] ({[sock]} ∪ ∅) sock). exists sock, s1.
    split; [|split; [by split|]].
    2: { intros n. by step (FD_SET_run sock (mk_server [Socket sock; Bind sock 0; Listen sock 0] ∅ (maxfd s0)) ltac:(done)). }
    split; cbn [calls master maxfd s1].
    + unfold open_fds. cbn. destruct (Z.eqb_spec sock (-1)); [done|]. set_solver.
    + intros fd. rewrite union_empty_r_L. intros ->%elem_of_singleton. lia.
    + lia.
    + intros c [p Hc]. unfold connections in Hc. cbn in Hc. by rewrite lookup_empty in Hc.
    + intros c i o. unfold connections. cbn. by rewrite lookup_empty.
    + intros t1 t2 c i o E Hc. exfalso. revert Hc. unfold connections.
      assert (t1 = [] \/ t1 = [Socket sock] \/ t1 = [Socket sock; Bind sock 0] \/ t1 = [Socket sock; Bind sock 0; Listen sock 0]) as H1.
      { destruct t1 as [|? [|? [|? [|? t1]]]]; cbn in E; simplify_eq; auto. }
      destruct H1 as [->|[->|[->| ->]]]; cbn; by rewrite lookup_empty.
Qed.

Lemma echo_main_run {K : Kernel} {L : KernelLaws K} fuel n s0 : (1024 < fuel)%nat -> calls s0 = [] ->
  (exists r s, echo_main fuel n s0 = Ok (r, s) /\
    ((r = Some EXIT_FAILURE /\ gave_up (calls s)) \/
     (r = None /\ exists sock t ts, set_up sock t /\ calls s = t ++ concat ts /\ length ts = n /\
       Forall (round_calls sock) ts /\ serving sock s))) \/
  (exists e, echo_main fuel n s0 = Err e /\
    ((e = BadAccess /\ FD_SETSIZE <= socket_answer []) \/
     exists m s sock, (m < n)%nat /\ echo_main fuel m s0 = Ok (None, s) /\ stops sock s e)).
Proof.
  intros Hf H0. destruct (echo_main_start fuel s0 H0) as [(s & E & Hg)|[[Hbig E]|(sock & s1 & Hs1 & Hset & E)]].
  - left. exists (Some EXIT_FAILURE), s. split; [done|by left].
  - right. exists BadAccess. split; [done|by left].
  - destruct (serve_rounds_run sock n fuel s1 Hf Hs1) as [(s2 & ts & E2 & Ht & Hlen & Hrounds & Hs2)|(e & E2 & m & s2 & Hm & Em & He)].
    + left. exists None, s2. rewrite E. step E2. split; [done|]. right. split; [done|]. by exists sock, (calls s1), ts.
    + right. exists e. rewrite E. unfold bind at 1. rewrite E2. split; [done|]. right. exists m, s2, sock. split; [done|]. rewrite E. by step Em.
Qed.


(** *** Every report is answered *)

Definition is_select (e : event) : bool := match e with Select _ _ _ _ => true | _ => false end.
Definition no_select (t : list event) : Prop := Forall (fun e => is_select e = false) t.

Lemma turn_no_select sock i evs : turn sock i evs -> no_select evs.
Proof. destruct 1; repeat constructor. Qed.

Lemma turns_no_select sock fds turns : Forall2 (turn sock) fds turns -> no_select (concat turns).
Proof. induction 1; cbn; [constructor|]. apply Forall_app. split; [by eapply turn_no_select|done]. Qed.

Lemma no_select_before u v t1 e t2 : no_select u -> is_select e = true -> u ++ v = t1 ++ e :: t2 -> exists t1', v = t1' ++ e :: t2.
Proof.
  intros Hu He. revert t1. induction Hu as [|x u Hx Hu IH]; intros t1 E; cbn in E; [by exists t1|].
  destruct t1 as [|y t1]; simplify_eq/=; [congruence|]. by eapply IH.
Qed.

Lemma turns_split sock fds turns i : Forall2 (turn sock) fds turns -> i ∈ fds ->
  exists u evs v, concat turns = u ++ evs ++ v /\ no_select u /\ turn sock i evs.
Proof.
  induction 1 as [|j evs fds turns Ht Hts IH]; intros Hi; [by apply not_elem_of_nil in Hi|].
  apply elem_of_cons in Hi as [->|Hi].
  - exists [], evs, (concat turns). split; [done|]. split; [constructor|done].
  - destruct (IH Hi) as (u & evs' & v & E & Hu & Ht'). exists (evs ++ u), evs', v. cbn. rewrite E, <- app_assoc.
    split; [done|]. split; [|done]. apply Forall_app. split; [by eapply turn_no_select|done].
Qed.

Lemma rounds_answer sock ts : Forall (round_calls sock) ts ->
  forall t1 nfds asked status ready t2 i, concat ts = t1 ++ Select nfds asked status ready :: t2 -> i ∈ ready ->
  exists u evs v, t2 = u ++ evs ++ v /\ no_select u /\ turn sock i evs.
Proof.
  induction 1 as [|r ts Hr Hts IH]; intros t1 nfds asked status ready t2 i E Hi; cbn in E; [by destruct t1|].
  destruct Hr as (nfds' & asked' & status' & ready' & turns & -> & Hturns & Hin). cbn in E.
  destruct t1 as [|x t1]; simplify_eq/=.
  - destruct (turns_split _ _ _ i Hturns (Hin i Hi)) as (u & evs & v & E & Hu & Ht).
    exists u, evs, (v ++ concat ts). by rewrite E, <- !app_assoc.
  - destruct (no_select_before (concat turns) (concat ts) t1 (Select nfds asked status ready) t2) as (t1' & E'); try done.
    + by eapply turns_no_select.
    + by eapply IH.
Qed.

(** C25: every descriptor that [select] reports is answered before the next [select]: a
    connection is accepted, what a client sent is received and sent back, or the
    descriptor is closed. *)
Theorem echo_server_answers {K : Kernel} (L : KernelLaws K) fuel n s0 s t1 nfds asked status ready t2 i
    (Hfuel : (1024 < fuel)%nat) (H0 : calls s0 = []) (Hrun : echo_main fuel n s0 = Ok (None, s))
    (Hsel : calls s = t1 ++ Select nfds asked status ready :: t2) (Hi : i ∈ ready) :
  exists sock rest u evs v, calls s = Socket sock :: rest /\ t2 = u ++ evs ++ v /\ no_select u /\ turn sock i evs.
Proof.
  destruct (echo_main_run fuel n s0 Hfuel H0) as [(r & s' & E & H)|(e & E & _)]; rewrite Hrun in E; [|done]. injection E as <- <-.
  destruct H as [[? _]|(_ & sock & t & ts & [-> _] & Ht & _ & Hrounds & _)]; [done|].
  exists sock, ([Bind sock 0; Listen sock 0] ++ concat ts). rewrite Hsel in Ht.
  destruct (no_select_before [Socket sock; Bind sock 0; Listen sock 0] (concat ts) t1 (Select nfds asked status ready) t2)
    as (t1' & E); [by repeat constructor|done|done|].
  destruct (rounds_answer sock ts Hrounds _ _ _ _ _ _ i E Hi) as (u & evs & v & ? & ? & ?).
  exists u, evs, v. split; [|done]. by rewrite Hsel, Ht.
Qed.

(** ** A kernel *)

(** The listener is 3; a client connects as 4 in the first round, sends two messages, and
    hangs up; every call succeeds. *)
Definition asked_so_far (t : list event) : nat := length (filter (fun e => is_select e = true) t).
Definition one_client : Kernel := {|
  socket_answer _ := 3;
  bind_answer _ _ := 0;
  listen_answer _ _ := 0;
  select_answer t _ fds :=
    let ready := fds ∩ (if (asked_so_far t =? 0)%nat then {[3]} else {[4]}) in (Z.of_nat (size ready), ready);
  accept_answer t _ := if decide (4 ∈ open_fds t) then -1 else 4;
  recv_answer t _ _ := Some (if (asked_so_far t <? 4)%nat then [Z.of_nat (asked_so_far t); 10] else []);
  send_answer _ _ data := Z.of_nat (length data);
  close_answer _ _ := 0
|}.

#[export] Instance one_client_laws : KernelLaws one_client.
Proof.
  split.
  - intros t. by right.
  - intros t nfds fds status ready [= <- <-]. right. split; [set_solver|done].
  - intros t fd. cbn. case_decide; [by left|by right].
  - intros t fd data. cbn. lia.
Qed.

Definition idle : server := mk_server [] ∅ 0.



(** A kernel that behaves the same, but whose [accept] gives the client descriptor 1024:
    the server writes outside its set in the first round. *)
Definition many_files : Kernel := {|
  socket_answer _ := 3;
  bind_answer _ _ := 0;
  listen_answer _ _ := 0;
  select_answer t _ fds := (Z.of_nat (size (fds ∩ {[3]})), fds ∩ {[3]});
  accept_answer t _ := if decide (1024 ∈ open_fds t) then -1 else 1024;
  recv_answer t _ _ := None;
  send_answer _ _ data := Z.of_nat (length data);
  close_answer _ _ := 0
|}.
#[export] Instance many_files_laws : KernelLaws many_files.
Proof.
  split.
  - intros t. by right.
  - intros t nfds fds status ready [= <- <-]. right. split; [set_solver|done].
  - intros t fd. cbn. case_decide; [by left|by right].
  - intros t fd data. cbn. lia.
Qed.
Example descriptor_too_large : echo_main (K := many_files) 1025 1 idle = Err BadAccess.
Proof. vm_compute. reflexivity. Qed.

(** The calls of three rounds. *)
Definition three_rounds : list event :=
  match echo_main (K := one_client) 1025 3 idle with Ok (None, s) => calls s | _ => [] end.
Example three_rounds_calls : three_rounds =
  [Socket 3; Bind 3 0; Listen 3 0;
   Select 4 {[3]} 1 {[3]}; Accept 3 4;
   Select 5 ({[4]} ∪ {[3]}) 1 {[4]}; Recv 4 (Some [2; 10]); Send 4 [2; 10] 2;
   Select 5 ({[4]} ∪ {[3]}) 1 {[4]}; Recv 4 (Some [3; 10]); Send 4 [3; 10] 2].
Proof. vm_compute. reflexivity. Qed.

Definition after_three : server :=
  match echo_main (K := one_client) 1025 3 idle with Ok (_, s) => s | Err _ => idle end.

Lemma echo_server_answers_witness : exists sock rest u evs v, calls after_three = Socket sock :: rest /\
  [Recv 4 (Some [2; 10]); Send 4 [2; 10] 2; Select 5 ({[4]} ∪ {[3]}) 1 {[4]}; Recv 4 (Some [3; 10]); Send 4 [3; 10] 2] = u ++ evs ++ v /\
  no_select u /\ turn sock 4 evs.
Proof.
  apply (echo_server_answers one_client_laws 1025 3 idle after_three
    [Socket 3; Bind 3 0; Listen 3 0; Select 4 {[3]} 1 {[3]}; Accept 3 4] 5 ({[4]} ∪ {[3]}) 1 {[4]}).
  - lia.
  - reflexivity.
  - vm_compute. reflexivity.
  - vm_compute. reflexivity.
  - set_solver.
Defined.
