(* ===== verification/Primes.v ===== *)
(** How many primes there are below a power of two, after Chebyshev: the binomial
    coefficient of [2 m] over [m] is at least [2 ^ m], its prime powers are at most
    [2 m], so that it takes many primes to make it up. *)
From Stdlib Require Import ZArith Znumtheory Lia.
From mathcomp Require Import boot.
Set Implicit Arguments.
Unset Strict Implicit.
Unset Printing Implicit Defensive.
Local Open Scope nat_scope.

Lemma central_lower m : 2 ^ m <= 'C(m.*2, m).
Proof.
  elim: m => [|m IH]; first by rewrite bin0.
  rewrite doubleS binS expnS mul2n -addnn; apply: leq_add; apply: leq_trans IH _.
  - by rewrite binS leq_addl.
  - case: m => [|m]; first by rewrite !bin0.
    by rewrite [X in _ <= X]binS leq_addr.
Qed.

(** The exponent of a prime in a central binomial coefficient, place by place. *)
Lemma double_div m d : 0 < d -> m.*2 %/ d <= (m %/ d).*2 + (d <= m.*2).
Proof.
  move=> d_gt0; case: (leqP d m.*2) => [_|lt_md]; last by rewrite divn_small.
  rewrite /= addn1 -ltnS ltn_divLR // -doubleS -doubleMl ltn_double.
  exact: ltn_ceil.
Qed.

Lemma logn_central p m : prime p -> 0 < m -> logn p 'C(m.*2, m) <= trunc_log p m.*2.
Proof.
  move=> p_pr m_gt0; have p_gt1 := prime_gt1 p_pr; have p_gt0 := prime_gt0 p_pr.
  have C_gt0 : 0 < 'C(m.*2, m) by rewrite bin_gt0 -addnn leq_addr.
  have le_m2 : m <= m.*2 by rewrite -addnn leq_addr.
  have := bin_fact le_m2; rewrite -{2}addnn addnK => /(congr1 (logn p)).
  rewrite lognM ?muln_gt0 ?fact_gt0 // lognM ?fact_gt0 // addnn.
  have -> : logn p m`! = \sum_(1 <= k < m.*2.+1) m %/ p ^ k.
    rewrite logn_fact // [RHS](big_cat_nat _ (n := m.+1)) //= [X in _ = _ + X]big_nat_cond.
    rewrite [X in _ = _ + X]big1 ?addn0 // => k /andP[/andP[lt_mk _] _].
    by apply: divn_small; apply: leq_trans lt_mk _; apply: ltnW; apply: ltn_expl.
  rewrite logn_fact // => E.
  have : \sum_(1 <= k < m.*2.+1) m.*2 %/ p ^ k <=
         (\sum_(1 <= k < m.*2.+1) m %/ p ^ k).*2 + \sum_(1 <= k < m.*2.+1) (p ^ k <= m.*2).
    rewrite -[X in _ <= X + _]mul2n big_distrr /= -big_split /=; apply: leq_sum => k _.
    by rewrite mul2n; apply: double_div; rewrite expn_gt0 p_gt0.
  rewrite -E addnC leq_add2l => /leq_trans; apply.
  have -> : \sum_(1 <= k < m.*2.+1) (p ^ k <= m.*2) = \sum_(1 <= k < m.*2.+1 | k <= trunc_log p m.*2) 1.
    rewrite [RHS]big_mkcond /=; apply: eq_bigr => k _.
    have -> : (p ^ k <= m.*2) = (k <= trunc_log p m.*2); last by case: (k <= _).
    apply/idP/idP; first exact: trunc_log_max.
    move=> le_k; apply: leq_trans (trunc_logP p_gt1 _); last by rewrite double_gt0.
    by rewrite leq_exp2l.
  rewrite sum1_count -size_filter; set s := filter _ _.
  have sub : {subset s <= index_iota 1 (trunc_log p m.*2).+1}.
    by move=> k; rewrite mem_filter !mem_index_iota ltnS => /andP[le_k /andP[-> _]].
  have : size s <= size (index_iota 1 (trunc_log p m.*2).+1).
    by apply: uniq_leq_size sub; rewrite filter_uniq // iota_uniq.
  by rewrite size_iota subn1.
Qed.

Lemma central_power p m : prime p -> 0 < m -> p ^ logn p 'C(m.*2, m) <= m.*2.
Proof.
  move=> p_pr m_gt0; apply: leq_trans (@trunc_logP p m.*2 (prime_gt1 p_pr) _); last by rewrite double_gt0.
  by rewrite leq_exp2l ?prime_gt1 // logn_central.
Qed.

Lemma central_upper m : 0 < m -> 'C(m.*2, m) <= m.*2 ^ size (primes 'C(m.*2, m)).
Proof.
  move=> m_gt0; have C_gt0 : 0 < 'C(m.*2, m) by rewrite bin_gt0 -addnn leq_addr.
  rewrite {1}(prod_prime_decomp C_gt0) prime_decompE big_map /=.
  have : all prime (primes 'C(m.*2, m)) by apply/allP => p; rewrite mem_primes => /and3P[].
  elim: (primes _) => [|p s IH] /=; first by rewrite big_nil.
  move=> /andP[p_pr /IH le_s]; rewrite big_cons expnS; apply: leq_mul => //; exact: central_power.
Qed.

Lemma primes_central p m : 0 < m -> p \in primes 'C(m.*2, m) -> p <= m.*2.
Proof.
  move=> m_gt0; rewrite mem_primes => /and3P[p_pr C_gt0 p_dvd].
  apply: leq_trans (central_power p_pr m_gt0); rewrite -{1}(expn1 p) leq_exp2l ?prime_gt1 //.
  by rewrite logn_gt0 mem_primes p_pr C_gt0.
Qed.

(** Below [2 ^ k] there are at least [2 ^ (k - 1) / k] primes. *)
Lemma primes_below k : exists s : seq nat,
  [/\ uniq s, all prime s, all (leq^~ (2 ^ k.+1)) s & 2 ^ k <= k.+1 * size s].
Proof.
  have m_gt0 : 0 < 2 ^ k by rewrite expn_gt0.
  exists (primes 'C((2 ^ k).*2, 2 ^ k)); split; first exact: primes_uniq.
  - by apply/allP => p; rewrite mem_primes => /and3P[].
  - by apply/allP => p /(primes_central m_gt0); rewrite -mul2n -expnS.
  - have := leq_trans (central_lower (2 ^ k)) (central_upper m_gt0).
    by set n := size _; rewrite -mul2n -expnS -expnM leq_exp2l.
Qed.

(** The same in the terms of the Standard Library. *)
Lemma nat_expn k : Z.of_nat (2 ^ k) = (2 ^ Z.of_nat k)%Z.
Proof. elim: k => [//|k IH]; rewrite expnS -multE Nat2Z.inj_mul IH (Nat2Z.inj_succ k) Z.pow_succ_r //; exact: Nat2Z.is_nonneg. Qed.

Lemma prime_Z p : prime p -> Znumtheory.prime (Z.of_nat p).
Proof.
  move=> p_pr; have /ltP p_gt1 := prime_gt1 p_pr; apply/prime_alt; split; first by lia.
  move=> d d_lt [q E].
  have /eqP d_dvd : Z.to_nat d %| p.
    apply/dvdnP; exists (Z.to_nat q); rewrite -multE -Z2Nat.inj_mul; lia.
  move/primeP: p_pr => [_ /(_ (Z.to_nat d))].
  have -> : Z.to_nat d %| p by apply/eqP.
  by move=> /(_ isT) /orP[] /eqP; lia.
Qed.

Lemma In_mem (p : nat) (s : seq nat) : List.In p s -> p \in s.
Proof. by elim: s => //= q s IH [->|/IH]; rewrite in_cons ?eqxx // => ->; rewrite orbT. Qed.

Lemma many_primes k : exists s : list nat, List.NoDup s /\
  (forall p, List.In p s -> Znumtheory.prime (Z.of_nat p) /\ (Z.of_nat p <= 2 ^ (Z.of_nat k + 1))%Z) /\
  (2 ^ Z.of_nat k <= (Z.of_nat k + 1) * Z.of_nat (length s))%Z.
Proof.
  have [s [s_uniq /allP s_prime /allP s_le s_size]] := primes_below k; exists s; split; last split.
  - elim: s s_uniq {s_prime s_le s_size} => [|p s IH] /=; first by constructor.
    by move=> /andP[/negP p_notin /IH]; constructor=> // /In_mem.
  - move=> p /In_mem p_in.
    split; first exact/prime_Z/s_prime.
    have /leP := s_le p p_in; have := nat_expn k.+1; rewrite Nat2Z.inj_succ /Z.succ /=; lia.
  - change (length s) with (size s); move/leP: s_size; rewrite -nat_expn -multE; move: (2 ^ k) (size s) => n l; nia.
Qed.
