(* ===== verification/Exs.v ===== *)
(** The exercises of [uw_cse333/exs]: the insertion sort of [ex1/ex1b.c], the primes of
    [ex4/GetPrime.c] and the vector of [ex5/vector.c] with its program [ex5.c].  An
    array is the list of its cells. *)
From Stdlib Require Import ZArith Lia.
From S2P Require Import Prelude Alloc.
Open Scope Z_scope.

Module Sort.

(** [while (j > 0 && dest[j - 1] > x)] *)
Fixpoint shift_loop (fuel : nat) (dest : list Z) (j x : Z) : res (list Z * Z) :=
  match fuel with
  | O => Err OutOfFuel
  | S fuel' =>
      if 0 <? j then
        let? d := cell dest (j - 1) in
        if x <? d then
          let? dest := set_cell dest j d in
          shift_loop fuel' dest (j - 1) x
        else Ok (dest, j)
      else Ok (dest, j)
  end.

(** [for (uint64_t i = 1; i < length; i++)]; the comparison is unsigned. *)
Fixpoint sort_loop (fuel inner : nat) (source dest : list Z) (i length : Z) : res (list Z) :=
  match fuel with
  | O => Err OutOfFuel
  | S fuel' =>
      if i <? u64 length then
        let? x := cell source i in
        let? (dest, j) := shift_loop inner dest i x in
        let? dest := set_cell dest j x in
        sort_loop fuel' inner source dest (u64 (i + 1)) length
      else Ok dest
  end.

Definition copyAndSort (fuel : nat) (source dest : list Z) (length : Z) : res (list Z) :=
  if length =? 0 then Ok dest
  else
    let? x := cell source 0 in
    let? dest := set_cell dest 0 x in
    sort_loop fuel fuel source dest 1 length.
End Sort.

Module Prime.

(** [while (start < val / 2)] *)
Fixpoint isPrime_loop (fuel : nat) (val start : Z) : res Z :=
  match fuel with
  | O => Err OutOfFuel
  | S fuel' =>
      if start <? val / 2 then
        if val mod start =? 0 then Ok 0 else isPrime_loop fuel' val (u64 (start + 1))
      else Ok 1
  end.
Definition isPrime (fuel : nat) (val : Z) : res Z := isPrime_loop fuel val 2.

(** [while (count != n)] *)
Fixpoint GetPrime_loop (fuel inner : nat) (n start count : Z) : res Z :=
  match fuel with
  | O => Err OutOfFuel
  | S fuel' =>
      if negb (count =? n) then
        let start := u64 (start + 1) in
        if (start mod 2 =? 0) && negb (start =? 2) then GetPrime_loop fuel' inner n start count
        else
          let? p := isPrime inner start in
          GetPrime_loop fuel' inner n start (if p =? 0 then count else s32 (count + 1))
      else Ok start
  end.
Definition GetPrime (fuel : nat) (n : Z) : res Z :=
  if n =? 0 then Ok 0 else GetPrime_loop fuel fuel n 1 0.
End Prime.

Module Vector.
Section vector.
(** What the elements point to; what a fresh array holds. *)
Context {E : Type} (junk : nat -> option E).

Record vector_t : Type := mk_vector { length : Z; array : list (option E) }.

Definition fresh (n : Z) : list (option E) := junk <$> seq 0 (Z.to_nat n).
Definition lift {A} (r : res A) : M mem A := fun m => match r with Ok a => Ok (a, m) | Err e => Err e end.

(** [for (i = i0; i < n; i++) dst[i] = src[i]] and [... = NULL], [n] rounds left. *)
Fixpoint copy_cells (n : nat) (i : Z) (src dst : list (option E)) : res (list (option E)) :=
  match n with
  | O => Ok dst
  | S n' =>
      let? x := cell src i in
      let? dst := set_cell dst i x in
      copy_cells n' (i + 1) src dst
  end.
Fixpoint clear_cells (n : nat) (i : Z) (dst : list (option E)) : res (list (option E)) :=
  match n with
  | O => Ok dst
  | S n' =>
      let? dst := set_cell dst i None in
      clear_cells n' (i + 1) dst
  end.

Definition ResizeArray (arr : list (option E)) (oldLen newLen : Z) : M mem (option (list (option E))) :=
  let* p := alloc in
  match p with
  | None => ret None
  | Some _ =>
      let* a := lift (copy_cells (Z.to_nat oldLen) 0 arr (fresh newLen)) in
      let* a := lift (clear_cells (Z.to_nat (newLen - oldLen)) oldLen a) in
      ret (Some a)
  end.

Definition VectorCreate (n : Z) : M mem (option vector_t) :=
  if n =? 0 then ret None
  else
    let* vec := alloc in
    match vec with
    | None => ret None
    | Some _ =>
        let* arr := alloc in
        match arr with
        | None => do* release 1; ret None
        | Some _ =>
            let* a := lift (clear_cells (Z.to_nat n) 0 (fresh n)) in
            ret (Some (mk_vector n a))
        end
    end.

(** The array and the record. *)
Definition VectorFree (v : option vector_t) : M mem unit :=
  do* ensure AssertFailed (bool_decide (is_Some v));
  do* release 1;
  release 1.

(** The result, the vector, and what is stored in [*prev] if anything is. *)
Definition VectorSet (v : option vector_t) (index : Z) (e : option E) : M mem (bool * option vector_t * option (option E)) :=
  match v with
  | None => ret (false, None, None)
  | Some v =>
      if length v <=? index then
        let newLength := u32 (index + 1) in
        let* newArray := ResizeArray (array v) (length v) newLength in
        match newArray with
        | None => ret (false, Some v, None)
        | Some a =>
            do* release 1;
            let* a := lift (set_cell a index e) in
            ret (true, Some (mk_vector newLength a), None)
        end
      else
        let* old := lift (cell (array v) index) in
        let* a := lift (set_cell (array v) index e) in
        ret (true, Some (mk_vector (length v) a), Some old)
  end.

Definition VectorGet (v : option vector_t) (index : Z) : M mem (option E) :=
  match v with
  | None => ret None
  | Some v => if length v <=? index then ret None else lift (cell (array v) index)
  end.

Definition VectorLength (v : option vector_t) : M mem Z :=
  match v with None => ret (u64 (-1)) | Some v => ret (length v) end.
End vector.
Arguments vector_t E : clear implicits.

(** [ex5.c] *)
Section ex5.
Context (junk : nat -> option Z).
Definition INIT_VEC_SIZE : Z := 4.
Definition FINAL_VEC_SIZE : nat := 10.
Definition EXIT_SUCCESS : Z := 0.
Definition EXIT_FAILURE : Z := 1.

(** [n] numbers left to store, from [i] on; [None] when the program exits. *)
Fixpoint fill (n : nat) (i : Z) (v : option (vector_t Z)) : M mem (option (option (vector_t Z))) :=
  match n with
  | O => ret (Some v)
  | S n' =>
      let* x := alloc in
      match x with
      | None => ret None
      | Some _ =>
          let* (ok, v, _) := VectorSet junk v i (Some i) in
          if negb ok then ret None else fill n' (i + 1) v
      end
  end.

(** The numbers printed. *)
Fixpoint print_from (n : nat) (i : Z) (v : option (vector_t Z)) : M mem (list Z) :=
  match n with
  | O => ret []
  | S n' =>
      let* p := VectorGet v i in
      let* x := get_or BadAccess p in
      let* xs := print_from n' (i + 1) v in
      ret (x :: xs)
  end.
Definition PrintIntVector (v : option (vector_t Z)) : M mem (list Z) :=
  do* ensure AssertFailed (bool_decide (is_Some v));
  let* n := VectorLength v in
  print_from (Z.to_nat n) 0 v.

(** [for (...) free(VectorGet(v, i))]; [free(NULL)] does nothing. *)
Fixpoint free_from (n : nat) (i : Z) (v : option (vector_t Z)) : M mem unit :=
  match n with
  | O => ret tt
  | S n' =>
      let* p := VectorGet v i in
      do* (if p then release 1 else ret tt);
      free_from n' (i + 1) v
  end.

Definition ex5_main : M mem (Z * list Z) :=
  let* v := VectorCreate junk INIT_VEC_SIZE in
  match v with
  | None => ret (EXIT_FAILURE, [])
  | Some _ =>
      let* filled := fill FINAL_VEC_SIZE 0 v in
      match filled with
      | None => ret (EXIT_FAILURE, [])
      | Some v =>
          let* out := PrintIntVector v in
          let* n := VectorLength v in
          do* free_from (Z.to_nat n) 0 v;
          do* VectorFree v;
          ret (EXIT_SUCCESS, out)
      end
  end.
End ex5.
End Vector.
