(* ===== verification/ExsSpec.v ===== *)
(** What the exercises of [Exs] compute. *)
From Stdlib Require Import ZArith Znumtheory Lia.
From S2P Require Import Prelude Alloc Exs Primes.
Open Scope Z_scope.

(** ** The insertion sort *)

Module SortSpec.
Import Sort.

Lemma shift_run ys : forall fuel z rest x, (length ys < fuel)%nat ->
  exists ys1 ys2 z', ys = ys1 ++ ys2 /\ Forall (fun y => x < y) ys2 /\ (forall y, last ys1 = Some y -> y <= x) /\
    shift_loop fuel (ys ++ z :: rest) (Z.of_nat (length ys)) x = Ok (ys1 ++ z' :: ys2 ++ rest, Z.of_nat (length ys1)).
Proof.
  induction ys as [|y ys IH] using rev_ind; intros [|fuel] z rest x Hf; try (cbn in Hf; lia); cbn [shift_loop].
  - exists [], [], z. by repeat split.
  - rewrite length_app in *. cbn [length] in *. destruct (Z.ltb_spec 0 (Z.of_nat (length ys + 1))); [|lia].
    replace (Z.of_nat (length ys + 1) - 1) with (Z.of_nat (length ys)) by lia. rewrite <- app_assoc. cbn [app].
    rewrite cell_middle. cbn [rbind]. destruct (Z.ltb_spec x y).
    + replace (ys ++ y :: z :: rest) with ((ys ++ [y]) ++ z :: rest) by (by rewrite <- app_assoc).
      replace (Z.of_nat (length ys + 1)) with (Z.of_nat (length (ys ++ [y]))) by (rewrite length_app; cbn [length]; lia).
      rewrite set_cell_middle. cbn [rbind]. rewrite <- app_assoc. cbn [app].
      destruct (IH fuel y (y :: rest) x) as (ys1 & ys2 & z' & -> & H2 & H1 & E); [lia|].
      exists ys1, (ys2 ++ [y]), z'. rewrite E, <- !app_assoc. split; [done|]. split; [|done].
      apply Forall_app. by split; [|constructor].
    + exists (ys ++ [y]), [], z. rewrite app_nil_r, length_app. cbn [length app]. split; [done|]. split; [constructor|].
      split; [|by rewrite <- app_assoc]. intros y'. rewrite last_snoc. by intros [= <-].
Qed.

Lemma sort_loop_run todo : forall fuel inner done sorted rest length0,
  length0 = Z.of_nat (length done + length todo) -> length0 < 2 ^ 31 -> length sorted = length done -> length rest = length todo ->
  (length todo < fuel)%nat -> (length done + length todo < inner)%nat -> StronglySorted Z.le sorted -> sorted ≡ₚ done ->
  exists out, sort_loop fuel inner (done ++ todo) (sorted ++ rest) (Z.of_nat (length done)) length0 = Ok out /\
    StronglySorted Z.le out /\ out ≡ₚ done ++ todo.
Proof.
  induction todo as [|x todo IH]; intros [|fuel] inner done sorted rest n -> Hn Hls Hlr Hf Hi Hs Hp; try (cbn in Hf; lia); cbn [sort_loop].
  - rewrite wrapu_small by (cbn [length] in *; bound_lia). destruct (Z.ltb_spec (Z.of_nat (length done)) (Z.of_nat (length done + length (@nil Z)))); [cbn in *; lia|].
    destruct rest; [|done]. rewrite !app_nil_r. by exists sorted.
  - cbn [length] in *. rewrite wrapu_small by bound_lia.
    destruct (Z.ltb_spec (Z.of_nat (length done)) (Z.of_nat (length done + S (length todo)))); [|lia].
    rewrite cell_middle. cbn [rbind]. destruct rest as [|z rest]; [done|]. cbn [length] in Hlr. rewrite <- Hls.
    destruct (shift_run sorted inner z rest x) as (ys1 & ys2 & z' & Ez & H2 & H1 & E); [lia|].
    rewrite E. cbn [rbind]. rewrite set_cell_middle. cbn [rbind]. rewrite wrapu_small by bound_lia.
    rewrite Hls. replace (Z.of_nat (length done) + 1) with (Z.of_nat (length (done ++ [x]))) by (rewrite length_app; cbn [length]; lia).
    replace (done ++ x :: todo) with ((done ++ [x]) ++ todo) by (by rewrite <- app_assoc).
    replace (ys1 ++ x :: ys2 ++ rest) with ((ys1 ++ x :: ys2) ++ rest) by (by rewrite <- app_assoc).
    apply IH.
    + rewrite length_app. cbn [length]. lia.
    + lia.
    + rewrite !length_app. cbn [length]. rewrite Ez, !length_app in Hls. lia.
    + lia.
    + lia.
    + rewrite length_app. cbn [length]. lia.
    + apply sorted_insert; [apply _|by rewrite <- Ez|eapply Forall_impl; [exact H2|cbn; lia]|done].
    + rewrite <- Permutation_middle, <- Ez, Hp. by rewrite <- Permutation_cons_append.
Qed.

(** [copyAndSort] fills [dest] with the numbers of [source] in increasing order,
    whatever [dest] held, and reads and writes only their cells. *)
Theorem copyAndSort_sorts fuel source dest (Hlen : length dest = length source) (Hint : Z.of_nat (length source) < 2 ^ 31)
    (Hfuel : (length source < fuel)%nat) :
  exists out, copyAndSort fuel source dest (Z.of_nat (length source)) = Ok out /\ StronglySorted Z.le out /\ out ≡ₚ source.
Proof.
  unfold copyAndSort. destruct source as [|x source], dest as [|d dest]; try done.
  - exists []. split; [done|]. by split; [constructor|].
  - destruct (Z.eqb_spec (Z.of_nat (length (x :: source))) 0); [cbn in *; lia|].
    pose proof (cell_middle [] source x) as E1. pose proof (set_cell_middle [] dest d x) as E2.
    cbn [app length] in E1, E2. change (Z.of_nat 0) with 0 in *. rewrite E1. cbn [rbind]. rewrite E2. cbn [rbind].
    apply (sort_loop_run source fuel fuel [x] [x] dest); cbn [length] in *; try lia; [by repeat constructor|done].
Qed.

Lemma copyAndSort_sorts_witness : exists out,
  copyAndSort 12 [3; 2; 5; 7; 10; 4; 1; 7; 9; 8; 6] (replicate 11 0) 11 = Ok out /\ StronglySorted Z.le out /\
  out ≡ₚ [3; 2; 5; 7; 10; 4; 1; 7; 9; 8; 6].
Proof. apply (copyAndSort_sorts 12 [3; 2; 5; 7; 10; 4; 1; 7; 9; 8; 6] (replicate 11 0)); cbn; [done|lia|lia]. Defined.
End SortSpec.

(** ** The primes *)

Module PrimeSpec.
Import Prime.

#[export] Instance prime_decision p : Decision (prime p).
Proof. destruct (prime_dec p); [by left|by right]. Defined.

(** How many primes are at most [p]. *)
Definition primes_upto (p : Z) : Z := Z.of_nat (length (filter (fun q => prime q) (seqZ 2 (p - 1)))).

Lemma primes_upto_succ p : 1 <= p -> primes_upto (p + 1) = primes_upto p + (if decide (prime (p + 1)) then 1 else 0).
Proof.
  intros Hp. unfold primes_upto. replace (p + 1 - 1) with (p - 1 + 1) by lia. rewrite seqZ_app by lia.
  rewrite filter_app, length_app. replace (2 + (p - 1)) with (p + 1) by lia. rewrite (seqZ_cons (p + 1) 1), (seqZ_nil _ (Z.pred 1)) by lia.
  destruct (decide (prime (p + 1))); [rewrite filter_cons_True by done|rewrite filter_cons_False by done]; rewrite filter_nil; cbn [length]; lia.
Qed.

Lemma primes_upto_bound : 65535 < primes_upto (2 ^ 25).
Proof.
  destruct (many_primes 24) as (s & Hs & Hp & Hc). change (Z.of_nat 24) with 24 in *.
  assert (length s <= length (filter (fun q => prime q) (seqZ 2 (2 ^ 25 - 1))))%nat as Hl.
  { rewrite <- (length_fmap Z.of_nat s). apply submseteq_length, NoDup_submseteq.
    - apply NoDup_fmap_2; [intros ??; apply Nat2Z.inj|by apply NoDup_ListNoDup].
    - intros q Hq. apply list_elem_of_fmap in Hq as (m & -> & Hm). apply list_elem_of_In, Hp in Hm as [Hm Hb].
      apply list_elem_of_filter. split; [done|]. apply elem_of_seqZ. pose proof (prime_ge_2 _ Hm).
      change (24 + 1) with 25 in Hb. lia. }
  unfold primes_upto. change (24 + 1) with 25 in Hc. change (2 ^ 24) with 16777216 in Hc. lia.
Qed.

Lemma isPrime_loop_run val : val < 2 ^ 64 -> forall fuel start, 2 <= start -> val / 2 - start < Z.of_nat fuel -> (0 < fuel)%nat ->
  exists b, isPrime_loop fuel val start = Ok (b2z b) /\ (b = true <-> forall d, start <= d < val / 2 -> val mod d <> 0).
Proof.
  intros Hv. assert (val / 2 <= 2 ^ 63) by (apply Z.div_le_upper_bound; bound_lia).
  induction fuel as [|fuel IH]; intros start Hs Hf Hp; [lia|]. cbn [isPrime_loop].
  destruct (Z.ltb_spec start (val / 2)).
  - destruct (Z.eqb_spec (val mod start) 0) as [E|E].
    + exists false. split; [done|]. split; [done|]. intros H'. by destruct (H' start); [lia|].
    + rewrite wrapu_small by bound_lia. destruct (IH (start + 1)) as (b & -> & Hb); [lia..|]. exists b. split; [done|].
      rewrite Hb. split; intros H' d Hd; [destruct (decide (d = start)) as [->|]; [done|]|]; apply H'; lia.
  - exists true. split; [done|]. split; [intros _ d; lia|done].
Qed.

(** Trial division up to half of an odd number. *)
Lemma odd_prime val : 3 <= val -> val mod 2 <> 0 -> (forall d, 2 <= d < val / 2 -> val mod d <> 0) -> prime val.
Proof.
  intros Hv Ho Hd. apply prime_alt. split; [lia|]. intros d Hd1 [c Hc].
  assert (Hd2 : d <> 2) by (intros ->; apply Ho; rewrite Hc; apply Z.mod_mul; lia).
  assert (Hc2 : c <> 2) by (intros ->; apply Ho; rewrite Hc, Z.mul_comm; apply Z.mod_mul; lia).
  assert (1 < c) by nia.
  apply (Hd d); [|rewrite Hc; apply Z.mod_mul; lia]. split; [lia|].
  enough (d + 1 <= val / 2) by lia. apply Z.div_le_lower_bound; nia.
Qed.

Lemma isPrime_ok fuel val : val = 2 \/ 3 <= val /\ val mod 2 <> 0 -> val < 2 ^ 64 -> val / 2 <= Z.of_nat fuel ->
  isPrime fuel val = Ok (if decide (prime val) then 1 else 0).
Proof.
  intros Hv Hw Hf. assert (1 <= val / 2) by (apply Z.div_le_lower_bound; lia).
  destruct (isPrime_loop_run val Hw fuel 2) as (b & E & Hb); [lia..|]. unfold isPrime. rewrite E.
  destruct (decide (prime val)) as [Hp|Hp]; destruct b; try done; exfalso.
  - enough (false = true) by done. apply Hb. intros d Hd Em. apply prime_alt in Hp as [_ Hp]. apply (Hp d).
    + split; [lia|]. enough (val / 2 < val) by lia. apply Z.div_lt; lia.
    + apply Z.mod_divide; [lia|done].
  - apply Hp. destruct Hv as [->|[H3 H2]]; [apply prime_2|]. apply odd_prime; [done..|]. by apply Hb.
Qed.

Lemma even_not_prime p : p mod 2 = 0 -> p <> 2 -> ~ prime p.
Proof. intros E H2 Hp. apply Z.mod_divide in E; [|lia]. apply prime_div_prime in E; [lia|apply prime_2|done]. Qed.

Lemma GetPrime_loop_run n inner : 0 < n < 2 ^ 16 -> 2 ^ 24 <= Z.of_nat inner ->
  forall fuel start, 1 <= start <= 2 ^ 25 -> 2 ^ 25 - start < Z.of_nat fuel -> primes_upto start <= n ->
    (primes_upto start = n -> prime start) ->
  exists p, GetPrime_loop fuel inner n start (primes_upto start) = Ok p /\ prime p /\ primes_upto p = n.
Proof.
  intros Hn Hi. induction fuel as [|fuel IH]; intros start Hs Hf Hc Hp; [lia|]. cbn [GetPrime_loop].
  destruct (Z.eqb_spec (primes_upto start) n) as [E|E]; cbn [negb].
  { exists start. auto. }
  assert (start <> 2 ^ 25) by (intros ->; pose proof primes_upto_bound; bound_lia).
  rewrite wrapu_small by bound_lia. pose proof (primes_upto_succ start ltac:(lia)) as Es. assert (0 <= primes_upto start) by (unfold primes_upto; lia).
  destruct (Z.eqb_spec ((start + 1) mod 2) 0) as [Em|Em], (Z.eqb_spec (start + 1) 2) as [E2|E2]; cbn [andb negb].
  2: { rewrite decide_False in Es by (by apply even_not_prime). rewrite Z.add_0_r in Es. rewrite <- Es.
       apply IH; rewrite ?Es; bound_lia. }
  all: rewrite isPrime_ok by (try apply Z.div_le_upper_bound; bound_lia || (rewrite E2; auto) || (right; split; [lia|done])); cbn [rbind].
  all: destruct (decide (prime (start + 1))); cbn [Z.eqb];
    [rewrite wraps_small by bound_lia|]; rewrite ?Z.add_0_r in Es; rewrite <- Es;
    apply IH; rewrite ?Es; (bound_lia || done || (intros; lia)).
Qed.

(** [GetPrime(n)] is the [n]-th prime for every [n] an [uint16_t] can hold, and the
    search ends: Chebyshev's bound puts 65,535 primes below 2^25. *)
Theorem GetPrime_nth fuel n (Hn : 0 < n < 2 ^ 16) (Hfuel : 2 ^ 25 <= Z.of_nat fuel) :
  exists p, GetPrime fuel n = Ok p /\ prime p /\ primes_upto p = n.
Proof.
  unfold GetPrime. destruct (Z.eqb_spec n 0); [lia|]. change 0 with (primes_upto 1) at 1.
  apply GetPrime_loop_run; try bound_lia; change (primes_upto 1) with 0; lia.
Qed.

Lemma GetPrime_nth_witness : exists p,
  GetPrime (Z.to_nat (2 ^ 25)) 65535 = Ok p /\ prime p /\ primes_upto p = 65535.
Proof. apply (GetPrime_nth (Z.to_nat (2 ^ 25)) 65535); [lia|]. rewrite Z2Nat.id; lia. Defined.

Example GetPrime_tenth : GetPrime 40 10 = Ok 29.
Proof. vm_compute. reflexivity. Qed.

(** Trial division stops before half of the number: 4 passes as a prime. *)
Example isPrime_four : isPrime 10 4 = Ok 1 /\ ~ prime 4.
Proof. split; [by vm_compute|by apply even_not_prime]. Qed.
End PrimeSpec.

(** ** The vector *)

Module VectorSpec.
Import Vector.
Section vector.
Context {E : Type} (junk : nat -> option E).
Implicit Types (a src dst rest : list (option E)) (v : vector_t E) (m : mem).

(** The record's length is the number of cells of its array. *)
Definition vector_ok v : Prop := length v = Z.of_nat (base.length (array v)).

Lemma copy_cells_run src dst : (base.length src <= base.length dst)%nat ->
  copy_cells (base.length src) 0 src dst = Ok (src ++ drop (base.length src) dst).
Proof.
  enough (H : forall todo pre rest, (base.length todo <= base.length rest)%nat ->
    copy_cells (base.length todo) (Z.of_nat (base.length pre)) (pre ++ todo) (pre ++ rest) =
      Ok (pre ++ todo ++ drop (base.length todo) rest)) by apply (H src [] dst).
  clear src dst. induction todo as [|x todo IH]; intros pre rest Hl; cbn [copy_cells base.length drop app]; [done|].
  destruct rest as [|y rest]; cbn [base.length] in Hl; [lia|]. rewrite cell_middle. cbn [rbind]. rewrite set_cell_middle. cbn [rbind].
  specialize (IH (pre ++ [x]) rest ltac:(lia)). rewrite length_app, <- !app_assoc in IH. cbn [app base.length] in IH.
  by replace (Z.of_nat (base.length pre) + 1) with (Z.of_nat (base.length pre + 1)) by lia.
Qed.

Lemma clear_cells_run rest : forall a, clear_cells (base.length rest) (Z.of_nat (base.length a)) (a ++ rest) =
  Ok (a ++ replicate (base.length rest) None).
Proof.
  induction rest as [|y rest IH]; intros a; cbn [clear_cells base.length replicate]; [done|].
  rewrite set_cell_middle. cbn [rbind]. specialize (IH (a ++ [None])). rewrite length_app, <- !app_assoc in IH. cbn [app base.length] in IH.
  by replace (Z.of_nat (base.length a) + 1) with (Z.of_nat (base.length a + 1)) by lia.
Qed.

Lemma fresh_length n : base.length (fresh junk n) = Z.to_nat n.
Proof. unfold fresh. by rewrite length_fmap, length_seq. Qed.

(** A longer array has the old cells and [NULL] after them. *)
Lemma ResizeArray_run a newLen m : Z.of_nat (base.length a) <= newLen ->
  ResizeArray junk a (Z.of_nat (base.length a)) newLen m =
    let? (p, m') := alloc m in
    Ok (match p with
        | Some _ => Some (a ++ replicate (Z.to_nat newLen - base.length a) None)
        | None => None
        end, m').
Proof.
  intros Hl. unfold ResizeArray, bind. destruct (alloc m) as [[[p|] m']|]; cbn [rbind]; [|done..].
  unfold lift. rewrite Nat2Z.id, copy_cells_run by (rewrite fresh_length; lia).
  set (rest := drop (base.length a) (fresh junk newLen)).
  assert (base.length rest = Z.to_nat newLen - base.length a)%nat as Hr by (unfold rest; rewrite length_drop, fresh_length; lia).
  replace (Z.to_nat (newLen - Z.of_nat (base.length a))) with (base.length rest) by lia. by rewrite clear_cells_run, Hr.
Qed.

(** What [VectorGet] finds at [j]. *)
Definition at_ v (j : Z) : option E := if j <? length v then default None (array v !! Z.to_nat j) else None.

Lemma VectorGet_run v j m : vector_ok v -> 0 <= j -> VectorGet (Some v) j m = Ok (at_ v j, m).
Proof.
  intros Hv Hj. unfold VectorGet, at_, vector_ok in *. destruct (Z.leb_spec (length v) j), (Z.ltb_spec j (length v)); try lia; [done|].
  unfold lift. destruct (lookup_lt_is_Some_2 (array v) (Z.to_nat j)) as [x E0]; [lia|]. by rewrite (cell_at _ _ x), E0.
Qed.

(** The vector after [VectorSet] has succeeded. *)
Definition put v (i : Z) (e : option E) : vector_t E :=
  mk_vector (Z.max (length v) (i + 1))
    (<[Z.to_nat i := e]> (array v ++ replicate (Z.to_nat (i + 1 - length v)) None)).

Lemma put_ok v i e : vector_ok v -> 0 <= i -> vector_ok (put v i e).
Proof. unfold vector_ok, put. intros Hv Hi. cbn [length array]. rewrite length_insert, length_app, length_replicate. lia. Qed.

Lemma put_get v i e j : vector_ok v -> 0 <= i -> 0 <= j -> at_ (put v i e) j = if j =? i then e else at_ v j.
Proof.
  unfold vector_ok, put, at_. intros Hv Hi Hj. cbn [length array].
  destruct (Z.eqb_spec j i) as [->|Hne].
  - destruct (Z.ltb_spec i (Z.max (length v) (i + 1))); [|lia].
    rewrite list_lookup_insert_eq by (rewrite length_app, length_replicate; lia). done.
  - rewrite list_lookup_insert_ne by lia. destruct (Z.ltb_spec j (length v)).
    + destruct (Z.ltb_spec j (Z.max (length v) (i + 1))); [|lia]. by rewrite lookup_app_l by lia.
    + destruct (Z.ltb_spec j (Z.max (length v) (i + 1))); [|done]. rewrite lookup_app_r by lia.
      by rewrite lookup_replicate_2 by lia.
Qed.

Lemma VectorSet_in v i e m : vector_ok v -> 0 <= i < length v ->
  VectorSet junk (Some v) i e m = Ok ((true, Some (put v i e), Some (at_ v i)), m).
Proof.
  unfold vector_ok. intros Hv Hi. unfold VectorSet, put, at_. destruct (Z.leb_spec (length v) i), (Z.ltb_spec i (length v)); try lia.
  destruct (lookup_lt_is_Some_2 (array v) (Z.to_nat i)) as [x E0]; [lia|]. unfold bind, lift.
  rewrite (cell_at _ _ x), set_cell_at by (done || lia). rewrite E0. unfold ret. repeat f_equal; [lia|].
  replace (Z.to_nat (i + 1 - length v)) with O by lia. by rewrite app_nil_r.
Qed.

Lemma VectorSet_grow v i e m : vector_ok v -> length v <= i < 2 ^ 32 - 1 ->
  VectorSet junk (Some v) i e m =
    if fails m (mallocs m) then Ok ((false, Some v, None), mkMem (next_id m) (fails m) (S (mallocs m)) (live m))
    else Ok ((true, Some (put v i e), None), mkMem (Pos.succ (next_id m)) (fails m) (S (mallocs m)) (live m)).
Proof.
  unfold vector_ok. intros Hv Hi. unfold VectorSet, put. destruct (Z.leb_spec (length v) i); [|lia].
  rewrite wrapu_small by bound_lia. unfold bind. rewrite Hv, ResizeArray_run by lia.
  unfold alloc. destruct (fails m (mallocs m)); cbn [rbind]; [done|]. unfold release, lift, ret. cbn [next_id fails mallocs live].
  rewrite set_cell_at by (rewrite length_app, length_replicate; lia).
  repeat f_equal; lia.
Qed.

(** [VectorSet] either stores the element - then [VectorGet] finds it at its index and
    finds at every other index what it found before, [NULL] past the old end - or fails
    because [malloc] did and leaves the vector as it was.  The old element is handed
    back exactly when the index was in range; no block is lost. *)
Theorem VectorSet_spec v i e m (Hv : vector_ok v) (Hi : 0 <= i < 2 ^ 32 - 1) :
  exists ok v' prev m', VectorSet junk (Some v) i e m = Ok ((ok, Some v', prev), m') /\ vector_ok v' /\ live m' = live m /\
    (ok = false <-> length v <= i /\ fails m (mallocs m) = true) /\
    prev = (if i <? length v then Some (at_ v i) else None) /\
    forall j, 0 <= j -> VectorGet (Some v') j m' = Ok (if ok && (j =? i) then e else at_ v j, m').
Proof.
  destruct (Z.ltb_spec i (length v)) as [Hin|Hout].
  - exists true, (put v i e), (Some (at_ v i)), m. rewrite VectorSet_in by (done || lia).
    repeat split; try (done || lia); [apply put_ok; (done || lia)|].
    intros j Hj. rewrite VectorGet_run, put_get by (try apply put_ok; done || lia). done.
  - rewrite VectorSet_grow by (done || lia). destruct (fails m (mallocs m)) eqn:Ef.
    + eexists false, v, None, _. do 4 (split; [done|]). split; [done|]. intros j Hj. by rewrite VectorGet_run.
    + eexists true, (put v i e), None, _. split; [done|]. split; [apply put_ok; (done || lia)|]. split; [done|].
      split; [split; [done|by intros [??]]|]. split; [done|].
      intros j Hj. rewrite VectorGet_run, put_get by (try apply put_ok; done || lia). done.
Qed.

Lemma VectorCreate_run n m : 0 < n -> plentiful m -> exists m',
  VectorCreate junk n m = Ok (Some (mk_vector n (replicate (Z.to_nat n) None)), m') /\ later m m' 2.
Proof.
  intros Hn Hp. unfold VectorCreate. destruct (Z.eqb_spec n 0); [lia|].
  destruct (alloc_ok m Hp) as (m1 & E1 & L1 & _). step E1.
  destruct (alloc_ok m1 (later_plentiful _ _ _ L1 Hp)) as (m2 & E2 & L2 & _). step E2.
  exists m2. split; [|exact (later_trans _ _ _ _ _ _ L1 L2 eq_refl)].
  unfold bind, lift. pose proof (clear_cells_run (fresh junk n) []) as H. rewrite fresh_length in H. cbn [app base.length] in H.
  by change (Z.of_nat 0) with 0 in H; rewrite H.
Qed.
End vector.

Lemma VectorSet_spec_witness : exists ok v' prev m',
  VectorSet (fun _ => Some 9) (Some (mk_vector 2 [Some 5; None])) 3 (Some 7) (mkMem 1 (fun _ => false) 0 2) = Ok ((ok, Some v', prev), m') /\
  vector_ok v' /\ live m' = 2 /\ (ok = false <-> 2 <= 3 /\ false = true) /\ prev = None /\
  forall j, 0 <= j -> VectorGet (Some v') j m' = Ok (if ok && (j =? 3) then Some 7 else at_ (mk_vector 2 [Some 5; None]) j, m').
Proof. apply (VectorSet_spec (fun _ => Some 9) (mk_vector 2 [Some 5; None]) 3 (Some 7) (mkMem 1 (fun _ => false) 0 2)); [done|lia]. Defined.

(** The largest index: [index + 1] is 0 in 32 bits, the new array has no cells, and the
    copy of the old ones writes outside it. *)
Example largest_index_wraps :
  VectorSet (fun _ => None) (Some (mk_vector 2 [Some 5; None])) (2 ^ 32 - 1) (Some 7) (mkMem 1 (fun _ => false) 0 2) = Err BadAccess.
Proof. vm_compute. reflexivity. Qed.

(** *** The program *)

Section ex5.
Context (junk : nat -> option Z).

(** Four cells at first, [i] of them filled. *)
Definition filled (i : nat) : vector_t Z :=
  mk_vector (Z.max 4 (Z.of_nat i)) ((Some <$> seqZ 0 (Z.of_nat i)) ++ replicate (4 - i) None).

Lemma filled_ok i : vector_ok (filled i).
Proof. unfold vector_ok, filled. cbn [length array]. rewrite length_app, length_fmap, length_seqZ, length_replicate. lia. Qed.

Lemma filled_put i : put (filled i) (Z.of_nat i) (Some (Z.of_nat i)) = filled (S i).
Proof.
  unfold put, filled. cbn [length array]. f_equal; [lia|]. rewrite <- app_assoc, Nat2Z.id.
  rewrite insert_app_r_alt by (rewrite length_fmap, length_seqZ; lia). rewrite length_fmap, length_seqZ, Nat2Z.id, Nat.sub_diag, <- replicate_add.
  replace (4 - i + Z.to_nat (Z.of_nat i + 1 - Z.max 4 (Z.of_nat i)))%nat with (S (4 - S i)) by lia.
  rewrite (seqZ_S 0 i), fmap_app, <- app_assoc. done.
Qed.

Lemma VectorSet_filled i m : Z.of_nat i < 2 ^ 32 - 1 -> plentiful m -> exists m' prev,
  VectorSet junk (Some (filled i)) (Z.of_nat i) (Some (Z.of_nat i)) m = Ok ((true, Some (filled (S i)), prev), m') /\ later m m' 0.
Proof.
  intros Hi Hp. rewrite <- filled_put. destruct (Z.ltb_spec (Z.of_nat i) (length (filled i))).
  - rewrite VectorSet_in by (apply filled_ok || lia). eauto.
  - rewrite VectorSet_grow by (apply filled_ok || lia). rewrite Hp. do 2 eexists. split; [done|]. split; cbn; (done || lia).
Qed.

Lemma fill_vector_run n : forall i m, Z.of_nat (i + n) < 2 ^ 32 - 1 -> plentiful m -> exists m',
  fill junk n (Z.of_nat i) (Some (filled i)) m = Ok (Some (Some (filled (i + n))), m') /\ later m m' (Z.of_nat n).
Proof.
  induction n as [|n IH]; intros i m Hi Hp; cbn [fill].
  - rewrite Nat.add_0_r. eauto.
  - destruct (alloc_ok m Hp) as (m1 & E1 & L1 & _). step E1.
    assert (Hp1 : plentiful m1) by exact (later_plentiful _ _ _ L1 Hp).
    destruct (VectorSet_filled i m1) as (m2 & prev & E2 & L2); [lia|done|]. step E2. cbn [negb].
    replace (Z.of_nat i + 1) with (Z.of_nat (S i)) by lia.
    destruct (IH (S i) m2) as (m3 & E3 & L3); [lia|exact (later_plentiful _ _ _ L2 Hp1)|].
    exists m3. rewrite E3. split; [by replace (S i + n)%nat with (i + S n)%nat by lia|].
    apply (later_trans m m1 m3 1 (Z.of_nat n)); [done| |lia]. by apply (later_trans m1 m2 m3 0 (Z.of_nat n)); [..|lia].
Qed.

Lemma filled_at n i : (4 <= n)%nat -> (i < n)%nat -> at_ (filled n) (Z.of_nat i) = Some (Z.of_nat i).
Proof.
  intros Hn Hi. unfold at_, filled. cbn [length array]. destruct (Z.ltb_spec (Z.of_nat i) (Z.max 4 (Z.of_nat n))); [|lia].
  rewrite lookup_app_l by (rewrite length_fmap, length_seqZ; lia). rewrite Nat2Z.id, list_lookup_fmap.
  rewrite lookup_seqZ_lt by lia. done.
Qed.

Lemma print_from_run n m k : forall i, (4 <= n)%nat -> (i + k = n)%nat ->
  print_from k (Z.of_nat i) (Some (filled n)) m = Ok (seqZ (Z.of_nat i) (Z.of_nat k), m).
Proof.
  induction k as [|k IH]; intros i Hn Hk; cbn [print_from]; [done|].
  rewrite (bind_ok _ _ _ _ _ (VectorGet_run _ (Z.of_nat i) m (filled_ok n) ltac:(lia))). rewrite filled_at by lia.
  unfold get_or. rewrite bind_ret. replace (Z.of_nat i + 1) with (Z.of_nat (S i)) by lia.
  rewrite (bind_ok _ _ _ _ _ (IH (S i) Hn ltac:(lia))). unfold ret. rewrite (seqZ_cons (Z.of_nat i)) by lia. repeat f_equal; lia.
Qed.

Lemma free_from_run n k : forall i m, (4 <= n)%nat -> (i + k = n)%nat ->
  exists m', free_from k (Z.of_nat i) (Some (filled n)) m = Ok (tt, m') /\ later m m' (- Z.of_nat k).
Proof.
  induction k as [|k IH]; intros i m Hn Hk; cbn [free_from]; [eauto|].
  rewrite (bind_ok _ _ _ _ _ (VectorGet_run _ (Z.of_nat i) m (filled_ok n) ltac:(lia))). rewrite filled_at by lia.
  destruct (release_ok 1 m) as (m1 & E1 & L1). step E1. replace (Z.of_nat i + 1) with (Z.of_nat (S i)) by lia.
  destruct (IH (S i) m1) as (m2 & E2 & L2); [done|lia|]. exists m2. split; [done|]. apply (later_trans _ _ _ _ _ _ L1 L2). lia.
Qed.

(** When [malloc] does not fail the program prints the numbers it stored, returns
    [EXIT_SUCCESS] and has freed every block it allocated. *)
Theorem ex5_main_prints m : plentiful m -> exists m', ex5_main junk m = Ok ((EXIT_SUCCESS, seqZ 0 10), m') /\ live m' = live m.
Proof.
  intros Hp. unfold ex5_main. destruct (VectorCreate_run junk 4 m) as (m1 & E1 & L1); [done..|]. unfold INIT_VEC_SIZE. step E1.
  change (mk_vector 4 (replicate (Z.to_nat 4) None)) with (filled 0).
  destruct (fill_vector_run FINAL_VEC_SIZE 0 m1) as (m2 & E2 & L2); [done|exact (later_plentiful _ _ _ L1 Hp)|].
  change (Z.of_nat 0) with 0 in E2. step E2.
  assert (E3 : PrintIntVector (Some (filled 10)) m2 = Ok (seqZ 0 10, m2)).
  { unfold PrintIntVector, VectorLength, ensure. rewrite bool_decide_true by eauto. rewrite !bind_ret.
    exact (print_from_run 10 m2 10 0 ltac:(lia) eq_refl). }
  change (0 + FINAL_VEC_SIZE)%nat with 10%nat. step E3. unfold VectorLength. rewrite bind_ret.
  destruct (free_from_run 10 10 0 m2) as (m3 & E4 & L3); [lia|done|].
  change (Z.to_nat (length (filled 10))) with 10%nat. change (Z.of_nat 0) with 0 in E4. step E4.
  unfold VectorFree. rewrite bool_decide_true by eauto. unfold ensure. rewrite bind_assoc, bind_ret, bind_assoc.
  unfold bind at 1, release at 1. unfold bind at 1, release at 1. unfold ret. eexists. split; [done|].
  destruct L1 as [_ _ L1], L2 as [_ _ L2], L3 as [_ _ L3]. cbn [live]. change (Z.of_nat FINAL_VEC_SIZE) with 10 in L2. change (Z.of_nat 10) with 10 in L3. lia.
Qed.
End ex5.
End VectorSpec.
