(* ===== verification/Fcyc.v ===== *)
(** Timing by the best of [K] measurements, [uw_cse351/lab5/fcyc.c].  The [double]s are
    a class: the code only compares them.  What the cycle counter of [clock.c] reads
    around a call of the timed function is a parameter, and so is which requests
    [calloc] and [malloc] refuse. *)
From Stdlib Require Import ZArith Lia.
From S2P Require Import Prelude.
Open Scope Z_scope.

(** [<] of [double]s, 0, and [(1 + epsilon) * a >= b]. *)
Class Double (D : Type) := {
  dlt : D -> D -> bool;
  dzero : D;
  within : D -> D -> D -> bool
}.

Definition sizeof_double : Z := 8.
Definition sizeof_int : Z := 4.

Section fcyc.
Context {D W : Type} {DD : Double D}.
(** [start_counter(); f(argp); get_counter()], with ([true]) or without compensation for
    clock ticks; whether a request of so many bytes is refused; fresh memory. *)
Context (measure : bool -> W -> D * W) (refused : Z -> bool) (junk : nat -> Z).

(** The static variables of the file, and the world of the timed function. *)
Record sampler : Type := mk_sampler {
  kbest : Z;
  maxsamples : Z;
  epsilon : D;
  compensate : Z;
  clear_cache : Z;
  cache_bytes : Z;
  cache_block : Z;
  cache_buf : option (list Z);
  values : option (list D);
  samplecount : Z;
  sink : Z;
  world : W
}.

Definition set_values (v : option (list D)) (n : Z) : M sampler unit :=
  modify (fun s => mk_sampler (kbest s) (maxsamples s) (epsilon s) (compensate s) (clear_cache s) (cache_bytes s)
    (cache_block s) (cache_buf s) v n (sink s) (world s)).
Definition set_cache (b : option (list Z)) (x : Z) : M sampler unit :=
  modify (fun s => mk_sampler (kbest s) (maxsamples s) (epsilon s) (compensate s) (clear_cache s) (cache_bytes s)
    (cache_block s) b (values s) (samplecount s) x (world s)).
Definition lift {A} (r : res A) : M sampler A := fun s => match r with Ok a => Ok (a, s) | Err e => Err e end.

Definition init_sampler : M sampler unit :=
  let* k := gets kbest in
  let n := u64 k * sizeof_double in
  set_values (if refused n then None else Some (replicate (Z.to_nat k) dzero)) 0.

(** [while (pos > 0 && values[pos-1] > values[pos])]; [pos] rounds at most. *)
Fixpoint sift (pos : nat) (vs : list D) : res (list D) :=
  match pos with
  | O => Ok vs
  | S pos' =>
      let? a := cell vs (Z.of_nat pos') in
      let? b := cell vs (Z.of_nat pos) in
      if dlt b a then
        let? vs := set_cell vs (Z.of_nat pos') b in
        let? vs := set_cell vs (Z.of_nat pos) a in
        sift pos' vs
      else Ok vs
  end.

Definition add_sample (val : D) : M sampler unit :=
  let* k := gets kbest in
  let* n := gets samplecount in
  let* v := gets values in
  let* vs := get_or BadAccess v in
  let* (pos, vs) :=
    if n <? k then
      let* vs := lift (set_cell vs n val) in ret (n, vs)
    else
      let* worst := lift (cell vs (k - 1)) in
      if dlt val worst then
        let* vs := lift (set_cell vs (k - 1) val) in ret (k - 1, vs)
      else ret (0, vs) in
  let* vs := lift (sift (Z.to_nat pos) vs) in
  set_values (Some vs) (s32 (n + 1)).

Definition has_converged : M sampler bool :=
  let* k := gets kbest in
  let* n := gets samplecount in
  if k <=? n then
    let* v := gets values in
    let* vs := get_or BadAccess v in
    let* best := lift (cell vs 0) in
    let* worst := lift (cell vs (k - 1)) in
    let* eps := gets epsilon in
    ret (within eps best worst)
  else ret false.

(** [while (cptr < cend)]; a pointer is its index in the buffer. *)
Fixpoint clear_loop (fuel : nat) (buf : list Z) (cptr cend incr x : Z) : res Z :=
  match fuel with
  | O => Err OutOfFuel
  | S fuel' =>
      if cptr <? cend then
        let? v := cell buf cptr in
        clear_loop fuel' buf (cptr + incr) cend incr (s32 (x + v))
      else Ok x
  end.

Definition clear (fuel : nat) : M sampler unit :=
  let* x := gets sink in
  let* block := gets cache_block in
  let* bytes := gets cache_bytes in
  let incr := s32 (u64 block / sizeof_int) in
  let* b := gets cache_buf in
  let* buf :=
    match b with
    | Some buf => ret buf
    | None =>
        if refused (u64 bytes) then fail (Exit 1)
        else
          let buf := s32 <$> (junk <$> seq 0 (Z.to_nat (u64 bytes / sizeof_int))) in
          do* set_cache (Some buf) x; ret buf
    end in
  let* x := lift (clear_loop fuel buf 0 (u64 bytes / sizeof_int) incr x) in
  set_cache (Some buf) x.

Definition timed (comp : bool) : M sampler D := fun s =>
  let '(cyc, w) := measure comp (world s) in
  Ok (cyc, mk_sampler (kbest s) (maxsamples s) (epsilon s) (compensate s) (clear_cache s) (cache_bytes s)
    (cache_block s) (cache_buf s) (values s) (samplecount s) (sink s) w).

(** The two [do] loops, which differ in the counter they read. *)
Fixpoint sample_loop (fuel inner : nat) (comp : bool) : M sampler unit :=
  match fuel with
  | O => fail OutOfFuel
  | S fuel' =>
      let* c := gets clear_cache in
      do* (if c =? 0 then ret tt else clear inner);
      let* cyc := timed comp in
      do* add_sample cyc;
      let* done := has_converged in
      let* n := gets samplecount in
      let* most := gets maxsamples in
      if negb done && (n <? most) then sample_loop fuel' inner comp else ret tt
  end.

(** [fuel] bounds the measurements, [inner] the steps through the cache buffer. *)
Definition fcyc (fuel inner : nat) : M sampler D :=
  do* init_sampler;
  let* c := gets compensate in
  do* sample_loop fuel inner (negb (c =? 0));
  let* v := gets values in
  let* vs := get_or BadAccess v in
  let* result := lift (cell vs 0) in
  let* n := gets samplecount in
  do* set_values None n;
  ret result.

Definition set_fcyc_clear_cache (c : Z) : M sampler unit :=
  modify (fun s => mk_sampler (kbest s) (maxsamples s) (epsilon s) (compensate s) c (cache_bytes s)
    (cache_block s) (cache_buf s) (values s) (samplecount s) (sink s) (world s)).
Definition set_fcyc_cache_size (bytes : Z) : M sampler unit :=
  modify (fun s =>
    if bytes =? cache_bytes s then s
    else mk_sampler (kbest s) (maxsamples s) (epsilon s) (compensate s) (clear_cache s) bytes
      (cache_block s) None (values s) (samplecount s) (sink s) (world s)).
Definition set_fcyc_cache_block (bytes : Z) : M sampler unit :=
  modify (fun s => mk_sampler (kbest s) (maxsamples s) (epsilon s) (compensate s) (clear_cache s) (cache_bytes s)
    bytes (cache_buf s) (values s) (samplecount s) (sink s) (world s)).
Definition set_fcyc_compensate (c : Z) : M sampler unit :=
  modify (fun s => mk_sampler (kbest s) (maxsamples s) (epsilon s) c (clear_cache s) (cache_bytes s)
    (cache_block s) (cache_buf s) (values s) (samplecount s) (sink s) (world s)).
Definition set_fcyc_k (k : Z) : M sampler unit :=
  modify (fun s => mk_sampler k (maxsamples s) (epsilon s) (compensate s) (clear_cache s) (cache_bytes s)
    (cache_block s) (cache_buf s) (values s) (samplecount s) (sink s) (world s)).
Definition set_fcyc_maxsamples (n : Z) : M sampler unit :=
  modify (fun s => mk_sampler (kbest s) n (epsilon s) (compensate s) (clear_cache s) (cache_bytes s)
    (cache_block s) (cache_buf s) (values s) (samplecount s) (sink s) (world s)).
Definition set_fcyc_epsilon (e : D) : M sampler unit :=
  modify (fun s => mk_sampler (kbest s) (maxsamples s) e (compensate s) (clear_cache s) (cache_bytes s)
    (cache_block s) (cache_buf s) (values s) (samplecount s) (sink s) (world s)).
End fcyc.
Arguments sampler D W : clear implicits.
