(* ===== verification/FcycSpec.v ===== *)
(** What the sampler of [Fcyc] computes: it keeps the [kbest] smallest measurements in
    order, measures until they are close to each other or there are too many, and
    returns the smallest. *)
From Stdlib Require Import ZArith Lia.
From S2P Require Import Prelude Fcyc.
Open Scope Z_scope.

(** [double]s that are numbers: [<] orders them up to numbers that are equal. *)
Class DoubleLaws {D} (DD : Double D) : Prop := {
  dlt_asym a b : dlt a b = true -> dlt b a = false;
  dlt_between a b c : dlt a c = true -> dlt a b = true \/ dlt b c = true
}.

Section spec.
Context {D W : Type} {DD : Double D} {L : DoubleLaws DD}.
Context (measure : bool -> W -> D * W) (refused : Z -> bool) (junk : nat -> Z).
Implicit Types (xs vs ys arr : list D) (s : sampler D W).

Definition dle (a b : D) : Prop := dlt b a = false.

#[local] Instance dle_trans : Transitive dle.
Proof.
  intros a b c Hab Hbc. unfold dle in *. destruct (dlt c a) eqn:E; [|done].
  destruct (dlt_between c b a E); congruence.
Qed.

#[local] Instance dle_refl : Reflexive dle.
Proof. intros a. unfold dle. destruct (dlt a a) eqn:E; [|done]. by rewrite (dlt_asym a a E) in E. Qed.

(** [vs] are [k] of the smallest of [xs], or all of them if there are fewer, in order. *)
Definition k_smallest (k : nat) xs vs : Prop :=
  StronglySorted dle vs /\ length vs = (k `min` length xs)%nat /\
  exists rest, xs ≡ₚ vs ++ rest /\ forall v r, v ∈ vs -> r ∈ rest -> dle v r.

(** ** Insertion *)

Lemma sift_run ys : forall v tail, exists ys1 ys2, ys = ys1 ++ ys2 /\ Forall (dle v) ys2 /\
  (forall y, last ys1 = Some y -> dle y v) /\ sift (length ys) (ys ++ v :: tail) = Ok (ys1 ++ v :: ys2 ++ tail).
Proof.
  induction ys as [|y ys IH] using rev_ind; intros v tail; [by exists [], []|].
  rewrite length_app, Nat.add_1_r, <- app_assoc. cbn [app length sift]. rewrite cell_middle. cbn [rbind].
  assert (E : ys ++ y :: v :: tail = (ys ++ [y]) ++ v :: tail) by (by rewrite <- app_assoc).
  rewrite E. replace (Z.of_nat (S (length ys))) with (Z.of_nat (length (ys ++ [y]))) by (rewrite length_app; cbn [length]; lia).
  rewrite cell_middle. cbn [rbind]. destruct (dlt v y) eqn:Ev.
  - rewrite <- E, set_cell_middle. cbn [rbind].
    replace (ys ++ v :: v :: tail) with ((ys ++ [v]) ++ v :: tail) by (by rewrite <- app_assoc).
    replace (length (ys ++ [y])) with (length (ys ++ [v])) by (rewrite !length_app; done).
    rewrite set_cell_middle. cbn [rbind]. rewrite <- app_assoc. cbn [app].
    destruct (IH v (y :: tail)) as (ys1 & ys2 & -> & H2 & H1 & Er). exists ys1, (ys2 ++ [y]).
    rewrite Er, <- !app_assoc. split; [done|]. split; [|done]. apply Forall_app. split; [done|].
    constructor; [|done]. by apply dlt_asym.
  - exists (ys ++ [y]), []. rewrite app_nil_r. cbn [app]. split; [done|]. split; [constructor|]. split; [|done].
    intros y'. rewrite last_snoc. by intros [= <-].
Qed.

(** A new measurement while there is room, *)
Lemma k_smallest_room k xs ys1 ys2 v : (length xs < k)%nat -> k_smallest k xs (ys1 ++ ys2) -> Forall (dle v) ys2 ->
  (forall y, last ys1 = Some y -> dle y v) -> k_smallest k (xs ++ [v]) (ys1 ++ v :: ys2).
Proof.
  intros Hk (Hs & Hl & rest & Hp & _) H2 H1. pose proof (Permutation_length Hp) as Hpl. rewrite !length_app in *.
  destruct rest; cbn [length] in *; [|lia]. rewrite app_nil_r in Hp. split; [by apply sorted_insert; [apply _|..]|].
  rewrite !length_app. cbn [length]. split; [lia|]. exists []. rewrite app_nil_r. split; [|by intros v' r _ ?%not_elem_of_nil].
  rewrite Hp, <- app_assoc. apply Permutation_app_head. symmetry. apply Permutation_cons_append.
Qed.

(** one that takes the place of the largest, *)
Lemma k_smallest_replace k xs ys1 ys2 w v : (k <= length xs)%nat -> k_smallest k xs ((ys1 ++ ys2) ++ [w]) -> dlt v w = true ->
  Forall (dle v) ys2 -> (forall y, last ys1 = Some y -> dle y v) -> k_smallest k (xs ++ [v]) (ys1 ++ v :: ys2).
Proof.
  intros Hk (Hs & Hl & rest & Hp & Hr) Hv H2 H1. apply StronglySorted_app in Hs as (Hw & Hs & _).
  split; [by apply sorted_insert; [apply _|..]|]. rewrite !length_app in *. cbn [length] in *. split; [lia|].
  exists (w :: rest). split.
  - rewrite Hp, <- Permutation_cons_append, <- (Permutation_middle ys1 ys2 v). cbn [app]. constructor. by rewrite <- !app_assoc.
  - assert (Hall : forall u, u ∈ ys1 ++ v :: ys2 -> dle u w).
    { intros u Hu. rewrite elem_of_app, elem_of_cons in Hu. destruct Hu as [Hu|[->|Hu]].
      - apply Hw; set_solver.
      - by apply dlt_asym.
      - apply Hw; set_solver. }
    intros u r Hu Hin. apply elem_of_cons in Hin as [->|Hin]; [by apply Hall|].
    transitivity w; [by apply Hall|]. apply Hr; set_solver.
Qed.

(** and one that is no smaller than those kept. *)
Lemma k_smallest_drop k xs ys w v : (k <= length xs)%nat -> k_smallest k xs (ys ++ [w]) -> dlt v w = false ->
  k_smallest k (xs ++ [v]) (ys ++ [w]).
Proof.
  intros Hk (Hs & Hl & rest & Hp & Hr) Hv. split; [done|]. rewrite !length_app in *. cbn [length] in *. split; [lia|].
  exists (v :: rest). split.
  { rewrite Hp, <- app_assoc. apply Permutation_app_head. symmetry. apply Permutation_cons_append. }
  assert (Hall : forall u, u ∈ ys ++ [w] -> dle u w).
  { apply StronglySorted_app in Hs as (Hw & _ & _). intros u Hu. rewrite elem_of_app, list_elem_of_singleton in Hu.
    destruct Hu as [Hu| ->]; [apply Hw; set_solver|done]. }
  intros u r Hu Hin. apply elem_of_cons in Hin as [->|Hin]; [|by apply Hr].
  transitivity w; [by apply Hall|done].
Qed.

(** ** The sampler *)

(** The array has room for [k] measurements and holds the smallest of [xs]. *)
Definition holds (k : nat) xs arr vs : Prop :=
  k_smallest k xs vs /\ length arr = k /\ exists tail, arr = vs ++ tail.

(** The state when [xs] have been measured; [vs] are kept. *)
Record sampling s xs vs : Prop := {
  sampling_k : 0 < kbest s;
  sampling_array : exists arr, values s = Some arr /\ holds (Z.to_nat (kbest s)) xs arr vs;
  sampling_count : samplecount s = Z.of_nat (length xs)
}.

(** What measuring does not change. *)
Definition settings s : Z * Z * D * Z * Z * Z * Z :=
  (kbest s, maxsamples s, epsilon s, compensate s, clear_cache s, cache_bytes s, cache_block s).

Lemma sampler_lift {A B} (r : res A) a (k : A -> M (sampler D W) B) s : r = Ok a -> bind (lift r) k s = k a s.
Proof. by intros ->. Qed.

(** The sift and the count after [val] has been stored at [pos]. *)
Lemma sift_sample s xs xs' before v tail ys1 ys2 pos :
  pos = Z.of_nat (length before) -> 0 < kbest s -> before = ys1 ++ ys2 -> length (before ++ v :: tail) = Z.to_nat (kbest s) ->
  sift (length before) (before ++ v :: tail) = Ok (ys1 ++ v :: ys2 ++ tail) ->
  k_smallest (Z.to_nat (kbest s)) xs' (ys1 ++ v :: ys2) -> length xs' = S (length xs) -> Z.of_nat (length xs) < 2 ^ 31 - 1 ->
  exists s' vs', (let* vs := lift (sift (Z.to_nat pos) (before ++ v :: tail)) in
      set_values (Some vs) (s32 (Z.of_nat (length xs) + 1))) s = Ok (tt, s') /\
    sampling s' xs' vs' /\ settings s' = settings s /\ world s' = world s /\ cache_buf s' = cache_buf s.
Proof.
  intros -> Hk -> Hl E Hks Hlen Hint. rewrite Nat2Z.id, (sampler_lift _ _ _ _ E). unfold set_values, modify.
  rewrite wraps_small by bound_lia. do 2 eexists. split; [done|]. split; [|done].
  split; cbn; [done| |lia]. exists (ys1 ++ v :: ys2 ++ tail). split; [done|]. split; [exact Hks|]. split.
  - rewrite <- Hl. rewrite !length_app. cbn [length]. rewrite !length_app. lia.
  - exists tail. by rewrite <- app_assoc.
Qed.

Lemma add_sample_run s xs vs v : sampling s xs vs -> Z.of_nat (length xs) < 2 ^ 31 - 1 ->
  exists s' vs', add_sample v s = Ok (tt, s') /\ sampling s' (xs ++ [v]) vs' /\ settings s' = settings s /\
    world s' = world s /\ cache_buf s' = cache_buf s.
Proof.
  intros [Hk (arr & Ea & Hks & Hla & tail & ->) Hn] Hint. pose proof Hks as (Hs & Hl & Hrest).
  rewrite length_app in Hla. assert (Hlx : length (xs ++ [v]) = S (length xs)) by (rewrite length_app; cbn [length]; lia).
  unfold add_sample. rewrite !bind_gets. unfold get_or. rewrite Ea, bind_ret, Hn.
  destruct (Z.ltb_spec (Z.of_nat (length xs)) (kbest s)).
  - assert (El : length vs = length xs) by lia. destruct tail as [|z tail]; cbn [length] in Hla; [lia|].
    rewrite bind_assoc, (sampler_lift _ (vs ++ v :: tail)) by (rewrite <- El; apply set_cell_middle). rewrite bind_ret.
    destruct (sift_run vs v tail) as (ys1 & ys2 & Ev & H2 & H1 & Er).
    apply (sift_sample s xs _ _ _ _ ys1 ys2); try done; [lia|rewrite length_app; cbn [length]; lia|].
    apply k_smallest_room; [lia|by rewrite <- Ev|done..].
  - assert (tail = []) as -> by (destruct tail; [done|cbn [length] in Hla; lia]). rewrite app_nil_r in *.
    destruct (decide (vs = [])) as [->|Hne]; [cbn in *; lia|]. apply exists_last in Hne as (ys & w & ->).
    rewrite length_app in Hl, Hla. cbn [length] in Hl, Hla. replace (kbest s - 1) with (Z.of_nat (length ys)) by lia.
    rewrite bind_assoc, (sampler_lift _ w) by apply cell_middle. destruct (dlt v w) eqn:Ev.
    + rewrite bind_assoc, (sampler_lift _ (ys ++ [v])) by apply set_cell_middle. rewrite bind_ret.
      destruct (sift_run ys v []) as (ys1 & ys2 & Ey & H2 & H1 & Er).
      apply (sift_sample s xs _ _ _ _ ys1 ys2); try done; [rewrite length_app; cbn [length]; lia|].
      apply (k_smallest_replace _ _ _ _ w); try done; [lia|by rewrite <- Ey].
    + rewrite bind_ret. cbn [Z.to_nat sift]. rewrite (sampler_lift _ (ys ++ [w])) by done. unfold set_values, modify.
      rewrite wraps_small by bound_lia. do 2 eexists. split; [done|]. split; [|done]. split; cbn; [done| |lia].
      exists (ys ++ [w]). split; [done|]. split; [apply k_smallest_drop; [lia|done..]|].
      split; [rewrite length_app; cbn [length]; lia|]. exists []. by rewrite app_nil_r.
Qed.

(** The answer of [has_converged], from what is kept. *)
Definition converged (k : Z) (eps : D) xs vs : bool :=
  (k <=? Z.of_nat (length xs)) &&
  match vs !! O, vs !! Z.to_nat (k - 1) with Some best, Some worst => within eps best worst | _, _ => false end.

Lemma has_converged_run s xs vs : sampling s xs vs -> has_converged s = Ok (converged (kbest s) (epsilon s) xs vs, s).
Proof.
  intros [Hk (arr & Ea & (Hs & Hl & _) & Hla & tail & ->) Hn]. unfold has_converged, converged. rewrite !bind_gets, Hn.
  destruct (Z.leb_spec (kbest s) (Z.of_nat (length xs))); [|done]. rewrite bind_gets, Ea. unfold get_or. rewrite bind_ret.
  rewrite length_app in Hla. assert (tail = []) as -> by (destruct tail; [done|cbn [length] in Hla; lia]). rewrite app_nil_r in *.
  destruct (lookup_lt_is_Some_2 vs 0) as [b Eb]; [lia|]. destruct (lookup_lt_is_Some_2 vs (Z.to_nat (kbest s - 1))) as [w Ew]; [lia|].
  rewrite (sampler_lift _ b), (sampler_lift _ w), bind_gets by (apply cell_at; [lia|done]). by rewrite Eb, Ew.
Qed.

(** ** Clearing the cache *)

(** The buffer has been allocated with its size, or can be; blocks hold an [int]. *)
Record cache_ready s : Prop := {
  ready_bytes : 0 <= cache_bytes s < 2 ^ 31;
  ready_block : 4 <= cache_block s < 2 ^ 31;
  ready_buf : match cache_buf s with
              | Some buf => Z.of_nat (length buf) = cache_bytes s / 4
              | None => refused (cache_bytes s) = false
              end
}.

Lemma clear_loop_run incr buf : 1 <= incr -> forall fuel cptr x, 0 <= cptr -> Z.of_nat (length buf) < cptr + Z.of_nat fuel -> (0 < fuel)%nat ->
  exists x', clear_loop fuel buf cptr (Z.of_nat (length buf)) incr x = Ok x'.
Proof.
  intros Hi. induction fuel as [|fuel IH]; intros cptr x Hc Hf Hp; [lia|]. cbn [clear_loop].
  destruct (Z.ltb_spec cptr (Z.of_nat (length buf))); [|eauto].
  destruct (lookup_lt_is_Some_2 buf (Z.to_nat cptr)) as [y E]; [lia|]. rewrite (cell_at _ _ y) by (done || lia). cbn [rbind].
  apply IH; lia.
Qed.

Lemma clear_run s inner : cache_ready s -> cache_bytes s / 4 < Z.of_nat inner ->
  exists s', clear refused junk inner s = Ok (tt, s') /\ cache_ready s' /\ settings s' = settings s /\ world s' = world s /\
    values s' = values s /\ samplecount s' = samplecount s.
Proof.
  intros [Hb Hk Hbuf] Hf. unfold clear. rewrite !bind_gets. unfold sizeof_int. rewrite !(wrapu_small 64) by bound_lia.
  assert (Hq : 1 <= cache_block s / 4 < 2 ^ 31) by (split; [apply Z.div_le_lower_bound|apply Z.div_lt_upper_bound]; bound_lia).
  assert (H0 : 0 <= cache_bytes s / 4) by (apply Z.div_pos; lia).
  rewrite wraps_small by bound_lia. destruct (cache_buf s) as [buf|] eqn:Ec.
  - rewrite bind_ret, <- Hbuf. destruct (clear_loop_run (cache_block s / 4) buf ltac:(lia) inner 0 (sink s)) as [x Ex]; [lia..|].
    rewrite (sampler_lift _ _ _ _ Ex). eexists. split; [done|]. done.
  - rewrite Hbuf, bind_assoc. unfold set_cache at 1, modify. unfold bind at 1. rewrite bind_ret.
    set (buf := s32 <$> (junk <$> seq 0 (Z.to_nat (cache_bytes s / 4)))).
    assert (El : Z.of_nat (length buf) = cache_bytes s / 4) by (unfold buf; rewrite !length_fmap, length_seq; lia). rewrite <- El.
    destruct (clear_loop_run (cache_block s / 4) buf ltac:(lia) inner 0 (sink s)) as [x Ex]; [lia..|].
    rewrite (sampler_lift _ _ _ _ Ex). eexists. split; [done|]. done.
Qed.

(** ** The measurements *)

(** The first [n] of them in the world [w], and the world after them. *)
Fixpoint measured (comp : bool) (n : nat) (w : W) : list D :=
  match n with O => [] | S n' => let '(d, w') := measure comp w in d :: measured comp n' w' end.
Fixpoint world_after (comp : bool) (n : nat) (w : W) : W :=
  match n with O => w | S n' => world_after comp n' (measure comp w).2 end.

Lemma measured_length comp n w : length (measured comp n w) = n.
Proof. revert w. induction n as [|n IH]; intros w; [done|]. cbn [measured]. destruct (measure comp w). cbn [length]. by rewrite IH. Qed.

Lemma measured_succ comp n w :
  measured comp (S n) w = measured comp n w ++ [(measure comp (world_after comp n w)).1] /\
  world_after comp (S n) w = (measure comp (world_after comp n w)).2.
Proof.
  revert w. induction n as [|n IH]; intros w; [cbn; by destruct (measure comp w)|].
  destruct (IH (measure comp w).2) as [E1 E2]. split; [|exact E2]. cbn [measured world_after].
  destruct (measure comp w) as [d w'] eqn:E. cbn [measured world_after snd fst] in *. by rewrite E1.
Qed.

(** Whether the loop ends when [xs] have been measured. *)
Definition enough (k : Z) (eps : D) (most : Z) xs (b : bool) : Prop :=
  exists vs, k_smallest (Z.to_nat k) xs vs /\ b = converged k eps xs vs || (most <=? Z.of_nat (length xs)).

Definition clearable s (inner : nat) : Prop :=
  clear_cache s <> 0 -> cache_ready s /\ cache_bytes s / 4 < Z.of_nat inner.

Lemma sample_loop_run inner comp w0 : forall fuel s n vs, sampling s (measured comp n w0) vs -> world s = world_after comp n w0 ->
  clearable s inner -> maxsamples s < 2 ^ 31 -> Z.of_nat n < Z.max 1 (maxsamples s) -> Z.max 1 (maxsamples s) - Z.of_nat n < Z.of_nat fuel + 1 ->
  (0 < fuel)%nat ->
  exists s' m vs', sample_loop measure refused junk fuel inner comp s = Ok (tt, s') /\ (n < m)%nat /\ Z.of_nat m <= Z.max 1 (maxsamples s) /\
    sampling s' (measured comp m w0) vs' /\ settings s' = settings s /\
    (forall j, (n < j < m)%nat -> enough (kbest s) (epsilon s) (maxsamples s) (measured comp j w0) false) /\
    enough (kbest s) (epsilon s) (maxsamples s) (measured comp m w0) true.
Proof.
  induction fuel as [|fuel IH]; intros s n vs Hs Hw Hc Hm Hn Hf Hp; [lia|]. cbn [sample_loop]. rewrite bind_gets.
  assert (exists s1, (if clear_cache s =? 0 then ret tt else clear refused junk inner) s = Ok (tt, s1) /\ sampling s1 (measured comp n w0) vs /\
    clearable s1 inner /\ settings s1 = settings s /\ world s1 = world s) as (s1 & E1 & Hs1 & Hc1 & Hset1 & Hw1).
  { destruct (Z.eqb_spec (clear_cache s) 0) as [E|E]; [by exists s|].
    destruct (Hc E) as [Hr Hi]. destruct (clear_run s inner Hr Hi) as (s1 & E1 & Hr1 & Hset & Hw1 & Hv & Hcnt).
    exists s1. split; [done|]. injection Hset as H1 H2 H3 H4 H5 H6 H7. split; [|split; [|by split; [unfold settings; congruence|]]].
    - destruct Hs as [Ha Hb Hd]. split; [congruence|by rewrite Hv, H1|congruence].
    - intros _. split; [done|]. by rewrite H6. }
  step E1. unfold bind at 1, timed at 1. destruct (measure comp (world s1)) as [d w1] eqn:Ed.
  match goal with |- context [add_sample d] => idtac end.
  set (s2 := mk_sampler _ _ _ _ _ _ _ _ _ _ _ w1).
  assert (Hs2 : sampling s2 (measured comp n w0) vs) by (by destruct Hs1).
  destruct (add_sample_run s2 _ vs d Hs2) as (s3 & vs3 & E3 & Hs3 & Hset3 & Hw3 & Hb3); [rewrite measured_length; lia|].
  step E3. destruct (measured_succ comp n w0) as [Em Ew]. rewrite Hw1, Hw in Ed. rewrite Ed in Em, Ew. cbn [fst snd] in Em, Ew. rewrite <- Em in Hs3.
  rewrite (bind_ok _ _ _ _ _ (has_converged_run s3 _ _ Hs3)). rewrite !bind_gets. rewrite (sampling_count _ _ _ Hs3), measured_length.
  assert (Hset : settings s3 = settings s) by (rewrite Hset3; exact Hset1).
  injection Hset as H1 H2 H3 H4 H5 H6 H7. rewrite H1, H2, H3.
  assert (Hks : k_smallest (Z.to_nat (kbest s)) (measured comp (S n) w0) vs3).
  { destruct (sampling_array _ _ _ Hs3) as (arr & _ & Hh & _). by rewrite <- H1. }
  destruct (converged (kbest s) (epsilon s) (measured comp (S n) w0) vs3) eqn:Ecv; cbn [negb andb].
  { exists s3, (S n), vs3. split; [done|]. split; [lia|]. split; [lia|]. split; [done|]. split; [unfold settings; congruence|]. split; [lia|].
    exists vs3. split; [done|]. by rewrite Ecv. }
  destruct (Z.ltb_spec (Z.of_nat (S n)) (maxsamples s)) as [Hlt|Hge].
  - destruct (IH s3 (S n) vs3) as (s' & m & vs' & Er & Hnm & Hmm & Hs' & Hset' & Hj & He); try (rewrite ?H2; lia || done).
    + by rewrite Hw3.
    + intros Hne. rewrite H5 in Hne. assert (Hne1 : clear_cache s1 <> 0) by (injection Hset1 as _ _ _ _ -> _ _; done).
      destruct (Hc1 Hne1) as [[Q1 Q2 Q3] Q4]. injection Hset3 as _ _ _ _ _ G6 G7. cbn in G6, G7. split; [|by rewrite G6].
      split; rewrite ?G6, ?G7, ?Hb3; done.
    + exists s', m, vs'. rewrite H1, H2, H3 in *. split; [done|]. split; [lia|]. split; [lia|]. split; [done|].
      split; [rewrite Hset'; unfold settings; congruence|]. split; [|done].
      intros j Hjm. destruct (decide (j = S n)) as [->|]; [|apply Hj; lia]. exists vs3. split; [done|].
      rewrite Ecv, measured_length. destruct (Z.leb_spec (maxsamples s) (Z.of_nat (S n))); [lia|done].
  - exists s3, (S n), vs3. split; [done|]. split; [lia|]. split; [lia|]. split; [done|]. split; [unfold settings; congruence|]. split; [lia|].
    exists vs3. split; [done|]. rewrite Ecv, measured_length. destruct (Z.leb_spec (maxsamples s) (Z.of_nat (S n))); [done|lia].
Qed.

Lemma init_sampler_run s : 0 < kbest s < 2 ^ 31 -> refused (kbest s * 8) = false ->
  exists s', init_sampler refused s = Ok (tt, s') /\ sampling s' [] [] /\ settings s' = settings s /\ world s' = world s /\
    cache_buf s' = cache_buf s.
Proof.
  intros Hk Hr. unfold init_sampler. rewrite bind_gets, wrapu_small by bound_lia. unfold sizeof_double. rewrite Hr.
  eexists. split; [done|]. split; [|done]. split; cbn; [lia| |done].
  exists (replicate (Z.to_nat (kbest s)) dzero). split; [done|]. split; [|split; [apply length_replicate|by eexists]].
  split; [constructor|]. split; [cbn; lia|]. exists []. split; [done|]. by intros v r _ ?%not_elem_of_nil.
Qed.

(** The smallest measurement comes first. *)
Lemma smallest k xs vs result : k_smallest k xs vs -> vs !! O = Some result -> result ∈ xs /\ forall x, x ∈ xs -> dle result x.
Proof.
  intros (Hs & _ & rest & Hp & Hr) E. destruct vs as [|v vs]; [done|]. injection E as ->.
  inversion Hs as [|? ? _ Hall]; subst. split; [rewrite Hp; by left|]. intros x. rewrite Hp, elem_of_app, elem_of_cons.
  intros [[->|Hx]|Hx]; [done|by eapply Forall_forall in Hall|]. apply Hr; [by left|done].
Qed.

(** C40: [fcyc] ends and returns the smallest of its measurements, one [maxsamples] of
    them at most (and one at least).  It stops as soon as the [kbest] smallest so far
    are within [epsilon] of each other, or [maxsamples] have been made, and not before. *)
Theorem fcyc_best s fuel inner (Hk : 0 < kbest s < 2 ^ 31) (Hmem : refused (kbest s * 8) = false)
    (Hclear : clearable s inner) (Hmost : maxsamples s < 2 ^ 31) (Hfuel : Z.max 1 (maxsamples s) <= Z.of_nat fuel) :
  exists result s' m, fcyc measure refused junk fuel inner s = Ok (result, s') /\ settings s' = settings s /\
    let xs j := measured (negb (compensate s =? 0)) j (world s) in
    1 <= Z.of_nat m <= Z.max 1 (maxsamples s) /\ result ∈ xs m /\ (forall x, x ∈ xs m -> dle result x) /\
    (forall j, (0 < j < m)%nat -> enough (kbest s) (epsilon s) (maxsamples s) (xs j) false) /\
    enough (kbest s) (epsilon s) (maxsamples s) (xs m) true.
Proof.
  unfold fcyc. destruct (init_sampler_run s Hk Hmem) as (s1 & E1 & Hs1 & Hset1 & Hw1 & Hb1). step E1. rewrite bind_gets.
  pose proof Hset1 as Hset. injection Hset as H1 H2 H3 H4 H5 H6 H7. rewrite H4.
  destruct (sample_loop_run inner (negb (compensate s =? 0)) (world s) fuel s1 O []) as (s2 & m & vs & E2 & Hm & Hmost2 & Hs2 & Hset2 & Hj & He);
    rewrite ?H2; try (done || lia).
  { intros Hne. rewrite H5 in Hne. destruct (Hclear Hne) as [[Q1 Q2 Q3] Q4]. split; [|by rewrite H6]. by split; rewrite ?H6, ?H7, ?Hb1. }
  step E2. rewrite bind_gets. destruct Hs2 as [Hk2 (arr & Ea & Hh & Hla & tail & ->) Hn]. rewrite Ea. unfold get_or. rewrite bind_ret.
  assert (Hl : length vs = (Z.to_nat (kbest s2) `min` m)%nat) by (destruct Hh as (_ & -> & _); by rewrite measured_length).
  destruct vs as [|result vs]; [cbn in Hl; lia|]. rewrite (sampler_lift _ result) by done. rewrite bind_gets.
  exists result. eexists. exists m. split; [done|]. split; [transitivity (settings s2); [done|congruence]|]. cbv zeta.
  rewrite H1, H2, H3 in *. destruct (smallest _ _ _ result Hh eq_refl). repeat split; try (done || lia).
Qed.
End spec.

(** ** Numbers in place of [double]s: [epsilon] in hundredths *)

#[export] Instance hundredths : Double Z := {
  dlt := Z.ltb; dzero := 0; within eps a b := b * 100 <=? (100 + eps) * a
}.
#[export] Instance hundredths_laws : DoubleLaws hundredths.
Proof. split; cbn; intros a b; [destruct (Z.ltb_spec a b), (Z.ltb_spec b a); (done || lia)|]. intros c. rewrite !Z.ltb_lt. lia. Qed.

(** Measurements read from a list, 1000 when it is used up. *)
Definition readings (_ : bool) (w : list Z) : Z * list Z := match w with [] => (1000, []) | d :: w' => (d, w') end.
Definition as_configured (w : list Z) : sampler Z (list Z) := mk_sampler 3 20 1 0 0 (2 ^ 19) 32 None None 0 0 w.

Lemma fcyc_best_witness : exists result s' m,
  fcyc readings (fun _ => false) (fun _ => 0) 20 0 (as_configured [900; 510; 1200; 505; 700; 508; 100]) = Ok (result, s') /\
  settings s' = (3, 20, 1, 0, 0, 2 ^ 19, 32) /\
  let xs j := measured readings false j [900; 510; 1200; 505; 700; 508; 100] in
  1 <= Z.of_nat m <= 20 /\ result ∈ xs m /\ (forall x, x ∈ xs m -> dle result x) /\
  (forall j, (0 < j < m)%nat -> enough 3 1 20 (xs j) false) /\ enough 3 1 20 (xs m) true.
Proof.
  apply (fcyc_best readings (fun _ => false) (fun _ => 0) (as_configured [900; 510; 1200; 505; 700; 508; 100]) 20 0); cbn; try lia; done.
Defined.

(** The last measurement is not made: 505, 508 and 510 are close enough. *)
Example fcyc_stops : exists s', fcyc readings (fun _ => false) (fun _ => 0) 20 0 (as_configured [900; 510; 1200; 505; 700; 508; 100]) = Ok (505, s') /\ world s' = [100].
Proof. eexists. by vm_compute. Qed.

(** A block smaller than an [int] makes the step through the cache buffer 0: it never ends. *)
Lemma small_block_never_ends fuel buf x : buf <> [] -> clear_loop fuel buf 0 (Z.of_nat (length buf)) (s32 (u64 2 / sizeof_int)) x = Err OutOfFuel.
Proof.
  intros Hb. change (s32 (u64 2 / sizeof_int)) with 0. revert x. induction fuel as [|fuel IH]; intros x; [done|]. cbn [clear_loop].
  destruct buf as [|b buf]; [done|]. destruct (Z.ltb_spec 0 (Z.of_nat (length (b :: buf)))); [|cbn in *; lia]. cbn [cell rbind].
  apply IH.
Qed.
