(* ===== verification/Bufbomb.v ===== *)
(** The buffer lab's program, [uw_cse351/lab3/bufbomb.c]: reading an attack string, raw
    or as hexadecimal digits, into a buffer it does not know the size of, and the
    book-keeping of the levels.  A buffer is the list of its cells, so that writing past
    its end is a fault; what such a write does to the stack is not modelled.  A [char]
    is signed.  What is printed is a list of messages. *)
From Stdlib Require Import ZArith Lia.
From S2P Require Import Prelude.
Open Scope Z_scope.

Definition GETLEN : Z := 1024.
Definition NORMAL_CNT : Z := 1.
Definition KABOOM_CNT : Z := 5.
(** [char buf[36]] of [getbuf] *)
Definition BUFLEN : nat := 36.

Inductive message : Type :=
  | Smoke | Fizz (val : Z) | Bang (val : Z) | Boom (val : Z)
  | Misfire (val : Z) | Dud (val : Z) | BetterLuck
  | NoUsername | InvalidLevel | ImproperCall | KeepGoing | Valid (level : Z)
  | TypeHex | TypeString.

(** The global variables, the input that is left and the messages so far. *)
Record bomb : Type := mk_bomb {
  infile : list Z;
  hexformat : Z;
  quiet : Z;
  cookie : Z;
  team : bool;
  grade : Z;
  success : Z;
  global_value : Z;
  gets_buf : list Z;
  gets_cnt : Z;
  level_counts : list Z;
  check_level : Z;
  printed : list message
}.

Definition set_input (i : list Z) (s : bomb) : bomb :=
  mk_bomb i (hexformat s) (quiet s) (cookie s) (team s) (grade s) (success s) (global_value s) (gets_buf s) (gets_cnt s)
    (level_counts s) (check_level s) (printed s).
Definition set_gets (b : list Z) (n : Z) (s : bomb) : bomb :=
  mk_bomb (infile s) (hexformat s) (quiet s) (cookie s) (team s) (grade s) (success s) (global_value s) b n
    (level_counts s) (check_level s) (printed s).
Definition set_levels (ok : Z) (c : list Z) (l : Z) (s : bomb) : bomb :=
  mk_bomb (infile s) (hexformat s) (quiet s) (cookie s) (team s) (grade s) ok (global_value s) (gets_buf s) (gets_cnt s)
    c l (printed s).
Definition print (m : message) : M bomb unit := modify (fun s =>
  mk_bomb (infile s) (hexformat s) (quiet s) (cookie s) (team s) (grade s) (success s) (global_value s) (gets_buf s) (gets_cnt s)
    (level_counts s) (check_level s) (printed s ++ [m])).
Definition lift {A} (r : res A) : M bomb A := fun s => match r with Ok a => Ok (a, s) | Err e => Err e end.

(** ** Reading a line *)

Definition trans_char : list Z := [48; 49; 50; 51; 52; 53; 54; 55; 56; 57; 65; 66; 67; 68; 69; 70].

Definition save_char (c : Z) : M bomb unit :=
  let* n := gets gets_cnt in
  if n <? GETLEN then
    let* b := gets gets_buf in
    let* hi := lift (cell trans_char (Z.land (Z.shiftr c 4) 0xF)) in
    let* b := lift (set_cell b (3 * n) hi) in
    let* lo := lift (cell trans_char (Z.land c 0xF)) in
    let* b := lift (set_cell b (3 * n + 1) lo) in
    let* b := lift (set_cell b (3 * n + 2) 32) in
    modify (set_gets b (n + 1))
  else ret tt.

Definition save_term : M bomb unit :=
  let* n := gets gets_cnt in
  let* b := gets gets_buf in
  let* b := lift (set_cell b (3 * n) 0) in
  modify (set_gets b n).

(** [isxdigit] of the C locale. *)
Definition isxdigit (c : Z) : bool :=
  ((48 <=? c) && (c <=? 57)) || ((65 <=? c) && (c <=? 70)) || ((97 <=? c) && (c <=? 102)).

(** The loops of [Gets] over the characters [getc] gives, up to the end or a newline;
    [sp] is the index of the pointer into the buffer. *)
Fixpoint raw_loop (input dest : list Z) (sp : Z) : M bomb (list Z * Z) :=
  match input with
  | [] => do* modify (set_input []); ret (dest, sp)
  | c :: rest =>
      if c =? 10 then do* modify (set_input rest); ret (dest, sp)
      else
        let* dest := lift (set_cell dest sp (s8 c)) in
        do* save_char (s8 c);
        raw_loop rest dest (sp + 1)
  end.

Definition xdigit_value (hc : Z) : Z :=
  if (48 <=? hc) && (hc <=? 57) then hc - 48
  else if (65 <=? hc) && (hc <=? 70) then hc - 65 + 10
  else hc - 97 + 10.

Fixpoint hex_loop (input dest : list Z) (sp : Z) (even : bool) (otherd : Z) : M bomb (list Z * Z) :=
  match input with
  | [] => do* modify (set_input []); ret (dest, sp)
  | hc :: rest =>
      if hc =? 10 then do* modify (set_input rest); ret (dest, sp)
      else if isxdigit hc then
        let val := xdigit_value hc in
        if even then hex_loop rest dest sp false val
        else
          let c := otherd * 16 + val in
          let* dest := lift (set_cell dest sp (s8 c)) in
          do* save_char (s8 c);
          hex_loop rest dest (sp + 1) true otherd
      else hex_loop rest dest sp even otherd
  end.

(** The buffer afterwards; [Gets] returns its address. *)
Definition Gets (dest : list Z) : M bomb (list Z) :=
  let* b := gets gets_buf in
  do* modify (set_gets b 0);
  let* h := gets hexformat in
  let* input := gets infile in
  let* (dest, sp) := (if h =? 0 then raw_loop input dest 0 else hex_loop input dest 0 true 0) in
  let* dest := lift (set_cell dest sp 0) in
  do* save_term;
  ret dest.

(** ** The levels *)

Definition entry_check (level : Z) : M bomb unit :=
  modify (fun s => set_levels (success s) (level_counts s) level s).

Definition validate (level : Z) : M bomb unit :=
  let* t := gets team in
  if negb t then print NoUsername
  else if (level <? 0) || (5 <=? level) then print InvalidLevel
  else
    let* l := gets check_level in
    if negb (level =? l) then print ImproperCall
    else
      let* counts := gets level_counts in
      let* n := lift (cell counts level) in
      let n := s32 (n - 1) in
      let* counts := lift (set_cell counts level n) in
      do* modify (set_levels 1 counts l);
      if 0 <? n then print KeepGoing
      else
        let* g := gets grade in
        if negb (g =? 0) then print (Valid level) else ret tt.

(** [level_counts] at the start. *)
Definition level_counts_init : list Z := [NORMAL_CNT; NORMAL_CNT; NORMAL_CNT; NORMAL_CNT; KABOOM_CNT].

(** The status each level exits with. *)
Definition smoke : M bomb Z :=
  do* entry_check 0;
  do* print Smoke;
  do* validate 0;
  ret 0.

Definition fizz (val : Z) : M bomb Z :=
  do* entry_check 1;
  let* c := gets cookie in
  do* (if val =? c then do* print (Fizz val); validate 1 else print (Misfire val));
  ret 0.

Definition bang (val : Z) : M bomb Z :=
  do* entry_check 2;
  let* g := gets global_value in
  let* c := gets cookie in
  do* (if g =? c then do* print (Bang g); validate 2 else print (Misfire g));
  ret 0.

(** [buf] is what the frame of [getbuf] holds, [addr] where it is; the copy of the buffer
    made on the stack is never read and is left out. *)
Definition getbuf (buf : list Z) (addr : Z) : M bomb Z :=
  do* Gets buf;
  ret (u64 addr mod 40).

(** As long as nothing is written outside the buffer [local] keeps its value. *)
Definition test (buf : list Z) (addr : Z) : M bomb unit :=
  do* entry_check 3;
  let* val := getbuf buf addr in
  do* entry_check 3;
  let* c := gets cookie in
  if val =? c then do* print (Boom val); validate 3 else print (Dud val).

(** [launch] after its adjustment of the stack. *)
Definition launch (buf : list Z) (addr : Z) : M bomb unit :=
  let* q := gets quiet in
  let* h := gets hexformat in
  do* (if q =? 0 then print (if h =? 0 then TypeString else TypeHex) else ret tt);
  do* test buf addr;
  let* ok := gets success in
  if ok =? 0 then print BetterLuck else ret tt.
