(* ===== verification/BufbombSpec.v ===== *)
(** What [Gets] of [Bufbomb] reads: the bytes of a line, raw or as hexadecimal digits,
    when the buffer has room for them, and a record of them that can be typed back. *)
From Stdlib Require Import ZArith Lia.
From S2P Require Import Prelude Bufbomb.
Open Scope Z_scope.

Implicit Types (s : bomb) (bs : list Z).

Lemma bomb_lift {A B} (r : res A) a (k : A -> M bomb B) s : r = Ok a -> bind (lift r) k s = k a s.
Proof. by intros ->. Qed.

(** ** The record of the bytes *)

(** A byte as two digits and a blank. *)
Definition digit (n : Z) : Z := nth (Z.to_nat n) trans_char 0.
Definition hex_text bs : list Z := concat ((fun c => [digit (c mod 256 / 16); digit (c mod 16); 32]) <$> bs).

Lemma hex_text_length bs : length (hex_text bs) = (3 * length bs)%nat.
Proof. induction bs as [|b bs IH]; [done|]. unfold hex_text in *. cbn in *. rewrite IH. lia. Qed.

Lemma hex_text_app bs bs' : hex_text (bs ++ bs') = hex_text bs ++ hex_text bs'.
Proof. unfold hex_text. by rewrite fmap_app, concat_app. Qed.

Lemma nibbles c : - 2 ^ 7 <= c < 2 ^ 7 ->
  Z.land (Z.shiftr c 4) 0xF = c mod 256 / 16 /\ Z.land c 0xF = c mod 16.
Proof.
  intros Hc. change 0xF with (Z.ones 4). rewrite !Z.land_ones, Z.shiftr_div_pow2 by lia. split; [|done].
  change (2 ^ 4) with 16. change 256 with (16 * 16). rewrite Z.rem_mul_r by lia.
  rewrite (Z.add_comm (c mod 16)), Z.mul_comm, Z.div_add_l by lia. rewrite (Z.div_small (c mod 16)) by (apply Z.mod_pos_bound; lia). lia.
Qed.

Lemma digit_cell n : 0 <= n < 16 -> cell trans_char n = Ok (digit n).
Proof.
  intros Hn. unfold digit. apply cell_at; [lia|]. rewrite nth_lookup.
  destruct (trans_char !! Z.to_nat n) eqn:E; [done|]. apply lookup_ge_None in E. cbn in E. lia.
Qed.

(** [gets_buf] and [gets_cnt] after the bytes [bs]. *)
Definition saved s bs : Prop :=
  gets_cnt s = Z.of_nat (1024 `min` length bs) /\ length (gets_buf s) = 3073%nat /\
  exists tail, gets_buf s = hex_text (take 1024 bs) ++ tail.

Lemma save_char_run s bs c : saved s bs -> - 2 ^ 7 <= c < 2 ^ 7 ->
  exists b n, save_char c s = Ok (tt, set_gets b n s) /\ saved (set_gets b n s) (bs ++ [c]).
Proof.
  intros (Hn & Hl & tail & Eb) Hc. unfold save_char. rewrite bind_gets. unfold GETLEN.
  destruct (Z.ltb_spec (gets_cnt s) 1024).
  - assert (length bs < 1024)%nat by lia. rewrite take_ge in Eb by lia. rewrite bind_gets, Eb.
    rewrite Eb, length_app, hex_text_length in Hl.
    destruct (nibbles c Hc) as [-> ->]. pose proof (Z.mod_pos_bound c 256). pose proof (Z.mod_pos_bound c 16).
    assert (c mod 256 / 16 < 16) by (apply Z.div_lt_upper_bound; lia). assert (0 <= c mod 256 / 16) by (apply Z.div_pos; lia).
    destruct tail as [|a0 [|a1 [|a2 tail]]]; cbn [length] in Hl; try lia.
    replace (3 * gets_cnt s) with (Z.of_nat (length (hex_text bs))) by (rewrite hex_text_length; lia).
    rewrite (bomb_lift _ (digit (c mod 256 / 16))) by (apply digit_cell; lia). rewrite (bomb_lift _ _ _ _ (set_cell_middle _ _ _ _)).
    rewrite (bomb_lift _ (digit (c mod 16))) by (apply digit_cell; lia).
    set (hi := digit (c mod 256 / 16)). set (lo := digit (c mod 16)).
    replace (hex_text bs ++ hi :: a1 :: a2 :: tail) with ((hex_text bs ++ [hi]) ++ a1 :: a2 :: tail) by (by rewrite <- app_assoc).
    replace (Z.of_nat (length (hex_text bs)) + 1) with (Z.of_nat (length (hex_text bs ++ [hi]))) by (rewrite length_app; cbn [length]; lia).
    rewrite (bomb_lift _ _ _ _ (set_cell_middle _ _ _ _)).
    replace ((hex_text bs ++ [hi]) ++ lo :: a2 :: tail) with ((hex_text bs ++ [hi; lo]) ++ a2 :: tail) by (by rewrite <- !app_assoc).
    replace (Z.of_nat (length (hex_text bs)) + 2) with (Z.of_nat (length (hex_text bs ++ [hi; lo]))) by (rewrite length_app; cbn [length]; lia).
    rewrite (bomb_lift _ _ _ _ (set_cell_middle _ _ _ _)). unfold modify. do 2 eexists. split; [done|].
    split; [cbn [gets_cnt set_gets]; rewrite length_app; cbn [length]; lia|]. cbn [gets_buf set_gets]. split.
    + rewrite !length_app, hex_text_length. cbn [length]. lia.
    + exists tail. rewrite take_ge by (rewrite length_app; cbn [length]; lia). rewrite hex_text_app, <- !app_assoc. done.
  - exists (gets_buf s), (gets_cnt s). split; [by destruct s|]. split; [cbn [gets_cnt set_gets]; rewrite length_app; cbn [length]; lia|]. split; [done|].
    exists tail. cbn. rewrite take_app_le by lia. done.
Qed.

(** ** The line read *)

(** [rest] is left of [tail] once the end of a line has been read. *)
Definition ends (tail rest : list Z) : Prop := tail = [] /\ rest = [] \/ tail = 10 :: rest.

Definition is_line (line : list Z) : Prop := Forall (fun c => 0 <= c < 2 ^ 8 /\ c <> 10) line.

Lemma s8_range c : - 2 ^ 7 <= s8 c < 2 ^ 7.
Proof. pose proof (wraps_range 8 c ltac:(lia)). bound_lia. Qed.

(** One byte stored and saved, then [k] with the pointer after it. *)
Lemma put_byte_run {A} pre old c s bs (k : list Z -> M bomb A) : saved s bs ->
  (let* dest := lift (set_cell (pre ++ old) (Z.of_nat (length pre)) (s8 c)) in
   do* save_char (s8 c); k dest) s =
  match old with
  | [] => Err BadAccess
  | _ :: old' => match save_char (s8 c) s with Ok (_, s') => k (pre ++ s8 c :: old') s' | Err e => Err e end
  end.
Proof.
  intros Hs. destruct old as [|o old].
  - unfold bind at 1, lift, set_cell. rewrite app_nil_r. destruct (Z.leb_spec 0 (Z.of_nat (length pre))), (Z.ltb_spec (Z.of_nat (length pre)) (Z.of_nat (length pre))); lia || done.
  - rewrite (bomb_lift _ _ _ _ (set_cell_middle _ _ _ _)). unfold bind. by destruct (save_char (s8 c) s) as [[[] s']|].
Qed.

(** What a loop of [Gets] leaves when it has stored [bs], saved on top of [before]. *)
Definition stored (r : res ((list Z * Z) * bomb)) s pre old before bs rest : Prop :=
  if decide (length bs <= length old)%nat then
    exists b n, r = Ok ((pre ++ bs ++ drop (length bs) old, Z.of_nat (length (pre ++ bs))), set_input rest (set_gets b n s)) /\
      saved (set_gets b n s) (before ++ bs)
  else r = Err BadAccess.

Lemma stored_nil s pre old before tail rest : saved s before -> ends tail rest ->
  stored (Ok ((pre ++ old, Z.of_nat (length pre)), set_input rest s)) s pre old before [] rest.
Proof.
  intros Hs He. unfold stored. destruct (decide (length [] <= length old)%nat) as [_|Hn]; [|cbn in Hn; lia].
  exists (gets_buf s), (gets_cnt s). rewrite !app_nil_r. cbn [app length drop]. split; [by destruct s|by destruct s].
Qed.

Lemma stored_cons r s pre o old before c bs rest b n :
  stored r (set_gets b n s) (pre ++ [c]) old (before ++ [c]) bs rest -> stored r s pre (o :: old) before (c :: bs) rest.
Proof.
  unfold stored. cbn [length drop]. destruct (decide (length bs <= length old)%nat), (decide (S (length bs) <= S (length old))%nat); try lia; [|done].
  intros (b' & n' & -> & Hsv). exists b', n'. rewrite <- !app_assoc in *. done.
Qed.

Lemma raw_loop_run line : is_line line -> forall tail rest pre old s before, ends tail rest -> saved s before ->
  stored (raw_loop (line ++ tail) (pre ++ old) (Z.of_nat (length pre)) s) s pre old before (s8 <$> line) rest.
Proof.
  induction 1 as [|c line [Hc Hnl] Hline IH]; intros tail rest pre old s before He Hs.
  - cbn [app fmap list_fmap]. destruct He as [[-> ->]| ->]; cbn; eapply stored_nil; try done; [by left|by right].
  - cbn [app raw_loop fmap list_fmap]. destruct (Z.eqb_spec c 10); [done|].
    rewrite (put_byte_run _ _ _ _ _ _ Hs). destruct old as [|o old].
    { unfold stored. destruct (decide _) as [Hl|]; [cbn in Hl; lia|done]. }
    destruct (save_char_run s before (s8 c) Hs (s8_range c)) as (b & n0 & -> & Hs').
    eapply stored_cons. specialize (IH tail rest (pre ++ [s8 c]) old _ _ He Hs').
    rewrite <- app_assoc, length_app in IH. cbn [app length] in IH.
    by replace (Z.of_nat (length pre) + 1) with (Z.of_nat (length pre + 1)) by lia.
Qed.

(** The values of the digits of a text, and the bytes they make in pairs. *)
Definition digits_of (text : list Z) : list Z := xdigit_value <$> filter (fun c => isxdigit c = true) text.
Fixpoint pairs (ds : list Z) : list Z :=
  match ds with hi :: lo :: ds' => s8 (hi * 16 + lo) :: pairs ds' | _ => [] end.

Lemma digits_of_cons c text : digits_of (c :: text) = if isxdigit c then xdigit_value c :: digits_of text else digits_of text.
Proof. unfold digits_of. rewrite filter_cons. destruct (decide (isxdigit c = true)) as [->|Hd]; [done|]. by destruct (isxdigit c). Qed.

Lemma hex_loop_run line : is_line line -> forall tail rest pre old s before (even : bool) otherd, ends tail rest -> saved s before ->
  stored (hex_loop (line ++ tail) (pre ++ old) (Z.of_nat (length pre)) even otherd s) s pre old before
    (pairs (if even then digits_of line else otherd :: digits_of line)) rest.
Proof.
  induction 1 as [|c line [Hc Hnl] Hline IH]; intros tail rest pre old s before even otherd He Hs.
  - replace (pairs (if even then digits_of [] else otherd :: digits_of [])) with (@nil Z) by (by destruct even).
    destruct He as [[-> ->]| ->]; cbn; eapply stored_nil; try done; [by left|by right].
  - cbn [app hex_loop]. rewrite digits_of_cons. destruct (Z.eqb_spec c 10); [done|].
    destruct (isxdigit c); [|by apply IH]. destruct even.
    + exact (IH tail rest pre old s before false (xdigit_value c) He Hs).
    + cbn [pairs]. rewrite (put_byte_run _ _ _ _ _ _ Hs). destruct old as [|o old].
      { unfold stored. destruct (decide _) as [Hl|]; [cbn in Hl; lia|done]. }
      destruct (save_char_run s before (s8 (otherd * 16 + xdigit_value c)) Hs (s8_range _)) as (b & n0 & -> & Hs').
      eapply stored_cons. specialize (IH tail rest (pre ++ [s8 (otherd * 16 + xdigit_value c)]) old _ _ true otherd He Hs').
      rewrite <- app_assoc, length_app in IH. cbn [app length] in IH.
      by replace (Z.of_nat (length pre) + 1) with (Z.of_nat (length pre + 1)) by lia.
Qed.

(** The bytes a line stands for. *)
Definition line_bytes (h : Z) (line : list Z) : list Z := if h =? 0 then s8 <$> line else pairs (digits_of line).

(** [Gets] reads a line: it stores its bytes and a terminator when the buffer has room,
    and writes past its end otherwise; [gets_buf] keeps the text of the first 1024. *)
Lemma Gets_reads s line tail rest dest : is_line line -> ends tail rest -> infile s = line ++ tail ->
  length (gets_buf s) = 3073%nat ->
  let bs := line_bytes (hexformat s) line in
  if decide (length bs < length dest)%nat then
    exists b n, Gets dest s = Ok (bs ++ 0 :: drop (S (length bs)) dest, set_input rest (set_gets b n s)) /\
      exists junk, b = hex_text (take 1024 bs) ++ 0 :: junk /\ n = Z.of_nat (1024 `min` length bs) /\ length b = 3073%nat
  else Gets dest s = Err BadAccess.
Proof.
  intros Hline He Hin Hl. cbv zeta. set (bs := line_bytes _ _). set (s1 := set_gets (gets_buf s) 0 s).
  assert (Hrun : Gets dest s = (let* (dest, sp) := (if hexformat s =? 0 then raw_loop (line ++ tail) dest 0 else hex_loop (line ++ tail) dest 0 true 0) in
    let* dest := lift (set_cell dest sp 0) in do* save_term; ret dest) s1) by (unfold Gets; rewrite bind_gets, <- Hin; done).
  rewrite Hrun. clear Hrun.
  assert (Hs1 : saved s1 []) by (split; [done|split; [done|by exists (gets_buf s)]]).
  assert (Hst : stored ((if hexformat s =? 0 then raw_loop (line ++ tail) dest 0 else hex_loop (line ++ tail) dest 0 true 0) s1)
    s1 [] dest [] bs rest).
  { unfold bs, line_bytes. destruct (hexformat s =? 0).
    - exact (raw_loop_run line Hline tail rest [] dest s1 [] He Hs1).
    - exact (hex_loop_run line Hline tail rest [] dest s1 [] true 0 He Hs1). }
  unfold stored in Hst. cbn [app] in Hst.
  destruct (decide (length bs <= length dest)%nat) as [Hle|Hle].
  2: { destruct (decide (length bs < length dest)%nat); [lia|]. by rewrite (bind_err _ _ _ _ Hst). }
  destruct Hst as (b & n & Hst & Hn & Hlb & tl & Eb). rewrite (bind_ok _ _ _ _ _ Hst). cbn [gets_cnt gets_buf set_gets] in Hn, Hlb, Eb.
  destruct (decide (length bs < length dest)%nat) as [Hlt|Hge].
  - destruct (drop (length bs) dest) as [|d ds] eqn:Ed; [apply (f_equal length) in Ed; rewrite length_drop in Ed; cbn in Ed; lia|].
    rewrite (bomb_lift _ _ _ _ (set_cell_middle _ _ _ _)). unfold save_term. rewrite !bind_assoc, bind_gets, bind_assoc, bind_gets.
    cbn [gets_cnt gets_buf set_gets set_input]. rewrite Eb.
    assert (Hk : length (hex_text (take 1024 bs)) = (3 * (1024 `min` length bs))%nat) by (rewrite hex_text_length, length_take; done).
    assert (Hd : ds = drop (S (length bs)) dest) by (rewrite <- Nat.add_1_r, <- drop_drop, Ed; done).
    destruct tl as [|x tl]; [apply (f_equal length) in Eb; rewrite app_nil_r, Hk in Eb; lia|].
    replace (3 * n) with (Z.of_nat (length (hex_text (take 1024 bs)))) by lia.
    rewrite bind_assoc, (bomb_lift _ _ _ _ (set_cell_middle _ _ _ _)). unfold modify. unfold bind at 1, ret. rewrite Hd.
    do 2 eexists. split; [done|]. exists tl. split; [done|]. split; [done|].
    apply (f_equal length) in Eb. rewrite !length_app in *. cbn [length] in *. lia.
  - rewrite drop_ge by lia. rewrite app_nil_r. unfold bind at 1, lift, set_cell.
    destruct (Z.leb_spec 0 (Z.of_nat (length bs))), (Z.ltb_spec (Z.of_nat (length bs)) (Z.of_nat (length bs))); lia || done.
Qed.

(** ** Typing it back *)

Lemma digit_ok n : 0 <= n < 16 ->
  isxdigit (digit n) = true /\ xdigit_value (digit n) = n /\ 0 <= digit n < 2 ^ 8 /\ digit n <> 10 /\ digit n <> 0.
Proof.
  intros Hn. assert (Z.to_nat n < 16)%nat as Hlt by lia. rewrite <- (Z2Nat.id n) by lia. generalize dependent (Z.to_nat n). clear.
  intros m Hm. do 16 (destruct m as [|m]; [by vm_compute|]). lia.
Qed.

Lemma byte_digits c : - 2 ^ 7 <= c < 2 ^ 7 ->
  0 <= c mod 256 / 16 < 16 /\ 0 <= c mod 16 < 16 /\ s8 (c mod 256 / 16 * 16 + c mod 16) = c.
Proof.
  intros Hc. pose proof (Z.mod_pos_bound c 256 ltac:(lia)). pose proof (Z.mod_pos_bound c 16 ltac:(lia)).
  split; [split; [apply Z.div_pos|apply Z.div_lt_upper_bound]; lia|]. split; [done|].
  assert (E : c mod 256 / 16 * 16 + c mod 16 = c mod 256).
  { change 256 with (16 * 16). rewrite Z.rem_mul_r by lia. rewrite (Z.add_comm (c mod 16)), (Z.mul_comm 16), Z.div_add_l by lia.
    rewrite (Z.div_small (c mod 16)) by lia. lia. }
  rewrite E. unfold wraps. change (2 ^ 8) with 256. change (2 ^ (8 - 1)) with 128 in *. rewrite Zplus_mod_idemp_l, Z.mod_small by bound_lia. lia.
Qed.

Lemma hex_text_back bs : Forall (fun c => - 2 ^ 7 <= c < 2 ^ 7) bs ->
  pairs (digits_of (hex_text bs)) = bs /\ is_line (hex_text bs) /\ forall junk, c_string (hex_text bs ++ 0 :: junk) = hex_text bs.
Proof.
  induction 1 as [|c bs Hc _ (IH1 & IH2 & IH3)]; [by repeat split; constructor|].
  destruct (byte_digits c Hc) as (Hh & Hl & Es). destruct (digit_ok _ Hh) as (X1 & V1 & R1 & N1 & Z1). destruct (digit_ok _ Hl) as (X2 & V2 & R2 & N2 & Z2).
  change (hex_text (c :: bs)) with (digit (c mod 256 / 16) :: digit (c mod 16) :: 32 :: hex_text bs). split; [|split].
  - rewrite !digits_of_cons, X1, X2, V1, V2. change (isxdigit 32) with false. cbn [pairs]. by rewrite Es, IH1.
  - by repeat (constructor; [done|]).
  - intros junk. cbn [app c_string]. destruct (Z.eqb_spec (digit (c mod 256 / 16)) 0), (Z.eqb_spec (digit (c mod 16)) 0); try done.
    by rewrite IH3.
Qed.

(** [Gets] stores the bytes of a raw line with a terminator and leaves in [gets_buf]
    a text that, typed as a line when hexadecimal digits are read, stores the same
    bytes again, for every line of at most 1024 bytes that the buffers have room for;
    a longer line is written past the end of the buffer. *)
Theorem Gets_roundtrip s line tail rest dest (Hline : is_line line) (He : ends tail rest) (Hin : infile s = line ++ tail)
    (Hraw : hexformat s = 0) (Hl : length (gets_buf s) = 3073%nat) (Hlen : (length line <= 1024)%nat) :
  let bs := s8 <$> line in
  if decide (length line < length dest)%nat then
    exists s', Gets dest s = Ok (bs ++ 0 :: drop (S (length line)) dest, s') /\ infile s' = rest /\
      forall s2 dest2 tail2 rest2, hexformat s2 <> 0 -> length (gets_buf s2) = 3073%nat -> (length line < length dest2)%nat ->
        ends tail2 rest2 -> infile s2 = c_string (gets_buf s') ++ tail2 ->
        exists s3, Gets dest2 s2 = Ok (bs ++ 0 :: drop (S (length line)) dest2, s3) /\ infile s3 = rest2
  else Gets dest s = Err BadAccess.
Proof.
  cbv zeta. pose proof (Gets_reads s line tail rest dest Hline He Hin Hl) as Hg. cbv zeta in Hg. unfold line_bytes in Hg.
  rewrite Hraw in Hg. cbn [Z.eqb] in Hg. rewrite length_fmap in Hg. destruct (decide (length line < length dest)%nat); [|done].
  destruct Hg as (b & n & Hrun & junk & -> & _ & _). eexists. split; [exact Hrun|]. split; [done|].
  intros s2 dest2 tail2 rest2 Hh Hl2 Hd2 He2 Hin2. rewrite take_ge in * by (rewrite length_fmap; lia).
  assert (Hbs : Forall (fun c => - 2 ^ 7 <= c < 2 ^ 7) (s8 <$> line)) by (apply Forall_fmap, Forall_true; intros c; apply s8_range).
  destruct (hex_text_back _ Hbs) as (Hp & Hil & Hc). cbn [gets_buf set_gets set_input] in Hin2. rewrite Hc in Hin2.
  pose proof (Gets_reads s2 _ tail2 rest2 dest2 Hil He2 Hin2 Hl2) as Hg. cbv zeta in Hg. unfold line_bytes in Hg.
  destruct (Z.eqb_spec (hexformat s2) 0); [done|]. rewrite Hp, length_fmap in Hg. destruct (decide (length line < length dest2)%nat); [|done].
  destruct Hg as (b2 & n2 & Hrun2 & _). eexists. by split.
Qed.

(** The bytes 1, 200 and 255. *)
Definition attack : list Z := [1; 200; 255].
Definition start (input : list Z) (h : Z) : bomb := mk_bomb input h 0 0x12345678 true 0 0 0 (replicate 3073 0) 0 level_counts_init (-1) [].

Lemma Gets_roundtrip_witness :
  exists s', Gets (replicate 36 7) (start (attack ++ [10; 65]) 0) = Ok ([1; -56; -1; 0] ++ replicate 32 7, s') /\ infile s' = [65] /\
    forall s2 dest2 tail2 rest2, hexformat s2 <> 0 -> length (gets_buf s2) = 3073%nat -> (3 < length dest2)%nat ->
      ends tail2 rest2 -> infile s2 = c_string (gets_buf s') ++ tail2 ->
      exists s3, Gets dest2 s2 = Ok ([1; -56; -1] ++ 0 :: drop 4 dest2, s3) /\ infile s3 = rest2.
Proof.
  apply (Gets_roundtrip (start (attack ++ [10; 65]) 0) attack [10; 65] [65] (replicate 36 7)); try done.
  - by repeat constructor.
  - by right.
  - cbn. lia.
Defined.

(** The text typed back is [01 C8 FF]. *)
Example attack_text : exists s', Gets (replicate 36 7) (start (attack ++ [10; 65]) 0) = Ok ([1; -56; -1; 0] ++ replicate 32 7, s') /\
  c_string (gets_buf s') = [48; 49; 32; 67; 56; 32; 70; 70; 32].
Proof. eexists. by vm_compute. Qed.

(** ** The levels *)

(** A line that fits does nothing: unless the address of the buffer happens to give the
    cookie, [test] reports a dud and no level is validated. *)
Theorem test_harmless s line tail rest addr buf : is_line line -> ends tail rest -> infile s = line ++ tail ->
  length (gets_buf s) = 3073%nat -> length buf = BUFLEN -> (length (line_bytes (hexformat s) line) < BUFLEN)%nat -> u64 addr mod 40 <> cookie s ->
  exists s', test buf addr s = Ok (tt, s') /\ printed s' = printed s ++ [Dud (u64 addr mod 40)] /\
    success s' = success s /\ level_counts s' = level_counts s /\ infile s' = rest.
Proof.
  intros Hline He Hin Hl Hbuf Hlen Hc. unfold test, entry_check, modify. unfold bind at 1.
  set (s1 := set_levels _ _ _ _). pose proof (Gets_reads s1 line tail rest buf Hline He Hin Hl) as Hg. cbv zeta in Hg.
  change (hexformat s1) with (hexformat s) in Hg. rewrite Hbuf in Hg. destruct (decide (length (line_bytes (hexformat s) line) < BUFLEN)%nat); [|done].
  destruct Hg as (b & n & Hrun & _). unfold getbuf. rewrite bind_assoc, (bind_ok _ _ _ _ _ Hrun), bind_ret. unfold bind at 1. rewrite bind_gets.
  destruct (Z.eqb_spec (u64 addr mod 40) (cookie (set_levels (success (set_input rest (set_gets b n s1))) (level_counts (set_input rest (set_gets b n s1))) 3 (set_input rest (set_gets b n s1))))) as [E|E]; [done|].
  eexists. by split.
Qed.

(** [validate] counts a level only for a named user and after the check at its entry. *)
Theorem validate_counts s level : length (level_counts s) = 5%nat -> Forall (fun n => is_s 32 n /\ - 2 ^ 31 < n) (level_counts s) ->
  exists s', validate level s = Ok (tt, s') /\
    if team s && (0 <=? level) && (level <? 5) && (level =? check_level s) then
      success s' = 1 /\ level_counts s' = alter (fun n => n - 1) (Z.to_nat level) (level_counts s)
    else success s' = success s /\ level_counts s' = level_counts s.
Proof.
  intros Hlen Hr. unfold validate. rewrite bind_gets. destruct (team s); cbn [negb andb]; [|by eexists].
  destruct (Z.ltb_spec level 0), (Z.leb_spec 5 level), (Z.leb_spec 0 level), (Z.ltb_spec level 5); cbn [orb andb]; try lia; try by eexists.
  rewrite bind_gets. destruct (Z.eqb_spec level (check_level s)) as [El|El]; cbn [negb]; [|by eexists]. rewrite bind_gets.
  destruct (lookup_lt_is_Some_2 (level_counts s) (Z.to_nat level)) as [x Ex]; [lia|].
  rewrite (bomb_lift _ x) by (apply cell_at; [lia|done]). pose proof (Forall_lookup_1 _ _ _ _ Hr Ex) as [Hx1 Hx2].
  rewrite wraps_small by bound_lia. rewrite (bomb_lift _ (<[Z.to_nat level := x - 1]> (level_counts s))) by (apply set_cell_at; lia). unfold modify at 1. unfold bind at 1.
  assert (Ea : <[Z.to_nat level := x - 1]> (level_counts s) = alter (fun n => n - 1) (Z.to_nat level) (level_counts s)).
  { rewrite list_insert_alter. apply list_alter_ext; [|done]. intros y Hy. congruence. }
  destruct (Z.ltb_spec 0 (x - 1)); [eexists; split; [done|]; by rewrite <- Ea|]. rewrite bind_gets.
  destruct (negb _); eexists; (split; [done|]); by rewrite <- Ea.
Qed.
