(* ===== verification/Gasp.v ===== *)
(** The pattern matcher [uw_cse374/hw3/gasp.c].  A string is its octets.  A file is
    [None] when it does not open, else its octets and whether reading ends in an
    error.  What is printed is a list of messages; the usage message and the error
    numbers are left out. *)
From Stdlib Require Import ZArith Lia.
From S2P Require Import Prelude.
Open Scope Z_scope.

Definition MAX_LINE_LENGTH : Z := 500.
Definition MAX_PATTERN_LENGTH : Z := 100.

Inductive message : Type :=
  | Match_ (filename : list Z) (lineno : option Z) (text : list Z)
  | CannotOpen (filename : list Z)
  | ReadError (filename : list Z).

(** How the program ends and what it has printed. *)
Record outcome : Type := mk_outcome { status : Z; printed : list message }.

(** [tolower] on each character of the string. *)
Definition normalize (str : list Z) : list Z := tolower <$> str.

Definition is_letter_in (c : Z) (arg : list Z) : bool := existsb (Z.eqb c) arg.
Definition should_ignore_case (arg : list Z) (orig : bool) : bool :=
  if orig then true else is_letter_in 105 arg.
Definition should_contain_number_lines (arg : list Z) (orig : bool) : bool :=
  if orig then true else is_letter_in 110 arg.

(** [strstr], as far as the program looks at it. *)
Fixpoint has_prefix (needle hay : list Z) : bool :=
  match needle, hay with
  | [], _ => true
  | n :: needle', h :: hay' => (n =? h) && has_prefix needle' hay'
  | _ :: _, [] => false
  end.
Fixpoint strstr (hay needle : list Z) : bool :=
  has_prefix needle hay || match hay with [] => false | _ :: hay' => strstr hay' needle end.

(** [while (fgets(...) != NULL)]; [orig] holds what it held before unless the case is
    ignored. *)
Fixpoint matching_loop (fuel : nat) (ignore_case contain_number_lines : bool) (filename file pattern orig : list Z) (lineno : Z) :
    res (list message) :=
  match file with
  | [] => Ok []
  | _ =>
    match fuel with
    | O => Err OutOfFuel
    | S fuel' =>
        let '(chunk, file) := fgets_chunk (Z.to_nat (MAX_LINE_LENGTH - 1)) file in
        let buffer := c_string chunk in
        let orig := if ignore_case then buffer else orig in
        let buffer := if ignore_case then normalize buffer else buffer in
        let? out := matching_loop fuel' ignore_case contain_number_lines filename file pattern orig (s32 (lineno + 1)) in
        if strstr buffer pattern then
          Ok (Match_ filename (if contain_number_lines then Some lineno else None) orig :: out)
        else Ok out
    end
  end.

Section gasp.
(** What [fopen] finds under a name; the text in the uninitialised [orig]. *)
Context (fopen : list Z -> option (list Z * bool)) (junk : list Z).

Definition do_pattern_matching (fuel : nat) (ignore_case contain_number_lines : bool) (filename : list Z) (file : list Z * bool) (pattern : list Z) :
    res (list message) :=
  let '(bytes, error) := file in
  let? out := matching_loop fuel ignore_case contain_number_lines filename bytes pattern junk 1 in
  Ok (out ++ if error then [ReadError filename] else []).

(** [for (; i < argc - 2; i++)] over [args], the arguments from [i] on: the flags and the
    arguments left. *)
Fixpoint options_loop (args : list (list Z)) (ignore_case contain_number_lines : bool) : bool * bool * list (list Z) :=
  match args with
  | arg :: ((_ :: _ :: _) as rest) =>
      match arg with
      | 45 :: _ => options_loop rest (should_ignore_case arg ignore_case) (should_contain_number_lines arg contain_number_lines)
      | _ => (ignore_case, contain_number_lines, args)
      end
  | _ => (ignore_case, contain_number_lines, args)
  end.

(** [for (i += 1; i < argc; i++)] *)
Fixpoint files_loop (fuel : nat) (ignore_case contain_number_lines : bool) (pattern : list Z) (files : list (list Z)) : res (list message) :=
  match files with
  | [] => Ok []
  | name :: files' =>
      let? out :=
        match fopen name with
        | None => Ok [CannotOpen name]
        | Some file => do_pattern_matching fuel ignore_case contain_number_lines name file pattern
        end in
      let? more := files_loop fuel ignore_case contain_number_lines pattern files' in
      Ok (out ++ more)
  end.

(** [main], on the arguments after the program's name. *)
Definition gasp_main (fuel : nat) (args : list (list Z)) : res outcome :=
  if Z.of_nat (length args) + 1 <? 3 then Ok (mk_outcome (-1) [])
  else
    let '(ignore_case, contain_number_lines, args) := options_loop args false false in
    match args with
    | [] => Err BadAccess
    | pattern :: files =>
        if MAX_PATTERN_LENGTH <? Z.of_nat (length pattern) then Ok (mk_outcome (-1) [])
        else
          let pattern := if ignore_case then normalize pattern else pattern in
          let? out := files_loop fuel ignore_case contain_number_lines pattern files in
          Ok (mk_outcome 0 out)
    end.
End gasp.
