(* ===== verification/GaspSpec.v ===== *)
(** What the pattern matcher of [Gasp] prints: the lines of its files that contain the
    pattern, in order. *)
From Stdlib Require Import ZArith Lia.
From S2P Require Import Prelude Gasp.
Open Scope Z_scope.

(** [needle] occurs in [hay]. *)
Definition contains (needle hay : list Z) : Prop := exists before after, hay = before ++ needle ++ after.

Lemma has_prefix_spec needle hay : has_prefix needle hay = true <-> exists after, hay = needle ++ after.
Proof.
  revert hay. induction needle as [|n needle IH]; intros hay; cbn; [naive_solver|].
  destruct hay as [|h hay]; [naive_solver|]. rewrite andb_true_iff, Z.eqb_eq, IH. naive_solver.
Qed.

Lemma strstr_spec hay needle : strstr hay needle = true <-> contains needle hay.
Proof.
  unfold contains. induction hay as [|h hay IH]; cbn [strstr]; rewrite orb_true_iff, has_prefix_spec.
  - split; [|intros (before & after & E); left; destruct before; [by exists after|done]].
    intros [[after E]|]; [by exists [], after|done].
  - rewrite IH. split.
    + intros [[after E]|(before & after & ->)]; [by exists [], after|by exists (h :: before), after].
    + intros ([|b before] & after & E); [left; by exists after|right]. injection E as _ ->. by exists before, after.
Qed.

#[export] Instance contains_dec needle hay : Decision (contains needle hay).
Proof. destruct (strstr hay needle) eqn:E; [left; by apply strstr_spec|right; intros H%strstr_spec; congruence]. Defined.

Lemma strstr_decide hay needle : strstr hay needle = bool_decide (contains needle hay).
Proof. apply eq_true_iff_eq. by rewrite strstr_spec, bool_decide_eq_true. Qed.

(** ** Files *)

(** Lines of ordinary characters that fit in the buffer, each ended by a newline. *)
Definition text_line (l : list Z) : Prop := Forall (fun c => c <> 0 /\ c <> 10) l /\ Z.of_nat (length l) < MAX_LINE_LENGTH - 1.
Definition text_file (ls : list (list Z)) : list Z := concat ((fun l => l ++ [10]) <$> ls).

Definition fold_case (ignore_case : bool) (s : list Z) : list Z := if ignore_case then tolower <$> s else s.

(** The messages for the lines [ls] of a file, numbered from [n] on.  The text is the
    line only if the case is ignored; otherwise it is what was in [orig]. *)
Fixpoint matches (ignore_case number : bool) (name pattern junk : list Z) (n : Z) (ls : list (list Z)) : list message :=
  match ls with
  | [] => []
  | l :: ls' =>
      (if decide (contains pattern (fold_case ignore_case (l ++ [10])))
       then [Match_ name (if number then Some n else None) (if ignore_case then l ++ [10] else junk)] else []) ++
      matches ignore_case number name pattern junk (n + 1) ls'
  end.

Lemma c_string_text l : Forall (fun c => c <> 0) l -> c_string l = l.
Proof. induction 1 as [|c l Hc _ IH]; cbn; [done|]. by rewrite (proj2 (Z.eqb_neq c 0)), IH. Qed.

Lemma matching_loop_run ignore number name pattern junk ls : Forall text_line ls -> forall fuel orig n,
  (length ls < fuel)%nat -> (ignore = false -> orig = junk) -> 0 <= n -> n + Z.of_nat (length ls) < 2 ^ 31 ->
  matching_loop fuel ignore number name (text_file ls) pattern orig n = Ok (matches ignore number name pattern junk n ls).
Proof.
  induction 1 as [|l ls [Hl Hlen] _ IH]; intros [|fuel] orig n Hf Ho Hn Hi; try (cbn in Hf; lia); [done|]. cbn [length] in *.
  unfold text_file. cbn [fmap list_fmap concat]. fold (text_file ls). rewrite <- app_assoc. cbn [app].
  destruct (l ++ 10 :: text_file ls) as [|c0 cs] eqn:E; [by destruct l|]. cbn [matching_loop]. rewrite <- E.
  rewrite fgets_chunk_line by (done || lia). rewrite c_string_text.
  2: { apply Forall_app. split; [eapply Forall_impl; [exact Hl|naive_solver]|by repeat constructor]. }
  rewrite wraps_small by bound_lia. rewrite (IH fuel _ (n + 1)) by ((intros ->; auto) || lia). cbn [rbind matches].
  rewrite strstr_decide. unfold fold_case, normalize.
  destruct ignore; [|rewrite Ho by done]; unfold bool_decide, decide; by destruct (contains_dec _ _).
Qed.

(** ** The program *)

(** The options in front of the pattern: words that begin with a dash. *)
Definition option_word (w : list Z) : Prop := head w = Some 45.
Definition has_option (c : Z) (options : list (list Z)) : bool := existsb (is_letter_in c) options.

Lemma options_loop_run options pattern names : Forall option_word options -> ~ option_word pattern \/ length names = 1%nat ->
  names <> [] -> forall i n, options_loop (options ++ pattern :: names) i n =
    (i || has_option 105 options, n || has_option 110 options, pattern :: names).
Proof.
  intros Ho Hp Hne. induction Ho as [|w options Hw _ IH]; intros i n.
  - cbn [app has_option existsb]. rewrite !orb_false_r. destruct names as [|f1 [|f2 names]]; [done|done|]. cbn [options_loop].
    destruct pattern as [|c pattern]; [done|]. destruct (decide (c = 45)) as [->|Hc]; [by destruct Hp as [Hp|]; [destruct Hp|]|].
    repeat (destruct c as [|c|c]; try done).
  - destruct w as [|c w]; [done|]. injection Hw as ->. cbn [app options_loop].
    destruct (options ++ pattern :: names) as [|a [|b rest]] eqn:E.
    + by destruct options.
    + destruct options as [|? [|]]; cbn in E; [|done|done]. by destruct names.
    + rewrite IH. unfold should_ignore_case, should_contain_number_lines, has_option. cbn [existsb]. by destruct i, n.
Qed.

(** What [gasp] prints for one file. *)
Definition file_messages (fs : list Z -> option (list (list Z) * bool)) (ignore number : bool) (pattern junk name : list Z) : list message :=
  match fs name with
  | None => [CannotOpen name]
  | Some (ls, error) => matches ignore number name pattern junk 1 ls ++ if error then [ReadError name] else []
  end.

(** With options, a pattern and files [gasp] prints, for each file in order, a
    message that it cannot be opened, or its lines that contain the pattern - both
    in lower case if an option has an [i] - with their numbers if an option has an
    [n], and a message if reading it failed.  It exits with 0, or with -1 and prints
    nothing if the pattern has more than 100 characters.  Without the option [i]
    the text printed is not the line but what the uninitialised [orig] held. *)
Theorem gasp_prints fs junk fuel options pattern names (Hoptions : Forall option_word options)
    (Hpattern : ~ option_word pattern \/ length names = 1%nat) (Hnames : names <> [])
    (Hfiles : forall name ls error, name ∈ names -> fs name = Some (ls, error) ->
       Forall text_line ls /\ (length ls < fuel)%nat /\ Z.of_nat (length ls) < 2 ^ 31 - 1) :
  let ignore := has_option 105 options in
  gasp_main (fun name => '(ls, error) ← fs name; Some (text_file ls, error)) junk fuel (options ++ pattern :: names) =
  Ok (if decide (Z.of_nat (length pattern) <= MAX_PATTERN_LENGTH)
      then mk_outcome 0 (concat (file_messages fs ignore (has_option 110 options) (fold_case ignore pattern) junk <$> names))
      else mk_outcome (-1) []).
Proof.
  cbv zeta. unfold gasp_main. rewrite length_app. cbn [length].
  destruct (Z.ltb_spec (Z.of_nat (length options + S (length names)) + 1) 3); [destruct names; [done|cbn in *; lia]|].
  rewrite options_loop_run by done. cbn [orb]. destruct (Z.ltb_spec MAX_PATTERN_LENGTH (Z.of_nat (length pattern))); destruct (decide _); try lia; [done|].
  set (ignore := has_option 105 options). set (number := has_option 110 options).
  change (if ignore then normalize pattern else pattern) with (fold_case ignore pattern).
  match goal with |- (let? out := ?f in _) = _ => enough (f = Ok (concat (file_messages fs ignore number (fold_case ignore pattern) junk <$> names))) as -> by done end.
  clear - Hfiles. induction names as [|name names IH]; [done|]. cbn [files_loop fmap list_fmap concat].
  rewrite IH by (intros ? ? ? ?; apply Hfiles; by right).
  destruct (fs name) as [[ls error]|] eqn:E; cbn [mbind option_bind rbind]; [|unfold file_messages; by rewrite E].
  destruct (Hfiles name ls error ltac:(by left) E) as (Hls & Hf & Hi). unfold do_pattern_matching, file_messages.
  rewrite E, (matching_loop_run _ _ _ _ junk) by (done || lia). done.
Qed.

(** One file, named [f], with the lines [Ab], [bc] and [xx]. *)
Definition sample_fs (name : list Z) : option (list (list Z) * bool) :=
  if decide (name = [102]) then Some ([[65; 98]; [98; 99]; [120; 120]], false) else None.

Lemma gasp_prints_witness :
  gasp_main (fun name => '(ls, error) ← sample_fs name; Some (text_file ls, error)) [63] 10 [[45; 105; 110]; [66]; [102]; [103]] =
  Ok (mk_outcome 0 [Match_ [102] (Some 1) [65; 98; 10]; Match_ [102] (Some 2) [98; 99; 10]; CannotOpen [103]]).
Proof.
  refine (eq_trans (gasp_prints sample_fs [63] 10 [[45; 105; 110]] [66] [[102]; [103]] _ _ _ _) _); [by repeat constructor|by left|done| |by vm_compute].
  intros name ls error _. unfold sample_fs. destruct (decide (name = [102])); [|done]. intros [= <- <-]. split; [|cbn; lia].
  by repeat (constructor || (split; [by repeat constructor|done])).
Defined.

(** A line longer than the buffer is read in pieces, which are counted as lines. *)
Example long_line : exists text,
  gasp_main (fun _ => Some (replicate 600 97 ++ [98; 10], false)) [63] 10 [[45; 105; 110]; [98]; [102]] = Ok (mk_outcome 0 [Match_ [102] (Some 2) text]).
Proof. eexists. by vm_compute. Qed.
