(* ===== verification/ThreadPool.v ===== *)
(** The thread pool of [uw_cse333/hw/hw4/ThreadPool.cc] as a transition system: a pool of
    worker threads in [ThreadLoop], and the thread that constructs the pool, dispatches
    tasks to it and destroys it.  A step runs one thread up to its next call of the
    threads library, or of a task's function; a thread that needs the lock has no step while another holds it.
    What the scheduler chooses is the argument of the step.  The calls of the library
    succeed; [pthread_cond_signal] wakes at least one of the threads that wait, and a
    thread may also wake up without a signal. *)
From S2P Require Import Prelude.

(** Where a worker stands. *)
Inductive worker : Type :=
  | Born                 (** before it first takes the lock *)
  | Test                 (** at [while (killthreads_ == false)], with the lock *)
  | Sleeping             (** in [pthread_cond_wait] *)
  | Woken                (** there too, woken, without the lock yet *)
  | Draining             (** at the inner loop, with the lock *)
  | Fetched (t : nat)    (** a task taken off the queue, the lock released, its function not yet called *)
  | Running (t : nat)    (** in the task's function *)
  | Relocking            (** after the task, without the lock yet *)
  | Exited.
#[export] Instance worker_eq_dec : EqDecision worker.
Proof. solve_decision. Defined.

(** Where the owner of the pool stands; [todo] are the tasks it has yet to dispatch. *)
Inductive client : Type :=
  | Constructing         (** before the constructor takes the lock *)
  | Spawning (i : nat)   (** in the constructor, [i] threads created *)
  | Polling              (** at [while (num_threads_running_ != num_threads)], with the lock *)
  | Repolling            (** between the loop's unlock and lock *)
  | Serving              (** outside the pool *)
  | Dispatching (t : nat) (** in [Dispatch], with the lock *)
  | Signalling           (** there too, the task enqueued *)
  | Unlocking            (** there too, signalled *)
  | Joining (i n : nat)  (** at the destructor's loop, with the lock *)
  | Waiting (i n : nat)  (** in [pthread_join] on the [i]-th thread *)
  | Rejoining (i n : nat) (** after it, without the lock yet *)
  | Emptying             (** at the destructor's last loop *)
  | Finished
  | Aborted.             (** a [Verify333] failed *)
#[export] Instance client_eq_dec : EqDecision client.
Proof. solve_decision. Defined.

Inductive thread : Type := Owner | Worker (i : nat).
#[export] Instance thread_eq_dec : EqDecision thread.
Proof. solve_decision. Defined.

Record ThreadPool : Type := mk_pool {
  qlock : option thread;       (** who holds [qlock_] *)
  work_queue : list nat;
  killthreads : bool;
  num_threads_running : nat;
  threads : list worker;
  owner : client;
  todo : list nat;             (** tasks the owner will dispatch *)
  taken : list nat;            (** tasks taken off the queue, in order *)
  started : list nat           (** tasks whose function was called, in order *)
}.

Definition lock (l : option thread) (p : ThreadPool) : ThreadPool :=
  mk_pool l (work_queue p) (killthreads p) (num_threads_running p) (threads p) (owner p) (todo p) (taken p) (started p).
Definition set_worker (i : nat) (w : worker) (p : ThreadPool) : ThreadPool :=
  mk_pool (qlock p) (work_queue p) (killthreads p) (num_threads_running p) (<[i := w]> (threads p)) (owner p) (todo p) (taken p) (started p).
Definition set_owner (c : client) (p : ThreadPool) : ThreadPool :=
  mk_pool (qlock p) (work_queue p) (killthreads p) (num_threads_running p) (threads p) c (todo p) (taken p) (started p).
Definition set_running (n : nat) (p : ThreadPool) : ThreadPool :=
  mk_pool (qlock p) (work_queue p) (killthreads p) n (threads p) (owner p) (todo p) (taken p) (started p).
Definition set_queue (q : list nat) (p : ThreadPool) : ThreadPool :=
  mk_pool (qlock p) q (killthreads p) (num_threads_running p) (threads p) (owner p) (todo p) (taken p) (started p).
Definition set_threads (ts : list worker) (p : ThreadPool) : ThreadPool :=
  mk_pool (qlock p) (work_queue p) (killthreads p) (num_threads_running p) ts (owner p) (todo p) (taken p) (started p).
Definition kill (p : ThreadPool) : ThreadPool :=
  mk_pool (qlock p) (work_queue p) true (num_threads_running p) (threads p) (owner p) (todo p) (taken p) (started p).
Definition set_todo (ts : list nat) (p : ThreadPool) : ThreadPool :=
  mk_pool (qlock p) (work_queue p) (killthreads p) (num_threads_running p) (threads p) (owner p) ts (taken p) (started p).
Definition call_task (t : nat) (p : ThreadPool) : ThreadPool :=
  mk_pool (qlock p) (work_queue p) (killthreads p) (num_threads_running p) (threads p) (owner p) (todo p) (taken p) (started p ++ [t]).
(** [work_queue_.front()] and [pop_front()] *)
Definition take_task (t : nat) (q : list nat) (p : ThreadPool) : ThreadPool :=
  mk_pool (qlock p) q (killthreads p) (num_threads_running p) (threads p) (owner p) (todo p) (taken p ++ [t]) (started p).

(** [pthread_mutex_lock]: no step while the lock is held. *)
Definition acquire (who : thread) (p : ThreadPool) : option ThreadPool :=
  match qlock p with None => Some (lock (Some who) p) | Some _ => None end.

(** [pthread_cond_broadcast], and [pthread_cond_signal] waking the threads [wake]. *)
Definition rouse (w : worker) : worker := match w with Sleeping => Woken | _ => w end.
Definition broadcast (p : ThreadPool) : ThreadPool := set_threads (rouse <$> threads p) p.
Definition sleeps (ts : list worker) (i : nat) : bool := bool_decide (ts !! i = Some Sleeping).
Definition wake_up (wake : list nat) (ts : list worker) : list worker :=
  imap (fun i w => if bool_decide (i ∈ wake) then rouse w else w) ts.
Definition signal (wake : list nat) (p : ThreadPool) : option ThreadPool :=
  let ts := threads p in
  if bool_decide (Sleeping ∈ ts) && negb (existsb (sleeps ts) wake) then None
  else Some (set_threads (wake_up wake ts) p).

(** *** ThreadLoop *)

Definition worker_step (i : nat) (p : ThreadPool) : option ThreadPool :=
  match threads p !! i with
  | Some Born =>
      p ← acquire (Worker i) p;
      Some (set_worker i Test (set_running (S (num_threads_running p)) p))
  | Some Test =>
      if negb (killthreads p) then Some (lock None (set_worker i Sleeping p))
      else Some (lock None (set_worker i Exited (set_running (pred (num_threads_running p)) p)))
  | Some Woken => set_worker i Draining <$> acquire (Worker i) p
  | Some Draining =>
      match work_queue p with
      | t :: q =>
          if negb (killthreads p) then Some (lock None (set_worker i (Fetched t) (take_task t q p)))
          else Some (set_worker i Test p)
      | [] => Some (set_worker i Test p)
      end
  | Some (Fetched t) => Some (set_worker i (Running t) (call_task t p))
  | Some (Running _) => Some (set_worker i Relocking p)
  | Some Relocking => set_worker i Draining <$> acquire (Worker i) p
  | _ => None
  end.

(** *** The constructor, [Dispatch] and the destructor *)

Section owner.
Context (num_threads : nat).

Definition owner_step (wake : list nat) (p : ThreadPool) : option ThreadPool :=
  match owner p with
  | Constructing => set_owner (Spawning 0) <$> acquire Owner p
  | Spawning i =>
      if (i <? num_threads)%nat then Some (set_owner (Spawning (S i)) (set_threads (threads p ++ [Born]) p))
      else Some (set_owner Polling p)
  | Polling =>
      if negb (num_threads_running p =? num_threads)%nat then Some (set_owner Repolling (lock None p))
      else Some (set_owner Serving (lock None p))
  | Repolling => set_owner Polling <$> acquire Owner p
  | Serving =>
      match todo p with
      | t :: ts => set_owner (Dispatching t) ∘ set_todo ts <$> acquire Owner p
      | [] => (fun p => set_owner (Joining 0 (num_threads_running p)) (kill p)) <$> acquire Owner p
      end
  | Dispatching t =>
      if killthreads p then Some (set_owner Aborted p)
      else Some (set_owner Signalling (set_queue (work_queue p ++ [t]) p))
  | Signalling => set_owner Unlocking <$> signal wake p
  | Unlocking => Some (set_owner Serving (lock None p))
  | Joining i n =>
      if (i <? n)%nat then Some (set_owner (Waiting i n) (lock None (broadcast p)))
      else if (num_threads_running p =? 0)%nat then Some (set_owner Emptying (lock None p))
      else Some (set_owner Aborted p)
  | Waiting i n =>
      match threads p !! i with Some Exited => Some (set_owner (Rejoining i n) p) | _ => None end
  | Rejoining i n => set_owner (Joining (S i) n) <$> acquire Owner p
  | Emptying =>
      match work_queue p with
      | t :: q => Some (call_task t (take_task t q p))
      | [] => Some (set_owner Finished p)
      end
  | Finished | Aborted => None
  end.

(** What the scheduler may choose. *)
Inductive choice : Type :=
  | Run (i : nat)                 (** a step of a worker *)
  | Spurious (i : nat)            (** a worker wakes up unasked *)
  | Proceed (wake : list nat).    (** a step of the owner; whom a signal wakes *)

Definition exec (c : choice) (p : ThreadPool) : option ThreadPool :=
  match c with
  | Run i => worker_step i p
  | Spurious i => if sleeps (threads p) i then Some (set_worker i Woken p) else None
  | Proceed wake => owner_step wake p
  end.

Definition new_pool (tasks : list nat) : ThreadPool := mk_pool None [] false 0 [] Constructing tasks [] [].

(** A run by a sequence of choices. *)
Fixpoint run (cs : list choice) (p : ThreadPool) : option ThreadPool :=
  match cs with [] => Some p | c :: cs' => p' ← exec c p; run cs' p' end.
End owner.
