(* ===== verification/ThreadPoolSpec.v ===== *)
(** What [ThreadPool] promises, whatever the scheduler does: mutual exclusion, no failed
    check, tasks taken in order and called exactly once, no task forgotten while the threads
    sleep, and an end. *)
From Stdlib Require Import Lia.
From S2P Require Import Prelude ThreadPool.
Open Scope nat_scope.

(** ** Sums over the workers *)

Lemma sum_insert {A} (f : A -> nat) ts i x y : ts !! i = Some x ->
  sum_list_with f (<[i := y]> ts) + f x = sum_list_with f ts + f y.
Proof.
  revert i. induction ts as [|t ts IH]; intros [|i] Hi; simpl in *; [done..|injection Hi as ->; lia|]. specialize (IH i Hi).
  change (f t + sum_list_with f (<[i:=y]> ts) + f x = f t + sum_list_with f ts + f y). lia.
Qed.

Lemma sum_elem {A} (f : A -> nat) ts i x : ts !! i = Some x -> f x <= sum_list_with f ts.
Proof. revert i. induction ts as [|t ts IH]; intros [|i] Hi; simpl in *; [done..|injection Hi as ->; lia|]. specialize (IH i Hi). lia. Qed.

Lemma sum_all {A} (f : A -> nat) ts c : (forall i x, ts !! i = Some x -> f x = c) -> sum_list_with f ts = c * length ts.
Proof.
  induction ts as [|t ts IH]; intros H; cbn; [lia|]. rewrite (H 0 t eq_refl), IH; [lia|]. intros i x Hi. by apply (H (S i)).
Qed.

Lemma sum_zero {A} (f : A -> nat) ts : sum_list_with f ts = 0 -> forall i x, ts !! i = Some x -> f x = 0.
Proof. intros H i x Hi. pose proof (sum_elem f ts i x Hi). lia. Qed.

(** ** The invariant *)

Definition holds_lock (w : worker) : bool := match w with Test | Draining => true | _ => false end.
Definition owner_holds (c : client) : bool :=
  match c with Spawning _ | Polling | Dispatching _ | Signalling | Unlocking | Joining _ _ => true | _ => false end.
Definition alive (w : worker) : nat := match w with Born | Exited => 0 | _ => 1 end.
(** A worker that will look at the queue before it sleeps. *)
Definition active (w : worker) : bool := match w with Woken | Draining | Fetched _ | Running _ | Relocking => true | _ => false end.
(** The task a worker has taken and not called yet. *)
Definition fetched (w : worker) : list nat := match w with Fetched t => [t] | _ => [] end.
Definition in_hand (p : ThreadPool) : list nat := concat (fetched <$> threads p).
Definition pending (c : client) : list nat := match c with Dispatching t => [t] | _ => [] end.

Section pool.
Context (n : nat) (tasks : list nat).

(** What holds in each phase of the owner. *)
Definition phase (p : ThreadPool) : Prop :=
  match owner p with
  | Constructing => threads p = [] /\ killthreads p = false /\ work_queue p = []
  | Spawning i => length (threads p) = i /\ i <= n /\ killthreads p = false /\ work_queue p = []
  | Polling | Repolling => length (threads p) = n /\ killthreads p = false /\ work_queue p = []
  | Serving | Dispatching _ | Signalling | Unlocking =>
      length (threads p) = n /\ killthreads p = false /\ (forall i, threads p !! i <> Some Born)
  | Joining i m | Waiting i m | Rejoining i m =>
      m = n /\ length (threads p) = n /\ killthreads p = true /\ todo p = [] /\ i <= n /\ (owner p = Joining i m \/ i < n) /\
      (forall j, threads p !! j <> Some Born) /\
      (forall j, j < i -> threads p !! j = Some Exited) /\
      (owner p = Waiting i m -> forall j, threads p !! j <> Some Sleeping) /\
      (owner p = Rejoining i m -> threads p !! i = Some Exited)
  | Emptying => todo p = [] /\ killthreads p = true /\ length (threads p) = n /\ (forall j w, threads p !! j = Some w -> w = Exited)
  | Finished => todo p = [] /\ killthreads p = true /\ work_queue p = [] /\ length (threads p) = n /\ (forall j w, threads p !! j = Some w -> w = Exited)
  | Aborted => False
  end.

Record inv (p : ThreadPool) : Prop := {
  iv_worker : forall i w, threads p !! i = Some w -> holds_lock w = true <-> qlock p = Some (Worker i);
  iv_range : forall i, qlock p = Some (Worker i) -> i < length (threads p);
  iv_owner : owner_holds (owner p) = true <-> qlock p = Some Owner;
  iv_running : num_threads_running p = sum_list_with alive (threads p);
  iv_phase : phase p;
  iv_log : taken p ++ work_queue p ++ pending (owner p) ++ todo p = tasks;
  iv_called : started p ++ in_hand p ≡ₚ taken p;
  iv_exited : killthreads p = false -> forall i, threads p !! i <> Some Exited;
  iv_test : killthreads p = false -> forall i, threads p !! i = Some Test -> work_queue p = [];
  iv_active : 0 < n -> killthreads p = false -> work_queue p <> [] ->
    owner p = Signalling \/ exists i w, threads p !! i = Some w /\ active w = true
}.

Lemma inv_new : inv (new_pool tasks).
Proof. by split; cbn. Qed.

(** A step of a worker touches the phase only where it moves that worker. *)
Lemma phase_worker p p' i w w' : phase p -> owner p' = owner p -> threads p' = <[i := w']> (threads p) -> threads p !! i = Some w ->
  killthreads p' = killthreads p -> todo p' = todo p -> (work_queue p = [] -> work_queue p' = []) ->
  w <> Exited -> w' <> Born -> (w' = Sleeping -> killthreads p = false) -> phase p'.
Proof.
  intros Hph Eo Et Hw Ek Ed Eq Hx Hb Hs. pose proof (lookup_lt_Some _ _ _ Hw) as Hlt.
  assert (Hold : forall j v, threads p' !! j = Some v -> v = w' \/ threads p !! j = Some v).
  { intros j v. rewrite Et. intros [(_ & <- & _)|(_ & H)]%list_lookup_insert_Some; auto. }
  assert (Hexit : forall j, threads p !! j = Some Exited -> threads p' !! j = Some Exited).
  { intros j Hj. rewrite Et. apply list_lookup_insert_Some. right. split; [|done]. intros ->. congruence. }
  assert (El : length (threads p') = length (threads p)) by (by rewrite Et, length_insert).
  assert (Hborn : (forall j, threads p !! j <> Some Born) -> forall j, threads p' !! j <> Some Born).
  { intros H j Hj. apply Hold in Hj as [<-|Hj]; [done|by apply (H j)]. }
  unfold phase in *. rewrite Eo. destruct (owner p) eqn:Eow; rewrite ?El, ?Ek, ?Ed; cbn in *; try tauto.
  - destruct Hph as (H1 & _). rewrite H1 in Hw. by destruct i.
  - destruct Hph as (? & ? & ? & ? & ? & ? & Hnb & Hex & Hsl & Hre). split_and!; auto.
  - destruct Hph as (? & ? & ? & ? & ? & ? & Hnb & Hex & Hsl & Hre). split_and!; auto.
    intros _ j Hj. apply Hold in Hj as [E|Hj]; [|by apply (Hsl eq_refl j)]. specialize (Hs (eq_sym E)). congruence.
  - destruct Hph as (? & ? & ? & ? & ? & ? & Hnb & Hex & Hsl & Hre). split_and!; auto.
  - destruct Hph as (_ & _ & _ & H). by apply H in Hw.
  - destruct Hph as (_ & _ & _ & _ & H). by apply H in Hw.
Qed.

Lemma in_hand_worker p p' i w w' : threads p !! i = Some w -> threads p' = <[i := w']> (threads p) ->
  in_hand p' ++ fetched w ≡ₚ fetched w' ++ in_hand p.
Proof.
  intros Hw Et. unfold in_hand. rewrite Et. clear Et. revert i Hw. induction (threads p) as [|v ts IH]; intros [|i] Hw; [done..| |]; cbn in *.
  - injection Hw as ->. solve_Permutation.
  - specialize (IH i Hw). rewrite <- app_assoc, IH. solve_Permutation.
Qed.

Lemma inv_worker p p' i w w' : inv p -> threads p !! i = Some w -> threads p' = <[i := w']> (threads p) ->
  owner p' = owner p -> killthreads p' = killthreads p -> todo p' = todo p ->
  (qlock p = None /\ qlock p' = Some (Worker i) /\ holds_lock w' = true) \/
    (qlock p = Some (Worker i) /\ qlock p' = None /\ holds_lock w' = false) \/ (qlock p' = qlock p /\ holds_lock w' = holds_lock w) ->
  num_threads_running p' + alive w = num_threads_running p + alive w' ->
  taken p' ++ work_queue p' = taken p ++ work_queue p ->
  (exists ts, started p' ++ fetched w' ≡ₚ started p ++ fetched w ++ ts /\ taken p' = taken p ++ ts) -> (work_queue p = [] -> work_queue p' = []) ->
  w <> Exited -> w' <> Born -> (w' = Sleeping -> killthreads p = false) -> (w' = Exited -> killthreads p = true) ->
  (killthreads p = false -> w' = Test -> work_queue p' = []) ->
  (killthreads p = false -> active w = true -> active w' = true \/ work_queue p' = []) -> inv p'.
Proof.
  intros [Hwk Hrg How Hrn Hph Hlg Hcl Hex Hts Hac] Hw Et Eo Ek Ed Hl Ern Elg (ts & Hst & Htk) Hq Hwx Hwb Hsl Hxk Htq Hact.
  pose proof (lookup_lt_Some _ _ _ Hw) as Hlt.
  assert (Hin : forall j v, threads p' !! j = Some v -> (j = i /\ v = w') \/ (j <> i /\ threads p !! j = Some v)).
  { intros j v. rewrite Et. intros [(-> & <- & _)|(H & ?)]%list_lookup_insert_Some; auto. }
  split.
  - intros j v [[-> ->]|[Hji Hj]]%Hin; [specialize (Hwk _ _ Hw)|specialize (Hwk _ _ Hj)];
      destruct Hl as [(E1 & E2 & E3)|[(E1 & E2 & E3)|(E1 & E3)]]; rewrite ?E1, ?E2, ?E3 in *; naive_solver.
  - intros j. rewrite Et, length_insert. destruct Hl as [(E1 & E2 & E3)|[(E1 & E2 & E3)|(E1 & E3)]]; rewrite ?E2, ?E1; try done; [by intros [= ->]|apply Hrg].
  - rewrite Eo. destruct Hl as [(E1 & E2 & E3)|[(E1 & E2 & E3)|(E1 & E3)]]; rewrite ?E1, ?E2 in *; naive_solver.
  - rewrite Et. pose proof (sum_insert alive (threads p) i w w' Hw). lia.
  - eapply phase_worker; eauto.
  - rewrite Eo, Ed, app_assoc, Elg, <- app_assoc. done.
  - pose proof (in_hand_worker p p' i w w' Hw Et) as Hh. apply (Permutation_app_inv_r (fetched w)).
    rewrite <- app_assoc, Hh, app_assoc, Hst, Htk, <- Hcl. solve_Permutation.
  - rewrite Ek. intros Hk j [[_ ?]|[_ Hj]]%Hin; [|by eapply Hex]. rewrite Hxk in Hk; done.
  - rewrite Ek. intros Hk j [[_ ?]|[_ Hj]]%Hin; eauto.
  - rewrite Ek, Eo. intros Hn Hk Hne. destruct Hac as [?|(j & v & Hj & Hv)]; auto. right.
    destruct (decide (j = i)) as [->|Hji].
    + rewrite Hw in Hj. injection Hj as <-. exists i, w'. rewrite Et, list_lookup_insert_eq by done. destruct (Hact Hk Hv); done.
    + exists j, v. by rewrite Et, list_lookup_insert_ne by done.
Qed.

Lemma phase_born p i : phase p -> threads p !! i = Some Born -> killthreads p = false -> work_queue p = [].
Proof. unfold phase. intros H Hi Hk. destruct (owner p); try tauto; naive_solver. Qed.

Lemma inv_worker_step i p p' : inv p -> worker_step i p = Some p' -> inv p'.
Proof.
  intros Hi. unfold worker_step, acquire. destruct (threads p !! i) as [w|] eqn:Hw; [|done].
  pose proof (iv_worker p Hi i w Hw) as Hh. pose proof (sum_elem alive _ _ _ Hw) as Hal. rewrite <- (iv_running p Hi) in Hal.
  assert (Hno : forall ts : list nat, exists us, ts ++ [] ≡ₚ ts ++ us /\ taken p = taken p ++ us) by (intros ts; exists []; by rewrite !app_nil_r).
  destruct w; try done; cbn in Hh.
  - destruct (qlock p) eqn:El; [done|]. intros [= <-]. eapply inv_worker; try done; cbn; eauto using phase_born, iv_phase with lia.
  - destruct (killthreads p) eqn:Ek; intros [= <-]; eapply inv_worker; try done; cbn in *; eauto with lia; naive_solver.
  - destruct (qlock p) eqn:El; [done|]. intros [= <-]. eapply inv_worker; try done; cbn; eauto with lia.
  - destruct (work_queue p) as [|t q] eqn:Eq; [|destruct (killthreads p) eqn:Ek]; intros [= <-]; eapply inv_worker; try done; cbn; rewrite ?Eq; eauto with lia; try naive_solver.
    all: try congruence; by rewrite <- app_assoc.
  - intros [= <-]. eapply inv_worker; try done; cbn; eauto with lia. exists []. by rewrite !app_nil_r.
  - intros [= <-]. eapply inv_worker; try done; cbn; eauto with lia.
  - destruct (qlock p) eqn:El; [done|]. intros [= <-]. eapply inv_worker; try done; cbn; eauto with lia.
Qed.

Lemma inv_spurious i p : inv p -> threads p !! i = Some Sleeping -> inv (set_worker i Woken p).
Proof. intros Hi Hw. eapply inv_worker; try done; cbn; eauto with lia. exists []. by rewrite !app_nil_r. Qed.

(** A step of the owner that at most wakes workers. *)
Definition woken_by (w w' : worker) : Prop := w' = w \/ (w = Sleeping /\ w' = Woken).

Lemma woken_refl ts : Forall2 woken_by ts ts.
Proof. induction ts; constructor; [by left|done]. Qed.

Lemma woken_broadcast ts : Forall2 woken_by ts (rouse <$> ts).
Proof. apply Forall2_fmap_r. induction ts as [|w ts IH]; constructor; [|done]. destruct w; cbn; unfold woken_by; auto. Qed.

Lemma woken_signal wake ts : Forall2 woken_by ts (wake_up wake ts).
Proof.
  unfold wake_up. apply Forall2_same_length_lookup. split; [by rewrite length_imap|]. intros i w w' Hw. rewrite list_lookup_imap, Hw. intros [= <-].
  case_bool_decide; [|by left]. destruct w; cbn; by (left + right).
Qed.

Lemma woken_alive ts ts' : Forall2 woken_by ts ts' -> sum_list_with alive ts' = sum_list_with alive ts.
Proof. induction 1 as [|w w' ? ? [->|[-> ->]]]; cbn; lia. Qed.

Lemma woken_in_hand ts ts' : Forall2 woken_by ts ts' -> concat (fetched <$> ts') = concat (fetched <$> ts).
Proof. induction 1 as [|w w' ? ? [->|[-> ->]] _ IH]; cbn; [done|by rewrite IH..]. Qed.

Lemma woken_back ts ts' i w : Forall2 woken_by ts ts' -> ts' !! i = Some w -> ts !! i = Some w \/ (ts !! i = Some Sleeping /\ w = Woken).
Proof.
  intros H Hi. destruct (Forall2_lookup_r _ _ _ _ _ H Hi) as (v & Hv & [->|[-> ->]]); auto.
Qed.

Lemma woken_forth ts ts' i w : Forall2 woken_by ts ts' -> ts !! i = Some w -> active w = true -> ts' !! i = Some w.
Proof.
  intros H Hi Hw. destruct (Forall2_lookup_l _ _ _ _ _ H Hi) as (v & Hv & [->|[-> ->]]); done.
Qed.

Lemma woken_not_born ts ts' : Forall2 woken_by ts ts' -> (forall i, ts !! i <> Some Born) -> forall i, ts' !! i <> Some Born.
Proof. intros H Hnb i Hi. eapply woken_back in Hi as [Hi|[_ ?]]; [by eapply Hnb|done|done]. Qed.

Lemma inv_owner p p' : inv p -> Forall2 woken_by (threads p) (threads p') ->
  (qlock p = None /\ qlock p' = Some Owner /\ owner_holds (owner p') = true) \/
    (qlock p = Some Owner /\ qlock p' = None /\ owner_holds (owner p') = false) \/
    (qlock p' = qlock p /\ owner_holds (owner p') = owner_holds (owner p)) ->
  num_threads_running p' = num_threads_running p ->
  taken p' ++ work_queue p' ++ pending (owner p') ++ todo p' = taken p ++ work_queue p ++ pending (owner p) ++ todo p ->
  (exists ts, started p' = started p ++ ts /\ taken p' = taken p ++ ts) ->
  phase p' -> (killthreads p' = false -> killthreads p = false /\ (work_queue p' = work_queue p \/ qlock p = Some Owner)) ->
  (0 < n -> killthreads p' = false -> owner p' = Signalling \/ (work_queue p' = work_queue p /\ owner p <> Signalling) \/
    exists i w, threads p' !! i = Some w /\ active w = true) -> inv p'.
Proof.
  intros [Hwk Hrg How Hrn Hph Hlg Hcl Hex Hts Hac] Ht Hl Ern Elg (ts & Hst & Htk) Hph' Hk Hact.
  assert (Hback : forall i w, threads p' !! i = Some w -> threads p !! i = Some w \/ (threads p !! i = Some Sleeping /\ w = Woken)) by eauto using woken_back.
  split; auto.
  - intros i w Hi. assert (Hh : holds_lock w = true <-> qlock p = Some (Worker i)).
    { apply Hback in Hi as [Hi|[Hi ->]]; by apply Hwk in Hi. }
    rewrite Hh. destruct Hl as [(E1 & E2 & E3)|[(E1 & E2 & E3)|(E1 & E3)]]; rewrite ?E1, ?E2; naive_solver.
  - rewrite <- (Forall2_length _ _ _ Ht). destruct Hl as [(E1 & E2 & E3)|[(E1 & E2 & E3)|(E1 & E3)]]; rewrite ?E2, ?E1; naive_solver.
  - destruct Hl as [(E1 & E2 & E3)|[(E1 & E2 & E3)|(E1 & E3)]]; rewrite ?E2, ?E1, E3; naive_solver.
  - by rewrite Ern, Hrn, (woken_alive _ _ Ht).
  - by rewrite Elg.
  - unfold in_hand in *. rewrite Hst, Htk, (woken_in_hand _ _ Ht), <- Hcl. solve_Permutation.
  - intros E i Hi. apply Hback in Hi as [Hi|[_ ?]]; [|done]. eapply Hex; [by apply Hk|done].
  - intros E i Hi. destruct (Hk E) as [Ek [->|El]]; apply Hback in Hi as [Hi|[_ ?]]; try done; [by eapply Hts|].
    apply Hwk in Hi. destruct Hi as [Hi _]. specialize (Hi eq_refl). congruence.
  - intros Hn E Hne. destruct (Hact Hn E) as [?|[(Eq & Ho)|?]]; auto. rewrite Eq in Hne.
    destruct Hac as [?|(i & w & Hi & Hw)]; [done|by apply Hk|done|done|]. right. eauto using woken_forth.
Qed.

(** Every worker has been counted: none is unborn. *)
Lemma all_counted p : inv p -> length (threads p) = n -> num_threads_running p = n -> forall i, threads p !! i <> Some Born.
Proof.
  intros Hi El En i Hb. rewrite (iv_running p Hi) in En. clear Hi. revert i n El En Hb.
  induction (threads p) as [|w ts IH]; intros [|i] m El En Hb; cbn in *; try done.
  - injection Hb as ->. cbn in En. assert (sum_list_with alive ts <= length ts); [|lia].
    clear. induction ts as [|[] ts IH]; cbn in *; lia.
  - assert (alive w <= 1) by (destruct w; cbn; lia). destruct m as [|m]; [lia|].
    assert (sum_list_with alive ts <= length ts) by (clear; induction ts as [|[] ts IH]; cbn in *; lia).
    eapply (IH i m); [lia|lia|done].
Qed.

(** While the owner holds the lock no worker does. *)
Lemma owner_alone p : inv p -> qlock p = Some Owner -> forall i w, threads p !! i = Some w -> holds_lock w = false.
Proof. intros Hi E i w Hw. apply not_true_iff_false. intros Hh. apply (iv_worker p Hi i w Hw) in Hh. congruence. Qed.

(** A signal finds a sleeper, or every worker is already on its way to the queue. *)
Lemma signal_active wake p p' : inv p -> owner p = Signalling -> signal wake p = Some p' -> 0 < n ->
  exists i w, threads p' !! i = Some w /\ active w = true.
Proof.
  intros Hi Eo. unfold signal. pose proof (iv_phase p Hi) as Hph. unfold phase in Hph. rewrite Eo in Hph. destruct Hph as (El & Ek & Hnb).
  assert (Hq : qlock p = Some Owner) by (apply (iv_owner p Hi); by rewrite Eo).
  case_bool_decide as Hsl; cbn.
  - destruct (existsb _ _) eqn:Eex; cbn; [|done]. intros [= <-] _. apply existsb_exists in Eex as (i & Hin & Hi').
    unfold sleeps in Hi'. apply bool_decide_eq_true in Hi'. exists i, Woken. cbn. unfold wake_up. rewrite list_lookup_imap, Hi'. cbn.
    rewrite bool_decide_true; [done|]. by apply list_elem_of_In.
  - intros [= <-] Hn. destruct (lookup_lt_is_Some_2 (threads p) 0) as [w Hw]; [lia|].
    exists 0, w. cbn. unfold wake_up. rewrite list_lookup_imap, Hw. cbn. pose proof (owner_alone p Hi Hq 0 w Hw) as Hh.
    pose proof (iv_exited p Hi Ek 0) as Hx. specialize (Hnb 0). rewrite Hw in *.
    destruct w; try done; [|case_bool_decide; done..]. destruct Hsl. by eapply list_elem_of_lookup_2.
Qed.

Lemma same_log (xs ys : list nat) : exists ts, xs = xs ++ ts /\ ys = ys ++ ts.
Proof. exists []. by rewrite !app_nil_r. Qed.

Lemma inv_spawn p i : inv p -> owner p = Spawning i -> i < n -> inv (set_owner (Spawning (S i)) (set_threads (threads p ++ [Born]) p)).
Proof.
  intros [Hwk Hrg How Hrn Hph Hlg Hcl Hex Hts Hac] Eo Hin. unfold phase in Hph. rewrite Eo in *. destruct Hph as (El & Hle & Hk & Hq).
  assert (Hin' : forall j w, (threads p ++ [Born]) !! j = Some w -> threads p !! j = Some w \/ (w = Born /\ j = i)).
  { intros j w [?|(? & Hj)]%lookup_app_Some; [by left|]. apply list_lookup_singleton_Some in Hj as [? <-]. right. split; [done|lia]. }
  split; cbn; auto.
  - intros j w [Hj|[-> ->]]%Hin'; [by apply Hwk|]. split; [done|]. intros Hl. apply Hrg in Hl. lia.
  - intros j Hj. rewrite length_app. apply Hrg in Hj. lia.
  - rewrite sum_list_with_app. cbn. lia.
  - unfold phase. cbn. rewrite length_app, El. cbn. split_and!; auto; lia.
  - unfold in_hand. cbn. by rewrite fmap_app, concat_app, app_nil_r.
  - intros _ j [Hj|[? ->]]%Hin'; [by eapply Hex|done].
  - intros _ _ ?. done.
Qed.

(** Once all have been counted and none has gone, as many run as there are workers. *)
Lemma all_running p : inv p -> length (threads p) = n -> killthreads p = false -> (forall i, threads p !! i <> Some Born) -> num_threads_running p = n.
Proof.
  intros Hi El Ek Hnb. rewrite (iv_running p Hi), (sum_all alive _ 1); [lia|]. intros i w Hw. pose proof (iv_exited p Hi Ek i) as Hx.
  specialize (Hnb i). rewrite Hw in *. by destruct w.
Qed.

(** When every worker has returned the count is back at 0, and so the destructor's check holds. *)
Lemma none_running p : inv p -> (forall i, i < length (threads p) -> threads p !! i = Some Exited) -> num_threads_running p = 0.
Proof.
  intros Hi H. rewrite (iv_running p Hi), (sum_all alive _ 0); [lia|]. intros i w Hw. rewrite (H i) in Hw; [by injection Hw as <-|by eapply lookup_lt_Some].
Qed.

Ltac by_owner Eo := eapply inv_owner; cbn; rewrite ?Eo; cbn; eauto using woken_refl, woken_broadcast, same_log; unfold phase; cbn; try tauto; try naive_solver lia.

Lemma inv_owner_step wake p p' : inv p -> owner_step n wake p = Some p' -> inv p'.
Proof.
  intros Hi. pose proof (iv_phase p Hi) as Hph. pose proof (iv_owner p Hi) as Hl. unfold owner_step, acquire.
  unfold phase in Hph. destruct (owner p) eqn:Eo; cbn in Hl.
  - destruct (qlock p) eqn:El; [done|]. intros [= <-]. by_owner Eo. destruct Hph as (-> & Hph). cbn. split_and!; try tauto; lia.
  - destruct (Nat.ltb_spec i n) as [?|?]; intros [= <-]; [by apply inv_spawn|]. by_owner Eo.
  - destruct (Nat.eqb_spec (num_threads_running p) n) as [E|?]; intros [= <-]; by_owner Eo.
    split_and!; try tauto. apply all_counted; tauto.
  - destruct (qlock p) eqn:El; [done|]. intros [= <-]. by_owner Eo.
  - destruct (todo p) as [|t ts] eqn:Et; (destruct (qlock p) eqn:El; [done|]); intros [= <-]; by_owner Eo; rewrite ?Et; try done.
    destruct Hph as (E1 & Hk & Hnb). rewrite (all_running p) by done. split_and!; auto; try done; try lia.
  - destruct Hph as (E1 & Hk & Hnb). rewrite Hk. intros [= <-]. by_owner Eo. by rewrite <- !app_assoc.
  - destruct (signal wake p) as [p1|] eqn:Es; [|done]. intros [= <-]. pose proof (signal_active wake p p1 Hi Eo Es) as Hact.
    unfold signal in Es. destruct (_ && _); [done|]. injection Es as <-.
    pose proof (woken_signal wake (threads p)) as Hw. cbn in Hact. revert Hact Hw. generalize (wake_up wake (threads p)).
    intros ts' Hact Hw. by_owner Eo. rewrite <- (Forall2_length _ _ _ Hw). split_and!; try tauto. apply (woken_not_born _ _ Hw). tauto.
  - intros [= <-]. by_owner Eo.
  - destruct Hph as (-> & El & Hk & Ht & Hle & _ & Hnb & Hex & _). destruct (Nat.ltb_spec i n) as [Hlt|Hge].
    + intros [= <-]. by_owner Eo. rewrite length_fmap. split_and!; auto; try done.
      * apply (woken_not_born _ _ (woken_broadcast (threads p)) Hnb).
      * intros j Hj. by rewrite list_lookup_fmap, Hex.
      * intros _ j. rewrite list_lookup_fmap. destruct (threads p !! j) as [[]|]; done.
    + rewrite (none_running p Hi) by (rewrite El; intros; apply Hex; lia). intros [= <-]. by_owner Eo.
      split_and!; auto. intros j w Hj. rewrite Hex in Hj; [by injection Hj|]. apply lookup_lt_Some in Hj. lia.
  - destruct (threads p !! i) as [[]|] eqn:Ei; try done. intros [= <-]. by_owner Eo.
  - destruct Hph as (-> & El & Hk & Ht & Hle & [?|?] & Hnb & Hex & _ & Hre); [congruence|]. destruct (qlock p) eqn:Eq; [done|]. intros [= <-]. by_owner Eo.
    split_and!; auto; try done. intros j Hj. destruct (decide (j = i)) as [->|]; [by apply Hre|apply Hex; lia].
  - destruct (work_queue p) as [|t q] eqn:Eq; intros [= <-]; [by by_owner Eo; rewrite ?Eq; naive_solver|].
    assert (Hlog : exists ts, started p ++ [t] = started p ++ ts /\ taken p ++ [t] = taken p ++ ts) by eauto.
    by_owner Eo; rewrite ?Eq, ?Eo, <- ?app_assoc; try done; intros; destruct_and?; congruence.
  - done.
  - done.
Qed.

Theorem inv_exec c p p' : inv p -> exec n c p = Some p' -> inv p'.
Proof.
  intros Hi. destruct c as [i|i|wake]; cbn; eauto using inv_worker_step, inv_owner_step.
  unfold sleeps. case_bool_decide; [|done]. intros [= <-]. by apply inv_spurious.
Qed.

(** ** Runs *)

Inductive reachable : ThreadPool -> Prop :=
  | reach_new : reachable (new_pool tasks)
  | reach_step c p p' : reachable p -> exec n c p = Some p' -> reachable p'.

Lemma reachable_inv p : reachable p -> inv p.
Proof. induction 1; eauto using inv_new, inv_exec. Qed.

Lemma reachable_run cs p p' : reachable p -> run n cs p = Some p' -> reachable p'.
Proof.
  revert p. induction cs as [|c cs IH]; intros p Hp; cbn; [by intros [= <-]|].
  destruct (exec n c p) eqn:E; [|done]. cbn. eauto using reach_step.
Qed.
End pool.

(** * [ThreadPool] comes to an end: a measure that every step lowers but the spurious
    wake-ups and the constructor's retries, a step that lowers it wherever the pool is not
    finished, and with the invariant what is promised to the clients of the pool. *)
Open Scope nat_scope.

Definition weight (w : worker) : nat :=
  match w with Sleeping | Exited => 0 | Test => 1 | Born | Draining => 2 | Woken | Relocking => 3 | Running _ => 4 | Fetched _ => 5 end.

Section pool.
Context (n : nat) (tasks : list nat).

(** Steps left to the owner. *)
Definition owner_weight (p : ThreadPool) : nat :=
  let serve := 4 * length (todo p) + 3 * n + 4 in
  match owner p with
  | Constructing => serve + 5 + n
  | Spawning i => serve + 4 + (n - i)
  | Polling => if num_threads_running p =? n then serve + 1 else serve + 3
  | Repolling => serve + 2
  | Serving => serve
  | Dispatching _ => serve + 3
  | Signalling => serve + 2
  | Unlocking => serve + 1
  | Joining i m => 3 * (m - i) + 2
  | Waiting i m => 3 * (m - i) + 1
  | Rejoining i m => 3 * (m - i)
  | Emptying => 1
  | Finished | Aborted => 0
  end.

Definition mu (p : ThreadPool) : nat :=
  (3 * n + 5) * owner_weight p + 4 * length (work_queue p) + sum_list_with weight (threads p).

(** A step that need not bring the end nearer. *)
Definition idle (c : choice) (p : ThreadPool) : bool :=
  match c with
  | Spurious _ => true
  | Proceed _ => bool_decide (owner p = Repolling) && negb (num_threads_running p =? n)
  | Run _ => false
  end.
Definition slack (c : choice) (p : ThreadPool) : nat := if idle c p then 3 * n + 6 else 0.

Fixpoint idles (cs : list choice) (p : ThreadPool) : nat :=
  match cs with
  | [] => 0
  | c :: cs' => (if idle c p then 1 else 0) + match exec n c p with Some p' => idles cs' p' | None => 0 end
  end.

Lemma mu_worker i p p' : inv n tasks p -> worker_step i p = Some p' -> mu p' < mu p.
Proof.
  intros Hi. unfold worker_step, acquire. destruct (threads p !! i) as [w|] eqn:Hw; [|done].
  pose proof (iv_worker n tasks p Hi i w Hw) as Hh. pose proof (iv_owner n tasks p Hi) as Ho.
  assert (Hmu : forall w' p', threads p' = <[i := w']> (threads p) -> owner_weight p' = owner_weight p ->
    4 * length (work_queue p') + weight w' < 4 * length (work_queue p) + weight w -> mu p' < mu p).
  { intros w' q Et Eo Hlt. unfold mu. rewrite Et, Eo. pose proof (sum_insert weight (threads p) i w w' Hw). lia. }
  destruct w; try done; cbn in Hh.
  - destruct (qlock p) eqn:El; [done|]. intros [= <-]. apply (Hmu Test); [done| |cbn; lia].
    unfold owner_weight. cbn. destruct (owner p); naive_solver.
  - destruct (killthreads p) eqn:Ek; intros [= <-]; (eapply Hmu; [done| |cbn; lia]); [|done].
    unfold owner_weight. cbn. destruct (owner p); naive_solver.
  - destruct (qlock p) eqn:El; [done|]. intros [= <-]. by eapply Hmu; [done| |cbn; lia].
  - destruct (work_queue p) as [|t q] eqn:Eq; [|destruct (killthreads p) eqn:Ek]; intros [= <-];
      (eapply Hmu; [done|done|cbn; rewrite ?Eq; cbn; lia]).
  - intros [= <-]. by eapply Hmu; [done| |cbn; lia].
  - intros [= <-]. by eapply Hmu; [done| |cbn; lia].
  - destruct (qlock p) eqn:El; [done|]. intros [= <-]. by eapply Hmu; [done| |cbn; lia].
Qed.

Lemma weight_woken ts ts' : Forall2 woken_by ts ts' -> sum_list_with weight ts' <= sum_list_with weight ts + 3 * length ts.
Proof. induction 1 as [|w w' ? ? [->|[-> ->]]]; cbn; lia. Qed.

Lemma mu_owner p p' k : owner_weight p' + k <= owner_weight p -> 
  4 * length (work_queue p') + sum_list_with weight (threads p') < (3 * n + 5) * k + 4 * length (work_queue p) + sum_list_with weight (threads p) ->
  mu p' < mu p.
Proof. unfold mu. intros. assert ((3 * n + 5) * (owner_weight p' + k) <= (3 * n + 5) * owner_weight p) by nia. lia. Qed.

Ltac mu_owner_by Eo := apply (mu_owner _ _ 1); cbn; unfold owner_weight; cbn; rewrite ?Eo; cbn; rewrite ?sum_list_with_app; cbn; try lia.

Lemma mu_owner_step wake p p' : inv n tasks p -> owner_step n wake p = Some p' -> mu p' < mu p + slack (Proceed wake) p.
Proof.
  intros Hi. pose proof (iv_phase n tasks p Hi) as Hph. unfold slack, idle, owner_step, acquire. unfold phase in Hph.
  destruct (owner p) eqn:Eo; rewrite ?bool_decide_false by done; cbn [andb]; rewrite ?Nat.add_0_r.
  - destruct (qlock p); [done|]. intros [= <-]. mu_owner_by Eo.
  - destruct (Nat.ltb_spec i n); intros [= <-]; mu_owner_by Eo. destruct (_ =? _); lia.
  - destruct (Nat.eqb_spec (num_threads_running p) n) as [E|E]; intros [= <-]; mu_owner_by Eo; [rewrite E, Nat.eqb_refl|apply Nat.eqb_neq in E; rewrite E]; lia.
  - destruct (qlock p); [done|]. intros [= <-]. rewrite bool_decide_true by done. destruct (num_threads_running p =? n) eqn:E; cbn [andb negb].
    + rewrite Nat.add_0_r. mu_owner_by Eo; rewrite E; lia.
    + unfold mu, owner_weight; cbn. rewrite Eo, E. lia.
  - destruct (todo p) as [|t ts] eqn:Et; (destruct (qlock p); [done|]); intros [= <-]; mu_owner_by Eo; rewrite ?Et; cbn; try lia.
    rewrite (all_running n tasks p) by tauto. lia.
  - destruct Hph as (_ & -> & _). intros [= <-]. mu_owner_by Eo. rewrite length_app. cbn. lia.
  - unfold signal. destruct (_ && _); cbn; [done|]. intros [= <-]. mu_owner_by Eo.
    pose proof (weight_woken _ _ (woken_signal wake (threads p))) as H. destruct Hph as (El & _). rewrite El in H. lia.
  - intros [= <-]. mu_owner_by Eo.
  - destruct Hph as (-> & El & Hph). destruct (Nat.ltb_spec i n).
    + intros [= <-]. mu_owner_by Eo. pose proof (weight_woken _ _ (woken_broadcast (threads p))) as H1. rewrite El in H1. lia.
    + destruct (_ =? _) eqn:E; intros [= <-]; mu_owner_by Eo.
  - destruct (threads p !! i) as [[]|]; try done. intros [= <-]. mu_owner_by Eo.
  - destruct Hph as (-> & El & Hk & Ht & Hle & [?|?] & Hph); [congruence|]. destruct (qlock p); [done|]. intros [= <-]. mu_owner_by Eo.
  - destruct (work_queue p) as [|t q] eqn:Eq; intros [= <-]; [mu_owner_by Eo|].
    unfold mu, owner_weight; cbn. rewrite Eo, Eq. cbn. lia.
  - done.
  - done.
Qed.

Lemma mu_exec c p p' : inv n tasks p -> exec n c p = Some p' -> mu p' < mu p + slack c p.
Proof.
  intros Hi. destruct c as [i|i|wake]; cbn [exec].
  - intros H. apply (mu_worker i) in H; [|done]. unfold slack. cbn [idle]. lia.
  - unfold sleeps. case_bool_decide as Hw; [|done]. intros [= <-]. unfold mu, slack. cbn [idle threads set_worker work_queue].
    pose proof (sum_insert weight (threads p) i Sleeping Woken Hw) as Hs. cbn in Hs.
    replace (owner_weight (set_worker i Woken p)) with (owner_weight p) by done. lia.
  - by apply mu_owner_step.
Qed.

(** ** Progress *)

Lemma uncounted ts m : length ts = m -> sum_list_with alive ts <> m -> exists i w, ts !! i = Some w /\ alive w = 0.
Proof.
  intros <- H. destruct (list_find (fun w => alive w = 0) ts) as [[i w]|] eqn:E.
  - apply list_find_Some in E as (Hi & Hw & _). eauto.
  - destruct H. apply list_find_None in E. rewrite (sum_all alive ts 1); [lia|]. intros i w Hi.
    rewrite Forall_lookup in E. specialize (E _ _ Hi). destruct w; done.
Qed.

Lemma worker_ready i w p : inv n tasks p -> threads p !! i = Some w -> w <> Sleeping -> w <> Exited ->
  qlock p = None \/ qlock p = Some (Worker i) -> exists p', worker_step i p = Some p'.
Proof.
  intros Hi Hw Hs Hx Hl. pose proof (iv_worker n tasks p Hi i w Hw) as Hh. unfold worker_step, acquire. rewrite Hw.
  destruct w; try done; cbn in Hh; destruct Hl as [E|E]; rewrite ?E in *; try naive_solver.
  all: repeat case_match; eauto.
Qed.

(** Unless the pool is finished, some step brings the end nearer. *)
Lemma progress p : inv n tasks p -> owner p <> Finished -> exists c p', exec n c p = Some p' /\ idle c p = false.
Proof.
  intros Hi Hf. pose proof (iv_phase n tasks p Hi) as Hph. pose proof (iv_owner n tasks p Hi) as Ho. unfold phase in Hph.
  destruct (qlock p) as [[|i]|] eqn:El.
  - destruct Ho as [_ Ho]. specialize (Ho eq_refl). exists (Proceed (seq 0 n)). cbn. unfold owner_step.
    destruct (owner p) eqn:Eo; try done; cbn; rewrite ?bool_decide_false by done; cbn; try (repeat case_match; eauto; fail).
    unfold signal. case_bool_decide as Hin; cbn; [|by eauto]. destruct (existsb _ _) eqn:E; cbn; [by eauto|].
    apply list_elem_of_lookup in Hin as [j Hj]. exfalso. apply not_true_iff_false in E. apply E, existsb_exists.
    exists j. split; [apply in_seq; apply lookup_lt_Some in Hj; lia|]. by apply bool_decide_eq_true.
  - pose proof (iv_range n tasks p Hi i El) as Hr. apply lookup_lt_is_Some in Hr as [w Hw].
    pose proof (iv_worker n tasks p Hi i w Hw) as [_ Hh]. specialize (Hh El). 
    destruct (worker_ready i w p Hi Hw) as [p' Hp']; [by destruct w..|auto|]. exists (Run i), p'. done.
  - assert (Hrun : forall i w, threads p !! i = Some w -> w <> Sleeping -> w <> Exited -> exists c p', exec n c p = Some p' /\ idle c p = false).
    { intros i w Hw H1 H2. destruct (worker_ready i w p Hi Hw H1 H2 (or_introl El)) as [p' Hp']. by exists (Run i), p'. }
    destruct (owner p) eqn:Eo; try done; try (by destruct Ho as [Ho _]; specialize (Ho eq_refl)).
    + exists (Proceed []). cbn. unfold owner_step, acquire. rewrite Eo, El, bool_decide_false by done. eauto.
    + destruct (Nat.eqb_spec (num_threads_running p) n) as [E|E].
      * exists (Proceed []). cbn. unfold owner_step, acquire. rewrite Eo, El, E, Nat.eqb_refl, andb_false_r. eauto.
      * rewrite (iv_running n tasks p Hi) in E. destruct (uncounted (threads p) n) as (i & w & Hw & Ha); [tauto|done|].
        pose proof (iv_exited n tasks p Hi) as Hx. apply (Hrun i w Hw); destruct w; try done. intros _. eapply Hx; [|done]. tauto.
    + exists (Proceed []). cbn. unfold owner_step, acquire. rewrite Eo, El, bool_decide_false by done. case_match; eauto.
    + destruct Hph as (-> & Elen & Hk & Ht & Hle & [?|?] & Hnb & Hex & Hsl & _); [congruence|].
      destruct (lookup_lt_is_Some_2 (threads p) i) as [w Hw]; [lia|]. specialize (Hnb i). specialize (Hsl eq_refl i). rewrite Hw in *.
      destruct (decide (w = Exited)) as [->|Hne].
      * exists (Proceed []). cbn. unfold owner_step. rewrite Eo, Hw, bool_decide_false by done. eauto.
      * apply (Hrun i w Hw); [congruence|done].
    + exists (Proceed []). cbn. unfold owner_step, acquire. rewrite Eo, El, bool_decide_false by done. eauto.
    + exists (Proceed []). cbn. unfold owner_step, acquire. rewrite Eo, bool_decide_false by done. case_match; eauto.
Qed.

Lemma run_bound cs p p' : inv n tasks p -> run n cs p = Some p' -> length cs + mu p' <= mu p + (3 * n + 6) * idles cs p.
Proof.
  revert p. induction cs as [|c cs IH]; intros p Hi; [by intros [= <-]; cbn; lia|].
  cbn [run idles length]. destruct (exec n c p) as [q|] eqn:E; [|done]. intros H. cbn in H.
  pose proof (mu_exec c p q Hi E) as Hm. unfold slack in Hm. specialize (IH q (inv_exec n tasks c p q Hi E) H).
  destruct (idle c p); nia.
Qed.

(** From wherever it stands the pool can finish without an idle step. *)
Lemma finishes p : inv n tasks p -> exists cs p', run n cs p = Some p' /\ idles cs p = 0 /\ owner p' = Finished.
Proof.
  remember (mu p) as m eqn:Em. revert p Em. induction m as [m IH] using lt_wf_ind. intros p -> Hi.
  destruct (decide (owner p = Finished)) as [Hf|Hf]; [by exists [], p|].
  destruct (progress p Hi Hf) as (c & q & E & Hc). pose proof (mu_exec c p q Hi E) as Hm. unfold slack in Hm. rewrite Hc in Hm.
  destruct (IH (mu q) ltac:(lia) q eq_refl (inv_exec n tasks c p q Hi E)) as (cs & p' & Hr & Hn & Hf').
  exists (c :: cs), p'. cbn. by rewrite E, Hc, Hn.
Qed.

Lemma inv_finished p : inv n tasks p -> owner p = Finished ->
  taken p = tasks /\ started p ≡ₚ tasks /\ length (threads p) = n /\ forall i w, threads p !! i = Some w -> w = Exited.
Proof.
  intros Hi Eo. pose proof (iv_phase n tasks p Hi) as Hph. pose proof (iv_log n tasks p Hi) as Hl. unfold phase in Hph. rewrite Eo in *.
  destruct Hph as (Et & _ & Eq & El & Hx). rewrite Et, Eq, app_nil_r in Hl. split; [done|]. split; [|done].
  pose proof (iv_called n tasks p Hi) as Hc. rewrite Hl in Hc. assert (in_hand p = []) as E; [|by rewrite E, app_nil_r in Hc].
  unfold in_hand. clear -Hx. induction (threads p) as [|w ts IH]; [done|]. cbn. rewrite (Hx 0 w eq_refl). cbn. apply IH. intros i. apply (Hx (S i)).
Qed.
End pool.

(** C5: Whatever the scheduler does: no check fails; only one thread is inside the lock;
    every task is in exactly one place - taken off the queue, queued, in the hands of
    [Dispatch] or yet to come - and they are taken in the order of their dispatch; of the
    tasks taken each is called once or is in the hands of one worker that has yet to call
    it, so that workers may overtake each other in calling but no task is called twice or
    dropped; a task in the queue is never left to sleepers only; and when the pool is gone
    every task was called, once, and every worker has returned. *)
Theorem pool_safe n tasks cs p : run n cs (new_pool tasks) = Some p ->
  owner p <> Aborted /\
  (forall i j v w, threads p !! i = Some v -> threads p !! j = Some w -> holds_lock v = true -> holds_lock w = true -> i = j /\ owner_holds (owner p) = false) /\
  taken p ++ work_queue p ++ pending (owner p) ++ todo p = tasks /\
  started p ++ in_hand p ≡ₚ taken p /\
  (0 < n -> killthreads p = false -> work_queue p <> [] -> owner p = Signalling \/ exists i w, threads p !! i = Some w /\ active w = true) /\
  (owner p = Finished -> taken p = tasks /\ started p ≡ₚ tasks /\ length (threads p) = n /\ forall i w, threads p !! i = Some w -> w = Exited).
Proof.
  intros H. pose proof (reachable_inv n tasks p (reachable_run n tasks cs _ p (reach_new n tasks) H)) as Hi. split_and!.
  - intros E. pose proof (iv_phase n tasks p Hi) as Hph. unfold phase in Hph. by rewrite E in Hph.
  - intros i j v w Hv Hw Av Aw. apply (iv_worker n tasks p Hi i v Hv) in Av. apply (iv_worker n tasks p Hi j w Hw) in Aw.
    split; [congruence|]. apply not_true_iff_false. intros E. apply (iv_owner n tasks p Hi) in E. congruence.
  - apply (iv_log n tasks p Hi).
  - apply (iv_called n tasks p Hi).
  - apply (iv_active n tasks p Hi).
  - by apply inv_finished.
Qed.

(** A schedule of a pool of two workers with three tasks: worker 1 is woken for the first
    one, worker 0 wakes up unasked, takes the second and calls it first, and the third, dispatched while
    both work, is left to the destructor. *)
Definition schedule : list choice :=
  [Proceed []; Proceed []; Proceed []; Proceed []; Proceed []; Run 1; Run 1; Proceed []; Proceed []; Run 0; Run 0; Proceed []; Proceed [];
   Proceed []; Proceed []; Proceed [1]; Proceed []; Run 1; Run 1; Spurious 0; Proceed []; Proceed []; Proceed []; Proceed []; Run 0; Run 0; Run 0; Run 1; Run 1;
   Proceed []; Proceed []; Proceed []; Proceed []; Proceed []; Proceed []; Run 0; Run 0; Run 0; Run 0; Run 1; Run 1; Run 1;
   Proceed []; Proceed []; Proceed []; Proceed []; Proceed []; Proceed []; Proceed []; Proceed []].
Definition final : ThreadPool := mk_pool None [] true 0 [Exited; Exited] Finished [] [10; 20; 30] [20; 10; 30].

Example schedule_runs : run 2 schedule (new_pool [10; 20; 30]) = Some final /\ idles 2 schedule (new_pool [10; 20; 30]) = 2.
Proof. by vm_compute. Qed.

Lemma pool_safe_witness : owner final <> Aborted /\ taken final = [10; 20; 30] /\ started final ≡ₚ [10; 20; 30].
Proof.
  pose proof (pool_safe 2 [10; 20; 30] schedule final (proj1 schedule_runs)) as (H1 & _ & _ & _ & _ & H5).
  destruct (H5 eq_refl) as (H6 & H7 & _). exact (conj H1 (conj H6 H7)).
Defined.

(** C6: From wherever it stands the pool comes to its end, by steps that each bring the end
    nearer, with every task called, once, and every worker returned; and a run is at most as long
    as a bound on the workers and tasks allows, but for the constructor's retries and the
    spurious wake-ups in it. *)
Theorem pool_terminates n tasks cs p : run n cs (new_pool tasks) = Some p ->
  (exists cs' p', run n cs' p = Some p' /\ idles n cs' p = 0 /\ owner p' = Finished /\ started p' ≡ₚ tasks /\
     length (threads p') = n /\ forall i w, threads p' !! i = Some w -> w = Exited) /\
  length cs <= (3 * n + 5) * (4 * length tasks + 4 * n + 9) + (3 * n + 6) * idles n cs (new_pool tasks).
Proof.
  intros H. pose proof (reachable_run n tasks cs _ p (reach_new n tasks) H) as Hr. pose proof (reachable_inv n tasks p Hr) as Hi. split.
  - destruct (finishes n tasks p Hi) as (cs' & p' & H1 & H2 & H3). exists cs', p'.
    pose proof (inv_finished n tasks p' (reachable_inv n tasks p' (reachable_run n tasks cs' p p' Hr H1)) H3) as (_ & ?). done.
  - pose proof (run_bound n tasks cs _ p (inv_new n tasks) H) as Hb. unfold mu, owner_weight in Hb. cbn [new_pool owner todo work_queue threads length sum_list_with] in Hb. lia.
Qed.

Lemma pool_terminates_witness : length schedule <= (3 * 2 + 5) * (4 * 3 + 4 * 2 + 9) + (3 * 2 + 6) * 2.
Proof. exact (proj2 (pool_terminates 2 [10; 20; 30] schedule final (proj1 schedule_runs))). Defined.
