(* ===== verification/Boost.v ===== *)
(** The string algorithms of the Boost library that the web server calls, as a class, with
    what their documentation promises as its laws; and definitions that keep the laws. *)
From Stdlib Require Import ZArith Lia String.
From S2P Require Import Prelude.
Open Scope Z_scope.

(** The characters of a literal. *)
Fixpoint chars (s : string) : list Z :=
  match s with EmptyString => [] | String c s' => Z.of_N (Ascii.N_of_ascii c) :: chars s' end.
Arguments chars s%_string.

(** Evaluates the literals of a goal. *)
Ltac literals := repeat match goal with |- context [chars ?s] => let v := eval vm_compute in (chars s) in change (chars s) with v end.

Class Boost := {
  (** [split(_, s, is_any_of(p), token_compress_on or off)] *)
  split : (Z -> bool) -> bool -> list Z -> list (list Z);
  (** [replace_all(s, from, to)] *)
  replace_all : list Z -> list Z -> list Z -> list Z;
  to_lower : list Z -> list Z;
  trim : list Z -> list Z;
  ends_with : list Z -> list Z -> bool
}.

Definition free_of (p : Z -> bool) (s : list Z) : Prop := Forall (fun c => p c = false) s.
Definition starts_free (p : Z -> bool) (s : list Z) : Prop := forall c s', s = c :: s' -> p c = false.

Class BoostLaws (B : Boost) : Prop := {
  split_single p compress s : free_of p s -> split p compress s = [s];
  split_at p s c t : free_of p s -> p c = true -> split p false (s ++ c :: t) = s :: split p false t;
  split_run p s cs t : free_of p s -> cs <> [] -> Forall (fun c => p c = true) cs -> starts_free p t ->
    split p true (s ++ cs ++ t) = s :: split p true t;
  replace_char s c t : replace_all s [c] t = s ≫= (fun x => if x =? c then t else [x]);
  to_lower_chars s : to_lower s = tolower <$> s;
  trim_middle a s b : Forall (fun c => isspace c = true) (a ++ b) -> starts_free isspace s -> starts_free isspace (reverse s) ->
    trim (a ++ s ++ b) = s;
  ends_with_suffix s t : ends_with s t = true <-> exists r, s = r ++ t
}.

(** ** Definitions that keep the laws *)

Definition onto_head (c : Z) (ws : list (list Z)) : list (list Z) :=
  match ws with [] => [[c]] | w :: ws' => (c :: w) :: ws' end.
Fixpoint split_model (p : Z -> bool) (compress : bool) (s : list Z) : list (list Z) :=
  match s with
  | [] => [[]]
  | c :: s' =>
      if p c then
        if compress && match s' with d :: _ => p d | [] => false end then split_model p compress s'
        else [] :: split_model p compress s'
      else onto_head c (split_model p compress s')
  end.
Fixpoint drop_while (p : Z -> bool) (s : list Z) : list Z :=
  match s with c :: s' => if p c then drop_while p s' else s | [] => [] end.
Fixpoint replace_model (fuel : nat) (s from to : list Z) : list Z :=
  match fuel, s with
  | S fuel', c :: s' =>
      if bool_decide (from <> []) && bool_decide (take (length from) s = from) then to ++ replace_model fuel' (drop (length from) s) from to
      else c :: replace_model fuel' s' from to
  | _, _ => s
  end.

#[export] Instance boost_model : Boost := {|
  split := split_model;
  replace_all s from to := replace_model (length s) s from to;
  to_lower s := tolower <$> s;
  trim s := reverse (drop_while isspace (reverse (drop_while isspace s)));
  ends_with s t := bool_decide (drop (length s - length t) s = t)
|}.

Lemma split_model_cons p b s : exists w ws, split_model p b s = w :: ws.
Proof.
  induction s as [|c s (w & ws & IH)]; cbn; [eauto|]. destruct (p c); [destruct (_ && _)|]; rewrite IH; cbn; eauto.
Qed.

Lemma split_model_head p b s t w ws : free_of p s -> split_model p b t = w :: ws -> split_model p b (s ++ t) = (s ++ w) :: ws.
Proof. intros H E. induction H as [|c s Hc _ IH]; cbn; [done|]. by rewrite Hc, IH. Qed.

Lemma drop_while_all p a s : Forall (fun c => p c = true) a -> starts_free p s -> drop_while p (a ++ s) = s.
Proof.
  intros Ha Hs. induction Ha as [|c a Hc _ IH]; cbn; [|by rewrite Hc].
  destruct s as [|c s]; cbn; [done|]. by rewrite (Hs c s eq_refl).
Qed.

Lemma replace_model_char s c t : replace_model (length s) s [c] t = s ≫= (fun x => if x =? c then t else [x]).
Proof.
  induction s as [|x s IH]; cbn; [done|]. rewrite take_0, drop_0, IH.
  destruct (Z.eqb_spec x c) as [->|Hx]; [by rewrite bool_decide_true|]. by rewrite bool_decide_false by congruence.
Qed.

#[export] Instance boost_model_laws : BoostLaws boost_model.
Proof.
  split; cbn.
  - intros p b s H. rewrite <- (app_nil_r s) at 1. rewrite (split_model_head p b s [] [] []) by done. by rewrite app_nil_r.
  - intros p s c t H Hc. rewrite (split_model_head p false s (c :: t) [] (split_model p false t)); [by rewrite app_nil_r|done|]. cbn. by rewrite Hc.
  - intros p s cs t H Hne Hcs Ht. rewrite (split_model_head p true s (cs ++ t) [] (split_model p true t)); [by rewrite app_nil_r|done|].
    destruct cs as [|c cs]; [done|]. clear Hne. revert c Hcs. induction cs as [|d cs IH]; intros c Hcs; inversion Hcs as [|? ? Hc Hcs']; subst; cbn; rewrite Hc.
    + destruct t as [|d t]; cbn; [done|]. by rewrite (Ht d t eq_refl).
    + inversion Hcs' as [|? ? Hd _]; subst. cbn in IH. rewrite <- (IH d Hcs'), Hd. done.
  - apply replace_model_char.
  - done.
  - intros a s b [Ha Hb]%Forall_app Hs Hr.
    destruct s as [|c s].
    + cbn [app]. rewrite <- (app_nil_r (a ++ b)), drop_while_all; [done|by apply Forall_app|done].
    + rewrite drop_while_all; [|done|by intros ? ? [= <- _]; eapply Hs].
      rewrite reverse_app, drop_while_all; [apply reverse_involutive|by apply Forall_reverse|done].
  - intros s t. rewrite bool_decide_eq_true. split; [intros <-; exists (take (length s - length t) s); by rewrite take_drop|].
    intros [r ->]. rewrite length_app. replace (length r + length t - length t)%nat with (length r) by lia. apply drop_app_length.
Qed.
