(* ===== verification/HttpUtils.v ===== *)
(** [uw_cse333/hw/hw4/HttpUtils.cc]: the decoding and splitting of URLs, HTML escapes, safe
    paths, and reads and writes of a socket that go on after an interruption.  A string is
    its bytes; what [read] and [write] answer on a socket are scripts; [realpath] is a
    parameter, like the algorithms of [Boost]. *)
From Stdlib Require Import ZArith String.
From S2P Require Import Prelude Boost Alloc HashTable Table FileParser.
Open Scope Z_scope.

Definition toupper (c : Z) : Z := if (97 <=? c) && (c <=? 122) then c - 32 else c.

Definition is_hex (c : Z) : bool := (48 <=? c) && (c <=? 57) || (65 <=? c) && (c <=? 70).
Definition hex_code (c2 c3 : Z) : Z :=
  let code := if 65 <=? c2 then u8 (16 * (10 + (c2 - 65))) else u8 (16 * (c2 - 48)) in
  if 65 <=? c3 then u8 (code + (10 + (c3 - 65))) else u8 (code + (c3 - 48)).

(** The loop over the characters; a [' '] stands for what is past the end. *)
Fixpoint URIDecode_loop (from : list Z) : list Z :=
  match from with
  | [] => []
  | c1 :: rest =>
      if c1 =? 43 then 32 :: URIDecode_loop rest
      else if negb (c1 =? 37) then c1 :: URIDecode_loop rest
      else
        match rest with
        | x :: y :: rest' =>
            let c2 := toupper x in let c3 := toupper y in
            if negb (is_hex c2) then c1 :: URIDecode_loop rest
            else if negb (is_hex c3) then c1 :: URIDecode_loop rest
            else
              let code := hex_code c2 c3 in
              if negb ((32 <=? code) && (code <=? 127)) then c1 :: URIDecode_loop rest
              else code :: URIDecode_loop rest'
        | _ => c1 :: URIDecode_loop rest
        end
  end.
Definition URIDecode (from : list Z) : list Z := if (length from <? 3)%nat then from else URIDecode_loop from.

Definition is_any_of (cs : list Z) (c : Z) : bool := existsb (Z.eqb c) cs.

Section boost.
Context {B : Boost}.

Definition EscapeHTML (from : list Z) : list Z :=
  let ret := replace_all from (chars "&") (chars "&amp;") in
  let ret := replace_all ret [34] (chars "&quot;") in
  let ret := replace_all ret (chars "'") (chars "&apos;") in
  let ret := replace_all ret (chars "<") (chars "&lt;") in
  replace_all ret (chars ">") (chars "&gt;").

(** *** URLParser *)

Record URLParser : Type := mk_url { url_ : list Z; path_ : list Z; args_ : gmap (list Z) (list Z) }.
Definition new_URLParser : URLParser := mk_url [] [] ∅.

(** One [field=val] chunk. *)
Definition add_arg (args : gmap (list Z) (list Z)) (val : list Z) : gmap (list Z) (list Z) :=
  match split (is_any_of (chars "=")) false val with
  | [f; v] => <[URIDecode f := URIDecode v]> args
  | _ => args
  end.

Definition Parse (url : list Z) (p : URLParser) : URLParser :=
  match split (is_any_of (chars "?")) false url with
  | [] => mk_url url (path_ p) (args_ p)
  | [ps0] => mk_url url (URIDecode ps0) (args_ p)
  | ps0 :: ps1 :: _ => mk_url url (URIDecode ps0) (foldl add_arg (args_ p) (split (is_any_of (chars "&")) false ps1))
  end.

(** *** IsPathSafe *)

Definition IsPathSafe (realpath : list Z -> option (list Z)) (rootdir testfile : list Z) : bool :=
  match realpath rootdir with
  | None => false
  | Some rootpath =>
      match realpath testfile with
      | None => false
      | Some testpath =>
          if (length testpath <=? length rootpath)%nat then false
          else bool_decide (take (length rootpath) testpath = rootpath)
      end
  end.
End boost.

(** *** Sockets *)

(** What one [write] answers: an error, transient or not, or how many bytes it took, at most
    those it was given. *)
Inductive write_result : Type := WriteError (transient : bool) | Wrote (n : nat).

(** The answers of [read] and [write] to come, and the bytes written.  After the answers the
    peer sends nothing more, and takes everything. *)
Record socket : Type := mk_socket { s_in : list read_result; s_out : list write_result; s_sent : list Z }.

(** One [read] takes at most [readlen] bytes; the rest stay. *)
Fixpoint read_loop (readlen : nat) (ins : list read_result) : option (list Z) * list read_result :=
  match ins with
  | [] => (Some [], [])
  | ReadError true :: ins' => read_loop readlen ins'
  | ReadError false :: ins' => (None, ins')
  | ReadBytes bs :: ins' =>
      (Some (take readlen bs), if (length bs <=? readlen)%nat then ins' else ReadBytes (drop readlen bs) :: ins')
  end.

(** The bytes read, or [-1]. *)
Definition WrappedRead (readlen : nat) : M socket (option (list Z)) := fun s =>
  let '(res, ins) := read_loop readlen (s_in s) in Ok (res, mk_socket ins (s_out s) (s_sent s)).

(** The bytes of [buf] that were taken. *)
Fixpoint write_loop (outs : list write_result) (buf : list Z) : list Z * list write_result :=
  match buf with
  | [] => ([], outs)
  | _ =>
      match outs with
      | [] => (buf, [])
      | WriteError true :: outs' => write_loop outs' buf
      | WriteError false :: outs' => ([], outs')
      | Wrote O :: outs' => ([], outs')
      | Wrote n :: outs' => let '(done, outs'') := write_loop outs' (drop n buf) in (take n buf ++ done, outs'')
      end
  end.

(** [written_so_far] at the end. *)
Definition WrappedWrite (buf : list Z) (writelen : Z) : M socket Z := fun s =>
  let '(done, outs) := write_loop (s_out s) (take (Z.to_nat writelen) buf) in
  Ok (Z.of_nat (length done), mk_socket (s_in s) outs (s_sent s ++ done)).
