(* ===== verification/HttpUtilsSpec.v ===== *)
(** What [HttpUtils] promises: escaped text has no markup and loses nothing, decoding undoes
    the percent-encoding of a text, and a URL is taken apart into the path and the arguments
    it was made of. *)
From Stdlib Require Import ZArith Lia String.
From S2P Require Import Prelude Boost Alloc HashTable Table FileParser HttpUtils.
Open Scope Z_scope.

Section boost.
Context {B : Boost} {L : BoostLaws B}.

(** ** EscapeHTML *)

Definition entity (c : Z) : list Z :=
  if c =? 38 then chars "&amp;" else if c =? 34 then chars "&quot;" else if c =? 39 then chars "&apos;"
  else if c =? 60 then chars "&lt;" else if c =? 62 then chars "&gt;" else [c].

Lemma bind_app {A C} (f : A -> list C) xs ys : (xs ++ ys) ≫= f = (xs ≫= f) ++ (ys ≫= f).
Proof. induction xs; cbn; [done|]. by rewrite <- app_assoc, <- IHxs. Qed.

Lemma bind_bind {A C D} (f : A -> list C) (g : C -> list D) xs : (xs ≫= f) ≫= g = xs ≫= (fun x => f x ≫= g).
Proof. induction xs as [|x xs IH]; cbn; [done|]. rewrite <- IH. apply bind_app. Qed.

Lemma EscapeHTML_entities s : EscapeHTML s = s ≫= entity.
Proof.
  unfold EscapeHTML, entity. literals. rewrite !replace_char, !bind_bind.
  induction s as [|c s IH]; cbn [mbind list_bind] in *; [done|]. refine (f_equal2 app _ IH).
  destruct (Z.eqb_spec c 38) as [->|?]; [done|]. cbn. destruct (Z.eqb_spec c 34) as [->|?]; [done|]. cbn.
  destruct (Z.eqb_spec c 39) as [->|?]; [done|]. cbn. destruct (Z.eqb_spec c 60) as [->|?]; [done|]. cbn.
  by destruct (Z.eqb_spec c 62) as [->|?].
Qed.

(** Two characters whose entities start alike are the same. *)
Lemma entity_prefix x y a b : entity x ++ a = entity y ++ b -> x = y.
Proof.
  unfold entity. repeat (case_match; try match goal with E : (_ =? _) = true |- _ => apply Z.eqb_eq in E; subst end); cbn; intros E; try done; try congruence;
    injection E as E _; subst; done.
Qed.

Lemma entities_injective s t : s ≫= entity = t ≫= entity -> s = t.
Proof.
  revert t. induction s as [|x s IH]; intros [|y t] E; cbn in E; try done.
  - exfalso. unfold entity in E. by repeat case_match.
  - exfalso. unfold entity in E. by repeat case_match.
  - assert (x = y) as -> by (eapply entity_prefix, E). f_equal. apply IH. by eapply app_inv_head.
Qed.

(** ** URIDecode *)

Definition uri_digit (d : Z) : Z := if d <? 10 then 48 + d else 55 + d.
Definition unreserved (c : Z) : bool :=
  (48 <=? c) && (c <=? 57) || (65 <=? c) && (c <=? 90) || (97 <=? c) && (c <=? 122) || is_any_of (chars "-._~/") c.
Definition encode_char (c : Z) : list Z := if unreserved c then [c] else [37; uri_digit (c / 16); uri_digit (c mod 16)].
Definition URIEncode (s : list Z) : list Z := s ≫= encode_char.
Definition printable (c : Z) : Prop := 32 <= c <= 127.

(** All at once: what holds of the codes of printable characters. *)
Lemma printable_codes (P : Z -> bool) : forallb P (seqZ 32 96) = true -> forall c, printable c -> P c = true.
Proof. intros H c Hc. rewrite forallb_forall in H. apply H, list_elem_of_In, elem_of_seqZ. unfold printable in Hc. lia. Qed.

Lemma decode_char c rest : printable c -> URIDecode_loop (encode_char c ++ rest) = c :: URIDecode_loop rest.
Proof.
  intros Hc. unfold encode_char. destruct (unreserved c) eqn:E.
  - cbn. rewrite (proj2 (Z.eqb_neq c 43)), (proj2 (Z.eqb_neq c 37)); [done|..]; by intros ->.
  - cbn [app URIDecode_loop].
    pose proof (printable_codes (fun c => is_hex (toupper (uri_digit (c / 16))) && is_hex (toupper (uri_digit (c mod 16))) &&
      (hex_code (toupper (uri_digit (c / 16))) (toupper (uri_digit (c mod 16))) =? c)) ltac:(by vm_compute) c Hc) as H.
    apply andb_true_iff in H as [[H1 H2]%andb_true_iff H3%Z.eqb_eq]. rewrite H1, H2, H3. cbn [Z.eqb Pos.eqb negb].
    destruct Hc. rewrite (proj2 (Z.leb_le 32 c)), (proj2 (Z.leb_le c 127)) by lia. done.
Qed.

Lemma URIDecode_loop_encode s rest : Forall printable s -> URIDecode_loop (URIEncode s ++ rest) = s ++ URIDecode_loop rest.
Proof.
  intros H. induction H as [|c s Hc _ IH]; [done|]. unfold URIEncode in *. cbn [mbind list_bind]. rewrite <- app_assoc, decode_char by done.
  cbn. by f_equal.
Qed.

(** A text with nothing to decode. *)
Lemma URIDecode_plain s : Forall (fun c => c <> 43 /\ c <> 37) s -> URIDecode_loop s = s.
Proof.
  intros H. induction H as [|c s [H1 H2] _ IH]; cbn; [done|]. apply Z.eqb_neq in H1, H2. rewrite H1, H2. cbn. by f_equal.
Qed.

Lemma encode_short s : (length (URIEncode s) < 3)%nat -> URIEncode s = s.
Proof.
  induction s as [|c s IH]; intros H; [done|]. unfold URIEncode in *. cbn [mbind list_bind] in *. rewrite length_app in H.
  unfold encode_char in *. destruct (unreserved c); cbn in *; [|lia]. f_equal. apply IH. lia.
Qed.

Lemma URIDecode_encode s : Forall printable s -> URIDecode (URIEncode s) = s.
Proof.
  intros H. unfold URIDecode. destruct (Nat.ltb_spec (length (URIEncode s)) 3); [by apply encode_short|].
  rewrite <- (app_nil_r (URIEncode s)), URIDecode_loop_encode by done. apply app_nil_r.
Qed.

(** What an encoded text has no character of. *)
Lemma encode_free p s : Forall printable s -> (forall c, unreserved c = true -> p c = false) -> p 37 = false ->
  free_of p (URIEncode s).
Proof.
  intros H Hu H37. unfold URIEncode. induction H as [|c s Hc _ IH]; [constructor|]. cbn [mbind list_bind]. apply Forall_app. split; [|exact IH].
  unfold encode_char. destruct (unreserved c) eqn:E; [by repeat constructor; auto|].
  pose proof (printable_codes (fun c => unreserved (uri_digit (c / 16)) && unreserved (uri_digit (c mod 16))) ltac:(by vm_compute) c Hc) as H.
  apply andb_true_iff in H as [H1 H2]. repeat constructor; auto.
Qed.

(** [p] is a test for some of the characters [cs], none of which is unreserved. *)
Lemma separators_free cs s : Forall printable s -> forallb (fun c => negb (unreserved c) && negb (c =? 37)) cs = true -> free_of (is_any_of cs) (URIEncode s).
Proof.
  intros H Hcs. rewrite forallb_forall in Hcs. apply encode_free; [done|..].
  - intros c Hc. apply not_true_iff_false. intros (d & Hd & ->%Z.eqb_eq)%existsb_exists. specialize (Hcs d Hd). by rewrite Hc in Hcs.
  - apply not_true_iff_false. intros (d & Hd & <-%Z.eqb_eq)%existsb_exists. by specialize (Hcs 37 Hd).
Qed.

(** ** URLParser *)

Definition show_arg (fv : list Z * list Z) : list Z := URIEncode fv.1 ++ chars "=" ++ URIEncode fv.2.
Fixpoint show_args (args : list (list Z * list Z)) : list Z :=
  match args with [] => [] | [a] => show_arg a | a :: args' => show_arg a ++ chars "&" ++ show_args args' end.
Definition printable_arg (fv : list Z * list Z) : Prop := Forall printable fv.1 /\ Forall printable fv.2.

Lemma free_of_app p s t : free_of p s -> free_of p t -> free_of p (s ++ t).
Proof. intros. by apply Forall_app. Qed.

Lemma show_arg_free cs fv : printable_arg fv -> forallb (fun c => negb (unreserved c) && negb (c =? 37)) cs = true -> is_any_of cs 61 = false ->
  free_of (is_any_of cs) (show_arg fv).
Proof. intros [H1 H2] Hc H61. repeat apply free_of_app; try by apply separators_free. by repeat constructor. Qed.

Lemma add_arg_show args fv : printable_arg fv -> add_arg args (show_arg fv) = <[fv.1 := fv.2]> args.
Proof.
  intros [H1 H2]. unfold add_arg, show_arg. literals. cbn [app]. rewrite (split_at _ (URIEncode fv.1) 61), split_single by (done || by apply separators_free).
  by rewrite !URIDecode_encode.
Qed.

Lemma split_show_args args : args <> [] -> Forall printable_arg args -> split (is_any_of (chars "&")) false (show_args args) = show_arg <$> args.
Proof.
  induction args as [|a args IH]; intros Hne Ha; [done|]. inversion Ha as [|? ? H1 H2]; subst.
  destruct args as [|b args]; [by apply split_single, show_arg_free|].
  cbn [show_args]. literals. cbn [app]. rewrite (split_at _ (show_arg a) 38) by (done || by apply show_arg_free). cbn [fmap list_fmap]. f_equal. by apply IH.
Qed.

Lemma Parse_path root s p : Forall (fun c => c <> 43 /\ c <> 37 /\ c <> 63) root -> (3 <= length root)%nat -> Forall printable s ->
  path_ (Parse (root ++ URIEncode s) p) = root ++ s.
Proof.
  intros Hr Hlen Hs. unfold Parse. rewrite split_single.
  - cbn. unfold URIDecode. rewrite (proj2 (Nat.ltb_ge _ _)) by (rewrite length_app; lia).
    assert (E : forall t, URIDecode_loop (root ++ t) = root ++ URIDecode_loop t).
    { clear Hlen. induction Hr as [|c root (H1 & H2 & _) _ IH]; intros t; cbn; [done|]. apply Z.eqb_neq in H1, H2. rewrite H1, H2. cbn. by f_equal. }
    rewrite E. f_equal. rewrite <- (app_nil_r (URIEncode s)), URIDecode_loop_encode by done. apply app_nil_r.
  - apply free_of_app; [|by apply separators_free]. eapply Forall_impl; [exact Hr|]. intros c (_ & _ & H). unfold is_any_of. literals. cbn.
    by apply Z.eqb_neq in H as ->.
Qed.
End boost.

(** C30: Text that went through [EscapeHTML] has no markup characters, and the text can be
    told from it; percent-encoding is undone by [URIDecode]; and [Parse] takes a URL made
    from a path and arguments apart into them, the last of several values of a name
    winning, on top of the arguments of an earlier URL. *)
Theorem utils_roundtrip {B : Boost} {L : BoostLaws B} s t path args p :
  Forall printable path -> Forall (fun fv => Forall printable fv.1 /\ Forall printable fv.2) args -> args <> [] ->
  Forall (fun c => c <> 34 /\ c <> 39 /\ c <> 60 /\ c <> 62) (EscapeHTML s) /\
  (EscapeHTML s = EscapeHTML t -> s = t) /\
  URIDecode (URIEncode path) = path /\
  Parse (URIEncode path ++ chars "?" ++ show_args args) p =
    mk_url (URIEncode path ++ chars "?" ++ show_args args) path (foldl (fun m fv => <[fv.1 := fv.2]> m) (args_ p) args).
Proof.
  intros Hp Ha Hne. rewrite !EscapeHTML_entities. split_and!.
  - induction s as [|c s IH]; cbn; [constructor|]. apply Forall_app. split; [|exact IH].
    unfold entity. literals. repeat case_match; repeat constructor; lia.
  - apply entities_injective.
  - by apply URIDecode_encode.
  - unfold Parse. literals. cbn [app]. rewrite (split_at _ (URIEncode path) 63) by (done || by apply separators_free).
    rewrite split_single.
    + rewrite URIDecode_encode, split_show_args by done. f_equal. clear Hne. generalize (args_ p). induction Ha as [|fv args Hfv _ IH]; intros m; cbn; [done|].
      rewrite add_arg_show by done. apply IH.
    + clear Hp Hne. induction Ha as [|a args H1 H2 IH]; [constructor|]. destruct args as [|b args]; [by apply show_arg_free|].
      cbn [show_args]. apply free_of_app; [by apply show_arg_free|]. apply free_of_app; [by repeat constructor|done].
Qed.

Lemma utils_roundtrip_witness : args_ (Parse (chars "/a%20b?q=%26&n=1") new_URLParser) !! [113] = Some [38].
Proof.
  pose proof (utils_roundtrip [] [] (chars "/a b") [([113], [38]); ([110], [49])] new_URLParser) as H.
  destruct H as (_ & _ & _ & H); [repeat constructor; by vm_compute|repeat constructor; by vm_compute|done|].
  change (chars "/a%20b?q=%26&n=1") with (URIEncode (chars "/a b") ++ chars "?" ++ show_args [([113], [38]); ([110], [49])]).
  rewrite H. by vm_compute.
Defined.
