(* ===== verification/HttpConnection.v ===== *)
(** [HttpConnection.cc], [HttpRequest.h] and [HttpResponse.h] of [uw_cse333/hw/hw4]: requests
    taken one after the other from what a socket delivers, and responses written to it. *)
From Stdlib Require Import ZArith String.
From S2P Require Import Prelude Boost Alloc HashTable Table FileParser HttpUtils.
Open Scope Z_scope.

Record HttpRequest : Type := mk_request { URI : list Z; req_headers : gmap (list Z) (list Z) }.
Record HttpResponse : Type := mk_response {
  protocol : list Z; response_code : Z; message : list Z; headers : gmap (list Z) (list Z); body : list Z }.

(** [std::string::find] *)
Fixpoint find (pat s : list Z) : option nat :=
  if bool_decide (take (length pat) s = pat) then Some O
  else match s with [] => None | _ :: s' => S <$> find pat s' end.

(** A number on a stream. *)
Definition show_decimal (n : Z) : list Z := (fun d => 48 + d) <$> digits 64 10 n.

Definition crlf : list Z := [13; 10].
Definition header_end : list Z := crlf ++ crlf.

(** A [std::map] is walked in the order of its keys. *)
Fixpoint key_le (a b : list Z) : bool :=
  match a, b with
  | [], _ => true
  | _ :: _, [] => false
  | x :: a', y :: b' => if x =? y then key_le a' b' else x <? y
  end.
Definition header_le (x y : list Z * list Z) : Prop := key_le x.1 y.1 = true.
#[export] Instance header_le_dec : RelDecision header_le.
Proof. intros x y. unfold header_le. apply _. Defined.

Definition GenerateResponseString (r : HttpResponse) : list Z :=
  protocol r ++ chars " " ++ show_decimal (response_code r) ++ chars " " ++ message r ++ crlf ++
  concat ((fun kv => kv.1 ++ chars ": " ++ kv.2 ++ crlf) <$> merge_sort header_le (map_to_list (headers r))) ++
  chars "Content-length: " ++ show_decimal (Z.of_nat (length (body r))) ++ crlf ++ crlf ++ body r.

Record HttpConnection : Type := mk_conn { fd_ : socket; buffer_ : list Z }.

Definition on_socket {A} (m : M socket A) : M HttpConnection A := fun c =>
  match m (fd_ c) with Ok (a, s) => Ok (a, mk_conn s (buffer_ c)) | Err e => Err e end.
Definition set_buffer (b : list Z) : M HttpConnection unit := modify (fun c => mk_conn (fd_ c) b).

Section boost.
Context {B : Boost}.

(** One header line. *)
Definition add_header (hs : gmap (list Z) (list Z)) (line : list Z) : gmap (list Z) (list Z) :=
  match split (is_any_of (chars ":")) false (to_lower line) with
  | [k; v] => <[trim k := trim v]> hs
  | _ => hs
  end.

(** [lines[0]] and [firstRow[1]] are not checked. *)
Definition ParseRequest (fin : nat) : M HttpConnection HttpRequest :=
  let* buffer := gets buffer_ in
  match split (is_any_of crlf) true (take fin buffer) with
  | [] => fail BadAccess
  | line0 :: lines =>
      match split (is_any_of [9; 32]) true line0 with
      | _ :: uri :: _ => ret (mk_request uri (foldl add_header ∅ lines))
      | _ => fail BadAccess
      end
  end.

(** [while (1)]: reads until the header is complete ([Some (Some pos)]), the peer has closed
    ([Some None]) or an error ([None]).  The fuel covers a read per byte and answer. *)
Fixpoint read_header (fuel : nat) : M HttpConnection (option (option nat)) :=
  match fuel with
  | O => fail OutOfFuel
  | S fuel' =>
      let* res := on_socket (WrappedRead 1024) in
      match res with
      | None => ret None
      | Some [] => ret (Some None)
      | Some bs =>
          let* buffer := gets buffer_ in
          do* set_buffer (buffer ++ bs);
          match find header_end (buffer ++ bs) with
          | Some pos => ret (Some (Some pos))
          | None => read_header fuel'
          end
      end
  end.

Definition read_weight (r : read_result) : nat := match r with ReadBytes bs => S (length bs) | ReadError _ => 1 end.

(** The request, or [false]. *)
Definition GetNextRequest : M HttpConnection (option HttpRequest) :=
  let* buffer := gets buffer_ in
  let* fuel := gets (fun c => S (sum_list_with read_weight (s_in (fd_ c)))) in
  let* r := match find header_end buffer with Some pos => ret (Some (Some pos)) | None => read_header fuel end in
  match r with
  | Some (Some pos) =>
      let* request := ParseRequest (pos + 4) in
      let* buffer := gets buffer_ in
      do* set_buffer (drop (pos + 4) buffer);
      ret (Some request)
  | _ => ret None
  end.

(** The length is an [int] for [write]. *)
Definition WriteResponse (response : HttpResponse) : M HttpConnection bool :=
  let str := GenerateResponseString response in
  let len := s32 (Z.of_nat (length str)) in
  let* res := on_socket (WrappedWrite str len) in
  ret (res =? len).
End boost.
