(* ===== verification/HttpConnectionSpec.v ===== *)
(** What a connection promises: the requests a client wrote one after the other are read
    back in order whatever pieces they arrive in, and a response is written to the end. *)
From Stdlib Require Import ZArith Lia String.
From S2P Require Import Prelude Boost Alloc HashTable Table FileParser HttpUtils HttpUtilsSpec HttpConnection.
Open Scope Z_scope.

(** ** The bytes of a socket *)

(** What the reads to come deliver, up to an error or the end. *)
Fixpoint stream (ins : list read_result) : list Z :=
  match ins with
  | [] | ReadError false :: _ | ReadBytes [] :: _ => []
  | ReadError true :: ins' => stream ins'
  | ReadBytes bs :: ins' => bs ++ stream ins'
  end.

Definition weight_of (ins : list read_result) : nat := sum_list_with read_weight ins.

Lemma read_loop_stream k ins : (0 < k)%nat ->
  match read_loop k ins with
  | (Some (b :: bs), ins') => stream ins = (b :: bs) ++ stream ins' /\ (weight_of ins' + length (b :: bs) <= weight_of ins)%nat
  | _ => stream ins = []
  end.
Proof.
  intros Hk. induction ins as [|[[]|bs] ins IH]; cbn; try done.
  - destruct (read_loop k ins) as [[[|b bs]|] ins']; [done| |done]. destruct IH as [-> H]. split; [done|]. unfold weight_of in *. cbn in *. lia.
  - destruct bs as [|b bs]; [by rewrite take_nil|]. destruct k as [|k]; [lia|]. cbn [take].
    destruct (Nat.leb_spec (length (b :: bs)) (S k)) as [H|H].
    + cbn in H. rewrite take_ge by lia. split; [done|]. unfold weight_of. cbn. lia.
    + cbn [drop] in *. cbn [length] in H. unfold weight_of. cbn [stream sum_list_with read_weight]. split.
      * destruct (drop k bs) as [|d ds] eqn:E; [apply (f_equal length) in E; rewrite length_drop in E; cbn in E; lia|].
        rewrite <- E. change (b :: bs ++ stream ins = b :: take k bs ++ drop k bs ++ stream ins). by rewrite app_assoc, take_drop.
      * cbn [length]. rewrite length_take, length_drop. fold (weight_of ins). lia.
Qed.

Lemma read_loop_load k ins : (weight_of (snd (read_loop k ins)) <= weight_of ins)%nat.
Proof.
  induction ins as [|[[]|bs] ins IH]; unfold weight_of in *; cbn; try lia. destruct (Nat.leb_spec (length bs) k); cbn; [lia|]. rewrite length_drop. lia.
Qed.

(** The peer takes everything in the end. *)
Definition accepting (outs : list write_result) : Prop :=
  Forall (fun r => match r with WriteError transient => transient = true | Wrote n => n <> O end) outs.

Lemma write_loop_accepting outs buf : accepting outs -> exists outs', write_loop outs buf = (buf, outs') /\ accepting outs'.
Proof.
  intros H. revert buf. induction H as [|r outs Hr Ho IH]; intros [|b buf]; cbn [write_loop]; try (eexists; split; [done|by constructor]).
  - destruct r as [[]|[|n]]; [apply IH|done..|].
    destruct (IH (drop (S n) (b :: buf))) as (outs' & E & H'). rewrite E. exists outs'. by rewrite take_drop.
Qed.

(** ** Finding the end of a header *)

Lemma find_bound pat s n : find pat s = Some n -> (n + length pat <= length s)%nat.
Proof.
  revert n. induction s as [|c s IH]; intros n; cbn [find]; case_bool_decide as H; try done.
  - intros [= <-]. rewrite take_nil in H. by subst pat.
  - intros [= <-]. apply (f_equal length) in H. rewrite length_take in H. lia.
  - destruct (find pat s) as [m|]; [|done]. intros [= <-]. specialize (IH m eq_refl). cbn [length]. lia.
Qed.

Lemma find_app pat s t n : find pat s = Some n -> find pat (s ++ t) = Some n.
Proof.
  intros H. pose proof (find_bound _ _ _ H) as Hb. revert n H Hb. induction s as [|c s IH]; intros n.
  - cbn [length]. intros H Hb. destruct pat; cbn in Hb; [|lia]. destruct t; cbn in *; by rewrite ?take_nil in *.
  - cbn [find app]. intros H Hb. change (c :: s ++ t) with ((c :: s) ++ t). rewrite take_app_le by lia. case_bool_decide; [done|].
    destruct (find pat s) as [m|] eqn:E; [|done]. cbn in H, Hb. injection H as <-. by rewrite (IH m eq_refl) by lia.
Qed.

(** No header ends in a line, nor at the break after it when something follows. *)
Lemma find_line l t : free_of (is_any_of crlf) l -> find header_end (l ++ t) = Nat.add (length l) <$> find header_end t.
Proof.
  intros H. induction H as [|c l Hc _ IH]; cbn [app length]; [by destruct (find _ t)|]. cbn [find]. rewrite IH.
  rewrite bool_decide_false; [by destruct (find _ t)|]. cbn. intros [= -> _]. done.
Qed.

Lemma find_break c t : c <> 13 -> find header_end (crlf ++ c :: t) = Nat.add 2 <$> find header_end (c :: t).
Proof.
  intros Hc. change (crlf ++ c :: t) with (13 :: 10 :: c :: t). cbn [find].
  rewrite (bool_decide_false (take _ (13 :: _) = _)), (bool_decide_false (take _ (10 :: _) = _)) by (intros [=]; done).
  case_bool_decide; [done|]. by destruct (find header_end t).
Qed.

(** ** Requests as a client writes them *)

Record client_request : Type := mk_creq { cr_method : list Z; cr_uri : list Z; cr_version : list Z; cr_fields : list (list Z * list Z) }.

Definition field_line (f : list Z * list Z) : list Z := f.1 ++ chars ": " ++ f.2.
Definition request_line (r : client_request) : list Z := cr_method r ++ chars " " ++ cr_uri r ++ chars " " ++ cr_version r.
Definition field_lines (fs : list (list Z * list Z)) : list Z := concat ((fun f => field_line f ++ crlf) <$> fs).
Definition render (r : client_request) : list Z := request_line r ++ crlf ++ field_lines (cr_fields r) ++ crlf.

(** A token of the request line; a name or a value without blanks around it. *)
Definition token (s : list Z) : Prop := free_of (is_any_of [9; 32; 13; 10]) s.
Definition field_text (s : list Z) : Prop :=
  free_of (is_any_of [13; 10; 58]) s /\ starts_free isspace s /\ starts_free isspace (reverse s).
Record client_ok (r : client_request) : Prop := {
  ok_method : token (cr_method r);
  ok_uri : token (cr_uri r) /\ cr_uri r <> [];
  ok_version : token (cr_version r);
  ok_fields : Forall (fun f => field_text f.1 /\ f.1 <> [] /\ field_text f.2) (cr_fields r)
}.

(** What the server makes of it: the fields in lower case, the last of a name. *)
Definition lower_fields (fs : list (list Z * list Z)) : gmap (list Z) (list Z) :=
  foldl (fun hs f => <[tolower <$> f.1 := tolower <$> f.2]> hs) ∅ fs.
Definition received (r : client_request) : HttpRequest := mk_request (cr_uri r) (lower_fields (cr_fields r)).

Lemma free_weaken p q s : (forall c, q c = true -> p c = true) -> free_of p s -> free_of q s.
Proof. intros H Hs. eapply Forall_impl; [exact Hs|]. intros c Hc. cbn. apply not_true_iff_false. intros E. apply H in E. cbn in Hc. congruence. Qed.

Lemma any_weaken cs ds c : cs ⊆ ds -> is_any_of cs c = true -> is_any_of ds c = true.
Proof.
  intros H (d & Hd & E)%existsb_exists. apply existsb_exists. exists d. split; [|done]. apply list_elem_of_In, H. by apply list_elem_of_In.
Qed.

Lemma free_fewer cs ds s : bool_decide (cs ⊆ ds) = true -> free_of (is_any_of ds) s -> free_of (is_any_of cs) s.
Proof. intros H%bool_decide_eq_true. apply free_weaken. intros c. by apply any_weaken. Qed.

Lemma field_text_free f : field_text f -> free_of (is_any_of crlf) f.
Proof. intros (H & _ & _). eapply free_fewer; [|exact H]. by vm_compute. Qed.

Lemma field_line_free f : field_text f.1 -> field_text f.2 -> free_of (is_any_of crlf) (field_line f).
Proof. intros H1 H2. apply free_of_app; [by apply field_text_free|]. apply free_of_app; [by repeat constructor|by apply field_text_free]. Qed.

Lemma token_free s : token s -> free_of (is_any_of crlf) s /\ free_of (is_any_of [9; 32]) s.
Proof. intros H. split; (eapply free_fewer; [|exact H]; by vm_compute). Qed.

Lemma request_line_free r : client_ok r -> free_of (is_any_of crlf) (request_line r).
Proof.
  intros [Hm [Hu _] Hv _]. apply token_free in Hm as [Hm _], Hu as [Hu _], Hv as [Hv _].
  repeat apply free_of_app; done || by repeat constructor.
Qed.

Lemma field_line_cons f : f.1 <> [] -> field_text f.1 -> exists c s, field_line f = c :: s /\ is_any_of crlf c = false.
Proof.
  intros Hne H%field_text_free. unfold field_line. destruct (f.1) as [|c n]; [done|]. exists c, (n ++ chars ": " ++ f.2). by inversion H.
Qed.

(** A header ends where the client ended it. *)
Lemma find_render r rest : client_ok r -> find header_end (render r ++ rest) = Some (length (request_line r ++ crlf ++ field_lines (cr_fields r)) - 2)%nat.
Proof.
  intros Hr. unfold render. rewrite <- !app_assoc, find_line by (by apply request_line_free).
  pose proof (ok_fields r Hr) as Hf. revert Hf. generalize (request_line r) as l. generalize (cr_fields r) as fs.
  induction fs as [|f fs IH]; intros l Hf.
  - change (crlf ++ field_lines [] ++ crlf ++ rest) with (header_end ++ rest).
    assert (find header_end (header_end ++ rest) = Some O) as -> by (apply find_app; by vm_compute).
    cbn. rewrite length_app. cbn. f_equal. lia.
  - inversion Hf as [|? ? (H1 & Hne & H2) Hf']; subst. specialize (IH (field_line f) Hf').
    destruct (field_line_cons f Hne H1) as (c & s & E & Hc).
    unfold field_lines. cbn [fmap list_fmap concat]. fold (field_lines fs). rewrite <- !app_assoc.
    rewrite E at 1. cbn [app]. rewrite find_break by (by intros ->). change (c :: s ++ crlf ++ field_lines fs ++ crlf ++ rest) with ((c :: s) ++ crlf ++ field_lines fs ++ crlf ++ rest).
    rewrite <- E, find_line by (by apply field_line_free).
    destruct (find header_end (crlf ++ field_lines fs ++ crlf ++ rest)) as [n|]; cbn in IH |- *; [|done]. injection IH as IH.
    f_equal. rewrite !length_app in *. cbn [length] in *. rewrite !length_app in *. cbn [length] in *. lia.
Qed.

Lemma find_render_take r rest pos : client_ok r -> find header_end (render r ++ rest) = Some pos ->
  take (pos + 4) (render r ++ rest) = render r /\ drop (pos + 4) (render r ++ rest) = rest.
Proof.
  intros Hr. rewrite find_render by done. intros E. assert (pos + 4 = length (render r))%nat as ->; [|by rewrite take_app_length, drop_app_length].
  injection E as <-. unfold render. rewrite !length_app. cbn. rewrite ?length_app. cbn. lia.
Qed.

(** ** Parsing *)

Section boost.
Context {B : Boost} {L : BoostLaws B}.

Lemma tolower_isspace c : isspace (tolower c) = isspace c.
Proof.
  unfold tolower, isspace. destruct (Z.leb_spec 65 c), (Z.leb_spec c 90); cbn [andb]; try done.
  rewrite !(proj2 (Z.eqb_neq _ 32)), !(proj2 (Z.leb_gt _ 13)) by lia. by rewrite !andb_false_r.
Qed.

Lemma starts_free_lower s : starts_free isspace s -> starts_free isspace (tolower <$> s).
Proof. intros H c s' E. destruct s as [|d s]; cbn in E; [done|]. injection E as <- _. rewrite tolower_isspace. by eapply H. Qed.

Lemma lower_no_colon s : field_text s -> free_of (is_any_of [58]) (tolower <$> s).
Proof.
  intros (H & _). apply Forall_fmap. eapply Forall_impl; [eapply (free_fewer [58] [13; 10; 58]); [by vm_compute|exact H]|].
  intros c. cbn. rewrite !orb_false_r, !Z.eqb_neq. unfold tolower. case_match; lia.
Qed.

Lemma trim_lower a s : Forall (fun c => isspace c = true) a -> field_text s -> trim (a ++ (tolower <$> s)) = tolower <$> s.
Proof.
  intros Ha (_ & H1 & H2). rewrite <- (app_nil_r (tolower <$> s)) at 1. apply trim_middle; [by rewrite app_nil_r|by apply starts_free_lower|].
  rewrite <- fmap_reverse. by apply starts_free_lower.
Qed.

Lemma add_header_field hs f : field_text f.1 -> field_text f.2 -> add_header hs (field_line f) = <[tolower <$> f.1 := tolower <$> f.2]> hs.
Proof.
  intros H1 H2. unfold add_header, field_line. rewrite to_lower_chars, !fmap_app. literals. cbn [fmap list_fmap app tolower].
  change (tolower 58) with 58. change (tolower 32) with 32.
  rewrite (split_at _ (tolower <$> f.1) 58), split_single; [|constructor; [done|]; by apply lower_no_colon|by apply lower_no_colon|done].
  pose proof (trim_lower [] f.1 (Forall_nil_2 _) H1) as E1. pose proof (trim_lower [32] f.2 ltac:(by repeat constructor) H2) as E2.
  cbn [app] in E1, E2. by rewrite E1, E2.
Qed.

Lemma split_lines l fs : free_of (is_any_of crlf) l -> Forall (fun f => field_text f.1 /\ f.1 <> [] /\ field_text f.2) fs ->
  split (is_any_of crlf) true (l ++ crlf ++ field_lines fs ++ crlf) = l :: (field_line <$> fs) ++ [[]].
Proof.
  intros Hl Hf. revert l Hl. induction Hf as [|f fs (H1 & Hne & H2) Hf IH]; intros l Hl.
  - change (crlf ++ field_lines [] ++ crlf) with (header_end ++ []). rewrite split_run; [|done|done|by repeat constructor|done].
    by rewrite split_single by constructor.
  - unfold field_lines. cbn [fmap list_fmap concat]. fold (field_lines fs). rewrite <- !app_assoc.
    rewrite split_run; [|done|done|by repeat constructor|].
    + cbn [app]. f_equal. by apply IH, field_line_free.
    + intros c t E. destruct (field_line_cons f Hne H1) as (d & s & E' & Hd). rewrite E' in E. by injection E as <- _.
Qed.

Lemma ParseRequest_render r rest fin c : client_ok r -> buffer_ c = render r ++ rest -> take fin (render r ++ rest) = render r ->
  ParseRequest fin c = Ok (received r, c).
Proof.
  intros Hr Eb Et. pose proof Hr as [Hm [Hu Hne] Hv Hf]. unfold ParseRequest. rewrite bind_gets, Eb, Et. unfold render.
  rewrite split_lines by (done || by apply request_line_free). unfold request_line.
  assert (Hsp : forall s, token s -> starts_free (is_any_of [9; 32]) s).
  { intros s H%token_free d t ->. destruct H as [_ H]. by inversion H. }
  assert (E : exists rest', split (is_any_of [9; 32]) true (cr_method r ++ chars " " ++ cr_uri r ++ chars " " ++ cr_version r) = cr_method r :: cr_uri r :: rest').
  { rewrite split_run; [|by apply token_free|done|by repeat constructor|].
    - eexists. f_equal. rewrite split_run; [done|by apply token_free|done|by repeat constructor|by apply Hsp].
    - intros d t Ed. destruct (cr_uri r) as [|u us] eqn:Eu; [done|]. injection Ed as <- _. by apply (Hsp (u :: us) Hu u us). }
  destruct E as [rest' ->]. unfold ret, received, lower_fields. do 3 f_equal. rewrite foldl_app. cbn [foldl].
  assert (Ee : forall hs, add_header hs [] = hs).
  { intros hs. unfold add_header. rewrite to_lower_chars, split_single by constructor. done. }
  rewrite Ee. clear -Hf B L. generalize (∅ : gmap (list Z) (list Z)). induction Hf as [|f fs (H1 & _ & H2) _ IH]; intros hs; cbn; [done|].
  rewrite add_header_field by done. apply IH.
Qed.

(** ** Reading *)

(** All that is still to be taken from a connection. *)
Definition unread (c : HttpConnection) : list Z := buffer_ c ++ stream (s_in (fd_ c)).
Definition load (c : HttpConnection) : nat := (length (buffer_ c) + weight_of (s_in (fd_ c)))%nat.
(** Reading touches nothing but what is to be read. *)
Definition reads_only (c c' : HttpConnection) : Prop :=
  s_out (fd_ c') = s_out (fd_ c) /\ s_sent (fd_ c') = s_sent (fd_ c) /\ (load c' <= load c)%nat.

Lemma read_header_spec fuel c : (weight_of (s_in (fd_ c)) < fuel)%nat -> find header_end (buffer_ c) = None ->
  exists r c', read_header fuel c = Ok (r, c') /\ reads_only c c' /\
    match r with
    | Some (Some pos) => find header_end (buffer_ c') = Some pos /\ unread c' = unread c
    | _ => find header_end (unread c) = None
    end.
Proof.
  revert c. induction fuel as [|fuel IH]; intros c Hw Hf; [lia|]. cbn [read_header].
  pose proof (read_loop_stream 1024 (s_in (fd_ c)) ltac:(lia)) as Hr.
  destruct (read_loop 1024 (s_in (fd_ c))) as [res ins] eqn:El.
  assert (Hrun : on_socket (WrappedRead 1024) c = Ok (res, mk_conn (mk_socket ins (s_out (fd_ c)) (s_sent (fd_ c))) (buffer_ c))).
  { unfold on_socket, WrappedRead. by rewrite El. }
  step Hrun. unfold unread, reads_only, load. destruct res as [[|b bs]|].
  1, 3: eexists _, _; split; [done|]; cbn; rewrite Hr, app_nil_r in *; split_and!; try done; pose proof (read_loop_load 1024 (s_in (fd_ c))) as Hl; rewrite El in Hl; cbn in Hl; lia.
  destruct Hr as [Es Hl]. rewrite bind_gets. cbn [buffer_]. step (eq_refl : set_buffer (buffer_ c ++ b :: bs) (mk_conn (mk_socket ins (s_out (fd_ c)) (s_sent (fd_ c))) (buffer_ c)) = Ok (tt, mk_conn (mk_socket ins (s_out (fd_ c)) (s_sent (fd_ c))) (buffer_ c ++ b :: bs))).
  destruct (find header_end (buffer_ c ++ b :: bs)) as [pos|] eqn:Ef.
  - eexists _, _; split; [done|]. cbn [fd_ s_out s_sent buffer_ s_in]. rewrite Es, length_app, <- app_assoc. split_and!; try done. lia.
  - destruct (IH (mk_conn (mk_socket ins (s_out (fd_ c)) (s_sent (fd_ c))) (buffer_ c ++ b :: bs))) as (r & c' & E & (H1 & H2 & H3) & H4).
    + cbn [fd_ s_in]. cbn [length] in Hl. lia.
    + done.
    + exists r, c'. split; [done|]. unfold unread, load in H3, H4. cbn [fd_ s_out s_sent buffer_ s_in] in *. rewrite length_app, <- app_assoc, <- Es in *.
      split_and!; try done. lia.
Qed.

(** The header is in the buffer, or there is none to come. *)
Lemma header_run c : exists r c',
  (match find header_end (buffer_ c) with Some pos => ret (Some (Some pos)) | None => read_header (S (weight_of (s_in (fd_ c)))) end) c = Ok (r, c') /\
  reads_only c c' /\
  match r with
  | Some (Some pos) => find header_end (buffer_ c') = Some pos /\ unread c' = unread c
  | _ => find header_end (unread c) = None
  end.
Proof.
  destruct (find header_end (buffer_ c)) as [pos|] eqn:E; [|apply read_header_spec; [lia|done]].
  exists (Some (Some pos)), c. split; [done|]. split; [by split_and!|done].
Qed.

Lemma GetNextRequest_next c r rest : client_ok r -> unread c = render r ++ rest ->
  exists c', GetNextRequest c = Ok (Some (received r), c') /\ unread c' = rest /\
    s_out (fd_ c') = s_out (fd_ c) /\ s_sent (fd_ c') = s_sent (fd_ c) /\ (load c' < load c)%nat.
Proof.
  intros Hr Hp. destruct (header_run c) as (res & c1 & E & (H1 & H2 & H3) & H). unfold GetNextRequest. rewrite !bind_gets. step E.
  destruct res as [[pos|]|]; [|by rewrite Hp, find_render in H by done..]. destruct H as [Ef Hp1].
  assert (Hft : find header_end (render r ++ rest) = Some pos) by (rewrite <- Hp, <- Hp1; by apply find_app).
  destruct (find_render_take r rest pos Hr Hft) as [Ht Hd]. apply find_bound in Ef. change (length header_end) with 4%nat in Ef.
  rewrite <- Hp, <- Hp1 in Ht, Hd. unfold unread in Ht, Hd. rewrite take_app_le in Ht by done. rewrite drop_app_le in Hd by done.
  assert (Ep : ParseRequest (pos + 4) c1 = Ok (received r, c1)).
  { apply (ParseRequest_render r (drop (pos + 4) (buffer_ c1))); [done|by rewrite <- Ht, take_drop|]. rewrite <- Ht at 1. by rewrite take_drop. }
  step Ep. rewrite bind_gets. eexists. split; [done|]. unfold unread, load. cbn [fd_ buffer_]. split_and!; try done.
  rewrite length_drop. unfold load in H3. lia.
Qed.

Lemma GetNextRequest_none c : find header_end (unread c) = None ->
  exists c', GetNextRequest c = Ok (None, c') /\ s_sent (fd_ c') = s_sent (fd_ c).
Proof.
  intros Hp. destruct (header_run c) as (res & c1 & E & (H1 & H2 & H3) & H). unfold GetNextRequest. rewrite !bind_gets. step E.
  exists c1. destruct res as [[pos|]|]; try done. destruct H as [Ef Hp1]. apply (find_app _ _ (stream (s_in (fd_ c1)))) in Ef. unfold unread in *. congruence.
Qed.

(** ** Writing *)

Lemma WriteResponse_all resp c : accepting (s_out (fd_ c)) -> Z.of_nat (length (GenerateResponseString resp)) < 2 ^ 31 ->
  exists c', WriteResponse resp c = Ok (true, c') /\ unread c' = unread c /\ load c' = load c /\ accepting (s_out (fd_ c')) /\
    s_sent (fd_ c') = s_sent (fd_ c) ++ GenerateResponseString resp.
Proof.
  intros Ha Hl. unfold WriteResponse. set (str := GenerateResponseString resp) in *. rewrite wraps_small by (bound_lia || split; bound_lia).
  destruct (write_loop_accepting (s_out (fd_ c)) str Ha) as (outs & E & Ha').
  assert (Hrun : on_socket (WrappedWrite str (Z.of_nat (length str))) c =
    Ok (Z.of_nat (length str), mk_conn (mk_socket (s_in (fd_ c)) outs (s_sent (fd_ c) ++ str)) (buffer_ c))).
  { unfold on_socket, WrappedWrite. by rewrite Nat2Z.id, firstn_all, E. }
  step Hrun. eexists. by rewrite Z.eqb_refl.
Qed.
End boost.
