(* ===== verification/HttpServer.v ===== *)
(** The web server of [uw_cse333/hw/hw4]: [HttpServer.cc], which answers the requests of a
    connection in a task of the thread pool, [FileReader.cc], the calls of [ServerSocket.cc]
    that open the listening socket and accept connections, and the arguments of
    [http333d.cc].  Files are what [stat], [open] and [read] answer for a path.  What is
    printed, and the names and addresses [Accept] looks up to print them, are left out. *)
From Stdlib Require Import ZArith String.
From S2P Require Import Prelude Boost Alloc HashTable Table FileParser HttpUtils HttpConnection ThreadPool.
Open Scope Z_scope.

(** A connection and the heap of the process. *)
Record world : Type := mk_world { conn : HttpConnection; heap : store hash_ops }.

Definition on_conn {A} (m : M HttpConnection A) : M world A := fun w =>
  match m (conn w) with Ok (a, c) => Ok (a, mk_world c (heap w)) | Err e => Err e end.
Definition on_heap {A} (m : M (store hash_ops) A) : M world A := fun w =>
  match m (heap w) with Ok (a, h) => Ok (a, mk_world (conn w) h) | Err e => Err e end.

Section server.
Context {B : Boost} (files : list Z -> file_script).

(** *** FileReader *)

Record FileReader : Type := mk_reader { basedir_ : list Z; fname_ : list Z }.

Definition FileReader_ReadFile (r : FileReader) : M world (option (list Z)) :=
  let fullfile := basedir_ r ++ chars "/" ++ fname_ r in
  let* ptr := on_heap (ReadFile (files (c_string fullfile))) in
  match ptr with
  | None => ret None
  | Some (buf, size) => do* on_heap (lift (release 1)); ret (Some (take (Z.to_nat size) buf))
  end.

(** *** HttpServer.cc *)

Definition getContentType (fname : list Z) : list Z :=
  if ends_with fname (chars ".html") then chars "text/html"
  else if ends_with fname (chars ".htm") then chars "text/html"
  else if ends_with fname (chars ".jpeg") then chars "image/jpeg"
  else if ends_with fname (chars ".jpg") then chars "image/jpeg"
  else if ends_with fname (chars ".png") then chars "image/png"
  else chars "text/xml".

(** [substr] past the end throws, which nothing catches. *)
Definition substr_from {S} (n : nat) (s : list Z) : M S (list Z) :=
  if (length s <? n)%nat then fail AssertFailed else ret (drop n s).

Definition ProcessFileRequest (uri basedir : list Z) : M world HttpResponse :=
  let* fname := substr_from 8 (path_ (Parse uri new_URLParser)) in
  let* content := FileReader_ReadFile (mk_reader basedir fname) in
  match content with
  | Some content => ret (mk_response (chars "HTTP/1.1") 200 (chars "Found") {[chars "Content-type" := getContentType fname]} content)
  | None =>
      ret (mk_response (chars "HTTP/1.1") 404 (chars "Not Found") ∅
        (chars "<html><body>Couldn't find file " ++ [34] ++ EscapeHTML fname ++ [34] ++ chars "</body></html>"))
  end.

(** The response is as its constructor leaves it: [code] is what [response_code] happens to
    hold. *)
Definition ProcessQueryRequest (code : Z) (uri : list Z) : M world HttpResponse := ret (mk_response [] code [] ∅ []).

Definition ProcessRequest (code : Z) (req : HttpRequest) (basedir : list Z) : M world HttpResponse :=
  if bool_decide (take 8 (URI req) = chars "/static/") then ProcessFileRequest (URI req) basedir
  else ProcessQueryRequest code (URI req).

(** What a [response_code] that is not set holds in the [i]-th response of the connection. *)
Context (junk : nat -> Z).

(** [while (!done)], [i] requests answered; the fuel covers a request per byte. *)
Fixpoint ThrFn_loop (fuel : nat) (i : nat) (basedir : list Z) : M world unit :=
  match fuel with
  | O => fail OutOfFuel
  | S fuel' =>
      let* req := on_conn GetNextRequest in
      match req with
      | None => ret tt
      | Some req =>
          let* resp := ProcessRequest (junk i) req basedir in
          let closing := match req_headers req !! chars "Connection" with Some v => bool_decide (v = chars "close") | None => false end in
          let* written := on_conn (WriteResponse resp) in
          if closing || negb written then ret tt else ThrFn_loop fuel' (S i) basedir
      end
  end.

Definition HttpServer_ThrFn (basedir : list Z) : M world unit :=
  let* n := gets (fun w => length (buffer_ (conn w)) + sum_list_with read_weight (s_in (fd_ (conn w))))%nat in
  ThrFn_loop (S n) 0 basedir.
End server.

(** *** ServerSocket *)

(** What the calls on one address of [getaddrinfo] answer: a descriptor from [socket], and
    whether [bind] and [listen] succeed. *)
Record address : Type := mk_address { a_socket : option Z; a_bind : bool; a_listen : bool }.

Fixpoint bind_loop (results : list address) : option Z :=
  match results with
  | [] => None
  | r :: rs =>
      match a_socket r with
      | None => bind_loop rs
      | Some serversock =>
          if negb (a_bind r) then bind_loop rs
          else if negb (a_listen r) then bind_loop rs
          else Some serversock
      end
  end.
Definition BindAndListen (getaddrinfo : option (list address)) : option Z :=
  match getaddrinfo with None => None | Some results => bind_loop results end.

(** [accept] answers an error, transient or not, or a connection. *)
Inductive accept_result : Type := AcceptError (transient : bool) | Accepted (fd : nat).

Fixpoint Accept (answers : list accept_result) : option nat * list accept_result :=
  match answers with
  | [] => (None, [])
  | AcceptError true :: answers' => Accept answers'
  | AcceptError false :: answers' => (None, answers')
  | Accepted fd :: answers' => (Some fd, answers')
  end.

(** *** Run *)

(** The tasks dispatched until [Accept] fails; the fuel covers an answer each. *)
Fixpoint accept_loop (fuel : nat) (answers : list accept_result) : list nat :=
  match fuel with
  | O => []
  | S fuel' => match Accept answers with (None, _) => [] | (Some fd, answers') => fd :: accept_loop fuel' answers' end
  end.

Definition kNumThreads : nat := 100.

(** The pool after the steps [cs] of its threads, or [false]. *)
Definition Run (getaddrinfo : option (list address)) (answers : list accept_result) (cs : list choice) : option ThreadPool :=
  match BindAndListen getaddrinfo with
  | None => None
  | Some _ => run kNumThreads cs (new_pool (accept_loop (S (length answers)) answers))
  end.

(** ** http333d.cc *)

Fixpoint digits_loop (s : list Z) (acc : Z) : Z :=
  match s with
  | c :: s' => if (48 <=? c) && (c <=? 57) then digits_loop s' (10 * acc + (c - 48)) else acc
  | [] => acc
  end.
(** The value, read as a [long] that stops at its bounds and cut to an [int]. *)
Fixpoint atoi (s : list Z) : Z :=
  match s with
  | [] => 0
  | c :: s' =>
      if isspace c then atoi s'
      else if c =? 45 then s32 (Z.max (- 2 ^ 63) (- digits_loop s' 0))
      else s32 (Z.min (2 ^ 63 - 1) (digits_loop (if c =? 43 then s' else s) 0))
  end.

(** The port, the path and the indices; [access] answers 0 for the names in [readable]. *)
Definition GetPortAndPath (access : list Z -> Z) (argv : list (list Z)) : res (Z * list Z * list (list Z)) :=
  match argv with
  | _ :: arg1 :: arg2 :: arg3 :: args =>
      let port := u16 (atoi arg1) in
      if port <=? 1023 then Err (Exit 1)
      else if negb (access arg2 =? 0) then Err (Exit 1)
      else if existsb (fun indicePath => negb (access indicePath =? 0)) (arg3 :: args) then Err (Exit 1)
      else Ok (port, arg2, [])
  | _ => Err (Exit 1)
  end.
