(* ===== verification/HttpServerSpec.v ===== *)
(** What the web server promises a client: each request it writes on its connection, in
    whatever pieces it arrives, is answered in turn with the file it asks for. *)
From Stdlib Require Import ZArith Lia String.
From S2P Require Import Prelude Boost Alloc HashTable Table FileParser FileParserSpec HttpUtils HttpUtilsSpec HttpConnection HttpConnectionSpec ThreadPool ThreadPoolSpec HttpServer.
Open Scope Z_scope.

(** ** What is promised *)



(** The type a name tells. *)
Definition content_types : list (list Z * list Z) :=
  [(chars ".html", chars "text/html"); (chars ".htm", chars "text/html"); (chars ".jpeg", chars "image/jpeg");
   (chars ".jpg", chars "image/jpeg"); (chars ".png", chars "image/png")].
Definition type_of (fname : list Z) : list Z :=
  match filter (fun t => t.1 `suffix_of` fname) content_types with t :: _ => t.2 | [] => chars "text/xml" end.

Definition with_body (head body : list Z) : list Z :=
  head ++ chars "Content-length: " ++ show_decimal (Z.of_nat (length body)) ++ crlf ++ crlf ++ body.
Definition found_text (fname content : list Z) : list Z :=
  with_body (chars "HTTP/1.1 200 Found" ++ crlf ++ chars "Content-type: " ++ type_of fname ++ crlf) content.
Definition blank_text (junk : Z) : list Z := with_body (chars " " ++ show_decimal junk ++ chars " " ++ crlf) [].


Section server.
Context {B : Boost} {L : BoostLaws B} (files : list Z -> file_script) (contents : list Z -> option (list Z)) (junk : nat -> Z) (basedir : list Z).


(** ** Handling one request *)









Context (Hbase : Forall (fun c => c <> 0) basedir).





End server.


(** ** Run *)

(** The connections made before [accept] fails for good. *)
Fixpoint accepted (answers : list accept_result) : list nat :=
  match answers with
  | [] | AcceptError false :: _ => []
  | AcceptError true :: answers' => accepted answers'
  | Accepted fd :: answers' => fd :: accepted answers'
  end.

Lemma Accept_first answers : match Accept answers with
  | (None, _) => accepted answers = []
  | (Some fd, answers') => accepted answers = fd :: accepted answers' /\ (length answers' < length answers)%nat
  end.
Proof.
  induction answers as [|[[]|fd] answers IH]; cbn; try done; [|by split; [|lia]].
  destruct (Accept answers) as [[fd|] answers']; [|done]. destruct IH as [-> H]. split; [done|lia].
Qed.

Lemma accept_loop_accepted fuel answers : (length answers < fuel)%nat -> accept_loop fuel answers = accepted answers.
Proof.
  revert answers. induction fuel as [|fuel IH]; intros answers Hl; [lia|]. cbn [accept_loop]. pose proof (Accept_first answers) as H.
  destruct (Accept answers) as [[fd|] answers']; [|done]. destruct H as [-> H]. f_equal. apply IH. lia.
Qed.

(** The server listens on the first address that can be bound; the connections it accepted
    are taken by the workers in the order they came, each by one, and when the server has
    shut down each was handled once. *)
Theorem Run_handles getaddrinfo answers cs p : Run getaddrinfo answers cs = Some p ->
  BindAndListen getaddrinfo <> None /\
  (exists rest, taken p ++ rest = accepted answers) /\ started p ++ in_hand p ≡ₚ taken p /\ owner p <> Aborted /\
  (owner p = Finished -> taken p = accepted answers /\ started p ≡ₚ accepted answers).
Proof.
  unfold Run. destruct (BindAndListen getaddrinfo); [|done]. rewrite accept_loop_accepted by lia. intros H.
  pose proof (reachable_inv _ _ _ (reachable_run _ _ cs _ p (reach_new _ _) H)) as Hi. split_and!; [done|..].
  - eexists. apply (iv_log _ _ _ Hi).
  - apply (iv_called _ _ _ Hi).
  - intros E. pose proof (iv_phase _ _ _ Hi) as Hph. unfold phase in Hph. by rewrite E in Hph.
  - intros E. by destruct (inv_finished _ _ _ Hi E) as (? & ? & _).
Qed.

(** * The web server on a small directory: a connection answered, and requests that go wrong. *)
Open Scope Z_scope.

(** Two files: one in the directory [d], one above it. *)
Definition page : list Z := chars "<p>hello</p>".
Definition small_contents (path : list Z) : option (list Z) :=
  if bool_decide (path = chars "d/a b.html") then Some page
  else if bool_decide (path = chars "d/../secret") then Some (chars "top secret") else None.
Definition small_files (path : list Z) : file_script :=
  match small_contents path with
  | Some c => mkFile (Some (true, Z.of_nat (length c))) true [ReadError true; ReadBytes (take 3 c); ReadBytes (drop 3 c)]
  | None => mkFile None false []
  end.
Definition fresh_heap : store hash_ops := mkStore (OL := hash_ops) (mkMem 1 (fun _ => false) 0 0) ∅ ∅.
Definition connected (ins : list read_result) (outs : list write_result) : world :=
  mk_world (mk_conn (mk_socket ins outs []) []) fresh_heap.

(** What the [response_code]s that are not set happen to hold. *)
Definition stale_codes (i : nat) : Z := match i with O => 7 | S O => 8 | _ => 9 end.

(** What the server sends on a connection. *)
Definition session (ins : list read_result) (outs : list write_result) : res (list Z) :=
  match HttpServer_ThrFn small_files stale_codes (chars "d") (connected ins outs) with
  | Ok (_, w) => Ok (s_sent (fd_ (conn w)))
  | Err e => Err e
  end.








(** *** What goes wrong *)

(** The file reader promises not to leave its directory, and [IsPathSafe] would tell, but
    nothing calls it: a name with [..] in it is served. *)
Definition secret_realpath (path : list Z) : option (list Z) :=
  if bool_decide (path = chars "d") then Some (chars "/srv/d")
  else if bool_decide (path = chars "d/../secret") then Some (chars "/srv/secret") else None.
Example path_escapes :
  IsPathSafe secret_realpath (chars "d") (chars "d/../secret") = false /\
  session [ReadBytes (chars "GET /static/../secret HTTP/1.1" ++ header_end)] [] = Ok (found_text (chars "../secret") (chars "top secret")).
Proof. split; vm_compute; reflexivity. Qed.

(** A request line of less than two words is taken apart all the same. *)
Example bad_request_faults : session [ReadBytes (chars "GET" ++ header_end)] [] = Err BadAccess /\ session [ReadBytes header_end] [] = Err BadAccess.
Proof. split; vm_compute; reflexivity. Qed.

(** A directory whose name only begins like the root's is taken for a part of it. *)
Definition sibling_realpath (path : list Z) : option (list Z) := Some (chars "/srv/" ++ path).
Example sibling_is_safe : IsPathSafe sibling_realpath (chars "ok") (chars "ok2/file") = true.
Proof. vm_compute. reflexivity. Qed.

(** The names of the header fields are stored in lower case and looked up with a capital, so
    a client that asks for the connection to be closed is served on. *)
Definition close_request : client_request := mk_creq (chars "GET") (chars "/") (chars "HTTP/1.1") [(chars "Connection", chars "close")].
Example close_ignored :
  req_headers (received close_request) !! chars "connection" = Some (chars "close") /\
  session [ReadBytes (render close_request ++ render close_request)] [] = Ok (blank_text 7 ++ blank_text 8).
Proof. split; vm_compute; reflexivity. Qed.

(** Values are put in lower case too, and a field whose value has a colon is dropped. *)
Definition host_request : client_request :=
  mk_creq (chars "GET") (chars "/") (chars "HTTP/1.1") [(chars "Host", chars "localhost:80"); (chars "User-Agent", chars "Me")].
Example header_values : exists r c,
  GetNextRequest (mk_conn (mk_socket [] [] []) (render host_request)) = Ok (Some r, c) /\
  req_headers r !! chars "host" = None /\ req_headers r !! chars "user-agent" = Some (chars "me").
Proof. eexists _, _. split; [vm_compute; reflexivity|]. split; vm_compute; reflexivity. Qed.

(** A text of one or two characters is not decoded. *)
Example short_not_decoded : URIDecode (chars "a+") = chars "a+" /\ URIDecode (chars "a+b") = chars "a b".
Proof. split; vm_compute; reflexivity. Qed.

(** A parser that is used again keeps the arguments of the URL before. *)
Example args_kept : args_ (Parse (chars "/x") (Parse (chars "/y?a=1") new_URLParser)) !! chars "a" = Some (chars "1").
Proof. vm_compute. reflexivity. Qed.

(** A port beyond 65535 wraps into the range that is accepted, and the index files that were
    checked are not handed on. *)
Example arguments_lost : GetPortAndPath (fun _ => 0) [chars "http333d"; chars "66560"; chars "dir"; chars "index"] = Ok (1024, chars "dir", []).
Proof. vm_compute. reflexivity. Qed.
